(* ===== verification/_CoqProject ===== *)
-Q . S2P
Prelude.v
Bytes.v
EptModel.v
AuditRing.v
AuditPersist.v
FrameAllocator.v
EptMap.v
EptRange.v
EptHw.v
BootMem.v
GuestPaging.v
BootIsolation.v
Sched.v
Firewall.v
Lapic.v
MmioDecode.v
Vars.v
VSwitch.v
FwMemory.v
PeLoad.v
PeGuest.v
Events.v
IrqChip.v
IrqInject.v
GuestRam.v
VirtioNet.v
VirtioBlk.v
VirtioDisk.v
MmioAlu.v
Volume.v
Fat.v
FileSys.v
FileSvc.v
DiskKeep.v
