(* ===== verification/Prelude.v ===== *)
(** * RayNu-V: a verification library of the hypervisor's core

    RayNu-V is a Type-1 hypervisor in Rust. It takes over the machine from the
    platform firmware, carves physical memory into a frame pool and guest slabs,
    builds the extended page tables (EPT) of its guests, and then runs them:
    scheduling virtual processors by credit, filtering what they may touch,
    emulating their interrupt controllers and injecting their interrupts, switching
    their network frames, serving them a UEFI firmware of its own, and keeping a hash-chained audit log of what
    happened. This library models those parts as executable definitions over
    machine-width integers and proves what makes each of them correct.

    ** Conventions

    A machine word is a [Z] in range ([u64], [u32] as hypotheses or invariants).
    The release build wraps on overflow, so a sum the source does not guard is
    written [⊞], [⊟] or [⊠] ([Prelude]) unless the file's invariant bounds it; a
    checked or saturating operation is the function of that name. Fallible code
    returns [result] or [option]; mutation is explicit state passing; loops are
    structural recursion on the list of indices the source iterates, or take fuel
    that the theorems show to be enough. The time stamp counter, the answers of
    CPUID and of the VMX capability MSRs, and the outcome of VMXON and VMXOFF are
    arguments of the definitions that read them. Rust names are kept; where two
    source types share a method name the component prefixes it ([var_set],
    [sw_new], [pool_new]).

    ** Files, and the source each models

    - [Prelude]: results, machine integers, tactics, hint databases, list lemmas.
    - [Bytes]: byte strings, slices and little-endian words, shared by the disk image
      and the image loader.
    - [EptModel] ([ept_model/src/lib.rs]): the ghost map of ADR-004, the abstract
      state to which the registry and the frame allocator are refined.
    - [AuditRing] ([audit/integrity.rs]) and [AuditPersist] ([audit/persist.rs], the
      flush of [mgmt/megaraid.rs]): the hash-chained ring; its disk image, the
      staging cell and the flush, with events arriving between its steps.
    - [FrameAllocator] ([memory/frame_allocator.rs]): the bitmap allocator.
    - [EptMap], [EptRange] ([memory/ept.rs]): the registry of guest pages and the
      registry of identity ranges.
    - [EptHw] ([memory/ept_hw.rs]): the EPT builders over a model of host memory,
      against the processor's walk [translate].
    - [BootMem] ([boot/mem.rs], [memory/boot_alloc.rs]): the bump pool, the choice
      of its region, and the promotion to the bitmap allocator.
    - [GuestPaging] ([memory/ept_hw.rs]): guest long-mode tables and the nested walk.
    - [BootIsolation] ([src/main.rs]): the boot stage that composes the four above,
      with the frames behind the two device windows and the walk of the host's own page
      tables ([arch/cpu.rs]), a memory of their own beside that of frames and slabs.
      Frames come through the class [FramePool], which the bump pool and the bitmap
      allocator both implement; the theorems about the stage are proved against the
      class.
    - [Sched] ([sched/scheduler.rs], [sched/vcpu.rs], [vmx/lifecycle.rs] and the
      slot choice of [vmx/launch.rs]).
    - [Firewall] ([sched/msr_firewall.rs], [sched/interrupt.rs], [sched/ipi.rs],
      [sched/hypercall.rs]).
    - [Lapic] ([devices/lapic_virt.rs]) and [MmioDecode] ([vmx/mmio_decode.rs]): the
      virtual interrupt controller, and the moves that trap on its page.
    - [Vars] ([raynu_f/vars.rs]) and [FwMemory] ([raynu_f/memory.rs]): the guest
      firmware's variable store and page allocator.
    - [VSwitch] ([net/mod.rs]): the learning switch.
    - [PeLoad] and [PeGuest] ([raynu_f/pe.rs]): the PE32+ parser with the loader over
      a byte buffer, and the loader that works through guest memory, reached by the
      class [GuestMem] that the guest slab implements.
    - [Events] ([raynu_f/events.rs]): firmware events, timers and waiting.
    - [IrqChip] ([devices/guest_irq.rs], the counter of [devices/guest_platform.rs]):
      the 8259 pair, the IOAPIC, the arbitration between timer and devices.
    - [IrqInject] ([try_inject_guest_irq] of [vmx/guest_uefi.rs]): the composition of
      [IrqChip], [Lapic] and the injection check of [Firewall] at every VM entry.
    - [GuestRam] ([guest_uefi_gpa_to_hpa] of [vmx/guest_uefi.rs]): guest memory as the
      devices reach it, with the pool of pages behind the reported memory.
    - [VirtioNet] ([devices/guest_virtio_net.rs]): the guest's network card.
    - [VirtioBlk] and [VirtioDisk] ([devices/guest_virtio_blk.rs]): the guest's disks:
      rings, requests and sector transfer over guest memory, reached by the class
      [GuestMap] that the translation of [GuestRam] implements; and the PCI functions
      with their registers, shared interrupt line and drains, which compose the queues
      with [VirtioNet] and [IrqChip].
    - [MmioAlu] (the arithmetic of [devices/guest_virtio_blk.rs] and its application in
      [vmx/guest_uefi.rs]): emulated instructions on device pages.
    - [Volume] ([raynu_f/gpt.rs], [raynu_f/blockio.rs], the CRC of [raynu_f/tables.rs]):
      disks as readers, the class [VolumeRead] that in-memory, offset and CD readers
      implement; partition table and block requests.
    - [Fat] ([raynu_f/fat.rs]): the FAT reader over any [VolumeRead].
    - [FileSys] ([raynu_f/filesystem.rs]): open files and the boot menu amended for the
      serial console. [FileSvc] (the File calls of [raynu_f/services.rs]): the same as
      the guest calls them, over the [GuestMem] of [PeGuest].
    - [DiskKeep] ([mgmt/disk_persist.rs]): the probe of the install disk.

    ** What the theorems show

    - Isolation. After the boot stage the EPT of every guest translates exactly its
      own region, no host address is reachable from two guests, no shell guest
      reaches an allocator frame, and the nested walk of a shell guest stays in its
      slab ([guests_isolated], [boot_guests_exact], [g0_ept_exact],
      [shell_nested_exact]); [guests_reach_own_tables] states what remains exposed.
      The builders are exact for every guest address ([build_identity_2m_bytes_exact],
      [firmware_alias_exact]; [firmware_alias_crossing_misplaced] is the case they
      get wrong).
    - Ownership. Allocator and registry operations are refinements of the ghost
      steps, error cases included, and every reachable registry has exclusive
      ownership; the range claim partitions the window.
    - Audit. Every appended ring verifies, a tampered interior record does not; the
      disk image round-trips, a corrupted byte is rejected, and a flush acknowledges
      only what the disk holds, also when its writes report success and store
      something else.
    - Scheduling and policy. The fair pick is exact and no slot starves; the MSR
      policy fails closed and the CPUID filter changes exactly the stated bits.
    - Interrupts. Under any sequence of operations the in-service register follows an
      abstract controller, and as long as no delivery is forced past the priorities
      deliveries and ends of interrupt follow a stack of rising priority classes
      ([nested_interrupts]; [forced_not_nested] is a forced run that does not); the
      countdown is exact; [x2apic_traps_exact] states which accesses the bitmap traps.
      The decoder accepts exactly the encodings of the 32-bit and 64-bit moves and
      loses the difference ([decode_exact]). The 8259 pair serves the first request of a priority list ([pic_take_exact]), the timer is
      not starved ([pit_not_starved]), an IOAPIC pin is delivered only for cause
      ([ioapic_deliveries]), every register keeps its type ([irq_typed]);
      [masked_cascade_lost] is the request that gets lost. An entry acknowledges at
      most one vector, the one it delivers ([try_inject_exact]).
    - Guest firmware. [AllocatePages] and [FreePages] are exact page by page and
      complete, the memory map tells the truth, what it calls conventional can be
      allocated; [SetVariable] refines a finite map and enumeration visits each
      variable once. Loading an image ends, with every slice of file and image
      in range but for the header copy, which panics exactly when the headers do not fit
      ([pe_load_safe]); it leaves the laid-out and relocated image ([pe_load_exact]), and
      gives the same through guest memory ([guest_load_equiv]; [long_headers_escape] is
      the image for which that loader writes past its destination); timers fire at their time and waiting ends,
      with the first event that is ready ([timer_exact], [wait_exact]).
    - Network. A frame is delivered only where its destination was last seen, and
      held back only for the stated reasons. The guest's card returns exactly the
      published transmit buffers ([drain_exact]) and keeps to the guest's memory and
      a frame's length behind its regions ([net_confined]); [rx_escapes] is the buffer
      that needs that margin, [carrier_change_lost] a link change that goes unseen.
    - Emulation. Results and flags of emulated instructions are those of exact integers
      ([alu_exact], [mul_exact], [div_exact], [scan_exact]) and of one-bit steps
      ([shift_exact]); conditions decide the comparison before them
      ([condition_after_cmp]). [inc_replaces_carry] and [movsx_fills_register] are
      instructions it gets wrong.
    - Disks. A request is served exactly ([request_served]), a queue run ends with its
      indices in step ([indices_in_step]) and keeps to the guest's memory whatever the
      guest publishes ([queue_confined]); a read-only device writes nothing
      ([readonly_never_writes]). Under any use the registers stay in range and the ISO
      unchanged ([disks_stay_sound]), the three disks share their line correctly
      ([shared_line]), and queue addresses read back ([queue_address_roundtrip]).
      [past_end_is_ok] and [split_sector_restarts] are transfers it gets wrong,
      [net_left_out] and [iso_pin_stuck] interrupts it loses or leaves on.
    - Files and volumes. The array checksum covers what is read and the first system
      partition is found ([array_crc_whole], [find_esp_first]); a transfer stays on its
      medium and partition ([transfer_in_store], [esp_transfer_in_partition]). A read of
      a file is a slice of its clusters laid end to end, as the fields of the allocation
      table link them ([read_chain_exact]), a lookup
      finds the first entry of the name ([find_in_dir_exact]), a path is resolved
      component by component ([resolve_by_components]), nothing outside the volume is
      looked at ([volume_confined]) and every walk ends ([walks_end]). Handles are exact
      ([open_exact], [reads_in_order]), a refused open leaves none behind
      ([failed_open_leaks_nothing]), and what the guest asks for arrives in its buffer
      ([file_read_delivers]). The amended menu is exact and is what the handle returns
      ([amend_exact], [menu_served]). A probe of the install disk forgets nothing
      ([probe_never_forgets]) and the pinned table answers as the disk did
      ([pin_answers_for_disk]). [long_table_refused], [fat_size_wraps] and [view_lost]
      are the cases that go wrong.
    - Device memory. Translation is injective, stable and confined to the guest's
      regions ([translation_sound]), what is advertised is mapped
      ([advertised_mapped]), and pages are scrubbed before reuse ([release_scrubs]).

    ** Bounds and fuel

    The region loop of the memory map takes as fuel the number of pages of the
    region, the enumeration of variables one step more than there are slots, and the
    host-memory writers iterate over explicit index lists; the relocation walk takes
    one step per eight bytes of its directory, and waiting one per reading of the
    clock up to one past the cap; each is proved to reach the end of its loop. A
    descriptor chain and a queue run have the bounds the source gives them; a copy
    takes one step per byte at most, a transfer one per 64 KiB. A walk along a FAT has the hops the source allows
    ([MAX_CHAIN_HOPS]) and a copy one step per cluster the buffer spans; a file read
    takes one step per 4 KiB, a path and the lines of a menu one per byte. Page
    numbers are bounded by the 52-bit physical address space, which is what keeps address arithmetic from wrapping; where a guest
    supplies the operand the sum is kept at its width.

    ** Not modelled

    The VMX launch path and exit handlers ([vmx/launch.rs], [vmx/guest_uefi.rs],
    [vmx/ops.rs]) beyond the decisions named above, since they program hardware
    state through inline assembly; the register-level drivers ([mgmt/xhci.rs],
    [mgmt/megaraid.rs], [mgmt/bcm5720_mmio.rs]); the UEFI boot glue ([boot/]); the
    management interface and the milestone gates, which format text over the
    components modelled here. The drivers behind a disk (controller image, spare, logical
    unit, ISO library) are parameters of its model. The UART and IDE device models emit text and answer
    probes for one guest kernel. What is left of the guest firmware
    ([raynu_f/services.rs], [raynu_f/tables.rs], [raynu_f/protocol.rs]) builds tables and
    dispatches to the stores, loaders and files above; the readers behind a volume
    (controller, logical unit, reserved memory) are parameters of its model. *)

From stdpp Require Export base numbers list gmap fin_maps tactics list_numbers.
From Stdlib Require Export ZArith Lia Bool.

#[global] Open Scope Z_scope.

(** ** Fallible code: Rust's [Result] *)

Inductive result (A E : Type) : Type :=
| Ok (a : A)
| Err (e : E).
Arguments Ok {A E} a.
Arguments Err {A E} e.

Definition result_bind {A B E} (r : result A E) (k : A → result B E) : result B E :=
  match r with Ok a => k a | Err e => Err e end.

(** [opt.ok_or(e)?] and friends. *)
Definition ok_or {A E} (o : option A) (e : E) : result A E :=
  match o with Some a => Ok a | None => Err e end.

Definition is_ok {A E} (r : result A E) : bool :=
  match r with Ok _ => true | Err _ => false end.

#[global] Instance result_eq_dec `{EqDecision A, EqDecision E} : EqDecision (result A E).
Proof. solve_decision. Defined.

Declare Scope machine_scope.
Delimit Scope machine_scope with mach.
#[global] Open Scope machine_scope.

Notation "'let?' x ':=' r 'in' k" := (result_bind r (λ x, k))
  (at level 10, x pattern, r at level 100, k at level 200,
   format "'[v' 'let?'  x  ':='  r  'in' '/' k ']'") : machine_scope.

(** ** Machine integers

    A [u64] is a [Z] in [0, 2^64). Arithmetic written with a plain operator in
    the release build wraps; the checked and saturating forms are the methods
    of the same name. *)

Definition W64 : Z := 18446744073709551616.
Definition U64_MAX : Z := 18446744073709551615.

Definition u64 (z : Z) : Prop := 0 ≤ z < W64.
Definition u64b (z : Z) : bool := (0 <=? z) && (z <? W64).
Definition wrap64 (z : Z) : Z := z mod W64.
Definition add64 (a b : Z) : Z := wrap64 (a + b).
Definition sub64 (a b : Z) : Z := wrap64 (a - b).
Definition mul64 (a b : Z) : Z := wrap64 (a * b).
Definition checked_add64 (a b : Z) : option Z :=
  if a + b <? W64 then Some (a + b) else None.
Definition checked_mul64 (a b : Z) : option Z := if a * b <? W64 then Some (a * b) else None.
Definition sat_add64 (a b : Z) : Z := Z.min (a + b) U64_MAX.
Definition sat_sub64 (a b : Z) : Z := Z.max (a - b) 0.
Definition sat_mul64 (a b : Z) : Z := Z.min (a * b) U64_MAX.
(** [!m] on a [u64]. *)
Definition bnot64 (m : Z) : Z := Z.lxor m (Z.ones 64).
(** [!m] on a [u32]. *)
Definition bnot32 (m : Z) : Z := Z.lxor m (Z.ones 32).

Notation "a ⊞ b" := (add64 a b) (at level 50, left associativity) : machine_scope.
Notation "a ⊟ b" := (sub64 a b) (at level 50, left associativity) : machine_scope.
Notation "a ⊠ b" := (mul64 a b) (at level 40, left associativity) : machine_scope.

#[global] Instance u64_dec z : Decision (u64 z).
Proof. unfold u64; apply _. Defined.

Create HintDb machine.
Create HintDb mach_bits.

Lemma wrap64_small z : u64 z → wrap64 z = z.
Proof. apply Z.mod_small. Qed.

Lemma wrap64_u64 z : u64 (wrap64 z).
Proof. apply Z.mod_pos_bound. reflexivity. Qed.

Lemma add64_small a b : 0 ≤ a → 0 ≤ b → a + b < W64 → a ⊞ b = a + b.
Proof. intros. apply wrap64_small. split; lia. Qed.

Lemma sub64_small a b : u64 a → 0 ≤ b ≤ a → a ⊟ b = a - b.
Proof. unfold u64; intros. apply wrap64_small. split; lia. Qed.

Lemma mul64_small a b : 0 ≤ a * b < W64 → a ⊠ b = a * b.
Proof. apply wrap64_small. Qed.

Lemma add64_u64 a b : u64 (a ⊞ b).
Proof. apply wrap64_u64. Qed.

Lemma checked_add64_Some a b c :
  checked_add64 a b = Some c ↔ c = a + b ∧ a + b < W64.
Proof. unfold checked_add64. destruct (_ <? _) eqn:E; naive_solver lia. Qed.

Lemma checked_add64_None a b : checked_add64 a b = None ↔ W64 ≤ a + b.
Proof. unfold checked_add64. destruct (_ <? _) eqn:E; naive_solver lia. Qed.

#[export] Hint Resolve wrap64_u64 add64_u64 : machine.

(** Turn hypotheses and goals about [u64] and boolean comparisons into what
    [lia] understands. *)
Ltac mach_unfold := unfold sat_add64, sat_sub64, sat_mul64, u64, W64, U64_MAX in *.
Ltac mlia := mach_unfold; lia.
Ltac dlia := mach_unfold; Z.to_euclidean_division_equations; lia.

(** Destruct the matches and conditionals of a hypothesis one at a time. *)
Ltac dmatch H :=
  repeat (match type of H with
          | context [match ?e with _ => _ end] => destruct e eqn:?; simplify_eq
          end; try discriminate H).

(** Destruct conditionals of the goal, remembering the tests. *)
Ltac gmatch :=
  repeat match goal with
         | |- context [if ?b then _ else _] => destruct b eqn:?
         | |- context [match ?e with _ => _ end] => destruct e eqn:?
         end.

(** ** Bit operations *)

(** A word of [n] bits. *)
Definition below (n x : Z) : Prop := 0 ≤ x < 2 ^ n.

Lemma below_high n x i : below n x → n ≤ i → Z.testbit x i = false.
Proof.
  intros Hx Hi. destruct (decide (x = 0)) as [->|]; [apply Z.bits_0|]. destruct Hx as [Hx Hlt].
  apply Z.bits_above_log2; [lia|]. eapply Z.lt_le_trans; [|exact Hi]. apply Z.log2_lt_pow2; lia.
Qed.

Lemma below_of_bits n x : 0 ≤ n → 0 ≤ x → (∀ i, n ≤ i → Z.testbit x i = false) → below n x.
Proof.
  intros Hn Hx H. split; [done|]. destruct (decide (x = 0)) as [->|N]; [by apply Z.pow_pos_nonneg|].
  apply Z.log2_lt_pow2; [lia|]. destruct (Z.le_gt_cases n (Z.log2 x)) as [L|]; [|lia].
  specialize (H _ L). rewrite Z.bit_log2 in H by lia. done.
Qed.

Lemma below_lor n x y : 0 ≤ n → below n x → below n y → below n (Z.lor x y).
Proof.
  intros Hn Hx Hy. apply below_of_bits; [done|apply Z.lor_nonneg; split; [apply Hx|apply Hy]|].
  intros i Hi. by rewrite Z.lor_spec, !(below_high n).
Qed.

Lemma below_ldiff n x y : 0 ≤ n → below n x → below n (Z.ldiff x y).
Proof.
  intros Hn Hx. apply below_of_bits; [done|apply Z.ldiff_nonneg; left; apply Hx|].
  intros i Hi. by rewrite Z.ldiff_spec, (below_high n).
Qed.

Lemma below_land n x y : 0 ≤ n → below n y → below n (Z.land x y).
Proof.
  intros Hn Hy. apply below_of_bits; [done|apply Z.land_nonneg; right; apply Hy|].
  intros i Hi. rewrite Z.land_spec, (below_high n y) by done. apply andb_false_r.
Qed.

Lemma below_mono n m x : n ≤ m → below n x → below m x.
Proof.
  intros H [? L]. split; [done|]. eapply Z.lt_le_trans; [exact L|].
  destruct (decide (0 ≤ n)); [apply Z.pow_le_mono_r; lia|]. rewrite Z.pow_neg_r in L; lia.
Qed.

Lemma one_bit b i : 0 ≤ b → Z.testbit (Z.shiftl 1 b) i = (i =? b).
Proof.
  intros. rewrite Z.shiftl_1_l. destruct (Z.eqb_spec i b) as [->|N].
  - by apply Z.pow2_bits_true.
  - apply Z.pow2_bits_false. lia.
Qed.

Lemma below_one_bit n b : 0 ≤ b < n → below n (Z.shiftl 1 b).
Proof. intros. rewrite Z.shiftl_1_l. split; [apply Z.pow_nonneg; lia|apply Z.pow_lt_mono_r; lia]. Qed.

#[export] Hint Resolve below_lor below_ldiff below_land below_one_bit : machine.

(** A word is zero exactly when none of its bits is set. *)
Lemma below_zero n x : below n x → (∀ i, 0 ≤ i < n → Z.testbit x i = false) → x = 0.
Proof.
  intros Hx H. apply Z.bits_inj'. intros i Hi. rewrite Z.bits_0.
  destruct (Z.lt_ge_cases i n); [by apply H|by apply (below_high n)].
Qed.

Lemma testbit_u64_high z i : u64 z → 64 ≤ i → Z.testbit z i = false.
Proof. exact (below_high 64 z i). Qed.

Lemma u64_of_bits z : 0 ≤ z → (∀ i, 64 ≤ i → Z.testbit z i = false) → u64 z.
Proof. by apply (below_of_bits 64). Qed.

Lemma u64_lor x y : u64 x → u64 y → u64 (Z.lor x y).
Proof. by apply (below_lor 64). Qed.

Lemma u64_land x y : u64 x → u64 (Z.land x y).
Proof.
  intros Hx. apply u64_of_bits; [apply Z.land_nonneg; mlia|].
  intros i Hi. by rewrite Z.land_spec, testbit_u64_high.
Qed.

Lemma u64_lxor x y : u64 x → u64 y → u64 (Z.lxor x y).
Proof.
  intros Hx Hy. apply u64_of_bits; [apply Z.lxor_nonneg; mlia|].
  intros i Hi. by rewrite Z.lxor_spec, !testbit_u64_high.
Qed.

Lemma u64_pow2 k : 0 ≤ k < 64 → u64 (2 ^ k).
Proof.
  intros Hk. split; [apply Z.pow_nonneg; lia|].
  change W64 with (2 ^ 64). apply Z.pow_lt_mono_r; lia.
Qed.

#[export] Hint Resolve u64_lor u64_land u64_lxor u64_pow2 : machine.

Lemma land_bnot64 x m : u64 x → Z.land x (bnot64 m) = Z.ldiff x m.
Proof.
  intros Hx. apply Z.bits_inj'; intros i Hi. unfold bnot64.
  rewrite Z.land_spec, Z.ldiff_spec, Z.lxor_spec.
  destruct (decide (i < 64)).
  - rewrite Z.ones_spec_low by lia. by rewrite xorb_true_r.
  - by rewrite testbit_u64_high by (done || lia).
Qed.

Lemma clear_low x k : u64 x → 0 ≤ k →
  Z.land x (bnot64 (Z.ones k)) = x / 2 ^ k * 2 ^ k.
Proof.
  intros Hx Hk. rewrite land_bnot64 by done.
  by rewrite Z.ldiff_ones_r, Z.shiftr_div_pow2, Z.shiftl_mul_pow2.
Qed.

(** [x & 0xfff] and [x & !0xfff]. *)
Lemma land_page x : Z.land x 4095 = x mod 4096.
Proof. exact (Z.land_ones x 12 ltac:(lia)). Qed.

Lemma page_floor x : u64 x → Z.land x (bnot64 4095) = x / 4096 * 4096.
Proof. intros. by apply (clear_low x 12). Qed.

Lemma page_floor_aligned x : u64 x → x mod 4096 = 0 → Z.land x (bnot64 4095) = x.
Proof. intros Hu Hx. rewrite page_floor by done. dlia. Qed.

Lemma page_floor_u64 x : u64 x → u64 (Z.land x (bnot64 4095)).
Proof. intros Hu. rewrite page_floor by done. dlia. Qed.

Lemma page_floor_mod x : u64 x → Z.land x (bnot64 4095) mod 4096 = 0.
Proof. intros Hu. rewrite page_floor by done. apply Z_mod_mult. Qed.

Lemma land_pow2_test x k : 0 ≤ k →
  (Z.land x (2 ^ k) =? 0) = negb (Z.testbit x k).
Proof.
  intros Hk. destruct (Z.testbit x k) eqn:E; simpl.
  - apply Z.eqb_neq. intros H0.
    assert (Z.testbit (Z.land x (2 ^ k)) k = true) as H1.
    { by rewrite Z.land_spec, E, Z.pow2_bits_true. }
    by rewrite H0, Z.testbit_0_l in H1.
  - apply Z.eqb_eq, Z.bits_inj'. intros i Hi.
    rewrite Z.land_spec, Z.testbit_0_l, Z.pow2_bits_eqb by done.
    destruct (k =? i) eqn:Ek; [|by rewrite andb_false_r].
    apply Z.eqb_eq in Ek as ->. by rewrite E.
Qed.

(** A multiple of a power of two has no bit in common with what is below it. *)
Lemma land_mul_pow2_low h c k : 0 ≤ k → 0 ≤ c < 2 ^ k → Z.land (h * 2 ^ k) c = 0.
Proof.
  intros Hk Hc. apply Z.bits_inj'; intros i Hi.
  rewrite Z.land_spec, Z.testbit_0_l. destruct (decide (i < k)).
  - by rewrite Z.mul_pow2_bits_low.
  - destruct (decide (c = 0)) as [->|]; [by rewrite Z.testbit_0_l, andb_false_r|].
    rewrite (Z.bits_above_log2 c); [by rewrite andb_false_r|lia|].
    apply Z.lt_le_trans with k; [|lia]. apply Z.log2_lt_pow2; lia.
Qed.

Lemma lor_mul_pow2 h c k : 0 ≤ k → 0 ≤ c < 2 ^ k → Z.lor (h * 2 ^ k) c = h * 2 ^ k + c.
Proof. intros Hk Hc. symmetry. by apply Z.add_nocarry_lor, land_mul_pow2_low. Qed.

(** A page-aligned word plus bits below the page: [lor] is addition, and a
    mask below the page sees the low part only. *)
Lemma land_high_low h c : 0 ≤ c < 4096 → Z.land (4096 * h) c = 0.
Proof. intros Hc. rewrite Z.mul_comm. by apply (land_mul_pow2_low h c 12). Qed.

Lemma lor_page h c : 0 ≤ c < 4096 → Z.lor c (4096 * h) = 4096 * h + c.
Proof.
  intros Hc. rewrite Z.lor_comm. symmetry.
  apply Z.add_nocarry_lor, land_high_low. lia.
Qed.

Lemma land_low_part h c m : 0 ≤ c < 4096 → 0 ≤ m < 4096 →
  Z.land (4096 * h + c) m = Z.land c m.
Proof.
  intros Hc Hm. rewrite <- lor_page by done.
  by rewrite Z.land_lor_distr_l, (land_high_low h m), Z.lor_0_r.
Qed.

(** The power-of-two test [x & (x - 1) == 0]. *)
Lemma pow2_of_land x : 0 < x → Z.land x (x - 1) = 0 → x = 2 ^ Z.log2 x.
Proof.
  intros Hx Hl. pose proof (Z.log2_spec x Hx) as [Hlo Hhi].
  destruct (decide (x = 2 ^ Z.log2 x)) as [|Hne]; [done|]. exfalso.
  pose proof (Z.pow_pos_nonneg 2 (Z.log2 x) ltac:(lia) (Z.log2_nonneg x)).
  assert (Z.log2 (x - 1) = Z.log2 x) as El by (apply Z.log2_unique; [apply Z.log2_nonneg|lia]).
  assert (Z.testbit (Z.land x (x - 1)) (Z.log2 x) = true) as Ht.
  { rewrite Z.land_spec, (Z.bit_log2 x), <- El by done. apply Z.bit_log2. lia. }
  by rewrite Hl, Z.testbit_0_l in Ht.
Qed.

Lemma land_pow2_mod x m : 0 < m → Z.land m (m - 1) = 0 → Z.land x (m - 1) = x mod m.
Proof.
  intros Hm Hl. rewrite (pow2_of_land m Hm Hl) at 2.
  rewrite <- Z.land_ones by apply Z.log2_nonneg. f_equal.
  rewrite Z.ones_equiv, <- (pow2_of_land m Hm Hl). lia.
Qed.

(** ** Lists *)

(** Rust's [for] over an option array with [find]: first hit. *)
Fixpoint find_map {A B} (f : A → option B) (l : list A) : option B :=
  match l with
  | [] => None
  | x :: l' => match f x with Some b => Some b | None => find_map f l' end
  end.

Lemma find_map_Some {A B} (f : A → option B) l b :
  find_map f l = Some b → ∃ i x, l !! i = Some x ∧ f x = Some b ∧
    ∀ j y, (j < i)%nat → l !! j = Some y → f y = None.
Proof.
  induction l as [|x l IH]; simpl; [done|].
  destruct (f x) eqn:E; intros H; simplify_eq.
  - exists 0%nat, x. split_and!; [done..|]. lia.
  - destruct (IH H) as (i & y & ? & ? & Hmin). exists (S i), y.
    split_and!; [done..|]. intros [|j] z Hj Hz; simpl in *; simplify_eq; [done|].
    eapply Hmin; [|done]. lia.
Qed.

Lemma find_map_app {A B} (f : A → option B) l1 l2 :
  find_map f (l1 ++ l2) = match find_map f l1 with Some b => Some b | None => find_map f l2 end.
Proof. induction l1 as [|x l1 IH]; simpl; [done|]. by destruct (f x). Qed.

Lemma find_map_None {A B} (f : A → option B) l :
  find_map f l = None ↔ ∀ x, x ∈ l → f x = None.
Proof.
  induction l as [|x l IH]; simpl.
  - split; [intros _ x Hx; by apply elem_of_nil in Hx|done].
  - destruct (f x) eqn:E.
    + split; [done|]. intros H. specialize (H x (list_elem_of_here _ _)). congruence.
    + rewrite IH. split; intros H y.
      * intros [->|Hy]%elem_of_cons; auto.
      * intros Hy. apply H. by apply elem_of_cons; right.
Qed.

(** Index of the first element that satisfies a test. *)
Fixpoint find_index {A} (f : A → bool) (l : list A) : option nat :=
  match l with
  | [] => None
  | x :: l' => if f x then Some 0%nat else S <$> find_index f l'
  end.

Lemma find_index_Some {A} (f : A → bool) l i :
  find_index f l = Some i → ∃ x, l !! i = Some x ∧ f x = true ∧
    ∀ j y, (j < i)%nat → l !! j = Some y → f y = false.
Proof.
  revert i. induction l as [|x l IH]; intros i; simpl; [done|].
  destruct (f x) eqn:E; intros H; simplify_eq/=.
  - exists x. split_and!; [done..|lia].
  - apply fmap_Some in H as (k & Hk & ->). destruct (IH k Hk) as (y & ? & ? & Hmin).
    exists y. split_and!; [done..|].
    intros [|j] z Hj Hz; simpl in *; simplify_eq; [done|]. eapply Hmin; [|done]. lia.
Qed.

Lemma find_index_None {A} (f : A → bool) l :
  find_index f l = None ↔ ∀ x, x ∈ l → f x = false.
Proof.
  induction l as [|x l IH]; simpl.
  - split; [intros _ x Hx; by apply elem_of_nil in Hx|done].
  - destruct (f x) eqn:E.
    + split; [done|]. intros H. specialize (H x (list_elem_of_here _ _)). congruence.
    + rewrite fmap_None, IH. split; intros H y.
      * intros [->|Hy]%elem_of_cons; auto.
      * intros Hy. apply H. by apply elem_of_cons; right.
Qed.

Lemma find_index_app_here {A} (f : A → bool) l1 x l2 n :
  (∀ y, y ∈ l1 → f y = false) → f x = true → length l1 = n →
  find_index f (l1 ++ x :: l2) = Some n.
Proof.
  intros H1 Hx <-. induction l1 as [|y l1 IH]; simpl; [by rewrite Hx|].
  rewrite H1 by apply list_elem_of_here. rewrite IH; [done|].
  intros z Hz. apply H1. by apply elem_of_cons; right.
Qed.

(** [seqZ] unfolds from the left. *)
Lemma seqZ_S (m : Z) (n : nat) : seqZ m (Z.of_nat (S n)) = m :: seqZ (m + 1) (Z.of_nat n).
Proof. rewrite seqZ_cons by lia. f_equal. f_equal; lia. Qed.

Lemma foldl_seqZ_ext {A} (f g : A → Z → A) a s n :
  (∀ x i, s ≤ i < s + n → f x i = g x i) → foldl f a (seqZ s n) = foldl g a (seqZ s n).
Proof.
  intros Hfg. assert (∀ l, (∀ i, i ∈ l → s ≤ i < s + n) → ∀ a, foldl f a l = foldl g a l) as H.
  { induction l as [|i l IH]; intros Hl x; simpl; [done|].
    rewrite Hfg by apply Hl, list_elem_of_here. apply IH. intros j Hj. apply Hl.
    by apply elem_of_cons; right. }
  apply H. intros i. by rewrite elem_of_seqZ.
Qed.

(** A decidable fact about a byte, by enumeration. *)
Lemma byte_forall (P : Z → bool) : forallb P (seqZ 0 256) = true → ∀ b, 0 ≤ b < 256 → P b = true.
Proof. intros H b Hb. rewrite forallb_forall in H. apply H, list_elem_of_In, elem_of_seqZ. lia. Qed.

(** A list around one of its positions, and the update there. *)
Lemma split_at {A} (s : list A) i x : s !! i = Some x →
  ∃ s1 s2, s = s1 ++ x :: s2 ∧ ∀ y, <[i := y]> s = s1 ++ y :: s2.
Proof.
  intros H. exists (take i s), (drop (S i) s). split; [by rewrite take_drop_middle|].
  intros y. apply insert_take_drop. by eapply lookup_lt_Some.
Qed.
