(* ===== verification/Bytes.v ===== *)
(** * Byte strings

    Bytes are integers in [0, 256); a buffer is the list of its bytes. The slices,
    copies and little-endian words that the disk image of the audit log and the
    image loader share. *)

From S2P Require Import Prelude.

Definition is_byte (b : Z) : Prop := 0 ≤ b < 256.

#[global] Instance is_byte_dec b : Decision (is_byte b).
Proof. unfold is_byte. apply _. Defined.

(** [buf[off..off + n]], [buf[off..].copy_from_slice(bs)], [to_le_bytes] and
    [from_le_bytes]. *)
Definition slice (off n : Z) (l : list Z) : list Z :=
  take (Z.to_nat n) (drop (Z.to_nat off) l).

Definition splice (off : Z) (bs l : list Z) : list Z :=
  take (Z.to_nat off) l ++ bs ++ drop (Z.to_nat off + length bs) l.

Fixpoint to_le (n : nat) (z : Z) : list Z :=
  match n with O => [] | S n' => z mod 256 :: to_le n' (z / 256) end.

Fixpoint from_le (bs : list Z) : Z :=
  match bs with [] => 0 | b :: rest => b + 256 * from_le rest end.

Definition blen (l : list Z) : Z := Z.of_nat (length l).

(** ** Reading back what was written *)

Lemma length_to_le n : ∀ z, length (to_le n z) = n.
Proof. induction n as [|n IH]; intros z; simpl; [done|]. by rewrite IH. Qed.

Lemma from_to_le n : ∀ z, 0 ≤ z < 256 ^ Z.of_nat n → from_le (to_le n z) = z.
Proof.
  induction n as [|n IH]; intros z Hz; simpl.
  - change (256 ^ Z.of_nat 0) with 1 in Hz. lia.
  - rewrite Nat2Z.inj_succ, Z.pow_succ_r in Hz by lia. rewrite IH; dlia.
Qed.

Lemma from_to_le_u64 z : u64 z → from_le (to_le 8 z) = z.
Proof. intros Hz. apply from_to_le. change (256 ^ Z.of_nat 8) with W64. done. Qed.

Lemma blen_slice off n l : 0 ≤ off → 0 ≤ n → off + n ≤ blen l → blen (slice off n l) = n.
Proof. intros. unfold blen, slice in *. rewrite length_take, length_drop. lia. Qed.

Lemma slice_split off a b l : 0 ≤ off → 0 ≤ a → 0 ≤ b → slice off a l ++ slice (off + a) b l = slice off (a + b) l.
Proof.
  intros. unfold slice. rewrite !Z2Nat.inj_add, <-drop_drop by lia. apply take_take_drop.
Qed.

Lemma slice_slice a n b m l : 0 ≤ a → 0 ≤ b → 0 ≤ m → b + m ≤ n → slice b m (slice a n l) = slice (a + b) m l.
Proof.
  intros. unfold slice. rewrite skipn_firstn_comm, take_take, drop_drop, Z2Nat.inj_add by lia. do 2 f_equal. lia.
Qed.

Lemma slice_whole l : slice 0 (blen l) l = l.
Proof. unfold slice, blen. rewrite Nat2Z.id. by apply firstn_all. Qed.

Lemma slice_none off l : slice off 0 l = [].
Proof. done. Qed.

Lemma slice_past off n l : blen l ≤ off → slice off n l = [].
Proof. intros. unfold slice, blen in *. rewrite drop_ge by lia. apply take_nil. Qed.

Lemma slice_app_left off n a b : 0 ≤ off → off + n ≤ blen a → slice off n (a ++ b) = slice off n a.
Proof.
  intros. unfold slice, blen in *. destruct (decide (0 ≤ n)).
  - rewrite drop_app_le by lia. rewrite take_app_le; [done|]. rewrite length_drop. lia.
  - by rewrite !Z2Nat.nonpos by lia.
Qed.

Lemma slice_app_over off n a b : 0 ≤ off ≤ blen a → blen a - off ≤ n →
  slice off n (a ++ b) = slice off (blen a - off) a ++ slice 0 (n - (blen a - off)) b.
Proof.
  intros O N. unfold slice, blen in *. rewrite drop_app_le by lia. rewrite take_app, length_drop. f_equal.
  - rewrite !take_ge; [done| |]; rewrite length_drop; lia.
  - rewrite drop_0. f_equal. lia.
Qed.

Lemma slice_app_right off n a b : blen a ≤ off → slice off n (a ++ b) = slice (off - blen a) n b.
Proof. intros. unfold slice, blen in *. rewrite drop_app_ge by lia. do 2 f_equal. lia. Qed.

Lemma length_splice off bs l : 0 ≤ off → off + blen bs ≤ blen l →
  length (splice off bs l) = length l.
Proof.
  intros Hoff Hle. unfold splice, blen in *.
  rewrite !length_app, length_take, length_drop. lia.
Qed.

Lemma blen_splice off bs l : 0 ≤ off → off + blen bs ≤ blen l →
  blen (splice off bs l) = blen l.
Proof. intros. unfold blen at 1. by rewrite length_splice. Qed.

Lemma slice_splice_same off bs l : 0 ≤ off → off + blen bs ≤ blen l →
  slice off (blen bs) (splice off bs l) = bs.
Proof.
  intros Hoff Hle. unfold slice, splice, blen in *.
  rewrite drop_app_length' by (rewrite length_take; lia).
  rewrite Nat2Z.id. by rewrite take_app_length.
Qed.

Lemma slice_splice_other off bs l off' n : 0 ≤ off → 0 ≤ off' → 0 ≤ n →
  off + blen bs ≤ blen l → off' + n ≤ off ∨ off + blen bs ≤ off' →
  slice off' n (splice off bs l) = slice off' n l.
Proof.
  intros Hoff Hoff' Hn Hle Hd. unfold slice, splice, blen in *.
  apply list_eq. intros i. destruct (decide (i < Z.to_nat n)%nat).
  2:{ rewrite !lookup_take_ge by lia. done. }
  rewrite !lookup_take_lt, !lookup_drop by lia. destruct Hd as [Hd|Hd].
  - rewrite lookup_app_l by (rewrite length_take; lia). by rewrite lookup_take_lt by lia.
  - rewrite lookup_app_r by (rewrite length_take; lia).
    rewrite lookup_app_r by (rewrite length_take; lia).
    rewrite lookup_drop, length_take. f_equal. lia.
Qed.

Lemma take_splice off bs l n : 0 ≤ n ≤ off → off + blen bs ≤ blen l →
  take (Z.to_nat n) (splice off bs l) = take (Z.to_nat n) l.
Proof.
  intros Hn Hle. apply (slice_splice_other off bs l 0 n); lia.
Qed.

Lemma blen_to_le n z : blen (to_le n z) = Z.of_nat n.
Proof. unfold blen. by rewrite length_to_le. Qed.

Lemma read_le_same off n z l : 0 ≤ off → off + Z.of_nat n ≤ blen l →
  slice off (Z.of_nat n) (splice off (to_le n z) l) = to_le n z.
Proof.
  intros H1 H2. rewrite <- (blen_to_le n z) at 1.
  apply slice_splice_same; [done|]. by rewrite blen_to_le.
Qed.

Lemma read_le_other off n z l off' n' : 0 ≤ off → 0 ≤ off' → 0 ≤ n' →
  off + Z.of_nat n ≤ blen l → off' + n' ≤ off ∨ off + Z.of_nat n ≤ off' →
  slice off' n' (splice off (to_le n z) l) = slice off' n' l.
Proof. intros. apply slice_splice_other; rewrite ?blen_to_le; done. Qed.

Lemma blen_le off n z l : 0 ≤ off → off + Z.of_nat n ≤ blen l →
  blen (splice off (to_le n z) l) = blen l.
Proof. intros. apply blen_splice; rewrite ?blen_to_le; done. Qed.

Lemma from_le_inj l : ∀ l', length l = length l' → Forall is_byte l → Forall is_byte l' →
  from_le l = from_le l' → l = l'.
Proof.
  induction l as [|x l IH]; intros [|x' l'] Hlen Hl Hl' E; simplify_eq/=; [done|].
  apply Forall_cons in Hl as [Hx Hl], Hl' as [Hx' Hl']. unfold is_byte in *.
  assert (x = x') as -> by lia. f_equal. apply IH; (done || lia).
Qed.

Lemma Forall_slice P off n l : Forall P l → Forall P (slice off n l).
Proof. intros H. unfold slice. by apply Forall_take, Forall_drop. Qed.

Lemma slice_insert_ne off n l k b b' : l !! k = Some b → b ≠ b' → 0 ≤ off →
  off ≤ Z.of_nat k < off + n → slice off n (<[k := b']> l) ≠ slice off n l.
Proof.
  intros Hk Hne Hoff Hr E. assert (b' = b); [|congruence].
  apply (f_equal (.!! (k - Z.to_nat off)%nat)) in E. unfold slice in E.
  rewrite !lookup_take_lt, !lookup_drop in E by lia.
  replace (Z.to_nat off + (k - Z.to_nat off))%nat with k in E by lia.
  rewrite Hk, list_lookup_insert_eq in E by (by eapply lookup_lt_Some). congruence.
Qed.

Lemma length_slice_insert off n l k (b : Z) :
  length (slice off n (<[k := b]> l)) = length (slice off n l).
Proof. unfold slice. by rewrite !length_take, !length_drop, length_insert. Qed.

Lemma to_le_bytes n : ∀ z, Forall is_byte (to_le n z).
Proof.
  induction n as [|n IH]; intros z; cbn; constructor; [|apply IH]. unfold is_byte. dlia.
Qed.

Lemma Forall_splice P off bs l : Forall P bs → Forall P l → Forall P (splice off bs l).
Proof. intros. unfold splice. apply Forall_app. split; [by apply Forall_take|]. apply Forall_app. split; [done|by apply Forall_drop]. Qed.

Lemma splice_split off a b l : 0 ≤ off → off + blen a + blen b ≤ blen l → splice (off + blen a) b (splice off a l) = splice off (a ++ b) l.
Proof.
  intros O L. unfold splice, blen in *. rewrite Z2Nat.inj_add, Nat2Z.id, length_app by lia. set (n := Z.to_nat off) in *.
  assert (length (take n l) = n) as E by (rewrite length_take; lia).
  rewrite (app_assoc (take n l) a), take_app_length' by (rewrite length_app; lia).
  rewrite <-drop_drop, (drop_app_length' (_ ++ _)) by (rewrite length_app; lia).
  rewrite drop_drop, <-!app_assoc. do 4 f_equal. lia.
Qed.

Lemma splice_none off l : splice off [] l = l.
Proof. unfold splice. simpl. rewrite Nat.add_0_r. apply take_drop. Qed.

Lemma blen_app (a b : list Z) : blen (a ++ b) = blen a + blen b.
Proof. unfold blen. rewrite length_app. lia. Qed.

Lemma slice_next pos n m l : 0 ≤ pos → 0 ≤ n → 0 ≤ m → slice pos n l ++ slice (pos + blen (slice pos n l)) m l = slice pos (n + m) l.
Proof.
  intros P N M. destruct (decide (pos + n ≤ blen l)).
  - rewrite blen_slice by lia. by apply slice_split.
  - assert (slice pos n l = drop (Z.to_nat pos) l) as E by (unfold slice, blen in *; apply take_ge; rewrite length_drop; lia).
    rewrite E, slice_past, app_nil_r by (unfold blen in *; rewrite length_drop; lia).
    unfold slice, blen in *. rewrite take_ge; [done|]. rewrite length_drop. lia.
Qed.

Lemma slice_short pos n m l : 0 ≤ pos → 0 ≤ n ≤ m → blen (slice pos n l) < n → slice pos m l = slice pos n l.
Proof.
  intros P N L. unfold slice, blen in *. rewrite length_take, length_drop in L. rewrite !take_ge; [done|..]; rewrite length_drop; lia.
Qed.
