(* ===== verification/EptModel.v ===== *)
(** * Ghost model of EPT ownership ([ept_model/src/lib.rs])

    The specification state of ADR-004: which guest owns which host frame, and
    which frame backs which guest page, as two finite maps. The live registry
    ([EptMap]) and the live frame allocator ([FrameAllocator]) are refined to
    this model. The step, large-page, NUMA, frame-pool, violation and
    page-transfer layers follow the source section by section. *)

From S2P Require Import Prelude.

Module Ghost.

Definition BRINGUP_GUEST : Z := 1.
Definition PAGE_4K : Z := 4096.

Record GhostEptMap := mkGhost {
  owned : gmap Z Z;             (* HPA frame -> owning guest *)
  by_gpa : gmap (Z * Z) Z;      (* (guest, GPA) -> HPA frame *)
}.

Definition empty : GhostEptMap := mkGhost ∅ ∅.

Definition ghost_map (m : GhostEptMap) (guest gpa frame : Z) : GhostEptMap :=
  mkGhost (<[frame := guest]> (owned m)) (<[(guest, gpa) := frame]> (by_gpa m)).

Definition ghost_unmap (m : GhostEptMap) (guest gpa : Z) : GhostEptMap :=
  let frame := by_gpa m !!! (guest, gpa) in
  mkGhost (delete frame (owned m)) (delete (guest, gpa) (by_gpa m)).

Definition page_aligned_4k (gpa : Z) : bool := gpa mod PAGE_4K =? 0.

(** ADR-004: the two maps agree and no frame backs two guest pages. *)
Record exclusive_ownership (m : GhostEptMap) : Prop := {
  ex_owned : ∀ f g, owned m !! f = Some g → ∃ a, by_gpa m !! (g, a) = Some f;
  ex_by_gpa : ∀ g a f, by_gpa m !! (g, a) = Some f → owned m !! f = Some g;
  ex_unique : ∀ g1 a1 g2 a2 f, by_gpa m !! (g1, a1) = Some f →
                by_gpa m !! (g2, a2) = Some f → g1 = g2 ∧ a1 = a2;
  ex_size : size (owned m) = size (by_gpa m);
}.

(** ** Map / unmap steps *)

Inductive MapUnmapStep :=
| Map (guest gpa frame : Z)
| Unmap (guest gpa : Z).

Definition step_guest_id (s : MapUnmapStep) : Z :=
  match s with Map g _ _ => g | Unmap g _ => g end.

Definition step_guest_ok (s : MapUnmapStep) : bool :=
  match s with
  | Map g a _ => negb (g =? 0) && page_aligned_4k a
  | Unmap g a => negb (g =? 0) && page_aligned_4k a
  end.

Definition step_enabled (m : GhostEptMap) (s : MapUnmapStep) : bool :=
  match s with
  | Map g a f => bool_decide (owned m !! f = None) && bool_decide (by_gpa m !! (g, a) = None)
  | Unmap g a => bool_decide (is_Some (by_gpa m !! (g, a)))
  end.

Definition apply_step (m : GhostEptMap) (s : MapUnmapStep) : GhostEptMap :=
  match s with Map g a f => ghost_map m g a f | Unmap g a => ghost_unmap m g a end.

Fixpoint fold_steps (m : GhostEptMap) (steps : list MapUnmapStep) : GhostEptMap :=
  match steps with [] => m | s :: rest => fold_steps (apply_step m s) rest end.

Fixpoint steps_ok (m : GhostEptMap) (steps : list MapUnmapStep) : bool :=
  match steps with
  | [] => true
  | s :: rest => step_guest_ok s && step_enabled m s && steps_ok (apply_step m s) rest
  end.

(** ** Large pages *)

Definition PAGE_2M : Z := 2097152.
Definition PAGE_1G : Z := 1073741824.

Inductive GhostPageSize := FourK | TwoM | OneG.

Definition page_size_bytes (ps : GhostPageSize) : Z :=
  match ps with FourK => PAGE_4K | TwoM => PAGE_2M | OneG => PAGE_1G end.

Definition frames_covered (ps : GhostPageSize) : Z :=
  match ps with FourK => 1 | TwoM => 512 | OneG => 262144 end.

Definition page_aligned (ps : GhostPageSize) (addr : Z) : bool :=
  addr mod page_size_bytes ps =? 0.

Definition frame_base_aligned (ps : GhostPageSize) (base : Z) : bool :=
  match ps with FourK => true | TwoM => base mod 512 =? 0 | OneG => base mod 262144 =? 0 end.

Definition frame_in_large_span (base : Z) (ps : GhostPageSize) (f : Z) : Prop :=
  base ≤ f < base + frames_covered ps.

Definition large_span_free (m : GhostEptMap) (base : Z) (ps : GhostPageSize) : Prop :=
  ∀ f, frame_in_large_span base ps f → owned m !! f = None.

Fixpoint span_gpas_free (m : GhostEptMap) (guest gpa : Z) (n : nat) : Prop :=
  match n with
  | O => True
  | S n' => by_gpa m !! (guest, gpa) = None ∧ span_gpas_free m guest (gpa ⊞ PAGE_4K) n'
  end.

Definition large_gpa_span_free (m : GhostEptMap) (guest gpa : Z) (ps : GhostPageSize) : Prop :=
  span_gpas_free m guest gpa (Z.to_nat (frames_covered ps)).

Definition large_map_enabled (m : GhostEptMap) (guest gpa base : Z) (ps : GhostPageSize) : Prop :=
  guest ≠ 0 ∧ page_aligned ps gpa = true ∧ page_aligned_4k gpa = true ∧
  frame_base_aligned ps base = true ∧ large_span_free m base ps ∧
  large_gpa_span_free m guest gpa ps ∧
  base ≤ U64_MAX - frames_covered ps ∧ gpa ≤ U64_MAX - frames_covered ps * PAGE_4K.

Definition large_map_post_owned (m : GhostEptMap) (guest base : Z) (ps : GhostPageSize) : Prop :=
  ∀ f, frame_in_large_span base ps f → owned m !! f = Some guest.

Fixpoint span_mapped (m : GhostEptMap) (guest gpa base : Z) (n : nat) : Prop :=
  match n with
  | O => True
  | S n' => by_gpa m !! (guest, gpa) = Some base ∧
            span_mapped m guest (gpa ⊞ PAGE_4K) (base ⊞ 1) n'
  end.

Definition large_span_mapped (m : GhostEptMap) (guest gpa base : Z) (ps : GhostPageSize) : Prop :=
  span_mapped m guest gpa base (Z.to_nat (frames_covered ps)).

Definition large_unmap_enabled (m : GhostEptMap) (guest gpa base : Z) (ps : GhostPageSize) : Prop :=
  guest ≠ 0 ∧ page_aligned ps gpa = true ∧ page_aligned_4k gpa = true ∧
  frame_base_aligned ps base = true ∧ large_span_mapped m guest gpa base ps ∧
  base ≤ U64_MAX - frames_covered ps ∧ gpa ≤ U64_MAX - frames_covered ps * PAGE_4K.

Fixpoint ghost_map_span (m : GhostEptMap) (guest gpa base : Z) (n : nat) : GhostEptMap :=
  match n with
  | O => m
  | S n' => ghost_map_span (ghost_map m guest gpa base) guest (gpa ⊞ PAGE_4K) (base ⊞ 1) n'
  end.

Fixpoint ghost_unmap_span (m : GhostEptMap) (guest gpa : Z) (n : nat) : GhostEptMap :=
  match n with
  | O => m
  | S n' => ghost_unmap_span (ghost_unmap m guest gpa) guest (gpa ⊞ PAGE_4K) n'
  end.

Definition ghost_large_map (m : GhostEptMap) (guest gpa base : Z) (ps : GhostPageSize) : GhostEptMap :=
  ghost_map_span m guest gpa base (Z.to_nat (frames_covered ps)).

Definition ghost_large_unmap (m : GhostEptMap) (guest gpa : Z) (ps : GhostPageSize) : GhostEptMap :=
  ghost_unmap_span m guest gpa (Z.to_nat (frames_covered ps)).

(** ** NUMA affinity *)

Definition SLIT_LOCAL : Z := 10.

Record GhostNumaTopology := mkNuma {
  nodes : gset Z;
  frame_node : gmap Z Z;
  slit : gmap (Z * Z) Z;
}.

Definition numa_well_formed (t : GhostNumaTopology) : Prop :=
  (∀ f n, frame_node t !! f = Some n → n ∈ nodes t) ∧
  (∀ a b, is_Some (slit t !! (a, b)) → a ∈ nodes t ∧ b ∈ nodes t) ∧
  (∀ n, n ∈ nodes t → slit t !! (n, n) = Some SLIT_LOCAL).

Definition slit_symmetric (t : GhostNumaTopology) : Prop :=
  ∀ a b d e, slit t !! (a, b) = Some d → slit t !! (b, a) = Some e → d = e.

Definition guest_frames_on_node (m : GhostEptMap) (t : GhostNumaTopology) (guest node : Z) : Prop :=
  ∀ f, owned m !! f = Some guest → frame_node t !! f = Some node.

Definition numa_map_enabled (m : GhostEptMap) (t : GhostNumaTopology)
    (guest gpa frame node : Z) : Prop :=
  guest ≠ 0 ∧ page_aligned_4k gpa = true ∧ step_enabled m (Map guest gpa frame) = true ∧
  numa_well_formed t ∧ node ∈ nodes t ∧ frame_node t !! frame = Some node.

Definition mock_bringup_numa : GhostNumaTopology :=
  mkNuma {[0; 1]}
    (<[101 := 1]> (<[100 := 1]> (<[1 := 0]> (<[0 := 0]> ∅))))
    (<[(1, 0) := 21]> (<[(0, 1) := 21]> (<[(1, 1) := 10]> (<[(0, 0) := 10]> ∅)))).

(** ** Frame pool *)

Record GhostFramePool := mkPool {
  base : Z;
  capacity : Z;
  allocated : gset Z;
}.

Definition pool_contains (p : GhostFramePool) (f : Z) : bool :=
  (base p <=? f) && (f <? base p + capacity p).

Definition pool_well_formed (p : GhostFramePool) : Prop :=
  0 < capacity p ∧ ∀ f, f ∈ allocated p → pool_contains p f = true.

Definition ghost_allocate (p : GhostFramePool) (f : Z) : GhostFramePool :=
  mkPool (base p) (capacity p) ({[f]} ∪ allocated p).

Definition ghost_free (p : GhostFramePool) (f : Z) : GhostFramePool :=
  mkPool (base p) (capacity p) (allocated p ∖ {[f]}).

Definition alloc_enabled (p : GhostFramePool) (f : Z) : Prop :=
  pool_well_formed p ∧ pool_contains p f = true ∧ f ∉ allocated p.

Definition free_enabled (p : GhostFramePool) (f : Z) : Prop :=
  pool_well_formed p ∧ f ∈ allocated p.

(** Every owned frame is allocated, and ownership is exclusive. *)
Definition alloc_ept_refines (m : GhostEptMap) (p : GhostFramePool) : Prop :=
  exclusive_ownership m ∧ pool_well_formed p ∧
  ∀ f, is_Some (owned m !! f) → f ∈ allocated p.

Definition PRECISE_IDENTITY_FRAMES : Z := 131072.

Definition identity_frame_for_gpa (gpa : Z) : Z := gpa / PAGE_4K.

Definition in_precise_identity (gpa : Z) : bool :=
  page_aligned_4k gpa && (gpa <? PRECISE_IDENTITY_FRAMES * PAGE_4K).

Definition identity_leaf_ok (gpa frame : Z) : bool :=
  in_precise_identity gpa && (frame =? identity_frame_for_gpa gpa).

(** ** EPT violations and page transfer *)

Inductive EptViolationDisposition :=
| EmulateNoMap
| Reject
| ClaimMap (guest gpa frame : Z).

Definition violation_enabled (m : GhostEptMap) (d : EptViolationDisposition) : bool :=
  match d with
  | EmulateNoMap | Reject => true
  | ClaimMap g a f => negb (g =? 0) && page_aligned_4k a && step_enabled m (Map g a f)
  end.

Definition apply_violation (m : GhostEptMap) (d : EptViolationDisposition) : GhostEptMap :=
  match d with EmulateNoMap | Reject => m | ClaimMap g a f => ghost_map m g a f end.

Record PageTransferStep := mkTransfer {
  src_guest : Z; src_gpa : Z; dst_guest : Z; dst_gpa : Z;
}.

Definition transfer_enabled (m : GhostEptMap) (s : PageTransferStep) : Prop :=
  src_guest s ≠ 0 ∧ dst_guest s ≠ 0 ∧ src_guest s ≠ dst_guest s ∧
  page_aligned_4k (src_gpa s) = true ∧ page_aligned_4k (dst_gpa s) = true ∧
  is_Some (by_gpa m !! (src_guest s, src_gpa s)) ∧
  by_gpa m !! (dst_guest s, dst_gpa s) = None.

Definition apply_transfer (m : GhostEptMap) (s : PageTransferStep) : GhostEptMap :=
  let frame := by_gpa m !!! (src_guest s, src_gpa s) in
  ghost_map (ghost_unmap m (src_guest s) (src_gpa s)) (dst_guest s) (dst_gpa s) frame.

Definition transfer_posts (m : GhostEptMap) (s : PageTransferStep) (m2 : GhostEptMap) : Prop :=
  let frame := by_gpa m !!! (src_guest s, src_gpa s) in
  owned m2 !! frame = Some (dst_guest s) ∧
  by_gpa m2 !! (dst_guest s, dst_gpa s) = Some frame ∧
  by_gpa m2 !! (src_guest s, src_gpa s) = None.

(** ** Exclusivity lemmas *)

Lemma empty_exclusive : exclusive_ownership empty.
Proof. by constructor. Qed.

Lemma map_exclusive m g a f :
  exclusive_ownership m → owned m !! f = None → by_gpa m !! (g, a) = None →
  exclusive_ownership (ghost_map m g a f).
Proof.
  intros [E1 E2 E3 E4] Hf Ha.
  assert (∀ g' a', by_gpa m !! (g', a') ≠ Some f) as Hfree.
  { intros g' a' H'. apply E2 in H'. congruence. }
  constructor; simpl.
  - intros f' g' [[-> ->]|[Hne H']]%lookup_insert_Some.
    + exists a. by rewrite lookup_insert_eq.
    + destruct (E1 f' g' H') as [a' Ha']. exists a'.
      rewrite lookup_insert_ne; [done|]. intros [= -> ->]. congruence.
  - intros g' a' f' [[[= <- <-] <-]|[Hne H']]%lookup_insert_Some.
    + by rewrite lookup_insert_eq.
    + rewrite lookup_insert_ne; [by eapply E2|]. intros ->. by eapply Hfree.
  - intros g1 a1 g2 a2 f'.
    intros [[[= <- <-] <-]|[? H1]]%lookup_insert_Some
           [[[= <- <-] ?]|[? H2]]%lookup_insert_Some; simplify_eq;
      [done|by apply Hfree in H2|by apply Hfree in H1|by eapply E3].
  - rewrite !map_size_insert_None by done. by rewrite E4.
Qed.

Lemma unmap_exclusive m g a f :
  exclusive_ownership m → by_gpa m !! (g, a) = Some f →
  exclusive_ownership (ghost_unmap m g a) ∧ owned (ghost_unmap m g a) !! f = None.
Proof.
  intros [E1 E2 E3 E4] Ha. unfold ghost_unmap.
  rewrite (lookup_total_correct _ _ _ Ha). simpl.
  split; [|apply lookup_delete_eq]. constructor; simpl.
  - intros f' g' [Hne H']%lookup_delete_Some. destruct (E1 f' g' H') as [a' Ha'].
    exists a'. rewrite lookup_delete_ne; [done|]. intros [= -> ->]. congruence.
  - intros g' a' f' [Hne H']%lookup_delete_Some.
    rewrite lookup_delete_ne; [by eapply E2|]. intros ->.
    destruct (E3 _ _ _ _ _ Ha H'). congruence.
  - intros g1 a1 g2 a2 f' [_ H1]%lookup_delete_Some [_ H2]%lookup_delete_Some. by eapply E3.
  - rewrite !map_size_delete, E4, Ha, (E2 _ _ _ Ha). done.
Qed.

Lemma step_exclusive m s :
  exclusive_ownership m → step_enabled m s = true → exclusive_ownership (apply_step m s).
Proof.
  intros Hex. destruct s as [g a f|g a]; simpl.
  - intros [H1%bool_decide_eq_true H2%bool_decide_eq_true]%andb_true_iff. by apply map_exclusive.
  - intros [f Hf]%bool_decide_eq_true. by apply (unmap_exclusive m g a f).
Qed.

(** ** Spans of 4 KiB pages *)

(** The guest pages of the span, at a distance from its first page. *)
Definition in_span (gpa a : Z) (n : nat) : Prop :=
  gpa ≤ a < gpa + 4096 * Z.of_nat n ∧ (a - gpa) mod 4096 = 0.

#[global] Instance in_span_dec gpa a n : Decision (in_span gpa a n).
Proof. unfold in_span. apply _. Defined.

Definition span_fits (gpa base : Z) (n : nat) : Prop :=
  0 ≤ gpa ∧ 0 ≤ base ∧ base + Z.of_nat n ≤ U64_MAX ∧ gpa + Z.of_nat n * 4096 ≤ U64_MAX.

Lemma span_fits_S gpa base n : span_fits gpa base (S n) →
  gpa ⊞ PAGE_4K = gpa + 4096 ∧ base ⊞ 1 = base + 1 ∧ span_fits (gpa + 4096) (base + 1) n.
Proof.
  unfold span_fits, PAGE_4K. intros H. rewrite !add64_small by mlia. split_and!; lia.
Qed.

Lemma in_span_S gpa a n : in_span gpa a (S n) ↔ a = gpa ∨ in_span (gpa + 4096) a n.
Proof.
  unfold in_span. split.
  - intros [H1 H2]. destruct (decide (a = gpa)); [by left|right]. dlia.
  - intros [->|[H1 H2]]; [rewrite Z.sub_diag; split; [lia|done]|]. dlia.
Qed.

Lemma in_span_above gpa a n : in_span (gpa + 4096) a n → a ≠ gpa.
Proof. unfold in_span. lia. Qed.

(** What mapping a span does to the two maps. *)
Lemma map_span_lookup n : ∀ m g gpa base, span_fits gpa base n →
  (∀ f, owned (ghost_map_span m g gpa base n) !! f =
     if decide (base ≤ f < base + Z.of_nat n) then Some g else owned m !! f) ∧
  (∀ g' a, by_gpa (ghost_map_span m g gpa base n) !! (g', a) =
     if decide (g' = g ∧ in_span gpa a n) then Some (base + (a - gpa) / 4096)
     else by_gpa m !! (g', a)).
Proof.
  induction n as [|n IH]; intros m g gpa base Hfit; simpl.
  - split; intros; rewrite decide_False; try done; unfold in_span; lia.
  - destruct (span_fits_S _ _ _ Hfit) as (-> & -> & Hfit').
    destruct (IH (ghost_map m g gpa base) g _ _ Hfit') as [IH1 IH2]. split.
    + intros f. rewrite IH1. simpl. destruct (decide (f = base)) as [->|Hne].
      * rewrite decide_False by lia. rewrite lookup_insert_eq, decide_True by lia. done.
      * rewrite lookup_insert_ne by done. repeat case_decide; (done || lia).
    + intros g' a. rewrite IH2. simpl.
      destruct (decide ((g', a) = (g, gpa))) as [[= -> ->]|Hne].
      * rewrite decide_False by (unfold in_span; lia).
        rewrite lookup_insert_eq, decide_True by (rewrite in_span_S; auto).
        f_equal. rewrite Z.sub_diag. change (0 / 4096) with 0. lia.
      * rewrite lookup_insert_ne by congruence.
        assert ((g' = g ∧ in_span gpa a (S n)) ↔ (g' = g ∧ in_span (gpa + 4096) a n)) as Heq.
        { rewrite in_span_S. naive_solver. }
        rewrite (decide_ext _ _ _ _ Heq). case_decide as Hd; [|done]. f_equal.
        destruct Hd as [_ [? ?]]. dlia.
Qed.

(** What unmapping a mapped span does. *)
Lemma unmap_span_lookup n : ∀ m g gpa base,
  span_fits gpa base n → exclusive_ownership m → span_mapped m g gpa base n →
  exclusive_ownership (ghost_unmap_span m g gpa n) ∧
  (∀ f, owned (ghost_unmap_span m g gpa n) !! f =
     if decide (base ≤ f < base + Z.of_nat n) then None else owned m !! f) ∧
  (∀ g' a, by_gpa (ghost_unmap_span m g gpa n) !! (g', a) =
     if decide (g' = g ∧ in_span gpa a n) then None else by_gpa m !! (g', a)).
Proof.
  induction n as [|n IH]; intros m g gpa base Hfit Hex; simpl.
  - intros _. split_and!; [done|..]; intros; rewrite decide_False; try done; unfold in_span; lia.
  - destruct (span_fits_S _ _ _ Hfit) as (-> & -> & Hfit'). intros [Hm Hrest].
    destruct (unmap_exclusive m g gpa base Hex Hm) as [Hex' _].
    assert (span_mapped (ghost_unmap m g gpa) g (gpa + 4096) (base + 1) n) as Hm'.
    { clear IH. assert (gpa < gpa + 4096) as Hlt by lia. revert Hlt Hfit' Hrest.
      generalize (gpa + 4096) as b, (base + 1) as c. clear Hfit.
      induction n as [|n IH]; intros b c Hlt Hfit; simpl; [done|].
      destruct (span_fits_S _ _ _ Hfit) as (-> & -> & Hfit'). intros [H1 H2].
      split; [rewrite lookup_delete_ne by (intros [=]; lia); done|]. apply IH; [lia|done..]. }
    destruct (IH _ g _ _ Hfit' Hex' Hm') as (H1 & H2 & H3).
    split_and!; [done|..].
    + intros f. rewrite H2. simpl. rewrite (lookup_total_correct _ _ _ Hm).
      destruct (decide (f = base)) as [->|Hne].
      * rewrite decide_False by lia. rewrite lookup_delete_eq, decide_True by lia. done.
      * rewrite lookup_delete_ne by done. repeat case_decide; (done || lia).
    + intros g' a. rewrite H3. simpl.
      destruct (decide ((g', a) = (g, gpa))) as [[= -> ->]|Hne].
      * rewrite lookup_delete_eq. rewrite (decide_True (P := _ ∧ in_span gpa gpa _))
          by (rewrite in_span_S; auto). by case_decide.
      * rewrite lookup_delete_ne by congruence.
        assert ((g' = g ∧ in_span gpa a (S n)) ↔ (g' = g ∧ in_span (gpa + 4096) a n)) as Heq.
        { rewrite in_span_S. naive_solver. }
        by rewrite (decide_ext _ _ _ _ Heq).
Qed.

Lemma span_gpas_free_lookup m g n : ∀ gpa base, span_fits gpa base n →
  span_gpas_free m g gpa n → ∀ a, in_span gpa a n → by_gpa m !! (g, a) = None.
Proof.
  induction n as [|n IH]; intros gpa base Hfit; simpl; [unfold in_span; lia|].
  destruct (span_fits_S _ _ _ Hfit) as (-> & _ & Hfit'). intros [H1 H2] a.
  rewrite in_span_S. intros [->|Ha]; [done|]. by eapply IH.
Qed.

Lemma map_span_exclusive n : ∀ m g gpa base, span_fits gpa base n →
  exclusive_ownership m → (∀ f, base ≤ f < base + Z.of_nat n → owned m !! f = None) →
  (∀ a, in_span gpa a n → by_gpa m !! (g, a) = None) →
  exclusive_ownership (ghost_map_span m g gpa base n).
Proof.
  induction n as [|n IH]; intros m g gpa base Hfit Hex Hf Ha; simpl; [done|].
  destruct (span_fits_S _ _ _ Hfit) as (-> & -> & Hfit'). apply IH; [done|..].
  - apply map_exclusive; [done|apply Hf; lia|]. apply Ha. rewrite in_span_S. auto.
  - intros f Hr. simpl. rewrite lookup_insert_ne by lia. apply Hf. lia.
  - intros a Hr. simpl. rewrite lookup_insert_ne.
    + apply Ha. rewrite in_span_S. auto.
    + intros [= ->]. by apply in_span_above in Hr.
Qed.

Lemma map_span_mapped n : ∀ m g gpa base, span_fits gpa base n →
  span_mapped (ghost_map_span m g gpa base n) g gpa base n.
Proof.
  intros m g gpa base Hfit.
  assert (∀ k c b, span_fits c b k → base ≤ b → gpa ≤ c → c - gpa = 4096 * (b - base) →
    c + 4096 * Z.of_nat k ≤ gpa + 4096 * Z.of_nat n →
    span_mapped (ghost_map_span m g gpa base n) g c b k) as Hgen.
  { induction k as [|k IH]; intros c b Hf Hb Hc He Hle; simpl; [done|].
    destruct (span_fits_S _ _ _ Hf) as (-> & -> & Hf').
    split; [|apply IH; (done || lia)].
    rewrite (proj2 (map_span_lookup n m g gpa base Hfit)), decide_True.
    - f_equal. dlia.
    - split; [done|]. unfold in_span. dlia. }
  apply Hgen; (done || lia).
Qed.

(** ** Theorems *)

(** Mapping a 2 MiB or 1 GiB leaf as a span of 4 KiB ghost pages preserves
    exclusive ownership and gives every frame of the span to the guest, the
    result is ready to be unmapped, and unmapping it restores the state
    exactly. *)
Theorem large_page_map_unmap_roundtrip m guest gpa base ps :
  exclusive_ownership m → 0 ≤ gpa → 0 ≤ base →
  large_map_enabled m guest gpa base ps →
  let m2 := ghost_large_map m guest gpa base ps in
  exclusive_ownership m2 ∧ large_map_post_owned m2 guest base ps ∧
  large_unmap_enabled m2 guest gpa base ps ∧
  ghost_large_unmap m2 guest gpa ps = m.
Proof.
  intros Hex Hg Hb (Hg0 & Hp & Hp4 & Hfb & Hsf & Hgf & Hbm & Hgm) m2.
  set (n := Z.to_nat (frames_covered ps)).
  assert (Z.of_nat n = frames_covered ps) as En by (destruct ps; reflexivity).
  assert (span_fits gpa base n) as Hfit by (unfold span_fits, PAGE_4K in *; lia).
  assert (∀ f, base ≤ f < base + Z.of_nat n → owned m !! f = None) as Hfree.
  { rewrite En. done. }
  pose proof (span_gpas_free_lookup m guest n gpa base Hfit Hgf) as Hgpas.
  assert (exclusive_ownership m2) as Hex2 by by apply map_span_exclusive.
  assert (span_mapped m2 guest gpa base n) as Hm2 by by apply map_span_mapped.
  destruct (map_span_lookup n m guest gpa base Hfit) as [L1 L2].
  destruct (unmap_span_lookup n m2 guest gpa base Hfit Hex2 Hm2) as (_ & U1 & U2).
  split_and!; [done| |by split_and!|].
  - intros f Hf. unfold m2, ghost_large_map. fold n. rewrite L1, decide_True; [done|].
    rewrite En. done.
  - unfold ghost_large_unmap. fold n.
    destruct (ghost_unmap_span m2 guest gpa n) as [o b] eqn:E. destruct m as [om bm].
    simpl in *. f_equal; apply map_eq.
    + intros f. rewrite U1. unfold m2, ghost_large_map. fold n. rewrite L1.
      case_decide as Hd; [by rewrite Hfree|done].
    + intros [g' a]. rewrite U2. unfold m2, ghost_large_map. fold n. rewrite L2.
      case_decide as Hd; [|done]. destruct Hd as [-> Hd]. by rewrite Hgpas.
Qed.

(** Guest 2 maps the 2 MiB leaf at GPA 2 MiB over frames 512..1023. *)
Lemma large_page_map_unmap_roundtrip_witness :
  ghost_large_unmap (ghost_large_map empty 2 PAGE_2M 512 TwoM) 2 PAGE_2M TwoM = empty.
Proof.
  refine (proj2 (proj2 (proj2 (large_page_map_unmap_roundtrip empty 2 PAGE_2M 512 TwoM
    empty_exclusive _ _ _)))); [done|done|].
  split_and!; done.
Defined.

(** Under the NUMA policy, mapping a frame of the preferred node and then
    unmapping it keeps ownership exclusive and keeps every frame the guest owns
    on that node, both after the map and after the unmap. *)
Theorem numa_map_unmap_affinity m t guest gpa frame node :
  exclusive_ownership m → guest_frames_on_node m t guest node →
  numa_map_enabled m t guest gpa frame node →
  let m1 := ghost_map m guest gpa frame in
  exclusive_ownership m1 ∧ guest_frames_on_node m1 t guest node ∧
  exclusive_ownership (ghost_unmap m1 guest gpa) ∧
  guest_frames_on_node (ghost_unmap m1 guest gpa) t guest node.
Proof.
  intros Hex Hon (Hg & _ & Hen & _ & _ & Hfn) m1.
  pose proof (step_exclusive m (Map guest gpa frame) Hex Hen) as Hex1.
  assert (guest_frames_on_node m1 t guest node) as Hon1.
  { intros f Hf. simpl in Hf. apply lookup_insert_Some in Hf as [[-> _]|[_ Hf]];
      [done|by apply Hon]. }
  split_and!; [done..| |].
  - apply (unmap_exclusive m1 guest gpa frame Hex1). apply lookup_insert_eq.
  - intros f Hf. simpl in Hf. apply lookup_delete_Some in Hf as [_ Hf]. by apply Hon1.
Qed.

Lemma mock_numa_wf : numa_well_formed mock_bringup_numa.
Proof.
  split_and!.
  - intros f n H. cbn [frame_node mock_bringup_numa] in H.
    repeat (apply lookup_insert_Some in H as [[_ <-]|[_ H]]; [set_solver|]).
    by rewrite lookup_empty in H.
  - intros a b [d H]. cbn [slit mock_bringup_numa] in H.
    repeat (apply lookup_insert_Some in H as [[[= <- <-] _]|[_ H]]; [set_solver|]).
    by rewrite lookup_empty in H.
  - intros n Hn. cbn [nodes mock_bringup_numa] in Hn.
    assert (n = 0 ∨ n = 1) as [->| ->] by set_solver; reflexivity.
Qed.

(** The bring-up mock: frame 0 lies on node 0. *)
Lemma numa_map_unmap_affinity_witness :
  guest_frames_on_node (ghost_unmap (ghost_map empty BRINGUP_GUEST 0 0) BRINGUP_GUEST 0)
    mock_bringup_numa BRINGUP_GUEST 0.
Proof.
  refine (proj2 (proj2 (proj2 (numa_map_unmap_affinity empty mock_bringup_numa
    BRINGUP_GUEST 0 0 0 empty_exclusive _ _)))).
  - intros f Hf. discriminate Hf.
  - split_and!; (reflexivity || done || apply mock_numa_wf).
Defined.

End Ghost.
