(* ===== verification/AuditRing.v ===== *)
(** * Audit log integrity ([audit/integrity.rs])

    The append-only ring of audit records and its hash chain. Every audited
    event of the hypervisor is an [AuditEvent]; a ring reached by appends alone
    is determined by the list of its events, which is the abstract state
    [ring_of]. *)

From S2P Require Import Prelude.

Module Audit.

Definition AUDIT_GENESIS_HASH : Z := 0x5241594E552D5630.
Definition AUDIT_RING_CAP : nat := 256.

Inductive Milestone := M0 | M1 | M2 | M3 | M4 | M5 | M55 | M6.

(** The integer fields hold unsigned values of the width the source gives. *)
Inductive AuditEvent :=
| BootStarted (milestone : Milestone)
| VmxEnabled (vcpu_id : Z)
| VmcsCreated (vcpu_id vmcs_id : Z)
| EptMapped (guest_id gpa hpa : Z)
| EptUnmapped (guest_id gpa hpa : Z)
| MsrBlocked (vcpu_id msr_index : Z)
| FrameAllocated (frame : Z)
| FrameFreed (frame : Z)
| VmCreated (guest_id : Z)
| VmStarted (guest_id : Z)
| VmStopped (guest_id : Z)
| VmDestroyed (guest_id : Z)
| MigrateStarted (batch_id count : Z)
| MigrateCompleted (batch_id count : Z)
| MigrateFailed (batch_id count : Z)
| AuthAllowed (method_tag : Z)
| AuthDenied (method_tag : Z)
| HaFailoverStarted (from_role to_role : Z)
| HaFailoverCompleted (guest_count : Z)
| FaultInjected (kind detail : Z)
| FaultRecovered (kind detail : Z)
| FaultFailClosed (kind detail : Z)
| SoakStarted (target_hours : Z)
| SoakCompleted (hours : Z)
| SoakFailed (hours : Z)
| EvidenceModeActivated (source : Z)
| MgmtRestarted (generation kind : Z)
| CdromAttached (iso_id load_lba : Z)
| CdromFirmwareArmed (iso_id load_lba : Z)
| CdromGuestVisible (iso_id load_lba : Z)
| GuestFirmwareBoxed (uncompressed_len compressed_len : Z)
| GuestFirmwareLoaded (payload_len : Z)
| OvmfFirmwareProbed (fv_len : Z)
| OvmfFirmwareEspLoaded (bytes_len fv_len : Z)
| OvmfFirmwareSlotArmed (slot_id : Z)
| OvmfFirmwareGuestBound (guest_id slot_id : Z)
| OvmfFirmwareLaunchPrepared (guest_id slot_id : Z)
| OvmfFirmwareFloorStaged (bytes_len : Z)
| OvmfFirmwareEdk2Staged (bytes_len : Z)
| OvmfEspLaunchArmed (guest_id slot_id : Z)
| OvmfEspLiveMapped (bytes_len : Z)
| OvmfResetVectorArmed (bytes_len : Z)
| OvmfFirmwareAliasArmed (bytes_len : Z)
| OvmfAliasEptProgrammed (bytes_len gpa : Z)
| OvmfAliasEptInstalled (bytes_len gpa : Z)
| OvmfRealEspQualified (bytes_len gpa : Z)
| OvmfRealLaunchArmed (bytes_len gpa : Z)
| OvmfLiveEspRequired (bytes_len gpa : Z)
| OvmfPrivateVmcsArmed (bytes_len gpa : Z)
| OvmfLiveIssueArmed (bytes_len gpa : Z)
| OvmfLiveBytesProbed (bytes_len gpa : Z)
| OvmfLiveFdRequired (bytes_len gpa : Z)
| OvmfLiveEspPresented (bytes_len gpa : Z)
| OvmfLiveEspAdmitted (bytes_len gpa : Z)
| OvmfLiveEspRead (bytes_len gpa : Z)
| OvmfLiveEspCopied (bytes_len gpa : Z)
| OvmfLiveEspPlaced (bytes_len gpa : Z)
| OvmfLiveEspApplied (bytes_len gpa : Z)
| OvmfLiveEspCommitted (bytes_len gpa : Z)
| OvmfLiveEspLatched (bytes_len gpa : Z)
| OvmfLiveEspSealed (bytes_len gpa : Z)
| OvmfLiveEspLocked (bytes_len gpa : Z)
| OvmfLiveEspHeld (bytes_len gpa : Z)
| OvmfLiveEspBytesRetained (bytes_len : Z)
| OvmfGuestUefiVmlaunched (exit_reason guest_rip : Z)
| OvmfGuestUefiAlive (exits last_reason : Z)
| OvmfGuestUefiPastSec (exits linear com_bytes : Z)
| OvmfGuestUefiCdrom (exits pci_enum sectors : Z)
| OvmfGuestUefiDxe (exits sectors platform : Z)
| OvmfGuestUefiVirtio (exits pci_enum : Z)
| OvmfGuestUefiBoth (exits virtio ide : Z)
| OvmfGuestUefiAtapi (exits sectors : Z)
| OvmfGuestUefiEltorito (exits catalog boot_image : Z)
| HostPowerOff (source : Z)
| PercSpaChoice (choice : Z)
| GuestNicSaved (spare_off mode : Z)
| GuestNicDetached (spare_off : Z)
| HostLinkChanged (func up mbps : Z)
| HostAddrSaved (mode prefix : Z)
| OperatorAccountSet (name_len : Z)
| HostCertSaved (source cert_len : Z).

Definition event_discriminant (event : AuditEvent) : Z :=
  match event with
  | BootStarted _ => 1
  | VmxEnabled _ => 2
  | VmcsCreated _ _ => 3
  | EptMapped _ _ _ => 4
  | EptUnmapped _ _ _ => 5
  | MsrBlocked _ _ => 6
  | FrameAllocated _ => 7
  | FrameFreed _ => 8
  | VmCreated _ => 9
  | VmStarted _ => 10
  | VmStopped _ => 11
  | VmDestroyed _ => 12
  | MigrateStarted _ _ => 13
  | MigrateCompleted _ _ => 14
  | MigrateFailed _ _ => 15
  | AuthAllowed _ => 16
  | AuthDenied _ => 17
  | HaFailoverStarted _ _ => 18
  | HaFailoverCompleted _ => 19
  | FaultInjected _ _ => 20
  | FaultRecovered _ _ => 21
  | FaultFailClosed _ _ => 22
  | SoakStarted _ => 23
  | SoakCompleted _ => 24
  | SoakFailed _ => 25
  | EvidenceModeActivated _ => 26
  | MgmtRestarted _ _ => 27
  | CdromAttached _ _ => 28
  | CdromFirmwareArmed _ _ => 29
  | CdromGuestVisible _ _ => 67
  | GuestFirmwareBoxed _ _ => 30
  | GuestFirmwareLoaded _ => 31
  | OvmfFirmwareProbed _ => 32
  | OvmfFirmwareEspLoaded _ _ => 33
  | OvmfFirmwareSlotArmed _ => 34
  | OvmfFirmwareGuestBound _ _ => 35
  | OvmfFirmwareLaunchPrepared _ _ => 36
  | OvmfFirmwareFloorStaged _ => 37
  | OvmfFirmwareEdk2Staged _ => 38
  | OvmfEspLaunchArmed _ _ => 39
  | OvmfEspLiveMapped _ => 40
  | OvmfResetVectorArmed _ => 41
  | OvmfFirmwareAliasArmed _ => 42
  | OvmfAliasEptProgrammed _ _ => 43
  | OvmfAliasEptInstalled _ _ => 44
  | OvmfRealEspQualified _ _ => 45
  | OvmfRealLaunchArmed _ _ => 46
  | OvmfLiveEspRequired _ _ => 47
  | OvmfPrivateVmcsArmed _ _ => 48
  | OvmfLiveIssueArmed _ _ => 49
  | OvmfLiveBytesProbed _ _ => 50
  | OvmfLiveFdRequired _ _ => 51
  | OvmfLiveEspPresented _ _ => 52
  | OvmfLiveEspAdmitted _ _ => 53
  | OvmfLiveEspRead _ _ => 54
  | OvmfLiveEspCopied _ _ => 55
  | OvmfLiveEspPlaced _ _ => 56
  | OvmfLiveEspApplied _ _ => 57
  | OvmfLiveEspCommitted _ _ => 58
  | OvmfLiveEspLatched _ _ => 59
  | OvmfLiveEspSealed _ _ => 60
  | OvmfLiveEspLocked _ _ => 61
  | OvmfLiveEspHeld _ _ => 62
  | OvmfLiveEspBytesRetained _ => 63
  | OvmfGuestUefiVmlaunched _ _ => 64
  | OvmfGuestUefiAlive _ _ => 65
  | OvmfGuestUefiPastSec _ _ _ => 66
  | OvmfGuestUefiCdrom _ _ _ => 68
  | OvmfGuestUefiDxe _ _ _ => 69
  | OvmfGuestUefiVirtio _ _ => 70
  | OvmfGuestUefiBoth _ _ _ => 71
  | OvmfGuestUefiAtapi _ _ => 72
  | OvmfGuestUefiEltorito _ _ _ => 73
  | HostPowerOff _ => 74
  | PercSpaChoice _ => 75
  | GuestNicSaved _ _ => 76
  | GuestNicDetached _ => 77
  | HostLinkChanged _ _ _ => 78
  | HostAddrSaved _ _ => 79
  | OperatorAccountSet _ => 80
  | HostCertSaved _ _ => 81
  end.

Record AuditRecord := mkRec {
  seq : Z;
  event : AuditEvent;
  prev_hash : Z;
  hash : Z;
}.

(** [len] counts slots of an array of 256, so it is a [nat]. *)
Record AuditRing := mkRing {
  records : list (option AuditRecord);
  len : nat;
  next_seq : Z;
  tip_hash : Z;
}.

Definition FNV_OFFSET : Z := 0xcbf29ce484222325.
Definition FNV_PRIME : Z := 0x100000001b3.

Definition hash_record (seq : Z) (event : AuditEvent) (prev : Z) : Z :=
  let h := FNV_OFFSET in
  let h := Z.lxor h seq in
  let h := h ⊠ FNV_PRIME in
  let h := Z.lxor h (event_discriminant event) in
  let h := h ⊠ FNV_PRIME in
  let h := Z.lxor h prev in
  h ⊠ FNV_PRIME.

Definition new : AuditRing :=
  mkRing (replicate AUDIT_RING_CAP None) 0 0 AUDIT_GENESIS_HASH.

Definition append (r : AuditRing) (event : AuditEvent) : AuditRing * result AuditRecord unit :=
  if (length (records r) <=? len r)%nat then (r, Err ())
  else
    let prev := tip_hash r in
    let seq := next_seq r in
    let hash := hash_record seq event prev in
    let rec := mkRec seq event prev hash in
    (mkRing (<[len r := Some rec]> (records r)) (S (len r)) (next_seq r ⊞ 1) hash, Ok rec).

(** The loop of [verify_chain] over the indices still to visit. *)
Fixpoint verify_loop (r : AuditRing) (idxs : list nat) (prev : Z) : bool :=
  match idxs with
  | [] => true
  | i :: rest =>
      match records r !! i with
      | Some (Some rec) =>
          if negb (prev_hash rec =? prev) then false
          else if negb (hash rec =? hash_record (seq rec) (event rec) (prev_hash rec)) then false
          else verify_loop r rest (hash rec)
      | _ => false
      end
  end.

Definition verify_chain (r : AuditRing) : bool :=
  verify_loop r (List.seq 0 (len r)) AUDIT_GENESIS_HASH.

Definition get (r : AuditRing) (index : nat) : option AuditRecord :=
  if (len r <=? index)%nat then None else default None (records r !! index).

Definition tamper_hash_at (r : AuditRing) (index : nat) : AuditRing * bool :=
  if (len r <=? index)%nat then (r, false)
  else match records r !! index with
       | Some (Some rec) =>
           (mkRing (<[index := Some (mkRec (seq rec) (event rec) (prev_hash rec)
                                       (Z.lxor (hash rec) 0xDEADBEEFCAFEBABE))]> (records r))
              (len r) (next_seq r) (tip_hash r), true)
       | _ => (r, false)
       end.

(** Appending the events kept aside, stopping at the first refusal. *)
Fixpoint append_all (r : AuditRing) (es : list AuditEvent) : AuditRing * bool :=
  match es with
  | [] => (r, true)
  | e :: rest => match append r e with
                 | (r', Ok _) => append_all r' rest
                 | (r', Err _) => (r', false)
                 end
  end.

(** [get(i).unwrap().event] for [i] in [0..len]; [None] where it would panic. *)
Definition kept_events (r : AuditRing) : option (list AuditEvent) :=
  mapM (λ i, event <$> get r i) (List.seq 0 (len r)).

(** ** The abstract ring: its list of events *)

Fixpoint chain (seq : Z) (prev : Z) (es : list AuditEvent) : list AuditRecord :=
  match es with
  | [] => []
  | e :: rest =>
      let h := hash_record seq e prev in
      mkRec seq e prev h :: chain (seq + 1) h rest
  end.

Fixpoint chain_tip (seq : Z) (prev : Z) (es : list AuditEvent) : Z :=
  match es with
  | [] => prev
  | e :: rest => chain_tip (seq + 1) (hash_record seq e prev) rest
  end.

Definition ring_of (es : list AuditEvent) : AuditRing :=
  mkRing ((Some <$> chain 0 AUDIT_GENESIS_HASH es)
            ++ replicate (AUDIT_RING_CAP - length es) None)
    (length es) (Z.of_nat (length es)) (chain_tip 0 AUDIT_GENESIS_HASH es).

(** Rings the firmware can hold: appends from an empty ring. *)
Inductive appended : AuditRing → Prop :=
| appended_new : appended new
| appended_step r e r' o : appended r → append r e = (r', o) → appended r'.

(** The hash the link at [i] must continue. *)
Definition prev_of (r : AuditRing) (i : nat) : Z :=
  match i with
  | O => AUDIT_GENESIS_HASH
  | S j => match records r !! j with Some (Some rec) => hash rec | _ => 0 end
  end.

Definition link_ok (r : AuditRing) (i : nat) : Prop :=
  ∃ rec, records r !! i = Some (Some rec) ∧ prev_hash rec = prev_of r i ∧
    hash rec = hash_record (seq rec) (event rec) (prev_hash rec).

Definition set_record (r : AuditRing) (i : nat) (rec : AuditRecord) : AuditRing :=
  mkRing (<[i := Some rec]> (records r)) (len r) (next_seq r) (tip_hash r).

(** *** The hash *)

(** The FNV prime is odd, so multiplying by it permutes the words. *)
Lemma fnv_mul_cancel x : u64 x → (x ⊠ FNV_PRIME) ⊠ 14886173955864302971 = x.
Proof.
  intros Hx. unfold mul64, wrap64. rewrite Z.mul_mod_idemp_l by done.
  rewrite <- Z.mul_assoc, <- Z.mul_mod_idemp_r by done.
  replace (FNV_PRIME * 14886173955864302971 mod W64) with 1 by reflexivity.
  rewrite Z.mul_1_r. by apply Z.mod_small.
Qed.

Lemma fnv_mul_inj x y : u64 x → u64 y → x ⊠ FNV_PRIME = y ⊠ FNV_PRIME → x = y.
Proof.
  intros Hx Hy E. by rewrite <- (fnv_mul_cancel x), <- (fnv_mul_cancel y), E.
Qed.

Lemma lxor_inj_r x y z : Z.lxor z x = Z.lxor z y → x = y.
Proof.
  intros E. rewrite <- (Z.lxor_0_l x), <- (Z.lxor_0_l y), <- (Z.lxor_nilpotent z).
  by rewrite !Z.lxor_assoc, E.
Qed.

Lemma lxor_inj_l x y z : Z.lxor x z = Z.lxor y z → x = y.
Proof. rewrite !(Z.lxor_comm _ z). apply lxor_inj_r. Qed.

Lemma event_discriminant_range e : 1 ≤ event_discriminant e ≤ 81.
Proof. destruct e; simpl; lia. Qed.

Lemma event_discriminant_u64 e : u64 (event_discriminant e).
Proof. pose proof (event_discriminant_range e). mlia. Qed.

Lemma mul64_u64 a b : u64 (a ⊠ b).
Proof. apply wrap64_u64. Qed.

#[local] Hint Resolve event_discriminant_u64 mul64_u64 : machine.

Lemma hash_record_u64 s e p : u64 (hash_record s e p).
Proof. apply mul64_u64. Qed.

#[local] Hint Resolve hash_record_u64 : machine.

Lemma FNV_OFFSET_u64 : u64 FNV_OFFSET.
Proof. by unfold FNV_OFFSET; mlia. Qed.

#[local] Hint Resolve FNV_OFFSET_u64 : machine.

(** Equal hashes with equal predecessors agree on the mix of the sequence
    number and the event kind. *)
Lemma hash_record_prev_inj s e p p' : u64 s → u64 p → u64 p' →
  hash_record s e p = hash_record s e p' → p = p'.
Proof.
  intros Hs Hp Hp' E. apply fnv_mul_inj in E; [|auto with machine..].
  by apply lxor_inj_r in E.
Qed.

Lemma hash_record_mix s s' e e' p : u64 s → u64 s' → u64 p →
  hash_record s e p = hash_record s' e' p →
  Z.lxor (Z.lxor FNV_OFFSET s ⊠ FNV_PRIME) (event_discriminant e)
  = Z.lxor (Z.lxor FNV_OFFSET s' ⊠ FNV_PRIME) (event_discriminant e').
Proof.
  intros Hs Hs' Hp E. apply fnv_mul_inj in E; [|auto with machine..].
  apply lxor_inj_l in E. by apply fnv_mul_inj in E; [|auto with machine..].
Qed.

Lemma hash_record_seq_iff s s' e e' p : u64 s → u64 s' → u64 p →
  hash_record s e p = hash_record s' e' p →
  s = s' ↔ event_discriminant e = event_discriminant e'.
Proof.
  intros Hs Hs' Hp E%hash_record_mix; [|done..]. split.
  - intros ->. by apply lxor_inj_r in E.
  - intros Ed. rewrite Ed in E. apply lxor_inj_l in E.
    apply fnv_mul_inj in E; [|auto with machine..]. by apply lxor_inj_r in E.
Qed.

(** *** The chain a ring of events holds *)

Lemma length_chain es : ∀ s p, length (chain s p es) = length es.
Proof. induction es as [|e es IH]; intros s p; simpl; [done|]. by rewrite IH. Qed.

Lemma chain_app es es' : ∀ s p,
  chain s p (es ++ es') = chain s p es ++ chain (s + Z.of_nat (length es)) (chain_tip s p es) es'.
Proof.
  induction es as [|e es IH]; intros s p; simpl.
  - by rewrite Z.add_0_r.
  - rewrite IH. do 3 f_equal. lia.
Qed.

Lemma chain_tip_app es es' : ∀ s p,
  chain_tip s p (es ++ es') = chain_tip (s + Z.of_nat (length es)) (chain_tip s p es) es'.
Proof.
  induction es as [|e es IH]; intros s p; simpl.
  - by rewrite Z.add_0_r.
  - rewrite IH. f_equal. lia.
Qed.

Lemma length_ring_of es : (length es ≤ AUDIT_RING_CAP)%nat →
  length (records (ring_of es)) = AUDIT_RING_CAP.
Proof.
  intros Hle. simpl. rewrite length_app, length_fmap, length_chain, length_replicate. lia.
Qed.

Lemma ring_of_nil : ring_of [] = new.
Proof. reflexivity. Qed.

Lemma append_ring_of_full es e : length es = AUDIT_RING_CAP →
  append (ring_of es) e = (ring_of es, Err ()).
Proof.
  intros Hl. unfold append. rewrite length_ring_of by lia.
  simpl len. rewrite Hl. reflexivity.
Qed.

Lemma append_ring_of es e : (length es < AUDIT_RING_CAP)%nat →
  append (ring_of es) e =
    (ring_of (es ++ [e]),
     Ok (mkRec (Z.of_nat (length es)) e (chain_tip 0 AUDIT_GENESIS_HASH es)
           (hash_record (Z.of_nat (length es)) e (chain_tip 0 AUDIT_GENESIS_HASH es)))).
Proof.
  intros Hlt. unfold append. rewrite length_ring_of by lia.
  rewrite (proj2 (Nat.leb_gt _ _)) by (simpl; lia). simpl. f_equal.
  unfold ring_of. rewrite length_app, chain_tip_app, chain_app. simpl. f_equal.
  - rewrite insert_app_r_alt by (rewrite length_fmap, length_chain; lia).
    rewrite length_fmap, length_chain, Nat.sub_diag, fmap_app, <- app_assoc. f_equal.
    replace (AUDIT_RING_CAP - length es)%nat
      with (S (AUDIT_RING_CAP - (length es + 1)))%nat by lia. done.
  - lia.
  - rewrite add64_small by (unfold AUDIT_RING_CAP in *; mlia). lia.
Qed.

Lemma appended_ring_of r : appended r →
  ∃ es, r = ring_of es ∧ (length es ≤ AUDIT_RING_CAP)%nat.
Proof.
  induction 1 as [|r e r' o _ (es & -> & Hle) Ha].
  - exists []. split; [by rewrite ring_of_nil|simpl; lia].
  - destruct (decide (length es = AUDIT_RING_CAP)) as [Hf|Hf].
    + rewrite append_ring_of_full in Ha by lia. simplify_eq. by exists es.
    + rewrite append_ring_of in Ha by lia. simplify_eq. exists (es ++ [e]).
      rewrite length_app. simpl. split; [done|lia].
Qed.

Lemma ring_of_appended es : (length es ≤ AUDIT_RING_CAP)%nat → appended (ring_of es).
Proof.
  induction es as [|e es IH] using rev_ind.
  - intros _. rewrite ring_of_nil. constructor.
  - rewrite length_app. simpl. intros Hle. eapply appended_step; [apply IH; lia|].
    apply append_ring_of. lia.
Qed.

Lemma append_all_ring_of es' : ∀ es, (length es + length es' ≤ AUDIT_RING_CAP)%nat →
  append_all (ring_of es) es' = (ring_of (es ++ es'), true).
Proof.
  induction es' as [|e es' IH]; intros es Hle; simpl.
  - by rewrite app_nil_r.
  - simpl in Hle. rewrite append_ring_of by lia.
    rewrite IH by (rewrite length_app; simpl; lia). by rewrite <- app_assoc.
Qed.

(** *** [verify_chain] *)

Lemma verify_loop_spec r n : ∀ i,
  verify_loop r (List.seq i n) (prev_of r i) = true ↔
  ∀ k, (i ≤ k < i + n)%nat → link_ok r k.
Proof.
  induction n as [|n IH]; intros i; simpl.
  - split; [intros _ k; lia|done].
  - destruct (records r !! i) as [[rec|]|] eqn:Er.
    2,3: split; [done|]; intros Hall; destruct (Hall i ltac:(lia)) as (rec & ? & _); congruence.
    specialize (IH (S i)). unfold prev_of in IH at 1. rewrite Er in IH.
    destruct (Z.eqb_spec (prev_hash rec) (prev_of r i)) as [Ep|Ep]; simpl.
    2:{ split; [done|]. intros Hall. destruct (Hall i ltac:(lia)) as (? & ? & ? & _). congruence. }
    destruct (Z.eqb_spec (hash rec) (hash_record (seq rec) (event rec) (prev_hash rec)))
      as [Eh|Eh]; simpl.
    2:{ split; [done|]. intros Hall. destruct (Hall i ltac:(lia)) as (? & ? & _ & ?). congruence. }
    rewrite IH. split; intros Hall k Hk; [|apply Hall; lia].
    destruct (decide (k = i)) as [->|]; [by exists rec|apply Hall; lia].
Qed.

Lemma verify_chain_links r : verify_chain r = true ↔ ∀ i, (i < len r)%nat → link_ok r i.
Proof.
  unfold verify_chain. rewrite (verify_loop_spec r (len r) 0). simpl.
  split; intros Hall i ?; apply Hall; lia.
Qed.

Lemma chain_lookup es : ∀ s p i rec, chain s p es !! i = Some rec →
  seq rec = s + Z.of_nat i ∧
  hash rec = hash_record (seq rec) (event rec) (prev_hash rec) ∧
  prev_hash rec = match i with O => p | S j => default 0 (hash <$> (chain s p es !! j)) end.
Proof.
  induction es as [|e es IH]; intros s p i rec; simpl; [by rewrite lookup_nil|].
  destruct i as [|i]; simpl.
  - intros [= <-]. simpl. split_and!; [lia|done..].
  - intros Hl. destruct (IH _ _ _ _ Hl) as (H1 & H2 & H3). split_and!; [lia|done|].
    rewrite H3. by destruct i.
Qed.

Lemma ring_of_lookup es i rec : chain 0 AUDIT_GENESIS_HASH es !! i = Some rec →
  records (ring_of es) !! i = Some (Some rec).
Proof.
  intros Hl. simpl. rewrite lookup_app_l, list_lookup_fmap, Hl; [done|].
  rewrite length_fmap. by eapply lookup_lt_Some.
Qed.

Lemma ring_of_verifies es : verify_chain (ring_of es) = true.
Proof.
  apply verify_chain_links. intros i Hi. simpl in Hi.
  destruct (lookup_lt_is_Some_2 (chain 0 AUDIT_GENESIS_HASH es) i) as [rec Hrec];
    [by rewrite length_chain|].
  destruct (chain_lookup _ _ _ _ _ Hrec) as (_ & Hh & Hp).
  exists rec. split_and!; [by apply ring_of_lookup| |done].
  rewrite Hp. destruct i as [|j]; [done|]. unfold prev_of.
  destruct (lookup_lt_is_Some_2 (chain 0 AUDIT_GENESIS_HASH es) j) as [rec' Hrec'];
    [rewrite length_chain; lia|].
  by rewrite (ring_of_lookup _ _ _ Hrec'), Hrec'.
Qed.

Lemma get_ring_of es i rec : chain 0 AUDIT_GENESIS_HASH es !! i = Some rec →
  get (ring_of es) i = Some rec.
Proof.
  intros Hl. pose proof (lookup_lt_Some _ _ _ Hl) as Hlt. rewrite length_chain in Hlt.
  unfold get. rewrite (proj2 (Nat.leb_gt _ _)) by (simpl; lia).
  by rewrite (ring_of_lookup _ _ _ Hl).
Qed.

Lemma kept_events_ring_of es : kept_events (ring_of es) = Some es.
Proof.
  unfold kept_events. apply mapM_Some_2, Forall2_same_length_lookup_2.
  { by rewrite length_seq. }
  intros i k e Hk He. apply lookup_seq in Hk as [-> Hlt]. simpl in Hlt. simpl.
  assert (∀ es s p j e, es !! j = Some e →
    ∃ rec, chain s p es !! j = Some rec ∧ event rec = e) as Hch.
  { clear. induction es as [|e' es IH]; intros s p j e; [done|].
    destruct j as [|j]; simpl; [intros [= ->]; eexists; split; [done|done]|]. apply IH. }
  destruct (Hch es 0 AUDIT_GENESIS_HASH i e He) as (rec & Hrec & <-).
  by rewrite (get_ring_of _ _ _ Hrec).
Qed.

Lemma ring_of_seq es i : (i < length es)%nat →
  ∃ rec, records (ring_of es) !! i = Some (Some rec) ∧ seq rec = Z.of_nat i.
Proof.
  intros Hi. destruct (lookup_lt_is_Some_2 (chain 0 AUDIT_GENESIS_HASH es) i) as [rec Hrec];
    [by rewrite length_chain|].
  exists rec. split; [by apply ring_of_lookup|].
  by destruct (chain_lookup _ _ _ _ _ Hrec) as (-> & _).
Qed.

Lemma chain_tip_last es : ∀ s p, es ≠ [] →
  ∃ rec, chain s p es !! pred (length es) = Some rec ∧ hash rec = chain_tip s p es.
Proof.
  induction es as [|e [|e' es] IH]; intros s p Hne; [done| |].
  - eexists. split; [done|done].
  - destruct (IH (s + 1) (hash_record s e p)) as (rec & Hrec & Hh); [done|]. by exists rec.
Qed.

Lemma ring_of_tip es : tip_hash (ring_of es) = prev_of (ring_of es) (length es).
Proof.
  destruct es as [|e es]; [done|].
  destruct (chain_tip_last (e :: es) 0 AUDIT_GENESIS_HASH) as (rec & Hrec & Hh); [done|].
  simpl length in *. unfold prev_of. simpl pred in Hrec.
  by rewrite (ring_of_lookup _ _ _ Hrec).
Qed.

Lemma prev_of_set_record r i rec j : (j ≠ S i)%nat →
  prev_of (set_record r i rec) j = prev_of r j.
Proof.
  intros Hne. destruct j as [|j]; [done|]. unfold prev_of. simpl.
  by rewrite list_lookup_insert_ne by lia.
Qed.

(** A chain that verifies before and after one record is replaced keeps that
    record's predecessor, and its hash too unless it is the last record. *)
Lemma replace_keeps_links r i rec rec' :
  verify_chain r = true → verify_chain (set_record r i rec') = true →
  (i < len r)%nat → records r !! i = Some (Some rec) →
  prev_hash rec' = prev_hash rec ∧ ((S i < len r)%nat → hash rec' = hash rec) ∧
  hash rec' = hash_record (seq rec') (event rec') (prev_hash rec') ∧
  hash rec = hash_record (seq rec) (event rec) (prev_hash rec).
Proof.
  intros Hv Hv'. rewrite verify_chain_links in Hv, Hv'. simpl in Hv'.
  intros Hi Hrec. pose proof (lookup_lt_Some _ _ _ Hrec) as Hlen.
  destruct (Hv i Hi) as (x & Hx & Hxp & Hxh). destruct (Hv' i Hi) as (y & Hy & Hyp & Hyh).
  simpl in Hy. rewrite list_lookup_insert_eq in Hy by done. simplify_eq.
  rewrite prev_of_set_record in Hyp by lia. split_and!; [congruence| |done|done].
  intros HS. destruct (Hv (S i) HS) as (x' & Hx' & Hxp' & _).
  destruct (Hv' (S i) HS) as (y' & Hy' & Hyp' & _).
  simpl in Hy'. rewrite list_lookup_insert_ne in Hy' by lia. simplify_eq.
  rewrite Hxp' in Hyp'. unfold prev_of in Hyp'. simpl in Hyp'.
  by rewrite list_lookup_insert_eq, Hrec in Hyp' by done.
Qed.

Lemma tamper_eq r i rec : (i < len r)%nat → records r !! i = Some (Some rec) →
  tamper_hash_at r i =
    (set_record r i (mkRec (seq rec) (event rec) (prev_hash rec)
                       (Z.lxor (hash rec) 0xDEADBEEFCAFEBABE)), true).
Proof.
  intros Hi Hr. unfold tamper_hash_at. rewrite (proj2 (Nat.leb_gt _ _)) by done.
  by rewrite Hr.
Qed.

(** ** Theorems *)

(** Every ring built by appends from the empty ring verifies; its sequence
    numbers are the positions 0, 1, 2, ..., its tip is the hash of the last
    record (the genesis hash when empty) and it never holds more than 256
    records. *)
Theorem appended_chain_valid r : appended r →
  verify_chain r = true ∧ (len r ≤ AUDIT_RING_CAP)%nat ∧
  next_seq r = Z.of_nat (len r) ∧ tip_hash r = prev_of r (len r) ∧
  (∀ i, (i < len r)%nat → ∃ rec, records r !! i = Some (Some rec) ∧ seq rec = Z.of_nat i).
Proof.
  intros (es & -> & Hle)%appended_ring_of.
  split_and!; [apply ring_of_verifies|done|done|apply ring_of_tip|].
  intros i Hi. by apply ring_of_seq.
Qed.

(** [append] on every branch. A ring of 256 records refuses and is left as
    it was (no silent drop); any other ring accepts, the new record continues
    the previous tip with the next sequence number, becomes the tip, and every
    earlier record is kept. *)
Theorem append_behaviour r e : appended r →
  let '(r', o) := append r e in
  (o = Err () ↔ len r = AUDIT_RING_CAP) ∧ (o = Err () → r' = r) ∧
  ∀ rec, o = Ok rec →
    rec = mkRec (next_seq r) e (tip_hash r) (hash_record (next_seq r) e (tip_hash r)) ∧
    get r' (len r) = Some rec ∧ len r' = S (len r) ∧ tip_hash r' = hash rec ∧
    next_seq r' = next_seq r + 1 ∧
    (∀ i, (i < len r)%nat → get r' i = get r i).
Proof.
  intros (es & -> & Hle)%appended_ring_of.
  destruct (decide (length es = AUDIT_RING_CAP)) as [Hf|Hf].
  - rewrite append_ring_of_full by done. split_and!; try done.
  - rewrite append_ring_of by lia. split; [split; simpl; [done|lia]|].
    split; [done|]. intros rec [= <-].
    assert (∀ i rec, chain 0 AUDIT_GENESIS_HASH (es ++ [e]) !! i = Some rec →
              get (ring_of (es ++ [e])) i = Some rec) as Hget by apply get_ring_of.
    rewrite chain_app in Hget. split_and!; [done|..].
    + apply Hget. simpl. rewrite lookup_app_r by (rewrite length_chain; lia).
      by rewrite length_chain, Nat.sub_diag.
    + simpl. rewrite length_app. simpl. lia.
    + simpl. by rewrite chain_tip_app.
    + simpl. rewrite length_app. simpl. lia.
    + intros i Hi. simpl in Hi.
      destruct (lookup_lt_is_Some_2 (chain 0 AUDIT_GENESIS_HASH es) i) as [x Hx];
        [by rewrite length_chain|].
      rewrite (get_ring_of _ _ _ Hx). apply Hget. by apply lookup_app_l_Some.
Qed.

(** [verify_chain] answers true exactly when each of the first [len] slots
    holds a record whose previous hash is the hash before it (the genesis hash
    for the first) and whose hash is the hash of its fields. *)
Theorem verify_chain_iff r :
  verify_chain r = true ↔ ∀ i, (i < len r)%nat → link_ok r i.
Proof. apply verify_chain_links. Qed.

(** Tamper evidence inside the chain. If one record other than the last is
    replaced in a verifying ring and the ring still verifies, the replacement
    has the same previous hash and the same hash, and its sequence number
    differs exactly when its event kind does. So rewriting only the hash, only
    the link, only the sequence number or only the event kind of an interior
    record is always detected. *)
Theorem interior_tamper_detected r i rec rec' :
  verify_chain r = true → (S i < len r)%nat → records r !! i = Some (Some rec) →
  u64 (seq rec) → u64 (seq rec') → u64 (prev_hash rec) →
  verify_chain (set_record r i rec') = true →
  prev_hash rec' = prev_hash rec ∧ hash rec' = hash rec ∧
  (seq rec' = seq rec ↔ event_discriminant (event rec') = event_discriminant (event rec)).
Proof.
  intros Hv Hi Hrec Hs Hs' Hp Hv'.
  destruct (replace_keeps_links r i rec rec' Hv Hv' ltac:(lia) Hrec) as (E1 & E2 & E3 & E4).
  specialize (E2 Hi). split_and!; [done..|].
  apply (hash_record_seq_iff _ _ _ _ (prev_hash rec)); [done..|]. congruence.
Qed.

(** [tamper_hash_at] succeeds exactly on an index below the length of a
    verifying ring, and the ring it leaves no longer verifies. *)
Theorem tamper_hash_detected r i : verify_chain r = true →
  let '(r', ok) := tamper_hash_at r i in
  (ok = true ↔ (i < len r)%nat) ∧ verify_chain r' = negb ok ∧ (ok = false → r' = r).
Proof.
  intros Hv. unfold tamper_hash_at.
  destruct (len r <=? i)%nat eqn:El.
  { apply Nat.leb_le in El. split_and!; [split; [done|lia]|by rewrite Hv|done]. }
  apply Nat.leb_gt in El. destruct (proj1 (verify_chain_links r) Hv i El) as (rec & Hr & Hp & Hh).
  rewrite Hr. split_and!; [done| |done]. apply not_true_iff_false. intros Hv'.
  pose proof (replace_keeps_links r i rec _ Hv Hv' El Hr) as (_ & _ & E3 & _).
  simpl in E3. rewrite <- Hh in E3.
  rewrite <- (Z.lxor_0_r (hash rec)) in E3 at 2. by apply lxor_inj_r in E3.
Qed.

(** Tampering twice at one index is undone: the ring is the original again
    and verifies, so the success of [tamper_hash_at] alone does not imply that
    the chain is broken. *)
Theorem tamper_twice_restores r i : verify_chain r = true → (i < len r)%nat →
  let r1 := (tamper_hash_at r i).1 in
  (tamper_hash_at r1 i).2 = true ∧ verify_chain (tamper_hash_at r1 i).1 = true.
Proof.
  intros Hv Hi. destruct (proj1 (verify_chain_links r) Hv i Hi) as (rec & Hr & _).
  pose proof (lookup_lt_Some _ _ _ Hr) as Hlt.
  rewrite (tamper_eq r i rec) by done. simpl.
  erewrite tamper_eq; [|done|apply list_lookup_insert_eq; done]. split; [done|]. simpl.
  unfold set_record. simpl.
  rewrite list_insert_insert_eq, Z.lxor_assoc, Z.lxor_nilpotent, Z.lxor_0_r.
  rewrite list_insert_id by (by destruct rec). by destruct r.
Qed.

(** The chain seals event kinds, not payloads. Replacing the event of any
    record by another event of the same kind leaves the verdict of
    [verify_chain] unchanged. *)
Theorem payload_not_sealed r i rec e : records r !! i = Some (Some rec) →
  event_discriminant e = event_discriminant (event rec) →
  verify_chain (set_record r i (mkRec (seq rec) e (prev_hash rec) (hash rec))) = verify_chain r.
Proof.
  intros Hr Hd. set (r' := set_record _ _ _).
  pose proof (lookup_lt_Some _ _ _ Hr) as Hlt.
  assert (∀ j, prev_of r' j = prev_of r j) as Hprev.
  { intros j. destruct (decide (j = S i)) as [->|]; [|by apply prev_of_set_record].
    unfold prev_of. simpl. by rewrite list_lookup_insert_eq, Hr. }
  apply eq_bool_prop_intro. rewrite !Is_true_true, !verify_chain_links.
  apply forall_proper. intros j. cbn [len r' set_record].
  assert (link_ok r' j ↔ link_ok r j) as ->; [|done]. unfold link_ok. rewrite Hprev.
  destruct (decide (j = i)) as [->|Hne].
  - cbn [records r' set_record]. rewrite list_lookup_insert_eq, Hr by done.
    split; intros (x & [= <-] & Hp & Hh); eexists; (split; [done|]); simpl in *;
      unfold hash_record in *; rewrite ?Hd in *; done.
  - cbn [records r' set_record]. by rewrite list_lookup_insert_ne by done.
Qed.

(** ** Witnesses *)

Definition demo : list AuditEvent :=
  [BootStarted M5; VmCreated 1; EptUnmapped 1 4096 60; VmStopped 1].

Lemma demo_appended : appended (ring_of demo).
Proof. apply ring_of_appended. simpl. unfold AUDIT_RING_CAP. lia. Qed.

Lemma appended_chain_valid_witness :
  appended (ring_of demo) ∧ verify_chain (ring_of demo) = true.
Proof.
  split; [apply demo_appended|].
  exact (proj1 (appended_chain_valid (ring_of demo) demo_appended)).
Defined.

Lemma append_behaviour_witness :
  (append (ring_of demo) (VmDestroyed 1)).2 = Err () ↔ len (ring_of demo) = AUDIT_RING_CAP.
Proof.
  exact (proj1 (append_behaviour (ring_of demo) (VmDestroyed 1) demo_appended)).
Defined.

Lemma interior_tamper_detected_witness :
  let rec := mkRec 1 (VmCreated 1) (prev_of (ring_of demo) 1) (prev_of (ring_of demo) 2) in
  let rec' := mkRec 1 (VmCreated 7) (prev_of (ring_of demo) 1) (prev_of (ring_of demo) 2) in
  verify_chain (set_record (ring_of demo) 1 rec') = true ∧ hash rec' = hash rec.
Proof.
  intros rec rec'. split; [reflexivity|].
  apply (interior_tamper_detected (ring_of demo) 1 rec rec');
    [reflexivity|simpl; lia|reflexivity|vm_compute; split; congruence..|reflexivity].
Defined.

Lemma tamper_hash_detected_witness :
  verify_chain (tamper_hash_at (ring_of demo) 2).1 = false.
Proof. exact (proj1 (proj2 (tamper_hash_detected (ring_of demo) 2 eq_refl))). Defined.

Lemma tamper_twice_restores_witness :
  verify_chain (tamper_hash_at (tamper_hash_at (ring_of demo) 2).1 2).1 = true.
Proof.
  refine (proj2 (tamper_twice_restores (ring_of demo) 2 eq_refl _)). simpl. lia.
Defined.

Lemma payload_not_sealed_witness :
  let rec := mkRec 1 (VmCreated 1) (prev_of (ring_of demo) 1) (prev_of (ring_of demo) 2) in
  verify_chain (set_record (ring_of demo) 1
    (mkRec 1 (VmCreated 7) (prev_hash rec) (hash rec))) = true.
Proof.
  intros rec. transitivity (verify_chain (ring_of demo)); [|reflexivity].
  exact (payload_not_sealed (ring_of demo) 1 rec (VmCreated 7) eq_refl eq_refl).
Defined.

End Audit.
