(* ===== verification/AuditPersist.v ===== *)
(** * Durable image of the audit chain ([audit/persist.rs])

    The 16-sector image of the audit ring: its encoding, its decoding, the
    adoption of an image found on disk, and the staging cell through which the
    image reaches the disk. Bytes are integers in [0, 256). *)

From S2P Require Import Prelude Bytes AuditRing.
Import Audit.

Module Persist.

Definition IMAGE_BYTES : Z := 8192.
(** [b"RAYNUAUD"] *)
Definition MAGIC : list Z := [82; 65; 89; 78; 85; 65; 85; 68].
Definition VERSION : Z := 1.
Definition HEADER : Z := 32.
Definition REC : Z := 24.
Definition CHECK_OFF : Z := IMAGE_BYTES - 4.

(** ** Operations *)

Definition W32 : Z := 4294967296.

Definition checksum (bytes : list Z) : Z := foldl (λ a b, (a + b) mod W32) 0 bytes.

Definition ring_next_seq (r : AuditRing) : Z :=
  match get r (len r - 1)%nat with
  | Some rec => sat_add64 (seq rec) 1
  | None => 0
  end.

Definition write_record (rec : AuditRecord) (at_ : Z) (buf : list Z) : list Z :=
  let buf := splice at_ (to_le 8 (seq rec)) buf in
  let buf := splice (at_ + 8) (to_le 8 (event_discriminant (event rec))) buf in
  splice (at_ + 16) (to_le 8 (prev_hash rec)) buf.

(** [None] is the panic of [get(i).unwrap()]. *)
Fixpoint encode_records (r : AuditRing) (idxs : list Z) (buf : list Z) : option (list Z) :=
  match idxs with
  | [] => Some buf
  | i :: rest =>
      match get r (Z.to_nat i) with
      | Some rec => encode_records r rest (write_record rec (HEADER + i * REC) buf)
      | None => None
      end
  end.

Definition encode_header (r : AuditRing) (buf : list Z) : list Z :=
  let buf := splice 0 (replicate (Z.to_nat IMAGE_BYTES) 0) buf in
  let buf := splice 0 MAGIC buf in
  let buf := splice 8 [VERSION] buf in
  let buf := splice 10 (to_le 2 (Z.of_nat (len r) mod 65536)) buf in
  let buf := splice 12 (to_le 8 (ring_next_seq r)) buf in
  splice 20 (to_le 8 (tip_hash r)) buf.

Definition encode_ring (r : AuditRing) (buf : list Z) : option (list Z * bool) :=
  if (blen buf <? IMAGE_BYTES) || (AUDIT_RING_CAP <? len r)%nat then Some (buf, false)
  else
    match encode_records r (seqZ 0 (Z.of_nat (len r))) (encode_header r buf) with
    | None => None
    | Some buf =>
        let sum := checksum (take (Z.to_nat CHECK_OFF) buf) in
        Some (splice CHECK_OFF (to_le 4 sum) buf, true)
    end.

Definition event_from_disc (disc : Z) : option AuditEvent :=
  match disc with
  | 1 => Some (BootStarted M0)
  | 2 => Some (VmxEnabled 0)
  | 3 => Some (VmcsCreated 0 0)
  | 4 => Some (EptMapped 0 0 0)
  | 5 => Some (EptUnmapped 0 0 0)
  | 6 => Some (MsrBlocked 0 0)
  | 7 => Some (FrameAllocated 0)
  | 8 => Some (FrameFreed 0)
  | 9 => Some (VmCreated 0)
  | 10 => Some (VmStarted 0)
  | 11 => Some (VmStopped 0)
  | 12 => Some (VmDestroyed 0)
  | 13 => Some (MigrateStarted 0 0)
  | 14 => Some (MigrateCompleted 0 0)
  | 15 => Some (MigrateFailed 0 0)
  | 16 => Some (AuthAllowed 0)
  | 17 => Some (AuthDenied 0)
  | 18 => Some (HaFailoverStarted 0 0)
  | 19 => Some (HaFailoverCompleted 0)
  | 20 => Some (FaultInjected 0 0)
  | 21 => Some (FaultRecovered 0 0)
  | 22 => Some (FaultFailClosed 0 0)
  | 23 => Some (SoakStarted 0)
  | 24 => Some (SoakCompleted 0)
  | 25 => Some (SoakFailed 0)
  | 26 => Some (EvidenceModeActivated 0)
  | 27 => Some (MgmtRestarted 0 0)
  | 28 => Some (CdromAttached 0 0)
  | 29 => Some (CdromFirmwareArmed 0 0)
  | 30 => Some (GuestFirmwareBoxed 0 0)
  | 31 => Some (GuestFirmwareLoaded 0)
  | 32 => Some (OvmfFirmwareProbed 0)
  | 33 => Some (OvmfFirmwareEspLoaded 0 0)
  | 34 => Some (OvmfFirmwareSlotArmed 0)
  | 35 => Some (OvmfFirmwareGuestBound 0 0)
  | 36 => Some (OvmfFirmwareLaunchPrepared 0 0)
  | 37 => Some (OvmfFirmwareFloorStaged 0)
  | 38 => Some (OvmfFirmwareEdk2Staged 0)
  | 39 => Some (OvmfEspLaunchArmed 0 0)
  | 40 => Some (OvmfEspLiveMapped 0)
  | 41 => Some (OvmfResetVectorArmed 0)
  | 42 => Some (OvmfFirmwareAliasArmed 0)
  | 43 => Some (OvmfAliasEptProgrammed 0 0)
  | 44 => Some (OvmfAliasEptInstalled 0 0)
  | 45 => Some (OvmfRealEspQualified 0 0)
  | 46 => Some (OvmfRealLaunchArmed 0 0)
  | 47 => Some (OvmfLiveEspRequired 0 0)
  | 48 => Some (OvmfPrivateVmcsArmed 0 0)
  | 49 => Some (OvmfLiveIssueArmed 0 0)
  | 50 => Some (OvmfLiveBytesProbed 0 0)
  | 51 => Some (OvmfLiveFdRequired 0 0)
  | 52 => Some (OvmfLiveEspPresented 0 0)
  | 53 => Some (OvmfLiveEspAdmitted 0 0)
  | 54 => Some (OvmfLiveEspRead 0 0)
  | 55 => Some (OvmfLiveEspCopied 0 0)
  | 56 => Some (OvmfLiveEspPlaced 0 0)
  | 57 => Some (OvmfLiveEspApplied 0 0)
  | 58 => Some (OvmfLiveEspCommitted 0 0)
  | 59 => Some (OvmfLiveEspLatched 0 0)
  | 60 => Some (OvmfLiveEspSealed 0 0)
  | 61 => Some (OvmfLiveEspLocked 0 0)
  | 62 => Some (OvmfLiveEspHeld 0 0)
  | 63 => Some (OvmfLiveEspBytesRetained 0)
  | 64 => Some (OvmfGuestUefiVmlaunched 0 0)
  | 65 => Some (OvmfGuestUefiAlive 0 0)
  | 66 => Some (OvmfGuestUefiPastSec 0 0 0)
  | 67 => Some (CdromGuestVisible 0 0)
  | 68 => Some (OvmfGuestUefiCdrom 0 0 0)
  | 69 => Some (OvmfGuestUefiDxe 0 0 0)
  | 70 => Some (OvmfGuestUefiVirtio 0 0)
  | 71 => Some (OvmfGuestUefiBoth 0 0 0)
  | 72 => Some (OvmfGuestUefiAtapi 0 0)
  | 73 => Some (OvmfGuestUefiEltorito 0 0 0)
  | 74 => Some (HostPowerOff 0)
  | 75 => Some (PercSpaChoice 0)
  | 76 => Some (GuestNicSaved 0 0)
  | 77 => Some (GuestNicDetached 0)
  | 78 => Some (HostLinkChanged 0 0 0)
  | 79 => Some (HostAddrSaved 0 0)
  | 80 => Some (OperatorAccountSet 0)
  | 81 => Some (HostCertSaved 0 0)
  | _ => None
  end.

Fixpoint decode_records (image : list Z) (ring : AuditRing) (idxs : list Z) : option AuditRing :=
  match idxs with
  | [] => Some ring
  | i :: rest =>
      let at_ := HEADER + i * REC in
      let seq' := from_le (slice at_ 8 image) in
      let disc := from_le (slice (at_ + 8) 8 image) in
      let prev := from_le (slice (at_ + 16) 8 image) in
      match event_from_disc disc with
      | None => None
      | Some ev =>
          match append ring ev with
          | (_, Err _) => None
          | (ring', Ok got) =>
              if negb (seq got =? seq') || negb (prev_hash got =? prev) then None
              else if negb (hash got =? hash_record seq' ev prev) then None
              else decode_records image ring' rest
          end
      end
  end.

Definition decode_ring (image : list Z) : option AuditRing :=
  if (blen image <? IMAGE_BYTES) || negb (bool_decide (slice 0 8 image = MAGIC))
     || negb (bool_decide (slice 8 1 image = [VERSION])) then None
  else
    let sum := from_le (slice CHECK_OFF 4 image) in
    if negb (sum =? checksum (take (Z.to_nat CHECK_OFF) image)) then None
    else
      let count := from_le (slice 10 2 image) in
      if Z.of_nat AUDIT_RING_CAP <? count then None
      else
        match decode_records image new (seqZ 0 count) with
        | None => None
        | Some ring =>
            let tip := from_le (slice 20 8 image) in
            if negb (tip_hash ring =? tip) then None
            else if (count =? 0) && negb (tip =? AUDIT_GENESIS_HASH) then None
            else Some ring
        end.

(** [AuditRing::adopt_image]. The outer [None] is the panic of an [unwrap]. *)
Definition adopt_image (self : AuditRing) (image : list Z) : option (AuditRing * bool) :=
  match decode_ring image with
  | None => Some (self, false)
  | Some prior =>
      if negb (verify_chain prior) || (AUDIT_RING_CAP <? len prior + len self)%nat
      then Some (self, false)
      else match kept_events self with
           | None => None
           | Some kept =>
               match append_all prior kept with
               | (self', false) => Some (self', false)
               | (self', true) => Some (self', verify_chain self')
               end
           end
  end.

Definition flush_interval_elapsed (last now gap : Z) : bool :=
  (last =? 0) || (gap <=? now ⊟ last).

(** The statics: the boot ring and the staged image with its generation and
    dirty flag. Each operation below runs under the locks of the source. *)
Record Boot := mkBoot {
  boot_ring : AuditRing;
  staged : list Z;
  staged_gen : Z;
  staged_on : bool;
}.

Definition boot_init : Boot := mkBoot new (replicate (Z.to_nat IMAGE_BYTES) 0) 0 false.

Definition stage_boot_ring (b : Boot) : option Boot :=
  match encode_ring (boot_ring b) (staged b) with
  | None => None
  | Some (buf, true) => Some (mkBoot (boot_ring b) buf ((staged_gen b + 1) mod W32) true)
  | Some (buf, false) => Some (mkBoot (boot_ring b) buf (staged_gen b) (staged_on b))
  end.

(** The console output of the source has no effect on this state. *)
Definition record_event (b : Boot) (e : AuditEvent) : option Boot :=
  stage_boot_ring (mkBoot (append (boot_ring b) e).1 (staged b) (staged_gen b) (staged_on b)).

Definition adopt_boot_image (b : Boot) (image : list Z) : option (Boot * bool) :=
  match adopt_image (boot_ring b) image with
  | None => None
  | Some (r, ok) => Some (mkBoot r (staged b) (staged_gen b) (staged_on b), ok)
  end.

Definition staged_sector (b : Boot) (index : Z) : option (Z * list Z) :=
  if negb (staged_on b) || (IMAGE_BYTES / 512 <=? index) then None
  else Some (staged_gen b, slice (index * 512) 512 (staged b)).

Definition ack_staged (b : Boot) (gen : Z) : Boot :=
  if staged_gen b =? gen then mkBoot (boot_ring b) (staged b) (staged_gen b) false else b.

Ltac im_lia := unfold CHECK_OFF, IMAGE_BYTES, HEADER, REC, AUDIT_RING_CAP, W32 in *; mlia.

(** ** Encoding *)

Lemma write_record_spec rec a l : 0 ≤ a → a + REC ≤ blen l →
  let l' := write_record rec a l in
  blen l' = blen l ∧
  slice a 8 l' = to_le 8 (seq rec) ∧
  slice (a + 8) 8 l' = to_le 8 (event_discriminant (event rec)) ∧
  slice (a + 16) 8 l' = to_le 8 (prev_hash rec) ∧
  ∀ off n, 0 ≤ off → 0 ≤ n → off + n ≤ a ∨ a + REC ≤ off → slice off n l' = slice off n l.
Proof.
  intros Ha Hle. unfold write_record.
  set (l1 := splice a _ l). set (l2 := splice (a + 8) _ l1).
  assert (blen l1 = blen l) as L1 by (apply blen_le; im_lia).
  assert (blen l2 = blen l) as L2 by (rewrite <- L1; apply blen_le; im_lia).
  split_and!.
  - rewrite <- L2. apply blen_le; im_lia.
  - rewrite read_le_other by im_lia. unfold l2. rewrite read_le_other by im_lia.
    apply (read_le_same a 8); im_lia.
  - rewrite read_le_other by im_lia. apply (read_le_same (a + 8) 8); im_lia.
  - apply (read_le_same (a + 16) 8); im_lia.
  - intros off n Hoff Hn Hd. rewrite read_le_other by im_lia. unfold l2. rewrite read_le_other by im_lia.
    unfold l1. rewrite read_le_other by im_lia. done.
Qed.

(** What the image says of the record at index [i]. *)
Definition record_at (l : list Z) (i : Z) (rec : AuditRecord) : Prop :=
  slice (HEADER + i * REC) 8 l = to_le 8 (seq rec) ∧
  slice (HEADER + i * REC + 8) 8 l = to_le 8 (event_discriminant (event rec)) ∧
  slice (HEADER + i * REC + 16) 8 l = to_le 8 (prev_hash rec).

Lemma record_at_proper l l' i rec : 0 ≤ i →
  (∀ off n, HEADER + i * REC ≤ off → 0 ≤ n → off + n ≤ HEADER + (i + 1) * REC →
     slice off n l' = slice off n l) →
  record_at l i rec → record_at l' i rec.
Proof.
  intros Hi Hs (R1 & R2 & R3). unfold record_at. rewrite !Hs by im_lia. done.
Qed.

Lemma encode_records_spec es n : ∀ k l,
  (k + n = length es)%nat → HEADER + (Z.of_nat (length es)) * REC ≤ blen l →
  ∃ l', encode_records (ring_of es) (seqZ (Z.of_nat k) (Z.of_nat n)) l = Some l' ∧
    blen l' = blen l ∧
    (∀ off m, 0 ≤ off → 0 ≤ m →
       off + m ≤ HEADER + Z.of_nat k * REC ∨ HEADER + (Z.of_nat (length es)) * REC ≤ off →
       slice off m l' = slice off m l) ∧
    (∀ i rec, (k ≤ i < length es)%nat → chain 0 AUDIT_GENESIS_HASH es !! i = Some rec →
       record_at l' (Z.of_nat i) rec).
Proof.
  induction n as [|n IH]; intros k l Hk Hl.
  - exists l. split_and!; try done. intros i rec Hi. lia.
  - rewrite seqZ_S. simpl.
    destruct (lookup_lt_is_Some_2 (chain 0 AUDIT_GENESIS_HASH es) k) as [rec Hrec];
      [rewrite length_chain; lia|].
    rewrite Nat2Z.id, (get_ring_of _ _ _ Hrec).
    destruct (write_record_spec rec (HEADER + Z.of_nat k * REC) l)
      as (W1 & W2 & W3 & W4 & W5); [im_lia..|].
    replace (Z.of_nat k + 1) with (Z.of_nat (S k)) by lia.
    destruct (IH (S k) (write_record rec (HEADER + Z.of_nat k * REC) l))
      as (l' & E & L & Hout & Hin); [lia|by rewrite W1|].
    exists l'. split_and!; [done|by rewrite L| |].
    + intros off m Hoff Hm Hd. rewrite Hout, W5 by im_lia. done.
    + intros i x Hi Hx. destruct (decide (i = k)) as [->|Hne]; [|apply Hin; [lia|done]].
      rewrite Hrec in Hx. simplify_eq.
      assert (∀ off m, HEADER + Z.of_nat k * REC ≤ off → 0 ≤ m →
        off + m ≤ HEADER + (Z.of_nat k + 1) * REC →
        slice off m l' = slice off m (write_record x (HEADER + Z.of_nat k * REC) l)) as Hs.
      { intros off m ???. apply Hout; im_lia. }
      eapply record_at_proper; [lia|exact Hs|done].
Qed.

Lemma encode_header_spec r l : IMAGE_BYTES ≤ blen l → (len r ≤ AUDIT_RING_CAP)%nat →
  let l' := encode_header r l in
  blen l' = blen l ∧ slice 0 8 l' = MAGIC ∧ slice 8 1 l' = [VERSION] ∧
  slice 10 2 l' = to_le 2 (Z.of_nat (len r)) ∧ slice 20 8 l' = to_le 8 (tip_hash r).
Proof.
  intros Hl Hr. unfold encode_header.
  rewrite (Z.mod_small (Z.of_nat (len r))) by im_lia.
  set (l0 := splice 0 (replicate _ _) l). set (l1 := splice 0 MAGIC l0).
  set (l2 := splice 8 [VERSION] l1). set (l3 := splice 10 _ l2). set (l4 := splice 12 _ l3).
  assert (blen MAGIC = 8) as LM by reflexivity.
  assert (blen [VERSION] = 1) as LV by reflexivity.
  assert (blen l0 = blen l) as L0.
  { apply blen_splice; [done|]. unfold blen at 1. rewrite length_replicate. im_lia. }
  assert (blen l1 = blen l) as L1 by (rewrite <- L0; apply blen_splice; im_lia).
  assert (blen l2 = blen l) as L2 by (rewrite <- L1; apply blen_splice; im_lia).
  assert (blen l3 = blen l) as L3 by (rewrite <- L2; apply blen_le; im_lia).
  assert (blen l4 = blen l) as L4 by (rewrite <- L3; apply blen_le; im_lia).
  split_and!.
  - rewrite <- L4. apply blen_le; im_lia.
  - rewrite read_le_other by im_lia. unfold l4. rewrite read_le_other by im_lia. unfold l3. rewrite read_le_other by im_lia.
    unfold l2. rewrite slice_splice_other by im_lia. apply (slice_splice_same 0 MAGIC); im_lia.
  - rewrite read_le_other by im_lia. unfold l4. rewrite read_le_other by im_lia. unfold l3. rewrite read_le_other by im_lia.
    apply (slice_splice_same 8 [VERSION]); im_lia.
  - rewrite read_le_other by im_lia. unfold l4. rewrite read_le_other by im_lia. apply (read_le_same 10 2); im_lia.
  - apply (read_le_same 20 8); im_lia.
Qed.

(** The image [encode_ring] leaves: what [decode_ring] will read. *)
Record image_of (es : list AuditEvent) (l : list Z) : Prop := {
  im_len : IMAGE_BYTES ≤ blen l;
  im_magic : slice 0 8 l = MAGIC;
  im_version : slice 8 1 l = [VERSION];
  im_count : slice 10 2 l = to_le 2 (Z.of_nat (length es));
  im_tip : slice 20 8 l = to_le 8 (tip_hash (ring_of es));
  im_records : ∀ i rec, chain 0 AUDIT_GENESIS_HASH es !! i = Some rec →
                 record_at l (Z.of_nat i) rec;
  im_check : slice CHECK_OFF 4 l = to_le 4 (checksum (take (Z.to_nat CHECK_OFF) l));
}.

Lemma encode_ring_image es l : (length es ≤ AUDIT_RING_CAP)%nat → IMAGE_BYTES ≤ blen l →
  ∃ l', encode_ring (ring_of es) l = Some (l', true) ∧ image_of es l' ∧ blen l' = blen l.
Proof.
  intros Hes Hl. unfold encode_ring.
  rewrite (proj2 (Z.ltb_ge _ _)), (proj2 (Nat.ltb_ge _ _)) by (simpl; lia). simpl.
  destruct (encode_header_spec (ring_of es) l Hl Hes) as (H1 & H2 & H3 & H4 & H5).
  destruct (encode_records_spec es (length es) 0 (encode_header (ring_of es) l))
    as (l' & E & L & Hout & Hin); [lia|rewrite H1; im_lia|].
  change (Z.of_nat 0) with 0 in E. rewrite E.
  set (c := checksum _). exists (splice CHECK_OFF (to_le 4 c) l').
  assert (∀ off n, 0 ≤ off → 0 ≤ n → off + n ≤ CHECK_OFF →
    slice off n (splice CHECK_OFF (to_le 4 c) l') = slice off n l') as Hs.
  { intros. apply read_le_other; im_lia. }
  split; [done|]. split; [|rewrite blen_le; im_lia]. constructor.
  - rewrite blen_le; im_lia.
  - rewrite Hs, Hout by im_lia. done.
  - rewrite Hs, Hout by im_lia. done.
  - rewrite Hs, Hout by im_lia. done.
  - rewrite Hs, Hout by im_lia. done.
  - intros i rec Hrec. pose proof (lookup_lt_Some _ _ _ Hrec) as Hi.
    rewrite length_chain in Hi.
    eapply record_at_proper; [lia| |apply (Hin i rec); [lia|done]].
    intros off n ???. apply Hs; im_lia.
  - rewrite take_splice by (rewrite ?blen_to_le; im_lia). apply (read_le_same CHECK_OFF 4); im_lia.
Qed.

(** ** Decoding *)

(** A restored event keeps its kind, with zeroed fields. *)
Definition strip (e : AuditEvent) : AuditEvent :=
  default e (event_from_disc (event_discriminant e)).

Lemma event_from_disc_strip e : event_from_disc (event_discriminant e) = Some (strip e).
Proof. by destruct e. Qed.

Lemma strip_discriminant e : event_discriminant (strip e) = event_discriminant e.
Proof. by destruct e. Qed.

Lemma hash_record_disc s e e' p : event_discriminant e = event_discriminant e' →
  hash_record s e p = hash_record s e' p.
Proof. intros E. unfold hash_record. by rewrite E. Qed.

Lemma chain_tip_strip es : ∀ s p, chain_tip s p (strip <$> es) = chain_tip s p es.
Proof.
  induction es as [|e es IH]; intros s p; simpl; [done|].
  by rewrite IH, (hash_record_disc s (strip e) e p (strip_discriminant e)).
Qed.

Lemma genesis_u64 : u64 AUDIT_GENESIS_HASH.
Proof. unfold AUDIT_GENESIS_HASH. mlia. Qed.

Lemma chain_tip_u64 es : ∀ s p, u64 p → u64 (chain_tip s p es).
Proof.
  induction es as [|e es IH]; intros s p Hp; simpl; [done|]. apply IH, hash_record_u64.
Qed.

Lemma chain_at es k e : es !! k = Some e →
  chain 0 AUDIT_GENESIS_HASH es !! k =
    Some (mkRec (Z.of_nat k) e (chain_tip 0 AUDIT_GENESIS_HASH (take k es))
            (hash_record (Z.of_nat k) e (chain_tip 0 AUDIT_GENESIS_HASH (take k es)))).
Proof.
  intros He. rewrite <- (take_drop_middle es k e He) at 1.
  pose proof (lookup_lt_Some _ _ _ He). rewrite chain_app.
  assert (length (take k es) = k) as Hk by (rewrite length_take; lia).
  rewrite lookup_app_r by (rewrite length_chain; lia).
  rewrite length_chain, Hk, Nat.sub_diag. done.
Qed.

Lemma decode_records_image es l n : ∀ k,
  (length es ≤ AUDIT_RING_CAP)%nat → image_of es l → (k + n = length es)%nat →
  decode_records l (ring_of (strip <$> take k es)) (seqZ (Z.of_nat k) (Z.of_nat n))
  = Some (ring_of (strip <$> es)).
Proof.
  induction n as [|n IH]; intros k Hcap Him Hk.
  - simpl. rewrite take_ge by lia. done.
  - rewrite seqZ_S. cbn [decode_records].
    destruct (lookup_lt_is_Some_2 es k) as [e He]; [lia|].
    pose proof (chain_at es k e He) as Hrec.
    destruct (im_records _ _ Him k _ Hrec) as (R1 & R2 & R3). rewrite R1, R2, R3.
    cbn [seq event prev_hash]. unfold AUDIT_RING_CAP in *.
    assert (length (take k es) = k) as Hlen by (rewrite length_take; lia).
    rewrite !from_to_le_u64
      by (try apply event_discriminant_u64; try apply chain_tip_u64, genesis_u64; mlia).
    rewrite event_from_disc_strip.
    rewrite append_ring_of by (rewrite length_fmap, Hlen; unfold AUDIT_RING_CAP; lia).
    cbn [seq prev_hash hash]. rewrite length_fmap, Hlen, chain_tip_strip, !Z.eqb_refl. simpl.
    replace (Z.of_nat k + 1) with (Z.of_nat (S k)) by lia.
    rewrite <- (IH (S k)) by (done || lia). f_equal.
    by rewrite (take_S_r es k e He), fmap_app.
Qed.

Lemma checksum_range l : 0 ≤ checksum l < W32.
Proof.
  unfold checksum. induction l as [|x l _] using rev_ind; [done|].
  rewrite foldl_app. simpl. apply Z.mod_pos_bound. done.
Qed.

Lemma decode_image es l : (length es ≤ AUDIT_RING_CAP)%nat → image_of es l →
  decode_ring l = Some (ring_of (strip <$> es)).
Proof.
  intros Hcap Him. pose proof (decode_records_image es l (length es) 0 Hcap Him eq_refl) as Hd.
  destruct Him. unfold decode_ring.
  rewrite (proj2 (Z.ltb_ge _ _)), im_magic0, im_version0, im_check0 by done.
  rewrite !bool_decide_true by done. cbn [negb orb].
  pose proof (checksum_range (take (Z.to_nat CHECK_OFF) l)) as Hck.
  rewrite (from_to_le 4), Z.eqb_refl by (change (256 ^ Z.of_nat 4) with W32; lia).
  rewrite im_count0, im_tip0.
  rewrite (from_to_le 2) by (change (256 ^ Z.of_nat 2) with 65536; im_lia).
  rewrite (proj2 (Z.ltb_ge _ _)) by lia. cbn [negb].
  change (Z.of_nat 0) with 0 in Hd. rewrite take_0 in Hd.
  rewrite <- ring_of_nil. cbn [fmap list_fmap] in Hd. rewrite Hd.
  cbn [tip_hash ring_of]. rewrite chain_tip_strip.
  rewrite from_to_le_u64 by apply chain_tip_u64, genesis_u64. rewrite Z.eqb_refl. cbn [negb].
  destruct (Z.eqb_spec (Z.of_nat (length es)) 0) as [E|E]; [|done].
  destruct es; [done|]. simpl in E. lia.
Qed.

Lemma decode_records_sound l idxs : ∀ ring r,
  appended ring → decode_records l ring idxs = Some r → appended r.
Proof.
  induction idxs as [|i idxs IH]; intros ring r Ha; simpl; [by intros [= <-]|].
  destruct (event_from_disc _) as [e|]; [|done].
  destruct (append ring e) as [ring' [got|]] eqn:E; [|done].
  destruct (_ || _); [done|]. destruct (negb _); [done|]. apply IH.
  by eapply appended_step.
Qed.

Lemma decode_ring_inv l r : decode_ring l = Some r →
  appended r ∧ IMAGE_BYTES ≤ blen l ∧
  from_le (slice CHECK_OFF 4 l) = checksum (take (Z.to_nat CHECK_OFF) l) ∧
  tip_hash r = from_le (slice 20 8 l).
Proof.
  unfold decode_ring. destruct ((_ || _) || _) eqn:E1; [done|].
  destruct (negb (from_le (slice CHECK_OFF 4 l) =? _)) eqn:E2; [done|].
  destruct (Z.of_nat AUDIT_RING_CAP <? _) eqn:E3; [done|].
  destruct (decode_records _ _ _) as [ring|] eqn:E4; [|done].
  destruct (negb (tip_hash ring =? _)) eqn:E5; [done|].
  destruct (_ && _); [done|]. intros [= <-].
  apply orb_false_iff in E1 as [[E1%Z.ltb_ge _]%orb_false_iff _].
  apply negb_false_iff, Z.eqb_eq in E2, E5.
  split_and!; try done. by eapply decode_records_sound; [constructor|].
Qed.

(** ** Corruption *)



Lemma checksum_sum l : checksum l = foldr Z.add 0 l mod W32.
Proof.
  unfold checksum. induction l as [|x l IH] using rev_ind; [done|].
  rewrite foldl_app. simpl. rewrite IH. rewrite Z.add_mod_idemp_l by done. f_equal.
  rewrite foldr_app. simpl. clear IH. induction l as [|y l IH]; simpl; lia.
Qed.

Lemma sum_insert l k b b' : l !! k = Some b →
  foldr Z.add 0 (<[k := b']> l) = foldr Z.add 0 l - b + b'.
Proof.
  revert k. induction l as [|x l IH]; intros [|k] Hk; simplify_eq/=; [lia|].
  rewrite IH by done. lia.
Qed.

Lemma checksum_insert_ne l k b b' : l !! k = Some b → is_byte b → is_byte b' → b ≠ b' →
  checksum (<[k := b']> l) ≠ checksum l.
Proof.
  intros Hk Hb Hb' Hne. rewrite !checksum_sum, (sum_insert l k b b') by done.
  unfold is_byte, W32 in *. generalize (foldr Z.add 0 l). intros s. dlia.
Qed.

(** ** Theorems *)

(** C13: the disk image round-trips. Encoding any ring built by appends into a
    large enough buffer never panics, succeeds, and decoding the result gives
    the ring of the same event kinds with zeroed payloads: same length, same
    sequence numbers, same hashes. *)
Theorem encode_decode_roundtrip es buf :
  (length es ≤ AUDIT_RING_CAP)%nat → IMAGE_BYTES ≤ blen buf →
  ∃ image, encode_ring (ring_of es) buf = Some (image, true) ∧
    decode_ring image = Some (ring_of (strip <$> es)) ∧
    tip_hash (ring_of (strip <$> es)) = tip_hash (ring_of es).
Proof.
  intros Hes Hbuf. destruct (encode_ring_image es buf Hes Hbuf) as (l & E & Him & _).
  exists l. split_and!; [done|by apply decode_image|]. apply chain_tip_strip.
Qed.

(** An image that [decode_ring] accepts, whatever its bytes, is a chain
    built by appends: it verifies and its tip is the tip stored in the image
    header. *)
Theorem decode_ring_sound image r : decode_ring image = Some r →
  verify_chain r = true ∧ (len r ≤ AUDIT_RING_CAP)%nat ∧
  tip_hash r = from_le (slice 20 8 image).
Proof.
  intros (Ha & _ & _ & Ht)%decode_ring_inv.
  apply appended_ring_of in Ha as (es & -> & Hle).
  split_and!; [apply ring_of_verifies|done|done].
Qed.

(** Changing any single byte of an accepted 8192-byte image makes
    [decode_ring] reject it. *)
Theorem single_byte_corruption_rejected image r k b b' :
  Forall is_byte image → decode_ring image = Some r →
  image !! k = Some b → is_byte b' → b' ≠ b → Z.of_nat k < IMAGE_BYTES →
  decode_ring (<[k := b']> image) = None.
Proof.
  intros Hbytes (_ & _ & Hck & _)%decode_ring_inv Hk Hb' Hne Hlt.
  destruct (decode_ring (<[k := b']> image)) as [r'|] eqn:E; [exfalso|done].
  apply decode_ring_inv in E as (_ & _ & Hck' & _).
  assert (is_byte b) as Hb by (by eapply Forall_lookup in Hbytes).
  destruct (decide (Z.of_nat k < CHECK_OFF)) as [Hlo|Hhi].
  - rewrite take_insert_lt in Hck' by lia. revert Hck'. unfold slice.
    rewrite drop_insert_lt by lia. fold (slice CHECK_OFF 4 image). rewrite Hck.
    intros Heq. eapply (checksum_insert_ne (take (Z.to_nat CHECK_OFF) image) k b b');
      [|done|done|done|by symmetry].
    by rewrite lookup_take_lt by lia.
  - rewrite take_insert_ge in Hck' by lia. rewrite <- Hck in Hck'.
    apply (slice_insert_ne CHECK_OFF 4 image k b b'); [done|done|im_lia|im_lia|].
    apply from_le_inj; [apply length_slice_insert| |by apply Forall_slice|done].
    apply Forall_slice, Forall_insert; done.
Qed.

(** [adopt_image] on a ring built by appends never panics and answers true
    exactly when the image decodes and both event lists fit in 256 slots. The
    ring is then the chain of the image's events followed by this boot's, from
    the same genesis; otherwise it is unchanged. *)
Theorem adopt_image_behaviour es image : (length es ≤ AUDIT_RING_CAP)%nat →
  match decode_ring image with
  | None => adopt_image (ring_of es) image = Some (ring_of es, false)
  | Some prior => ∃ ps, prior = ring_of ps ∧
      adopt_image (ring_of es) image =
        if decide (length ps + length es ≤ AUDIT_RING_CAP)%nat
        then Some (ring_of (ps ++ es), true) else Some (ring_of es, false)
  end.
Proof.
  intros Hes. unfold adopt_image. destruct (decode_ring image) as [prior|] eqn:E; [|done].
  apply decode_ring_inv in E as (Ha & _). apply appended_ring_of in Ha as (ps & -> & Hps).
  exists ps. split; [done|]. rewrite ring_of_verifies. cbn [negb orb len ring_of].
  destruct (decide _) as [Hle|Hgt].
  - rewrite (proj2 (Nat.ltb_ge _ _)), kept_events_ring_of by lia.
    by rewrite append_all_ring_of, ring_of_verifies by lia.
  - by rewrite (proj2 (Nat.ltb_lt _ _)) by lia.
Qed.

(** ** Staging and flushing *)

Fixpoint record_all (b : Boot) (es : list AuditEvent) : option Boot :=
  match es with
  | [] => Some b
  | e :: rest => match record_event b e with Some b' => record_all b' rest | None => None end
  end.

(** Sector [i] of the image on the spare disk. *)
Definition Disk := Z → list Z.

Definition MFI_STAT_OK : Z := 0.

(** The spare disk as the controller driver keeps it: register window, frames of its
    commands, and the first sector of the image where the size leaves room for one. *)
Record Spare := mkSpare { sp_bar : Z; sp_frame : Z; sp_data : Z; sp_base : option Z }.

Section Flush.

(** The schedule of one flush: the events audited before each controller
    command (16 writes, then 16 reads, then the acknowledgement at index 32);
    the answer to each command ([None] when it could not be issued, else its status
    and whether it timed out); and what a write leaves on the disk, whatever status it
    reports. *)
Variable evs : Z → list AuditEvent.
Variable io : Z → option (Z * bool).
Variable media : Z → list Z → Disk → Disk.

Fixpoint write_pass (b : Boot) (disk : Disk) (idxs : list Z) : option (Boot * Disk * bool) :=
  match idxs with
  | [] => Some (b, disk, true)
  | i :: rest =>
      match record_all b (evs i) with
      | None => None
      | Some b =>
          match staged_sector b i with
          | None => Some (b, disk, false)
          | Some (_, sector) =>
              match io i with
              | None => Some (b, disk, false)
              | Some (st, timed_out) =>
                  let disk := media i sector disk in
                  if timed_out || negb (st =? MFI_STAT_OK) then Some (b, disk, false)
                  else write_pass b disk rest
              end
          end
      end
  end.

(** A read that completes returns what the disk holds. *)
Fixpoint readback_pass (b : Boot) (disk : Disk) (idxs : list Z) : option (Boot * bool) :=
  match idxs with
  | [] => Some (b, true)
  | i :: rest =>
      match record_all b (evs (16 + i)) with
      | None => None
      | Some b =>
          match staged_sector b i with
          | None => Some (b, false)
          | Some (_, sector) =>
              match io (16 + i) with
              | None => Some (b, false)
              | Some (st, timed_out) =>
                  if timed_out || negb (st =? MFI_STAT_OK) then Some (b, false)
                  else
                    let back := disk i in
                    if negb (bool_decide (back = sector)) then Some (b, false)
                    else readback_pass b disk rest
              end
          end
      end
  end.

(** The flush; the third result is the time stamp of the last attempt and the last
    says whether it went through to the acknowledgement. *)
Definition flush_audit_chain (no_guest : bool) (sp : Spare) (last now gap : Z) (b : Boot) (disk : Disk)
    : option (Boot * Disk * Z * bool) :=
  if negb no_guest || negb (staged_on b) then Some (b, disk, last, false)
  else if bool_decide (sp_base sp = None) then Some (b, disk, last, false)
  else if (sp_bar sp =? 0) || (sp_frame sp =? 0) || (sp_data sp =? 0) then Some (b, disk, last, false)
  else
    match staged_sector b 0 with
    | None => Some (b, disk, last, false)
    | Some (gen, _) =>
        if negb (flush_interval_elapsed last now gap) then Some (b, disk, last, false)
        else
          match write_pass b disk (seqZ 0 16) with
          | None => None
          | Some (b1, disk1, false) => Some (b1, disk1, now, false)
          | Some (b1, disk1, true) =>
              match readback_pass b1 disk1 (seqZ 0 16) with
              | None => None
              | Some (b2, false) => Some (b2, disk1, now, false)
              | Some (b2, true) =>
                  match record_all b2 (evs 32) with
                  | None => None
                  | Some b3 => Some (ack_staged b3 gen, disk1, now, true)
                  end
              end
          end
    end.

End Flush.

(** The boot ring is a chain of appends and the staging cell has its size. *)
Definition boot_wf (b : Boot) : Prop :=
  (∃ es, boot_ring b = ring_of es ∧ (length es ≤ AUDIT_RING_CAP)%nat) ∧
  blen (staged b) = IMAGE_BYTES ∧ 0 ≤ staged_gen b < W32.

Lemma append_fst_ring_of es e : (length es ≤ AUDIT_RING_CAP)%nat →
  ∃ es', (append (ring_of es) e).1 = ring_of es' ∧ (length es' ≤ AUDIT_RING_CAP)%nat.
Proof.
  intros Hle. destruct (decide (length es = AUDIT_RING_CAP)).
  - rewrite append_ring_of_full by done. by exists es.
  - rewrite append_ring_of by lia. exists (es ++ [e]). rewrite length_app. simpl.
    split; [done|lia].
Qed.

Lemma record_event_spec b e : boot_wf b →
  ∃ b' es', record_event b e = Some b' ∧ boot_wf b' ∧
    boot_ring b' = (append (boot_ring b) e).1 ∧ boot_ring b' = ring_of es' ∧
    image_of es' (staged b') ∧ (length es' ≤ AUDIT_RING_CAP)%nat ∧
    staged_on b' = true ∧ staged_gen b' = (staged_gen b + 1) mod W32.
Proof.
  intros ((es & Hr & Hes) & Hl & Hg). unfold record_event, stage_boot_ring. simpl.
  rewrite Hr. destruct (append_fst_ring_of es e Hes) as (es' & -> & Hes').
  destruct (encode_ring_image es' (staged b) Hes' ltac:(lia)) as (l & -> & Him & Hl').
  eexists _, es'. split_and!; try done. split_and!; simpl;
    [by exists es'|by rewrite Hl'|apply Z.mod_pos_bound; done..].
Qed.

Lemma record_all_spec es : ∀ b, boot_wf b →
  ∃ b', record_all b es = Some b' ∧ boot_wf b' ∧
    staged_gen b' = (staged_gen b + Z.of_nat (length es)) mod W32 ∧
    (staged_on b = true → staged_on b' = true) ∧ (es = [] → b' = b).
Proof.
  induction es as [|e es IH]; intros b Hwf; simpl.
  - exists b. destruct Hwf as (? & ? & Hg). rewrite Z.add_0_r, Z.mod_small by done. done.
  - destruct (record_event_spec b e Hwf) as (b1 & _ & -> & Hwf1 & _ & _ & _ & _ & Hon & Hg1).
    destruct (IH b1 Hwf1) as (b' & -> & Hwf' & Hg' & Hon' & _).
    exists b'. split_and!; try done; [|auto]. rewrite Hg', Hg1, Z.add_mod_idemp_l by done.
    f_equal. lia.
Qed.

Lemma staged_sector_on b i : staged_on b = true → 0 ≤ i < 16 →
  staged_sector b i = Some (staged_gen b, slice (i * 512) 512 (staged b)).
Proof.
  intros Hon Hi. unfold staged_sector. rewrite Hon. simpl.
  change (IMAGE_BYTES / 512) with 16. by rewrite (proj2 (Z.leb_gt _ _)) by lia.
Qed.

(** Events audited over the indices of a schedule. *)
Definition event_count (evs : Z → list AuditEvent) (idxs : list Z) : Z :=
  foldr Z.add 0 ((λ i, Z.of_nat (length (evs i))) <$> idxs).

Lemma event_count_cons evs i idxs :
  event_count evs (i :: idxs) = Z.of_nat (length (evs i)) + event_count evs idxs.
Proof. done. Qed.

Lemma event_count_nonneg evs idxs : 0 ≤ event_count evs idxs.
Proof.
  induction idxs as [|i idxs IH]; [done|]. rewrite event_count_cons. lia.
Qed.

(** Events audited in front of the commands, and nothing else, move the staging cell. *)
Record moved (b b' : Boot) (n : Z) : Prop := {
  mv_wf : boot_wf b';
  mv_on : staged_on b' = true;
  mv_gen : staged_gen b' = (staged_gen b + n) mod W32;
  mv_same : n = 0 → b' = b;
}.

Lemma moved_refl b : boot_wf b → staged_on b = true → moved b b 0.
Proof. intros W O. split; try done. destruct W as (_ & _ & ?). by rewrite Z.add_0_r, Z.mod_small. Qed.

Lemma moved_trans b1 b2 b3 n1 n2 : 0 ≤ n1 → 0 ≤ n2 → moved b1 b2 n1 → moved b2 b3 n2 → moved b1 b3 (n1 + n2).
Proof.
  intros P1 P2 [W1 O1 G1 S1] [W2 O2 G2 S2]. split; try done.
  - rewrite G2, G1, Z.add_mod_idemp_l by done. f_equal. lia.
  - intros E. rewrite S2, S1 by lia. done.
Qed.

Lemma record_all_moved b es : boot_wf b → staged_on b = true →
  ∃ b', record_all b es = Some b' ∧ moved b b' (Z.of_nat (length es)).
Proof.
  intros W O. destruct (record_all_spec es b W) as (b' & E & W' & G & O' & S). exists b'. split; [done|].
  split; [done|auto|done|]. intros Z0. apply S, nil_length_inv. lia.
Qed.

(** However a pass ends, what it did to the staging cell is the events in front of it. *)
Lemma write_pass_spec evs io media idxs : ∀ b disk,
  boot_wf b → staged_on b = true → Forall (λ i, 0 ≤ i < 16) idxs →
  ∃ b' disk' ok n, write_pass evs io media b disk idxs = Some (b', disk', ok) ∧ 0 ≤ n ∧ moved b b' n ∧
    (ok = true → n = event_count evs idxs).
Proof.
  induction idxs as [|i idxs IH]; intros b disk W O A.
  - exists b, disk, true, 0. split_and!; try done. by apply moved_refl.
  - apply Forall_cons in A as [Hi A]. cbn [write_pass].
    destruct (record_all_moved b (evs i) W O) as (b1 & -> & M1).
    rewrite (staged_sector_on b1 i) by (done || apply M1).
    destruct (io i) as [[st to]|]; [|eexists b1, _, false, _; split_and!; [done| |exact M1|done]; lia].
    cbv zeta. destruct (to || negb (st =? MFI_STAT_OK)); [eexists b1, _, false, _; split_and!; [done| |exact M1|done]; lia|].
    destruct (IH b1 (media i (slice (i * 512) 512 (staged b1)) disk)) as (b2 & d2 & ok & n & -> & P & M2 & C); [apply M1|apply M1|done|].
    eexists b2, d2, ok, _. split_and!; [done| |eapply moved_trans; [| |exact M1|exact M2]; lia|]; [lia|].
    intros K. rewrite event_count_cons, (C K). done.
Qed.

Lemma readback_pass_spec evs io idxs : ∀ b disk,
  boot_wf b → staged_on b = true → Forall (λ i, 0 ≤ i < 16) idxs →
  ∃ b' ok n, readback_pass evs io b disk idxs = Some (b', ok) ∧ 0 ≤ n ∧ moved b b' n ∧
    (ok = true → n = event_count evs ((λ i, 16 + i) <$> idxs) ∧
       (n = 0 → ∀ i, i ∈ idxs → disk i = slice (i * 512) 512 (staged b))).
Proof.
  induction idxs as [|i idxs IH]; intros b disk W O A.
  - exists b, true, 0. split_and!; try done; [by apply moved_refl|]. intros _. split; [done|].
    intros _ i Hi. by apply elem_of_nil in Hi.
  - apply Forall_cons in A as [Hi A]. cbn [readback_pass].
    destruct (record_all_moved b (evs (16 + i)) W O) as (b1 & -> & M1).
    rewrite (staged_sector_on b1 i) by (done || apply M1).
    destruct (io (16 + i)) as [[st to]|]; [|eexists b1, false, _; split_and!; [done| |exact M1|done]; lia].
    destruct (to || negb (st =? MFI_STAT_OK)); [eexists b1, false, _; split_and!; [done| |exact M1|done]; lia|].
    cbv zeta. destruct (bool_decide _) eqn:D; cbn [negb]; [|eexists b1, false, _; split_and!; [done| |exact M1|done]; lia].
    apply bool_decide_eq_true in D.
    destruct (IH b1 disk) as (b2 & ok & n & -> & P & M2 & C); [apply M1|apply M1|done|].
    eexists b2, ok, _. split_and!; [done| |eapply moved_trans; [| |exact M1|exact M2]; lia|]; [lia|].
    intros K. destruct (C K) as [Cn Cd]. rewrite fmap_cons, event_count_cons. split; [lia|].
    intros Z0. rewrite (mv_same _ _ _ M1) in * by lia. intros j [->|Hj]%elem_of_cons; [done|]. apply Cd; [lia|done].
Qed.

(** All the events audited while a flush runs. *)
Definition flush_events (evs : Z → list AuditEvent) : Z :=
  event_count evs (seqZ 0 16) + event_count evs ((λ i, 16 + i) <$> seqZ 0 16)
  + Z.of_nat (length (evs 32)).

(** Every audited event reaches the staging cell. [record_event] never
    panics, appends to the boot ring, marks the cell dirty, advances its
    generation, and leaves in it an image that decodes to the boot ring's
    chain. *)
Theorem record_event_stages b e : boot_wf b →
  ∃ b' es', record_event b e = Some b' ∧ boot_wf b' ∧
    boot_ring b' = (append (boot_ring b) e).1 ∧ boot_ring b' = ring_of es' ∧
    decode_ring (staged b') = Some (ring_of (strip <$> es')) ∧
    staged_on b' = true ∧ staged_gen b' = (staged_gen b + 1) mod W32.
Proof.
  intros Hwf. destruct (record_event_spec b e Hwf) as
    (b' & es' & E & Hwf' & Hr & Hr' & Him & Hle & Hon & Hg).
  exists b', es'. split_and!; try done. by apply decode_image.
Qed.

(** C8: a flush never loses an audit event. For every interleaving of fewer than 2^32
    audited events with the 16 writes, the 16 read-backs and the acknowledgement, every
    answer of the controller and whatever its writes leave on the disk, a flush ends; the
    dirty flag is cleared exactly when it went through to the acknowledgement and no event
    was audited meanwhile, and then the 16 sectors on the disk are the staged image. *)
Theorem flush_acks_only_what_is_on_disk evs io media no_guest sp last now gap b disk :
  boot_wf b → staged_on b = true → flush_events evs < W32 →
  ∃ b' disk' last' acked, flush_audit_chain evs io media no_guest sp last now gap b disk = Some (b', disk', last', acked) ∧
  (staged_on b' = false ↔ acked = true ∧ flush_events evs = 0) ∧
  (staged_on b' = false → staged b' = staged b ∧
     ∀ i, 0 ≤ i < 16 → disk' i = slice (i * 512) 512 (staged b')).
Proof.
  intros Hwf Hon Hlt. unfold flush_audit_chain. rewrite Hon, staged_sector_on by (done || lia).
  assert (∀ b1 (d1 : Disk) (l1 : Z), staged_on b1 = true → ∃ b' disk' last' acked, Some (b1, d1, l1, false) = Some (b', disk', last', acked) ∧
    (staged_on b' = false ↔ acked = true ∧ flush_events evs = 0) ∧ (staged_on b' = false → staged b' = staged b ∧
     ∀ i, 0 ≤ i < 16 → disk' i = slice (i * 512) 512 (staged b'))) as Stop.
  { intros b1 d1 l1 O. exists b1, d1, l1, false. rewrite O. naive_solver. }
  repeat (case_match; [by apply Stop|]).
  assert (Forall (λ i, 0 ≤ i < 16) (seqZ 0 16)) as Hall.
  { apply Forall_forall. intros i ?%elem_of_seqZ. lia. }
  destruct (write_pass_spec evs io media (seqZ 0 16) b disk Hwf Hon Hall) as (b1 & d1 & ok1 & n1 & -> & P1 & M1 & C1).
  destruct ok1; [|apply Stop, M1]. specialize (C1 eq_refl).
  destruct (readback_pass_spec evs io (seqZ 0 16) b1 d1 (mv_wf _ _ _ M1) (mv_on _ _ _ M1) Hall) as (b2 & ok2 & n2 & -> & P2 & M2 & C2).
  destruct ok2; [|apply Stop, M2]. destruct (C2 eq_refl) as [Cn Cd].
  destruct (record_all_moved b2 (evs 32) (mv_wf _ _ _ M2) (mv_on _ _ _ M2)) as (b3 & -> & M3).
  assert (moved b b3 (flush_events evs)) as M.
  { unfold flush_events. rewrite <- C1, <- Cn. eapply moved_trans; [lia|lia| |exact M3]. by eapply moved_trans. }
  assert (0 ≤ flush_events evs) as Pf by (unfold flush_events; lia).
  eexists _, _, _, _. split; [reflexivity|]. pose proof (mv_gen _ _ _ M) as G. destruct Hwf as (_ & _ & Hg).
  unfold ack_staged. destruct (Z.eqb_spec (staged_gen b3) (staged_gen b)) as [E|E]; cbn [staged_on staged].
  - assert (flush_events evs = 0) as Z0 by (rewrite E in G; unfold W32 in *; dlia).
    split; [done|]. intros _. rewrite (mv_same _ _ _ M Z0). split; [done|]. intros i Hi.
    unfold flush_events in Z0. rewrite Cd by (try apply elem_of_seqZ; lia). rewrite (mv_same _ _ _ M1) by lia. done.
  - rewrite (mv_on _ _ _ M). split; [|done]. split; [done|]. intros [_ Z0]. destruct E. rewrite G, Z0, Z.add_0_r. by apply Z.mod_small.
Qed.

(** ** Witnesses *)

Definition demo_boot : Boot :=
  default boot_init (record_event boot_init (BootStarted M5)).

Lemma boot_init_wf : boot_wf boot_init.
Proof.
  split_and!; [|reflexivity|unfold W32; simpl; lia..].
  exists []. split; [by rewrite ring_of_nil|simpl; lia].
Qed.

Lemma demo_boot_wf : boot_wf demo_boot ∧ staged_on demo_boot = true.
Proof.
  unfold demo_boot. destruct (record_event_spec boot_init (BootStarted M5) boot_init_wf)
    as (b' & es' & -> & Hwf & _ & _ & _ & _ & Hon & _). done.
Qed.

Definition demo_image : list Z := staged demo_boot.

Lemma encode_decode_roundtrip_witness :
  ∃ image, encode_ring (ring_of demo) (staged boot_init) = Some (image, true) ∧
    decode_ring image = Some (ring_of (strip <$> demo)) ∧
    tip_hash (ring_of (strip <$> demo)) = tip_hash (ring_of demo).
Proof.
  apply (encode_decode_roundtrip demo (staged boot_init));
    [apply Nat.leb_le; reflexivity|apply Z.leb_le; vm_compute; reflexivity].
Defined.

Lemma demo_image_decodes : decode_ring demo_image = Some (ring_of [BootStarted M0]).
Proof. vm_compute. reflexivity. Qed.

Lemma decode_ring_sound_witness : verify_chain (ring_of [BootStarted M0]) = true.
Proof. exact (proj1 (decode_ring_sound demo_image _ demo_image_decodes)). Defined.

Lemma demo_image_bytes : Forall is_byte demo_image.
Proof.
  apply Forall_forall. intros b Hb.
  assert (forallb (λ b, (0 <=? b) && (b <? 256)) demo_image = true) as Hall
    by (vm_compute; reflexivity).
  rewrite forallb_forall in Hall. apply list_elem_of_In in Hb. specialize (Hall b Hb).
  unfold is_byte. lia.
Qed.

Lemma single_byte_corruption_rejected_witness :
  decode_ring (<[40%nat := 2]> demo_image) = None.
Proof.
  apply (single_byte_corruption_rejected demo_image (ring_of [BootStarted M0]) 40 1 2);
    [apply demo_image_bytes|apply demo_image_decodes|vm_compute; reflexivity
    |unfold is_byte; lia|lia|im_lia].
Defined.

Lemma adopt_image_behaviour_witness :
  adopt_image (ring_of [VmCreated 1]) demo_image
  = Some (ring_of [BootStarted M0; VmCreated 1], true).
Proof.
  pose proof (adopt_image_behaviour [VmCreated 1] demo_image) as H.
  rewrite demo_image_decodes in H. destruct H as (ps & Hps & ->);
    [apply Nat.leb_le; reflexivity|].
  assert (ps = [BootStarted M0]) as ->.
  { pose proof (kept_events_ring_of ps) as E. rewrite <- Hps, kept_events_ring_of in E.
    by injection E. }
  rewrite decide_True; [reflexivity|apply Nat.leb_le; reflexivity].
Defined.

Lemma record_event_stages_witness :
  ∃ b' es', record_event boot_init (VmCreated 1) = Some b' ∧
    decode_ring (staged b') = Some (ring_of (strip <$> es')) ∧ staged_on b' = true.
Proof.
  destruct (record_event_stages boot_init (VmCreated 1) boot_init_wf)
    as (b' & es' & E & _ & _ & _ & D & On & _). by exists b', es'.
Defined.

Definition demo_spare : Spare := mkSpare 0xf000 0x1000 0x2000 (Some 64).
Definition good_media (i : Z) (sector : list Z) (d : Disk) : Disk := λ j, if j =? i then sector else d j.
Notation demo_flush media :=
  (flush_audit_chain (λ _, []) (λ _, Some (0, false)) media true demo_spare 0 5 2 demo_boot (λ _, [])).
Definition acked_of (r : option (Boot * Disk * Z * bool)) : option bool := snd <$> r.

Lemma good_flush_acked : acked_of (demo_flush good_media) = Some true.
Proof. vm_compute. reflexivity. Qed.

Lemma lost_flush_refused : acked_of (demo_flush (λ _ _ d, d)) = Some false.
Proof. vm_compute. reflexivity. Qed.

(** A disk that stores what it is given, and one that reports success and stores nothing. *)
Lemma flush_acks_witness :
  (∃ b' disk' last', demo_flush good_media = Some (b', disk', last', true) ∧ staged_on b' = false) ∧
  (∃ b' disk' last', demo_flush (λ _ _ d, d) = Some (b', disk', last', false) ∧ staged_on b' = true).
Proof.
  pose proof good_flush_acked as Q1. pose proof lost_flush_refused as Q2. destruct demo_boot_wf as [W O]. split.
  - destruct (flush_acks_only_what_is_on_disk (λ _, []) (λ _, Some (0, false)) good_media true demo_spare 0 5 2 demo_boot (λ _, []) W O eq_refl)
      as (b' & d' & l' & ok & E & H & _).
    rewrite E in Q1. injection Q1 as ->. exists b', d', l'. split; [exact E|]. apply H. split; reflexivity.
  - destruct (flush_acks_only_what_is_on_disk (λ _, []) (λ _, Some (0, false)) (λ _ _ d, d) true demo_spare 0 5 2 demo_boot (λ _, []) W O eq_refl)
      as (b' & d' & l' & ok & E & H & _).
    rewrite E in Q2. injection Q2 as ->. exists b', d', l'. split; [exact E|].
    destruct (staged_on b'); [reflexivity|]. destruct (proj1 H eq_refl) as [[=] _].
Defined.

End Persist.
