(* ===== verification/FrameAllocator.v ===== *)
(** * Physical frame allocator ([memory/frame_allocator.rs])

    The bitmap-backed pool of 4 KiB host frames: bit [i] of the bitmap tracks
    frame [base_frame + i]. The bitmap qwords, which the source reaches through
    [bitmap_phys], are exclusively owned by the allocator and are the field
    [bitmap] here. The abstract state is the ghost model of
    [memory/frame_allocator_spec.rs]: a pool and its allocated subset. *)

From S2P Require Import Prelude EptModel.

Module Falloc.

(** ** Data *)

Inductive AllocError := Oom | InvalidFrame | DoubleFree | Bootstrap.

#[global] Instance AllocError_eq_dec : EqDecision AllocError.
Proof. solve_decision. Defined.

(** [PhysFrame] is a newtype over its frame number. *)
Definition from_phys (phys : Z) : Z := Z.shiftr phys 12.
Definition to_phys (frame : Z) : Z := wrap64 (Z.shiftl frame 12).

Record FrameAllocator := mkFA {
  base_frame : Z;
  capacity : Z;
  bitmap_phys : Z;
  bitmap_words : Z;
  allocated_count : Z;
  scan_hint : Z;
  bitmap : list Z;
}.

(** ** Operations *)

Definition bitmap_pages_needed (cap : Z) : Z :=
  if cap =? 0 then 0
  else let bytes := (cap ⊞ 7) / 8 in (bytes ⊞ 4095) / 4096.

Definition new (base_phys cap bitmap_phys : Z) : result FrameAllocator AllocError :=
  if (cap =? 0) || negb (Z.land base_phys 4095 =? 0) then Err Bootstrap
  else
    let words := (cap ⊞ 63) / 64 in
    if words =? 0 then Err Bootstrap
    else Ok {| base_frame := Z.shiftr base_phys 12; capacity := cap;
               bitmap_phys := bitmap_phys; bitmap_words := words;
               allocated_count := 0; scan_hint := 0;
               bitmap := replicate (Z.to_nat words) 0 |}.

Definition base_phys (a : FrameAllocator) : Z := to_phys (base_frame a).

Definition bit_ptr (index : Z) : Z * Z := (index / 64, index mod 64).

Definition read_word (a : FrameAllocator) (word : Z) : Z :=
  default 0 (bitmap a !! Z.to_nat word).

Definition write_word (a : FrameAllocator) (word v : Z) : FrameAllocator :=
  mkFA (base_frame a) (capacity a) (bitmap_phys a) (bitmap_words a)
    (allocated_count a) (scan_hint a) (<[Z.to_nat word := v]> (bitmap a)).

Definition test_bit (a : FrameAllocator) (index : Z) : bool :=
  if capacity a <=? index then false
  else let '(word, bit) := bit_ptr index in
       Z.land (Z.shiftr (read_word a word) bit) 1 =? 1.

Definition set_bit (a : FrameAllocator) (index : Z) (on : bool) : FrameAllocator :=
  let '(word, bit) := bit_ptr index in
  let v := read_word a word in
  write_word a word
    (if on then Z.lor v (Z.shiftl 1 bit) else Z.land v (bnot64 (Z.shiftl 1 bit))).

Definition set_meta (a : FrameAllocator) (count hint : Z) : FrameAllocator :=
  mkFA (base_frame a) (capacity a) (bitmap_phys a) (bitmap_words a) count hint (bitmap a).

Definition contains (a : FrameAllocator) (frame : Z) : bool :=
  (base_frame a <=? frame) && (frame <? base_frame a ⊞ capacity a).

Definition div_ceil (x y : Z) : Z := x / y + (if 0 <? x mod y then 1 else 0).

Definition owns_phys_range (a : FrameAllocator) (phys len : Z) : bool :=
  if len =? 0 then false
  else
    let start := phys / 4096 in
    let fin := div_ceil (sat_add64 phys len) 4096 in
    existsb (contains a) (seqZ start (fin - start)).

Definition index_of (a : FrameAllocator) (frame : Z) : option Z :=
  if negb (contains a frame) then None else Some (frame ⊟ base_frame a).

Definition is_allocated (a : FrameAllocator) (frame : Z) : bool :=
  match index_of a frame with Some i => test_bit a i | None => false end.

(** The [for off in 0..capacity] scan of [allocate_frame]. *)
Fixpoint alloc_scan (a : FrameAllocator) (start : Z) (offs : list Z)
    : FrameAllocator * option Z :=
  match offs with
  | [] => (a, None)
  | off :: rest =>
      let i := (start ⊞ off) mod capacity a in
      if negb (test_bit a i) then
        (set_meta (set_bit a i true) (allocated_count a ⊞ 1) ((i ⊞ 1) mod capacity a),
         Some (base_frame a ⊞ i))
      else alloc_scan a start rest
  end.

Definition allocate_frame (a : FrameAllocator) : FrameAllocator * option Z :=
  if capacity a <=? allocated_count a then (a, None)
  else alloc_scan a (scan_hint a) (seqZ 0 (capacity a)).

Definition run_is_free (a : FrameAllocator) (start n : Z) : bool :=
  forallb (λ j, negb (test_bit a (start ⊞ j))) (seqZ 0 n).

Definition set_run (a : FrameAllocator) (start n : Z) : FrameAllocator :=
  foldl (λ a j, set_bit a (start ⊞ j) true) a (seqZ 0 n).

(** The [while start <= max_start] loop; [starts] lists the values [start]
    takes. *)
Fixpoint contig_scan (a : FrameAllocator) (n align_pages : Z) (starts : list Z)
    : FrameAllocator * option Z :=
  match starts with
  | [] => (a, None)
  | start :: rest =>
      let abs := base_frame a ⊞ start in
      if negb (Z.land abs (align_pages ⊟ 1) =? 0) then contig_scan a n align_pages rest
      else if negb (run_is_free a start n) then contig_scan a n align_pages rest
      else (set_meta (set_run a start n) (allocated_count a ⊞ n) ((start ⊞ n) mod capacity a),
            Some (base_frame a ⊞ start))
  end.

Definition allocate_contiguous_aligned (a : FrameAllocator) (n align_pages : Z)
    : FrameAllocator * option Z :=
  if (n =? 0) || (align_pages =? 0)
     || negb (Z.land align_pages (align_pages ⊟ 1) =? 0) then (a, None)
  else if (n =? 1) && (align_pages =? 1) then allocate_frame a
  else if (capacity a <? n) || (capacity a <? allocated_count a ⊞ n) then (a, None)
  else
    let max_start := capacity a ⊟ n in
    contig_scan a n align_pages (seqZ 0 (max_start + 1)).

Definition allocate_contiguous (a : FrameAllocator) (n : Z) : FrameAllocator * option Z :=
  allocate_contiguous_aligned a n 1.

Definition free_frame (a : FrameAllocator) (frame : Z)
    : FrameAllocator * result unit AllocError :=
  match index_of a frame with
  | None => (a, Err InvalidFrame)
  | Some i =>
      if negb (test_bit a i) then (a, Err DoubleFree)
      else (set_meta (set_bit a i false) (allocated_count a ⊟ 1) i, Ok ())
  end.

(** Alloc / free / double-free / reuse self-test. The Boolean is the latch
    [ALLOC_SELFTEST_OK]. *)
Definition run_allocator_selftest (a : FrameAllocator)
    : FrameAllocator * result unit AllocError * bool :=
  let before := allocated_count a in
  match allocate_frame a with
  | (a1, None) => (a1, Err Oom, false)
  | (a1, Some f1) =>
  match allocate_frame a1 with
  | (a2, None) => (a2, Err Oom, false)
  | (a2, Some f2) =>
  if (f1 =? f2) || negb (is_allocated a2 f1) || negb (is_allocated a2 f2)
  then (a2, Err Bootstrap, false) else
  match free_frame a2 f1 with
  | (a3, Err e) => (a3, Err e, false)
  | (a3, Ok _) =>
  match free_frame a3 f1 with
  | (a4, Ok _) => (a4, Err DoubleFree, false)
  | (a4, Err DoubleFree) =>
    match allocate_frame a4 with
    | (a5, None) => (a5, Err Oom, false)
    | (a5, Some f3) =>
    if negb (f3 =? f1) then (a5, Err Bootstrap, false) else
    match free_frame a5 f2 with
    | (a6, Err e) => (a6, Err e, false)
    | (a6, Ok _) =>
    match free_frame a6 f3 with
    | (a7, Err e) => (a7, Err e, false)
    | (a7, Ok _) =>
      if negb (allocated_count a7 =? before) then (a7, Err Bootstrap, false)
      else (a7, Ok (), true)
    end end end
  | (a4, Err e) => (a4, Err e, false)
  end end end end.

(** ** Ghost model: the pool and its allocated subset *)

Definition pool (a : FrameAllocator) : gset Z :=
  list_to_set (seqZ (base_frame a) (capacity a)).

Definition live_indices (a : FrameAllocator) : list Z :=
  filter (λ i, test_bit a i = true) (seqZ 0 (capacity a)).

Definition allocated (a : FrameAllocator) : gset Z :=
  list_to_set ((λ i, base_frame a + i) <$> live_indices a).

(** The geometry [new] fixes and no operation changes. *)
Definition same_geometry (a a' : FrameAllocator) : Prop :=
  base_frame a' = base_frame a ∧ capacity a' = capacity a ∧
  bitmap_phys a' = bitmap_phys a ∧ bitmap_words a' = bitmap_words a.

(** A physical range below 2^64 holds at most 2^52 frames. *)
Definition MAX_FRAMES : Z := 4503599627370496.

Record wf (a : FrameAllocator) : Prop := {
  wf_cap : 0 < capacity a;
  wf_base : 0 ≤ base_frame a;
  wf_span : base_frame a + capacity a ≤ MAX_FRAMES;
  wf_words : bitmap_words a = (capacity a + 63) / 64;
  wf_len : Z.of_nat (length (bitmap a)) = bitmap_words a;
  wf_bits : Forall u64 (bitmap a);
  wf_count : allocated_count a = Z.of_nat (size (allocated a));
  wf_hint : 0 ≤ scan_hint a < capacity a;
}.

(** The part of [wf] that the bitmap writes alone keep. *)
Record shape (a : FrameAllocator) : Prop := {
  sh_cap : 0 < capacity a;
  sh_base : 0 ≤ base_frame a;
  sh_span : base_frame a + capacity a ≤ MAX_FRAMES;
  sh_words : bitmap_words a = (capacity a + 63) / 64;
  sh_len : Z.of_nat (length (bitmap a)) = bitmap_words a;
  sh_bits : Forall u64 (bitmap a);
}.

Lemma wf_shape a : wf a → shape a.
Proof. intros []; by constructor. Qed.

Create HintDb falloc.
#[local] Hint Resolve wf_shape : falloc.

Ltac fa_span := match goal with
  | H : shape ?a |- _ =>
      pose proof (sh_cap a H); pose proof (sh_base a H); pose proof (sh_span a H)
  end; unfold MAX_FRAMES in *.

(** *** Bits *)

Lemma test_bit_testbit a i : i < capacity a →
  test_bit a i = Z.testbit (read_word a (i / 64)) (i mod 64).
Proof.
  intros Hi. unfold test_bit, bit_ptr. destruct (capacity a <=? i) eqn:E; [lia|].
  rewrite Z.testbit_eqb by (apply Z.mod_pos_bound; lia).
  rewrite (Z.land_ones _ 1), Z.shiftr_div_pow2 by (try apply Z.mod_pos_bound; lia).
  done.
Qed.

Lemma test_bit_range a i : test_bit a i = true → i < capacity a.
Proof. unfold test_bit. destruct (capacity a <=? i) eqn:E; [done|lia]. Qed.

Lemma word_index_lt a i : shape a → 0 ≤ i < capacity a →
  (Z.to_nat (i / 64) < length (bitmap a))%nat.
Proof. intros [] Hi. dlia. Qed.

Lemma read_write_word a w w' v : 0 ≤ w → 0 ≤ w' → (Z.to_nat w < length (bitmap a))%nat →
  read_word (write_word a w v) w' = if w =? w' then v else read_word a w'.
Proof.
  intros Hw Hw' Hlt. unfold read_word, write_word; simpl.
  destruct (Z.eqb_spec w w') as [->|Hne].
  - by rewrite list_lookup_insert_eq.
  - rewrite list_lookup_insert_ne by lia. done.
Qed.

Lemma read_word_u64 a w : shape a → u64 (read_word a w).
Proof.
  intros Hs. unfold read_word. destruct (bitmap a !! Z.to_nat w) eqn:E; simpl; [|mlia].
  pose proof (sh_bits a Hs) as Hb. rewrite Forall_lookup in Hb. eauto.
Qed.

Lemma set_bit_word_testbit v b b' (on : bool) : 0 ≤ b < 64 → 0 ≤ b' < 64 → u64 v →
  Z.testbit (if on then Z.lor v (Z.shiftl 1 b) else Z.land v (bnot64 (Z.shiftl 1 b))) b'
  = if b =? b' then on else Z.testbit v b'.
Proof.
  intros Hb Hb' Hv. rewrite Z.shiftl_1_l. destruct on.
  - rewrite Z.lor_spec, Z.pow2_bits_eqb by lia.
    destruct (b =? b'); [by rewrite orb_true_r|by rewrite orb_false_r].
  - rewrite land_bnot64, Z.ldiff_spec, Z.pow2_bits_eqb by (done || lia).
    destruct (b =? b'); simpl; [by rewrite andb_false_r|by rewrite andb_true_r].
Qed.

Lemma set_bit_word_u64 v b (on : bool) : 0 ≤ b < 64 → u64 v →
  u64 (if on then Z.lor v (Z.shiftl 1 b) else Z.land v (bnot64 (Z.shiftl 1 b))).
Proof.
  intros Hb Hv. rewrite Z.shiftl_1_l. destruct on; auto with machine.
Qed.

Lemma set_bit_shape a i on : shape a → 0 ≤ i < capacity a → shape (set_bit a i on).
Proof.
  intros Hs Hi. pose proof (word_index_lt a i Hs Hi).
  assert (u64 (read_word a (i / 64))) by by apply read_word_u64.
  destruct Hs. constructor; simpl; try done.
  - by rewrite length_insert.
  - apply Forall_insert; [done|]. apply set_bit_word_u64; [dlia|done].
Qed.

Lemma test_set_bit a i j on : shape a → 0 ≤ i < capacity a → 0 ≤ j < capacity a →
  test_bit (set_bit a i on) j = if i =? j then on else test_bit a j.
Proof.
  intros Hs Hi Hj. rewrite !test_bit_testbit by (simpl; lia).
  unfold set_bit, bit_ptr. rewrite read_write_word by (apply word_index_lt || dlia; done).
  destruct (Z.eqb_spec (i / 64) (j / 64)) as [Ew|Ew].
  - rewrite set_bit_word_testbit by (apply read_word_u64 || dlia; done). rewrite Ew.
    destruct (Z.eqb_spec (i mod 64) (j mod 64)), (Z.eqb_spec i j); try done; exfalso; dlia.
  - destruct (Z.eqb_spec i j); [subst; done|done].
Qed.

(** *** The allocated set *)

Lemma elem_of_pool a f : f ∈ pool a ↔ base_frame a ≤ f < base_frame a + capacity a.
Proof. unfold pool. rewrite elem_of_list_to_set, elem_of_seqZ. done. Qed.

Lemma elem_of_allocated a f :
  f ∈ allocated a ↔ base_frame a ≤ f ∧ test_bit a (f - base_frame a) = true.
Proof.
  unfold allocated, live_indices. rewrite elem_of_list_to_set, list_elem_of_fmap. split.
  - intros (i & -> & Hi). apply list_elem_of_filter in Hi as [Ht Hi%elem_of_seqZ].
    split; [lia|]. by replace (base_frame a + i - base_frame a) with i by lia.
  - intros [Hf Ht]. exists (f - base_frame a). split; [lia|].
    apply list_elem_of_filter. split; [done|]. apply elem_of_seqZ.
    apply test_bit_range in Ht. lia.
Qed.

Lemma allocated_pool a : allocated a ⊆ pool a.
Proof.
  intros f [Hf Ht]%elem_of_allocated. apply elem_of_pool.
  apply test_bit_range in Ht. lia.
Qed.

Lemma size_pool a : shape a → Z.of_nat (size (pool a)) = capacity a.
Proof.
  intros Hs. fa_span. unfold pool.
  rewrite size_list_to_set by apply NoDup_seqZ. rewrite length_seqZ. lia.
Qed.

Lemma contains_spec a f : shape a → contains a f = true ↔ f ∈ pool a.
Proof.
  intros Hs. fa_span. rewrite elem_of_pool. unfold contains.
  rewrite add64_small by mlia. lia.
Qed.

Lemma index_of_Some a f i : shape a →
  index_of a f = Some i ↔ f ∈ pool a ∧ i = f - base_frame a.
Proof.
  intros Hs. unfold index_of. pose proof (contains_spec a f Hs) as Hc.
  destruct (contains a f); simpl.
  - assert (f ∈ pool a) as Hp by by apply Hc. pose proof Hp as Hr.
    apply elem_of_pool in Hr. fa_span. rewrite sub64_small by mlia. naive_solver.
  - split; [done|]. intros [Hp _]. by apply Hc in Hp.
Qed.

Lemma index_of_None a f : shape a → index_of a f = None ↔ f ∉ pool a.
Proof.
  intros Hs. pose proof (index_of_Some a f (f - base_frame a) Hs).
  destruct (index_of a f) eqn:E.
  - apply index_of_Some in E as [? _]; [|done]. naive_solver.
  - naive_solver.
Qed.

Lemma is_allocated_spec a f : shape a → is_allocated a f = true ↔ f ∈ allocated a.
Proof.
  intros Hs. unfold is_allocated. rewrite elem_of_allocated.
  destruct (index_of a f) eqn:E.
  - apply index_of_Some in E as [Hp ->]; [|done]. apply elem_of_pool in Hp. naive_solver lia.
  - apply index_of_None in E; [|done]. split; [done|]. intros [Hf Ht].
    destruct E. apply elem_of_pool. apply test_bit_range in Ht. lia.
Qed.

Lemma allocated_set_bit a i on : shape a → 0 ≤ i < capacity a →
  allocated (set_bit a i on) =
    if on then {[base_frame a + i]} ∪ allocated a else allocated a ∖ {[base_frame a + i]}.
Proof.
  intros Hs Hi. apply set_eq. intros f.
  assert (f ∈ allocated (set_bit a i on) ↔ base_frame a ≤ f ∧ f - base_frame a < capacity a ∧
     (if i =? f - base_frame a then on else test_bit a (f - base_frame a)) = true) as ->.
  { rewrite elem_of_allocated. split.
    - intros [Hf Ht]. simpl in *. pose proof (test_bit_range _ _ Ht). simpl in *.
      rewrite test_set_bit in Ht by (done || lia). done.
    - intros (Hf & Hlt & Ht). split; [done|]. simpl. by rewrite test_set_bit by (done || lia). }
  assert (f ∈ allocated a → f - base_frame a < capacity a) as Hr.
  { intros [_ Ht]%elem_of_allocated. by apply test_bit_range in Ht. }
  destruct on.
  - rewrite elem_of_union, elem_of_singleton. rewrite elem_of_allocated in *.
    destruct (Z.eqb_spec i (f - base_frame a)); naive_solver lia.
  - rewrite elem_of_difference, elem_of_singleton. rewrite elem_of_allocated in *.
    destruct (Z.eqb_spec i (f - base_frame a)); naive_solver lia.
Qed.

Lemma allocated_meta a c h : allocated (set_meta a c h) = allocated a.
Proof. done. Qed.

Lemma index_free a i : i < capacity a → 0 ≤ i → test_bit a i = false →
  base_frame a + i ∉ allocated a.
Proof.
  intros ?? Ht [_ H]%elem_of_allocated.
  replace (base_frame a + i - base_frame a) with i in H by lia. congruence.
Qed.

Lemma wf_of_shape a : shape a → allocated_count a = Z.of_nat (size (allocated a)) →
  0 ≤ scan_hint a < capacity a → wf a.
Proof. intros []; by constructor. Qed.

Lemma size_allocated_le a : shape a → Z.of_nat (size (allocated a)) ≤ capacity a.
Proof.
  intros Hs. rewrite <- (size_pool a Hs). apply Nat2Z.inj_le.
  apply subseteq_size, allocated_pool.
Qed.

Lemma size_remove (X : gset Z) x : x ∈ X → size X = S (size (X ∖ {[x]})).
Proof.
  intros Hx. rewrite (union_difference_L {[x]} X) at 1 by set_solver.
  rewrite size_union, size_singleton by set_solver. done.
Qed.

(** Marking a free index and clearing a used one keep [wf]. *)
Lemma mark_wf a i h : wf a → 0 ≤ i < capacity a → test_bit a i = false →
  0 ≤ h < capacity a →
  wf (set_meta (set_bit a i true) (allocated_count a ⊞ 1) h) ∧
  allocated (set_meta (set_bit a i true) (allocated_count a ⊞ 1) h)
    = {[base_frame a + i]} ∪ allocated a ∧ base_frame a + i ∉ allocated a.
Proof.
  intros Hwf Hi Ht Hh. pose proof (wf_shape a Hwf) as Hs.
  pose proof (index_free a i (proj2 Hi) (proj1 Hi) Ht) as Hni.
  pose proof (size_allocated_le a Hs) as Hle. fa_span. pose proof (wf_count a Hwf) as Hc.
  rewrite allocated_meta, allocated_set_bit by done. split_and!; [|done..].
  apply wf_of_shape.
  - destruct (set_bit_shape a i true Hs Hi). by constructor.
  - rewrite allocated_meta, allocated_set_bit by done. simpl.
    rewrite size_union, size_singleton by set_solver.
    rewrite add64_small by mlia. lia.
  - done.
Qed.

Lemma clear_wf a i : wf a → 0 ≤ i < capacity a → test_bit a i = true →
  wf (set_meta (set_bit a i false) (allocated_count a ⊟ 1) i) ∧
  allocated (set_meta (set_bit a i false) (allocated_count a ⊟ 1) i)
    = allocated a ∖ {[base_frame a + i]} ∧ base_frame a + i ∈ allocated a.
Proof.
  intros Hwf Hi Ht. pose proof (wf_shape a Hwf) as Hs.
  assert (base_frame a + i ∈ allocated a) as Hin.
  { apply elem_of_allocated. split; [lia|].
    by replace (base_frame a + i - base_frame a) with i by lia. }
  pose proof (size_allocated_le a Hs) as Hle. fa_span. pose proof (wf_count a Hwf) as Hc.
  rewrite allocated_meta, allocated_set_bit by done. split_and!; [|done..].
  assert (size (allocated a) = S (size (allocated a ∖ {[base_frame a + i]}))) as Hsz.
  { by apply size_remove. }
  apply wf_of_shape.
  - destruct (set_bit_shape a i false Hs Hi). by constructor.
  - rewrite allocated_meta, allocated_set_bit by done. simpl.
    rewrite sub64_small by mlia. lia.
  - done.
Qed.

(** *** [allocate_frame] *)

Lemma alloc_scan_spec a start offs a' r :
  shape a → 0 ≤ start < capacity a → Forall (λ off, 0 ≤ off < capacity a) offs →
  alloc_scan a start offs = (a', r) →
  match r with
  | Some f => ∃ i, 0 ≤ i < capacity a ∧ test_bit a i = false ∧ f = base_frame a + i ∧
      a' = set_meta (set_bit a i true) (allocated_count a ⊞ 1) ((i ⊞ 1) mod capacity a)
  | None => a' = a ∧ Forall (λ off, test_bit a ((start + off) mod capacity a) = true) offs
  end.
Proof.
  intros Hs Hst Hall. induction offs as [|off offs IH]; simpl.
  - intros [= <- <-]. done.
  - apply Forall_cons in Hall as [Hoff Hall]. fa_span.
    rewrite !(add64_small start off) by mlia.
    set (i := (start + off) mod capacity a).
    assert (0 ≤ i < capacity a) by (apply Z.mod_pos_bound; lia).
    destruct (test_bit a i) eqn:Et; simpl.
    + intros H'. specialize (IH Hall H'). destruct r; [done|].
      destruct IH as [-> IH]. split; [done|]. by constructor.
    + intros [= <- <-]. exists i. rewrite add64_small by mlia. done.
Qed.

(** Every index is visited once the scan wraps around. *)
Lemma residue_visited cap start i : 0 ≤ start < cap → 0 ≤ i < cap →
  ∃ off, 0 ≤ off < cap ∧ (start + off) mod cap = i.
Proof.
  intros Hst Hi. exists ((i - start) mod cap).
  split; [apply Z.mod_pos_bound; lia|].
  rewrite Z.add_mod_idemp_r by lia. replace (start + (i - start)) with i by lia.
  by apply Z.mod_small.
Qed.

Lemma allocated_all a : (∀ i, 0 ≤ i < capacity a → test_bit a i = true) →
  allocated a = pool a.
Proof.
  intros Hall. apply set_eq. intros f. rewrite elem_of_pool, elem_of_allocated. split.
  - intros [Hf Ht]. apply test_bit_range in Ht. lia.
  - intros Hf. split; [lia|]. apply Hall. lia.
Qed.

Lemma full_iff a : wf a → capacity a ≤ allocated_count a ↔ allocated a = pool a.
Proof.
  intros Hwf. pose proof (wf_shape a Hwf) as Hs. rewrite (wf_count a Hwf).
  pose proof (size_pool a Hs). split.
  - intros Hle. apply set_subseteq_size_eq; [apply allocated_pool|]. lia.
  - intros ->. lia.
Qed.

Lemma same_geometry_refl a : same_geometry a a.
Proof. done. Qed.

#[local] Hint Resolve same_geometry_refl : falloc.

(** What one frame allocation does, as used by its clients. *)
Lemma allocate_frame_spec a a' r : wf a → allocate_frame a = (a', r) →
  wf a' ∧ same_geometry a a' ∧
  match r with
  | Some f => f ∈ pool a ∧ f ∉ allocated a ∧ allocated a' = {[f]} ∪ allocated a
  | None => a' = a ∧ allocated a = pool a
  end.
Proof.
  intros Hwf. pose proof (wf_shape a Hwf) as Hs. unfold allocate_frame.
  destruct (capacity a <=? allocated_count a) eqn:Ec.
  { intros [= <- <-]. split_and!; auto with falloc. apply full_iff; [done|lia]. }
  intros Hscan. apply alloc_scan_spec in Hscan; [|done|apply wf_hint, Hwf|].
  2:{ apply Forall_forall. intros off ?%elem_of_seqZ. lia. }
  destruct r as [f|].
  - destruct Hscan as (i & Hi & Ht & -> & ->). fa_span.
    destruct (mark_wf a i ((i ⊞ 1) mod capacity a) Hwf Hi Ht) as (? & ? & ?).
    { apply Z.mod_pos_bound. lia. }
    split_and!; try done. apply elem_of_pool. lia.
  - destruct Hscan as [-> Hall]. exfalso.
    assert (allocated a = pool a) as Hfull; [|apply full_iff in Hfull; [lia|done]].
    apply allocated_all. intros i Hi.
    destruct (residue_visited (capacity a) (scan_hint a) i) as (off & Hoff & <-);
      [apply wf_hint, Hwf|done|].
    rewrite Forall_forall in Hall. apply Hall, elem_of_seqZ. lia.
Qed.

(** The scan starts at the hint, so a free hinted frame is the one returned. *)
Lemma allocate_frame_hint a : wf a → test_bit a (scan_hint a) = false →
  (allocate_frame a).2 = Some (base_frame a + scan_hint a).
Proof.
  intros Hwf Ht. pose proof (wf_shape a Hwf) as Hs. fa_span.
  pose proof (wf_hint a Hwf) as Hh. unfold allocate_frame.
  destruct (capacity a <=? allocated_count a) eqn:Ec.
  - exfalso. assert (allocated a = pool a) as Hfull by (apply full_iff; [done|lia]).
    assert (base_frame a + scan_hint a ∈ allocated a) as Hin.
    { rewrite Hfull. apply elem_of_pool. lia. }
    by apply (index_free a (scan_hint a) (proj2 Hh) (proj1 Hh) Ht).
  - replace (capacity a) with (Z.of_nat (S (Z.to_nat (capacity a - 1)))) at 1 by lia.
    rewrite seqZ_S. simpl. rewrite (add64_small (scan_hint a) 0) by mlia.
    rewrite Z.add_0_r, Z.mod_small by done. rewrite Ht. simpl.
    by rewrite add64_small by mlia.
Qed.

(** *** [free_frame] *)

Lemma free_frame_spec a f a' r : wf a → free_frame a f = (a', r) →
  wf a' ∧ same_geometry a a' ∧
  match r with
  | Ok _ => f ∈ allocated a ∧ allocated a' = allocated a ∖ {[f]} ∧
            scan_hint a' = f - base_frame a ∧ allocated_count a' = allocated_count a - 1
  | Err DoubleFree => f ∈ pool a ∧ f ∉ allocated a ∧ a' = a
  | Err InvalidFrame => f ∉ pool a ∧ a' = a
  | Err _ => False
  end.
Proof.
  intros Hwf. pose proof (wf_shape a Hwf) as Hs. unfold free_frame.
  destruct (index_of a f) as [i|] eqn:Ei.
  - apply index_of_Some in Ei as [Hp ->]; [|done]. pose proof Hp as Hr.
    apply elem_of_pool in Hr.
    destruct (test_bit a (f - base_frame a)) eqn:Et; simpl; intros [= <- <-].
    + destruct (clear_wf a (f - base_frame a) Hwf) as (H1 & H2 & H3); [lia|done|].
      replace (base_frame a + (f - base_frame a)) with f in * by lia.
      pose proof (wf_count _ H1) as Hc1. pose proof (wf_count a Hwf) as Hc.
      rewrite H2 in Hc1. rewrite (size_remove _ _ H3) in Hc.
      split_and!; try done. lia.
    + split_and!; auto with falloc. intros [_ Ht]%elem_of_allocated. congruence.
  - apply index_of_None in Ei; [|done]. intros [= <- <-]. auto with falloc.
Qed.

(** *** [allocate_contiguous_aligned] *)

Lemma set_run_offs_spec offs : ∀ a start,
  shape a → Forall (λ j, 0 ≤ start + j < capacity a ∧ 0 ≤ j) offs → 0 ≤ start →
  let a' := foldl (λ a j, set_bit a (start ⊞ j) true) a offs in
  shape a' ∧ same_geometry a a' ∧
  allocated_count a' = allocated_count a ∧
  allocated a' = list_to_set ((λ j, base_frame a + start + j) <$> offs) ∪ allocated a.
Proof.
  induction offs as [|j offs IH]; intros a start Hs Hall Hst; simpl.
  - split_and!; auto with falloc. set_solver.
  - apply Forall_cons in Hall as [Hj Hall]. fa_span.
    rewrite (add64_small start j) by mlia.
    assert (0 ≤ start + j < capacity a) as Hr by lia.
    destruct (IH (set_bit a (start + j) true) start) as (IH1 & IH2 & IH3 & IH4);
      [by apply set_bit_shape|done|done|].
    split_and!; [done|..]; try done. rewrite IH4, allocated_set_bit by done. simpl.
    rewrite Z.add_assoc. set_solver.
Qed.

Lemma set_run_spec a start n : shape a → 0 ≤ start → 0 ≤ n → start + n ≤ capacity a →
  shape (set_run a start n) ∧ same_geometry a (set_run a start n) ∧
  allocated_count (set_run a start n) = allocated_count a ∧
  allocated (set_run a start n) = list_to_set (seqZ (base_frame a + start) n) ∪ allocated a.
Proof.
  intros Hs Hst Hn Hle.
  destruct (set_run_offs_spec (seqZ 0 n) a start Hs) as (H1 & H2 & H3 & H4); [|done|].
  { apply Forall_forall. intros j ?%elem_of_seqZ. lia. }
  split_and!; [done..|]. unfold set_run. rewrite H4.
  pose proof (fmap_add_seqZ (base_frame a + start) 0 n) as E.
  rewrite Z.add_0_r in E. by rewrite <- E.
Qed.

Lemma run_is_free_spec a start n : shape a → 0 ≤ start → 0 ≤ n → start + n ≤ capacity a →
  run_is_free a start n = true ↔
  ∀ j, 0 ≤ j < n → base_frame a + start + j ∉ allocated a.
Proof.
  intros Hs Hst Hn Hle. fa_span. unfold run_is_free. rewrite forallb_forall.
  setoid_rewrite <- list_elem_of_In. setoid_rewrite elem_of_seqZ.
  setoid_rewrite elem_of_allocated. split; intros Hr j Hj.
  - intros [_ Ht]. specialize (Hr j). rewrite add64_small in Hr by mlia.
    replace (base_frame a + start + j - base_frame a) with (start + j) in Ht by lia.
    rewrite Ht in Hr. discriminate Hr. lia.
  - rewrite add64_small by mlia. destruct (test_bit a (start + j)) eqn:Et; [|done].
    destruct (Hr j); [lia|]. split; [lia|].
    by replace (base_frame a + start + j - base_frame a) with (start + j) by lia.
Qed.

Lemma run_not_free a start n : shape a → 0 ≤ start → 0 ≤ n → start + n ≤ capacity a →
  run_is_free a start n = false →
  ∃ j, 0 ≤ j < n ∧ base_frame a + start + j ∈ allocated a.
Proof.
  intros Hs Hst Hn Hle Hf.
  destruct (decide (Exists (λ j, base_frame a + start + j ∈ allocated a) (seqZ 0 n)))
    as [(j & Hj%elem_of_seqZ & ?)%Exists_exists|Hno].
  - exists j. split; [lia|done].
  - exfalso. assert (run_is_free a start n = true); [|congruence].
    apply run_is_free_spec; [done..|]. intros j Hj Hin. apply Hno, Exists_exists.
    exists j. split; [apply elem_of_seqZ; lia|done].
Qed.

(** Marking a free run keeps [wf]. *)
Lemma mark_run_wf a start n : wf a → 0 ≤ start → 0 < n → start + n ≤ capacity a →
  run_is_free a start n = true →
  let a' := set_meta (set_run a start n) (allocated_count a ⊞ n) ((start ⊞ n) mod capacity a) in
  wf a' ∧ same_geometry a a' ∧
  allocated a' = list_to_set (seqZ (base_frame a + start) n) ∪ allocated a.
Proof.
  intros Hwf Hst Hn Hle Hfree a'. pose proof (wf_shape a Hwf) as Hs.
  destruct (set_run_spec a start n Hs) as (H1 & H2 & H3 & H4); [lia..|].
  rewrite run_is_free_spec in Hfree by (done || lia).
  pose proof (size_allocated_le _ H1) as Hsz. rewrite H4 in Hsz.
  assert (list_to_set (seqZ (base_frame a + start) n) ## allocated a) as Hdisj.
  { intros f Hf%elem_of_list_to_set%elem_of_seqZ Hin.
    destruct (Hfree (f - (base_frame a + start))); [lia|].
    by replace (base_frame a + start + (f - (base_frame a + start))) with f by lia. }
  rewrite size_union, size_list_to_set, length_seqZ in Hsz by (done || apply NoDup_seqZ).
  fa_span. pose proof (wf_count a Hwf) as Hc. destruct H2 as (G1 & G2 & G3 & G4).
  rewrite G2 in Hsz.
  split_and!; try done. apply wf_of_shape.
  - destruct H1. by constructor.
  - subst a'. rewrite allocated_meta, H4. simpl.
    rewrite size_union, size_list_to_set, length_seqZ by (done || apply NoDup_seqZ).
    rewrite add64_small by mlia. lia.
  - simpl. rewrite G2. apply Z.mod_pos_bound. lia.
Qed.

Lemma contig_scan_spec a n align starts a' r :
  wf a → 0 < n → 0 < align < W64 → Z.land align (align - 1) = 0 →
  Forall (λ s, 0 ≤ s ∧ s + n ≤ capacity a) starts →
  contig_scan a n align starts = (a', r) →
  match r with
  | Some f => ∃ s, s ∈ starts ∧ f = base_frame a + s ∧ f mod align = 0 ∧
      run_is_free a s n = true ∧
      a' = set_meta (set_run a s n) (allocated_count a ⊞ n) ((s ⊞ n) mod capacity a)
  | None => a' = a ∧ Forall (λ s, (base_frame a + s) mod align = 0 →
                                  run_is_free a s n = false) starts
  end.
Proof.
  intros Hwf Hn Hal Hp2 Hall. pose proof (wf_shape a Hwf) as Hs. fa_span.
  induction starts as [|s starts IH]; simpl.
  - intros [= <- <-]. done.
  - apply Forall_cons in Hall as [Hst Hall]. specialize (IH Hall).
    rewrite !(add64_small (base_frame a) s), (sub64_small align 1) by mlia.
    rewrite land_pow2_mod by (done || lia).
    destruct ((base_frame a + s) mod align =? 0) eqn:Ea; simpl;
      [destruct (run_is_free a s n) eqn:Ef; simpl|].
    + intros [= <- <-]. exists s. split_and!; [set_solver|done|lia|done|done].
    + intros H'. specialize (IH H'). destruct r as [f|].
      * destruct IH as (s' & ? & IH). exists s'. split; [set_solver|done].
      * destruct IH as [-> IH]. split; [done|]. constructor; done.
    + intros H'. specialize (IH H'). destruct r as [f|].
      * destruct IH as (s' & ? & IH). exists s'. split; [set_solver|done].
      * destruct IH as [-> IH]. split; [done|]. constructor; [lia|done].
Qed.

(** A free run cannot fit when fewer than [n] frames are free. *)
Lemma no_run_when_short a start n : shape a → 0 ≤ n →
  base_frame a ≤ start → start + n ≤ base_frame a + capacity a →
  capacity a < Z.of_nat (size (allocated a)) + n →
  ∃ j, 0 ≤ j < n ∧ start + j ∈ allocated a.
Proof.
  intros Hs Hn Hlo Hhi Hshort.
  destruct (decide (list_to_set (seqZ start n) ## allocated a)) as [Hd|Hd].
  - exfalso. assert (list_to_set (seqZ start n) ∪ allocated a ⊆ pool a) as Hsub.
    { apply union_subseteq. split; [|apply allocated_pool].
      intros f Hf%elem_of_list_to_set%elem_of_seqZ. apply elem_of_pool. lia. }
    apply subseteq_size in Hsub. pose proof (size_pool a Hs).
    rewrite size_union, size_list_to_set, length_seqZ in Hsub by (done || apply NoDup_seqZ).
    lia.
  - destruct (decide (list_to_set (seqZ start n) ∩ allocated a = ∅)) as [He|He];
      [set_solver|]. apply set_choose_L in He as [f Hf]. apply elem_of_intersection in Hf.
    destruct Hf as [Hf%elem_of_list_to_set%elem_of_seqZ Hin]. exists (f - start).
    split; [lia|]. by replace (start + (f - start)) with f by lia.
Qed.

(** *** The refinement to the ghost pool of [ept_model] *)

Definition abs (a : FrameAllocator) : Ghost.GhostFramePool :=
  Ghost.mkPool (base_frame a) (capacity a) (allocated a).

Lemma abs_contains a f : Ghost.pool_contains (abs a) f = true ↔ f ∈ pool a.
Proof. rewrite elem_of_pool. unfold Ghost.pool_contains. simpl. lia. Qed.

Lemma abs_wf a : shape a → Ghost.pool_well_formed (abs a).
Proof.
  intros Hs. split; [apply sh_cap, Hs|]. intros f Hf. apply abs_contains. by apply allocated_pool.
Qed.

Lemma abs_alloc_enabled a f : shape a →
  Ghost.alloc_enabled (abs a) f ↔ f ∈ pool a ∧ f ∉ allocated a.
Proof.
  intros Hs. unfold Ghost.alloc_enabled. rewrite abs_contains.
  pose proof (abs_wf a Hs). simpl. naive_solver.
Qed.

Lemma abs_free_enabled a f : shape a → Ghost.free_enabled (abs a) f ↔ f ∈ allocated a.
Proof. intros Hs. unfold Ghost.free_enabled. pose proof (abs_wf a Hs). naive_solver. Qed.

Lemma abs_eq a a' (X : gset Z) : same_geometry a a' → allocated a' = X →
  abs a' = Ghost.mkPool (base_frame a) (capacity a) X.
Proof. intros (G1 & G2 & _) <-. unfold abs. by rewrite G1, G2. Qed.

Lemma replicate_words_zero n w : default 0 (replicate n 0 !! w) = 0.
Proof.
  destruct (replicate n 0 !! w) eqn:E; [|done]. by apply lookup_replicate in E as [-> _].
Qed.

Lemma new_spec bp cap bm a : u64 bp → 0 ≤ cap → bp + cap * 4096 ≤ W64 →
  new bp cap bm = Ok a →
  wf a ∧ allocated a = ∅ ∧ 0 < cap ∧ bp mod 4096 = 0 ∧
  base_frame a = bp / 4096 ∧ capacity a = cap.
Proof.
  intros Hu Hc Hr. unfold new. rewrite land_page.
  destruct ((cap =? 0) || negb (bp mod 4096 =? 0)) eqn:E; [done|].
  rewrite add64_small by mlia.
  destruct ((cap + 63) / 64 =? 0) eqn:Ew; [done|]. intros [= <-].
  apply orb_false_iff in E as [E1 E2%negb_false_iff].
  rewrite Z.shiftr_div_pow2 by lia. change (2 ^ 12) with 4096.
  set (a := mkFA _ _ _ _ _ _ _).
  assert (allocated a = ∅) as He.
  { apply set_eq. intros f. rewrite elem_of_allocated. split; [|set_solver].
    intros [_ Ht]. exfalso. pose proof (test_bit_range _ _ Ht).
    rewrite test_bit_testbit in Ht by done. unfold read_word in Ht. simpl in Ht.
    by rewrite replicate_words_zero, Z.testbit_0_l in Ht. }
  split_and!; [|done|lia|lia|done..]. apply wf_of_shape.
  - unfold MAX_FRAMES. constructor; simpl; try done; [lia|dlia|unfold MAX_FRAMES; dlia|..].
    + rewrite length_replicate. dlia.
    + apply Forall_replicate. mlia.
  - by rewrite He.
  - simpl. lia.
Qed.

(** *** Operation traces *)

(** One call into the allocator by its clients. *)
Inductive step : FrameAllocator → FrameAllocator → Prop :=
| step_alloc a a' r : allocate_frame a = (a', r) → step a a'
| step_contig a a' n align r : u64 n → u64 align →
    allocate_contiguous_aligned a n align = (a', r) → step a a'
| step_free a a' f r : free_frame a f = (a', r) → step a a'.

Inductive reachable : FrameAllocator → Prop :=
| reach_new bp cap bm a : u64 bp → 0 ≤ cap → bp + cap * 4096 ≤ W64 →
    new bp cap bm = Ok a → reachable a
| reach_step a a' : reachable a → step a a' → reachable a'.

(** [allocate_contiguous_aligned] on every branch. *)
Lemma allocate_contiguous_aligned_spec a n align a' r :
  wf a → u64 n → u64 align → allocate_contiguous_aligned a n align = (a', r) →
  wf a' ∧ same_geometry a a' ∧
  match r with
  | Some f => 0 < n ∧ f mod align = 0 ∧ base_frame a ≤ f ∧
      f + n ≤ base_frame a + capacity a ∧
      (∀ j, 0 ≤ j < n → f + j ∉ allocated a) ∧
      allocated a' = list_to_set (seqZ f n) ∪ allocated a
  | None => a' = a ∧ (n = 0 ∨ align = 0 ∨ Z.land align (align - 1) ≠ 0 ∨
      ∀ f, base_frame a ≤ f → f + n ≤ base_frame a + capacity a → f mod align = 0 →
        ∃ j, 0 ≤ j < n ∧ f + j ∈ allocated a)
  end.
Proof.
  intros Hwf Hn Hal. pose proof (wf_shape a Hwf) as Hs. fa_span.
  unfold allocate_contiguous_aligned.
  destruct (n =? 0) eqn:En; [intros [= <- <-]; split_and!; auto with falloc; left; lia|].
  destruct (align =? 0) eqn:Ea;
    [intros [= <- <-]; split_and!; auto with falloc; right; left; lia|].
  rewrite sub64_small by mlia. simpl.
  destruct (Z.land align (align - 1) =? 0) eqn:Ep; simpl;
    [|intros [= <- <-]; split_and!; auto with falloc; right; right; left; lia].
  destruct ((n =? 1) && (align =? 1)) eqn:E1.
  { apply andb_true_iff in E1 as [->%Z.eqb_eq ->%Z.eqb_eq]. intros Hr.
    apply allocate_frame_spec in Hr as (A1 & A2 & A3); [|done]. split_and!; [done..|].
    destruct r as [f|].
    - destruct A3 as (Hp & Hni & ->). apply elem_of_pool in Hp.
      rewrite Z.mod_1_r. split_and!; try (done || lia).
      + intros j Hj. by replace (f + j) with f by lia.
      + change 1 with (Z.of_nat 1). rewrite seqZ_S. simpl. set_solver.
    - destruct A3 as [-> Hfull]. split; [done|]. do 3 right. intros f Hlo Hhi _.
      exists 0. split; [lia|]. rewrite Hfull, Z.add_0_r. apply elem_of_pool. lia. }
  rewrite (wf_count a Hwf). pose proof (size_allocated_le a Hs) as Hsz.
  destruct (capacity a <? n) eqn:Ec.
  { simpl. intros [= <- <-]. split_and!; auto with falloc. do 3 right. lia. }
  rewrite add64_small by mlia. simpl.
  destruct (capacity a <? Z.of_nat (size (allocated a)) + n) eqn:Es.
  { intros [= <- <-]. split_and!; auto with falloc. do 3 right. intros f Hlo Hhi _.
    apply no_run_when_short; (done || lia). }
  rewrite sub64_small by mlia. intros Hscan.
  apply contig_scan_spec in Hscan; [|done|mlia|mlia|lia|].
  2:{ apply Forall_forall. intros s ?%elem_of_seqZ. lia. }
  destruct r as [f|].
  - destruct Hscan as (s & Hin%elem_of_seqZ & -> & Hmod & Hfree & ->).
    destruct (mark_run_wf a s n Hwf) as (M1 & M2 & M3); [lia|mlia|lia|done|].
    rewrite run_is_free_spec in Hfree by (done || mlia).
    split_and!; try (done || mlia).
  - destruct Hscan as [-> Hall]. split_and!; auto with falloc. do 3 right.
    intros f Hlo Hhi Hmod. rewrite Forall_forall in Hall.
    specialize (Hall (f - base_frame a)). rewrite elem_of_seqZ in Hall.
    replace (base_frame a + (f - base_frame a)) with f in Hall by lia.
    specialize (Hall ltac:(lia) Hmod).
    apply run_not_free in Hall as (j & Hj & Hin); [|done|lia|mlia|lia].
    exists j. split; [done|].
    by replace (f + j) with (base_frame a + (f - base_frame a) + j) by lia.
Qed.

Lemma step_wf a a' : wf a → step a a' → wf a' ∧ same_geometry a a'.
Proof.
  intros Hwf Hst. inversion Hst as [? ? r E|? ? n al r Hn Hal E|? ? f r E]; subst.
  - apply allocate_frame_spec in E as (? & ? & _); done.
  - apply allocate_contiguous_aligned_spec in E as (? & ? & _); done.
  - apply free_frame_spec in E as (? & ? & _); done.
Qed.

Lemma reachable_inv a : reachable a → wf a.
Proof.
  induction 1 as [bp cap bm a Hu Hc Hr Hn|a a' _ IH Hs].
  - by destruct (new_spec _ _ _ _ Hu Hc Hr Hn).
  - by destruct (step_wf _ _ IH Hs).
Qed.

(** An allocation is available as soon as one frame of the pool is free. *)
Lemma allocate_frame_total a : wf a → allocated a ≠ pool a →
  ∃ a' f, allocate_frame a = (a', Some f).
Proof.
  intros Hwf Hne. destruct (allocate_frame a) as [a' [f|]] eqn:E; [eauto|].
  by apply allocate_frame_spec in E as (_ & _ & _ & ?).
Qed.

Lemma same_geometry_pool a a' : same_geometry a a' → pool a' = pool a.
Proof. intros (G1 & G2 & _). unfold pool. by rewrite G1, G2. Qed.

Lemma free_frame_Ok a f : wf a → f ∈ allocated a → ∃ a', free_frame a f = (a', Ok ()).
Proof.
  intros Hwf Hf. destruct (free_frame a f) as [a' [[]|e]] eqn:E; [eauto|].
  apply free_frame_spec in E as (_ & _ & E); [|done].
  pose proof (allocated_pool a f Hf). destruct e; naive_solver.
Qed.

Lemma free_frame_double a f : wf a → f ∈ pool a → f ∉ allocated a →
  free_frame a f = (a, Err DoubleFree).
Proof.
  intros Hwf Hp Hf. destruct (free_frame a f) as [a' [[]|e]] eqn:E;
    apply free_frame_spec in E as (_ & _ & E); try done; [naive_solver|].
  destruct e; naive_solver.
Qed.

(** A frame just freed is the hint, hence the next frame returned. *)
Lemma realloc_after_free a f a' : wf a → free_frame a f = (a', Ok ()) →
  ∃ a'', allocate_frame a' = (a'', Some f).
Proof.
  intros Hwf E. apply free_frame_spec in E as (Hwf' & (G1 & G2 & _) & Hin & Hal & Hh & _); [|done].
  apply elem_of_allocated in Hin as [Hlo Ht].
  assert (test_bit a' (scan_hint a') = false) as Hfree.
  { destruct (test_bit a' (scan_hint a')) eqn:Et; [|done]. exfalso.
    assert (f ∈ allocated a') as Hc; [|rewrite Hal in Hc; set_solver].
    apply elem_of_allocated. rewrite G1, <- Hh. split; [lia|done]. }
  pose proof (allocate_frame_hint a' Hwf' Hfree) as Hr.
  destruct (allocate_frame a') as [a'' r]. simpl in Hr. exists a''. rewrite Hr.
  do 2 f_equal. rewrite G1, Hh. lia.
Qed.

(** ** Theorems *)

(** C5: [allocate_frame] refines the ghost pool. It returns [None] exactly when
    every frame of the pool is allocated, changing nothing; otherwise it
    returns a frame for which the ghost allocation is enabled (inside the pool,
    not allocated) and the new abstract state is [ghost_allocate] of the old
    one. The invariant (bitmap, count and hint agree) is kept. *)
Theorem allocate_frame_refines a : wf a →
  let '(a', r) := allocate_frame a in
  wf a' ∧ same_geometry a a' ∧
  match r with
  | Some f => Ghost.alloc_enabled (abs a) f ∧ abs a' = Ghost.ghost_allocate (abs a) f
  | None => a' = a ∧ allocated a = pool a
  end.
Proof.
  intros Hwf. destruct (allocate_frame a) as [a' r] eqn:E.
  apply allocate_frame_spec in E as (Hwf' & Hg & H); [|done].
  split_and!; [done..|]. destruct r as [f|]; [|done].
  destruct H as (Hp & Hni & Hal). split; [by apply abs_alloc_enabled; auto with falloc|].
  by apply abs_eq.
Qed.

(** C6: [free_frame] refines the ghost pool on every branch: it succeeds exactly
    on the frames for which the ghost free is enabled and then removes that
    frame; a frame outside the pool is [InvalidFrame], a frame of the pool that
    is not allocated is [DoubleFree], and both leave the allocator as it was. *)
Theorem free_frame_refines a f : wf a →
  let '(a', r) := free_frame a f in
  wf a' ∧ (r = Ok () ↔ Ghost.free_enabled (abs a) f) ∧
  (r = Err InvalidFrame ↔ f ∉ pool a) ∧
  (r = Err DoubleFree ↔ f ∈ pool a ∧ f ∉ allocated a) ∧
  abs a' = (if decide (r = Ok ()) then Ghost.ghost_free (abs a) f else abs a).
Proof.
  intros Hwf. destruct (free_frame a f) as [a' r] eqn:E.
  apply free_frame_spec in E as (Hwf' & Hg & H); [|done].
  rewrite abs_free_enabled by auto with falloc. pose proof (allocated_pool a f) as Hap.
  destruct r as [[]|[]]; try done.
  - destruct H as (? & Hal & _ & _). rewrite decide_True by done.
    split_and!; [done|naive_solver..|]. by apply abs_eq.
  - destruct H as (? & ->). rewrite decide_False by done. split_and!; naive_solver.
  - destruct H as (? & ? & ->). rewrite decide_False by done. split_and!; naive_solver.
Qed.

(** Every allocator reachable from [new] by any sequence of single
    allocations, contiguous allocations (any size and alignment) and frees,
    successful or not, satisfies the invariant: the allocated count is the
    number of bits set, equals the size of the ghost set, never exceeds the
    capacity, and the scan hint stays in range. *)
Theorem reachable_wf a : reachable a →
  wf a ∧ Ghost.pool_well_formed (abs a) ∧
  allocated_count a = Z.of_nat (size (Ghost.allocated (abs a))) ∧
  0 ≤ allocated_count a ≤ capacity a.
Proof.
  intros Hr%reachable_inv. pose proof (wf_shape _ Hr) as Hs.
  pose proof (size_allocated_le _ Hs). split_and!; [done|by apply abs_wf|apply wf_count, Hr|..];
  rewrite (wf_count _ Hr); lia.
Qed.

(** [allocate_contiguous_aligned] returns a run only when all its frames
    are inside the pool and free and its first frame is a multiple of the
    alignment, and marks exactly that run; when it refuses, nothing changes and
    either an argument is invalid (zero, alignment not a power of two) or no
    aligned free run of that length exists anywhere in the pool. *)
Theorem allocate_contiguous_aligned_correct a n align : wf a → u64 n → u64 align →
  let '(a', r) := allocate_contiguous_aligned a n align in
  wf a' ∧
  match r with
  | Some f => 0 < n ∧ f mod align = 0 ∧ base_frame a ≤ f ∧
      f + n ≤ base_frame a + capacity a ∧
      (∀ j, 0 ≤ j < n → f + j ∉ allocated a) ∧
      abs a' = Ghost.mkPool (base_frame a) (capacity a)
                 (list_to_set (seqZ f n) ∪ allocated a)
  | None => a' = a ∧ (n = 0 ∨ align = 0 ∨ Z.land align (align - 1) ≠ 0 ∨
      ∀ f, base_frame a ≤ f → f + n ≤ base_frame a + capacity a → f mod align = 0 →
        ∃ j, 0 ≤ j < n ∧ f + j ∈ allocated a)
  end.
Proof.
  intros Hwf Hn Hal. destruct (allocate_contiguous_aligned a n align) as [a' r] eqn:E.
  apply allocate_contiguous_aligned_spec in E as (Hwf' & Hg & H); [|done..].
  split; [done|]. destruct r as [f|]; [|done].
  destruct H as (? & ? & ? & ? & ? & Hset). split_and!; try done. by apply abs_eq.
Qed.

(** The self-test of an allocator with two free frames, step by step. *)
Lemma selftest_spec a : wf a → (size (allocated a) + 2 ≤ size (pool a))%nat →
  ∃ a', run_allocator_selftest a = (a', Ok (), true) ∧ wf a' ∧
    same_geometry a a' ∧ allocated a' = allocated a.
Proof.
  intros Hwf Hroom. unfold run_allocator_selftest.
  destruct (allocate_frame_total a Hwf) as (a1 & f1 & E1); [intros He; rewrite He in Hroom; lia|].
  rewrite E1. apply allocate_frame_spec in E1 as (W1 & G1 & Hp1 & Hn1 & S1); [|done].
  assert (pool a1 = pool a) as P1 by by apply same_geometry_pool.
  destruct (allocate_frame_total a1 W1) as (a2 & f2 & E2).
  { intros He. rewrite P1, S1 in He. rewrite <- He in Hroom.
    rewrite size_union, size_singleton in Hroom by set_solver. lia. }
  rewrite E2. apply allocate_frame_spec in E2 as (W2 & G2 & Hp2 & Hn2 & S2); [|done].
  assert (f1 ≠ f2) as Hne by set_solver.
  rewrite (proj2 (Z.eqb_neq f1 f2)) by done.
  rewrite !(proj2 (is_allocated_spec _ _ (wf_shape _ W2))) by set_solver. simpl.
  destruct (free_frame_Ok a2 f1 W2) as (a3 & E3); [set_solver|]. rewrite E3.
  pose proof (realloc_after_free a2 f1 a3 W2 E3) as (a5 & E5).
  apply free_frame_spec in E3 as (W3 & G3 & Hin3 & S3 & _ & C3); [|done].
  assert (pool a3 = pool a) as P3.
  { apply same_geometry_pool in G2, G3. congruence. }
  rewrite (free_frame_double a3 f1) by (done || set_solver).
  rewrite E5, Z.eqb_refl. simpl.
  apply allocate_frame_spec in E5 as (W5 & G5 & Hp5 & Hn5 & S5); [|done].
  destruct (free_frame_Ok a5 f2 W5) as (a6 & E6); [set_solver|]. rewrite E6.
  apply free_frame_spec in E6 as (W6 & G6 & Hin6 & S6 & _ & C6); [|done].
  destruct (free_frame_Ok a6 f1 W6) as (a7 & E7); [set_solver|]. rewrite E7.
  apply free_frame_spec in E7 as (W7 & G7 & Hin7 & S7 & _ & C7); [|done].
  assert (allocated a7 = allocated a) as S.
  { rewrite S7, S6, S5, S3, S2, S1. set_solver. }
  rewrite (wf_count _ W7), S, (wf_count _ Hwf), Z.eqb_refl. simpl. exists a7.
  split_and!; try done. unfold same_geometry in *. intuition congruence.
Qed.

(** The boot self-test of the allocator succeeds and latches its flag
    whenever at least two frames are free, and it leaves the allocated set as
    it found it. *)
Theorem selftest_passes a : wf a → (size (allocated a) + 2 ≤ size (pool a))%nat →
  ∃ a', run_allocator_selftest a = (a', Ok (), true) ∧ wf a' ∧ abs a' = abs a.
Proof.
  intros Hwf Hroom. destruct (selftest_spec a Hwf Hroom) as (a' & E & W & G & S).
  exists a'. split_and!; [done..|]. by rewrite (abs_eq a a' _ G S).
Qed.

(** The byte-level meaning of [owns_phys_range], for its callers. *)
Lemma owns_phys_range_spec a phys len : wf a → u64 phys → 0 ≤ len → phys + len ≤ U64_MAX →
  owns_phys_range a phys len = true ↔
  ∃ b, phys ≤ b < phys + len ∧ from_phys b ∈ pool a.
Proof.
  intros Hwf Hu Hl Hr. unfold owns_phys_range.
  destruct (Z.eqb_spec len 0) as [->|Hne]; [split; [done|]; intros (b & ? & _); lia|].
  unfold sat_add64. rewrite Z.min_l by lia. rewrite existsb_exists.
  setoid_rewrite <- list_elem_of_In. setoid_rewrite elem_of_seqZ.
  setoid_rewrite (contains_spec a _ (wf_shape _ Hwf)).
  unfold from_phys. setoid_rewrite Z.shiftr_div_pow2; [|lia]. change (2 ^ 12) with 4096.
  unfold div_ceil. split.
  - intros (f & Hf & Hin). exists (Z.max phys (f * 4096)).
    replace (Z.max phys (f * 4096) / 4096) with f; [split; [|done]|];
      destruct (0 <? (phys + len) mod 4096) eqn:Em; dlia.
  - intros (b & Hb & Hin). exists (b / 4096). split; [|done].
    destruct (0 <? (phys + len) mod 4096) eqn:Em; dlia.
Qed.

(** [owns_phys_range], the guard of the guest-memory paths, answers true
    exactly when some byte of the range [phys, phys+len) lies in a frame the
    allocator manages, for every range that does not overflow. *)
Theorem owns_phys_range_iff a phys len : wf a → u64 phys → 0 ≤ len → phys + len ≤ U64_MAX →
  owns_phys_range a phys len = true ↔
  ∃ b, phys ≤ b < phys + len ∧ from_phys b ∈ pool a.
Proof. apply owns_phys_range_spec. Qed.

(** ** Witnesses: a five-frame allocator at 1 MiB *)

Definition demo : FrameAllocator :=
  match new 1048576 5 8192 with Ok a => a | Err _ => mkFA 0 0 0 0 0 0 [] end.

Lemma demo_reachable : reachable demo.
Proof. apply (reach_new 1048576 5 8192); [mlia..|reflexivity]. Qed.

Lemma allocate_frame_refines_witness :
  (allocate_frame demo).2 = Some 256 ∧ Ghost.alloc_enabled (abs demo) 256.
Proof.
  split; [reflexivity|].
  exact (proj1 (proj2 (proj2 (allocate_frame_refines demo (reachable_inv _ demo_reachable))))).
Defined.

Lemma free_frame_refines_witness :
  (free_frame (allocate_frame demo).1 256).2 = Ok () ∧
  (free_frame demo 256).2 = Err DoubleFree ∧ 256 ∉ allocated demo.
Proof.
  split_and!; [reflexivity..|].
  exact (proj2 (proj1 (proj1 (proj2 (proj2 (proj2
    (free_frame_refines demo 256 (reachable_inv _ demo_reachable)))))) eq_refl)).
Defined.

Lemma reachable_wf_witness : 0 ≤ allocated_count (allocate_frame demo).1 ≤ 5.
Proof.
  refine (proj2 (proj2 (proj2 (reachable_wf (allocate_frame demo).1 _)))).
  apply (reach_step demo); [apply demo_reachable|].
  apply (step_alloc _ _ (allocate_frame demo).2). reflexivity.
Defined.

Lemma allocate_contiguous_aligned_correct_witness :
  (allocate_contiguous_aligned (allocate_frame demo).1 2 2).2 = Some 258 ∧
  (∀ j, 0 ≤ j < 2 → 258 + j ∉ allocated (allocate_frame demo).1).
Proof.
  split; [reflexivity|].
  assert (wf (allocate_frame demo).1) as Hwf.
  { apply reachable_inv, (reach_step demo); [apply demo_reachable|].
    apply (step_alloc _ _ (allocate_frame demo).2). reflexivity. }
  pose proof (allocate_contiguous_aligned_correct (allocate_frame demo).1 2 2 Hwf
    ltac:(mlia) ltac:(mlia)) as H.
  exact (proj1 (proj2 (proj2 (proj2 (proj2 (proj2 H)))))).
Defined.

Lemma selftest_passes_witness :
  ∃ a', run_allocator_selftest demo = (a', Ok (), true) ∧ wf a' ∧ abs a' = abs demo.
Proof.
  apply (selftest_passes demo); [apply reachable_inv, demo_reachable|].
  apply Nat.leb_le. vm_compute. reflexivity.
Defined.

Lemma owns_phys_range_iff_witness :
  owns_phys_range demo 1048575 2 = true ∧
  ∃ b, 1048575 ≤ b < 1048575 + 2 ∧ from_phys b ∈ pool demo.
Proof.
  split; [reflexivity|].
  apply (owns_phys_range_iff demo 1048575 2);
    [apply reachable_inv, demo_reachable|mlia|mlia|mlia|reflexivity].
Defined.

End Falloc.
