(* ===== verification/EptMap.v ===== *)
(** * EPT ownership registry ([memory/ept.rs], 4 KiB part)

    The registry of explicitly claimed guest pages: an array of optional
    mappings. Its abstract state is the ghost map of [EptModel]; every
    operation refines the ghost step of the same name. An operation that
    writes the audit log returns the events it records. *)

From S2P Require Import Prelude EptModel FrameAllocator AuditRing.

Module Registry.

Record EptPermissions := mkPerm { read : bool; write : bool; execute : bool }.

Definition READ_WRITE : EptPermissions := mkPerm true true false.
Definition READ_WRITE_EXECUTE : EptPermissions := mkPerm true true true.

Inductive EptError := AlreadyOwned | NotMapped | InvalidGuest | Full | Invariant.

#[global] Instance EptError_eq_dec : EqDecision EptError.
Proof. solve_decision. Defined.

Record EptMapping := mkMapping {
  guest_id : Z; gpa : Z; frame : Z; permissions : EptPermissions;
}.

Definition MAP_CAP : nat := 512.
Definition M2_BRINGUP_GUEST_ID : Z := 1.
Definition M4_GUEST1_ID : Z := 2.

(** [len] counts slots of an array of 512, so it is a [nat]. *)
Record EptMap := mkMap { mappings : list (option EptMapping); len : nat }.

Definition new : EptMap := mkMap (replicate MAP_CAP None) 0.

Definition is_empty (m : EptMap) : bool := (len m =? 0)%nat.

(** The first loop of [map]: the conflict it would return. *)
Definition conflict (g a f : Z) (o : option EptMapping) : bool :=
  match o with
  | Some m => (frame m =? f) || ((guest_id m =? g) && (gpa m =? a))
  | None => false
  end.

Definition is_none {A} (o : option A) : bool := match o with None => true | Some _ => false end.

Definition map (m : EptMap) (g a f : Z) (p : EptPermissions) : EptMap * result unit EptError :=
  if g =? 0 then (m, Err InvalidGuest)
  else
    let a := Z.land a (bnot64 4095) in
    if existsb (conflict g a f) (mappings m) then (m, Err AlreadyOwned)
    else match find_index is_none (mappings m) with
         | Some i => (mkMap (<[i := Some (mkMapping g a f p)]> (mappings m)) (S (len m)), Ok ())
         | None => (m, Err Full)
         end.

Definition at_gpa (g a : Z) (o : option EptMapping) : bool :=
  match o with
  | Some m => (guest_id m =? g) && (gpa m =? a)
  | None => false
  end.

(** The third component lists the audit events recorded. *)
Definition unmap (m : EptMap) (g a : Z)
    : EptMap * result Z EptError * list Audit.AuditEvent :=
  let a := Z.land a (bnot64 4095) in
  match find_index (at_gpa g a) (mappings m) with
  | Some i =>
      match mappings m !! i with
      | Some (Some e) =>
          (mkMap (<[i := None]> (mappings m)) (len m - 1), Ok (frame e),
           [Audit.EptUnmapped g a (frame e)])
      | _ => (m, Err NotMapped, [])
      end
  | None => (m, Err NotMapped, [])
  end.

Definition owner_of (m : EptMap) (f : Z) : option Z :=
  find_map (λ o, match o with
                 | Some e => if frame e =? f then Some (guest_id e) else None
                 | None => None
                 end) (mappings m).

Definition owner_of_gpa (m : EptMap) (g a : Z) : option Z :=
  let a := Z.land a (bnot64 4095) in
  find_map (λ o, match o with
                 | Some e => if (guest_id e =? g) && (gpa e =? a) then Some (frame e) else None
                 | None => None
                 end) (mappings m).

(** The inner loop of [check_invariants] for the mapping [ma] at index [i]. *)
Definition clash (i : nat) (ma : EptMapping) (jb : nat * option EptMapping) : bool :=
  let '(j, b) := jb in
  if (i =? j)%nat then false
  else match b with
       | None => false
       | Some mb => (frame ma =? frame mb)
                    || ((guest_id ma =? guest_id mb) && (gpa ma =? gpa mb))
       end.

Definition enumerate {A} (l : list A) : list (nat * A) := zip (seq 0 (length l)) l.

Fixpoint check_loop (all rest : list (nat * option EptMapping)) (n : nat) : option nat :=
  match rest with
  | [] => Some n
  | (_, None) :: rest => check_loop all rest n
  | (i, Some ma) :: rest =>
      if existsb (clash i ma) all then None else check_loop all rest (S n)
  end.

Definition check_invariants (m : EptMap) : bool :=
  let all := enumerate (mappings m) in
  match check_loop all all 0 with
  | Some n => (n =? len m)%nat
  | None => false
  end.

(** ** EPT violations and page hand-off *)

Inductive ViolationDisposition :=
| EmulateNoMap
| Reject
| ClaimMap (guest_id gpa frame : Z) (permissions : EptPermissions).

Definition apply_violation_disposition (m : EptMap) (d : ViolationDisposition)
    : EptMap * result unit EptError :=
  match d with
  | EmulateNoMap | Reject => (m, Ok ())
  | ClaimMap g a f p => map m g a f p
  end.

Definition transfer_page (m : EptMap) (src_guest src_gpa dst_guest dst_gpa : Z)
    (p : EptPermissions) : EptMap * result Z EptError * list Audit.AuditEvent :=
  if (src_guest =? 0) || (dst_guest =? 0) || (src_guest =? dst_guest)
  then (m, Err InvalidGuest, [])
  else
    let src_gpa := Z.land src_gpa (bnot64 4095) in
    let dst_gpa := Z.land dst_gpa (bnot64 4095) in
    match owner_of_gpa m dst_guest dst_gpa with
    | Some _ => (m, Err AlreadyOwned, [])
    | None =>
        match unmap m src_guest src_gpa with
        | (m1, Err e, ev) => (m1, Err e, ev)
        | (m1, Ok f, ev) =>
            match map m1 dst_guest dst_gpa f p with
            | (m2, Ok _) => (m2, Ok f, ev)
            | (m2, Err e) => ((map m2 src_guest src_gpa f p).1, Err e, ev)
            end
        end
    end.

(** The boot self-test on a fresh registry. The Boolean is the latch
    [OWNERSHIP_SELFTEST_OK]; the audit events of its one unmap are dropped. *)
Definition run_ownership_selftest (code_phys stack_phys idt_phys : Z)
    : result unit EptError * bool :=
  let fail e := (Err e, false) in
  let G := M2_BRINGUP_GUEST_ID in
  let code := Falloc.from_phys code_phys in
  let stack := Falloc.from_phys stack_phys in
  let idt := Falloc.from_phys idt_phys in
  match map new G code_phys code READ_WRITE_EXECUTE with
  | (_, Err e) => fail e
  | (m1, Ok _) =>
  match map m1 G stack_phys stack READ_WRITE with
  | (_, Err e) => fail e
  | (m2, Ok _) =>
  match map m2 G idt_phys idt READ_WRITE with
  | (_, Err e) => fail e
  | (m3, Ok _) =>
  match map m3 2 0x9000 code READ_WRITE with
  | (_, Ok _) => fail Invariant
  | (m4, Err AlreadyOwned) =>
      if negb (bool_decide (owner_of m4 code = Some G)) then fail Invariant
      else if negb (bool_decide (owner_of m4 stack = Some G)) then fail Invariant
      else if negb (bool_decide (owner_of m4 idt = Some G)) then fail Invariant
      else if negb (check_invariants m4) || negb (len m4 =? 3)%nat then fail Invariant
      else match unmap m4 G stack_phys with
           | (_, Err e, _) => fail e
           | (m5, Ok freed, _) =>
               if negb (freed =? stack) then fail Invariant
               else match map m5 G stack_phys stack READ_WRITE with
                    | (_, Err e) => fail e
                    | (m6, Ok _) =>
                        if negb (check_invariants m6) then fail Invariant else (Ok (), true)
                    end
           end
  | (_, Err e) => fail e
  end end end end.

(** The two host-testable property functions of the source. *)
Definition prop_page_transfer_preserves_exclusive : bool :=
  let g0 := M2_BRINGUP_GUEST_ID in
  let g1 := M4_GUEST1_ID in
  let f0 := 70 in
  let f1 := 71 in
  match map new g0 0 f0 READ_WRITE with
  | (_, Err _) => false
  | (m, Ok _) =>
  if negb (bool_decide (owner_of m f0 = Some g0)) || negb (check_invariants m) then false else
  match transfer_page m g0 0 g1 0x1000 READ_WRITE with
  | (m, Ok f, _) =>
      if negb (f =? f0) then false
      else if negb (bool_decide (owner_of m f0 = Some g1)) || negb (check_invariants m) then false
      else match unmap m g0 0 with
      | (_, Ok _, _) => false
      | (m, Err _, _) =>
      match map m g0 0x2000 f0 READ_WRITE with
      | (m, Err AlreadyOwned) =>
          match map m g0 0x2000 f1 READ_WRITE with
          | (_, Err _) => false
          | (m, Ok _) =>
              check_invariants m && bool_decide (owner_of m f0 = Some g1)
              && bool_decide (owner_of m f1 = Some g0) && (len m =? 2)%nat
          end
      | _ => false
      end end
  | _ => false
  end end.

Definition prop_violation_preserves_exclusive : bool :=
  let g0 := M2_BRINGUP_GUEST_ID in
  let g1 := M4_GUEST1_ID in
  let gpa := 0x1000 in
  let f0 := 60 in
  let f1 := 61 in
  match apply_violation_disposition new EmulateNoMap with
  | (_, Err _) => false
  | (m, Ok _) =>
  if negb (is_empty m) || negb (check_invariants m) then false else
  match apply_violation_disposition m Reject with
  | (_, Err _) => false
  | (m, Ok _) =>
  if negb (is_empty m) || negb (check_invariants m) then false else
  match apply_violation_disposition m (ClaimMap g0 gpa f0 READ_WRITE) with
  | (_, Err _) => false
  | (m, Ok _) =>
  if negb (bool_decide (owner_of m f0 = Some g0)) || negb (check_invariants m) then false else
  match apply_violation_disposition m (ClaimMap g1 0x2000 f0 READ_WRITE) with
  | (m, Err AlreadyOwned) =>
      match apply_violation_disposition m (ClaimMap g1 0x2000 f1 READ_WRITE) with
      | (_, Err _) => false
      | (m, Ok _) =>
          check_invariants m && bool_decide (owner_of m f0 = Some g0)
          && bool_decide (owner_of m f1 = Some g1) && (len m =? 2)%nat
      end
  | _ => false
  end end end end.

(** ** Abstract state *)

Definition entries (m : EptMap) : list EptMapping := omap id (mappings m).

Definition key (e : EptMapping) : Z * Z := (guest_id e, gpa e).

Definition abs (m : EptMap) : Ghost.GhostEptMap :=
  Ghost.mkGhost (list_to_map ((λ e, (frame e, guest_id e)) <$> entries m))
    (list_to_map ((λ e, (key e, frame e)) <$> entries m)).

(** A legal 4 KiB claim of a real guest. *)
Definition legal (e : EptMapping) : Prop := guest_id e ≠ 0 ∧ gpa e mod 4096 = 0.

Record wf (m : EptMap) : Prop := {
  wf_cap : length (mappings m) = MAP_CAP;
  wf_len : len m = length (entries m);
  wf_frames : NoDup (frame <$> entries m);
  wf_keys : NoDup (key <$> entries m);
  wf_legal : Forall legal (entries m);
}.

(** *** Slots and entries *)

Lemma elem_of_entries e m : e ∈ entries m ↔ Some e ∈ mappings m.
Proof.
  unfold entries. rewrite list_elem_of_omap. split.
  - intros (x & Hx & E). unfold id in E. by subst.
  - intros H. by exists (Some e).
Qed.

Lemma omap_fill (l : list (option EptMapping)) i e : l !! i = Some None →
  omap id (<[i := Some e]> l) ≡ₚ e :: omap id l.
Proof.
  intros Hi. pose proof (lookup_lt_Some _ _ _ Hi).
  rewrite insert_take_drop by done. rewrite <- (take_drop_middle l i None Hi) at 3.
  rewrite !omap_app. simpl. by rewrite Permutation_middle.
Qed.

Lemma omap_clear (l : list (option EptMapping)) i e : l !! i = Some (Some e) →
  omap id l ≡ₚ e :: omap id (<[i := None]> l).
Proof.
  intros Hi. pose proof (lookup_lt_Some _ _ _ Hi).
  rewrite insert_take_drop by done. rewrite <- (take_drop_middle l i (Some e) Hi) at 1.
  rewrite !omap_app. simpl. by rewrite Permutation_middle.
Qed.

Lemma omap_full (l : list (option EptMapping)) :
  find_index is_none l = None → length (omap id l) = length l.
Proof.
  rewrite find_index_None. induction l as [|[x|] l IH]; intros Hall; simpl; [done| |].
  - f_equal. apply IH. intros y Hy. apply Hall. by apply elem_of_cons; right.
  - specialize (Hall None (list_elem_of_here _ _)). done.
Qed.

Lemma length_omap_le (l : list (option EptMapping)) : (length (omap id l) ≤ length l)%nat.
Proof. induction l as [|[x|] l IH]; csimpl; lia. Qed.

Lemma omap_not_full (l : list (option EptMapping)) i :
  l !! i = Some None → (length (omap id l) < length l)%nat.
Proof.
  intros Hi. rewrite <- (take_drop_middle l i None Hi).
  rewrite omap_app, !length_app. csimpl.
  pose proof (length_omap_le (take i l)). pose proof (length_omap_le (drop (S i) l)). lia.
Qed.

(** *** Lookups in the abstract maps *)

Section Lookup.
Context (m : EptMap).

Lemma owned_fst : ((λ e, (frame e, guest_id e)) <$> entries m).*1 = frame <$> entries m.
Proof. by rewrite <- list_fmap_compose. Qed.

Lemma by_gpa_fst : ((λ e, (key e, frame e)) <$> entries m).*1 = key <$> entries m.
Proof. by rewrite <- list_fmap_compose. Qed.

Lemma abs_owned f g : wf m →
  Ghost.owned (abs m) !! f = Some g ↔ ∃ e, e ∈ entries m ∧ frame e = f ∧ guest_id e = g.
Proof.
  intros Hwf. simpl. rewrite <- elem_of_list_to_map by (rewrite owned_fst; apply wf_frames, Hwf).
  rewrite list_elem_of_fmap. split.
  - intros (e & [= -> ->] & He). by exists e.
  - intros (e & He & <- & <-). by exists e.
Qed.

Lemma abs_by_gpa g a f : wf m →
  Ghost.by_gpa (abs m) !! (g, a) = Some f ↔ ∃ e, e ∈ entries m ∧ key e = (g, a) ∧ frame e = f.
Proof.
  intros Hwf. simpl. rewrite <- elem_of_list_to_map by (rewrite by_gpa_fst; apply wf_keys, Hwf).
  rewrite list_elem_of_fmap. split.
  - intros (e & [Hk ->]%pair_equal_spec & He). by exists e.
  - intros (e & He & Hk & <-). exists e. by rewrite Hk.
Qed.

Lemma abs_owned_None f : Ghost.owned (abs m) !! f = None ↔ f ∉ frame <$> entries m.
Proof. simpl. by rewrite <- owned_fst, not_elem_of_list_to_map. Qed.

Lemma abs_by_gpa_None g a : Ghost.by_gpa (abs m) !! (g, a) = None ↔ (g, a) ∉ key <$> entries m.
Proof. simpl. by rewrite <- by_gpa_fst, not_elem_of_list_to_map. Qed.

(** A new entry in front is a ghost map step. *)
Lemma abs_cons m' e : wf m' → entries m' ≡ₚ e :: entries m →
  abs m' = Ghost.ghost_map (abs m) (guest_id e) (gpa e) (frame e).
Proof.
  intros Hwf Hp. unfold abs, Ghost.ghost_map. simpl. f_equal.
  - rewrite (list_to_map_proper _ ((λ e, (frame e, guest_id e)) <$> (e :: entries m)));
      [done| |by rewrite Hp].
    rewrite <- list_fmap_compose. apply wf_frames, Hwf.
  - rewrite (list_to_map_proper _ ((λ e, (key e, frame e)) <$> (e :: entries m)));
      [done| |by rewrite Hp].
    rewrite <- list_fmap_compose. apply wf_keys, Hwf.
Qed.
End Lookup.

(** *** [map] and [unmap] *)

Definition page (a : Z) : Z := Z.land a (bnot64 4095).

(** The ghost step is enabled: frame and guest page are both free. *)
Definition free_at (m : EptMap) (g a f : Z) : Prop :=
  Ghost.owned (abs m) !! f = None ∧ Ghost.by_gpa (abs m) !! (g, a) = None.

Lemma conflict_free m g a f :
  existsb (conflict g a f) (mappings m) = false ↔ free_at m g a f.
Proof.
  unfold free_at. rewrite abs_owned_None, abs_by_gpa_None.
  rewrite !list_elem_of_fmap. setoid_rewrite elem_of_entries.
  rewrite <- not_true_iff_false, existsb_exists. setoid_rewrite <- list_elem_of_In. split.
  - intros Hno. split; intros (e & E & He); apply Hno; exists (Some e); (split; [done|]).
    + simpl. by rewrite E, Z.eqb_refl.
    + injection E as -> ->. simpl. by rewrite !Z.eqb_refl, orb_true_r.
  - intros [H1 H2] ([e|] & He & Hc); [|done]. simpl in Hc.
    apply orb_true_iff in Hc as [Hc%Z.eqb_eq|[Hc%Z.eqb_eq Hc'%Z.eqb_eq]%andb_true_iff].
    + apply H1. by exists e.
    + apply H2. exists e. split; [|done]. unfold key. by rewrite Hc, Hc'.
Qed.

Lemma fill_wf m i e : wf m → mappings m !! i = Some None → legal e →
  free_at m (guest_id e) (gpa e) (frame e) →
  let m' := mkMap (<[i := Some e]> (mappings m)) (S (len m)) in
  wf m' ∧ entries m' ≡ₚ e :: entries m.
Proof.
  intros Hwf Hi Hleg [Hf Hk] m'. rewrite abs_owned_None in Hf. rewrite abs_by_gpa_None in Hk.
  assert (entries m' ≡ₚ e :: entries m) as Hp by by apply omap_fill.
  split; [|done]. destruct Hwf. constructor; simpl.
  - by rewrite length_insert.
  - fold (entries m'). rewrite Hp. simpl. congruence.
  - fold (entries m'). rewrite Hp. simpl. by constructor.
  - fold (entries m'). rewrite Hp. simpl. by constructor.
  - fold (entries m'). rewrite Hp. by constructor.
Qed.

Lemma map_spec m g a f p m' r : wf m → u64 a → map m g a f p = (m', r) →
  match r with
  | Ok _ => g ≠ 0 ∧ free_at m g (page a) f ∧ (len m < MAP_CAP)%nat ∧
      wf m' ∧ entries m' ≡ₚ mkMapping g (page a) f p :: entries m
  | Err InvalidGuest => g = 0 ∧ m' = m
  | Err AlreadyOwned => g ≠ 0 ∧ ¬ free_at m g (page a) f ∧ m' = m
  | Err Full => g ≠ 0 ∧ free_at m g (page a) f ∧ len m = MAP_CAP ∧ m' = m
  | Err _ => False
  end.
Proof.
  intros Hwf Ha. unfold map. fold (page a).
  destruct (Z.eqb_spec g 0) as [->|Hg]; [by intros [= <- <-]|].
  pose proof (conflict_free m g (page a) f) as Hcf.
  destruct (existsb _ _); [intros [= <- <-]; naive_solver|].
  destruct (find_index is_none (mappings m)) as [i|] eqn:Ei; intros [= <- <-].
  - apply find_index_Some in Ei as ([|] & Hi & Hn & _); [done|].
    assert (free_at m g (page a) f) as Hfree by by apply Hcf.
    destruct (fill_wf m i (mkMapping g (page a) f p)) as [Hwf' Hp]; [done..| |done|].
    { split; [done|]. simpl. by apply page_floor_mod. }
    split_and!; try done. rewrite (wf_len m Hwf), <- (wf_cap m Hwf). by eapply omap_not_full.
  - apply omap_full in Ei. split_and!; [done|by apply Hcf| |done].
    rewrite (wf_len m Hwf), <- (wf_cap m Hwf). done.
Qed.

Lemma map_Ok m g a f p : wf m → u64 a → g ≠ 0 → free_at m g (page a) f →
  (len m < MAP_CAP)%nat → ∃ m', map m g a f p = (m', Ok ()).
Proof.
  intros Hwf Ha Hg Hf Hl. destruct (map m g a f p) as [m' [[]|e]] eqn:E; [eauto|].
  apply map_spec in E; [|done..]. destruct e; naive_solver lia.
Qed.

Lemma find_at_gpa m g a i : find_index (at_gpa g a) (mappings m) = Some i →
  ∃ e, mappings m !! i = Some (Some e) ∧ key e = (g, a).
Proof.
  intros ([e|] & Hi & Hat & _)%find_index_Some; [|done]. simpl in Hat.
  apply andb_true_iff in Hat as [E1%Z.eqb_eq E2%Z.eqb_eq].
  exists e. split; [done|]. unfold key. by rewrite E1, E2.
Qed.

Lemma registry_clear_wf m i e : wf m → mappings m !! i = Some (Some e) →
  let m' := mkMap (<[i := None]> (mappings m)) (len m - 1) in
  wf m' ∧ entries m ≡ₚ e :: entries m'.
Proof.
  intros Hwf Hi m'. assert (entries m ≡ₚ e :: entries m') as Hp by by apply omap_clear.
  split; [|done]. destruct Hwf as [W1 W2 W3 W4 W5]. rewrite Hp in W2, W3, W4, W5.
  simpl in *. apply NoDup_cons in W3 as [_ W3]. apply NoDup_cons in W4 as [_ W4].
  apply Forall_cons in W5 as [_ W5].
  constructor; simpl; [by rewrite length_insert|rewrite W2; lia|done..].
Qed.

Lemma unmap_spec m g a m' r ev : wf m → unmap m g a = (m', r, ev) →
  match r with
  | Ok f => wf m' ∧ (∃ e, key e = (g, page a) ∧ frame e = f ∧ entries m ≡ₚ e :: entries m') ∧
      Ghost.by_gpa (abs m) !! (g, page a) = Some f ∧ len m = S (len m') ∧
      ev = [Audit.EptUnmapped g (page a) f]
  | Err NotMapped => Ghost.by_gpa (abs m) !! (g, page a) = None ∧ m' = m ∧ ev = []
  | Err _ => False
  end.
Proof.
  intros Hwf. unfold unmap. fold (page a).
  destruct (find_index (at_gpa g (page a)) (mappings m)) as [i|] eqn:Ei.
  - apply find_at_gpa in Ei as (e & Hi & Hk). rewrite Hi. intros [= <- <- <-].
    destruct (registry_clear_wf m i e Hwf Hi) as [Hwf' Hp]. split_and!; [done|by exists e| | |done].
    + apply abs_by_gpa; [done|]. exists e. split_and!; [|done..].
      rewrite Hp. apply list_elem_of_here.
    + simpl. apply Permutation_length in Hp. simpl in Hp. rewrite (wf_len m Hwf), Hp.
      rewrite <- (wf_len _ Hwf'). simpl. rewrite (wf_len m Hwf), Hp. lia.
  - intros [= <- <- <-]. split_and!; [|done..]. apply abs_by_gpa_None.
    rewrite list_elem_of_fmap. intros (e & E & He%elem_of_entries).
    rewrite find_index_None in Ei. specialize (Ei (Some e) He).
    apply pair_equal_spec in E as [E1 E2]. cbn [at_gpa] in Ei.
    by rewrite <- E1, <- E2, !Z.eqb_refl in Ei.
Qed.

Lemma wf_exclusive m : wf m → Ghost.exclusive_ownership (abs m).
Proof.
  intros Hwf. constructor.
  - intros f g (e & He & <- & <-)%abs_owned; [|done]. exists (gpa e).
    apply abs_by_gpa; [done|]. by exists e.
  - intros g a f (e & He & [= <- <-] & <-)%abs_by_gpa; [|done].
    apply abs_owned; [done|]. by exists e.
  - intros g1 a1 g2 a2 f (e1 & He1 & [= <- <-] & Hf1)%abs_by_gpa
      (e2 & He2 & [= <- <-] & Hf2)%abs_by_gpa; [|done..].
    assert (e1 = e2) as ->; [|done].
    apply list_elem_of_lookup in He1 as [i Hi], He2 as [j Hj].
    pose proof (NoDup_lookup _ i j f (wf_frames m Hwf)) as Hij.
    rewrite !list_lookup_fmap, Hi, Hj in Hij. simpl in Hij. rewrite Hf1, Hf2 in Hij.
    specialize (Hij eq_refl eq_refl). congruence.
  - simpl. rewrite !map_size_list_to_map;
      [by rewrite !length_fmap|rewrite by_gpa_fst; apply wf_keys, Hwf
      |rewrite owned_fst; apply wf_frames, Hwf].
Qed.

Lemma unmap_of_map G g a f : Ghost.owned G !! f = None → Ghost.by_gpa G !! (g, a) = None →
  Ghost.ghost_unmap (Ghost.ghost_map G g a f) g a = G.
Proof.
  intros Hf Hk. unfold Ghost.ghost_unmap, Ghost.ghost_map. simpl.
  rewrite lookup_total_insert_eq, !delete_insert_id by done. by destruct G.
Qed.

Lemma cons_free m m' e : wf m → entries m ≡ₚ e :: entries m' →
  free_at m' (guest_id e) (gpa e) (frame e).
Proof.
  intros [_ _ W3 W4 _] Hp. rewrite Hp in W3, W4. simpl in *.
  apply NoDup_cons in W3 as [W3 _], W4 as [W4 _].
  split; [by apply abs_owned_None|by apply abs_by_gpa_None].
Qed.

Lemma abs_uncons m m' e : wf m → wf m' → entries m ≡ₚ e :: entries m' →
  abs m' = Ghost.ghost_unmap (abs m) (guest_id e) (gpa e).
Proof.
  intros Hwf Hwf' Hp. destruct (cons_free m m' e Hwf Hp) as [Hf Hk].
  by rewrite (abs_cons m' m e Hwf Hp), unmap_of_map.
Qed.

Lemma page_aligned a : u64 a → Ghost.page_aligned_4k (page a) = true.
Proof. intros Ha. apply Z.eqb_eq. by apply page_floor_mod. Qed.

Lemma page_idem a : u64 a → page (page a) = page a.
Proof.
  intros Ha. apply page_floor_aligned; [by apply page_floor_u64|by apply page_floor_mod].
Qed.

Lemma page_u64 a : u64 a → u64 (page a).
Proof. apply page_floor_u64. Qed.

#[local] Hint Resolve page_u64 page_aligned wf_exclusive : machine.

Lemma new_wf : wf new.
Proof.
  assert (entries new = []) as He by reflexivity.
  constructor; rewrite ?He; try done; simpl; by constructor.
Qed.

(** *** The lookups and the structural check *)

Lemma owner_of_abs m f : wf m → owner_of m f = Ghost.owned (abs m) !! f.
Proof.
  intros Hwf. destruct (Ghost.owned (abs m) !! f) as [g|] eqn:E.
  - apply abs_owned in E as (e & He%elem_of_entries & Hf & Hg); [|done].
    unfold owner_of. destruct (find_map _ _) as [g'|] eqn:Em.
    + apply find_map_Some in Em as (i & [e'|] & Hi & Hx & _); [|done].
      destruct (Z.eqb_spec (frame e') f) as [Hf'|]; [|done]. simplify_eq.
      assert (Ghost.owned (abs m) !! frame e = Some (guest_id e)) as E1
        by (apply abs_owned; [done|]; exists e; by rewrite elem_of_entries).
      assert (Ghost.owned (abs m) !! frame e' = Some (guest_id e')) as E2.
      { apply abs_owned; [done|]. exists e'. rewrite elem_of_entries.
        split; [by eapply list_elem_of_lookup_2|done]. }
      congruence.
    + rewrite find_map_None in Em. specialize (Em _ He). simpl in Em.
      by rewrite Hf, Z.eqb_refl in Em.
  - apply find_map_None. intros [e|] He; [|done].
    destruct (Z.eqb_spec (frame e) f) as [Hf|]; [|done]. exfalso.
    apply abs_owned_None in E. apply E, list_elem_of_fmap. exists e.
    by rewrite elem_of_entries.
Qed.

Lemma owner_of_gpa_abs m g a : wf m → owner_of_gpa m g a = Ghost.by_gpa (abs m) !! (g, page a).
Proof.
  intros Hwf. unfold owner_of_gpa. fold (page a).
  destruct (Ghost.by_gpa (abs m) !! (g, page a)) as [f|] eqn:E.
  - destruct (find_map _ _) as [f'|] eqn:Em.
    + apply find_map_Some in Em as (i & [e'|] & Hi & Hx & _); [|done].
      destruct ((_ =? g) && _) eqn:Ek; [|done]. injection Hx as <-.
      apply andb_true_iff in Ek as [E1%Z.eqb_eq E2%Z.eqb_eq].
      assert (Ghost.by_gpa (abs m) !! (g, page a) = Some (frame e')) as E'; [|congruence].
      apply abs_by_gpa; [done|]. exists e'. rewrite elem_of_entries. unfold key.
      rewrite E1, E2. split; [by eapply list_elem_of_lookup_2|done].
    + apply abs_by_gpa in E as (e & He%elem_of_entries & Hk & Hf); [|done].
      rewrite find_map_None in Em. specialize (Em _ He). cbn beta iota in Em.
      apply pair_equal_spec in Hk as [E1 E2]. by rewrite E1, E2, !Z.eqb_refl in Em.
  - apply find_map_None. intros [e|] He; [|done].
    destruct ((_ =? g) && _) eqn:Ek; [|done]. exfalso.
    apply andb_true_iff in Ek as [E1%Z.eqb_eq E2%Z.eqb_eq].
    apply abs_by_gpa_None in E. apply E, list_elem_of_fmap. exists e.
    rewrite elem_of_entries. unfold key. by rewrite E1, E2.
Qed.

Lemma elem_of_enumerate {A} (l : list A) i x : (i, x) ∈ enumerate l ↔ l !! i = Some x.
Proof.
  unfold enumerate. split.
  - intros (k & Hk)%list_elem_of_lookup. apply lookup_zip_Some in Hk as [H1 H2].
    apply lookup_seq in H1 as [-> _]. done.
  - intros Hi. apply list_elem_of_lookup. exists i. apply lookup_zip_Some.
    split; [|done]. apply lookup_seq. split; [done|]. by eapply lookup_lt_Some.
Qed.

Lemma check_loop_spec all rest : ∀ n n',
  check_loop all rest n = Some n' ↔
  (∀ i ma, (i, Some ma) ∈ rest → existsb (clash i ma) all = false) ∧
  n' = (n + length (omap snd rest))%nat.
Proof.
  induction rest as [|[i [ma|]] rest IH]; intros n n'; simpl.
  - split; [intros [= <-]; split; [intros i ma Hi; by apply elem_of_nil in Hi|lia]|].
    intros [_ ->]. f_equal. lia.
  - destruct (existsb (clash i ma) all) eqn:E.
    + split; [done|]. intros [Hall _].
      specialize (Hall i ma (list_elem_of_here _ _)). congruence.
    + rewrite IH. csimpl. split; intros [Hall ->]; (split; [|lia]).
      * intros j mb [[= -> ->]|Hj]%elem_of_cons; [done|by apply Hall].
      * intros j mb Hj. apply Hall. by apply elem_of_cons; right.
  - rewrite IH. csimpl. split; intros [Hall ->]; (split; [|done]).
    + intros j mb [Hj|Hj]%elem_of_cons; [done|by apply Hall].
    + intros j mb Hj. apply Hall. by apply elem_of_cons; right.
Qed.

Lemma length_omap_enumerate (l : list (option EptMapping)) :
  length (omap snd (enumerate l)) = length (omap id l).
Proof.
  unfold enumerate. generalize 0%nat. induction l as [|[x|] l IH]; intros k; csimpl; [done| |];
    by rewrite IH.
Qed.

(** Distinct slots hold distinct images under [f] exactly when the images of
    the entries have no duplicate. *)
Lemma slots_distinct {B} (f : EptMapping → B) (l : list (option EptMapping)) :
  (∀ i j a b, l !! i = Some (Some a) → l !! j = Some (Some b) → f a = f b → i = j) ↔
  NoDup (f <$> omap id l).
Proof.
  induction l as [|o l IH]; [split; [intros _; constructor|done]|].
  assert ((∀ i j a b, l !! i = Some (Some a) → l !! j = Some (Some b) → f a = f b → i = j) ∧
    (∀ a j b, o = Some a → l !! j = Some (Some b) → f a ≠ f b) ↔
    ∀ i j a b, (o :: l) !! i = Some (Some a) → (o :: l) !! j = Some (Some b) →
      f a = f b → i = j) as <-.
  { split.
    - intros [H1 H2] [|i] [|j] a b; simpl; intros Ha Hb Hf; simplify_eq; [done|..].
      + by destruct (H2 a j b eq_refl Hb).
      + by destruct (H2 b i a eq_refl Ha).
      + f_equal. by eapply H1.
    - intros H. split.
      + intros i j a b Ha Hb Hf. specialize (H (S i) (S j) a b Ha Hb Hf). congruence.
      + intros a j b -> Hb Hf. by specialize (H 0%nat (S j) a b eq_refl Hb Hf). }
  rewrite IH. destruct o as [a|]; csimpl.
  - rewrite NoDup_cons, list_elem_of_fmap. split.
    + intros [H1 H2]. split; [|done]. intros (b & Hf & Hb).
      apply list_elem_of_omap in Hb as (ob & Hob & Eb). unfold id in Eb. subst ob.
      apply list_elem_of_lookup in Hob as [j Hj]. by eapply H2.
    + intros [H1 H2]. split; [done|]. intros a' j b [= <-] Hj Hf. apply H1.
      exists b. split; [done|]. apply list_elem_of_omap. exists (Some b).
      split; [by eapply list_elem_of_lookup_2|done].
  - split; [by intros [? _]|]. intros H. by split.
Qed.

Lemma no_clash_iff m :
  (∀ i ma, (i, Some ma) ∈ enumerate (mappings m) →
     existsb (clash i ma) (enumerate (mappings m)) = false) ↔
  NoDup (frame <$> entries m) ∧ NoDup (key <$> entries m).
Proof.
  unfold entries. rewrite <- !slots_distinct. split.
  - intros Hno. assert (∀ i j a b, mappings m !! i = Some (Some a) →
      mappings m !! j = Some (Some b) → clash i a (j, Some b) = true → False) as Hc.
    { intros i j a b Hi Hj Hc. rewrite <- elem_of_enumerate in Hi, Hj.
      specialize (Hno i a Hi). rewrite <- not_true_iff_false, existsb_exists in Hno.
      apply Hno. exists (j, Some b). by rewrite <- list_elem_of_In. }
    split; intros i j a b Hi Hj E; destruct (decide (i = j)) as [|Hne]; try done;
      destruct (Hc i j a b Hi Hj); simpl; rewrite (proj2 (Nat.eqb_neq i j)) by done.
    + by rewrite E, Z.eqb_refl.
    + injection E as -> ->. by rewrite !Z.eqb_refl, orb_true_r.
  - intros [Hf Hk] i ma Hi%elem_of_enumerate. apply not_true_iff_false.
    rewrite existsb_exists. intros ([j [mb|]] & Hj & Hc); simpl in Hc.
    2:{ by destruct (i =? j)%nat. }
    rewrite <- list_elem_of_In, elem_of_enumerate in Hj.
    destruct (Nat.eqb_spec i j) as [|Hne]; [done|]. destruct Hne.
    apply orb_true_iff in Hc as [Hc%Z.eqb_eq|[H1%Z.eqb_eq H2%Z.eqb_eq]%andb_true_iff].
    + by eapply Hf.
    + eapply Hk; [done..|]. unfold key. by rewrite H1, H2.
Qed.

Lemma check_invariants_spec m : check_invariants m = true ↔
  NoDup (frame <$> entries m) ∧ NoDup (key <$> entries m) ∧ len m = length (entries m).
Proof.
  unfold check_invariants. rewrite (assoc (∧)), <- no_clash_iff.
  pose proof (check_loop_spec (enumerate (mappings m)) (enumerate (mappings m)) 0) as Hl.
  rewrite length_omap_enumerate in Hl. simpl in Hl.
  destruct (check_loop _ _ 0) as [n|].
  - destruct (proj1 (Hl n) eq_refl) as [Hno ->]. unfold entries. rewrite Nat.eqb_eq.
    split; [intros <-; done|]. by intros [_ ->].
  - split; [done|]. intros [Hno _]. by specialize (proj2 (Hl _) (conj Hno eq_refl)).
Qed.

Lemma wf_check m : wf m → check_invariants m = true.
Proof. intros []. by apply check_invariants_spec. Qed.

(** *** [transfer_page] *)

Lemma transfer_spec m sg sa dg da p m' r ev :
  wf m → u64 sa → u64 da → transfer_page m sg sa dg da p = (m', r, ev) →
  let t := Ghost.mkTransfer sg (page sa) dg (page da) in
  wf m' ∧
  match r with
  | Ok f => Ghost.transfer_enabled (abs m) t ∧ abs m' = Ghost.apply_transfer (abs m) t ∧
      Ghost.by_gpa (abs m) !! (sg, page sa) = Some f ∧
      ev = [Audit.EptUnmapped sg (page sa) f]
  | Err InvalidGuest => (sg = 0 ∨ dg = 0 ∨ sg = dg) ∧ m' = m ∧ ev = []
  | Err AlreadyOwned => is_Some (Ghost.by_gpa (abs m) !! (dg, page da)) ∧ m' = m ∧ ev = []
  | Err NotMapped => Ghost.by_gpa (abs m) !! (sg, page sa) = None ∧ m' = m ∧ ev = []
  | Err _ => False
  end.
Proof.
  intros Hwf Hsa Hda. unfold transfer_page. fold (page sa) (page da).
  destruct (Z.eqb_spec sg 0) as [->|Hs]; [intros [= <- <- <-]; auto 6|].
  destruct (Z.eqb_spec dg 0) as [->|Hd]; [intros [= <- <- <-]; auto 6|].
  destruct (Z.eqb_spec sg dg) as [->|Hne]; [intros [= <- <- <-]; auto 6|]. simpl orb.
  rewrite owner_of_gpa_abs, page_idem by done.
  destruct (Ghost.by_gpa (abs m) !! (dg, page da)) as [x|] eqn:Ed;
    [intros [= <- <- <-]; by eauto|].
  destruct (unmap m sg (page sa)) as [[m1 [f|e]] ev1] eqn:Eu;
    apply unmap_spec in Eu; try done; rewrite page_idem in Eu by done.
  2:{ destruct e; try done. destruct Eu as (? & -> & ->). by intros [= <- <- <-]. }
  destruct Eu as (Hwf1 & (e & Hk & Hf & Hp) & Hlk & Hlen & ->).
  assert (abs m1 = Ghost.ghost_unmap (abs m) sg (page sa)) as Ha1.
  { rewrite (abs_uncons m m1 e Hwf Hwf1 Hp). by apply pair_equal_spec in Hk as [-> ->]. }
  assert (free_at m1 dg (page da) f) as Hfree.
  { unfold free_at. rewrite Ha1. unfold Ghost.ghost_unmap.
    rewrite (lookup_total_correct _ _ _ Hlk). cbn [Ghost.owned Ghost.by_gpa].
    rewrite lookup_delete_eq, lookup_delete_ne by congruence. done. }
  assert (len m1 < MAP_CAP)%nat as Hroom.
  { pose proof (length_omap_le (mappings m)). rewrite (wf_cap m Hwf) in *.
    pose proof (wf_len m Hwf). unfold entries in *. lia. }
  rewrite <- (page_idem da) in Hfree by done.
  destruct (map_Ok m1 dg (page da) f p) as [m2 E2]; [done|by apply page_u64|done..|].
  rewrite E2. intros [= <- <- <-].
  apply map_spec in E2 as (_ & _ & _ & Hwf2 & Hp2); [|done|by apply page_u64].
  rewrite page_idem in Hp2 by done.
  split; [done|]. split_and!; [|rewrite (abs_cons _ _ _ Hwf2 Hp2), Ha1; simpl|done|done].
  - unfold Ghost.transfer_enabled. simpl. split_and!; auto using page_aligned.
  - unfold Ghost.apply_transfer. cbn [Ghost.src_guest Ghost.src_gpa Ghost.dst_guest Ghost.dst_gpa].
    by rewrite (lookup_total_correct _ _ _ Hlk).
Qed.

(** *** Traces of registry calls *)

Inductive step : EptMap → EptMap → Prop :=
| step_map m m' g a f p r : u64 a → map m g a f p = (m', r) → step m m'
| step_unmap m m' g a r ev : unmap m g a = (m', r, ev) → step m m'
| step_violation m m' d r :
    (∀ g a f p, d = ClaimMap g a f p → u64 a) →
    apply_violation_disposition m d = (m', r) → step m m'
| step_transfer m m' sg sa dg da p r ev : u64 sa → u64 da →
    transfer_page m sg sa dg da p = (m', r, ev) → step m m'.

Inductive reachable : EptMap → Prop :=
| reach_new : reachable new
| reach_step m m' : reachable m → step m m' → reachable m'.

Lemma map_wf m g a f p : wf m → u64 a → wf (map m g a f p).1.
Proof.
  intros Hwf Ha. destruct (map m g a f p) as [m' r] eqn:E.
  apply map_spec in E; [|done..]. destruct r as [|[]]; naive_solver.
Qed.

Lemma unmap_wf m g a : wf m → wf (unmap m g a).1.1.
Proof.
  intros Hwf. destruct (unmap m g a) as [[m' r] ev] eqn:E.
  apply unmap_spec in E; [|done]. destruct r as [|[]]; naive_solver.
Qed.

Lemma registry_step_wf m m' : wf m → step m m' → wf m'.
Proof.
  intros Hwf Hst.
  inversion Hst as [? ? g a f p r Ha E|? ? g a r ev E|? ? d r Hd E|? ? ? ? ? ? ? ? ? Hs Hd E]; subst.
  - pose proof (map_wf m g a f p Hwf Ha) as H. by rewrite E in H.
  - pose proof (unmap_wf m g a Hwf) as H. by rewrite E in H.
  - destruct d as [| |g a f p]; simpl in E; simplify_eq; [done..|].
    pose proof (map_wf m g a f p Hwf (Hd _ _ _ _ eq_refl)) as H. by rewrite E in H.
  - by apply transfer_spec in E as [? _].
Qed.

Lemma registry_reachable_inv m : reachable m → wf m.
Proof. induction 1; [apply new_wf|by eapply registry_step_wf]. Qed.

(** *** The ownership self-test *)

Lemma map_fresh m g a f p l : wf m → u64 a → g ≠ 0 → entries m ≡ₚ l →
  (length l < MAP_CAP)%nat → f ∉ frame <$> l → (g, page a) ∉ key <$> l →
  ∃ m', map m g a f p = (m', Ok ()) ∧ wf m' ∧ entries m' ≡ₚ mkMapping g (page a) f p :: l.
Proof.
  intros Hwf Ha Hg Hp Hl Hf Hk. destruct (map_Ok m g a f p) as [m' E]; [done..| | |].
  - split; [apply abs_owned_None|apply abs_by_gpa_None]; by rewrite Hp.
  - rewrite (wf_len m Hwf). by rewrite Hp.
  - exists m'. split; [done|]. apply map_spec in E as (_ & _ & _ & Hwf' & Hp'); [|done..].
    split; [done|]. by rewrite Hp', Hp.
Qed.

Lemma map_taken m g a f p l : wf m → u64 a → g ≠ 0 → entries m ≡ₚ l → f ∈ frame <$> l →
  map m g a f p = (m, Err AlreadyOwned).
Proof.
  intros Hwf Ha Hg Hp Hf. assert (¬ free_at m g (page a) f) as Hno.
  { intros [Ho _]. apply abs_owned_None in Ho. by rewrite Hp in Ho. }
  destruct (map m g a f p) as [m' r] eqn:E. apply map_spec in E; [|done..].
  destruct r as [u|[]]; naive_solver.
Qed.

Lemma owner_of_elem m e : wf m → e ∈ entries m → owner_of m (frame e) = Some (guest_id e).
Proof. intros Hwf He. rewrite owner_of_abs by done. apply abs_owned; [done|]. by exists e. Qed.

Lemma page_frame a : u64 a → page a = Falloc.from_phys a * 4096.
Proof.
  intros Ha. unfold page, Falloc.from_phys. rewrite page_floor by done.
  by rewrite Z.shiftr_div_pow2 by lia.
Qed.

Lemma page_key_ne a b : u64 a → u64 b → Falloc.from_phys a ≠ Falloc.from_phys b →
  page a ≠ page b.
Proof. intros Ha Hb Hne. rewrite !page_frame by done. lia. Qed.

(** Membership and non-membership in an explicit list of entries. *)
Ltac not_in := unfold key; cbn [fmap list_fmap frame guest_id gpa];
  repeat (apply not_elem_of_cons; split); [congruence..|apply not_elem_of_nil].
Ltac is_in := unfold key; cbn [fmap list_fmap frame guest_id gpa]; rewrite !elem_of_cons; tauto.

#[local] Notation G := M2_BRINGUP_GUEST_ID.
#[local] Notation fr := Falloc.from_phys.

Lemma selftest_distinct c s i : u64 c → u64 s → u64 i →
  fr c ≠ fr s → fr c ≠ fr i → fr s ≠ fr i →
  run_ownership_selftest c s i = (Ok (), true).
Proof.
  intros Hc Hs Hi H1 H2 H3. pose proof (page_key_ne c s Hc Hs H1). pose proof (page_key_ne c i Hc Hi H2).
  pose proof (page_key_ne s i Hs Hi H3). unfold run_ownership_selftest.
  destruct (map_fresh new G c (fr c) READ_WRITE_EXECUTE []) as (m1 & -> & W1 & P1);
    [apply new_wf|done|done|done|simpl; unfold MAP_CAP; lia|not_in|not_in|].
  destruct (map_fresh m1 G s (fr s) READ_WRITE _ W1 Hs ltac:(done) P1) as (m2 & -> & W2 & P2);
    [simpl; unfold MAP_CAP; lia|not_in|not_in|].
  destruct (map_fresh m2 G i (fr i) READ_WRITE _ W2 Hi ltac:(done) P2) as (m3 & -> & W3 & P3);
    [simpl; unfold MAP_CAP; lia|not_in|not_in|].
  rewrite (map_taken m3 2 0x9000 (fr c) READ_WRITE _ W3 ltac:(mlia) ltac:(done) P3)
    by is_in.
  pose proof (λ e He, owner_of_elem m3 e W3 (proj2 (elem_of_Permutation_proper e _ _ P3) He)) as Ho.
  pose proof (Ho (mkMapping G (page c) (fr c) READ_WRITE_EXECUTE) ltac:(is_in)) as Oc.
  pose proof (Ho (mkMapping G (page s) (fr s) READ_WRITE) ltac:(is_in)) as Os.
  pose proof (Ho (mkMapping G (page i) (fr i) READ_WRITE) ltac:(is_in)) as Oi.
  simpl in Oc, Os, Oi. rewrite Oc, Os, Oi, !bool_decide_true by done.
  rewrite (wf_check m3 W3), (wf_len m3 W3), P3. cbn [negb orb length Nat.eqb].
  destruct (unmap m3 G s) as [[m4 [f|e]] ev] eqn:Eu; apply unmap_spec in Eu; try done.
  - destruct Eu as (W4 & (e & Hk & Hf & P4) & Hlk & Hlen & _).
    assert (f = fr s) as ->.
    { assert (Ghost.by_gpa (abs m3) !! (G, page s) = Some (fr s)); [|congruence].
      apply abs_by_gpa; [done|]. exists (mkMapping G (page s) (fr s) READ_WRITE).
      rewrite P3. split_and!; [is_in|done..]. }
    rewrite Z.eqb_refl. simpl negb.
    destruct (cons_free m3 m4 e W3 P4) as [F1 F2]. apply pair_equal_spec in Hk as [Hg Hga].
    rewrite Hf in F1. rewrite Hg, Hga in F2.
    destruct (map_Ok m4 G s (fr s) READ_WRITE W4 Hs ltac:(done) (conj F1 F2)) as [m5 E5].
    { pose proof (wf_len m3 W3) as L3. rewrite P3 in L3. simpl in L3. unfold MAP_CAP. lia. }
    rewrite E5. apply map_spec in E5 as (_ & _ & _ & W5 & _); [|done..].
    by rewrite (wf_check m5 W5).
  - exfalso. destruct e; try done. destruct Eu as (Hno & _).
    apply abs_by_gpa_None in Hno. apply Hno. rewrite P3. is_in.
Qed.

Lemma selftest_aliased c s i : u64 c → u64 s → u64 i →
  fr c = fr s ∨ fr c = fr i ∨ fr s = fr i →
  run_ownership_selftest c s i = (Err AlreadyOwned, false).
Proof.
  intros Hc Hs Hi Hd. unfold run_ownership_selftest.
  destruct (map_fresh new G c (fr c) READ_WRITE_EXECUTE []) as (m1 & -> & W1 & P1);
    [apply new_wf|done|done|done|simpl; unfold MAP_CAP; lia|not_in|not_in|].
  destruct (decide (fr c = fr s)) as [E|Hcs].
  { rewrite (map_taken m1 G s (fr s) READ_WRITE _ W1 Hs ltac:(done) P1); [done|].
    cbn [fmap list_fmap frame]. rewrite E. is_in. }
  pose proof (page_key_ne c s Hc Hs Hcs).
  destruct (map_fresh m1 G s (fr s) READ_WRITE _ W1 Hs ltac:(done) P1) as (m2 & -> & W2 & P2);
    [simpl; unfold MAP_CAP; lia|not_in|not_in|].
  rewrite (map_taken m2 G i (fr i) READ_WRITE _ W2 Hi ltac:(done) P2); [done|].
  cbn [fmap list_fmap frame]. rewrite !elem_of_cons.
  destruct Hd as [?|[?|?]]; [done|auto..].
Qed.

(** ** Theorems *)

(** C7: [EptMap::map] refines the ghost map on every branch. It succeeds
    exactly for a real guest whose (page-truncated) GPA and whose frame are both
    free, while a slot is left, and then performs the ghost map step. Guest 0
    is [InvalidGuest]; an owned frame or an occupied guest page is
    [AlreadyOwned]; a full registry is [Full]; and every error leaves the
    registry as it was. *)
Theorem map_refines m g a f p : wf m → u64 a →
  let '(m', r) := map m g a f p in
  let s := Ghost.Map g (page a) f in
  wf m' ∧
  (r = Ok () ↔ g ≠ 0 ∧ Ghost.step_enabled (abs m) s = true ∧ (len m < MAP_CAP)%nat) ∧
  (r = Err InvalidGuest ↔ g = 0) ∧
  (r = Err AlreadyOwned ↔ g ≠ 0 ∧ Ghost.step_enabled (abs m) s = false) ∧
  (r = Err Full ↔ g ≠ 0 ∧ Ghost.step_enabled (abs m) s = true ∧ len m = MAP_CAP) ∧
  abs m' = (if decide (r = Ok ()) then Ghost.apply_step (abs m) s else abs m) ∧
  (r ≠ Ok () → m' = m).
Proof.
  intros Hwf Ha. destruct (map m g a f p) as [m' r] eqn:E. apply map_spec in E; [|done..].
  assert (Ghost.step_enabled (abs m) (Ghost.Map g (page a) f) = true ↔ free_at m g (page a) f)
    as Hen by (simpl; by rewrite andb_true_iff, !bool_decide_eq_true).
  cbv zeta. rewrite <- not_true_iff_false, Hen.
  destruct r as [[]|[]]; try done.
  - destruct E as (Hg & Hf & Hl & Hwf' & Hp). rewrite decide_True by done.
    split_and!; try naive_solver lia. by rewrite (abs_cons m m' _ Hwf' Hp).
  - destruct E as (Hg & Hf & ->). rewrite decide_False by done. split_and!; naive_solver.
  - destruct E as (-> & ->). rewrite decide_False by done. split_and!; naive_solver.
  - destruct E as (Hg & Hf & Hl & ->). rewrite decide_False by done. split_and!; naive_solver lia.
Qed.

(** [EptMap::unmap] refines the ghost unmap: it succeeds exactly when the
    guest page is mapped, returns the frame that backed it, removes exactly that
    mapping and audits the release; otherwise it is [NotMapped] and nothing
    changes and nothing is audited. *)
Theorem unmap_refines m g a : wf m →
  let '(m', r, ev) := unmap m g a in
  wf m' ∧
  match Ghost.by_gpa (abs m) !! (g, page a) with
  | Some f => r = Ok f ∧ abs m' = Ghost.ghost_unmap (abs m) g (page a) ∧
              ev = [Audit.EptUnmapped g (page a) f]
  | None => r = Err NotMapped ∧ m' = m ∧ ev = []
  end.
Proof.
  intros Hwf. destruct (unmap m g a) as [[m' r] ev] eqn:E. apply unmap_spec in E; [|done].
  destruct r as [f|[]]; try done.
  - destruct E as (Hwf' & (e & Hk & _ & Hp) & -> & _ & ->). split_and!; try done.
    rewrite (abs_uncons m m' e Hwf Hwf' Hp).
    by apply pair_equal_spec in Hk as [-> ->].
  - by destruct E as (-> & -> & ->).
Qed.

(** A claim is undone by its release, exactly: after a successful [map] of
    a page, [unmap] of the same page returns the frame and gives back the
    registry as it was, slot for slot. *)
Theorem map_unmap_roundtrip m g a f p m' : wf m → u64 a →
  map m g a f p = (m', Ok ()) →
  unmap m' g a = (m, Ok f, [Audit.EptUnmapped g (page a) f]).
Proof.
  intros Hwf Ha E. pose proof (map_spec _ _ _ _ _ _ _ Hwf Ha E) as (Hg & Hfree & _).
  revert E. unfold map, unmap. fold (page a). rewrite (proj2 (Z.eqb_neq g 0)) by done.
  pose proof (proj2 (conflict_free m g (page a) f) Hfree) as Hcf. rewrite Hcf.
  destruct (find_index is_none (mappings m)) as [i|] eqn:Ei; [|done]. intros [= <-]. simpl.
  apply find_index_Some in Ei as ([|] & Hi & Hn & _); [done|].
  pose proof (lookup_lt_Some _ _ _ Hi) as Hlt.
  assert (find_index (at_gpa g (page a))
    (<[i := Some (mkMapping g (page a) f p)]> (mappings m)) = Some i) as ->.
  { rewrite insert_take_drop by done. apply find_index_app_here.
    - intros o [k [Hk _]%lookup_take_Some]%list_elem_of_lookup.
      rewrite <- not_true_iff_false, existsb_exists in Hcf.
      destruct (at_gpa g (page a) o) eqn:Eo; [|done]. destruct Hcf. exists o.
      split; [apply list_elem_of_In; by eapply list_elem_of_lookup_2|].
      destruct o as [e|]; [|done]. simpl in *. by rewrite Eo, orb_true_r.
    - simpl. by rewrite !Z.eqb_refl.
    - rewrite length_take. lia. }
  rewrite list_lookup_insert_eq by done. simpl.
  rewrite list_insert_insert_eq, list_insert_id by done. rewrite Nat.sub_0_r. by destruct m.
Qed.

(** [owner_of] and [owner_of_gpa] answer the ghost ownership maps. *)
Theorem owner_queries_exact m f g a : wf m →
  owner_of m f = Ghost.owned (abs m) !! f ∧
  owner_of_gpa m g a = Ghost.by_gpa (abs m) !! (g, page a).
Proof. intros Hwf. split; [by apply owner_of_abs|by apply owner_of_gpa_abs]. Qed.

(** The ADR-004 structural check is exact: [check_invariants] answers true
    iff no two occupied slots share a frame, no two share a (guest, GPA) pair,
    and [len] is the number of occupied slots. *)
Theorem check_invariants_exact m : check_invariants m = true ↔
  (∀ i j x y, mappings m !! i = Some (Some x) → mappings m !! j = Some (Some y) →
     i ≠ j → frame x ≠ frame y ∧ (guest_id x, gpa x) ≠ (guest_id y, gpa y)) ∧
  len m = length (entries m).
Proof.
  rewrite check_invariants_spec. unfold entries. rewrite <- !slots_distinct. fold (entries m). split.
  - intros (Hf & Hk & Hl). split; [|done]. intros i j x y Hi Hj Hne.
    split; intros E; destruct Hne; [by eapply Hf|by eapply Hk].
  - intros [Hall Hl]. split_and!; [..|done]; intros i j x y Hi Hj E;
      destruct (decide (i = j)) as [|Hne]; try done; destruct (Hall i j x y Hi Hj Hne); done.
Qed.

(** C12: ADR-004 holds in every registry the hypervisor can reach. After any
    sequence of maps, unmaps, EPT-violation dispositions and page transfers,
    successful or refused, the abstract ownership is exclusive (no frame backs
    two guest pages, and the frame and page views agree) and the runtime check
    passes. *)
Theorem reachable_exclusive m : reachable m →
  Ghost.exclusive_ownership (abs m) ∧ check_invariants m = true ∧
  (len m ≤ MAP_CAP)%nat ∧
  ∀ f g g', Ghost.owned (abs m) !! f = Some g → Ghost.owned (abs m) !! f = Some g' → g = g'.
Proof.
  intros Hwf%registry_reachable_inv. split_and!; [by apply wf_exclusive|by apply wf_check| |congruence].
  rewrite (wf_len m Hwf), <- (wf_cap m Hwf). apply length_omap_le.
Qed.

(** [transfer_page] refines the ghost transfer and is fail-closed. It
    succeeds exactly when the ghost transfer is enabled, moving the frame from
    the source guest's page to the destination's in one step; every error
    leaves the registry unchanged and audits nothing, so the restore path of the
    code is never needed. *)
Theorem transfer_page_refines m sg sa dg da p : wf m → u64 sa → u64 da →
  let t := Ghost.mkTransfer sg (page sa) dg (page da) in
  let '(m', r, ev) := transfer_page m sg sa dg da p in
  wf m' ∧ (is_ok r = true ↔ Ghost.transfer_enabled (abs m) t) ∧
  match r with
  | Ok f => abs m' = Ghost.apply_transfer (abs m) t ∧
      Ghost.by_gpa (abs m) !! (sg, page sa) = Some f ∧
      ev = [Audit.EptUnmapped sg (page sa) f]
  | Err _ => m' = m ∧ ev = []
  end.
Proof.
  intros Hwf Hsa Hda t. destruct (transfer_page m sg sa dg da p) as [[m' r] ev] eqn:E.
  apply transfer_spec in E as [Hwf' E]; [|done..]. fold t in E.
  assert (∀ P, (P → ¬ Ghost.transfer_enabled (abs m) t) → P →
    (false = true ↔ Ghost.transfer_enabled (abs m) t)) as Hnot
    by (intros P Hn HP; split; [done|]; intros Ht; by destruct (Hn HP)).
  split; [done|]. destruct r as [f|[]]; try done; simpl is_ok.
  - destruct E as (? & ? & ? & ?). by split_and!.
  - destruct E as (Hs & -> & ->). split; [|done]. eapply Hnot; [|exact Hs].
    intros [x Hx] (_ & _ & _ & _ & _ & _ & Hn).
    change (Ghost.by_gpa (abs m) !! (dg, page da) = None) in Hn. congruence.
  - destruct E as (Hs & -> & ->). split; [|done]. eapply Hnot; [|exact Hs].
    intros Hn (_ & _ & _ & _ & _ & [x Hx] & _).
    change (Ghost.by_gpa (abs m) !! (sg, page sa) = Some x) in Hx. congruence.
  - destruct E as (Hs & -> & ->). split; [|done]. eapply Hnot; [|exact Hs].
    intros Hn (? & ? & ? & _). simpl in *. naive_solver.
Qed.

(** An EPT violation that is emulated or rejected leaves the registry as it
    was; a demand claim is the exclusive [map], so no disposition gives away a
    frame that is already owned. *)
Theorem violation_keeps_owners m d f g : wf m →
  (∀ g a f p, d = ClaimMap g a f p → u64 a) →
  let '(m', r) := apply_violation_disposition m d in
  wf m' ∧ (Ghost.owned (abs m) !! f = Some g → Ghost.owned (abs m') !! f = Some g) ∧
  ((∀ g a f p, d ≠ ClaimMap g a f p) → m' = m ∧ r = Ok ()).
Proof.
  intros Hwf Hd.
  destruct d as [| |g' a f' p]; cbn [apply_violation_disposition]; [by split_and!..|].
  pose proof (map_wf m g' a f' p Hwf (Hd _ _ _ _ eq_refl)) as Hwf'.
  destruct (map m g' a f' p) as [m' r] eqn:E. simpl in Hwf'.
  split_and!; [done| |intros Hno; by destruct (Hno g' a f' p)]. intros Ho.
  apply map_spec in E; [|by eauto..].
  destruct r as [[]|[]]; try done; [|by destruct E as (_ & _ & ->)|by destruct E as (_ & ->)
    |by destruct E as (_ & _ & _ & ->)].
  destruct E as (_ & [Hf _] & _ & _ & Hp). rewrite (abs_cons m m' _ Hwf' Hp).
  cbn [Ghost.ghost_map Ghost.owned frame]. rewrite lookup_insert_ne; [done|].
  intros ->. congruence.
Qed.

(** The boot ownership self-test passes, and latches its flag, exactly when
    the code, stack and IDT pages of the bring-up guest are three distinct
    frames; otherwise it reports [AlreadyOwned]. *)
Theorem ownership_selftest_exact c s i : u64 c → u64 s → u64 i →
  run_ownership_selftest c s i =
    if decide (NoDup [Falloc.from_phys c; Falloc.from_phys s; Falloc.from_phys i])
    then (Ok (), true) else (Err AlreadyOwned, false).
Proof.
  intros Hc Hs Hi. destruct (decide _) as [Hnd|Hnd].
  - apply NoDup_cons in Hnd as [H1 Hnd]. apply NoDup_cons in Hnd as [H2 _].
    apply selftest_distinct; [done..| | |]; intros E.
    + apply H1. rewrite E. is_in.
    + apply H1. rewrite E. is_in.
    + apply H2. rewrite E. is_in.
  - apply selftest_aliased; [done..|].
    destruct (decide (Falloc.from_phys c = Falloc.from_phys s)) as [|N1]; [tauto|].
    destruct (decide (Falloc.from_phys c = Falloc.from_phys i)) as [|N2]; [tauto|].
    destruct (decide (Falloc.from_phys s = Falloc.from_phys i)) as [|N3]; [tauto|].
    destruct Hnd. apply NoDup_cons; split; [not_in|].
    apply NoDup_cons; split; [not_in|apply NoDup_singleton].
Qed.

Lemma source_props_hold :
  prop_page_transfer_preserves_exclusive = true ∧ prop_violation_preserves_exclusive = true.
Proof. split; vm_compute; reflexivity. Qed.

(** ** Witnesses *)

Definition demo : EptMap := (map new 1 0x1234 60 READ_WRITE).1.

Lemma registry_demo_reachable : reachable demo.
Proof.
  apply (reach_step new); [constructor|].
  apply (step_map _ _ 1 0x1234 60 READ_WRITE (Ok ())); [mlia|reflexivity].
Qed.

Lemma map_refines_witness :
  (map new 1 0x1234 60 READ_WRITE).2 = Ok () ∧ wf (map new 1 0x1234 60 READ_WRITE).1 ∧
  (map demo 2 0x8000 60 READ_WRITE).2 = Err AlreadyOwned.
Proof.
  split_and!; [reflexivity| |reflexivity].
  exact (proj1 (map_refines new 1 0x1234 60 READ_WRITE new_wf ltac:(mlia))).
Defined.

Lemma unmap_refines_witness : (unmap demo 1 0x1000).1.2 = Ok 60 ∧ wf (unmap demo 1 0x1000).1.1.
Proof.
  split; [reflexivity|].
  exact (proj1 (unmap_refines demo 1 0x1000 (registry_reachable_inv _ registry_demo_reachable))).
Defined.

Lemma map_unmap_roundtrip_witness :
  unmap demo 1 0x1234 = (new, Ok 60, [Audit.EptUnmapped 1 0x1000 60]).
Proof.
  apply (map_unmap_roundtrip new 1 0x1234 60 READ_WRITE demo);
    [apply new_wf|mlia|vm_compute; reflexivity].
Defined.

Lemma owner_queries_exact_witness : Ghost.owned (abs demo) !! 60 = Some 1.
Proof.
  symmetry.
  exact (proj1 (owner_queries_exact demo 60 1 0 (registry_reachable_inv _ registry_demo_reachable))).
Defined.

Lemma reachable_exclusive_witness : Ghost.exclusive_ownership (abs demo).
Proof. exact (proj1 (reachable_exclusive demo registry_demo_reachable)). Defined.

Lemma transfer_page_refines_witness :
  (transfer_page demo 1 0x1000 2 0x5000 READ_WRITE).1.2 = Ok 60 ∧
  Ghost.transfer_enabled (abs demo) (Ghost.mkTransfer 1 (page 0x1000) 2 (page 0x5000)).
Proof.
  pose proof (transfer_page_refines demo 1 0x1000 2 0x5000 READ_WRITE
    (registry_reachable_inv _ registry_demo_reachable) ltac:(mlia) ltac:(mlia)) as H.
  assert ((transfer_page demo 1 0x1000 2 0x5000 READ_WRITE).1.2 = Ok 60) as E
    by (vm_compute; reflexivity).
  split; [exact E|].
  destruct (transfer_page demo 1 0x1000 2 0x5000 READ_WRITE) as [[m' r] ev].
  cbn in E. subst r. exact (proj1 (proj1 (proj2 H)) eq_refl).
Defined.

Lemma violation_keeps_owners_witness :
  Ghost.owned (abs (apply_violation_disposition demo (ClaimMap 2 0x8000 60 READ_WRITE)).1) !! 60
  = Some 1.
Proof.
  refine (proj1 (proj2 (violation_keeps_owners demo (ClaimMap 2 0x8000 60 READ_WRITE) 60 1
    (registry_reachable_inv _ registry_demo_reachable) _)) _).
  - intros g a f p [= <- <- <- <-]. mlia.
  - reflexivity.
Defined.

Lemma ownership_selftest_exact_witness :
  run_ownership_selftest 0x1000 0x2000 0x3000 = (Ok (), true).
Proof.
  rewrite (ownership_selftest_exact 0x1000 0x2000 0x3000) by mlia.
  apply decide_True. vm_compute. repeat constructor; intros H; repeat (inversion H; subst; clear H;
    rename select (_ ∈ _) into H); inversion H.
Defined.

End Registry.
