(* ===== verification/EptRange.v ===== *)
(** * Identity range registry ([memory/ept.rs], range part)

    The registry of identity spans claimed for the precise EPT window, and the
    boot-time split of that window between the bring-up guest G0 and the
    private slabs of the shell guests. *)

From S2P Require Import Prelude EptMap.
From Stdlib Require Import Sorted.
Import Registry.

Module Ranges.

Definition RANGE_CAP : nat := 16.
Definition PRECISE_BYTES : Z := 536870912.
Definition GUEST_RAM_BYTES : Z := 268435456.
Definition DEFAULT_APIC_PHYS : Z := 0xFEE00000.

Record EptRange := mkRange { r_guest : Z; r_gpa : Z; r_len : Z }.

(** [rlen] counts slots of an array of 16, so it is a [nat]. *)
Record EptRangeMap := mkRM { ranges : list (option EptRange); rlen : nat }.

Definition rm_new : EptRangeMap := mkRM (replicate RANGE_CAP None) 0.

Definition overlaps (a end_ : Z) (o : option EptRange) : bool :=
  match o with
  | Some r => (a <? r_gpa r ⊞ r_len r) && (r_gpa r <? end_)
  | None => false
  end.

Definition claim_range (m : EptRangeMap) (g a l : Z) : EptRangeMap * result unit EptError :=
  if g =? 0 then (m, Err InvalidGuest)
  else if (l =? 0) || negb (Z.land a 4095 =? 0) || negb (Z.land l 4095 =? 0)
  then (m, Err Invariant)
  else match checked_add64 a l with
       | None => (m, Err Invariant)
       | Some end_ =>
           if existsb (overlaps a end_) (ranges m) then (m, Err AlreadyOwned)
           else match find_index is_none (ranges m) with
                | Some i => (mkRM (<[i := Some (mkRange g a l)]> (ranges m)) (S (rlen m)), Ok ())
                | None => (m, Err Full)
                end
       end.

Definition contains_gpa (m : EptRangeMap) (g a : Z) : bool :=
  existsb (λ o, match o with
                | Some r => (r_guest r =? g) && (r_gpa r <=? a) && (a <? r_gpa r ⊞ r_len r)
                | None => false
                end) (ranges m).

(** A hole is [(hpa, len, guest_id)]. *)
Notation Hole := (Z * Z * Z)%type.

Definition hpa_of (h : Hole) : Z := h.1.1.

(** The inner [while] of the insertion sort: sift the element at [j] down. *)
Fixpoint sift (l : list Hole) (j : nat) : list Hole :=
  match j with
  | O => l
  | S j' =>
      match l !! j, l !! j' with
      | Some x, Some y =>
          if hpa_of x <? hpa_of y then sift (<[j := y]> (<[j' := x]> l)) j' else l
      | _, _ => l
      end
  end.

Definition insertion_sort (l : list Hole) (n : nat) : list Hole :=
  foldl sift l (seq 1 (n - 1)).

(** The statics [PRECISE_RANGES] and [PRECISE_RANGES_OK]. *)
Record Precise := mkPrecise { pranges : EptRangeMap; pok : bool }.

Definition checked_claim (m : EptRangeMap) (go : bool) (g a l : Z)
    : EptRangeMap * result unit EptError :=
  if go then claim_range m g a l else (m, Ok ()).

(** The loop over the sorted holes; the result carries the final cursor. *)
Fixpoint claim_holes (m : EptRangeMap) (cursor : Z) (hs : list Hole)
    : EptRangeMap * result Z EptError :=
  match hs with
  | [] => (m, Ok cursor)
  | (hpa, len, gid) :: rest =>
      if (len =? 0) || negb (Z.land hpa 4095 =? 0) || negb (Z.land len 4095 =? 0)
      then (m, Err Invariant)
      else if (gid =? 0) || (gid =? M2_BRINGUP_GUEST_ID) then (m, Err InvalidGuest)
      else match checked_add64 hpa len with
      | None => (m, Err Invariant)
      | Some end_ =>
          if (PRECISE_BYTES <? end_) || (hpa <? cursor) then (m, Err Invariant)
          else if hpa <? GUEST_RAM_BYTES then (m, Err Invariant)
          else match checked_claim m (cursor <? hpa) M2_BRINGUP_GUEST_ID cursor (hpa ⊟ cursor) with
          | (m1, Err e) => (m1, Err e)
          | (m1, Ok _) =>
              match claim_range m1 gid hpa len with
              | (m2, Err e) => (m2, Err e)
              | (m2, Ok _) => claim_holes m2 end_ rest
              end
          end
      end
  end.

(** The re-check loop after the claims. *)
Definition holes_private (m : EptRangeMap) (hs : list Hole) : bool :=
  forallb (λ h, contains_gpa m h.2 (hpa_of h)
                && negb (contains_gpa m M2_BRINGUP_GUEST_ID (hpa_of h))) hs.

Definition claim_precise_with_shell_holes (st : Precise) (holes : list Hole)
    : Precise * result unit EptError :=
  let st := mkPrecise rm_new (pok st) in
  if (8 <? length holes)%nat then (st, Err Full)
  else
    let n := length holes in
    let ordered := insertion_sort (holes ++ replicate (8 - n) (0, 0, 0)) n in
    let guest_ram := GUEST_RAM_BYTES in
    if PRECISE_BYTES <? guest_ram then (st, Err Invariant)
    else match claim_holes (pranges st) 0 (take n ordered) with
    | (m, Err e) => (mkPrecise m (pok st), Err e)
    | (m, Ok cursor) =>
        match (if cursor <? PRECISE_BYTES
               then claim_range m M2_BRINGUP_GUEST_ID cursor (PRECISE_BYTES ⊟ cursor)
               else checked_claim m (n =? 0)%nat M2_BRINGUP_GUEST_ID 0 PRECISE_BYTES) with
        | (m, Err e) => (mkPrecise m (pok st), Err e)
        | (m, Ok _) =>
            let st := mkPrecise m (pok st) in
            if negb (contains_gpa m M2_BRINGUP_GUEST_ID 0)
               || negb (contains_gpa m M2_BRINGUP_GUEST_ID (guest_ram ⊟ 0x1000))
            then (st, Err Invariant)
            else if negb (holes_private m (take n ordered)) then (st, Err Invariant)
            else if DEFAULT_APIC_PHYS <? PRECISE_BYTES then (st, Err Invariant)
            else if Z.shiftl 1 30 <=? PRECISE_BYTES then (st, Err Invariant)
            else (mkPrecise m true, Ok ())
        end
    end.

Definition claim_precise_with_guest1_hole (st : Precise) (g1_hpa g1_len : Z)
    : Precise * result unit EptError :=
  if g1_len =? 0 then claim_precise_with_shell_holes st []
  else claim_precise_with_shell_holes st [(g1_hpa, g1_len, M4_GUEST1_ID)].

Definition claim_precise_identity_ranges (st : Precise) : Precise * result unit EptError :=
  claim_precise_with_guest1_hole st 0 0.

(** ** The registry as the list of its claims *)

Definition rm_of (rs : list EptRange) : EptRangeMap :=
  mkRM ((Some <$> rs) ++ replicate (RANGE_CAP - length rs) None) (length rs).

Definition in_range (r : EptRange) (a : Z) : Prop := r_gpa r ≤ a < r_gpa r + r_len r.

(** A claim that the registry accepts has these arguments. *)
Record valid_range (r : EptRange) : Prop := {
  vr_guest : r_guest r ≠ 0;
  vr_gpa : 0 ≤ r_gpa r ∧ r_gpa r mod 4096 = 0;
  vr_len : 0 < r_len r ∧ r_len r mod 4096 = 0;
  vr_end : r_gpa r + r_len r < W64;
}.

Definition disjoint_ranges (r r' : EptRange) : Prop :=
  r_gpa r + r_len r ≤ r_gpa r' ∨ r_gpa r' + r_len r' ≤ r_gpa r.

Lemma range_end r : valid_range r → r_gpa r ⊞ r_len r = r_gpa r + r_len r.
Proof. intros []. apply add64_small; lia. Qed.

Lemma existsb_rm_of f rs : f None = false →
  existsb f (ranges (rm_of rs)) = existsb (λ r, f (Some r)) rs.
Proof.
  intros Hf. simpl. rewrite existsb_app.
  assert (∀ n, existsb f (replicate n None) = false) as ->.
  { induction n; simpl; [done|]. by rewrite Hf. }
  rewrite orb_false_r. induction rs as [|r rs IH]; csimpl; [done|]. by rewrite IH.
Qed.

Lemma find_none_rm_of rs : (length rs < RANGE_CAP)%nat →
  find_index is_none (ranges (rm_of rs)) = Some (length rs).
Proof.
  intros Hl. simpl. destruct (RANGE_CAP - length rs)%nat eqn:E; [lia|]. simpl.
  apply find_index_app_here; [|done|by rewrite length_fmap].
  intros o (r & -> & _)%list_elem_of_fmap. done.
Qed.

Lemma find_none_full rs : length rs = RANGE_CAP →
  find_index is_none (ranges (rm_of rs)) = None.
Proof.
  intros Hl. apply find_index_None. intros o. simpl. rewrite Hl, Nat.sub_diag, app_nil_r.
  intros (r & -> & _)%list_elem_of_fmap. done.
Qed.

Lemma rm_of_snoc rs r : (length rs < RANGE_CAP)%nat →
  mkRM (<[length rs := Some r]> (ranges (rm_of rs))) (S (length rs)) = rm_of (rs ++ [r]).
Proof.
  intros Hl. unfold rm_of. simpl. rewrite length_app. simpl. f_equal; [|lia].
  rewrite insert_app_r_alt by (rewrite length_fmap; lia).
  rewrite length_fmap, Nat.sub_diag, fmap_app, <- app_assoc. f_equal.
  replace (RANGE_CAP - length rs)%nat with (S (RANGE_CAP - (length rs + 1)))%nat by lia. done.
Qed.

(** [claim_range] on every branch. *)
Lemma claim_range_spec rs r : Forall valid_range rs → (length rs ≤ RANGE_CAP)%nat →
  u64 (r_gpa r) → u64 (r_len r) →
  claim_range (rm_of rs) (r_guest r) (r_gpa r) (r_len r) =
    if decide (r_guest r = 0) then (rm_of rs, Err InvalidGuest)
    else if negb (bool_decide (0 < r_len r ∧ r_gpa r mod 4096 = 0 ∧ r_len r mod 4096 = 0
                               ∧ r_gpa r + r_len r < W64))
    then (rm_of rs, Err Invariant)
    else if existsb (λ x, (r_gpa r <? r_gpa x + r_len x) && (r_gpa x <? r_gpa r + r_len r)) rs
    then (rm_of rs, Err AlreadyOwned)
    else if (length rs <? RANGE_CAP)%nat then (rm_of (rs ++ [r]), Ok ())
    else (rm_of rs, Err Full).
Proof.
  intros Hrs Hl Ha Hlen. unfold claim_range.
  destruct (Z.eqb_spec (r_guest r) 0) as [E|E];
    [by rewrite decide_True by done|rewrite decide_False by done].
  rewrite !land_page. destruct (bool_decide_reflect (0 < r_len r ∧ r_gpa r mod 4096 = 0 ∧
    r_len r mod 4096 = 0 ∧ r_gpa r + r_len r < W64)) as [(H1 & H2 & H3 & H4)|Hno]; simpl negb.
  - rewrite (proj2 (Z.eqb_neq _ _)), H2, H3 by lia. simpl orb.
    rewrite (proj2 (checked_add64_Some _ _ (r_gpa r + r_len r))) by done.
    rewrite existsb_rm_of by done. cbn [overlaps].
    assert (existsb (λ x, (r_gpa r <? r_gpa x ⊞ r_len x) && (r_gpa x <? r_gpa r + r_len r)) rs
      = existsb (λ x, (r_gpa r <? r_gpa x + r_len x) && (r_gpa x <? r_gpa r + r_len r)) rs) as ->.
    { clear Hl. induction Hrs as [|x rs Hx Hrs IH]; simpl; [done|].
      by rewrite (range_end x Hx), IH. }
    destruct (existsb _ rs); [done|]. destruct (Nat.ltb_spec (length rs) RANGE_CAP) as [Hlt|Hge].
    + rewrite find_none_rm_of by done. rewrite <- rm_of_snoc by done. by destruct r.
    + by rewrite find_none_full by lia.
  - destruct ((r_len r =? 0) || negb (r_gpa r mod 4096 =? 0) || negb (r_len r mod 4096 =? 0)) eqn:Eb;
      [done|].
    apply orb_false_iff in Eb as [[E1%Z.eqb_neq E2%negb_false_iff%Z.eqb_eq]%orb_false_iff
      E3%negb_false_iff%Z.eqb_eq].
    rewrite (proj2 (checked_add64_None _ _)); [done|]. mach_unfold. lia.
Qed.

(** ** The plan: the claims a valid list of holes produces *)

Definition hole_ok (h : Hole) : Prop :=
  let '(hpa, len, gid) := h in
  0 < len ∧ hpa mod 4096 = 0 ∧ len mod 4096 = 0 ∧ gid ≠ 0 ∧ gid ≠ M2_BRINGUP_GUEST_ID ∧
  hpa + len ≤ PRECISE_BYTES ∧ GUEST_RAM_BYTES ≤ hpa.

#[global] Instance hole_ok_dec h : Decision (hole_ok h).
Proof. destruct h as [[hpa len] gid]. unfold hole_ok. apply _. Defined.

Definition hole_u64 (h : Hole) : Prop := u64 h.1.1 ∧ u64 h.1.2.

Definition hole_end (h : Hole) : Z := h.1.1 + h.1.2.

Definition in_hole (h : Hole) (a : Z) : Prop := hpa_of h ≤ a < hole_end h.

Fixpoint valid_from (cursor : Z) (hs : list Hole) : Prop :=
  match hs with
  | [] => True
  | h :: rest => hole_ok h ∧ cursor ≤ hpa_of h ∧ valid_from (hole_end h) rest
  end.

Definition gap (a b : Z) : list EptRange :=
  if a <? b then [mkRange M2_BRINGUP_GUEST_ID a (b - a)] else [].

Definition hole_range (h : Hole) : EptRange := mkRange h.2 h.1.1 h.1.2.

Fixpoint segs (cursor : Z) (hs : list Hole) : list EptRange :=
  match hs with
  | [] => []
  | h :: rest => gap cursor (hpa_of h) ++ hole_range h :: segs (hole_end h) rest
  end.

Fixpoint last_end (cursor : Z) (hs : list Hole) : Z :=
  match hs with [] => cursor | h :: rest => last_end (hole_end h) rest end.

(** The claims so far are valid and end at the cursor or before. *)
Record below (cursor : Z) (rs : list EptRange) : Prop := {
  bl_valid : Forall valid_range rs;
  bl_end : Forall (λ x, r_gpa x + r_len x ≤ cursor) rs;
  bl_cap : (length rs ≤ RANGE_CAP)%nat;
  bl_cursor : 0 ≤ cursor ≤ PRECISE_BYTES ∧ cursor mod 4096 = 0;
}.

Ltac rg_lia := unfold PRECISE_BYTES, GUEST_RAM_BYTES, M2_BRINGUP_GUEST_ID, RANGE_CAP in *; mlia.

(** A valid claim above everything claimed so far fails only for want of a
    slot. *)
Lemma claim_above rs cursor r : below cursor rs → valid_range r → cursor ≤ r_gpa r →
  claim_range (rm_of rs) (r_guest r) (r_gpa r) (r_len r) =
    if (length rs <? RANGE_CAP)%nat then (rm_of (rs ++ [r]), Ok ()) else (rm_of rs, Err Full).
Proof.
  intros [Hv He Hl _] Hr Hc. pose proof Hr as [Hg [Ha Ha'] [Hlen Hlen'] Hend].
  rewrite claim_range_spec by (done || mlia). rewrite decide_False by done.
  rewrite bool_decide_true by done. simpl negb.
  assert (existsb (λ x, (r_gpa r <? r_gpa x + r_len x) && (r_gpa x <? r_gpa r + r_len r)) rs
    = false) as ->; [|done].
  clear Hv Hl. induction He as [|x rs Hx He IH]; simpl; [done|].
  rewrite IH, (proj2 (Z.ltb_ge _ _)) by lia. done.
Qed.

Lemma below_snoc cursor rs r c' : below cursor rs → valid_range r →
  (length rs < RANGE_CAP)%nat → cursor ≤ c' → r_gpa r + r_len r ≤ c' →
  c' ≤ PRECISE_BYTES → c' mod 4096 = 0 → below c' (rs ++ [r]).
Proof.
  intros [Hv He Hl Hcur] Hr Hlt H1 H2 H3 H4. constructor.
  - apply Forall_app. by split; [|constructor].
  - apply Forall_app. split; [|by constructor].
    eapply Forall_impl; [exact He|]. simpl. lia.
  - rewrite length_app. simpl. lia.
  - split; [lia|done].
Qed.

Lemma hole_range_valid h : hole_ok h → 0 ≤ hpa_of h → valid_range (hole_range h).
Proof.
  destruct h as [[a l] g]. intros (H1 & H2 & H3 & H4 & H5 & H6 & H7) H0.
  constructor; simpl in *; (done || rg_lia).
Qed.

Lemma claim_gap rs cursor b : below cursor rs → cursor ≤ b → b ≤ PRECISE_BYTES → b mod 4096 = 0 →
  checked_claim (rm_of rs) (cursor <? b) M2_BRINGUP_GUEST_ID cursor (b ⊟ cursor) =
    if (length rs + length (gap cursor b) <=? RANGE_CAP)%nat
    then (rm_of (rs ++ gap cursor b), Ok ()) else (rm_of rs, Err Full).
Proof.
  intros Hb Hle Hp Hmod. pose proof Hb as [_ _ Hl [Hc Hcm]]. unfold checked_claim, gap.
  destruct (Z.ltb_spec cursor b) as [Hlt|Hge].
  - rewrite sub64_small by rg_lia. set (r := mkRange M2_BRINGUP_GUEST_ID cursor (b - cursor)).
    pose proof (claim_above rs cursor r Hb) as E. simpl in E. rewrite E; [| |lia].
    + simpl. destruct (Nat.ltb_spec (length rs) RANGE_CAP), (Nat.leb_spec (length rs + 1) RANGE_CAP);
        try done; lia.
    + constructor; simpl; [done|split; [lia|done]| |rg_lia]. split; [lia|].
      rewrite Zminus_mod, Hmod, Hcm. done.
  - simpl. rewrite Nat.add_0_r, app_nil_r, (proj2 (Nat.leb_le _ _)) by done. done.
Qed.

Lemma below_gap rs cursor b : below cursor rs → cursor ≤ b → b ≤ PRECISE_BYTES → b mod 4096 = 0 →
  (length rs + length (gap cursor b) ≤ RANGE_CAP)%nat → below b (rs ++ gap cursor b).
Proof.
  intros Hb Hle Hp Hmod Hlen. pose proof Hb as [Hv He Hl [Hc Hcm]]. unfold gap in *.
  destruct (Z.ltb_spec cursor b) as [Hlt|Hge]; simpl in *.
  - apply (below_snoc cursor); [done| |lia|lia|simpl; lia|done|done].
    constructor; simpl; [done|split; [lia|done]| |rg_lia]. split; [lia|]. by rewrite Zminus_mod, Hmod, Hcm.
  - rewrite app_nil_r. constructor; [done| |done|split; [lia|done]].
    eapply Forall_impl; [exact He|]. simpl. lia.
Qed.

(** The checks of the loop body, in the order of the code. *)
Lemma hole_checks hpa len gid cursor : u64 hpa → u64 len →
  hole_ok (hpa, len, gid) ∧ cursor ≤ hpa ↔
  (len =? 0) || negb (Z.land hpa 4095 =? 0) || negb (Z.land len 4095 =? 0) = false ∧
  (gid =? 0) || (gid =? M2_BRINGUP_GUEST_ID) = false ∧
  checked_add64 hpa len = Some (hpa + len) ∧
  (PRECISE_BYTES <? hpa + len) || (hpa <? cursor) = false ∧ (hpa <? GUEST_RAM_BYTES) = false.
Proof.
  intros Hh Hl. rewrite !land_page, !orb_false_iff, !negb_false_iff, checked_add64_Some.
  rewrite !Z.eqb_eq, !Z.eqb_neq, !Z.ltb_ge. unfold hole_ok. split.
  - intros [(H1 & H2 & H3 & H4 & H5 & H6 & H7) H8]. split_and!; (done || rg_lia).
  - intros ([[H1 H2] H3] & [H4 H5] & [_ H6] & [H7 H8] & H9). split_and!; (done || rg_lia).
Qed.

(** One round of the loop on an acceptable hole. *)
Lemma claim_hole_step rs cursor h m r rest : below cursor rs → hole_u64 h →
  hole_ok h → cursor ≤ hpa_of h →
  claim_holes (rm_of rs) cursor (h :: rest) = (m, r) →
  let rs' := rs ++ gap cursor (hpa_of h) ++ [hole_range h] in
  if (length rs' <=? RANGE_CAP)%nat
  then below (hole_end h) rs' ∧ claim_holes (rm_of rs') (hole_end h) rest = (m, r)
  else ∃ e, r = Err e.
Proof.
  destruct h as [[hpa len] gid]. intros Hb [Hu1 Hu2] Hok Hc. simpl in Hu1, Hu2, Hc.
  assert (hole_ok (hpa, len, gid) ∧ cursor ≤ hpa) as Hck by done.
  apply hole_checks in Hck as (C1 & C2 & C3 & C4 & C5); [|done..].
  cbn [claim_holes]. rewrite C1, C2, C3, C4, C5.
  pose proof Hok as (O1 & O2 & O3 & O4 & O5 & O6 & O7).
  rewrite (claim_gap rs cursor hpa) by (done || rg_lia).
  unfold hpa_of, hole_end. simpl fst. simpl snd. set (g := gap cursor hpa).
  rewrite !length_app. simpl length.
  destruct (Nat.leb_spec (length rs + length g) RANGE_CAP) as [Hg|Hg].
  2:{ intros [= <- <-]. rewrite (proj2 (Nat.leb_gt _ _)) by lia. by eexists. }
  pose proof (below_gap rs cursor hpa Hb Hc ltac:(rg_lia) O2 Hg) as Hb'. fold g in Hb'.
  pose proof (hole_range_valid (hpa, len, gid) Hok ltac:(unfold hpa_of; simpl; mlia)) as Hv.
  pose proof (claim_above _ _ _ Hb' Hv ltac:(simpl; lia)) as E. simpl in E. rewrite E.
  rewrite length_app. destruct (Nat.ltb_spec (length rs + length g) RANGE_CAP) as [Hlt|Hge].
  - rewrite (proj2 (Nat.leb_le _ _)) by lia. rewrite <- app_assoc. intros Hr. split; [|done].
    rewrite app_assoc. apply (below_snoc hpa); try done; simpl; try rg_lia.
    + rewrite length_app. lia.
    + rewrite Z.add_mod, O2, O3 by done. done.
  - intros [= <- <-]. rewrite (proj2 (Nat.leb_gt _ _)) by lia. by eexists.
Qed.

Lemma claim_holes_bad m cursor h rest : hole_u64 h → ¬ (hole_ok h ∧ cursor ≤ hpa_of h) →
  ∃ e, claim_holes m cursor (h :: rest) = (m, Err e).
Proof.
  destruct h as [[hpa len] gid]. intros [Hu1 Hu2] Hbad. simpl in Hu1, Hu2.
  change (hpa_of (hpa, len, gid)) with hpa in Hbad.
  rewrite hole_checks in Hbad by done. cbn [claim_holes].
  destruct ((len =? 0) || _ || _); [by eexists|].
  destruct ((gid =? 0) || _); [by eexists|].
  destruct (checked_add64 hpa len) as [e|] eqn:Ea; [|by eexists].
  apply checked_add64_Some in Ea as Ea'. destruct Ea' as [-> _].
  destruct ((PRECISE_BYTES <? _) || _); [by eexists|].
  destruct (hpa <? GUEST_RAM_BYTES); [by eexists|]. by destruct Hbad.
Qed.

Lemma claim_holes_spec hs : ∀ rs cursor m r, below cursor rs → Forall hole_u64 hs →
  claim_holes (rm_of rs) cursor hs = (m, r) →
  match r with
  | Ok c => valid_from cursor hs ∧ m = rm_of (rs ++ segs cursor hs) ∧ c = last_end cursor hs ∧
            below c (rs ++ segs cursor hs)
  | Err _ => ¬ (valid_from cursor hs ∧ (length rs + length (segs cursor hs) ≤ RANGE_CAP)%nat)
  end.
Proof.
  induction hs as [|h hs IH]; intros rs cursor m r Hb Hu Hr.
  - simpl in *. simplify_eq. rewrite app_nil_r. done.
  - apply Forall_cons in Hu as [Hu Hus].
    destruct (decide (hole_ok h ∧ cursor ≤ hpa_of h)) as [[Hok Hc]|Hbad].
    2:{ destruct (claim_holes_bad (rm_of rs) cursor h hs Hu Hbad) as [e E].
        rewrite E in Hr. simplify_eq. simpl. tauto. }
    pose proof (claim_hole_step rs cursor h m r hs Hb Hu Hok Hc Hr) as Hst. simpl in Hst.
    rewrite !length_app in Hst. simpl length in Hst.
    destruct (Nat.leb_spec (length rs + (length (gap cursor (hpa_of h)) + 1)) RANGE_CAP)
      as [Hle|Hgt].
    + destruct Hst as [Hb' Hr']. apply IH in Hr'; [|done..]. cbn [valid_from segs last_end].
      destruct r as [c|e].
      * destruct Hr' as (V & -> & -> & B). rewrite <- !app_assoc in *. done.
      * rewrite !length_app in *. simpl in *. intros [(_ & _ & V) L]. apply Hr'.
        split; [done|]. lia.
    + destruct Hst as [e ->]. cbn [valid_from segs]. rewrite length_app. simpl.
      intros [_ L]. lia.
Qed.

(** ** Who owns which page of the window *)

Fixpoint plan (cursor : Z) (hs : list Hole) : list EptRange :=
  match hs with
  | [] => gap cursor PRECISE_BYTES
  | h :: rest => gap cursor (hpa_of h) ++ hole_range h :: plan (hole_end h) rest
  end.

Lemma plan_segs hs : ∀ cursor,
  plan cursor hs = segs cursor hs ++ gap (last_end cursor hs) PRECISE_BYTES.
Proof.
  induction hs as [|h hs IH]; intros cursor; simpl; [done|]. by rewrite IH, <- app_assoc.
Qed.

Lemma elem_of_gap a b r : r ∈ gap a b ↔ a < b ∧ r = mkRange M2_BRINGUP_GUEST_ID a (b - a).
Proof.
  unfold gap. destruct (Z.ltb_spec a b).
  - rewrite list_elem_of_singleton. tauto.
  - split; [intros Hr; by apply elem_of_nil in Hr|lia].
Qed.

Lemma valid_from_ge hs : ∀ cursor h, valid_from cursor hs → h ∈ hs →
  hole_ok h ∧ cursor ≤ hpa_of h.
Proof.
  induction hs as [|x hs IH]; intros cursor h V Hh; [by apply elem_of_nil in Hh|].
  destruct V as (Hok & Hc & V). apply elem_of_cons in Hh as [->|Hh]; [done|].
  destruct (IH _ _ V Hh) as [Hok' Hc']. split; [done|].
  destruct x as [[a l] g]. destruct Hok as (? & _). unfold hole_end, hpa_of in *. simpl in *. lia.
Qed.

Lemma plan_ge hs : ∀ cursor r, valid_from cursor hs → r ∈ plan cursor hs → cursor ≤ r_gpa r.
Proof.
  induction hs as [|h hs IH]; intros cursor r V Hr; simpl in Hr.
  - apply elem_of_gap in Hr as [_ ->]. simpl. lia.
  - destruct V as (Hok & Hc & V). destruct h as [[a l] g]. destruct Hok as (Hl & _).
    apply elem_of_app in Hr as [[_ ->]%elem_of_gap|[->|Hr]%elem_of_cons]; simpl in *; [lia|done|].
    specialize (IH _ _ V Hr). unfold hole_end, hpa_of in *. simpl in *. lia.
Qed.

(** Inside the window the plan gives each page to the hole that contains it,
    and to the bring-up guest when none does. *)
Definition owns (hs : list Hole) (g a : Z) : Prop :=
  (∃ h, h ∈ hs ∧ h.2 = g ∧ in_hole h a) ∨
  (g = M2_BRINGUP_GUEST_ID ∧ ∀ h, h ∈ hs → ¬ in_hole h a).

Lemma owns_cons_in h hs g a : in_hole h a →
  (∀ h', h' ∈ hs → ¬ in_hole h' a) → owns (h :: hs) g a ↔ h.2 = g.
Proof.
  intros Hin Hno. split.
  - intros [(h' & [->|Hh]%elem_of_cons & Hg & Hin')|[_ Hall]]; [done|by destruct (Hno h')|].
    by destruct (Hall h (list_elem_of_here _ _)).
  - intros <-. left. exists h. split; [apply list_elem_of_here|done].
Qed.

Lemma owns_cons_out h hs g a : ¬ in_hole h a → owns (h :: hs) g a ↔ owns hs g a.
Proof.
  intros Hout. unfold owns. setoid_rewrite elem_of_cons. split.
  - intros [(h' & [->|Hh] & Hg & Hin)|[Hg Hall]]; [done|left; eauto|right; split; [done|]]. auto.
  - intros [(h' & Hh & Hg & Hin)|[Hg Hall]]; [left; eauto|right; split; [done|]].
    intros h' [->|Hh]; auto.
Qed.

Lemma plan_owner hs : ∀ cursor g a, valid_from cursor hs → cursor ≤ a < PRECISE_BYTES →
  (∃ r, r ∈ plan cursor hs ∧ r_guest r = g ∧ in_range r a) ↔ owns hs g a.
Proof.
  induction hs as [|h hs IH]; intros cursor g a V Ha; simpl.
  - setoid_rewrite elem_of_gap. unfold owns, in_range. split.
    + intros (r & [_ ->] & <- & _). right. split; [done|]. intros h Hh. by apply elem_of_nil in Hh.
    + intros [(h & Hh & _)|[-> _]]; [by apply elem_of_nil in Hh|].
      eexists. split; [split; [lia|done]|]. simpl. lia.
  - destruct V as (Hok & Hc & V). setoid_rewrite elem_of_app. setoid_rewrite elem_of_cons.
    setoid_rewrite elem_of_gap.
    assert (hpa_of h < hole_end h) as Hpos.
    { destruct h as [[x l] y]. destruct Hok as (? & _). unfold hpa_of, hole_end. simpl in *. lia. }
    assert (∀ h', h' ∈ hs → hole_end h ≤ hpa_of h') as Hlater
      by (intros h' Hh'; by apply (valid_from_ge hs _ _ V)).
    assert (∀ r, r ∈ plan (hole_end h) hs → hole_end h ≤ r_gpa r) as Hplan
      by (intros r; by apply plan_ge).
    destruct (decide (a < hpa_of h)) as [Hlo|Hhi]; [|destruct (decide (a < hole_end h)) as [Hin|Hout]].
    + rewrite owns_cons_out by (unfold in_hole; lia). split.
      * intros (r & [[_ ->]|[->|Hr]] & <- & Hra); unfold in_range in Hra; simpl in Hra.
        -- right. split; [done|]. intros h' Hh'. unfold in_hole. specialize (Hlater h' Hh'). lia.
        -- unfold hpa_of in *. lia.
        -- specialize (Hplan r Hr). lia.
      * intros [(h' & Hh' & _ & Hin')|[-> _]].
        -- unfold in_hole in Hin'. specialize (Hlater h' Hh'). lia.
        -- eexists. split; [left; split; [lia|done]|]. unfold in_range. simpl. lia.
    + rewrite owns_cons_in; [|unfold in_hole; lia|].
      2:{ intros h' Hh'. unfold in_hole. specialize (Hlater h' Hh'). lia. }
      split.
      * intros (r & [[_ ->]|[->|Hr]] & <- & Hra); unfold in_range in Hra; simpl in Hra; [lia|done|].
        specialize (Hplan r Hr). lia.
      * intros <-. exists (hole_range h). split; [by right; left|]. split; [done|].
        unfold in_range, hpa_of, hole_end in *. simpl. lia.
    + rewrite owns_cons_out by (unfold in_hole; lia).
      rewrite <- (IH (hole_end h) g a V) by lia. split.
      * intros (r & [[_ ->]|[->|Hr]] & <- & Hra); unfold in_range in *; simpl in Hra; [lia| |by exists r].
        unfold hole_end in *. lia.
      * intros (r & Hr & Hg & Hra). exists r. by split; [right; right|].
Qed.

Lemma contains_gpa_spec rs g a : Forall valid_range rs →
  contains_gpa (rm_of rs) g a = true ↔ ∃ r, r ∈ rs ∧ r_guest r = g ∧ in_range r a.
Proof.
  intros Hv. unfold contains_gpa. rewrite existsb_rm_of by done. rewrite existsb_exists.
  setoid_rewrite <- list_elem_of_In. rewrite Forall_forall in Hv. unfold in_range.
  split; intros (r & Hr & Hx); exists r; (split; [done|]); rewrite (range_end r (Hv r Hr)) in *; lia.
Qed.

(** ** The insertion sort *)

Definition hle (x y : Hole) : Prop := hpa_of x ≤ hpa_of y.

Lemma sorted_snoc l y : StronglySorted hle (l ++ [y]) ↔
  StronglySorted hle l ∧ Forall (λ x, hle x y) l.
Proof.
  induction l as [|x l IH]; simpl.
  - split; [intros _; by repeat constructor|intros _; by repeat constructor].
  - split.
    + intros [H1 H2]%StronglySorted_inv. apply IH in H1 as [H1 H3].
      apply Forall_app in H2 as [H2 H4]. apply Forall_cons in H4 as [H4 _].
      split; by constructor.
    + intros [[H1 H2]%StronglySorted_inv [H3 H4]%Forall_cons]. constructor; [by apply IH|].
      apply Forall_app. split; [done|]. by apply Forall_singleton.
Qed.

Lemma sift_spec p : ∀ x rest, StronglySorted hle p →
  ∃ p', sift (p ++ x :: rest) (length p) = p' ++ rest ∧ p' ≡ₚ x :: p ∧ StronglySorted hle p'.
Proof.
  induction p as [|y p IH] using rev_ind; intros x rest Hs.
  - exists [x]. split_and!; [done..|by repeat constructor].
  - rewrite length_app. simpl length. rewrite Nat.add_1_r. cbn [sift].
    rewrite <- app_assoc. simpl app.
    rewrite !lookup_app_r by lia. rewrite Nat.sub_diag, Nat.sub_succ_l, Nat.sub_diag by lia.
    cbn [lookup list_lookup]. apply sorted_snoc in Hs as [Hs Hy].
    destruct (Z.ltb_spec (hpa_of x) (hpa_of y)) as [Hlt|Hge].
    + rewrite !insert_app_r_alt by (rewrite ?length_app; simpl; lia).
      rewrite Nat.sub_diag, Nat.sub_succ_l, Nat.sub_diag by lia. simpl insert.
      destruct (IH x (y :: rest) Hs) as (p' & E & Hp & Hs'). exists (p' ++ [y]).
      split_and!; [by rewrite <- app_assoc|rewrite Hp; simpl; done|].
      apply sorted_snoc. split; [done|]. rewrite Hp. constructor; [unfold hle; lia|done].
    + exists ((p ++ [y]) ++ [x]).
      split_and!; [by rewrite <- !app_assoc|by rewrite (Permutation_app_comm (p ++ [y]) [x])|].
      apply sorted_snoc. split; [by apply sorted_snoc|].
      apply Forall_app. split; [|by apply Forall_singleton].
      eapply Forall_impl; [exact Hy|]. unfold hle. simpl. lia.
Qed.

Lemma sort_loop_spec m : ∀ q r, StronglySorted hle q → (m ≤ length r)%nat →
  ∃ q', foldl sift (q ++ r) (seq (length q) m) = q' ++ drop m r ∧
    q' ≡ₚ q ++ take m r ∧ StronglySorted hle q'.
Proof.
  induction m as [|m IH]; intros q r Hs Hm; simpl.
  - exists q. rewrite drop_0, take_0, app_nil_r. done.
  - destruct r as [|x r]; simpl in *; [lia|].
    destruct (sift_spec q x r Hs) as (q1 & E & Hp & Hs1). rewrite E.
    assert (S (length q) = length q1) as Hlen by (apply Permutation_length in Hp; simpl in Hp; lia).
    rewrite Hlen. destruct (IH q1 r Hs1 ltac:(lia)) as (q' & E' & Hp' & Hs').
    exists q'. split_and!; [done| |done]. rewrite Hp', Hp. simpl. by rewrite Permutation_middle.
Qed.

Lemma insertion_sort_spec hs pad :
  let l := take (length hs) (insertion_sort (hs ++ pad) (length hs)) in
  l ≡ₚ hs ∧ StronglySorted hle l.
Proof.
  unfold insertion_sort. destruct hs as [|h hs]; simpl; [by split; [|constructor]|].
  rewrite Nat.sub_0_r. destruct (sort_loop_spec (length hs) [h] (hs ++ pad)) as (q & E & Hp & Hs).
  { by repeat constructor. }
  { rewrite length_app. lia. }
  simpl app in E. simpl length in E. rewrite E. rewrite take_app_length in Hp. simpl in Hp.
  pose proof (Permutation_length Hp) as Hl. simpl in Hl.
  change (S (length hs)) with (length (h :: hs)). simpl length.
  rewrite <- Hl, take_app_length. done.
Qed.

(** ** Disjoint holes *)

Definition hdisj (h h' : Hole) : Prop := hole_end h ≤ hpa_of h' ∨ hole_end h' ≤ hpa_of h.

Definition holes_ok (hs : list Hole) : Prop :=
  Forall hole_ok hs ∧ NoDup hs ∧ ∀ h h', h ∈ hs → h' ∈ hs → h ≠ h' → hdisj h h'.

Lemma hole_ok_pos h : hole_ok h → hpa_of h < hole_end h.
Proof. destruct h as [[a l] g]. intros (? & _). unfold hpa_of, hole_end. simpl in *. lia. Qed.

Lemma holes_ok_perm hs hs' : hs ≡ₚ hs' → holes_ok hs → holes_ok hs'.
Proof.
  intros Hp (H1 & H2 & H3). split_and!; [by rewrite <- Hp|by rewrite <- Hp|].
  intros h h'. rewrite <- Hp. apply H3.
Qed.

Lemma valid_from_holes_ok hs : ∀ c, valid_from c hs → holes_ok hs.
Proof.
  induction hs as [|h hs IH]; intros c V.
  - split_and!; [constructor..|]. intros h h' Hh. by apply elem_of_nil in Hh.
  - destruct V as (Hok & Hc & V). destruct (IH _ V) as (I1 & I2 & I3).
    pose proof (hole_ok_pos h Hok) as Hpos.
    assert (∀ h', h' ∈ hs → hole_end h ≤ hpa_of h') as Hlater
      by (intros h' Hh'; by apply (valid_from_ge hs _ _ V)).
    split_and!; [by constructor|constructor; [|done]|].
    + intros Hin. specialize (Hlater h Hin). lia.
    + intros x y [->|Hx]%elem_of_cons [->|Hy]%elem_of_cons Hne; [done|..|by apply I3].
      * left. by apply Hlater.
      * right. by apply Hlater.
Qed.

Lemma sorted_valid_from hs : ∀ c, StronglySorted hle hs → holes_ok hs →
  (∀ h, h ∈ hs → c ≤ hpa_of h) → valid_from c hs.
Proof.
  induction hs as [|h hs IH]; intros c Hs (H1 & H2 & H3) Hc; [done|].
  apply StronglySorted_inv in Hs as [Hs Hle]. apply Forall_cons in H1 as [Hok H1].
  apply NoDup_cons in H2 as [Hni H2]. split_and!; [done|apply Hc, list_elem_of_here|].
  apply IH; [done| |].
  - split_and!; [done..|]. intros x y Hx Hy. apply H3; by apply elem_of_cons; right.
  - intros h' Hh'. rewrite Forall_forall in Hle, H1. specialize (Hle h' Hh'). unfold hle in Hle.
    pose proof (hole_ok_pos h' (H1 h' Hh')).
    destruct (H3 h h') as [|]; [apply list_elem_of_here|by apply elem_of_cons; right|congruence|done|lia].
Qed.

Lemma length_segs hs : ∀ c, (length (segs c hs) ≤ 2 * length hs)%nat.
Proof.
  induction hs as [|h hs IH]; intros c; simpl; [lia|]. rewrite length_app. simpl.
  specialize (IH (hole_end h)). unfold gap. destruct (_ <? _); simpl; lia.
Qed.

Lemma last_end_aligned hs : ∀ c, valid_from c hs → c ≤ PRECISE_BYTES → c ≤ last_end c hs ≤ PRECISE_BYTES.
Proof.
  induction hs as [|h hs IH]; intros c V Hc; simpl; [lia|]. destruct V as (Hok & Hle & V).
  pose proof (hole_ok_pos h Hok). destruct (IH _ V); [|lia].
  destruct h as [[a l] g]. destruct Hok as (_ & _ & _ & _ & _ & ? & _).
  unfold hole_end. simpl. done.
Qed.

Lemma owns_perm hs hs' g a : hs ≡ₚ hs' → owns hs g a ↔ owns hs' g a.
Proof. intros Hp. unfold owns. by setoid_rewrite Hp. Qed.

(** ** The boot-time split *)

Definition ordered (holes : list Hole) : list Hole :=
  take (length holes) (insertion_sort (holes ++ replicate (8 - length holes) (0, 0, 0))
                         (length holes)).

Lemma final_claim rs c n : below c rs → (c = PRECISE_BYTES → n ≠ 0%nat) →
  (if c <? PRECISE_BYTES
   then claim_range (rm_of rs) M2_BRINGUP_GUEST_ID c (PRECISE_BYTES ⊟ c)
   else checked_claim (rm_of rs) (n =? 0)%nat M2_BRINGUP_GUEST_ID 0 PRECISE_BYTES) =
    if (length rs + length (gap c PRECISE_BYTES) <=? RANGE_CAP)%nat
    then (rm_of (rs ++ gap c PRECISE_BYTES), Ok ()) else (rm_of rs, Err Full).
Proof.
  intros Hb Hn. pose proof Hb as [_ _ Hl [Hc _]].
  rewrite <- (claim_gap rs c PRECISE_BYTES) by (done || lia).
  destruct (Z.ltb_spec c PRECISE_BYTES) as [Hlt|Hge]; [done|].
  assert (n ≠ 0%nat) as Hn0 by (apply Hn; lia).
  by rewrite (proj2 (Nat.eqb_neq _ _)).
Qed.

Lemma plan_valid hs : valid_from 0 hs → (length (plan 0 hs) ≤ RANGE_CAP)%nat →
  below (last_end 0 hs) (segs 0 hs) → Forall valid_range (plan 0 hs).
Proof.
  intros V Hl Hb. rewrite plan_segs in *. rewrite length_app in Hl.
  pose proof (last_end_aligned hs 0 V ltac:(rg_lia)).
  destruct (below_gap (segs 0 hs) (last_end 0 hs) PRECISE_BYTES) as [Hv _ _ _];
    [done|lia|lia|done|lia|done].
Qed.

(** The re-checks at the end of the code pass on every valid plan. *)
Lemma rechecks_pass hs : valid_from 0 hs → Forall valid_range (plan 0 hs) →
  contains_gpa (rm_of (plan 0 hs)) M2_BRINGUP_GUEST_ID 0 = true ∧
  contains_gpa (rm_of (plan 0 hs)) M2_BRINGUP_GUEST_ID (GUEST_RAM_BYTES ⊟ 0x1000) = true ∧
  holes_private (rm_of (plan 0 hs)) hs = true.
Proof.
  intros V Hv. pose proof (valid_from_holes_ok _ _ V) as (Hok & _ & Hdis).
  rewrite Forall_forall in Hok.
  assert (∀ a, 0 ≤ a < GUEST_RAM_BYTES → owns hs M2_BRINGUP_GUEST_ID a) as Hram.
  { intros a Ha. right. split; [done|]. intros [[h l] g] Hh. destruct (Hok _ Hh) as (_ & _ & _ & _ & _ & _ & ?).
    unfold in_hole, hpa_of. simpl. lia. }
  assert (GUEST_RAM_BYTES ⊟ 0x1000 = 268431360) as -> by reflexivity.
  split_and!.
  - apply contains_gpa_spec; [done|]. apply plan_owner; [done|rg_lia|]. apply Hram. rg_lia.
  - apply contains_gpa_spec; [done|]. apply plan_owner; [done|rg_lia|]. apply Hram. rg_lia.
  - apply forallb_forall. intros h Hh%list_elem_of_In. pose proof (Hok h Hh) as Hoh.
    pose proof (hole_ok_pos h Hoh) as Hpos.
    assert (0 ≤ hpa_of h < PRECISE_BYTES) as Hr.
    { destruct h as [[a l] g]. destruct Hoh as (? & _ & _ & _ & _ & ? & ?).
      unfold hpa_of. simpl in *. rg_lia. }
    assert (in_hole h (hpa_of h)) as Hin by (unfold in_hole; lia).
    apply andb_true_iff. split.
    + apply contains_gpa_spec; [done|]. apply plan_owner; [done|lia|]. left. by exists h.
    + apply negb_true_iff, not_true_iff_false. rewrite contains_gpa_spec, plan_owner by (done || lia).
      intros [(h' & Hh' & Hg & Hin')|[_ Hall]]; [|by apply (Hall h)].
      destruct (decide (h = h')) as [<-|Hne].
      * destruct h as [[a l] g]. by destruct Hoh as (_ & _ & _ & _ & ? & _).
      * destruct (Hdis h h' Hh Hh' Hne); unfold in_hole in *; lia.
Qed.

(** The claim as a whole: when it succeeds, and what it leaves. *)
Lemma claim_precise_spec st holes st' r : Forall hole_u64 holes →
  claim_precise_with_shell_holes st holes = (st', r) →
  (r = Ok () ↔ (length holes ≤ 8)%nat ∧ valid_from 0 (ordered holes) ∧
     (length (plan 0 (ordered holes)) ≤ RANGE_CAP)%nat) ∧
  (r = Ok () → st' = mkPrecise (rm_of (plan 0 (ordered holes))) true ∧
     Forall valid_range (plan 0 (ordered holes))) ∧
  (r ≠ Ok () → pok st' = pok st).
Proof.
  intros Hu. unfold claim_precise_with_shell_holes.
  destruct (Nat.ltb_spec 8 (length holes)) as [Hgt|Hle].
  { intros [= <- <-]. split_and!; [split; [done|lia]|done|done]. }
  fold (ordered holes). change (PRECISE_BYTES <? GUEST_RAM_BYTES) with false. cbn [pranges].
  destruct (insertion_sort_spec holes (replicate (8 - length holes) (0, 0, 0))) as [Hp _].
  fold (ordered holes) in Hp.
  assert (below 0 []) as Hb0 by (constructor; [constructor..|simpl; rg_lia|split; [rg_lia|done]]).
  destruct (claim_holes rm_new 0 (ordered holes)) as [m [c|e]] eqn:Ec;
    change rm_new with (rm_of []) in Ec; apply claim_holes_spec in Ec;
    [|done|by rewrite Hp| |done|by rewrite Hp].
  2:{ intros [= <- <-]. split_and!; [|done|done]. split; [done|]. intros (_ & V & L). destruct Ec.
      split; [done|]. rewrite plan_segs, length_app in L. simpl. lia. }
  simpl in Ec. destruct Ec as (V & -> & -> & B).
  pose proof (last_end_aligned _ _ V ltac:(rg_lia)) as Hend.
  rewrite final_claim; [|done|].
  2:{ intros E Hn. destruct holes; [|done]. vm_compute in E. discriminate E. }
  rewrite <- length_app, <- plan_segs.
  destruct (Nat.leb_spec (length (plan 0 (ordered holes))) RANGE_CAP) as [L|L].
  2:{ intros [= <- <-]. split_and!; [|done|done]. split; [done|]. intros (_ & _ & L'). lia. }
  pose proof (plan_valid _ V L B) as Hv.
  destruct (rechecks_pass _ V Hv) as (-> & -> & ->). simpl negb. cbn [orb].
  change (DEFAULT_APIC_PHYS <? PRECISE_BYTES) with false.
  change (Z.shiftl 1 30 <=? PRECISE_BYTES) with false.
  intros [= <- <-]. by split_and!.
Qed.

(** ** Theorems *)

(** The owners a successful claim leaves. *)
Lemma claim_precise_owners st holes st' : Forall hole_u64 holes →
  claim_precise_with_shell_holes st holes = (st', Ok ()) →
  pok st' = true ∧ holes_ok holes ∧
  (∀ g a, 0 ≤ a < PRECISE_BYTES → contains_gpa (pranges st') g a = true ↔ owns holes g a) ∧
  (∀ g g' a, 0 ≤ a < PRECISE_BYTES → contains_gpa (pranges st') g a = true →
     contains_gpa (pranges st') g' a = true → g = g').
Proof.
  intros Hu E. destruct (claim_precise_spec _ _ _ _ Hu E) as (Hiff & Hst & _).
  destruct (proj1 Hiff eq_refl) as (Hlen & V & L). destruct (Hst eq_refl) as [-> Hv].
  destruct (insertion_sort_spec holes (replicate (8 - length holes) (0, 0, 0))) as [Hp _].
  fold (ordered holes) in Hp.
  pose proof (holes_ok_perm _ _ Hp (valid_from_holes_ok _ _ V)) as Hok.
  assert (∀ g a, 0 ≤ a < PRECISE_BYTES →
    contains_gpa (rm_of (plan 0 (ordered holes))) g a = true ↔ owns holes g a) as Hown.
  { intros g a Ha. rewrite contains_gpa_spec, plan_owner by done. by apply owns_perm. }
  split_and!; [done..|]. cbn [pranges]. intros g g' a Ha. rewrite !Hown by done.
  destruct Hok as (_ & _ & Hdis).
  intros [(h & Hh & <- & Hin)|[-> Hall]] [(h' & Hh' & <- & Hin')|[-> Hall']]; [|..|done].
  - destruct (decide (h = h')) as [->|Hne]; [done|].
    destruct (Hdis h h' Hh Hh' Hne); unfold in_hole in *; lia.
  - by destruct (Hall' h Hh).
  - by destruct (Hall h' Hh').
Qed.

(** When the boot-time claim of the precise window succeeds, the holes are
    page-aligned, private, above the bring-up guest's RAM, inside the window and
    pairwise disjoint, and every page of [0, 512 MiB) has exactly one owner in
    the range registry: the shell guest whose slab contains it, or else the
    bring-up guest. Nothing outside the window is claimed. *)
Theorem precise_claim_partitions st holes st' : Forall hole_u64 holes →
  claim_precise_with_shell_holes st holes = (st', Ok ()) →
  pok st' = true ∧ holes_ok holes ∧
  (∀ g a, 0 ≤ a < PRECISE_BYTES → contains_gpa (pranges st') g a = true ↔ owns holes g a) ∧
  (∀ g g' a, 0 ≤ a < PRECISE_BYTES → contains_gpa (pranges st') g a = true →
     contains_gpa (pranges st') g' a = true → g = g').
Proof. apply claim_precise_owners. Qed.

(** What the claim accepts. *)
Lemma claim_precise_accepts st holes : Forall hole_u64 holes →
  holes_ok holes → (length holes ≤ 7)%nat →
  (claim_precise_with_shell_holes st holes).2 = Ok ().
Proof.
  intros Hu Hok Hl. destruct (claim_precise_with_shell_holes st holes) as [st' r] eqn:E.
  destruct (claim_precise_spec _ _ _ _ Hu E) as (Hiff & _). apply Hiff.
  destruct (insertion_sort_spec holes (replicate (8 - length holes) (0, 0, 0))) as [Hp Hs].
  fold (ordered holes) in Hp, Hs. split_and!; [lia|..].
  - apply sorted_valid_from; [done|by eapply holes_ok_perm; [symmetry|]|].
    intros h Hh. rewrite Hp in Hh. destruct Hok as (Hok & _). rewrite Forall_forall in Hok.
    destruct h as [[a l] g]. destruct (Hok _ Hh) as (_ & _ & _ & _ & _ & _ & ?).
    unfold hpa_of. simpl. rg_lia.
  - rewrite plan_segs, length_app. pose proof (length_segs (ordered holes) 0) as Hg.
    apply Permutation_length in Hp. unfold gap, RANGE_CAP. destruct (_ <? _); simpl; lia.
Qed.

(** The claim accepts every list of at most seven valid, pairwise disjoint
    slabs, in whatever order they are given. *)
Theorem precise_claim_complete st holes : Forall hole_u64 holes →
  holes_ok holes → (length holes ≤ 7)%nat →
  (claim_precise_with_shell_holes st holes).2 = Ok ().
Proof. apply claim_precise_accepts. Qed.

(** A refused claim never latches the flag: the flag only becomes true by a
    successful claim. *)
Theorem precise_flag_only_on_success st holes : Forall hole_u64 holes →
  (claim_precise_with_shell_holes st holes).2 ≠ Ok () →
  pok (claim_precise_with_shell_holes st holes).1 = pok st.
Proof.
  intros Hu. destruct (claim_precise_with_shell_holes st holes) as [st' r] eqn:E.
  apply (claim_precise_spec _ _ _ _ Hu E).
Qed.

(** Eight slabs with gaps between them need seventeen ranges, one more than the
    registry holds: the claim is refused. *)
Example eight_spaced_holes_full :
  (claim_precise_with_shell_holes (mkPrecise rm_new false)
    ((λ i, (GUEST_RAM_BYTES + 2097152 * (2 * i + 1), 2097152, i + 2)) <$> seqZ 0 8)).2
  = Err Full.
Proof. vm_compute. reflexivity. Qed.

(** ** Witnesses: three slabs out of order *)

Definition demo_holes : list Hole :=
  [(0x18000000, 0x200000, 3); (0x10000000, 0x200000, 2); (0x1fe00000, 0x200000, 4)].

Lemma demo_holes_u64 : Forall hole_u64 demo_holes.
Proof. repeat constructor; simpl; mlia. Qed.

Lemma precise_claim_partitions_witness :
  ∃ st', claim_precise_with_shell_holes (mkPrecise rm_new false) demo_holes = (st', Ok ()) ∧
    contains_gpa (pranges st') 3 0x18001000 = true ∧ owns demo_holes 3 0x18001000.
Proof.
  destruct (claim_precise_with_shell_holes (mkPrecise rm_new false) demo_holes) as [st' r] eqn:E.
  vm_compute in E. injection E as <- <-. eexists. split; [reflexivity|].
  split; [reflexivity|].
  refine (proj1 (proj1 (proj2 (proj2 (precise_claim_partitions (mkPrecise rm_new false) demo_holes _
    demo_holes_u64 _))) 3 0x18001000 _) _).
  - vm_compute. reflexivity.
  - rg_lia.
  - reflexivity.
Defined.

Lemma demo_holes_ok : holes_ok demo_holes.
Proof.
  assert (valid_from 0 (ordered demo_holes)) as V.
  { vm_compute. repeat split; try discriminate; intros H; discriminate H. }
  eapply holes_ok_perm; [|exact (valid_from_holes_ok _ _ V)].
  apply (insertion_sort_spec demo_holes (replicate 5 (0, 0, 0))).
Qed.

Lemma precise_claim_complete_witness :
  (claim_precise_with_shell_holes (mkPrecise rm_new false) demo_holes).2 = Ok ().
Proof.
  apply (precise_claim_complete (mkPrecise rm_new false) demo_holes demo_holes_u64 demo_holes_ok).
  simpl. lia.
Defined.

Lemma precise_flag_only_on_success_witness :
  pok (claim_precise_with_shell_holes (mkPrecise rm_new false) [(0, 4096, 2)]).1 = false.
Proof.
  apply (precise_flag_only_on_success (mkPrecise rm_new false) [(0, 4096, 2)]).
  - repeat constructor; simpl; mlia.
  - vm_compute. discriminate.
Defined.

End Ranges.
