(* ===== verification/EptHw.v ===== *)
(** * Hardware EPT page tables ([memory/ept_hw.rs])

    The builders of the extended page tables the processor walks, over a model
    of host physical memory as a function from qword addresses to qwords. The
    value of IA32_VMX_EPT_VPID_CAP is a parameter of the definitions that read
    it. [translate] is the processor's walk and is the specification: the
    theorems say what each builder makes it return for every guest address. *)

From S2P Require Import Prelude EptMap EptRange.
Import Ranges.

Module Hw.

(** ** Host memory, by aligned qwords *)

Definition Mem := Z → Z.

Definition wr (m : Mem) (a v : Z) : Mem := λ x, if x =? a then v else m x.

(** [for i in 0..n { *base.add(i) = f(i) }] *)
Definition fill (m : Mem) (base n : Z) (f : Z → Z) : Mem :=
  foldl (λ m i, wr m (base + 8 * i) (f i)) m (seqZ 0 n).

(** [write_bytes(f, 0, 4096)] *)
Definition zero_page (m : Mem) (f : Z) : Mem := fill m f 512 (λ _, 0).

(** ** Constants and encodings *)

Definition EPT_CAP_WALK4 : Z := Z.shiftl 1 6.
Definition EPT_CAP_WB : Z := Z.shiftl 1 14.
Definition EPT_CAP_2M : Z := Z.shiftl 1 16.
Definition EPT_CAP_1G : Z := Z.shiftl 1 17.
Definition IDENTITY_GIB : Z := 4.
Definition TWO_MIB : Z := 2097152.
Definition PRECISE_GIB : Z := 1.
Definition GUEST_UEFI_LOW_RAM_BYTES : Z := 33554432.

Inductive EptHwError := Unsupported | OutOfFrames.
Inductive EptPageSize := OneGib | TwoMib.

#[global] Instance EptHwError_eq_dec : EqDecision EptHwError.
Proof. solve_decision. Defined.

Definition frames_required_gib (ps : EptPageSize) (gib : Z) : Z :=
  match ps with OneGib => 2 | TwoMib => 2 + gib end.

Definition frames_required (ps : EptPageSize) : Z := frames_required_gib ps PRECISE_GIB.

Definition frames_required_2m_bytes (bytes : Z) : Z :=
  if bytes =? 0 then 0 else 2 + Z.shiftr ((bytes ⊞ Z.shiftl 1 30) ⊟ 1) 30.

Definition frames_required_precise : Z := frames_required_2m_bytes PRECISE_BYTES.

Definition select_page_size (cap : Z) : result EptPageSize EptHwError :=
  if Z.land cap EPT_CAP_WALK4 =? 0 then Err Unsupported
  else if negb (Z.land cap EPT_CAP_1G =? 0) then Ok OneGib
  else if negb (Z.land cap EPT_CAP_2M =? 0) then Ok TwoMib
  else Err Unsupported.

Definition ensure_2m_capable (cap : Z) : result unit EptHwError :=
  if (Z.land cap EPT_CAP_WALK4 =? 0) || (Z.land cap EPT_CAP_2M =? 0)
  then Err Unsupported else Ok ().

Definition eptp_memory_type (cap : Z) : Z :=
  if negb (Z.land cap EPT_CAP_WB =? 0) then 6 else 0.

Definition pack_eptp (pml4_phys memory_type : Z) : Z :=
  let walk_len_minus_1 := 3 in
  Z.lor (Z.lor (Z.land memory_type 7) (Z.shiftl (Z.land walk_len_minus_1 7) 3))
    (Z.land pml4_phys (bnot64 4095)).

Definition pml4_from_eptp (eptp : Z) : Z := Z.land eptp (bnot64 4095).

Definition ept_rwe : Z := 7.

Definition ept_leaf_large (hpa memory_type : Z) : Z :=
  Z.lor (Z.lor (Z.lor ept_rwe (Z.shiftl (Z.land memory_type 7) 3)) (Z.shiftl 1 7))
    (Z.land hpa (bnot64 4095)).

Definition ept_leaf_4k (hpa memory_type : Z) : Z :=
  Z.lor (Z.lor ept_rwe (Z.shiftl (Z.land memory_type 7) 3)) (Z.land hpa (bnot64 4095)).

Definition ept_link (next_phys : Z) : Z := Z.lor ept_rwe (Z.land next_phys (bnot64 4095)).

Definition ept_hpa_from_pte (pte : Z) : Z := Z.land pte (bnot64 4095).
Definition ept_rwe_present (pte : Z) : bool := Z.land pte 7 =? 7.
Definition ept_large_bit (pte : Z) : bool := negb (Z.land pte (Z.shiftl 1 7) =? 0).

(** ** Table walks *)

(** [(gpa >> sh) & 0x1ff] *)
Definition idx (sh gpa : Z) : Z := Z.land (Z.shiftr gpa sh) 511.

Definition absent (e : Z) : bool := Z.land e 7 =? 0.

Definition gpa_is_mapped (m : Mem) (pml4_phys gpa : Z) : bool :=
  let e0 := m (pml4_phys + 8 * idx 39 gpa) in
  if absent e0 then false
  else
    let e1 := m (ept_hpa_from_pte e0 + 8 * idx 30 gpa) in
    if absent e1 then false
    else if ept_large_bit e1 then true
    else
      let e2 := m (ept_hpa_from_pte e1 + 8 * idx 21 gpa) in
      if absent e2 then false
      else if ept_large_bit e2 then true
      else
        let e3 := m (ept_hpa_from_pte e2 + 8 * idx 12 gpa) in
        negb (absent e3).

(** The processor's walk (SDM Vol. 3C, EPT translation): the host address a
    guest address reaches, [None] for an EPT violation. *)
Definition translate (m : Mem) (pml4_phys gpa : Z) : option Z :=
  let e0 := m (pml4_phys + 8 * idx 39 gpa) in
  if absent e0 then None
  else
    let e1 := m (ept_hpa_from_pte e0 + 8 * idx 30 gpa) in
    if absent e1 then None
    else if ept_large_bit e1 then Some (ept_hpa_from_pte e1 + gpa mod 1073741824)
    else
      let e2 := m (ept_hpa_from_pte e1 + 8 * idx 21 gpa) in
      if absent e2 then None
      else if ept_large_bit e2 then Some (ept_hpa_from_pte e2 + gpa mod TWO_MIB)
      else
        let e3 := m (ept_hpa_from_pte e2 + 8 * idx 12 gpa) in
        if absent e3 then None else Some (ept_hpa_from_pte e3 + gpa mod 4096).

(** ** Builders *)

(** The zeroing loop over [frames.iter().take(need)], with its early return. *)
Fixpoint zero_frames (m : Mem) (fs : list Z) : Mem * result unit EptHwError :=
  match fs with
  | [] => (m, Ok ())
  | f :: rest =>
      if negb (Z.land f 4095 =? 0) then (m, Err Unsupported)
      else zero_frames (zero_page m f) rest
  end.

(** [frames[i]], in range wherever the length check of the builder passed. *)
Definition frame_at (frames : list Z) (i : Z) : Z := default 0 (frames !! Z.to_nat i).

Definition flen (frames : list Z) : Z := Z.of_nat (length frames).

Definition build_identity_gib (cap : Z) (m : Mem) (ps : EptPageSize) (gib : Z) (frames : list Z)
    : Mem * result Z EptHwError :=
  if (gib =? 0) || (512 <? gib) then (m, Err Unsupported)
  else
    let need := frames_required_gib ps gib in
    if flen frames <? need then (m, Err OutOfFrames)
    else match zero_frames m (take (Z.to_nat need) frames) with
    | (m, Err e) => (m, Err e)
    | (m, Ok _) =>
        let mt := eptp_memory_type cap in
        let pml4 := frame_at frames 0 in
        let pdpt := frame_at frames 1 in
        let m := wr m pml4 (ept_link pdpt) in
        let m :=
          match ps with
          | OneGib => fill m pdpt gib (λ i, ept_leaf_large (Z.shiftl i 30) mt)
          | TwoMib =>
              foldl (λ m i,
                let pd := frame_at frames (2 + i) in
                let m := wr m (pdpt + 8 * i) (ept_link pd) in
                fill m pd 512 (λ j, ept_leaf_large (Z.shiftl i 30 ⊞ Z.shiftl j 21) mt))
                m (seqZ 0 gib)
          end in
        (m, Ok (pack_eptp pml4 mt))
    end.

Definition build_identity_2m_bytes (cap : Z) (m : Mem) (bytes : Z) (frames : list Z)
    : Mem * result Z EptHwError :=
  if (bytes =? 0) || negb (Z.land bytes (TWO_MIB - 1) =? 0) then (m, Err Unsupported)
  else if DEFAULT_APIC_PHYS <? bytes then (m, Err Unsupported)
  else
    let need := frames_required_2m_bytes bytes in
    if flen frames <? need then (m, Err OutOfFrames)
    else match zero_frames m (take (Z.to_nat need) frames) with
    | (m, Err e) => (m, Err e)
    | (m, Ok _) =>
        let mt := eptp_memory_type cap in
        let pml4 := frame_at frames 0 in
        let pdpt := frame_at frames 1 in
        let m := wr m pml4 (ept_link pdpt) in
        let two_m_pages := bytes / TWO_MIB in
        let gibs := (two_m_pages + 511) / 512 in
        let m := foldl (λ m i,
            let pd := frame_at frames (2 + i) in
            let m := wr m (pdpt + 8 * i) (ept_link pd) in
            let base_j := i * 512 in
            let end_j := Z.min (base_j + 512) two_m_pages in
            fill m pd (end_j - base_j)
              (λ slot, ept_leaf_large ((base_j + slot) * TWO_MIB) mt))
          m (seqZ 0 gibs) in
        (m, Ok (pack_eptp pml4 mt))
    end.

Definition build_precise_identity (cap : Z) (m : Mem) (frames : list Z) : Mem * result Z EptHwError :=
  build_identity_2m_bytes cap m PRECISE_BYTES frames.

Definition frames_required_single_2m : Z := 3.

Definition build_single_2m_identity (cap : Z) (m : Mem) (hpa_2m : Z) (frames : list Z)
    : Mem * result Z EptHwError :=
  if negb (Z.land hpa_2m (TWO_MIB - 1) =? 0) then (m, Err Unsupported)
  else if (PRECISE_BYTES <=? hpa_2m) || (PRECISE_BYTES <? sat_add64 hpa_2m TWO_MIB)
  then (m, Err Unsupported)
  else
    let need := frames_required_single_2m in
    if flen frames <? need then (m, Err OutOfFrames)
    else match zero_frames m (take (Z.to_nat need) frames) with
    | (m, Err e) => (m, Err e)
    | (m, Ok _) =>
        let mt := eptp_memory_type cap in
        let pml4 := frame_at frames 0 in
        let pdpt := frame_at frames 1 in
        let pd := frame_at frames 2 in
        let m := wr m (pml4 + 8 * idx 39 hpa_2m) (ept_link pdpt) in
        let m := wr m (pdpt + 8 * idx 30 hpa_2m) (ept_link pd) in
        let m := wr m (pd + 8 * idx 21 hpa_2m) (ept_leaf_large hpa_2m mt) in
        (m, Ok (pack_eptp pml4 mt))
    end.

Definition build_identity_4g (cap : Z) (m : Mem) (ps : EptPageSize) (frames : list Z)
    : Mem * result Z EptHwError :=
  build_identity_gib cap m ps IDENTITY_GIB frames.

Definition clear_2m_identity_leaf (m : Mem) (pml4_phys gpa_2m : Z) : Mem * result unit EptHwError :=
  if negb (Z.land gpa_2m (TWO_MIB - 1) =? 0) then (m, Err Unsupported)
  else
    let e0 := m (pml4_phys + 8 * idx 39 gpa_2m) in
    if absent e0 then (m, Ok ())
    else
      let e1 := m (ept_hpa_from_pte e0 + 8 * idx 30 gpa_2m) in
      if absent e1 then (m, Ok ())
      else if ept_large_bit e1 then (m, Err Unsupported)
      else (wr m (ept_hpa_from_pte e1 + 8 * idx 21 gpa_2m) 0, Ok ()).

Definition max_base (mx b : Z) : Z :=
  let base := Z.land b (bnot64 (TWO_MIB - 1)) in if mx <? base then base else mx.

Definition host_only_slab_after_shells (shell_bases : list Z) : option Z :=
  let max := foldl max_base 0 shell_bases in
  if max =? 0 then None
  else
    let hpa := sat_add64 max TWO_MIB in
    if (hpa =? 0) || (PRECISE_BYTES <? sat_add64 hpa TWO_MIB) then None else Some hpa.

(** *** The local-APIC hole *)

(** The caller flushes cached translations next; the tables are the state here. *)
Definition punch_apic_mmio_hole (cap : Z) (m : Mem) (pml4_phys scratch0 scratch1 : Z)
    : Mem * result unit EptHwError :=
  let apic := DEFAULT_APIC_PHYS in
  let mt := eptp_memory_type cap in
  let e := m pml4_phys in
  if absent e then (m, Err Unsupported)
  else
    let pdpt := ept_hpa_from_pte e in
    let pdpt_i := Z.shiftr apic 30 in
    let pdpt_e := m (pdpt + 8 * pdpt_i) in
    let r1 :=
      if ept_large_bit pdpt_e then
        let pd := scratch0 in
        if negb (Z.land pd 4095 =? 0) then Err Unsupported
        else
          let m := zero_page m pd in
          let base := Z.shiftl pdpt_i 30 in
          let m := fill m pd 512 (λ j, ept_leaf_large (base ⊞ Z.shiftl j 21) mt) in
          Ok (wr m (pdpt + 8 * pdpt_i) (ept_link pd), pd)
      else Ok (m, ept_hpa_from_pte pdpt_e) in
    match r1 with
    | Err e => (m, Err e)
    | Ok (m, pd) =>
        let pd_i := idx 21 apic in
        let pd_e := m (pd + 8 * pd_i) in
        let r2 :=
          if ept_large_bit pd_e then
            let pt := scratch1 in
            if negb (Z.land pt 4095 =? 0) then Err Unsupported
            else
              let m := zero_page m pt in
              let base := Z.shiftl (Z.shiftr apic 21) 21 in
              let m := fill m pt 512 (λ j,
                let hpa := base ⊞ Z.shiftl j 12 in
                Z.lor (Z.lor ept_rwe (Z.shiftl (Z.land mt 7) 3)) (Z.land hpa (bnot64 4095))) in
              Ok (wr m (pd + 8 * pd_i) (ept_link pt), pt)
          else Ok (m, ept_hpa_from_pte pd_e) in
        match r2 with
        | Err e => (m, Err e)
        | Ok (m, pt) =>
            let pt_i := idx 12 apic in
            (wr m (pt + 8 * pt_i) 0, Ok ())
        end
    end.

(** *** The firmware-alias tables of a private guest-UEFI *)

Definition firmware_alias_pt_count (gpa bytes : Z) : Z :=
  if bytes =? 0 then 0
  else
    let start := Z.land gpa (bnot64 (TWO_MIB - 1)) in
    match checked_add64 gpa bytes with
    | None => 0
    | Some end_ =>
        let end_aln := Z.land (sat_add64 end_ (TWO_MIB - 1)) (bnot64 (TWO_MIB - 1)) in
        (end_aln ⊟ start) / TWO_MIB
    end.

Definition frames_required_firmware_alias (gpa bytes : Z) : Z :=
  3 + firmware_alias_pt_count gpa bytes + 1.

(** The page tables allocated so far, oldest first: [mapped_2m] zipped with
    [pt_for_2m]. *)
Definition find_pt (tbl : list (Z * Z)) (key : Z) : option Z :=
  find_map (λ kp, if kp.1 =? key then Some kp.2 else None) tbl.

(** The [while off < fw_bytes] loop over the page offsets [offs]. *)
Fixpoint alias_loop (mt gpa_base hpa_base pd_hi need : Z) (frames : list Z)
    (m : Mem) (next_pt : Z) (tbl : list (Z * Z)) (offs : list Z)
    : Mem * result unit EptHwError :=
  match offs with
  | [] => (m, Ok ())
  | off :: rest =>
      let gpa := gpa_base ⊞ off in
      let hpa := hpa_base ⊞ off in
      let key := Z.shiftr gpa 21 in
      let leaf m pt := wr m (pt + 8 * idx 12 gpa) (ept_leaf_4k hpa mt) in
      match find_pt tbl key with
      | Some pt => alias_loop mt gpa_base hpa_base pd_hi need frames (leaf m pt) next_pt tbl rest
      | None =>
          let n2m := Z.of_nat (length tbl) in
          if (sat_sub64 need 4 <=? n2m) || (4 <=? n2m) || (need <=? next_pt)
          then (m, Err OutOfFrames)
          else
            let pt := frame_at frames next_pt in
            let m := wr m (pd_hi + 8 * idx 21 gpa) (ept_link pt) in
            alias_loop mt gpa_base hpa_base pd_hi need frames (leaf m pt) (next_pt + 1)
              (tbl ++ [(key, pt)]) rest
      end
  end.

Definition build_firmware_alias_ept (cap : Z) (m : Mem)
    (gpa_base hpa_base fw_bytes ram_hpa : Z) (frames : list Z) : Mem * result Z EptHwError :=
  if (fw_bytes =? 0) || (4194304 <? fw_bytes) || negb (Z.land fw_bytes 4095 =? 0)
  then (m, Err Unsupported)
  else if negb (Z.land gpa_base 4095 =? 0) || negb (Z.land hpa_base 4095 =? 0)
  then (m, Err Unsupported)
  else if negb (Z.land ram_hpa (TWO_MIB - 1) =? 0) then (m, Err Unsupported)
  else if negb (GUEST_UEFI_LOW_RAM_BYTES mod TWO_MIB =? 0)
          || (512 <? GUEST_UEFI_LOW_RAM_BYTES / TWO_MIB) then (m, Err Unsupported)
  else match checked_add64 gpa_base fw_bytes with
  | None => (m, Err Unsupported)
  | Some fw_end =>
      let reset := 0xFFFFFFF0 in
      if negb ((gpa_base <=? reset) && (reset <? fw_end)) then (m, Err Unsupported)
      else
        let need := frames_required_firmware_alias gpa_base fw_bytes in
        if flen frames <? need then (m, Err OutOfFrames)
        else match zero_frames m (take (Z.to_nat need) frames) with
        | (m, Err e) => (m, Err e)
        | (m, Ok _) =>
            let mt := eptp_memory_type cap in
            let pml4 := frame_at frames 0 in
            let pdpt := frame_at frames 1 in
            let pd_hi := frame_at frames 2 in
            let pd_lo := frame_at frames 3 in
            let m := wr m (pml4 + 8 * 0) (ept_link pdpt) in
            let m := wr m (pdpt + 8 * 0) (ept_link pd_lo) in
            let LOW_RAM_LEAVES := GUEST_UEFI_LOW_RAM_BYTES / TWO_MIB in
            let m := fill m pd_lo LOW_RAM_LEAVES
                       (λ i, ept_leaf_large (ram_hpa ⊞ (i * TWO_MIB)) mt) in
            let pdpt_hi := idx 30 gpa_base in
            let m := wr m (pdpt + 8 * pdpt_hi) (ept_link pd_hi) in
            match alias_loop mt gpa_base hpa_base pd_hi need frames m 4 []
                    ((λ k, 4096 * k) <$> seqZ 0 (fw_bytes / 4096)) with
            | (m, Err e) => (m, Err e)
            | (m, Ok _) => (m, Ok (pack_eptp pml4 mt))
            end
        end
  end.

(** ** Encodings, decoded *)

Lemma absent_0 : absent 0 = true.
Proof. reflexivity. Qed.

Lemma mt_cases cap : eptp_memory_type cap = 6 ∨ eptp_memory_type cap = 0.
Proof. unfold eptp_memory_type. destruct (negb _); auto. Qed.

(** A page-aligned word with flag bits below the page. *)
Lemma page_entry c h : 0 ≤ c < 4096 → u64 h →
  let e := Z.lor c (Z.land h (bnot64 4095)) in
  Z.land e 7 = Z.land c 7 ∧ Z.land e (Z.shiftl 1 7) = Z.land c (Z.shiftl 1 7) ∧
  ept_hpa_from_pte e = h / 4096 * 4096.
Proof.
  intros Hc Hh. cbv zeta. rewrite page_floor by done.
  rewrite (Z.mul_comm _ 4096), lor_page by done. change (Z.shiftl 1 7) with 128.
  rewrite !land_low_part by lia. split_and!; [done..|].
  unfold ept_hpa_from_pte. rewrite page_floor by dlia. dlia.
Qed.

Lemma link_spec p : u64 p → p mod 4096 = 0 →
  absent (ept_link p) = false ∧ ept_large_bit (ept_link p) = false ∧
  ept_hpa_from_pte (ept_link p) = p ∧ ept_rwe_present (ept_link p) = true.
Proof.
  intros Hp Hm. destruct (page_entry ept_rwe p) as (E1 & E2 & E3); [unfold ept_rwe; lia|done|].
  unfold absent, ept_large_bit, ept_rwe_present, ept_link. rewrite E1, E2, E3.
  split_and!; [reflexivity..| |reflexivity]. dlia.
Qed.

Lemma leaf_large_spec h cap : u64 h → h mod 4096 = 0 →
  let e := ept_leaf_large h (eptp_memory_type cap) in
  absent e = false ∧ ept_large_bit e = true ∧ ept_hpa_from_pte e = h ∧ ept_rwe_present e = true.
Proof.
  intros Hh Hm. cbv zeta. unfold ept_leaf_large, absent, ept_large_bit, ept_rwe_present.
  set (c := Z.lor _ (Z.shiftl 1 7)).
  assert (c = 183 ∨ c = 135) as Hc.
  { subst c. destruct (mt_cases cap) as [-> | ->]; [left|right]; reflexivity. }
  destruct (page_entry c h) as (E1 & E2 & E3); [lia|done|]. rewrite E1, E2, E3.
  split_and!; [| |dlia|]; destruct Hc as [-> | ->]; reflexivity.
Qed.

Lemma leaf_4k_spec h cap : u64 h → h mod 4096 = 0 →
  let e := ept_leaf_4k h (eptp_memory_type cap) in
  absent e = false ∧ ept_hpa_from_pte e = h ∧ ept_large_bit e = false.
Proof.
  intros Hh Hm. cbv zeta. unfold ept_leaf_4k, absent, ept_large_bit.
  set (c := Z.lor ept_rwe _).
  assert (c = 55 ∨ c = 7) as Hc.
  { subst c. destruct (mt_cases cap) as [-> | ->]; [left|right]; reflexivity. }
  destruct (page_entry c h) as (E1 & E2 & E3); [lia|done|]. rewrite E1, E2, E3.
  split_and!; [|dlia|]; destruct Hc as [-> | ->]; reflexivity.
Qed.

Lemma eptp_roundtrip p cap : u64 p → p mod 4096 = 0 →
  pml4_from_eptp (pack_eptp p (eptp_memory_type cap)) = p.
Proof.
  intros Hp Hm. unfold pack_eptp, pml4_from_eptp. set (c := Z.lor _ (Z.shiftl _ 3)).
  assert (0 ≤ c < 4096) as Hc.
  { subst c. destruct (mt_cases cap) as [-> | ->]; vm_compute; split; congruence. }
  destruct (page_entry c p Hc Hp) as (_ & _ & E). unfold ept_hpa_from_pte in E. rewrite E. dlia.
Qed.

(** ** Memory lemmas *)

Lemma wr_eq m a v : wr m a v a = v.
Proof. unfold wr. by rewrite Z.eqb_refl. Qed.

Lemma wr_ne m a v x : x ≠ a → wr m a v x = m x.
Proof. intros H. unfold wr. by rewrite (proj2 (Z.eqb_neq _ _)). Qed.

Lemma fill_nat n : ∀ m base f,
  (∀ i, 0 ≤ i < Z.of_nat n → fill m base (Z.of_nat n) f (base + 8 * i) = f i) ∧
  (∀ a, (∀ i, 0 ≤ i < Z.of_nat n → a ≠ base + 8 * i) → fill m base (Z.of_nat n) f a = m a).
Proof.
  induction n as [|n IH]; intros m base f; [split; [lia|done]|].
  destruct (IH m base f) as [H1 H2]. unfold fill in *.
  replace (Z.of_nat (S n)) with (Z.of_nat n + 1) by lia.
  rewrite seqZ_app, foldl_app by lia. change (seqZ (0 + Z.of_nat n) 1) with [0 + Z.of_nat n].
  simpl. split.
  - intros i Hi. destruct (decide (i = Z.of_nat n)) as [->|]; [apply wr_eq|].
    rewrite wr_ne by lia. apply H1. lia.
  - intros a Ha. rewrite wr_ne; [apply H2; intros i Hi; apply Ha; lia|]. apply Ha. lia.
Qed.

Lemma fill_in m base n f i : 0 ≤ i < n → fill m base n f (base + 8 * i) = f i.
Proof.
  intros Hi. destruct (fill_nat (Z.to_nat n) m base f) as [H _].
  rewrite Z2Nat.id in H by lia. by apply H.
Qed.

Lemma fill_out m base n f a : (∀ i, 0 ≤ i < n → a ≠ base + 8 * i) → fill m base n f a = m a.
Proof.
  intros Ha. destruct (decide (0 ≤ n)).
  - destruct (fill_nat (Z.to_nat n) m base f) as [_ H]. rewrite Z2Nat.id in H by lia. by apply H.
  - unfold fill. by rewrite seqZ_nil by lia.
Qed.

(** The qwords of a table page, and pages as the builders get them. *)
Definition in_page (f a : Z) : Prop := f ≤ a < f + 4096.
Definition page_ok (f : Z) : Prop := u64 f ∧ f mod 4096 = 0.

Lemma page_sep f g i a : page_ok f → page_ok g → f ≠ g → 0 ≤ i < 512 → in_page g a →
  a ≠ f + 8 * i.
Proof. unfold page_ok, in_page. intros [_ Hf] [_ Hg] Hne Hi Ha. dlia. Qed.

Lemma in_page_qword f i : 0 ≤ i < 512 → in_page f (f + 8 * i).
Proof. unfold in_page. lia. Qed.

Lemma pages_differ f g i j : page_ok f → page_ok g → f ≠ g → 0 ≤ i < 512 → 0 ≤ j < 512 →
  f + 8 * i ≠ g + 8 * j.
Proof. intros Hf Hg Hne Hi Hj. apply (page_sep g f j); [done..|congruence|done|by apply in_page_qword]. Qed.

Lemma page_base_ne f g j : page_ok f → page_ok g → f ≠ g → 0 ≤ j < 512 → f ≠ g + 8 * j.
Proof.
  intros Hf Hg Hne Hj. rewrite <- (Z.add_0_r f), <- (Z.mul_0_r 8). apply pages_differ; (done || lia).
Qed.

Create HintDb hw.
#[local] Hint Resolve in_page_qword pages_differ : hw.

Lemma zero_frames_spec fs : ∀ m m', zero_frames m fs = (m', Ok ()) →
  Forall (λ f, f mod 4096 = 0) fs ∧
  (∀ f i, f ∈ fs → 0 ≤ i < 512 → m' (f + 8 * i) = 0) ∧
  (∀ a, (∀ f, f ∈ fs → ¬ in_page f a) → m' a = m a).
Proof.
  induction fs as [|f fs IH]; intros m m'; simpl.
  - intros [= <-]. split_and!; [constructor| |done]. intros f i Hf. by apply elem_of_nil in Hf.
  - rewrite land_page. destruct (Z.eqb_spec (f mod 4096) 0) as [Hf|]; [|done]. simpl. intros Hz.
    destruct (IH _ _ Hz) as (I1 & I2 & I3). split_and!; [by constructor|..].
    + intros g i Hg Hi. destruct (decide (g ∈ fs)) as [Hin|Hni]; [by apply I2|].
      apply elem_of_cons in Hg as [->|]; [|done]. rewrite I3; [by apply fill_in|].
      intros h Hh Hp. destruct (decide (h = f)) as [E|Hne]; [by subst|].
      rewrite Forall_forall in I1. specialize (I1 h Hh). unfold in_page in Hp. dlia.
    + intros a Ha. rewrite I3; [apply fill_out|].
      * intros i Hi ->. apply (Ha f (list_elem_of_here _ _)), in_page_qword, Hi.
      * intros g Hg. apply Ha. by apply elem_of_cons; right.
Qed.

Lemma zero_frames_err fs : ∀ m m' e, zero_frames m fs = (m', Err e) → e = Unsupported.
Proof.
  induction fs as [|f fs IH]; intros m m' e; simpl; [done|].
  destruct (negb _); [by intros [= _ <-]|apply IH].
Qed.

Lemma zero_frames_ok fs : ∀ m, Forall (λ f, f mod 4096 = 0) fs →
  ∃ m', zero_frames m fs = (m', Ok ()).
Proof.
  induction fs as [|f fs IH]; intros m Hall; simpl; [by eexists|].
  apply Forall_cons in Hall as [Hf Hall]. rewrite land_page, Hf. simpl. by apply IH.
Qed.

(** ** Page directories *)

(** The loop shared by the 2 MiB builders: one directory per gibibyte. *)
Definition link_pds (m : Mem) (pdpt : Z) (pd : Z → Z) (cnt : Z → Z) (leaf : Z → Z → Z) (n : Z) : Mem :=
  foldl (λ m i, fill (wr m (pdpt + 8 * i) (ept_link (pd i))) (pd i) (cnt i) (leaf i)) m (seqZ 0 n).

(** Distinct table pages: the root, the second level and [n] directories. *)
Record layout (pml4 pdpt : Z) (pd : Z → Z) (n : Z) : Prop := {
  lay_n : 0 ≤ n ≤ 512;
  lay_pml4 : page_ok pml4;
  lay_pdpt : page_ok pdpt;
  lay_pd : ∀ i, 0 ≤ i < n → page_ok (pd i);
  lay_d1 : pml4 ≠ pdpt;
  lay_d2 : ∀ i, 0 ≤ i < n → pml4 ≠ pd i ∧ pdpt ≠ pd i;
  lay_d3 : ∀ i j, 0 ≤ i < n → 0 ≤ j < n → i ≠ j → pd i ≠ pd j;
}.

Lemma layout_le pml4 pdpt pd n n' : layout pml4 pdpt pd n → 0 ≤ n' ≤ n → layout pml4 pdpt pd n'.
Proof.
  intros [] Hn. constructor; try done; [lia|..].
  - intros i Hi. apply lay_pd0. lia.
  - intros i Hi. apply lay_d5. lia.
  - intros i j Hi Hj. apply lay_d6; lia.
Qed.

Lemma link_pds_nat pml4 pdpt pd cnt leaf m n :
  layout pml4 pdpt pd (Z.of_nat n) → (∀ i, 0 ≤ i < Z.of_nat n → 0 ≤ cnt i ≤ 512) →
  let m' := link_pds m pdpt pd cnt leaf (Z.of_nat n) in
  (∀ i, 0 ≤ i < Z.of_nat n → m' (pdpt + 8 * i) = ept_link (pd i)) ∧
  (∀ i j, 0 ≤ i < Z.of_nat n → 0 ≤ j < cnt i → m' (pd i + 8 * j) = leaf i j) ∧
  (∀ a, (∀ i, 0 ≤ i < Z.of_nat n → a ≠ pdpt + 8 * i) →
        (∀ i j, 0 ≤ i < Z.of_nat n → 0 ≤ j < cnt i → a ≠ pd i + 8 * j) → m' a = m a).
Proof.
  induction n as [|n IH]; intros Hl Hc; [split_and!; [lia|lia|done]|].
  destruct IH as (I1 & I2 & I3); [eapply layout_le; [done|lia]|intros; apply Hc; lia|].
  unfold link_pds in *. replace (Z.of_nat (S n)) with (Z.of_nat n + 1) by lia.
  rewrite seqZ_app, foldl_app by lia. change (seqZ (0 + Z.of_nat n) 1) with [0 + Z.of_nat n].
  rewrite Z.add_0_l. cbn [foldl]. set (m1 := foldl _ m _) in *. set (k := Z.of_nat n) in *.
  destruct Hl as [Ln Lp4 Lp3 Lpd L1 L2 L3]. specialize (Hc k ltac:(lia)) as Hck.
  assert (∀ i, 0 ≤ i < k + 1 → ∀ j, 0 ≤ j < cnt k → pdpt + 8 * i ≠ pd k + 8 * j) as D1.
  { intros i Hi j Hj. apply pages_differ; [done|apply Lpd; lia|apply L2; lia|lia..]. }
  split_and!.
  - intros i Hi. rewrite fill_out by (intros j Hj; apply D1; lia).
    destruct (decide (i = k)) as [->|]; [apply wr_eq|]. rewrite wr_ne by lia. apply I1. lia.
  - intros i j Hi Hj. destruct (decide (i = k)) as [->|Hne]; [by apply fill_in|].
    assert (0 ≤ cnt i ≤ 512) as Hci by (apply Hc; lia).
    rewrite fill_out.
    + rewrite wr_ne; [apply I2; lia|]. symmetry.
      apply pages_differ; [done|apply Lpd; lia|apply L2; lia|lia..].
    + intros j' Hj'. apply pages_differ; [apply Lpd; lia|apply Lpd; lia|apply L3; lia|lia..].
  - intros a Ha1 Ha2. rewrite fill_out by (intros j Hj; apply Ha2; lia).
    rewrite wr_ne by (apply Ha1; lia). apply I3.
    + intros i Hi. apply Ha1. lia.
    + intros i j Hi Hj. apply Ha2; lia.
Qed.

Lemma link_pds_spec pml4 pdpt pd cnt leaf m n :
  layout pml4 pdpt pd n → (∀ i, 0 ≤ i < n → 0 ≤ cnt i ≤ 512) →
  let m' := link_pds m pdpt pd cnt leaf n in
  (∀ i, 0 ≤ i < n → m' (pdpt + 8 * i) = ept_link (pd i)) ∧
  (∀ i j, 0 ≤ i < n → 0 ≤ j < cnt i → m' (pd i + 8 * j) = leaf i j) ∧
  (∀ a, (∀ i, 0 ≤ i < n → a ≠ pdpt + 8 * i) →
        (∀ i j, 0 ≤ i < n → 0 ≤ j < cnt i → a ≠ pd i + 8 * j) → m' a = m a).
Proof.
  intros Hl Hc. pose proof (lay_n _ _ _ _ Hl).
  pose proof (link_pds_nat pml4 pdpt pd cnt leaf m (Z.to_nat n)) as H'.
  rewrite Z2Nat.id in H' by lia. by apply H'.
Qed.

(** ** Identity tables *)

(** Memory holds 2 MiB identity tables whose present pages are [present]. *)
Record id_tables (cap : Z) (m : Mem) (pml4 pdpt : Z) (pd : Z → Z) (n : Z)
    (present : Z → bool) : Prop := {
  it_layout : layout pml4 pdpt pd n;
  it_root : m pml4 = ept_link pdpt;
  it_root0 : ∀ k, 1 ≤ k < 512 → m (pml4 + 8 * k) = 0;
  it_pdpt : ∀ i, 0 ≤ i < n → m (pdpt + 8 * i) = ept_link (pd i);
  it_pdpt0 : ∀ i, n ≤ i < 512 → m (pdpt + 8 * i) = 0;
  it_pd : ∀ i j, 0 ≤ i < n → 0 ≤ j < 512 → m (pd i + 8 * j) =
    if present (512 * i + j) then ept_leaf_large ((512 * i + j) * TWO_MIB) (eptp_memory_type cap)
    else 0;
}.

Definition GPA_LIMIT : Z := 281474976710656.

Lemma idx_div sh gpa : 0 ≤ sh → idx sh gpa = (gpa / 2 ^ sh) mod 512.
Proof.
  intros Hs. unfold idx. rewrite Z.shiftr_div_pow2 by done. exact (Z.land_ones _ 9 ltac:(lia)).
Qed.

Lemma idx39 gpa : idx 39 gpa = (gpa / 549755813888) mod 512.
Proof. by apply (idx_div 39). Qed.
Lemma idx30 gpa : idx 30 gpa = (gpa / 1073741824) mod 512.
Proof. by apply (idx_div 30). Qed.
Lemma idx21 gpa : idx 21 gpa = (gpa / 2097152) mod 512.
Proof. by apply (idx_div 21). Qed.
Lemma idx12 gpa : idx 12 gpa = (gpa / 4096) mod 512.
Proof. by apply (idx_div 12). Qed.

Lemma translate_id_tables cap m pml4 pdpt pd n present gpa :
  id_tables cap m pml4 pdpt pd n present → 0 ≤ gpa < GPA_LIMIT →
  translate m pml4 gpa =
    if (gpa <? n * 1073741824) && present (gpa / TWO_MIB) then Some gpa else None.
Proof.
  intros [Hl R R0 P P0 D] Hg. unfold GPA_LIMIT in Hg.
  pose proof (lay_n _ _ _ _ Hl) as Hn. unfold translate. rewrite idx39, idx30, idx21, idx12.
  destruct (decide (gpa < 549755813888)) as [Hlo|Hhi].
  2:{ rewrite R0 by dlia. rewrite absent_0. by rewrite (proj2 (Z.ltb_ge _ _)) by lia. }
  replace ((gpa / 549755813888) mod 512) with 0 by dlia. rewrite Z.mul_0_r, Z.add_0_r, R.
  destruct (link_spec pdpt) as (-> & _ & -> & _); [apply Hl..|].
  replace ((gpa / 1073741824) mod 512) with (gpa / 1073741824) by dlia.
  destruct (Z.ltb_spec gpa (n * 1073741824)) as [Hlt|Hge]; simpl andb.
  2:{ rewrite P0 by dlia. by rewrite absent_0. }
  rewrite P by dlia. destruct (link_spec (pd (gpa / 1073741824))) as (-> & -> & -> & _);
    [apply Hl; dlia..|].
  rewrite D by dlia.
  replace (512 * (gpa / 1073741824) + (gpa / 2097152) mod 512) with (gpa / TWO_MIB)
    by (unfold TWO_MIB; dlia).
  destruct (present (gpa / TWO_MIB)); [|by rewrite absent_0].
  destruct (leaf_large_spec (gpa / TWO_MIB * TWO_MIB) cap) as (-> & -> & -> & _);
    [unfold TWO_MIB; dlia..|]. f_equal. unfold TWO_MIB. dlia.
Qed.

Lemma gpa_is_mapped_translate m pml4 gpa :
  gpa_is_mapped m pml4 gpa = bool_decide (is_Some (translate m pml4 gpa)).
Proof.
  symmetry. unfold gpa_is_mapped, translate.
  destruct (absent _); [by apply bool_decide_false; intros [? [=]]|].
  destruct (absent _); [by apply bool_decide_false; intros [? [=]]|].
  destruct (ept_large_bit _); [by apply bool_decide_true; eexists|].
  destruct (absent _); [by apply bool_decide_false; intros [? [=]]|].
  destruct (ept_large_bit _); [by apply bool_decide_true; eexists|].
  destruct (absent _); [by apply bool_decide_false; intros [? [=]]|by apply bool_decide_true; eexists].
Qed.

(** ** The frames the builders are given *)

(** The first [need] frames are distinct, page-aligned physical addresses. *)
Record frames_ok (need : Z) (frames : list Z) : Prop := {
  fo_len : need ≤ flen frames;
  fo_nodup : NoDup (take (Z.to_nat need) frames);
  fo_pages : Forall page_ok (take (Z.to_nat need) frames);
}.

Lemma frame_at_lookup need frames i : frames_ok need frames → 0 ≤ i < need →
  take (Z.to_nat need) frames !! Z.to_nat i = Some (frame_at frames i).
Proof.
  intros [Hl _ _] Hi. unfold flen in Hl. rewrite lookup_take_lt by lia. unfold frame_at.
  destruct (frames !! Z.to_nat i) eqn:E; [done|]. apply lookup_ge_None in E. lia.
Qed.

Lemma frame_at_elem need frames i : frames_ok need frames → 0 ≤ i < need →
  frame_at frames i ∈ take (Z.to_nat need) frames.
Proof. intros Hf Hi. eapply list_elem_of_lookup_2, frame_at_lookup; done. Qed.

Lemma frame_at_ok need frames i : frames_ok need frames → 0 ≤ i < need →
  page_ok (frame_at frames i).
Proof.
  intros Hf Hi. pose proof (fo_pages _ _ Hf) as Hp. rewrite Forall_lookup in Hp.
  eapply Hp, frame_at_lookup; done.
Qed.

Lemma frame_at_ne need frames i j : frames_ok need frames → 0 ≤ i < need → 0 ≤ j < need →
  i ≠ j → frame_at frames i ≠ frame_at frames j.
Proof.
  intros Hf Hi Hj Hne E. pose proof (frame_at_lookup _ _ _ Hf Hi) as Li.
  pose proof (frame_at_lookup _ _ _ Hf Hj) as Lj. rewrite <- E in Lj.
  pose proof (NoDup_lookup _ _ _ _ (fo_nodup _ _ Hf) Li Lj). lia.
Qed.

Lemma layout_of_frames frames n : frames_ok (2 + n) frames → 0 ≤ n ≤ 512 →
  layout (frame_at frames 0) (frame_at frames 1) (λ i, frame_at frames (2 + i)) n.
Proof.
  intros Hf Hn.
  constructor; [done|..]; intros; try split;
    first [eapply frame_at_ok; [done|lia]|eapply frame_at_ne; [done|lia..]].
Qed.

(** Zeroed frames: every qword of the first [need] frames is zero, and memory
    elsewhere is untouched. *)
Lemma zeroed need frames m : frames_ok need frames →
  ∃ m0, zero_frames m (take (Z.to_nat need) frames) = (m0, Ok ()) ∧
    (∀ i k, 0 ≤ i < need → 0 ≤ k < 512 → m0 (frame_at frames i + 8 * k) = 0) ∧
    (∀ a, (∀ i, 0 ≤ i < need → ¬ in_page (frame_at frames i) a) → m0 a = m a).
Proof.
  intros Hf. destruct (zero_frames_ok (take (Z.to_nat need) frames) m) as [m0 E].
  { eapply Forall_impl; [apply (fo_pages _ _ Hf)|]. by intros f [_ ?]. }
  exists m0. destruct (zero_frames_spec _ _ _ E) as (_ & Z1 & Z2). split_and!; [done|..].
  - intros i k Hi Hk. apply Z1; [|done]. by apply (frame_at_elem need).
  - intros a Ha. apply Z2. intros f (k & Hk)%list_elem_of_lookup.
    pose proof (lookup_lt_Some _ _ _ Hk) as Hlt. rewrite length_take in Hlt.
    specialize (Ha (Z.of_nat k) ltac:(lia)).
    pose proof (frame_at_lookup need frames (Z.of_nat k) Hf ltac:(lia)) as E'.
    rewrite Nat2Z.id in E'. rewrite Hk in E'. by injection E' as ->.
Qed.

(** Memory outside the caller's table frames is untouched. *)
Definition only_frames (m m' : Mem) (need : Z) (frames : list Z) : Prop :=
  ∀ a, (∀ i, 0 ≤ i < need → ¬ in_page (frame_at frames i) a) → m' a = m a.

(** The table writes shared by the 2 MiB builders, after the zeroing loop. *)
Lemma pds_tables cap m frames n cnt present :
  frames_ok (2 + n) frames → 0 ≤ n ≤ 512 → (∀ i, 0 ≤ i < n → 0 ≤ cnt i ≤ 512) →
  (∀ i j, 0 ≤ i < n → 0 ≤ j < 512 → present (512 * i + j) = (j <? cnt i)) →
  ∀ m0, zero_frames m (take (Z.to_nat (2 + n)) frames) = (m0, Ok ()) →
  let mt := eptp_memory_type cap in
  let m' := link_pds (wr m0 (frame_at frames 0) (ept_link (frame_at frames 1)))
     (frame_at frames 1) (λ i, frame_at frames (2 + i)) cnt
     (λ i j, ept_leaf_large ((512 * i + j) * TWO_MIB) mt) n in
  id_tables cap m' (frame_at frames 0) (frame_at frames 1) (λ i, frame_at frames (2 + i)) n present
  ∧ only_frames m m' (2 + n) frames.
Proof.
  intros Hf Hn Hc Hp m0 Ez mt m'. pose proof (layout_of_frames frames n Hf Hn) as Hl.
  destruct (zeroed (2 + n) frames m Hf) as (m0' & Ez' & Z1 & Z2). rewrite Ez in Ez'.
  injection Ez' as <-.
  destruct (link_pds_spec _ _ _ cnt (λ i j, ept_leaf_large ((512 * i + j) * TWO_MIB) mt)
    (wr m0 (frame_at frames 0) (ept_link (frame_at frames 1))) n Hl Hc) as (L1 & L2 & L3).
  fold m' in L1, L2, L3. pose proof Hl as [_ P4 P3 PD D1 D2 D3].
  assert (∀ k, 0 ≤ k < 512 → m' (frame_at frames 0 + 8 * k)
    = wr m0 (frame_at frames 0) (ept_link (frame_at frames 1)) (frame_at frames 0 + 8 * k)) as Hroot.
  { intros k Hk. apply L3.
    - intros i Hi. apply pages_differ; (done || lia).
    - intros i j Hi Hj. specialize (Hc i Hi).
      apply pages_differ; [done|by apply PD|by apply D2|lia..]. }
  split; [constructor; [done|..]|].
  - specialize (Hroot 0 ltac:(lia)). rewrite Z.mul_0_r, Z.add_0_r in Hroot.
    rewrite Hroot. apply wr_eq.
  - intros k Hk. rewrite Hroot, wr_ne by lia. apply Z1; lia.
  - done.
  - intros i Hi. rewrite L3.
    + rewrite wr_ne; [apply Z1; lia|].
      rewrite <- (Z.add_0_r (frame_at frames 0)), <- (Z.mul_0_r 8).
      apply pages_differ; (done || lia || congruence).
    + intros k Hk. lia.
    + intros k j Hk Hj. specialize (Hc k Hk).
      apply pages_differ; [done|by apply PD|by apply D2|lia..].
  - intros i j Hi Hj. rewrite Hp by done. destruct (Z.ltb_spec j (cnt i)) as [Hlt|Hge].
    + apply L2; [done|lia].
    + rewrite L3; [rewrite wr_ne|..].
      * apply Z1; lia.
      * rewrite <- (Z.add_0_r (frame_at frames 0)), <- (Z.mul_0_r 8).
        apply pages_differ; [by apply PD|done|apply not_eq_sym; by apply D2|lia..].
      * intros k Hk. apply pages_differ; [by apply PD|done|apply not_eq_sym; by apply D2|lia..].
      * intros k j' Hk Hj'. destruct (decide (k = i)) as [->|Hne]; [lia|].
        specialize (Hc k Hk). apply pages_differ; [by apply PD|by apply PD|by apply D3|lia..].
  - intros a Ha. rewrite L3; [rewrite wr_ne; [by apply Z2|]|..].
    + intros ->. apply (Ha 0); [lia|]. unfold in_page. lia.
    + intros i Hi ->. apply (Ha 1); [lia|]. apply in_page_qword. lia.
    + intros i j Hi Hj ->. specialize (Hc i Hi).
      apply (Ha (2 + i)); [lia|]. apply in_page_qword. lia.
Qed.

Lemma land_2m x : Z.land x (TWO_MIB - 1) = x mod TWO_MIB.
Proof. exact (Z.land_ones x 21 ltac:(lia)). Qed.

(** What [build_identity_2m_bytes] leaves when its arguments are acceptable. *)
Lemma build_2m_tables cap m bytes frames :
  0 < bytes ≤ DEFAULT_APIC_PHYS → bytes mod TWO_MIB = 0 →
  frames_ok (frames_required_2m_bytes bytes) frames →
  ∃ m', build_identity_2m_bytes cap m bytes frames =
      (m', Ok (pack_eptp (frame_at frames 0) (eptp_memory_type cap))) ∧
    id_tables cap m' (frame_at frames 0) (frame_at frames 1) (λ i, frame_at frames (2 + i))
      ((bytes / TWO_MIB + 511) / 512) (λ k, k <? bytes / TWO_MIB) ∧
    only_frames m m' (frames_required_2m_bytes bytes) frames.
Proof.
  intros Hb Hm Hf. unfold DEFAULT_APIC_PHYS in Hb. unfold build_identity_2m_bytes.
  rewrite land_2m, Hm. rewrite (proj2 (Z.eqb_neq bytes 0)) by lia. simpl orb.
  rewrite (proj2 (Z.ltb_ge _ _)) by (unfold DEFAULT_APIC_PHYS; lia).
  pose proof (fo_len _ _ Hf) as Hlen. rewrite (proj2 (Z.ltb_ge _ _)) by done.
  set (n := (bytes / TWO_MIB + 511) / 512).
  assert (0 ≤ n ≤ 512) as Hn by (subst n; unfold TWO_MIB; dlia).
  assert (frames_required_2m_bytes bytes = 2 + n) as En.
  { unfold frames_required_2m_bytes. rewrite (proj2 (Z.eqb_neq bytes 0)) by lia.
    change (Z.shiftl 1 30) with 1073741824.
    rewrite add64_small, sub64_small, Z.shiftr_div_pow2 by mlia. change (2 ^ 30) with 1073741824.
    subst n. unfold TWO_MIB in *. dlia. }
  rewrite En in *. destruct (zeroed _ _ m Hf) as (m0 & Ez & _). rewrite Ez.
  pose proof (pds_tables cap m frames n (λ i, Z.min (i * 512 + 512) (bytes / TWO_MIB) - i * 512)
    (λ k, k <? bytes / TWO_MIB) Hf Hn) as Hpd.
  destruct (Hpd ltac:(intros i Hi; cbv beta; subst n; unfold TWO_MIB in *; dlia)
    ltac:(intros i j Hi Hj; cbv beta; apply eq_true_iff_eq; rewrite !Z.ltb_lt; lia) m0 Ez)
    as [Ht Ho].
  eexists. split; [reflexivity|].
  assert (∀ m1, foldl (λ (m : Mem) i,
      fill (wr m (frame_at frames 1 + 8 * i) (ept_link (frame_at frames (2 + i))))
        (frame_at frames (2 + i)) (Z.min (i * 512 + 512) (bytes / TWO_MIB) - i * 512)
        (λ slot, ept_leaf_large ((i * 512 + slot) * TWO_MIB) (eptp_memory_type cap)))
      m1 (seqZ 0 n)
    = link_pds m1 (frame_at frames 1) (λ i, frame_at frames (2 + i))
        (λ i, Z.min (i * 512 + 512) (bytes / TWO_MIB) - i * 512)
        (λ i j, ept_leaf_large ((512 * i + j) * TWO_MIB) (eptp_memory_type cap)) n) as ->.
  { intros m1. unfold link_pds. apply foldl_seqZ_ext. intros m2 i Hi. unfold fill.
    apply foldl_seqZ_ext. intros m3 j Hj. by rewrite (Z.mul_comm i 512). }
  done.
Qed.

Lemma build_gib_2m_tables cap m gib frames : 0 < gib ≤ 512 → frames_ok (2 + gib) frames →
  ∃ m', build_identity_gib cap m TwoMib gib frames =
      (m', Ok (pack_eptp (frame_at frames 0) (eptp_memory_type cap))) ∧
    id_tables cap m' (frame_at frames 0) (frame_at frames 1) (λ i, frame_at frames (2 + i))
      gib (λ _, true) ∧ only_frames m m' (2 + gib) frames.
Proof.
  intros Hg Hf. unfold build_identity_gib, frames_required_gib.
  rewrite (proj2 (Z.eqb_neq gib 0)), (proj2 (Z.ltb_ge 512 gib)) by lia. simpl orb.
  pose proof (fo_len _ _ Hf) as Hlen. rewrite (proj2 (Z.ltb_ge _ _)) by done.
  destruct (zeroed _ _ m Hf) as (m0 & Ez & _). rewrite Ez.
  destruct (pds_tables cap m frames gib (λ _, 512) (λ _, true) Hf ltac:(lia)
    ltac:(lia) ltac:(intros i j _ Hj; symmetry; apply Z.ltb_lt; lia) m0 Ez) as [Ht Ho].
  eexists. split; [reflexivity|].
  assert (∀ m1, foldl (λ (m : Mem) i,
      fill (wr m (frame_at frames 1 + 8 * i) (ept_link (frame_at frames (2 + i))))
        (frame_at frames (2 + i)) 512
        (λ j, ept_leaf_large (Z.shiftl i 30 ⊞ Z.shiftl j 21) (eptp_memory_type cap)))
      m1 (seqZ 0 gib)
    = link_pds m1 (frame_at frames 1) (λ i, frame_at frames (2 + i)) (λ _, 512)
        (λ i j, ept_leaf_large ((512 * i + j) * TWO_MIB) (eptp_memory_type cap)) gib) as ->.
  { intros m1. unfold link_pds. apply foldl_seqZ_ext. intros m2 i Hi. unfold fill.
    apply foldl_seqZ_ext. intros m3 j Hj. do 2 f_equal.
    rewrite !Z.shiftl_mul_pow2 by lia. change (2 ^ 30) with 1073741824.
    change (2 ^ 21) with 2097152. rewrite add64_small by mlia. unfold TWO_MIB. lia. }
  done.
Qed.

(** Tables with 1 GiB leaves. *)
Record gib_tables (cap : Z) (m : Mem) (pml4 pdpt gib : Z) : Prop := {
  gt_pages : page_ok pml4 ∧ page_ok pdpt ∧ pml4 ≠ pdpt ∧ 0 ≤ gib ≤ 512;
  gt_root : m pml4 = ept_link pdpt;
  gt_root0 : ∀ k, 1 ≤ k < 512 → m (pml4 + 8 * k) = 0;
  gt_leaf : ∀ i, 0 ≤ i < gib →
    m (pdpt + 8 * i) = ept_leaf_large (i * 1073741824) (eptp_memory_type cap);
  gt_leaf0 : ∀ i, gib ≤ i < 512 → m (pdpt + 8 * i) = 0;
}.

Lemma translate_gib_tables cap m pml4 pdpt gib gpa :
  gib_tables cap m pml4 pdpt gib → 0 ≤ gpa < GPA_LIMIT →
  translate m pml4 gpa = if gpa <? gib * 1073741824 then Some gpa else None.
Proof.
  intros [(P4 & P3 & _ & Hn) R R0 L L0] Hg. unfold GPA_LIMIT in Hg. unfold translate.
  rewrite idx39, idx30. destruct (decide (gpa < 549755813888)) as [Hlo|Hhi].
  2:{ rewrite R0 by dlia. rewrite absent_0. by rewrite (proj2 (Z.ltb_ge _ _)) by lia. }
  replace ((gpa / 549755813888) mod 512) with 0 by dlia. rewrite Z.mul_0_r, Z.add_0_r, R.
  destruct (link_spec pdpt) as (-> & _ & -> & _); [apply P3..|].
  replace ((gpa / 1073741824) mod 512) with (gpa / 1073741824) by dlia.
  destruct (Z.ltb_spec gpa (gib * 1073741824)) as [Hlt|Hge].
  2:{ rewrite L0 by dlia. by rewrite absent_0. }
  rewrite L by dlia.
  destruct (leaf_large_spec (gpa / 1073741824 * 1073741824) cap) as (-> & -> & -> & _); [dlia..|].
  f_equal. dlia.
Qed.

Lemma build_gib_1g_tables cap m gib frames : 0 < gib ≤ 512 → frames_ok 2 frames →
  ∃ m', build_identity_gib cap m OneGib gib frames =
      (m', Ok (pack_eptp (frame_at frames 0) (eptp_memory_type cap))) ∧
    gib_tables cap m' (frame_at frames 0) (frame_at frames 1) gib ∧ only_frames m m' 2 frames.
Proof.
  intros Hg Hf. unfold build_identity_gib, frames_required_gib.
  rewrite (proj2 (Z.eqb_neq gib 0)), (proj2 (Z.ltb_ge 512 gib)) by lia. simpl orb.
  pose proof (fo_len _ _ Hf) as Hlen. rewrite (proj2 (Z.ltb_ge _ _)) by done.
  destruct (zeroed _ _ m Hf) as (m0 & Ez & Z1 & Z2). rewrite Ez.
  destruct (layout_of_frames frames 0 Hf ltac:(lia)) as [_ P4 P3 _ D1 _ _].
  eexists. split; [reflexivity|]. split; [constructor|].
  - split_and!; (done || lia).
  - rewrite fill_out; [apply wr_eq|]. intros i Hi.
    apply page_base_ne; (done || lia).
  - intros k Hk. rewrite fill_out by (intros i Hi; apply pages_differ; (done || lia)).
    rewrite wr_ne by lia. apply Z1; lia.
  - intros i Hi. rewrite fill_in by done. by rewrite Z.shiftl_mul_pow2 by lia.
  - intros i Hi. rewrite fill_out by lia. rewrite wr_ne; [apply Z1; lia|].
    rewrite <- (Z.add_0_r (frame_at frames 0)), <- (Z.mul_0_r 8).
    apply pages_differ; (done || lia || congruence).
  - intros a Ha. rewrite fill_out, wr_ne; [by apply Z2|..].
    + intros ->. apply (Ha 0); [lia|]. unfold in_page. lia.
    + intros i Hi ->. apply (Ha 1); [lia|]. apply in_page_qword. lia.
Qed.

(** The private slab of a shell guest: one 2 MiB leaf. *)
Lemma build_single_tables cap m hpa frames :
  0 ≤ hpa → hpa + TWO_MIB ≤ PRECISE_BYTES → hpa mod TWO_MIB = 0 → frames_ok 3 frames →
  ∃ m', build_single_2m_identity cap m hpa frames =
      (m', Ok (pack_eptp (frame_at frames 0) (eptp_memory_type cap))) ∧
    id_tables cap m' (frame_at frames 0) (frame_at frames 1) (λ i, frame_at frames (2 + i))
      1 (λ k, k =? hpa / TWO_MIB) ∧ only_frames m m' 3 frames.
Proof.
  intros H0 Hp Hm Hf. unfold PRECISE_BYTES, TWO_MIB in *. unfold build_single_2m_identity.
  rewrite land_2m. unfold TWO_MIB. rewrite Hm. simpl negb.
  rewrite (proj2 (Z.leb_gt _ _)) by (unfold PRECISE_BYTES; lia).
  rewrite (proj2 (Z.ltb_ge PRECISE_BYTES _)) by (unfold PRECISE_BYTES; mlia). simpl orb.
  pose proof (fo_len _ _ Hf) as Hlen. unfold frames_required_single_2m.
  rewrite (proj2 (Z.ltb_ge _ _)) by done.
  destruct (zeroed _ _ m Hf) as (m0 & Ez & Z1 & Z2). rewrite Ez.
  pose proof (layout_of_frames frames 1 Hf ltac:(lia)) as Hl.
  pose proof Hl as [_ P4 P3 PD D1 D2 _]. specialize (PD 0 ltac:(lia)). specialize (D2 0 ltac:(lia)).
  change (2 + 0) with 2 in PD, D2. destruct D2 as [D2 D2'].
  rewrite idx39, idx30, idx21. replace (hpa / 549755813888) with 0 by dlia.
  replace (hpa / 1073741824) with 0 by dlia. change (0 mod 512) with 0.
  replace ((hpa / 2097152) mod 512) with (hpa / 2097152) by dlia.
  assert (0 ≤ hpa / 2097152 < 512) as Hj by dlia.
  eexists. split; [reflexivity|]. split; [constructor; [done|..]|].
  - rewrite !wr_ne by (apply page_base_ne; (done || lia)). rewrite Z.mul_0_r, Z.add_0_r. apply wr_eq.
  - intros k Hk. rewrite !wr_ne; [apply Z1; lia|lia|apply pages_differ; (done || lia)..].
  - intros i Hi. replace i with 0 by lia. rewrite wr_ne by (apply pages_differ; (done || lia)).
    apply wr_eq.
  - intros i Hi. rewrite wr_ne by (apply pages_differ; (done || lia)). rewrite wr_ne by lia.
    rewrite wr_ne by (apply pages_differ; (done || lia || congruence)). apply Z1; lia.
  - intros i j Hi Hj'. replace i with 0 by lia. change (2 + 0) with 2. replace (512 * 0 + j) with j by lia.
    destruct (Z.eqb_spec j (hpa / 2097152)) as [->|Hne].
    + rewrite wr_eq. f_equal. unfold TWO_MIB. dlia.
    + rewrite wr_ne by lia. rewrite !wr_ne by (apply pages_differ; (done || lia || congruence)).
      apply Z1; lia.
  - intros a Ha. rewrite !wr_ne; [by apply Z2|..]; intros ->.
    + apply (Ha 0); [lia|]. apply in_page_qword. lia.
    + apply (Ha 1); [lia|]. apply in_page_qword. lia.
    + apply (Ha 2); [lia|]. by apply in_page_qword.
Qed.

(** Clearing one 2 MiB leaf of identity tables. *)
Lemma clear_tables cap m pml4 pdpt pd n present gpa :
  id_tables cap m pml4 pdpt pd n present → 0 ≤ gpa < GPA_LIMIT → gpa mod TWO_MIB = 0 →
  ∃ m', clear_2m_identity_leaf m pml4 gpa = (m', Ok ()) ∧
    id_tables cap m' pml4 pdpt pd n (λ k, present k && negb (k =? gpa / TWO_MIB)) ∧
    ∀ a, (∀ i, 0 ≤ i < n → ¬ in_page (pd i) a) → m' a = m a.
Proof.
  intros Ht Hg Hm. pose proof Ht as [Hl R R0 P P0 D]. unfold GPA_LIMIT, TWO_MIB in *.
  pose proof (lay_n _ _ _ _ Hl) as Hn. pose proof Hl as [_ P4 P3 PD D1 D2 D3].
  unfold clear_2m_identity_leaf. rewrite land_2m. unfold TWO_MIB. rewrite Hm. simpl negb. cbv iota.
  rewrite idx39, idx30, idx21.
  assert (n * 1073741824 ≤ gpa → id_tables cap m pml4 pdpt pd n
    (λ k, present k && negb (k =? gpa / 2097152))) as Hbeyond.
  { intros Hge. constructor; try done. intros i j Hi Hj. rewrite D by done.
    rewrite (proj2 (Z.eqb_neq _ _)) by dlia. simpl. by rewrite andb_true_r. }
  destruct (decide (gpa < 549755813888)) as [Hlo|Hhi].
  2:{ rewrite R0 by dlia. rewrite absent_0. exists m. split; [done|]. split; [apply Hbeyond; lia|done]. }
  replace ((gpa / 549755813888) mod 512) with 0 by dlia. rewrite Z.mul_0_r, Z.add_0_r, R.
  destruct (link_spec pdpt) as (-> & _ & -> & _); [apply P3..|].
  replace ((gpa / 1073741824) mod 512) with (gpa / 1073741824) by dlia.
  destruct (decide (gpa < n * 1073741824)) as [Hlt|Hge].
  2:{ rewrite P0 by dlia. rewrite absent_0. exists m. split; [done|]. split; [apply Hbeyond; lia|done]. }
  set (q := gpa / 1073741824) in *. assert (0 ≤ q < n) as Hq by (subst q; dlia).
  rewrite P by done. destruct (link_spec (pd q)) as (-> & -> & -> & _); [apply PD; done..|].
  set (j0 := (gpa / 2097152) mod 512). assert (0 ≤ j0 < 512) as Hj0 by (subst j0; dlia).
  eexists. split; [done|]. split.
  - constructor; [done|..].
    + rewrite wr_ne; [done|]. apply page_base_ne; [done|by apply PD|by apply D2|lia].
    + intros k Hk. rewrite wr_ne; [by apply R0|].
      apply pages_differ; [done|by apply PD|by apply D2|lia..].
    + intros i Hi. rewrite wr_ne; [by apply P|].
      apply pages_differ; [done|by apply PD|by apply D2|lia..].
    + intros i Hi. rewrite wr_ne; [by apply P0|].
      apply pages_differ; [done|by apply PD|by apply D2|lia..].
    + intros i j Hi Hj. destruct (decide (i = q ∧ j = j0)) as [[-> ->]|Hne].
      * rewrite wr_eq. rewrite (proj2 (Z.eqb_eq _ _)); [by rewrite andb_false_r|].
        subst q j0. dlia.
      * rewrite wr_ne.
        -- rewrite D by done. rewrite (proj2 (Z.eqb_neq _ _)); [by rewrite andb_true_r|].
           intros E. apply Hne. subst q j0. dlia.
        -- destruct (decide (i = q)) as [->|Hiq]; [lia|].
           apply pages_differ; [by apply PD|by apply PD|by apply D3|lia..].
  - intros a Ha. apply wr_ne. intros ->. apply (Ha q Hq). by apply in_page_qword.
Qed.

(** ** The firmware alias *)

(** [mapped_2m] after [n] page tables: consecutive 2 MiB regions. *)
Definition pt_table (key0 : Z) (F : Z → Z) (n : Z) : list (Z * Z) :=
  (λ t, (key0 + t, F t)) <$> seqZ 0 n.

Lemma pt_table_snoc key0 F n : 0 ≤ n →
  pt_table key0 F (n + 1) = pt_table key0 F n ++ [(key0 + n, F n)].
Proof.
  intros Hn. unfold pt_table. rewrite seqZ_app, fmap_app by lia.
  change (seqZ (0 + n) 1) with [0 + n]. done.
Qed.

Lemma find_pt_table key0 F (n : nat) key :
  find_pt (pt_table key0 F (Z.of_nat n)) key =
    if (key0 <=? key) && (key <? key0 + Z.of_nat n) then Some (F (key - key0)) else None.
Proof.
  induction n as [|n IH].
  - change (find_pt (pt_table key0 F (Z.of_nat 0)) key) with (@None Z).
    rewrite Z.add_0_r. destruct (Z.leb_spec key0 key), (Z.ltb_spec key key0); (done || lia).
  - replace (Z.of_nat (S n)) with (Z.of_nat n + 1) by lia. rewrite pt_table_snoc by lia.
    unfold find_pt in *. rewrite find_map_app, IH. simpl.
    destruct ((key0 <=? key) && (key <? key0 + Z.of_nat n)) eqn:E1,
      ((key0 <=? key) && (key <? key0 + (Z.of_nat n + 1))) eqn:E2; try done; try lia.
    + rewrite (proj2 (Z.eqb_eq _ _)) by lia. do 2 f_equal. lia.
    + by rewrite (proj2 (Z.eqb_neq _ _)) by lia.
Qed.

Section Alias.
(** A window of [np] pages that does not cross 4 GiB, its host image, the high
    directory and the page-table frames. *)
Context (cap gpa_base hpa_base np pd_hi need : Z) (frames : list Z).
Let p0 := gpa_base / 4096.
Let key0 := gpa_base / TWO_MIB.
Let F t := frame_at frames (4 + t).

(** Regions touched by the first [k] pages. *)
Definition regions (k : Z) : Z :=
  if k =? 0 then 0 else (gpa_base + 4096 * (k - 1)) / TWO_MIB - gpa_base / TWO_MIB + 1.

Record alias_hyps : Prop := {
  ah_gpa : 3221225472 ≤ gpa_base ∧ gpa_base mod 4096 = 0 ∧ gpa_base + 4096 * np ≤ 4294967296;
  ah_hpa : 0 ≤ hpa_base ∧ hpa_base mod 4096 = 0 ∧ hpa_base + 4096 * np < W64;
  ah_np : 0 ≤ np ≤ 1024;
  ah_need : need = 4 + regions np;
  ah_hi : page_ok pd_hi;
  ah_pt : ∀ t, 0 ≤ t < regions np → page_ok (frame_at frames (4 + t)) ∧ pd_hi ≠ frame_at frames (4 + t);
  ah_ne : ∀ t u, 0 ≤ t < regions np → 0 ≤ u < regions np → t ≠ u →
            frame_at frames (4 + t) ≠ frame_at frames (4 + u);
}.

(** Memory after [k] pages, from the memory [m0] before the loop. *)
Record alias_inv (m0 m : Mem) (k : Z) : Prop := {
  ai_pd : ∀ t, 0 ≤ t < regions k → m (pd_hi + 8 * ((gpa_base / TWO_MIB + t) mod 512))
            = ept_link (frame_at frames (4 + t));
  ai_pd0 : ∀ j, 0 ≤ j < 512 → (∀ t, 0 ≤ t < regions k → j ≠ (gpa_base / TWO_MIB + t) mod 512) →
            m (pd_hi + 8 * j) = m0 (pd_hi + 8 * j);
  ai_pt : ∀ t j, 0 ≤ t < regions np → 0 ≤ j < 512 →
            let p := (gpa_base / TWO_MIB + t) * 512 + j in
            m (frame_at frames (4 + t) + 8 * j) =
              if (gpa_base / 4096 <=? p) && (p <? gpa_base / 4096 + k)
              then ept_leaf_4k (hpa_base + 4096 * (p - gpa_base / 4096)) (eptp_memory_type cap)
              else m0 (frame_at frames (4 + t) + 8 * j);
  ai_out : ∀ a, ¬ in_page pd_hi a →
            (∀ t, 0 ≤ t < regions np → ¬ in_page (frame_at frames (4 + t)) a) → m a = m0 a;
}.
End Alias.

(** The number of regions grows by at most one page table per page. *)
Lemma regions_step gpa_base k : 0 ≤ gpa_base → gpa_base mod 4096 = 0 → 0 ≤ k →
  let key := (gpa_base + 4096 * k) / TWO_MIB in
  0 ≤ regions gpa_base k ∧ regions gpa_base (k + 1) = key - gpa_base / TWO_MIB + 1 ∧
  (key = gpa_base / TWO_MIB + regions gpa_base k ∨
   key = gpa_base / TWO_MIB + regions gpa_base k - 1 ∧ 0 < regions gpa_base k).
Proof.
  intros Hg Hm Hk. unfold regions, TWO_MIB. rewrite (proj2 (Z.eqb_neq (k + 1) 0)) by lia.
  replace (k + 1 - 1) with k by lia. destruct (Z.eqb_spec k 0) as [->|]; dlia.
Qed.

Lemma regions_mono gpa_base k k' : 0 ≤ gpa_base → 0 ≤ k ≤ k' →
  0 ≤ regions gpa_base k ≤ regions gpa_base k'.
Proof.
  intros Hg Hk. unfold regions, TWO_MIB.
  destruct (Z.eqb_spec k 0), (Z.eqb_spec k' 0); dlia.
Qed.

Lemma regions_small gpa_base k : 0 ≤ gpa_base → gpa_base mod 4096 = 0 → 0 ≤ k ≤ 1024 →
  regions gpa_base k ≤ 3.
Proof. intros Hg Hm Hk. unfold regions, TWO_MIB. destruct (Z.eqb_spec k 0); dlia. Qed.

(** The leaf write of one page. *)
Lemma alias_leaf cap gpa_base hpa_base np pd_hi need frames m0 m k :
  alias_hyps gpa_base hpa_base np pd_hi need frames → 0 ≤ k < np →
  regions gpa_base (k + 1) = (gpa_base + 4096 * k) / TWO_MIB - gpa_base / TWO_MIB + 1 →
  let t := (gpa_base + 4096 * k) / TWO_MIB - gpa_base / TWO_MIB in
  (∀ u, 0 ≤ u < regions gpa_base (k + 1) →
     m (pd_hi + 8 * ((gpa_base / TWO_MIB + u) mod 512)) = ept_link (frame_at frames (4 + u))) →
  (∀ j, 0 ≤ j < 512 → (∀ u, 0 ≤ u < regions gpa_base (k + 1) →
     j ≠ (gpa_base / TWO_MIB + u) mod 512) → m (pd_hi + 8 * j) = m0 (pd_hi + 8 * j)) →
  (∀ t j, 0 ≤ t < regions gpa_base np → 0 ≤ j < 512 →
     let p := (gpa_base / TWO_MIB + t) * 512 + j in
     m (frame_at frames (4 + t) + 8 * j) =
       if (gpa_base / 4096 <=? p) && (p <? gpa_base / 4096 + k)
       then ept_leaf_4k (hpa_base + 4096 * (p - gpa_base / 4096)) (eptp_memory_type cap)
       else m0 (frame_at frames (4 + t) + 8 * j)) →
  (∀ a, ¬ in_page pd_hi a →
     (∀ t, 0 ≤ t < regions gpa_base np → ¬ in_page (frame_at frames (4 + t)) a) → m a = m0 a) →
  alias_inv cap gpa_base hpa_base np pd_hi frames m0
    (wr m (frame_at frames (4 + t) + 8 * idx 12 (gpa_base + 4096 * k))
       (ept_leaf_4k (hpa_base + 4096 * k) (eptp_memory_type cap))) (k + 1).
Proof.
  intros [(G1 & G2 & G3) _ Hnp _ Hhi Hpt Hne] Hk Er t I1 I2 I3 I4.
  assert (0 ≤ t < regions gpa_base np) as Ht.
  { pose proof (regions_mono gpa_base (k + 1) np ltac:(lia) ltac:(lia)).
    subst t. unfold TWO_MIB in *. dlia. }
  destruct (Hpt t Ht) as [Pt Dt]. rewrite idx12.
  set (j0 := ((gpa_base + 4096 * k) / 4096) mod 512).
  assert (0 ≤ j0 < 512) as Hj0 by (subst j0; dlia).
  assert ((gpa_base / TWO_MIB + t) * 512 + j0 = gpa_base / 4096 + k) as Ep.
  { subst t j0. unfold TWO_MIB. dlia. }
  constructor.
  - intros u Hu. rewrite wr_ne; [by apply I1|]. apply pages_differ; (done || dlia).
  - intros j Hj Hno. rewrite wr_ne; [by apply I2|]. by apply pages_differ.
  - intros u j Hu Hj p. destruct (Hpt u Hu) as [Pu Du].
    destruct (decide (u = t ∧ j = j0)) as [[-> ->]|Hn].
    + rewrite wr_eq. subst p. rewrite Ep.
      rewrite (proj2 (Z.leb_le _ _)), (proj2 (Z.ltb_lt _ _)) by lia. simpl. f_equal. lia.
    + rewrite wr_ne.
      2:{ destruct (decide (u = t)) as [->|Hut]; [lia|].
          apply pages_differ; [done|done|by apply Hne|done|done]. }
      rewrite (I3 u j Hu Hj). subst p.
      assert ((gpa_base / TWO_MIB + u) * 512 + j ≠ gpa_base / 4096 + k) as Hpk by lia.
      destruct ((_ <=? _) && (_ <? gpa_base / 4096 + k)) eqn:E1,
        ((_ <=? _) && (_ <? gpa_base / 4096 + (k + 1))) eqn:E2; (done || lia).
  - intros a Ha1 Ha2. rewrite wr_ne; [by apply I4|]. intros ->.
    apply (Ha2 t Ht). by apply in_page_qword.
Qed.

Lemma alias_loop_spec cap gpa_base hpa_base np pd_hi need frames m0 :
  alias_hyps gpa_base hpa_base np pd_hi need frames →
  ∀ (c : nat) k m, k + Z.of_nat c = np → 0 ≤ k →
  alias_inv cap gpa_base hpa_base np pd_hi frames m0 m k →
  ∃ m', alias_loop (eptp_memory_type cap) gpa_base hpa_base pd_hi need frames m
      (4 + regions gpa_base k)
      (pt_table (gpa_base / TWO_MIB) (λ t, frame_at frames (4 + t)) (regions gpa_base k))
      ((λ k, 4096 * k) <$> seqZ k (Z.of_nat c)) = (m', Ok ()) ∧
    alias_inv cap gpa_base hpa_base np pd_hi frames m0 m' np.
Proof.
  intros Hh. pose proof Hh as [(G1 & G2 & G3) (Q1 & Q2 & Q3) Hnp Hneed Hhi Hpt Hne].
  induction c as [|c IH]; intros k m Hk Hk0 Hinv.
  { exists m. split; [done|]. assert (k = np) as -> by lia. done. }
  rewrite seqZ_S, fmap_cons. cbn [alias_loop].
  rewrite !(add64_small gpa_base), !(add64_small hpa_base) by mlia.
  rewrite !Z.shiftr_div_pow2 by lia. change (2 ^ 21) with TWO_MIB.
  destruct (regions_step gpa_base k ltac:(lia) G2 Hk0) as (R0 & R1 & Rk).
  pose proof (regions_mono gpa_base (k + 1) np ltac:(lia) ltac:(lia)) as Rm.
  pose proof (regions_small gpa_base np ltac:(lia) G2 Hnp) as Rs.
  set (key := (gpa_base + 4096 * k) / TWO_MIB) in *. set (n := regions gpa_base k) in *.
  pose proof (find_pt_table (gpa_base / TWO_MIB) (λ t, frame_at frames (4 + t)) (Z.to_nat n) key) as Ef.
  rewrite Z2Nat.id in Ef by lia. rewrite Ef. clear Ef.
  pose proof Hinv as [I1 I2 I3 I4].
  destruct Rk as [Rk|[Rk Rpos]].
  - replace ((gpa_base / TWO_MIB <=? key) && (key <? gpa_base / TWO_MIB + n)) with false by lia.
    unfold pt_table at 1 2. rewrite !length_fmap, !length_seqZ, Z2Nat.id by lia.
    rewrite Hneed. replace (sat_sub64 (4 + regions gpa_base np) 4 <=? n) with false by mlia.
    replace (4 <=? n) with false by lia.
    replace (4 + regions gpa_base np <=? 4 + n) with false by lia. simpl orb. cbv iota.
    rewrite <- Hneed.
    replace (pt_table (gpa_base / TWO_MIB) (λ t, frame_at frames (4 + t)) n
             ++ [(key, frame_at frames (4 + n))])
      with (pt_table (gpa_base / TWO_MIB) (λ t, frame_at frames (4 + t)) (n + 1))
      by (rewrite pt_table_snoc by lia; by rewrite Rk).
    assert (regions gpa_base (k + 1) = n + 1) as Rn by lia.
    replace (4 + n + 1) with (4 + regions gpa_base (k + 1)) by lia. rewrite <- Rn.
    apply IH; [lia|lia|].
    pose proof (alias_leaf cap gpa_base hpa_base np pd_hi need frames m0
      (wr m (pd_hi + 8 * idx 21 (gpa_base + 4096 * k)) (ept_link (frame_at frames (4 + n)))) k
      Hh ltac:(lia) R1) as Hleaf.
    cbv zeta in Hleaf. fold key in Hleaf.
    replace (key - gpa_base / TWO_MIB) with n in Hleaf by lia.
    assert (idx 21 (gpa_base + 4096 * k) = (gpa_base / TWO_MIB + n) mod 512) as Ei
      by (rewrite idx21, <- Rk; done).
    rewrite Ei in *. apply Hleaf.
    + intros u Hu. destruct (decide (u = n)) as [->|Hun]; [apply wr_eq|].
      rewrite wr_ne; [apply I1; lia|]. unfold TWO_MIB in *. dlia.
    + intros j Hj Hno. rewrite wr_ne; [apply I2; [done|]; intros u Hu; apply Hno; lia|].
      specialize (Hno n ltac:(lia)). lia.
    + intros u j Hu Hj. destruct (Hpt u Hu) as [Pu Du].
      rewrite wr_ne; [by apply I3|]. apply pages_differ; [done|done|congruence|done|].
      apply Z.mod_pos_bound. lia.
    + intros a Ha1 Ha2. rewrite wr_ne; [by apply I4|]. intros ->. apply Ha1, in_page_qword.
      apply Z.mod_pos_bound. lia.
  - replace ((gpa_base / TWO_MIB <=? key) && (key <? gpa_base / TWO_MIB + n)) with true by lia.
    assert (regions gpa_base (k + 1) = n) as Rn by lia. rewrite <- Rn.
    apply IH; [lia|lia|].
    apply (alias_leaf cap gpa_base hpa_base np pd_hi need frames m0 m k Hh ltac:(lia) R1);
      rewrite ?Rn; done.
Qed.

Lemma region_page gpa : gpa / TWO_MIB * 512 + (gpa / 4096) mod 512 = gpa / 4096.
Proof. unfold TWO_MIB. dlia. Qed.

(** The tables of a private guest-UEFI: low RAM and the firmware window. *)
Record fw_tables (cap : Z) (m : Mem) (pml4 pdpt pd_hi pd_lo : Z) (F : Z → Z)
    (gpa_base hpa_base np ram_hpa : Z) : Prop := {
  ft_pages : page_ok pdpt ∧ page_ok pd_hi ∧ page_ok pd_lo ∧
             ∀ t, 0 ≤ t < regions gpa_base np → page_ok (F t);
  ft_root : m pml4 = ept_link pdpt;
  ft_root0 : ∀ k, 1 ≤ k < 512 → m (pml4 + 8 * k) = 0;
  ft_lo : m pdpt = ept_link pd_lo;
  ft_hi : m (pdpt + 8 * 3) = ept_link pd_hi;
  ft_none : ∀ i, 0 ≤ i < 512 → i ≠ 0 → i ≠ 3 → m (pdpt + 8 * i) = 0;
  ft_ram : ∀ j, 0 ≤ j < 512 → m (pd_lo + 8 * j) =
    if j <? 16 then ept_leaf_large (ram_hpa + j * TWO_MIB) (eptp_memory_type cap) else 0;
  ft_pd : ∀ t, 0 ≤ t < regions gpa_base np →
    m (pd_hi + 8 * ((gpa_base / TWO_MIB + t) mod 512)) = ept_link (F t);
  ft_pd0 : ∀ j, 0 ≤ j < 512 →
    (∀ t, 0 ≤ t < regions gpa_base np → j ≠ (gpa_base / TWO_MIB + t) mod 512) →
    m (pd_hi + 8 * j) = 0;
  ft_pt : ∀ t j, 0 ≤ t < regions gpa_base np → 0 ≤ j < 512 →
    let p := (gpa_base / TWO_MIB + t) * 512 + j in
    m (F t + 8 * j) =
      if (gpa_base / 4096 <=? p) && (p <? gpa_base / 4096 + np)
      then ept_leaf_4k (hpa_base + 4096 * (p - gpa_base / 4096)) (eptp_memory_type cap) else 0;
}.

Lemma translate_fw_tables cap m pml4 pdpt pd_hi pd_lo F gpa_base hpa_base np ram_hpa gpa :
  fw_tables cap m pml4 pdpt pd_hi pd_lo F gpa_base hpa_base np ram_hpa →
  3221225472 ≤ gpa_base → gpa_base mod 4096 = 0 → gpa_base + 4096 * np = 4294967296 → 0 < np →
  0 ≤ hpa_base → hpa_base mod 4096 = 0 → hpa_base + 4096 * np < W64 →
  0 ≤ ram_hpa → ram_hpa mod TWO_MIB = 0 → ram_hpa + GUEST_UEFI_LOW_RAM_BYTES < W64 →
  0 ≤ gpa < GPA_LIMIT →
  translate m pml4 gpa =
    if gpa <? GUEST_UEFI_LOW_RAM_BYTES then Some (ram_hpa + gpa)
    else if (gpa_base <=? gpa) && (gpa <? gpa_base + 4096 * np)
    then Some (hpa_base + (gpa - gpa_base)) else None.
Proof.
  intros [(P3 & Ph & Pl & Pf) R R0 L H N Ram Pd Pd0 Pt] G1 G2 G3 Hnp Q1 Q2 Q3 M1 M2 M3 Hg.
  unfold GPA_LIMIT, GUEST_UEFI_LOW_RAM_BYTES in *. unfold translate.
  rewrite idx39, idx30, idx21, idx12. destruct (decide (gpa < 549755813888)) as [Hlo|Hhi].
  2:{ rewrite R0 by dlia. rewrite absent_0. rewrite (proj2 (Z.ltb_ge _ _)) by lia.
      by rewrite (proj2 (Z.ltb_ge gpa _)), andb_false_r by lia. }
  replace ((gpa / 549755813888) mod 512) with 0 by dlia. rewrite Z.mul_0_r, Z.add_0_r, R.
  destruct (link_spec pdpt) as (-> & _ & -> & _); [apply P3..|].
  replace ((gpa / 1073741824) mod 512) with (gpa / 1073741824) by dlia.
  destruct (decide (gpa / 1073741824 = 0)) as [E0|E0];
    [|destruct (decide (gpa / 1073741824 = 3)) as [E3|E3]].
  - rewrite E0, Z.mul_0_r, Z.add_0_r, L.
    destruct (link_spec pd_lo) as (-> & -> & -> & _); [apply Pl..|].
    replace ((gpa / 2097152) mod 512) with (gpa / 2097152) by dlia. rewrite Ram by dlia.
    rewrite (proj2 (Z.leb_gt gpa_base gpa)) by dlia. simpl andb.
    destruct (Z.ltb_spec (gpa / 2097152) 16) as [Hr|Hr].
    + rewrite (proj2 (Z.ltb_lt _ _)) by dlia.
      destruct (leaf_large_spec (ram_hpa + gpa / 2097152 * TWO_MIB) cap) as (-> & -> & -> & _);
        [unfold TWO_MIB in *; dlia..|]. f_equal. unfold TWO_MIB. dlia.
    + by rewrite (proj2 (Z.ltb_ge _ _)), absent_0 by dlia.
  - rewrite E3, H. destruct (link_spec pd_hi) as (-> & -> & -> & _); [apply Ph..|].
    rewrite (proj2 (Z.ltb_ge gpa 33554432)) by dlia.
    set (t := gpa / TWO_MIB - gpa_base / TWO_MIB).
    assert (regions gpa_base np = 2048 - gpa_base / TWO_MIB) as Er.
    { unfold regions, TWO_MIB. rewrite (proj2 (Z.eqb_neq np 0)) by lia. dlia. }
    destruct (decide (0 ≤ t)) as [Ht|Ht].
    + assert (0 ≤ t < regions gpa_base np) as Ht'
        by (rewrite Er; subst t; unfold TWO_MIB in *; dlia).
      replace ((gpa / 2097152) mod 512) with ((gpa_base / TWO_MIB + t) mod 512)
        by (subst t; unfold TWO_MIB; f_equal; lia).
      rewrite Pd by done. destruct (link_spec (F t)) as (-> & -> & -> & _); [apply Pf; done..|].
      rewrite Pt by (done || dlia).
      replace ((gpa_base / TWO_MIB + t) * 512 + (gpa / 4096) mod 512) with (gpa / 4096)
        by (rewrite <- (region_page gpa) at 1; subst t; lia).
      replace ((gpa_base / 4096 <=? gpa / 4096) && (gpa / 4096 <? gpa_base / 4096 + np))
        with ((gpa_base <=? gpa) && (gpa <? gpa_base + 4096 * np))
        by (apply eq_true_iff_eq; rewrite !andb_true_iff, !Z.leb_le, !Z.ltb_lt; dlia).
      destruct ((gpa_base <=? gpa) && (gpa <? gpa_base + 4096 * np)) eqn:Ew; [|by rewrite absent_0].
      apply andb_true_iff in Ew as [Ew1%Z.leb_le Ew2%Z.ltb_lt].
      destruct (leaf_4k_spec (hpa_base + 4096 * (gpa / 4096 - gpa_base / 4096)) cap)
        as (-> & -> & _); [dlia..|]. f_equal. dlia.
    + rewrite Pd0; [|dlia|].
      * rewrite absent_0. rewrite (proj2 (Z.leb_gt gpa_base gpa)); [done|].
        subst t. unfold TWO_MIB in *. dlia.
      * intros u Hu. rewrite Er in Hu. subst t. unfold TWO_MIB in *. dlia.
  - rewrite N by dlia. rewrite absent_0. rewrite (proj2 (Z.ltb_ge gpa _)) by dlia.
    destruct ((gpa_base <=? gpa) && (gpa <? gpa_base + 4096 * np)) eqn:Ew; [|done].
    apply andb_true_iff in Ew as [Ew1%Z.leb_le Ew2%Z.ltb_lt]. dlia.
Qed.

Lemma alias_pt_count gpa bytes : 0 ≤ gpa → gpa mod 4096 = 0 → 0 < bytes → bytes mod 4096 = 0 →
  gpa + bytes ≤ 4294967296 → firmware_alias_pt_count gpa bytes = regions gpa (bytes / 4096).
Proof.
  intros Hg Hgm Hb Hbm Hle. unfold firmware_alias_pt_count, regions.
  rewrite (proj2 (Z.eqb_neq bytes 0)), (proj2 (Z.eqb_neq (bytes / 4096) 0)) by dlia.
  rewrite (proj2 (checked_add64_Some gpa bytes (gpa + bytes))) by (split; [done|mlia]).
  unfold sat_add64. rewrite Z.min_l by (unfold TWO_MIB; mlia).
  change (TWO_MIB - 1) with (Z.ones 21).
  rewrite !clear_low by (try lia; mach_unfold; change (Z.ones 21) with 2097151; lia).
  change (2 ^ 21) with 2097152. change (Z.ones 21) with 2097151.
  rewrite sub64_small by dlia. unfold TWO_MIB. dlia.
Qed.

(** Every argument check of the builder passes and its loop completes. *)
Lemma build_alias_tables cap m gpa_base hpa_base fw ram frames :
  0 < fw ≤ 4194304 → fw mod 4096 = 0 → gpa_base mod 4096 = 0 → gpa_base + fw = 4294967296 →
  0 ≤ hpa_base → hpa_base mod 4096 = 0 → hpa_base + fw < W64 →
  0 ≤ ram → ram mod TWO_MIB = 0 → ram + GUEST_UEFI_LOW_RAM_BYTES < W64 →
  frames_ok (frames_required_firmware_alias gpa_base fw) frames →
  ∃ m', build_firmware_alias_ept cap m gpa_base hpa_base fw ram frames =
      (m', Ok (pack_eptp (frame_at frames 0) (eptp_memory_type cap))) ∧
    fw_tables cap m' (frame_at frames 0) (frame_at frames 1) (frame_at frames 2)
      (frame_at frames 3) (λ t, frame_at frames (4 + t)) gpa_base hpa_base (fw / 4096) ram.
Proof.
  intros B1 B2 G2 G3 Q1 Q2 Q3 M1 M2 M3 Hf. unfold build_firmware_alias_ept.
  rewrite (proj2 (Z.eqb_neq fw 0)), (proj2 (Z.ltb_ge 4194304 fw)), !land_page by lia.
  rewrite B2, G2, Q2, land_2m, M2.
  change (GUEST_UEFI_LOW_RAM_BYTES mod TWO_MIB) with 0.
  change (512 <? GUEST_UEFI_LOW_RAM_BYTES / TWO_MIB) with false. cbn [negb orb Z.eqb].
  rewrite (proj2 (checked_add64_Some gpa_base fw (gpa_base + fw))) by (split; [done|mlia]).
  rewrite (proj2 (Z.leb_le gpa_base 0xFFFFFFF0)), (proj2 (Z.ltb_lt 0xFFFFFFF0 (gpa_base + fw))) by dlia.
  cbn [negb andb]. pose proof (fo_len _ _ Hf) as Hlen. rewrite (proj2 (Z.ltb_ge _ _)) by done.
  assert (frames_required_firmware_alias gpa_base fw = 4 + regions gpa_base (fw / 4096)) as En.
  { unfold frames_required_firmware_alias. rewrite alias_pt_count by (done || lia). lia. }
  rewrite En in *. set (np := fw / 4096) in *.
  assert (fw = 4096 * np) as Enp by (subst np; dlia).
  assert (0 < regions gpa_base np) as Rp
    by (unfold regions, TWO_MIB; rewrite (proj2 (Z.eqb_neq np 0)) by lia; dlia).
  destruct (zeroed _ _ m Hf) as (m0 & Ez & Z1 & _). rewrite Ez.
  assert (∀ i, 0 ≤ i < 4 + regions gpa_base np → page_ok (frame_at frames i)) as Pok
    by (intros; eapply frame_at_ok; [done|lia]).
  assert (∀ i j, 0 ≤ i < 4 + regions gpa_base np → 0 ≤ j < 4 + regions gpa_base np → i ≠ j →
    frame_at frames i ≠ frame_at frames j) as Dne by (intros; eapply frame_at_ne; [done|lia..]).
  rewrite idx30. replace ((gpa_base / 1073741824) mod 512) with 3 by dlia.
  change (GUEST_UEFI_LOW_RAM_BYTES / TWO_MIB) with 16.
  set (m4 := wr (fill _ _ 16 _) _ _).
  assert (∀ i j k l, 0 ≤ i < 4 + regions gpa_base np → 0 ≤ j < 4 + regions gpa_base np → i ≠ j →
    0 ≤ k < 512 → 0 ≤ l < 512 → frame_at frames i + 8 * k ≠ frame_at frames j + 8 * l) as D.
  { intros. apply pages_differ; auto. }
  assert (∀ i k, 0 ≤ i < 4 + regions gpa_base np → i = 2 ∨ 4 ≤ i → 0 ≤ k < 512 →
    m4 (frame_at frames i + 8 * k) = 0) as Hz.
  { intros i k Hi Hi' Hk. unfold m4. rewrite wr_ne, fill_out, !wr_ne; [by apply Z1|..];
      intros; apply D; lia. }
  assert (alias_hyps gpa_base hpa_base np (frame_at frames 2) (4 + regions gpa_base np) frames) as Hh.
  { constructor; [split_and!; (done || lia)|split_and!; (done || lia)|lia|done|apply Pok; lia|..].
    - intros t Ht. split; [apply Pok; lia|apply Dne; lia].
    - intros t u Ht Hu Htu. apply Dne; lia. }
  destruct (alias_loop_spec cap gpa_base hpa_base np _ _ frames m4 Hh (Z.to_nat np) 0 m4)
    as (m' & El & [I1 I2 I3 I4]); [lia|lia| |].
  { constructor; [intros t; unfold regions; simpl; lia|done| |done].
    intros t j Ht Hj p. destruct ((_ <=? p) && (p <? gpa_base / 4096 + 0)) eqn:E; [lia|done]. }
  rewrite Z2Nat.id in El by lia.
  change (4 + regions gpa_base 0) with 4 in El.
  change (pt_table _ _ (regions gpa_base 0)) with (@nil (Z * Z)) in El. rewrite El.
  exists m'. split; [done|].
  assert (∀ i k, 0 ≤ i < 4 → i ≠ 2 → 0 ≤ k < 512 →
    m' (frame_at frames i + 8 * k) = m4 (frame_at frames i + 8 * k)) as Hsame.
  { intros i k Hi Hi2 Hk. apply I4.
    - intros Hp. apply (page_sep (frame_at frames i) (frame_at frames 2) k
        (frame_at frames i + 8 * k)); [apply Pok; lia|apply Pok; lia|apply Dne; lia|done..].
    - intros t Ht Hp. apply (page_sep (frame_at frames i) (frame_at frames (4 + t)) k
        (frame_at frames i + 8 * k)); [apply Pok; lia|apply Pok; lia|apply Dne; lia|done..]. }
  assert (∀ k, 0 ≤ k < 512 → m' (frame_at frames 0 + 8 * k)
    = if k =? 0 then ept_link (frame_at frames 1) else 0) as T0.
  { intros k Hk. rewrite Hsame by lia. unfold m4.
    rewrite wr_ne, fill_out, wr_ne by (intros; apply D; lia).
    destruct (Z.eqb_spec k 0) as [->|]; [apply wr_eq|]. rewrite wr_ne by lia. apply Z1; lia. }
  assert (∀ k, 0 ≤ k < 512 → m' (frame_at frames 1 + 8 * k)
    = if k =? 3 then ept_link (frame_at frames 2)
      else if k =? 0 then ept_link (frame_at frames 3) else 0) as T1.
  { intros k Hk. rewrite Hsame by lia. unfold m4.
    destruct (Z.eqb_spec k 3) as [->|]; [apply wr_eq|].
    rewrite wr_ne by lia. rewrite fill_out by (intros; apply D; lia).
    destruct (Z.eqb_spec k 0) as [->|]; [apply wr_eq|]. rewrite wr_ne by lia.
    rewrite wr_ne by (apply D; lia). apply Z1; lia. }
  constructor.
  - split_and!; [apply Pok; lia..|]. intros t Ht. apply Pok. lia.
  - specialize (T0 0 ltac:(lia)). by rewrite Z.mul_0_r, Z.add_0_r in T0.
  - intros k Hk. rewrite T0 by lia. by rewrite (proj2 (Z.eqb_neq _ _)) by lia.
  - specialize (T1 0 ltac:(lia)). by rewrite Z.mul_0_r, Z.add_0_r in T1.
  - apply (T1 3). lia.
  - intros i Hi H0 H3. rewrite T1 by done. by rewrite !(proj2 (Z.eqb_neq _ _)) by done.
  - intros j Hj. rewrite Hsame by lia. unfold m4. rewrite wr_ne by (apply D; lia).
    destruct (Z.ltb_spec j 16).
    + rewrite fill_in by lia. rewrite add64_small; [done|lia|unfold TWO_MIB; lia|].
      unfold GUEST_UEFI_LOW_RAM_BYTES, TWO_MIB in *. lia.
    + rewrite fill_out by lia. rewrite !wr_ne by (apply D; lia). apply Z1; lia.
  - done.
  - intros j Hj Hno. rewrite I2 by done. apply Hz; lia.
  - intros t j Ht Hj. rewrite I3 by done. cbv zeta.
    destruct ((_ <=? _) && (_ <? _)); [done|]. apply Hz; lia.
Qed.

(** ** Theorems *)

(** [build_identity_2m_bytes] builds exactly the identity of [0, bytes). For
    every non-zero multiple of 2 MiB below the local APIC and every set of
    distinct aligned frames, whatever memory held before, it succeeds, the walk
    from the EPTP it returns takes each guest address below [bytes] to itself
    and faults on every other 48-bit address (the APIC page among them), and no
    memory outside the given frames is written. *)
Theorem build_identity_2m_bytes_exact cap m bytes frames :
  0 < bytes ≤ DEFAULT_APIC_PHYS → bytes mod TWO_MIB = 0 →
  frames_ok (frames_required_2m_bytes bytes) frames →
  ∃ m' eptp, build_identity_2m_bytes cap m bytes frames = (m', Ok eptp) ∧
    (∀ gpa, 0 ≤ gpa < GPA_LIMIT →
       translate m' (pml4_from_eptp eptp) gpa = if gpa <? bytes then Some gpa else None) ∧
    gpa_is_mapped m' (pml4_from_eptp eptp) DEFAULT_APIC_PHYS = false ∧
    only_frames m m' (frames_required_2m_bytes bytes) frames.
Proof.
  intros Hb Hm Hf. destruct (build_2m_tables cap m bytes frames Hb Hm Hf) as (m' & E & Ht & Ho).
  exists m', (pack_eptp (frame_at frames 0) (eptp_memory_type cap)).
  pose proof (lay_pml4 _ _ _ _ (it_layout _ _ _ _ _ _ _ Ht)) as [P1 P2].
  rewrite eptp_roundtrip by done.
  assert (∀ gpa, 0 ≤ gpa < GPA_LIMIT →
    translate m' (frame_at frames 0) gpa = if gpa <? bytes then Some gpa else None) as Htr.
  { intros gpa Hg. rewrite (translate_id_tables _ _ _ _ _ _ _ _ Ht Hg).
    assert ((gpa <? (bytes / TWO_MIB + 511) / 512 * 1073741824) && (gpa / TWO_MIB <? bytes / TWO_MIB)
      = (gpa <? bytes)) as ->; [|done].
    apply eq_true_iff_eq. rewrite andb_true_iff, !Z.ltb_lt. unfold TWO_MIB in *. dlia. }
  split_and!; try done. rewrite gpa_is_mapped_translate, Htr by (unfold DEFAULT_APIC_PHYS, GPA_LIMIT; lia).
  rewrite (proj2 (Z.ltb_ge _ _)) by lia. by apply bool_decide_false; intros [? [=]].
Qed.

(** The error branches of [build_identity_2m_bytes]: an empty, misaligned or
    APIC-reaching window is [Unsupported], too few frames are [OutOfFrames], and
    in both cases memory is untouched; with an unaligned frame among those it
    needs the result is [Unsupported]. *)
Theorem build_identity_2m_bytes_errors cap m bytes frames : u64 bytes →
  let '(m', r) := build_identity_2m_bytes cap m bytes frames in
  (bytes = 0 ∨ bytes mod TWO_MIB ≠ 0 ∨ DEFAULT_APIC_PHYS < bytes → r = Err Unsupported ∧ m' = m) ∧
  (0 < bytes ≤ DEFAULT_APIC_PHYS → bytes mod TWO_MIB = 0 →
     flen frames < frames_required_2m_bytes bytes → r = Err OutOfFrames ∧ m' = m) ∧
  (0 < bytes ≤ DEFAULT_APIC_PHYS → bytes mod TWO_MIB = 0 →
     frames_required_2m_bytes bytes ≤ flen frames →
     ¬ Forall (λ f, f mod 4096 = 0) (take (Z.to_nat (frames_required_2m_bytes bytes)) frames) →
     r = Err Unsupported).
Proof.
  intros Hu. unfold build_identity_2m_bytes. rewrite land_2m.
  destruct (Z.eqb_spec bytes 0) as [->|H0]; simpl orb.
  { split_and!; [done|lia|lia]. }
  destruct (Z.eqb_spec (bytes mod TWO_MIB) 0) as [Hm|Hm]; simpl negb; cbv iota.
  2:{ split_and!; [done|intros; done|intros; done]. }
  destruct (Z.ltb_spec DEFAULT_APIC_PHYS bytes) as [Ha|Ha].
  { split_and!; [done|lia|lia]. }
  destruct (Z.ltb_spec (flen frames) (frames_required_2m_bytes bytes)) as [Hl|Hl].
  { split_and!; [|done|lia]. intros [?|[?|?]]; (done || lia). }
  destruct (zero_frames m _) as [m1 [[]|e]] eqn:Ez.
  - apply zero_frames_spec in Ez as (Hall & _). split_and!; [|lia|done].
    intros [?|[?|?]]; (done || lia).
  - apply zero_frames_err in Ez as ->. split_and!; [|lia|done].
    intros [?|[?|?]]; (done || lia).
Qed.

(** [build_identity_gib], with 1 GiB or with 2 MiB leaves, maps exactly
    [0, gib GiB) to itself, for every size up to 512 GiB. *)
Theorem build_identity_gib_exact cap m ps gib frames :
  0 < gib ≤ 512 → frames_ok (frames_required_gib ps gib) frames →
  ∃ m' eptp, build_identity_gib cap m ps gib frames = (m', Ok eptp) ∧
    (∀ gpa, 0 ≤ gpa < GPA_LIMIT →
       translate m' (pml4_from_eptp eptp) gpa =
         if gpa <? gib * 1073741824 then Some gpa else None) ∧
    only_frames m m' (frames_required_gib ps gib) frames.
Proof.
  intros Hg Hf. destruct ps; simpl in Hf.
  - destruct (build_gib_1g_tables cap m gib frames Hg Hf) as (m' & E & Ht & Ho).
    exists m', (pack_eptp (frame_at frames 0) (eptp_memory_type cap)).
    destruct (gt_pages _ _ _ _ _ Ht) as ([P1 P2] & _). rewrite eptp_roundtrip by done.
    split_and!; [done| |done]. intros gpa Hgpa. by apply (translate_gib_tables _ _ _ _ _ _ Ht).
  - destruct (build_gib_2m_tables cap m gib frames Hg Hf) as (m' & E & Ht & Ho).
    exists m', (pack_eptp (frame_at frames 0) (eptp_memory_type cap)).
    destruct (lay_pml4 _ _ _ _ (it_layout _ _ _ _ _ _ _ Ht)) as [P1 P2].
    rewrite eptp_roundtrip by done. split_and!; [done| |done]. intros gpa Hgpa.
    rewrite (translate_id_tables _ _ _ _ _ _ _ _ Ht Hgpa). by rewrite andb_true_r.
Qed.

(** The private EPT of a shell guest reaches its own 2 MiB slab, at identity,
    and nothing else. *)
Theorem build_single_2m_identity_exact cap m hpa frames :
  0 ≤ hpa → hpa + TWO_MIB ≤ PRECISE_BYTES → hpa mod TWO_MIB = 0 → frames_ok 3 frames →
  ∃ m' eptp, build_single_2m_identity cap m hpa frames = (m', Ok eptp) ∧
    (∀ gpa, 0 ≤ gpa < GPA_LIMIT →
       translate m' (pml4_from_eptp eptp) gpa =
         if (hpa <=? gpa) && (gpa <? hpa + TWO_MIB) then Some gpa else None) ∧
    only_frames m m' 3 frames.
Proof.
  intros H0 Hp Hm Hf. destruct (build_single_tables cap m hpa frames H0 Hp Hm Hf) as (m' & E & Ht & Ho).
  exists m', (pack_eptp (frame_at frames 0) (eptp_memory_type cap)).
  destruct (lay_pml4 _ _ _ _ (it_layout _ _ _ _ _ _ _ Ht)) as [P1 P2].
  rewrite eptp_roundtrip by done. split_and!; [done| |done]. intros gpa Hg.
  rewrite (translate_id_tables _ _ _ _ _ _ _ _ Ht Hg).
  assert ((gpa <? 1 * 1073741824) && (gpa / TWO_MIB =? hpa / TWO_MIB)
    = (hpa <=? gpa) && (gpa <? hpa + TWO_MIB)) as ->; [|done].
  apply eq_true_iff_eq. rewrite !andb_true_iff, Z.eqb_eq, Z.leb_le, !Z.ltb_lt.
  unfold TWO_MIB, PRECISE_BYTES in *. dlia.
Qed.

(** Clearing a 2 MiB leaf of identity tables makes exactly that 2 MiB fault
    and changes no other translation. *)
Theorem clear_2m_leaf_exact cap m pml4 pdpt pd n present hole :
  id_tables cap m pml4 pdpt pd n present → 0 ≤ hole < GPA_LIMIT → hole mod TWO_MIB = 0 →
  ∃ m', clear_2m_identity_leaf m pml4 hole = (m', Ok ()) ∧
    ∀ gpa, 0 ≤ gpa < GPA_LIMIT →
      translate m' pml4 gpa =
        if (hole <=? gpa) && (gpa <? hole + TWO_MIB) then None else translate m pml4 gpa.
Proof.
  intros Ht Hh Hm. destruct (clear_tables _ _ _ _ _ _ _ _ Ht Hh Hm) as (m' & E & Ht' & _).
  exists m'. split; [done|]. intros gpa Hg.
  rewrite (translate_id_tables _ _ _ _ _ _ _ _ Ht' Hg), (translate_id_tables _ _ _ _ _ _ _ _ Ht Hg).
  assert ((gpa / TWO_MIB =? hole / TWO_MIB) = (hole <=? gpa) && (gpa <? hole + TWO_MIB)) as ->.
  { apply eq_true_iff_eq. rewrite andb_true_iff, Z.eqb_eq, Z.leb_le, Z.ltb_lt.
    unfold TWO_MIB in *. dlia. }
  destruct ((hole <=? gpa) && (gpa <? hole + TWO_MIB)); simpl;
    [by rewrite !andb_false_r|by rewrite andb_true_r].
Qed.

(** The private guest-UEFI EPT, for a firmware window that ends at 4 GiB:
    guest addresses below 32 MiB reach the guest's RAM, the window reaches the
    firmware image, the reset vector included, and everything else faults. *)
Theorem firmware_alias_exact cap m gpa_base hpa_base fw ram frames :
  0 < fw ≤ 4194304 → fw mod 4096 = 0 → gpa_base mod 4096 = 0 → gpa_base + fw = 4294967296 →
  0 ≤ hpa_base → hpa_base mod 4096 = 0 → hpa_base + fw < W64 →
  0 ≤ ram → ram mod TWO_MIB = 0 → ram + GUEST_UEFI_LOW_RAM_BYTES < W64 →
  frames_ok (frames_required_firmware_alias gpa_base fw) frames →
  ∃ m' eptp, build_firmware_alias_ept cap m gpa_base hpa_base fw ram frames = (m', Ok eptp) ∧
    ∀ gpa, 0 ≤ gpa < GPA_LIMIT →
      translate m' (pml4_from_eptp eptp) gpa =
        if gpa <? GUEST_UEFI_LOW_RAM_BYTES then Some (ram + gpa)
        else if (gpa_base <=? gpa) && (gpa <? gpa_base + fw)
        then Some (hpa_base + (gpa - gpa_base)) else None.
Proof.
  intros B1 B2 G2 G3 Q1 Q2 Q3 M1 M2 M3 Hf.
  destruct (build_alias_tables cap m gpa_base hpa_base fw ram frames B1 B2 G2 G3 Q1 Q2 Q3 M1 M2 M3 Hf)
    as (m' & E & Ht). exists m', (pack_eptp (frame_at frames 0) (eptp_memory_type cap)).
  split; [done|]. intros gpa Hg. assert (page_ok (frame_at frames 0)) as [P1 P2].
  { eapply frame_at_ok; [exact Hf|]. unfold frames_required_firmware_alias.
    rewrite alias_pt_count by (done || lia).
    pose proof (regions_mono gpa_base 0 (fw / 4096) ltac:(lia) ltac:(dlia)). lia. }
  rewrite eptp_roundtrip by done.
  replace (gpa_base + fw) with (gpa_base + 4096 * (fw / 4096)) by dlia.
  apply (translate_fw_tables _ _ _ _ _ _ _ _ _ _ _ _ Ht); (done || dlia).
Qed.

(** A builder run on zeroed memory, for the concrete checks below. *)
Definition built (r : Mem * result Z EptHwError) : Mem * Z :=
  match r with (m, Ok e) => (m, pml4_from_eptp e) | (m, Err _) => (m, 0) end.

Definition demo_frames : list Z := (λ i, 0x100000 + 0x1000 * i) <$> seqZ 0 8.

(** A firmware window that crosses 4 GiB is accepted but mapped wrongly. A
    4 MiB window at 0xFFE00000 satisfies every documented condition (aligned, no
    overflow, covers the reset vector), the builder succeeds, yet the part of
    the window above 4 GiB faults and its pages appear at 3 GiB instead. *)
Theorem firmware_alias_crossing_misplaced :
  let '(m, pml4) := built (build_firmware_alias_ept 0 (λ _, 0) 0xFFE00000 0x40000000 0x400000 0
                             demo_frames) in
  pml4 = 0x100000 ∧
  translate m pml4 0xFFE00000 = Some 0x40000000 ∧
  translate m pml4 0x100000000 = None ∧
  translate m pml4 0xC0000000 = Some 0x40200000.
Proof. vm_compute. repeat split. Qed.

Definition apic_hole_check (ps : EptPageSize) : bool :=
  let '(m, pml4) := built (build_identity_4g 0 (λ _, 0) ps demo_frames) in
  let '(m, r) := punch_apic_mmio_hole 0 m pml4 0x200000 0x201000 in
  is_ok r && bool_decide (translate m pml4 0xFEE00000 = None) &&
  forallb (λ a, bool_decide (translate m pml4 a = Some a))
    [0; 0xFEDFF000; 0xFEE01000; 0xFEC00000; 0xFEFFF000; 0xFF000000; 0xBFFFF000; 0xFFFFF000].

(** Punching the local-APIC hole in a 4 GiB identity map of either leaf size
    makes the APIC page fault, and leaves the pages on both sides of it, the
    2 MiB regions on both sides of that, and the last page at identity. *)
Theorem apic_hole_punched :
  apic_hole_check OneGib = true ∧ apic_hole_check TwoMib = true.
Proof. split; vm_compute; reflexivity. Qed.

(** The page-table entry encodings decode to what was encoded: links and
    large and 4 KiB leaves are present, carry exactly the page-aligned address
    they were given, and only the large leaves have the large bit. *)
Theorem pte_roundtrip cap h : page_ok h →
  let mt := eptp_memory_type cap in
  Forall (λ e, ept_hpa_from_pte e = h ∧ absent e = false)
    [ept_link h; ept_leaf_large h mt; ept_leaf_4k h mt] ∧
  ept_large_bit (ept_leaf_large h mt) = true ∧
  ept_large_bit (ept_link h) = false ∧ ept_large_bit (ept_leaf_4k h mt) = false ∧
  pml4_from_eptp (pack_eptp h mt) = h.
Proof.
  intros [Hu Hm] mt. destruct (link_spec h Hu Hm) as (L1 & L2 & L3 & _).
  destruct (leaf_large_spec h cap Hu Hm) as (A1 & A2 & A3 & _).
  destruct (leaf_4k_spec h cap Hu Hm) as (K1 & K2 & K3).
  split_and!; [by repeat constructor|done..|by apply eptp_roundtrip].
Qed.

Lemma max_base_spec bs : Forall u64 bs → ∀ x, 0 ≤ x < W64 → x mod TWO_MIB = 0 →
  x ≤ foldl max_base x bs < W64 ∧ foldl max_base x bs mod TWO_MIB = 0 ∧
  Forall (λ b, b / TWO_MIB * TWO_MIB ≤ foldl max_base x bs) bs.
Proof.
  induction bs as [|b bs IH]; intros Hbs x Hx Hm; cbn [foldl]; [split_and!; (done || lia)|].
  apply Forall_cons in Hbs as [Hb Hbs].
  assert (max_base x b = Z.max x (b / TWO_MIB * TWO_MIB)) as ->.
  { unfold max_base. change (TWO_MIB - 1) with (Z.ones 21). rewrite clear_low by (done || lia).
    change (2 ^ 21) with TWO_MIB. destruct (Z.ltb_spec x (b / TWO_MIB * TWO_MIB)); lia. }
  destruct (IH Hbs (Z.max x (b / TWO_MIB * TWO_MIB))) as (I1 & I2 & I3);
    [unfold TWO_MIB in *; dlia..|].
  split_and!; [lia|lia|done|]. constructor; [lia|done].
Qed.

(** One slab past a 2 MiB-aligned address, when two more slabs fit the window. *)
Lemma next_slab_ok x : 0 ≤ x → x mod TWO_MIB = 0 →
  sat_add64 (sat_add64 x TWO_MIB) TWO_MIB ≤ PRECISE_BYTES →
  sat_add64 x TWO_MIB = x + TWO_MIB ∧ (x + TWO_MIB) mod TWO_MIB = 0 ∧
  x + TWO_MIB + TWO_MIB ≤ PRECISE_BYTES.
Proof. unfold sat_add64, U64_MAX, PRECISE_BYTES, TWO_MIB. intros ???. split_and!; dlia. Qed.

(** [host_only_slab_after_shells] returns a 2 MiB-aligned slab of the
    precise window that lies above every shell slab. *)
Theorem host_only_slab_above bases h : Forall u64 bases →
  host_only_slab_after_shells bases = Some h →
  h mod TWO_MIB = 0 ∧ h + TWO_MIB ≤ PRECISE_BYTES ∧
  Forall (λ b, b / TWO_MIB * TWO_MIB + TWO_MIB ≤ h) bases.
Proof.
  intros Hu. unfold host_only_slab_after_shells.
  assert (0 ≤ 0 < W64) as H0 by done.
  destruct (max_base_spec bases Hu 0 H0 (Zmod_0_l _)) as (M1 & M2 & M3).
  revert M1 M2 M3. generalize (foldl max_base 0 bases). intros mx M1 M2 M3.
  destruct (Z.eqb_spec mx 0); [done|].
  destruct (_ || _) eqn:E; [done|]. intros [= <-].
  apply orb_false_iff in E as [_ E%Z.ltb_ge].
  destruct (next_slab_ok mx (proj1 M1) M2 E) as (-> & N2 & N3).
  split_and!; [done..|]. eapply Forall_impl; [exact M3|]. cbv beta. intros b. lia.
Qed.

(** ** Witnesses *)

Lemma demo_frames_ok need : 0 ≤ need ≤ 8 → frames_ok need demo_frames.
Proof.
  intros Hn. assert (NoDup demo_frames) as Hnd.
  { apply NoDup_fmap_2; [intros x y E; lia|apply NoDup_seqZ]. }
  assert (Forall page_ok demo_frames) as Hok.
  { repeat (apply Forall_cons; split; [split; [vm_compute; split; congruence|reflexivity]|]).
    constructor. }
  constructor.
  - change (flen demo_frames) with 8. lia.
  - eapply sublist_NoDup; [exact Hnd|apply sublist_take].
  - by apply Forall_take.
Qed.

Lemma build_identity_2m_bytes_exact_witness :
  ∃ m' eptp, build_identity_2m_bytes 0 (λ _, 0xdead) 0x20000000 demo_frames = (m', Ok eptp) ∧
    translate m' (pml4_from_eptp eptp) 0x12345678 = Some 0x12345678.
Proof.
  destruct (build_identity_2m_bytes_exact 0 (λ _, 0xdead) 0x20000000 demo_frames)
    as (m' & eptp & E & Ht & _); [unfold DEFAULT_APIC_PHYS; lia|reflexivity
    |apply demo_frames_ok; vm_compute; split; congruence|].
  exists m', eptp. split; [exact E|]. rewrite Ht by (unfold GPA_LIMIT; lia). reflexivity.
Defined.

Lemma build_identity_2m_bytes_errors_witness :
  (build_identity_2m_bytes 0 (λ _, 0) 0x20000000 [0x1000; 0x2000]).2 = Err OutOfFrames.
Proof.
  refine (proj1 (proj1 (proj2 (build_identity_2m_bytes_errors 0 (λ _, 0) 0x20000000
    [0x1000; 0x2000] _)) _ _ _)); [mlia|unfold DEFAULT_APIC_PHYS; lia|reflexivity|reflexivity].
Defined.

Lemma build_identity_gib_exact_witness :
  ∃ m' eptp, build_identity_gib 0 (λ _, 0xdead) TwoMib 4 demo_frames = (m', Ok eptp) ∧
    translate m' (pml4_from_eptp eptp) 0xFEE00000 = Some 0xFEE00000.
Proof.
  destruct (build_identity_gib_exact 0 (λ _, 0xdead) TwoMib 4 demo_frames)
    as (m' & eptp & E & Ht & _); [lia|apply demo_frames_ok; simpl; lia|].
  exists m', eptp. split; [exact E|]. rewrite Ht by (unfold GPA_LIMIT; lia). reflexivity.
Defined.

Lemma build_single_2m_identity_exact_witness :
  ∃ m' eptp, build_single_2m_identity 0 (λ _, 0xdead) 0x10000000 demo_frames = (m', Ok eptp) ∧
    translate m' (pml4_from_eptp eptp) 0x10200000 = None.
Proof.
  destruct (build_single_2m_identity_exact 0 (λ _, 0xdead) 0x10000000 demo_frames)
    as (m' & eptp & E & Ht & _); [lia|unfold TWO_MIB, PRECISE_BYTES; lia|reflexivity
    |apply demo_frames_ok; lia|].
  exists m', eptp. split; [exact E|]. rewrite Ht by (unfold GPA_LIMIT; lia). reflexivity.
Defined.

Lemma clear_2m_leaf_exact_witness :
  ∃ m m', clear_2m_identity_leaf m 0x100000 0x400000 = (m', Ok ()) ∧
    translate m' 0x100000 0x400000 = None.
Proof.
  destruct (build_2m_tables 0 (λ _, 0) 0x20000000 demo_frames) as (m & _ & Ht & _);
    [unfold DEFAULT_APIC_PHYS; lia|reflexivity|apply demo_frames_ok; vm_compute; split; congruence|].
  destruct (clear_2m_leaf_exact _ m _ _ _ _ _ 0x400000 Ht) as (m' & E & Htr);
    [unfold GPA_LIMIT; lia|reflexivity|].
  exists m, m'. split; [exact E|]. etransitivity; [exact (Htr 0x400000 ltac:(unfold GPA_LIMIT; lia))|reflexivity].
Defined.

Lemma firmware_alias_exact_witness :
  ∃ m' eptp, build_firmware_alias_ept 0 (λ _, 0xdead) 0xFFC00000 0x40000000 0x400000 0x50000000
      demo_frames = (m', Ok eptp) ∧
    translate m' (pml4_from_eptp eptp) 0xFFFFFFF0 = Some 0x403FFFF0.
Proof.
  destruct (firmware_alias_exact 0 (λ _, 0xdead) 0xFFC00000 0x40000000 0x400000 0x50000000 demo_frames)
    as (m' & eptp & E & Ht);
    [lia|reflexivity|reflexivity|lia|lia|reflexivity|mlia|lia|reflexivity
    |unfold GUEST_UEFI_LOW_RAM_BYTES; mlia|apply demo_frames_ok; vm_compute; split; congruence|].
  exists m', eptp. split; [exact E|]. rewrite Ht by (unfold GPA_LIMIT; lia). reflexivity.
Defined.

Lemma pte_roundtrip_witness : ept_large_bit (ept_leaf_large 0x200000 (eptp_memory_type 0)) = true.
Proof.
  refine (proj1 (proj2 (pte_roundtrip 0 0x200000 _))). split; [mlia|reflexivity].
Defined.

Lemma host_only_slab_above_witness :
  host_only_slab_after_shells [0x10000000; 0x10400000] = Some 0x10600000 ∧ 0x10600000 mod TWO_MIB = 0.
Proof.
  split; [reflexivity|].
  refine (proj1 (host_only_slab_above [0x10000000; 0x10400000] 0x10600000 _ _));
    [repeat constructor; mlia|reflexivity].
Defined.

End Hw.
