(* ===== verification/BootMem.v ===== *)
(** * Early boot memory

    [boot/mem.rs]: the bump pool over one conventional-memory span and the
    choice of that span from the firmware's memory map; and
    [memory/boot_alloc.rs]: the promotion of what is left of the pool into the
    bitmap allocator of [FrameAllocator]. *)

From Stdlib Require Import Sorting.Sorted.
From S2P Require Import Prelude FrameAllocator.
Import Falloc.

Module BootMem.

Definition PAGE_SIZE : Z := 4096.
Definition ONE_MIB : Z := 1024 * 1024.

(** ** The bump pool *)

Record FrameBump := mkBump { bump_base : Z; next : Z; bump_end : Z }.

Definition bump_new (start pages : Z) : FrameBump :=
  let aligned := Z.land (start ⊞ PAGE_SIZE ⊟ 1) (bnot64 (PAGE_SIZE - 1)) in
  let end_ := sat_add64 start (sat_mul64 pages PAGE_SIZE) in
  if end_ <=? aligned then mkBump aligned aligned aligned
  else mkBump aligned aligned end_.

Definition remaining_pages (b : FrameBump) : Z := sat_sub64 (bump_end b) (next b) / PAGE_SIZE.
Definition capacity_pages (b : FrameBump) : Z := sat_sub64 (bump_end b) (bump_base b) / PAGE_SIZE.

Definition alloc_pages (b : FrameBump) (pages : Z) : FrameBump * option Z :=
  if pages =? 0 then (b, None)
  else
    let bytes := sat_mul64 pages PAGE_SIZE in
    if negb (bytes / PAGE_SIZE =? pages) then (b, None)
    else if bump_end b <? sat_add64 (next b) bytes then (b, None)
    else (mkBump (bump_base b) (next b ⊞ bytes) (bump_end b), Some (next b)).

Definition alloc_frame (b : FrameBump) : FrameBump * option Z :=
  if bump_end b <? next b ⊞ PAGE_SIZE then (b, None)
  else (mkBump (bump_base b) (next b ⊞ PAGE_SIZE) (bump_end b), Some (next b)).

Definition take_remaining (b : FrameBump) : FrameBump * option (Z * Z) :=
  let pages := remaining_pages b in
  if pages =? 0 then (b, None)
  else (mkBump (bump_base b) (bump_end b) (bump_end b), Some (next b, pages)).

(** ** Choosing a span of the memory map

    A region is [(phys_start, page_count)]. *)

Definition region_end (r : Z * Z) : Z := sat_add64 r.1 (sat_mul64 r.2 PAGE_SIZE).

(** The [match best] of the loops: the candidate replaces the best so far when
    there is none yet or when it is better. *)
Definition keep {A} (better : A → A → bool) (best : option A) (c : A) : option A :=
  match best with
  | None => Some c
  | Some b => if better c b then Some c else best
  end.

Definition more_pages (c b : Z * Z) : bool := b.2 <? c.2.
Definition lower_start (c b : Z * Z) : bool := c.1 <? b.1.
Definition better_disk (c b : Z * Z) : bool := (b.2 <? c.2) || ((c.2 =? b.2) && (c.1 <? b.1)).

Definition opt_or {A} (a b : option A) : option A :=
  match a with Some _ => a | None => b end.

Definition prefer_step (min_pages prefer_end : Z)
    (best : option (Z * Z) * option (Z * Z)) (r : Z * Z) : option (Z * Z) * option (Z * Z) :=
  let '(best_pref, best_any) := best in
  let end_ := region_end r in
  let usable_start := Z.max r.1 ONE_MIB in
  if end_ <=? usable_start then best
  else
    let usable_pages := (end_ ⊟ usable_start) / PAGE_SIZE in
    let best_any := if min_pages <=? usable_pages
                    then keep more_pages best_any (usable_start, usable_pages) else best_any in
    let best_pref :=
      if ONE_MIB <? prefer_end then
        let clip_end := Z.min end_ prefer_end in
        if usable_start <? clip_end then
          let clip_pages := (clip_end ⊟ usable_start) / PAGE_SIZE in
          if min_pages <=? clip_pages
          then keep more_pages best_pref (usable_start, clip_pages) else best_pref
        else best_pref
      else best_pref in
    (best_pref, best_any).

Definition pick_conventional_region_prefer (regions : list (Z * Z)) (min_pages prefer_end : Z)
    : option (Z * Z) :=
  let '(best_pref, best_any) := foldl (prefer_step min_pages prefer_end) (None, None) regions in
  opt_or best_pref best_any.

Definition pick_conventional_region (regions : list (Z * Z)) (min_pages : Z) : option (Z * Z) :=
  pick_conventional_region_prefer regions min_pages 0.

Definition above_step (min_pages floor : Z) (best : option (Z * Z)) (r : Z * Z)
    : option (Z * Z) :=
  let end_ := region_end r in
  let usable_start := Z.max r.1 floor in
  if end_ <=? usable_start then best
  else
    let usable_pages := (end_ ⊟ usable_start) / PAGE_SIZE in
    if usable_pages <? min_pages then best
    else keep more_pages best (usable_start, usable_pages).

Definition pick_conventional_region_above (regions : list (Z * Z)) (min_pages above : Z)
    : option (Z * Z) :=
  foldl (above_step min_pages (Z.max above ONE_MIB)) None regions.

Definition above_prefer_step (want_pages min_pages floor : Z)
    (best : option (Z * Z) * option (Z * Z)) (r : Z * Z) : option (Z * Z) * option (Z * Z) :=
  let '(best_want, best_min) := best in
  let end_ := region_end r in
  let usable_start := Z.max r.1 floor in
  if end_ <=? usable_start then best
  else
    let usable_pages := (end_ ⊟ usable_start) / PAGE_SIZE in
    if usable_pages <? min_pages then best
    else
      let best_min := keep more_pages best_min (usable_start, usable_pages) in
      let best_want := if want_pages <=? usable_pages
                       then keep lower_start best_want (usable_start, usable_pages)
                       else best_want in
      (best_want, best_min).

Definition pick_conventional_region_above_prefer (regions : list (Z * Z))
    (want_pages min_pages above : Z) : option (Z * Z) :=
  let '(best_want, best_min) :=
    foldl (above_prefer_step want_pages min_pages (Z.max above ONE_MIB)) (None, None) regions in
  opt_or best_want best_min.

Definition PERSIST_DISK_ALIGN : Z := 2 * 1024 * 1024.

(** The [fitted] loop: the first size of the ladder that fits. *)
Definition fitted (try_bytes : list Z) (avail : Z) : option Z :=
  head (filter (λ want, want ≠ 0 ∧ want ≤ avail) try_bytes).

Definition persist_step (try_bytes : list Z) (best : option (Z * Z)) (r : Z * Z)
    : option (Z * Z) :=
  let end_ := region_end r in
  let aligned := Z.land (sat_add64 r.1 (PERSIST_DISK_ALIGN - 1))
                        (bnot64 (PERSIST_DISK_ALIGN - 1)) in
  if (aligned =? 0) || (end_ <=? aligned) then best
  else
    match fitted try_bytes (end_ ⊟ aligned) with
    | None => best
    | Some want => keep better_disk best (aligned, want)
    end.

Definition pick_persist_disk_region (regions : list (Z * Z)) (try_bytes : list Z)
    : option (Z * Z) :=
  foldl (persist_step try_bytes) None regions.

Definition conventional_pages_above (regions : list (Z * Z)) (above : Z) : Z :=
  let floor := Z.max above ONE_MIB in
  foldl (λ n r,
    let end_ := region_end r in
    let usable_start := Z.max r.1 floor in
    if end_ <=? usable_start then n
    else sat_add64 n ((end_ ⊟ usable_start) / PAGE_SIZE)) 0 regions.

(** ** Promotion to the bitmap allocator *)

(** The [while bitmap_pages < rem] loop: the split [(bitmap_pages, pool_pages)]
    it ends with. Each round adds one page, so [rem] rounds are enough. *)
Fixpoint split_loop (fuel : nat) (rem bitmap_pages : Z) : option (Z * Z) :=
  match fuel with
  | O => None
  | S fuel =>
      if bitmap_pages <? rem then
        let candidate := rem ⊟ bitmap_pages in
        if bitmap_pages_needed candidate <=? bitmap_pages then Some (bitmap_pages, candidate)
        else split_loop fuel rem (bitmap_pages ⊞ 1)
      else Some (bitmap_pages, 0)
  end.

(** The [for _ in 1..bitmap_pages] loop. *)
Fixpoint take_frames (n : nat) (b : FrameBump) : FrameBump * bool :=
  match n with
  | O => (b, true)
  | S n => match alloc_frame b with
           | (b, None) => (b, false)
           | (b, Some _) => take_frames n b
           end
  end.

(** [None] is the loop running out of fuel. *)
Definition bootstrap_from_bump (b : FrameBump)
    : option (FrameBump * result FrameAllocator AllocError) :=
  let rem := remaining_pages b in
  if rem <? 2 then Some (b, Err Bootstrap)
  else
    match split_loop (Z.to_nat rem) rem 1 with
    | None => None
    | Some (bitmap_pages, pool_pages) =>
        if pool_pages =? 0 then Some (b, Err Bootstrap)
        else
          match alloc_frame b with
          | (b, None) => Some (b, Err Bootstrap)
          | (b, Some bitmap) =>
              match take_frames (Z.to_nat (bitmap_pages - 1)) b with
              | (b, false) => Some (b, Err Bootstrap)
              | (b, true) =>
                  match take_remaining b with
                  | (b, None) => Some (b, Err Bootstrap)
                  | (b, Some (base, got)) =>
                      if negb (got =? pool_pages) then Some (b, Err Bootstrap)
                      else Some (b, new base pool_pages bitmap)
                  end
              end
          end
    end.

(** ** The bump invariant

    [take_remaining] leaves [next] at the end of the span, which is page-aligned
    only when the span's start is. *)

Record bump_ok (b : FrameBump) : Prop := {
  bo_base : 0 ≤ bump_base b ∧ bump_base b mod PAGE_SIZE = 0;
  bo_next : bump_base b ≤ next b ≤ bump_end b;
  bo_end : bump_end b + PAGE_SIZE < W64;
  bo_aligned : next b mod PAGE_SIZE = 0 ∨ next b = bump_end b;
}.

Lemma bump_new_ok start pages : 0 ≤ start → 0 ≤ pages →
  start + (pages + 2) * PAGE_SIZE < W64 → bump_ok (bump_new start pages) ∧
  next (bump_new start pages) = bump_base (bump_new start pages) ∧
  start ≤ bump_base (bump_new start pages) < start + PAGE_SIZE ∧
  bump_end (bump_new start pages) ≤
    Z.max (start + pages * PAGE_SIZE) (bump_base (bump_new start pages)).
Proof.
  unfold PAGE_SIZE. intros Hs Hp Hle. unfold bump_new, PAGE_SIZE. change (4096 - 1) with 4095.
  rewrite add64_small, sub64_small, page_floor by mlia.
  unfold sat_add64, sat_mul64. rewrite !Z.min_l by mlia.
  destruct (Z.leb_spec (start + pages * 4096) ((start + 4096 - 1) / 4096 * 4096)); simpl;
    (split; [constructor; unfold PAGE_SIZE; simpl|]); dlia.
Qed.

Lemma alloc_frame_spec b b' r : bump_ok b → alloc_frame b = (b', r) →
  bump_ok b' ∧ bump_base b' = bump_base b ∧ bump_end b' = bump_end b ∧
  match r with
  | Some f => f = next b ∧ f mod PAGE_SIZE = 0 ∧ next b' = f + PAGE_SIZE ∧ f + PAGE_SIZE ≤ bump_end b
  | None => b' = b ∧ bump_end b < next b + PAGE_SIZE
  end.
Proof.
  intros [] . unfold alloc_frame. rewrite add64_small by (unfold PAGE_SIZE in *; mlia).
  destruct (Z.ltb_spec (bump_end b) (next b + PAGE_SIZE)); intros [= <- <-].
  - split_and!; try done.
  - unfold PAGE_SIZE in *. split; [constructor; unfold PAGE_SIZE; simpl; dlia|split_and!; simpl; dlia].
Qed.

Lemma alloc_pages_spec b n b' r : bump_ok b → u64 n → alloc_pages b n = (b', r) →
  bump_ok b' ∧ bump_base b' = bump_base b ∧ bump_end b' = bump_end b ∧
  match r with
  | Some f => 0 < n ∧ f = next b ∧ f mod PAGE_SIZE = 0 ∧ next b' = f + n * PAGE_SIZE ∧
              f + n * PAGE_SIZE ≤ bump_end b
  | None => b' = b ∧ (n = 0 ∨ bump_end b < next b + n * PAGE_SIZE)
  end.
Proof.
  intros [] Hn. unfold alloc_pages, PAGE_SIZE in *. destruct (Z.eqb_spec n 0); [intros [= <- <-]; split_and!; by auto|].
  unfold sat_mul64, sat_add64. destruct (Z.le_gt_cases (n * 4096) U64_MAX).
  - rewrite (Z.min_l (n * 4096)) by done. rewrite Z.div_mul, Z.eqb_refl by done. simpl negb.
    destruct (Z.ltb_spec (bump_end b) (Z.min (next b + n * 4096) U64_MAX)); intros [= <- <-].
    + split_and!; try done. right. mlia.
    + rewrite add64_small by mlia. unfold u64, W64, U64_MAX in *.
      split; [constructor; unfold PAGE_SIZE, W64; simpl|split_and!; simpl];
      try (Z.to_euclidean_division_equations; lia).
  - rewrite Z.min_r by lia. destruct (Z.eqb_spec (U64_MAX / 4096) n); simpl negb;
      [exfalso; dlia|]. intros [= <- <-]. split_and!; try done. right. mlia.
Qed.

Lemma take_remaining_spec b b' r : bump_ok b → take_remaining b = (b', r) →
  bump_ok b' ∧ bump_base b' = bump_base b ∧ bump_end b' = bump_end b ∧
  match r with
  | Some (f, n) => 0 < n ∧ n = remaining_pages b ∧ f = next b ∧ f mod PAGE_SIZE = 0 ∧
      f + n * PAGE_SIZE ≤ next b' ∧ next b' = bump_end b ∧ remaining_pages b' = 0
  | None => b' = b ∧ remaining_pages b = 0
  end.
Proof.
  intros []. unfold take_remaining, remaining_pages, PAGE_SIZE in *.
  destruct (Z.eqb_spec (sat_sub64 (bump_end b) (next b) / 4096) 0); intros [= <- <-].
  - split_and!; done.
  - split; [constructor; unfold PAGE_SIZE; simpl; dlia|split_and!; simpl; dlia].
Qed.

(** ** Sequences of requests *)

Inductive request := ReqFrame | ReqPages (n : Z) | ReqRest.

Definition serve (b : FrameBump) (q : request) : FrameBump * option (Z * Z) :=
  match q with
  | ReqFrame => let '(b, r) := alloc_frame b in (b, (λ f, (f, 1)) <$> r)
  | ReqPages n => let '(b, r) := alloc_pages b n in (b, (λ f, (f, n)) <$> r)
  | ReqRest => take_remaining b
  end.

(** The spans handed out, in order. *)
Fixpoint serve_all (b : FrameBump) (qs : list request) : FrameBump * list (Z * Z) :=
  match qs with
  | [] => (b, [])
  | q :: qs =>
      let '(b, r) := serve b q in
      let '(b, spans) := serve_all b qs in
      (b, match r with None => spans | Some s => s :: spans end)
  end.

Definition request_ok (q : request) : Prop :=
  match q with ReqPages n => u64 n | _ => True end.

(** A span ends before every later one starts. *)
Definition before (s t : Z * Z) : Prop := s.1 + s.2 * PAGE_SIZE ≤ t.1.

Definition span_in (lo hi : Z) (s : Z * Z) : Prop :=
  lo ≤ s.1 ∧ 0 < s.2 ∧ s.1 mod PAGE_SIZE = 0 ∧ s.1 + s.2 * PAGE_SIZE ≤ hi.

Lemma serve_spec b q b' r : bump_ok b → request_ok q → serve b q = (b', r) →
  bump_ok b' ∧ bump_base b' = bump_base b ∧ bump_end b' = bump_end b ∧ next b ≤ next b' ∧
  match r with
  | Some s => span_in (next b) (next b') s
  | None => b' = b
  end.
Proof.
  intros Hb Hq. destruct q as [|n|]; simpl in *.
  - destruct (alloc_frame b) as [b1 r1] eqn:E. intros [= <- <-].
    apply alloc_frame_spec in E as (? & ? & ? & Hr); [|done].
    destruct r1; simpl in *; unfold span_in, PAGE_SIZE in *; simpl; destruct_and?; subst; split_and!; (done || lia).
  - destruct (alloc_pages b n) as [b1 r1] eqn:E. intros [= <- <-].
    apply alloc_pages_spec in E as (? & ? & ? & Hr); [|done..].
    destruct r1; simpl in *; unfold span_in, PAGE_SIZE in *; simpl; destruct_and?; subst; split_and!; (done || lia).
  - intros E. apply take_remaining_spec in E as (? & ? & ? & Hr); [|done].
    destruct r as [[f n]|]; simpl in *.
    + destruct Hr as (? & ? & -> & ? & ? & ? & ?). pose proof (bo_next _ Hb). unfold span_in. simpl.
      split_and!; try done; lia.
    + destruct Hr as [-> _]. split_and!; try done; lia.
Qed.

Lemma span_in_weaken lo lo' hi hi' s : lo ≤ lo' → hi' ≤ hi → span_in lo' hi' s → span_in lo hi s.
Proof. unfold span_in. lia. Qed.

Lemma serve_all_spec qs : ∀ b b' spans, bump_ok b → Forall request_ok qs →
  serve_all b qs = (b', spans) →
  bump_ok b' ∧ next b ≤ next b' ∧ bump_end b' = bump_end b ∧
  Forall (span_in (next b) (next b')) spans ∧ StronglySorted before spans.
Proof.
  induction qs as [|q qs IH]; intros b b' spans Hb Hqs; simpl.
  - intros [= <- <-]. split_and!; (done || lia || constructor).
  - apply Forall_cons in Hqs as [Hq Hqs]. destruct (serve b q) as [b1 r] eqn:E.
    destruct (serve_all b1 qs) as [b2 sp] eqn:E2. intros [= <- <-].
    apply serve_spec in E as (Hb1 & _ & He1 & Hn1 & Hr); [|done..].
    apply IH in E2 as (Hb2 & Hn2 & He2 & Hf2 & Hs2); [|done..].
    assert (Forall (span_in (next b) (next b2)) sp) as Hf.
    { eapply Forall_impl; [exact Hf2|]. intros s. apply span_in_weaken; lia. }
    split_and!; [done|lia|congruence|..]; (destruct r as [s|]; [|done]).
    + constructor; [eapply span_in_weaken; [| |exact Hr]; lia|done].
    + constructor; [done|]. eapply Forall_impl; [exact Hf2|]. intros t [Ht _].
      unfold before. destruct Hr as (_ & _ & _ & ?). lia.
Qed.

(** ** The best candidate

    What a preference must satisfy for the running choice of [keep] to end at
    an optimum: a strict weak order. *)

Class Preference {A} (better : A → A → bool) : Prop := {
  pref_asym a b : better a b = true → better b a = false;
  pref_negtrans a b c : better a b = false → better b c = false → better a c = false;
}.

#[global] Instance more_pages_pref : Preference more_pages.
Proof. split; unfold more_pages; intros; lia. Qed.
#[global] Instance lower_start_pref : Preference lower_start.
Proof. split; unfold lower_start; intros; lia. Qed.
#[global] Instance better_disk_pref : Preference better_disk.
Proof. split; unfold better_disk; intros; lia. Qed.

(** [r] is an optimum of [cs], [None] when there is none. *)
Definition best_of {A} (better : A → A → bool) (cs : list A) (r : option A) : Prop :=
  match r with
  | None => cs = []
  | Some c => c ∈ cs ∧ ∀ c', c' ∈ cs → better c' c = false
  end.

Lemma best_of_snoc {A} (better : A → A → bool) `{!Preference better} cs r c :
  best_of better cs r → best_of better (cs ++ [c]) (keep better r c).
Proof.
  assert (∀ x, better x x = false) as Hirr.
  { intros x. destruct (better x x) eqn:E; [|done]. by rewrite (pref_asym _ _ E) in E. }
  destruct r as [b|]; simpl; [|intros ->].
  - intros [Hb Hall]. destruct (better c b) eqn:E; simpl; (split; [set_solver|]);
      intros c' [Hc'| ->%list_elem_of_singleton]%elem_of_app; auto.
    eapply pref_negtrans; [by apply Hall|by apply pref_asym].
  - split; [set_solver|]. intros c' ->%list_elem_of_singleton. apply Hirr.
Qed.

(** A loop that keeps the best of the candidates its regions give. *)
Lemma keep_omap {A B} (better : A → A → bool) `{!Preference better} (f : B → option A)
    (step : option A → B → option A) rs :
  (∀ best r, r ∈ rs → step best r = match f r with None => best | Some c => keep better best c end) →
  best_of better (omap f rs) (foldl step None rs).
Proof.
  induction rs as [|r rs IH] using rev_ind; intros Hst; [done|].
  rewrite foldl_app, omap_app. simpl foldl. rewrite Hst by set_solver.
  assert (best_of better (omap f rs) (foldl step None rs)) as IH'.
  { apply IH. intros best r' Hr'. apply Hst. set_solver. }
  csimpl. destruct (f r); [by apply best_of_snoc|by rewrite app_nil_r].
Qed.

(** Two such loops run side by side. *)
Lemma foldl_pair {A B C} (f : A → C → A) (g : B → C → B) (h : A * B → C → A * B) cs :
  ∀ a b, (∀ a b c, c ∈ cs → h (a, b) c = (f a c, g b c)) →
  foldl h (a, b) cs = (foldl f a cs, foldl g b cs).
Proof.
  induction cs as [|c cs IH]; intros a b Hh; [done|]. simpl. rewrite Hh by set_solver.
  apply IH. intros. apply Hh. set_solver.
Qed.

Lemma best_of_opt_or {A} (b1 b2 : A → A → bool) cs1 cs2 r1 r2 :
  best_of b1 cs1 r1 → best_of b2 cs2 r2 →
  match cs1 with [] => best_of b2 cs2 | _ => best_of b1 cs1 end (opt_or r1 r2).
Proof.
  intros H1 H2. destruct r1 as [c|]; simpl in *; [|by subst].
  destruct cs1; [|done]. by destruct H1 as [?%elem_of_nil _].
Qed.

(** ** Candidates *)

Definition region_ok (r : Z * Z) : Prop := u64 r.1 ∧ 0 ≤ r.2.

(** The part of a region inside [lo, hi), when it has [min] whole pages. *)
Definition usable (lo hi min : Z) (r : Z * Z) : option (Z * Z) :=
  let s := Z.max r.1 lo in
  let e := Z.min (region_end r) hi in
  if s <? e then
    if min <=? (e - s) / PAGE_SIZE then Some (s, (e - s) / PAGE_SIZE) else None
  else None.

(** The aligned part of a region that holds an install disk. *)
Definition disk_fit (try_bytes : list Z) (r : Z * Z) : option (Z * Z) :=
  let s := (r.1 + PERSIST_DISK_ALIGN - 1) / PERSIST_DISK_ALIGN * PERSIST_DISK_ALIGN in
  if (0 <? s) && (s <? region_end r) then
    (λ want, (s, want)) <$> fitted try_bytes (region_end r - s)
  else None.

Lemma region_end_range r : region_ok r → r.1 ≤ region_end r ∧ u64 (region_end r) ∧
  region_end r ≤ r.1 + r.2 * PAGE_SIZE.
Proof. destruct r as [s n]. unfold region_ok, region_end, PAGE_SIZE. simpl. intros [? ?]. mlia. Qed.

Lemma usable_inside lo hi min r c : region_ok r → usable lo hi min r = Some c →
  lo ≤ c.1 ∧ r.1 ≤ c.1 ∧ c.1 + c.2 * PAGE_SIZE ≤ hi ∧
  c.1 + c.2 * PAGE_SIZE ≤ r.1 + r.2 * PAGE_SIZE ∧ min ≤ c.2.
Proof.
  intros Hr. pose proof (region_end_range r Hr). unfold usable, PAGE_SIZE in *.
  destruct (Z.ltb_spec (Z.max r.1 lo) (Z.min (region_end r) hi)); [|done].
  destruct (Z.leb_spec min ((Z.min (region_end r) hi - Z.max r.1 lo) / 4096)); [|done].
  intros [= <-]. simpl. dlia.
Qed.

Lemma usable_loop lo min r best : region_ok r → 0 ≤ lo →
  (if region_end r <=? Z.max r.1 lo then best
   else if (region_end r ⊟ Z.max r.1 lo) / PAGE_SIZE <? min then best
        else keep more_pages best (Z.max r.1 lo, (region_end r ⊟ Z.max r.1 lo) / PAGE_SIZE))
  = match usable lo W64 min r with None => best | Some c => keep more_pages best c end.
Proof.
  intros Hr Hlo. destruct (region_end_range r Hr) as (_ & Hu & _). unfold usable.
  rewrite Z.min_l by mlia. destruct (Z.leb_spec (region_end r) (Z.max r.1 lo)).
  - by rewrite (proj2 (Z.ltb_ge _ _)) by lia.
  - rewrite (proj2 (Z.ltb_lt (Z.max r.1 lo) _)) by done. rewrite sub64_small by (destruct Hr; mlia).
    rewrite Z.leb_antisym. by destruct (_ <? min).
Qed.

Lemma prefer_step_split min pe r p a : region_ok r →
  prefer_step min pe (p, a) r =
  (match (if ONE_MIB <? pe then usable ONE_MIB pe min r else None) with
   | None => p | Some c => keep more_pages p c end,
   match usable ONE_MIB W64 min r with None => a | Some c => keep more_pages a c end).
Proof.
  intros Hr. destruct (region_end_range r Hr) as (_ & Hu & _). unfold prefer_step, usable.
  rewrite (Z.min_l _ W64) by mlia. change ONE_MIB with 1048576.
  destruct (Z.leb_spec (region_end r) (Z.max r.1 1048576)).
  - rewrite !(proj2 (Z.ltb_ge (Z.max r.1 1048576) _)) by lia. by destruct (_ <? pe).
  - rewrite (proj2 (Z.ltb_lt _ (region_end r))) by done. rewrite (sub64_small (region_end r)) by (destruct Hr; mlia).
    destruct (1048576 <? pe); [|by destruct (min <=? _)].
    destruct (Z.ltb_spec (Z.max r.1 1048576) (Z.min (region_end r) pe)); [|by destruct (min <=? _)].
    rewrite sub64_small by (destruct Hr; mlia). by do 2 destruct (min <=? _).
Qed.

Lemma above_prefer_step_split want min floor r p a : region_ok r → 0 ≤ floor →
  above_prefer_step want min floor (p, a) r =
  (match usable floor W64 (Z.max want min) r with
   | None => p | Some c => keep lower_start p c end,
   match usable floor W64 min r with None => a | Some c => keep more_pages a c end).
Proof.
  intros Hr Hf. destruct (region_end_range r Hr) as (_ & Hu & _). unfold above_prefer_step, usable.
  rewrite (Z.min_l _ W64) by mlia.
  destruct (Z.leb_spec (region_end r) (Z.max r.1 floor)).
  - by rewrite !(proj2 (Z.ltb_ge (Z.max r.1 floor) _)) by lia.
  - rewrite (proj2 (Z.ltb_lt _ (region_end r))) by done. rewrite sub64_small by (destruct Hr; mlia).
    set (n := (region_end r - Z.max r.1 floor) / PAGE_SIZE).
    destruct (Z.ltb_spec n min), (Z.leb_spec min n), (Z.leb_spec (Z.max want min) n),
      (Z.leb_spec want n); try lia; done.
Qed.

Lemma persist_step_spec tries r best : region_ok r → r.1 + PERSIST_DISK_ALIGN ≤ W64 →
  persist_step tries best r =
  match disk_fit tries r with None => best | Some c => keep better_disk best c end.
Proof.
  intros Hr Hs. destruct (region_end_range r Hr) as (_ & Hu & _). destruct Hr as [Hr1 _].
  unfold persist_step, disk_fit. change PERSIST_DISK_ALIGN with 2097152 in *.
  unfold sat_add64. rewrite Z.min_l by mlia.
  replace (Z.land (r.1 + (2097152 - 1)) (bnot64 (2097152 - 1)))
    with ((r.1 + 2097151) / 2097152 * 2097152)
    by (symmetry; apply (clear_low (r.1 + 2097151) 21); mlia).
  replace (r.1 + 2097152 - 1) with (r.1 + 2097151) by lia.
  set (s := (r.1 + 2097151) / 2097152 * 2097152) in *. assert (0 ≤ s) by (subst s; dlia).
  destruct (Z.eqb_spec s 0) as [->|]; [done|]. rewrite (proj2 (Z.ltb_lt 0 s)) by lia. simpl.
  rewrite Z.leb_antisym. destruct (Z.ltb_spec s (region_end r)); simpl; [|done].
  rewrite sub64_small by mlia. by destruct (fitted _ _).
Qed.

(** ** The split of the pool *)

Lemma bitmap_pages_needed_pos c : 0 < c < 2 ^ 53 →
  bitmap_pages_needed c = ((c + 7) / 8 + 4095) / 4096.
Proof.
  intros Hc. unfold bitmap_pages_needed. rewrite (proj2 (Z.eqb_neq c 0)) by lia.
  rewrite (add64_small c 7) by mlia. rewrite add64_small by dlia. done.
Qed.

Definition good_split (rem k : Z) : Prop := bitmap_pages_needed (rem - k) ≤ k.

Lemma split_loop_spec fuel : ∀ rem k, rem < 2 ^ 53 → 1 ≤ k < rem →
  (Z.to_nat (rem - k) ≤ fuel)%nat →
  ∃ k', split_loop fuel rem k = Some (k', rem - k') ∧ k ≤ k' < rem ∧ good_split rem k' ∧
    ∀ j, k ≤ j < k' → ¬ good_split rem j.
Proof.
  induction fuel as [|fuel IH]; intros rem k Hr Hk Hf; [lia|]. simpl.
  rewrite (proj2 (Z.ltb_lt k rem)) by lia. rewrite sub64_small by mlia.
  destruct (Z.leb_spec (bitmap_pages_needed (rem - k)) k) as [Hg|Hg].
  - exists k. split_and!; (done || lia).
  - destruct (decide (k = rem - 1)) as [->|Hne].
    { exfalso. revert Hg. rewrite bitmap_pages_needed_pos by lia.
      replace (rem - (rem - 1)) with 1 by lia. change (((1 + 7) / 8 + 4095) / 4096) with 1. lia. }
    rewrite add64_small by mlia.
    destruct (IH rem (k + 1)) as (k' & E & Hk' & Hg' & Hmin); [lia..|].
    exists k'. split_and!; [done|lia|lia|done|]. intros j Hj. unfold good_split.
    destruct (decide (j = k)) as [->|]; [lia|apply Hmin; lia].
Qed.

Lemma take_frames_spec n : ∀ b, bump_ok b → next b mod PAGE_SIZE = 0 →
  next b + Z.of_nat n * PAGE_SIZE ≤ bump_end b →
  ∃ b', take_frames n b = (b', true) ∧ bump_ok b' ∧ bump_end b' = bump_end b ∧
    next b' = next b + Z.of_nat n * PAGE_SIZE.
Proof.
  induction n as [|n IH]; intros b Hb Ha Hn; [exists b; split_and!; (done || lia)|].
  cbn [take_frames]. destruct (alloc_frame b) as [b1 [f|]] eqn:E;
    apply alloc_frame_spec in E as (Hb1 & _ & He & Hr); try done.
  - destruct Hr as (-> & _ & Hn1 & _). destruct (IH b1) as (b' & -> & Hb' & He' & Hn');
      [done|unfold PAGE_SIZE in *; dlia|lia|].
    exists b'. split_and!; (done || lia).
  - destruct Hr as [-> Hr]. unfold PAGE_SIZE in *. lia.
Qed.

Lemma new_Ok bp cap bm : u64 bp → bp mod 4096 = 0 → 0 < cap → bp + cap * 4096 ≤ W64 →
  ∃ a, new bp cap bm = Ok a ∧ wf a ∧ allocated a = ∅ ∧ base_frame a = bp / 4096 ∧
    capacity a = cap ∧ bitmap_phys a = bm ∧ bitmap_words a = (cap + 63) / 64.
Proof.
  intros Hu Hm Hc Hr. destruct (new bp cap bm) as [a|e] eqn:E.
  - exists a. pose proof E as E'.
    apply new_spec in E as (Hwf & Hal & _ & _ & Hb & Hcap); [|done|lia|done].
    split_and!; try done; [|rewrite <- Hcap; apply Hwf].
    revert E'. unfold new. destruct (_ || _); [done|]. destruct (_ =? 0); [done|].
    by intros [= <-].
  - exfalso. revert E. unfold new. rewrite land_page, Hm, add64_small by mlia.
    rewrite (proj2 (Z.eqb_neq cap 0)) by lia. simpl.
    rewrite (proj2 (Z.eqb_neq ((cap + 63) / 64) 0)) by dlia. done.
Qed.

Lemma bitmap_fits c k : 0 < c < 2 ^ 53 → bitmap_pages_needed c ≤ k →
  (c + 63) / 64 * 8 ≤ k * PAGE_SIZE.
Proof.
  intros Hc. rewrite bitmap_pages_needed_pos by done. unfold PAGE_SIZE. intros Hk.
  assert ((c + 7) / 8 ≤ k * 4096) as H1 by (clear Hc; dlia).
  assert (c ≤ k * 32768) as H2 by (clear Hc Hk; dlia).
  assert ((c + 63) / 64 < k * 512 + 1) as H3 by (apply Z.div_lt_upper_bound; lia). lia.
Qed.

(** A pool of at least two pages becomes an allocator over all but the fewest
    pages that can hold its bitmap. *)
Lemma bootstrap_spec b : bump_ok b → 2 ≤ remaining_pages b →
  ∃ k b' a, bootstrap_from_bump b = Some (b', Ok a) ∧
    1 ≤ k < remaining_pages b ∧ good_split (remaining_pages b) k ∧
    (∀ j, 1 ≤ j < k → ¬ good_split (remaining_pages b) j) ∧
    wf a ∧ allocated a = ∅ ∧ bitmap_phys a = next b ∧ bitmap_words a * 8 ≤ k * PAGE_SIZE ∧
    capacity a = remaining_pages b - k ∧ base_frame a * PAGE_SIZE = next b + k * PAGE_SIZE ∧
    remaining_pages b' = 0.
Proof.
  intros Hb Hrem. pose proof Hb as [Hbase Hnext Hend Hal].
  assert (next b + remaining_pages b * PAGE_SIZE ≤ bump_end b ∧ remaining_pages b < 2 ^ 53) as [Hfit Hsm].
  { unfold remaining_pages, PAGE_SIZE in *. dlia. }
  assert (next b mod PAGE_SIZE = 0) as Ha. { unfold remaining_pages, PAGE_SIZE in *. dlia. }
  destruct (split_loop_spec (Z.to_nat (remaining_pages b)) (remaining_pages b) 1)
    as (k & Es & Hk & Hg & Hmin); [lia..|].
  unfold bootstrap_from_bump. rewrite (proj2 (Z.ltb_ge (remaining_pages b) 2)) by lia. rewrite Es.
  rewrite (proj2 (Z.eqb_neq (remaining_pages b - k) 0)) by lia.
  destruct (alloc_frame b) as [b1 [f|]] eqn:E1; apply alloc_frame_spec in E1 as (Hb1 & _ & He1 & Hr1);
    try done; [|destruct Hr1; unfold PAGE_SIZE in *; lia].
  destruct Hr1 as (-> & _ & Hn1 & _).
  destruct (take_frames_spec (Z.to_nat (k - 1)) b1) as (b2 & -> & Hb2 & He2 & Hn2);
    [done|unfold PAGE_SIZE in *; dlia|unfold PAGE_SIZE in *; nia|].
  assert (next b2 = next b + k * PAGE_SIZE) as Hn2' by (unfold PAGE_SIZE in *; nia).
  assert (remaining_pages b2 = remaining_pages b - k) as Hr2.
  { unfold remaining_pages, PAGE_SIZE in *. rewrite He2, He1, Hn2'. dlia. }
  destruct (take_remaining b2) as [b3 [[f n]|]] eqn:E3; apply take_remaining_spec in E3
    as (Hb3 & _ & He3 & Hr3); try done; [|lia].
  destruct Hr3 as (Hpos & -> & -> & Ha2 & _ & _ & Hz). rewrite Hr2, Z.eqb_refl. simpl negb. cbv iota.
  destruct (new_Ok (next b2) (remaining_pages b - k) (next b))
    as (a & -> & Hwf & Hall & Hbf & Hcap & Hbm & Hw);
    [unfold PAGE_SIZE in *; mlia|done|lia|unfold PAGE_SIZE in *; mlia|].
  exists k, b3, a. split_and!; try done; try lia.
  - rewrite Hw. apply bitmap_fits; [lia|done].
  - rewrite Hbf, <- Hn2'. unfold PAGE_SIZE in *. dlia.
Qed.

(** ** Theorems *)

(** The candidate lists of the three pickers. *)
Definition clipped (regions : list (Z * Z)) (min_pages prefer_end : Z) : list (Z * Z) :=
  omap (λ r, if ONE_MIB <? prefer_end then usable ONE_MIB prefer_end min_pages r else None) regions.
Definition above_floor (regions : list (Z * Z)) (min_pages floor : Z) : list (Z * Z) :=
  omap (usable floor W64 min_pages) regions.

Lemma prefer_optimal regions min_pages prefer_end : Forall region_ok regions →
  match clipped regions min_pages prefer_end with
  | [] => best_of more_pages (above_floor regions min_pages ONE_MIB)
  | _ => best_of more_pages (clipped regions min_pages prefer_end)
  end (pick_conventional_region_prefer regions min_pages prefer_end).
Proof.
  rewrite Forall_forall. intros Hr. unfold pick_conventional_region_prefer.
  erewrite foldl_pair; [|intros p a r Hin; apply prefer_step_split, Hr, Hin].
  apply best_of_opt_or; apply keep_omap; try apply _; done.
Qed.

Lemma above_optimal regions min_pages above : Forall region_ok regions →
  best_of more_pages (above_floor regions min_pages (Z.max above ONE_MIB))
    (pick_conventional_region_above regions min_pages above).
Proof.
  rewrite Forall_forall. intros Hr. unfold pick_conventional_region_above.
  apply keep_omap; [apply _|]. intros best r Hin. apply usable_loop; [by apply Hr|].
  unfold ONE_MIB. lia.
Qed.

Lemma above_prefer_optimal regions want_pages min_pages above : Forall region_ok regions →
  match above_floor regions (Z.max want_pages min_pages) (Z.max above ONE_MIB) with
  | [] => best_of more_pages (above_floor regions min_pages (Z.max above ONE_MIB))
  | cs => best_of lower_start cs
  end (pick_conventional_region_above_prefer regions want_pages min_pages above).
Proof.
  rewrite Forall_forall. intros Hr. unfold pick_conventional_region_above_prefer.
  assert (0 ≤ Z.max above ONE_MIB) as Hf by (unfold ONE_MIB; lia).
  erewrite foldl_pair; [|intros p a r Hin; apply above_prefer_step_split; [by apply Hr|done]].
  pose proof (best_of_opt_or lower_start more_pages
    (above_floor regions (Z.max want_pages min_pages) (Z.max above ONE_MIB))
    (above_floor regions min_pages (Z.max above ONE_MIB))) as H.
  destruct (above_floor regions (Z.max want_pages min_pages) _) eqn:E;
    apply H; try (rewrite <- E); apply keep_omap; try apply _; done.
Qed.

Lemma disk_fit_inside tries r hpa bytes : disk_fit tries r = Some (hpa, bytes) →
  hpa mod PERSIST_DISK_ALIGN = 0 ∧ 0 < hpa ∧ bytes ∈ tries ∧ r.1 ≤ hpa ∧ hpa + bytes ≤ region_end r.
Proof.
  assert (0 < PERSIST_DISK_ALIGN) as Hpos by done. unfold disk_fit.
  pose proof (Z.div_mod (r.1 + PERSIST_DISK_ALIGN - 1) PERSIST_DISK_ALIGN ltac:(lia)).
  pose proof (Z.mod_pos_bound (r.1 + PERSIST_DISK_ALIGN - 1) PERSIST_DISK_ALIGN Hpos).
  set (k := (r.1 + PERSIST_DISK_ALIGN - 1) / PERSIST_DISK_ALIGN) in *. clearbody k.
  destruct (_ && _) eqn:E; [|done]. apply andb_true_iff in E as [E1%Z.ltb_lt E2%Z.ltb_lt].
  intros (want & Hw & [= -> ->])%fmap_Some. unfold fitted in Hw.
  apply head_Some_elem_of, list_elem_of_filter in Hw as [[_ Hw] Ht].
  split_and!; [apply Z.mod_mul; lia|done|done|lia|lia].
Qed.

Definition within (r s : Z * Z) : Prop :=
  r.1 ≤ s.1 ∧ s.1 + s.2 * PAGE_SIZE ≤ r.1 + r.2 * PAGE_SIZE.

(** The pool span is the largest the memory map allows. When some region has
    [min_pages] pages in [1 MiB, prefer_end) the choice is a largest such clip;
    otherwise it is a largest usable span above 1 MiB, and [None] only when no
    region has one; and a chosen span lies inside one region of the map, above
    1 MiB, with at least [min_pages] pages. *)
Theorem pick_region_optimal regions min_pages prefer_end : Forall region_ok regions →
  match clipped regions min_pages prefer_end with
  | [] => best_of more_pages (above_floor regions min_pages ONE_MIB)
  | _ => best_of more_pages (clipped regions min_pages prefer_end)
  end (pick_conventional_region_prefer regions min_pages prefer_end) ∧
  ∀ s, pick_conventional_region_prefer regions min_pages prefer_end = Some s →
    ∃ r, r ∈ regions ∧ within r s ∧ ONE_MIB ≤ s.1 ∧ min_pages ≤ s.2.
Proof.
  intros Hr. pose proof (prefer_optimal regions min_pages prefer_end Hr) as Ho. split; [done|].
  rewrite Forall_forall in Hr. intros s E. rewrite E in Ho.
  assert (s ∈ clipped regions min_pages prefer_end ∨ s ∈ above_floor regions min_pages ONE_MIB)
    as [Hs|Hs].
  { revert Ho. destruct (clipped _ _ _) eqn:Ec; intros [? _]; [by right|by left]. }
  all: apply list_elem_of_omap in Hs as (r & Hin & Hu).
  1: destruct (_ <? _); [|done].
  all: apply usable_inside in Hu as (? & ? & ? & ? & ?); [|by apply Hr].
  all: exists r; unfold within; split_and!; done.
Qed.

(** The leftover picks above a floor: the plain pick is a largest usable span
    above the floor; the preferring pick takes a lowest span of [want_pages] when
    there is one and falls back to the largest. *)
Theorem pick_above_optimal regions want_pages min_pages above : Forall region_ok regions →
  best_of more_pages (above_floor regions min_pages (Z.max above ONE_MIB))
    (pick_conventional_region_above regions min_pages above) ∧
  match above_floor regions (Z.max want_pages min_pages) (Z.max above ONE_MIB) with
  | [] => best_of more_pages (above_floor regions min_pages (Z.max above ONE_MIB))
  | cs => best_of lower_start cs
  end (pick_conventional_region_above_prefer regions want_pages min_pages above).
Proof. intros Hr. split; [by apply above_optimal|by apply above_prefer_optimal]. Qed.

(** The install disk never leaves the reported persistent memory: a pick is
    2 MiB-aligned, one of the sizes asked for, inside one region of the map, and no
    region allows a larger one (nor an equal one lower down); [None] only when no
    region holds any size. *)
Theorem persist_disk_optimal regions try_bytes :
  Forall region_ok regions → Forall (λ r, r.1 + PERSIST_DISK_ALIGN ≤ W64) regions →
  let best := pick_persist_disk_region regions try_bytes in
  best_of better_disk (omap (disk_fit try_bytes) regions) best ∧
  ∀ hpa bytes, best = Some (hpa, bytes) →
    hpa mod PERSIST_DISK_ALIGN = 0 ∧ 0 < hpa ∧ bytes ∈ try_bytes ∧
    ∃ r, r ∈ regions ∧ r.1 ≤ hpa ∧ hpa + bytes ≤ r.1 + r.2 * PAGE_SIZE.
Proof.
  rewrite !Forall_forall. intros Hr Hs best.
  assert (best_of better_disk (omap (disk_fit try_bytes) regions) best) as Hb.
  { apply keep_omap; [apply _|]. intros b r Hin. apply persist_step_spec; [by apply Hr|by apply Hs]. }
  split; [done|]. intros hpa bytes E. rewrite E in Hb. destruct Hb as [Hin _].
  apply list_elem_of_omap in Hin as (r & Hin & Hf).
  destruct (region_end_range r (Hr r Hin)) as (_ & _ & He).
  apply disk_fit_inside in Hf as (? & ? & ? & ? & ?).
  split_and!; [done..|]. exists r. split_and!; [done|done|lia].
Qed.

(** The bump pool never hands out a page twice. Over any sequence of frame,
    multi-page and take-the-rest requests on a fresh pool, the spans handed out
    are page-aligned, inside the region the pool was made from, and each ends
    before every later one begins. *)
Theorem bump_spans_disjoint start pages qs b spans : 0 ≤ start → 0 ≤ pages →
  start + (pages + 2) * PAGE_SIZE < W64 → Forall request_ok qs →
  serve_all (bump_new start pages) qs = (b, spans) →
  Forall (span_in start (start + pages * PAGE_SIZE)) spans ∧ StronglySorted before spans.
Proof.
  intros Hs Hp Hr Hq E. destruct (bump_new_ok start pages Hs Hp Hr) as (Hb & Hn & Hst & He).
  apply serve_all_spec in E as (Hb' & _ & He' & Hf & Hss); [|done..]. split; [|done].
  eapply Forall_impl; [exact Hf|]. intros s (H1 & H2 & H3 & H4). pose proof (bo_next _ Hb').
  unfold span_in, PAGE_SIZE in *. split_and!; lia.
Qed.

(** Promoting the pool: [bootstrap_from_bump] fails, leaving the pool alone,
    exactly when fewer than two pages remain; otherwise it takes the fewest
    pages that hold the bitmap of the rest, and gives a well-formed allocator
    with no frame in use over exactly that rest, whose bitmap fits the pages in
    front of it and lies outside it; nothing is left in the pool. *)
Theorem bootstrap_exact b : bump_ok b →
  (remaining_pages b < 2 ∧ bootstrap_from_bump b = Some (b, Err Bootstrap)) ∨
  ∃ k b' a, bootstrap_from_bump b = Some (b', Ok a) ∧
    1 ≤ k < remaining_pages b ∧
    bitmap_pages_needed (remaining_pages b - k) ≤ k ∧
    (∀ j, 1 ≤ j < k → j < bitmap_pages_needed (remaining_pages b - j)) ∧
    wf a ∧ allocated a = ∅ ∧ capacity a = remaining_pages b - k ∧
    bitmap_phys a = next b ∧ bitmap_words a * 8 ≤ k * PAGE_SIZE ∧
    base_frame a * PAGE_SIZE = next b + k * PAGE_SIZE ∧ remaining_pages b' = 0.
Proof.
  intros Hb. destruct (Z.lt_ge_cases (remaining_pages b) 2) as [Hlt|Hge].
  - left. split; [done|]. unfold bootstrap_from_bump. by rewrite (proj2 (Z.ltb_lt _ _)).
  - right. destruct (bootstrap_spec b Hb Hge)
      as (k & b' & a & E & Hk & Hg & Hmin & Hwf & Hal & Hbm & Hw & Hc & Hbf & Hz).
    exists k, b', a. split_and!; try done; [lia|lia|]. intros j Hj. apply Hmin in Hj.
    unfold good_split in Hj. lia.
Qed.

(** The documented bump invariant "next is always page-aligned" does not survive
    [take_remaining] on a region whose start is not page-aligned. *)
Theorem take_remaining_unaligned :
  let b := (take_remaining (bump_new 0x100800 4)).1 in next b mod PAGE_SIZE = 0x800.
Proof. reflexivity. Qed.

(** ** Witnesses *)

Definition demo_map : list (Z * Z) :=
  [(0, 160); (0x100000, 0x7F00); (0x10000000, 0x20000); (0x100000000, 0x80000)].

Lemma demo_map_ok : Forall region_ok demo_map.
Proof. repeat constructor; simpl; mlia. Qed.

Lemma pick_region_optimal_witness :
  pick_conventional_region_prefer demo_map 1024 0x20000000 = Some (0x10000000, 0x10000) ∧
  ∃ r, r ∈ demo_map ∧ within r (0x10000000, 0x10000).
Proof.
  split; [reflexivity|].
  destruct (proj2 (pick_region_optimal demo_map 1024 0x20000000 demo_map_ok)
    (0x10000000, 0x10000) eq_refl) as (r & Hr & Hw & _).
  by exists r.
Defined.

Lemma pick_above_optimal_witness :
  pick_conventional_region_above_prefer demo_map 0x8000 16 0x20000000 = Some (0x20000000, 0x10000) ∧
  best_of more_pages (above_floor demo_map 16 0x20000000)
    (pick_conventional_region_above demo_map 16 0x20000000).
Proof.
  split; [reflexivity|].
  exact (proj1 (pick_above_optimal demo_map 0x8000 16 0x20000000 demo_map_ok)).
Defined.

Lemma persist_disk_optimal_witness :
  pick_persist_disk_region [(0x100001000, 0x20000)] [0x40000000; 0x10000000]
    = Some (0x100200000, 0x10000000) ∧ 0x100200000 mod PERSIST_DISK_ALIGN = 0.
Proof.
  split; [reflexivity|].
  refine (proj1 (proj2 (persist_disk_optimal [(0x100001000, 0x20000)] [0x40000000; 0x10000000] _ _)
    0x100200000 0x10000000 eq_refl)); repeat constructor; simpl; unfold PERSIST_DISK_ALIGN; mlia.
Defined.

Lemma bump_spans_disjoint_witness :
  (serve_all (bump_new 0x100800 8) [ReqPages 3; ReqFrame; ReqPages 9; ReqRest]).2
    = [(0x101000, 3); (0x104000, 1); (0x105000, 3)] ∧
  StronglySorted before [(0x101000, 3); (0x104000, 1); (0x105000, 3)].
Proof.
  split; [reflexivity|].
  refine (proj2 (bump_spans_disjoint 0x100800 8 [ReqPages 3; ReqFrame; ReqPages 9; ReqRest] _ _
    _ _ _ _ eq_refl)); [lia|lia|unfold PAGE_SIZE; mlia|repeat constructor; simpl; mlia].
Defined.

Lemma bootstrap_exact_witness :
  bump_ok (bump_new 0x100000 70000) ∧
  ∃ b' a, bootstrap_from_bump (bump_new 0x100000 70000) = Some (b', Ok a) ∧ wf a.
Proof.
  assert (bump_ok (bump_new 0x100000 70000)) as Hb
    by (apply bump_new_ok; unfold PAGE_SIZE; mlia).
  split; [exact Hb|]. destruct (bootstrap_exact _ Hb) as [[Hlt _]|(k & b' & a & E & _ & _ & _ & Hwf & _)].
  - exfalso. revert Hlt. vm_compute. congruence.
  - exists b', a. split; [exact E|exact Hwf].
Defined.

End BootMem.
