(* ===== verification/GuestPaging.v ===== *)
(** * Guest page tables

    The long-mode page tables the hypervisor writes for its guests
    ([memory/ept_hw.rs]: [write_guest_identity_2m_tables] and
    [write_guest_identity_precise_tables]), and the processor's walk of them,
    both on plain memory and through an EPT. *)

From S2P Require Import Prelude EptRange EptHw.
Import Ranges Hw.

Module Paging.

Definition G1_SLAB_OFF_PML4 : Z := 0x3000.
Definition G1_SLAB_OFF_PDPT : Z := 0x4000.
Definition G1_SLAB_OFF_PD : Z := 0x5000.

Definition write_guest_identity_2m_tables (m : Mem) (slab_base : Z) : Mem * Z :=
  let pml4 := slab_base ⊞ G1_SLAB_OFF_PML4 in
  let pdpt := slab_base ⊞ G1_SLAB_OFF_PDPT in
  let pd := slab_base ⊞ G1_SLAB_OFF_PD in
  let m := zero_page m pml4 in
  let m := zero_page m pdpt in
  let m := zero_page m pd in
  let present_rw := 3 in
  let leaf_2m := Z.lor (Z.lor present_rw (Z.shiftl 1 7)) (Z.land slab_base (bnot64 0x1fffff)) in
  let m := wr m (pml4 + 8 * idx 39 slab_base) (Z.lor pdpt present_rw) in
  let m := wr m (pdpt + 8 * idx 30 slab_base) (Z.lor pd present_rw) in
  let m := wr m (pd + 8 * idx 21 slab_base) leaf_2m in
  (m, pml4).

Definition write_guest_identity_precise_tables (m : Mem) (pml4_phys pdpt_phys pd_phys : Z)
    : Mem * Z :=
  let m := zero_page m pml4_phys in
  let m := zero_page m pdpt_phys in
  let m := zero_page m pd_phys in
  let present_rw := 3 in
  let leaves := PRECISE_BYTES / TWO_MIB in
  let m := wr m pml4_phys (Z.lor pdpt_phys present_rw) in
  let m := wr m pdpt_phys (Z.lor pd_phys present_rw) in
  let m := fill m pd_phys leaves
             (λ i, Z.lor (Z.lor present_rw (Z.shiftl 1 7)) (i ⊠ TWO_MIB)) in
  (m, pml4_phys).

(** ** The processor's walk

    4-level paging (SDM Vol. 3A): [rd] reads a physical qword of the guest,
    [None] being an EPT violation. Bit 0 is present, bit 7 ends the walk at a
    large page, bits 12 to 51 are the address. *)

Definition PTE_ADDR : Z := 0xffffffffff000.
Definition pte_addr (e : Z) : Z := Z.land e PTE_ADDR.
Definition pte_present (e : Z) : bool := Z.testbit e 0.
Definition pte_large (e : Z) : bool := Z.testbit e 7.

Definition guest_walk (rd : Z → option Z) (cr3 gva : Z) : option Z :=
  e0 ← rd (pte_addr cr3 + 8 * idx 39 gva);
  if negb (pte_present e0) then None
  else
    e1 ← rd (pte_addr e0 + 8 * idx 30 gva);
    if negb (pte_present e1) then None
    else if pte_large e1 then Some (pte_addr e1 / 1073741824 * 1073741824 + gva mod 1073741824)
    else
      e2 ← rd (pte_addr e1 + 8 * idx 21 gva);
      if negb (pte_present e2) then None
      else if pte_large e2 then Some (pte_addr e2 / 2097152 * 2097152 + gva mod 2097152)
      else
        e3 ← rd (pte_addr e2 + 8 * idx 12 gva);
        if negb (pte_present e3) then None
        else Some (pte_addr e3 + gva mod 4096).

(** Reading memory as the host sees it, and as a guest behind an EPT does. *)
Definition read_plain (m : Mem) (a : Z) : option Z := Some (m a).
Definition read_ept (m : Mem) (ept_pml4 a : Z) : option Z := m <$> translate m ept_pml4 a.

(** The host address a guest virtual address reaches. *)
Definition nested_walk (m : Mem) (ept_pml4 cr3 gva : Z) : option Z :=
  guest_walk (read_ept m ept_pml4) cr3 gva ≫= translate m ept_pml4.

Definition GVA_LIMIT : Z := 140737488355328.

(** ** Entries *)

Lemma pte_addr_page h c : 0 ≤ h < 2 ^ 40 → 0 ≤ c < 4096 → pte_addr (4096 * h + c) = 4096 * h.
Proof.
  intros Hh Hc. unfold pte_addr. replace PTE_ADDR with (4096 * Z.ones 40) by reflexivity.
  rewrite <- lor_page by done. rewrite Z.land_lor_distr_l.
  rewrite (Z.land_comm c), land_high_low, Z.lor_0_l by lia.
  rewrite !(Z.mul_comm 4096). change 4096 with (2 ^ 12). rewrite <- !Z.shiftl_mul_pow2 by lia.
  rewrite <- Z.shiftl_land, Z.land_ones, Z.mod_small by lia. done.
Qed.

Lemma entry_spec p c : 0 ≤ p < 2 ^ 52 → p mod 4096 = 0 → 0 ≤ c < 4096 →
  let e := Z.lor c p in
  pte_addr e = p ∧ pte_present e = Z.testbit c 0 ∧ pte_large e = Z.testbit c 7.
Proof.
  intros Hp Hm Hc e. assert (p = 4096 * (p / 4096)) as Ep by dlia.
  assert (e = 4096 * (p / 4096) + c) as ->. { subst e. rewrite Ep at 1. by apply lor_page. }
  unfold pte_present, pte_large.
  split_and!; [rewrite pte_addr_page by dlia; lia|..];
    rewrite !Z.testbit_eqb by lia; f_equal; change (2 ^ 0) with 1; change (2 ^ 7) with 128; dlia.
Qed.

Lemma link_entry p : 0 ≤ p < 2 ^ 52 → p mod 4096 = 0 →
  pte_addr (Z.lor p 3) = p ∧ pte_present (Z.lor p 3) = true ∧ pte_large (Z.lor p 3) = false.
Proof. intros Hp Hm. rewrite Z.lor_comm. by apply (entry_spec p 3). Qed.

Lemma leaf_entry p : 0 ≤ p < 2 ^ 52 → p mod 4096 = 0 →
  pte_addr (Z.lor 131 p) = p ∧ pte_present (Z.lor 131 p) = true ∧ pte_large (Z.lor 131 p) = true.
Proof. intros Hp Hm. by apply (entry_spec p 131). Qed.

Lemma cr3_addr p : 0 ≤ p < 2 ^ 52 → p mod 4096 = 0 → pte_addr p = p.
Proof. intros Hp Hm. by apply (entry_spec p 0). Qed.

(** ** Identity page tables of one gibibyte *)

Record gpt (m : Mem) (pml4 pdpt pd : Z) (present : Z → bool) : Prop := {
  gp_layout : layout pml4 pdpt (λ _, pd) 1;
  gp_small : pml4 < 2 ^ 52 ∧ pdpt < 2 ^ 52 ∧ pd < 2 ^ 52;
  gp_root : m pml4 = Z.lor pdpt 3;
  gp_root0 : ∀ k, 1 ≤ k < 512 → m (pml4 + 8 * k) = 0;
  gp_pdpt : m pdpt = Z.lor pd 3;
  gp_pdpt0 : ∀ k, 1 ≤ k < 512 → m (pdpt + 8 * k) = 0;
  gp_pd : ∀ j, 0 ≤ j < 512 → m (pd + 8 * j) = if present j then Z.lor 131 (j * TWO_MIB) else 0;
}.

Lemma guest_walk_gpt rd m pml4 pdpt pd present gva : gpt m pml4 pdpt pd present →
  (∀ a, in_page pml4 a ∨ in_page pdpt a ∨ in_page pd a → rd a = Some (m a)) →
  0 ≤ gva < GVA_LIMIT →
  guest_walk rd pml4 gva = if (gva <? 1073741824) && present (gva / TWO_MIB) then Some gva else None.
Proof.
  intros [Hl (S1 & S2 & S3) R R0 P P0 D] Hrd Hg. unfold GVA_LIMIT in Hg.
  pose proof Hl as [_ [U4 M4] [U3 M3] PD _ _ _]. destruct (PD 0 ltac:(lia)) as [U2 M2].
  unfold u64 in *. unfold guest_walk. rewrite cr3_addr by lia. rewrite idx39, idx30, idx21.
  rewrite Hrd by (left; apply in_page_qword; dlia). simpl.
  destruct (decide (gva < 549755813888)) as [Hlo|Hhi].
  2:{ rewrite R0 by dlia. simpl. by rewrite (proj2 (Z.ltb_ge _ _)) by lia. }
  replace ((gva / 549755813888) mod 512) with 0 by dlia. rewrite Z.mul_0_r, Z.add_0_r, R.
  destruct (link_entry pdpt) as (-> & -> & _); [lia|done|]. simpl.
  replace ((gva / 1073741824) mod 512) with (gva / 1073741824) by dlia.
  rewrite Hrd by (right; left; apply in_page_qword; dlia). simpl.
  destruct (Z.ltb_spec gva 1073741824) as [Hlt|Hge]; simpl andb.
  2:{ rewrite P0 by dlia. done. }
  replace (gva / 1073741824) with 0 by dlia. rewrite Z.mul_0_r, Z.add_0_r, P.
  destruct (link_entry pd) as (-> & -> & ->); [lia|done|]. simpl.
  replace ((gva / 2097152) mod 512) with (gva / TWO_MIB) by (unfold TWO_MIB; dlia).
  assert (0 ≤ gva / TWO_MIB < 512) as Hj by (unfold TWO_MIB; dlia).
  rewrite Hrd by (right; right; by apply in_page_qword). simpl. rewrite D by done.
  destruct (present (gva / TWO_MIB)); [|done].
  destruct (leaf_entry (gva / TWO_MIB * TWO_MIB)) as (-> & -> & ->); [unfold TWO_MIB; dlia..|].
  simpl. f_equal. unfold TWO_MIB. dlia.
Qed.

(** ** What the writers leave *)

Lemma zero_page_in m f k : 0 ≤ k < 512 → zero_page m f (f + 8 * k) = 0.
Proof. intros Hk. by apply (fill_in m f 512 (λ _, 0)). Qed.

Lemma zero_page_out m f a : ¬ in_page f a → zero_page m f a = m a.
Proof.
  intros Ha. unfold zero_page. rewrite fill_out; [done|]. intros i Hi ->. by apply Ha, in_page_qword.
Qed.

Definition in_pages (fs : list Z) (a : Z) : Prop := Exists (λ f, in_page f a) fs.

Lemma zero_pages_in fs : ∀ m f k, Forall page_ok fs → f ∈ fs → 0 ≤ k < 512 →
  foldl zero_page m fs (f + 8 * k) = 0.
Proof.
  induction fs as [|g fs IH] using rev_ind; intros m f k Hok Hf Hk; [by apply elem_of_nil in Hf|].
  apply Forall_app in Hok as [Hfs [Hg _]%Forall_cons]. rewrite foldl_app. cbn [foldl].
  destruct (decide (f = g)) as [->|Hne]; [by apply zero_page_in|].
  assert (f ∈ fs) as Hf' by set_solver. rewrite zero_page_out; [by apply IH|].
  rewrite Forall_forall in Hfs. intros Hin. eapply page_sep; [exact (Hfs _ Hf')|exact Hg|done|exact Hk|exact Hin|done].
Qed.

Lemma zero_pages_out fs : ∀ m a, ¬ in_pages fs a → foldl zero_page m fs a = m a.
Proof.
  induction fs as [|g fs IH]; intros m a Ha; [done|]. simpl. rewrite IH, zero_page_out; [done|..];
    intros H; apply Ha; [by left|by right].
Qed.

(** The root and second-level links, and a directory write. *)
Lemma gpt_of_writes m pml4 pdpt pd (dir : Mem → Mem) (present : Z → bool) :
  layout pml4 pdpt (λ _, pd) 1 → pml4 < 2 ^ 52 ∧ pdpt < 2 ^ 52 ∧ pd < 2 ^ 52 →
  (∀ m a, ¬ in_page pd a → dir m a = m a) →
  (∀ (m : Mem) j, 0 ≤ j < 512 → (∀ k, 0 ≤ k < 512 → m (pd + 8 * k) = 0) →
     dir m (pd + 8 * j) = if present j then Z.lor 131 (j * TWO_MIB) else 0) →
  let m0 := foldl zero_page m [pml4; pdpt; pd] in
  let m' := dir (wr (wr m0 pml4 (Z.lor pdpt 3)) pdpt (Z.lor pd 3)) in
  gpt m' pml4 pdpt pd present ∧ ∀ a, ¬ in_pages [pml4; pdpt; pd] a → m' a = m a.
Proof.
  intros Hl Hs Hout Hin m0 m'. pose proof Hl as [_ P4 P3 PD D1 D2 _].
  specialize (PD 0 ltac:(lia)). destruct (D2 0 ltac:(lia)) as [D2a D2b]. cbv beta in *.
  assert (Forall page_ok [pml4; pdpt; pd]) as Hok by (repeat (apply Forall_cons_2; [assumption|]); apply Forall_nil_2).
  assert (∀ f k, f ∈ [pml4; pdpt; pd] → 0 ≤ k < 512 → m0 (f + 8 * k) = 0) as Z0.
  { intros f k Hf Hk. by apply zero_pages_in. }
  assert (∀ f k, page_ok f → f ≠ pd → 0 ≤ k < 512 → ¬ in_page pd (f + 8 * k)) as Hsep.
  { intros f k Hf Hne Hk Hin'. eapply (page_sep f pd k); [exact Hf|exact PD|done|done|exact Hin'|done]. }
  assert (∀ f, page_ok f → f ≠ pd → ¬ in_page pd f) as Hsep0.
  { intros f Hf Hne. specialize (Hsep f 0 Hf Hne ltac:(lia)). by rewrite Z.mul_0_r, Z.add_0_r in Hsep. }
  split; [constructor; try done|]; subst m'.
  - rewrite Hout by (apply Hsep0; done). rewrite wr_ne by done. apply wr_eq.
  - intros k Hk. rewrite Hout by (apply Hsep; (done || lia)).
    rewrite wr_ne by (apply not_eq_sym, page_base_ne; (done || lia || congruence)).
    rewrite wr_ne by lia. apply Z0; [rewrite !elem_of_cons; tauto|lia].
  - rewrite Hout by (apply Hsep0; done). apply wr_eq.
  - intros k Hk. rewrite Hout by (apply Hsep; (done || lia)). rewrite wr_ne by lia.
    rewrite wr_ne by (apply not_eq_sym, page_base_ne; (done || lia)). apply Z0; [rewrite !elem_of_cons; tauto|lia].
  - intros j Hj. apply Hin; [done|]. intros k Hk.
    rewrite !wr_ne by (apply not_eq_sym, page_base_ne; (done || lia || congruence)).
    apply Z0; [rewrite !elem_of_cons; tauto|lia].
  - intros a Ha. assert (¬ in_page pd a ∧ ¬ in_page pdpt a ∧ ¬ in_page pml4 a) as (A1 & A2 & A3).
    { unfold in_pages in Ha. rewrite !Exists_cons in Ha. tauto. }
    rewrite Hout by done. rewrite !wr_ne by (intros ->; unfold in_page in *; lia).
    by apply zero_pages_out.
Qed.

Lemma slab_layout g : 0 ≤ g → g mod TWO_MIB = 0 → g + TWO_MIB ≤ PRECISE_BYTES →
  layout (g + 0x3000) (g + 0x4000) (λ _, g + 0x5000) 1.
Proof.
  unfold TWO_MIB, PRECISE_BYTES. intros Hg Hm Hp.
  constructor; intros; unfold page_ok; try split; try lia; try mlia; dlia.
Qed.

Lemma write_2m_tables_spec m g : 0 ≤ g → g mod TWO_MIB = 0 → g + TWO_MIB ≤ PRECISE_BYTES →
  ∃ m', write_guest_identity_2m_tables m g = (m', g + 0x3000) ∧
    gpt m' (g + 0x3000) (g + 0x4000) (g + 0x5000) (λ j, j =? g / TWO_MIB) ∧
    ∀ a, ¬ in_pages [g + 0x3000; g + 0x4000; g + 0x5000] a → m' a = m a.
Proof.
  intros Hg Hm Hp. pose proof (slab_layout g Hg Hm Hp) as Hl.
  assert (TWO_MIB = 2097152) as E2 by reflexivity. assert (PRECISE_BYTES = 536870912) as EP by reflexivity.
  assert (0 ≤ g / TWO_MIB < 512) as Hj by (rewrite E2, EP in *; dlia).
  unfold write_guest_identity_2m_tables, G1_SLAB_OFF_PML4, G1_SLAB_OFF_PDPT, G1_SLAB_OFF_PD.
  rewrite !add64_small by mlia. eexists. split; [reflexivity|].
  rewrite idx39, idx30, idx21. replace (g / 549755813888) with 0 by (rewrite E2, EP in *; dlia).
  replace (g / 1073741824) with 0 by (rewrite E2, EP in *; dlia). change (8 * (0 mod 512)) with 0.
  rewrite !Z.add_0_r. replace ((g / 2097152) mod 512) with (g / TWO_MIB) by (rewrite E2, EP in *; dlia).
  assert (Z.land g (bnot64 2097151) = g / TWO_MIB * TWO_MIB) as ->.
  { apply (clear_low g 21); [mlia|lia]. }
  apply (gpt_of_writes m (g + 12288) (g + 16384) (g + 20480) (λ m, wr m (g + 20480 + 8 * (g / TWO_MIB)) (Z.lor 131 (g / TWO_MIB * TWO_MIB)))
    (λ j, j =? g / TWO_MIB)); [exact Hl|lia|..].
  - intros m1 a Ha. apply wr_ne. intros ->. by apply Ha, in_page_qword.
  - intros m1 j Hj' Hz. destruct (Z.eqb_spec j (g / TWO_MIB)) as [->|Hne]; [apply wr_eq|].
    rewrite wr_ne by lia. by apply Hz.
Qed.

Lemma write_precise_tables_spec m pml4 pdpt pd :
  layout pml4 pdpt (λ _, pd) 1 → pml4 < 2 ^ 52 ∧ pdpt < 2 ^ 52 ∧ pd < 2 ^ 52 →
  ∃ m', write_guest_identity_precise_tables m pml4 pdpt pd = (m', pml4) ∧
    gpt m' pml4 pdpt pd (λ j, j <? 256) ∧ ∀ a, ¬ in_pages [pml4; pdpt; pd] a → m' a = m a.
Proof.
  intros Hl Hs. unfold write_guest_identity_precise_tables. eexists. split; [reflexivity|].
  change (PRECISE_BYTES / TWO_MIB) with 256.
  apply (gpt_of_writes m pml4 pdpt pd (λ m, fill m pd 256 (λ i, Z.lor 131 (i ⊠ TWO_MIB)))); [done..| |].
  - intros m1 a Ha. apply fill_out. intros i Hi ->. apply Ha, in_page_qword. lia.
  - intros m1 j Hj Hz. destruct (Z.ltb_spec j 256).
    + rewrite fill_in by lia. rewrite mul64_small by (unfold TWO_MIB; mlia). done.
    + rewrite fill_out by lia. by apply Hz.
Qed.

(** ** Theorems *)

(** The page tables written for the bring-up guest map exactly [0, 512 MiB)
    at identity, for every three distinct aligned frames, whatever they held, and
    nothing outside those frames is written. *)
Theorem guest_precise_tables_exact m pml4 pdpt pd :
  page_ok pml4 → page_ok pdpt → page_ok pd → NoDup [pml4; pdpt; pd] →
  pml4 < 2 ^ 52 ∧ pdpt < 2 ^ 52 ∧ pd < 2 ^ 52 →
  ∃ m' cr3, write_guest_identity_precise_tables m pml4 pdpt pd = (m', cr3) ∧
    (∀ gva, 0 ≤ gva < GVA_LIMIT → guest_walk (read_plain m') cr3 gva =
       if gva <? PRECISE_BYTES then Some gva else None) ∧
    ∀ a, ¬ in_pages [pml4; pdpt; pd] a → m' a = m a.
Proof.
  intros P4 P3 P2 Hnd Hs. assert (layout pml4 pdpt (λ _, pd) 1) as Hl.
  { apply NoDup_cons in Hnd as [N1 [N2 _]%NoDup_cons].
    constructor; [lia|done..| | |]; [set_solver|set_solver|lia]. }
  destruct (write_precise_tables_spec m pml4 pdpt pd Hl Hs) as (m' & E & Hg & Ho).
  exists m', pml4. split_and!; [done| |done]. intros gva Hgva.
  rewrite (guest_walk_gpt (read_plain m') _ _ _ _ _ _ Hg ltac:(done) Hgva).
  assert ((gva <? 1073741824) && (gva / TWO_MIB <? 256) = (gva <? PRECISE_BYTES)) as ->; [|done].
  apply eq_true_iff_eq. rewrite andb_true_iff, !Z.ltb_lt. unfold TWO_MIB, PRECISE_BYTES. dlia.
Qed.

Lemma guest_precise_tables_exact_witness :
  ∃ m' cr3, write_guest_identity_precise_tables (λ _, 0xdead) 0x1000 0x2000 0x3000 = (m', cr3) ∧
    guest_walk (read_plain m') cr3 0x12345678 = Some 0x12345678 ∧
    guest_walk (read_plain m') cr3 0x20000000 = None.
Proof.
  destruct (guest_precise_tables_exact (λ _, 0xdead) 0x1000 0x2000 0x3000)
    as (m' & cr3 & E & Hw & _);
    [split; [mlia|reflexivity]..|repeat constructor; set_solver|lia|].
  exists m', cr3. split; [exact E|].
  split; (rewrite Hw by (unfold GVA_LIMIT; lia); reflexivity).
Defined.

End Paging.
