(* ===== verification/BootIsolation.v ===== *)
(** * Guest isolation at boot

    The part of [src/main.rs] that decides which memory each guest reaches: the
    bring-up guest's EPT, the 2 MiB slabs carved out of it for device windows and
    shell guests, the range claim, and the private EPT and page tables of each
    shell guest. The frames come from a pool through an interface that the boot
    bump pool and the bitmap allocator both implement. *)

From S2P Require Import Prelude Bytes AuditRing AuditPersist FrameAllocator EptMap EptRange.
From S2P Require Import EptHw BootMem GuestPaging.
Import Audit Persist Registry Ranges Hw Paging Falloc.

Module Isolation.

(** ** Frame pools

    What a client of a frame source relies on: each allocation ends (an outer
    [None] would be a panic), hands out a page-aligned frame of the pool that is
    not live, and fails only when nothing is left. *)

Class FramePool (S : Type) := {
  pool_alloc : S → option (S * option Z);
  pool_ok : S → Prop;
  pool_live : S → Z → Prop;
  pool_span : S → Z → Prop;
  pool_left : S → Z;
}.

Class FramePoolLaws (S : Type) `{FramePool S} : Prop := {
  pool_left_nonneg s : pool_ok s → 0 ≤ pool_left s;
  pool_alloc_spec s : pool_ok s → ∃ s' r, pool_alloc s = Some (s', r) ∧ pool_ok s' ∧
    (∀ p, pool_span s' p ↔ pool_span s p) ∧
    match r with
    | Some p => page_ok p ∧ pool_span s p ∧ ¬ pool_live s p ∧
        (∀ q, pool_live s' q ↔ q = p ∨ pool_live s q) ∧ pool_left s' = pool_left s - 1
    | None => pool_left s = 0 ∧ (∀ q, pool_live s' q ↔ pool_live s q)
    end;
}.

(** [for slot in frames.iter_mut().take(n) { *slot = alloc()? }] *)
Fixpoint alloc_frames {S} `{FramePool S} (n : nat) (s : S) : option (S * option (list Z)) :=
  match n with
  | O => Some (s, Some [])
  | Datatypes.S n =>
      match pool_alloc s with
      | None => None
      | Some (s, None) => Some (s, None)
      | Some (s, Some f) =>
          match alloc_frames n s with
          | Some (s, Some fs) => Some (s, Some (f :: fs))
          | r => r
          end
      end
  end.

(** The allocator and the audit ring its clients report to. *)
Record Host := mkHost { falloc : FrameAllocator; hboot : Boot }.

Definition alloc_phys (h : Host) : option (Host * option Z) :=
  match allocate_frame (falloc h) with
  | (a, None) => Some (mkHost a (hboot h), None)
  | (a, Some f) =>
      match record_event (hboot h) (FrameAllocated f) with
      | None => None
      | Some b => Some (mkHost a b, Some (to_phys f))
      end
  end.

(** ** The bring-up guest's EPT *)

(** The PML4 and the EPTP, [None] where the boot path gives up. *)
Definition build_g0_ept {S} `{FramePool S} (cap : Z) (m : Mem) (s : S)
    : option (Mem * S * option (Z * Z)) :=
  match ensure_2m_capable cap with
  | Err _ => Some (m, s, None)
  | Ok _ =>
      let ept_need := frames_required_precise in
      if 8 <? ept_need then Some (m, s, None)
      else
        match alloc_frames (Z.to_nat ept_need) s with
        | None => None
        | Some (s, None) => Some (m, s, None)
        | Some (s, Some ept_frames) =>
            match build_precise_identity cap m ept_frames with
            | (m, Err _) => Some (m, s, None)
            | (m, Ok eptp) =>
                let pml4 := frame_at ept_frames 0 in
                let last_in := PRECISE_BYTES ⊟ 0x1000 in
                if negb (gpa_is_mapped m pml4 0) || negb (gpa_is_mapped m pml4 last_in)
                   || gpa_is_mapped m pml4 PRECISE_BYTES
                   || gpa_is_mapped m pml4 DEFAULT_APIC_PHYS
                then Some (m, s, None)
                else Some (m, s, Some (pml4, eptp))
            end
        end
  end.

(** ** Carving slabs *)

(** The [while] loop, one 2 MiB step a round; [None] is running out of fuel. *)
Fixpoint pick_loop (fuel : nat) (a : FrameAllocator) (used : list Z) (hpa : Z)
    : option (option Z) :=
  match fuel with
  | O => None
  | Datatypes.S fuel =>
      if sat_add64 hpa TWO_MIB <=? PRECISE_BYTES then
        if negb (owns_phys_range a hpa TWO_MIB) && negb (existsb (Z.eqb hpa) used)
        then Some (Some hpa)
        else pick_loop fuel a used (sat_add64 hpa TWO_MIB)
      else Some None
  end.

(** The window has 128 slabs. *)
Definition pick_shell_slab_hpa (a : FrameAllocator) (used : list Z) : option (option Z) :=
  pick_loop 129 a used
    (Z.land (GUEST_RAM_BYTES ⊞ TWO_MIB ⊟ 1) (bnot64 (TWO_MIB - 1))).

(** Pick a slab, mark it used and unmap it from the bring-up guest: the block the
    boot path runs for the two device windows and for each shell guest. *)
Definition reserve_slab (m : Mem) (a : FrameAllocator) (pml4 : Z) (used : list Z)
    : option (Mem * option Z) :=
  match pick_shell_slab_hpa a used with
  | None => None
  | Some None => Some (m, None)
  | Some (Some hpa) =>
      match clear_2m_identity_leaf m pml4 hpa with
      | (m, Err _) => Some (m, None)
      | (m, Ok _) => Some (m, Some hpa)
      end
  end.

(** [n] slabs in a row; the result is the whole [used] list. *)
Fixpoint reserve_slabs (n : nat) (m : Mem) (a : FrameAllocator) (pml4 : Z) (used : list Z)
    : option (Mem * option (list Z)) :=
  match n with
  | O => Some (m, Some used)
  | Datatypes.S n =>
      match reserve_slab m a pml4 used with
      | None => None
      | Some (m, None) => Some (m, None)
      | Some (m, Some hpa) => reserve_slabs n m a pml4 (used ++ [hpa])
      end
  end.

(** ** A shell guest's slab *)

Definition G1_SLAB_OFF_CODE : Z := 0.
Definition G1_SLAB_OFF_STACK : Z := 0x1000.
Definition G1_SLAB_OFF_IDT : Z := 0x2000.
Definition G1_SLAB_OFF_EPT_PML4 : Z := 0x6000.
Definition G1_SLAB_OFF_EPT_PDPT : Z := 0x7000.
Definition G1_SLAB_OFF_EPT_PD : Z := 0x8000.
Definition G1_SLAB_OFF_VMCS : Z := 0x9000.
Definition G1_SLAB_OFF_HOST_STACK : Z := 0xA000.
Definition G1_SLAB_OFF_TSS : Z := 0xB000.
Definition G1_SLAB_OFF_GDT : Z := 0xC000.
Definition G1_SLAB_OFF_MSR_BITMAP : Z := 0xD000.
Definition G1_SLAB_OFF_IO_A : Z := 0xE000.
Definition G1_SLAB_OFF_IO_B : Z := 0xF000.

Definition M4_GUEST2_ID : Z := 3.
Definition M4_GUEST3_ID : Z := 4.
Definition shell_ids : list Z := [M4_GUEST1_ID; M4_GUEST2_ID; M4_GUEST3_ID].

Record LaunchFrames := mkLaunch {
  vmcs_phys : Z; guest_stack_phys : Z; host_stack_phys : Z; tss_phys : Z; gdt_phys : Z;
  eptp : Z; guest_code_phys : Z; guest_idt_phys : Z; guest_cr3_phys : option Z;
  msr_bitmap_phys : option Z; io_bitmap_a_phys : option Z; io_bitmap_b_phys : option Z;
}.

(** [write_bytes(base, 0, TWO_MIB)] *)
Definition zero_slab (m : Mem) (base : Z) : Mem := fill m base (TWO_MIB / 8) (λ _, 0).

Definition SHELL_CPUID_LEAF : Z := 0x524E550A.
Definition SHELL_CPUID_SUBLEAF : Z := 0x5348454C.

Definition byte_of (v i : Z) : Z := Z.land (Z.shiftr v (8 * i)) 0xff.

(** The 15 bytes of the stub: mov eax, leaf; mov ecx, subleaf; cpuid; hlt; jmp. *)
Definition shell_stub : list Z :=
  [0xB8; byte_of SHELL_CPUID_LEAF 0; byte_of SHELL_CPUID_LEAF 1; byte_of SHELL_CPUID_LEAF 2;
   byte_of SHELL_CPUID_LEAF 3; 0xB9; byte_of SHELL_CPUID_SUBLEAF 0; byte_of SHELL_CPUID_SUBLEAF 1;
   byte_of SHELL_CPUID_SUBLEAF 2; byte_of SHELL_CPUID_SUBLEAF 3; 0x0F; 0xA2; 0xF4; 0xEB; 0xFE].

(** The page is zeroed first, so the byte stores fill two qwords of it. *)
Definition write_guest_shell_cpuid_page (m : Mem) (page_phys : Z) : Mem :=
  let m := zero_page m page_phys in
  let m := wr m page_phys (from_le (take 8 shell_stub)) in
  wr m (page_phys + 8) (from_le (drop 8 shell_stub)).

(** ** The host's own page tables *)

Definition NX : Z := Z.shiftl 1 63.
Definition PRESENT : Z := 1.
Definition LARGE : Z := Z.shiftl 1 7.
Definition PT_ADDR : Z := 0x000ffffffffff000.

(** The walk over the tables the host runs on, and the store that clears the
    execute-disable bit of the entry it ends at. Those tables are the firmware's and
    are kept apart from the memory of frames and slabs. *)
Definition clear_nx_identity (cr3 : Z) (hpt : Mem) (phys : Z) : Mem * bool :=
  let clear e := wr hpt e (Z.land (hpt e) (bnot64 NX)) in
  let p4 := Z.land cr3 (bnot64 0xfff) + 8 * idx 39 phys in
  if Z.land (hpt p4) PRESENT =? 0 then (hpt, false)
  else
    let p3 := Z.land (hpt p4) PT_ADDR + 8 * idx 30 phys in
    if Z.land (hpt p3) PRESENT =? 0 then (hpt, false)
    else if negb (Z.land (hpt p3) LARGE =? 0) then (clear p3, true)
    else
      let p2 := Z.land (hpt p3) PT_ADDR + 8 * idx 21 phys in
      if Z.land (hpt p2) PRESENT =? 0 then (hpt, false)
      else if negb (Z.land (hpt p2) LARGE =? 0) then (clear p2, true)
      else
        let p1 := Z.land (hpt p2) PT_ADDR + 8 * idx 12 phys in
        if Z.land (hpt p1) PRESENT =? 0 then (hpt, false) else (clear p1, true).

(** One round of the loop that prepares the shell guests; the registration of the
    frames with the launcher is the result. The outer [None] is a panic, the inner
    one an abandoned boot path. *)
Definition prepare_shell (cap cr3 : Z) (m hpt : Mem) (b : Boot) (g_base guest_id : Z)
    : option (Mem * Mem * Boot * option LaunchFrames) :=
  let m := zero_slab m g_base in
  let ept_frames := [g_base ⊞ G1_SLAB_OFF_EPT_PML4; g_base ⊞ G1_SLAB_OFF_EPT_PDPT;
                     g_base ⊞ G1_SLAB_OFF_EPT_PD] in
  match build_single_2m_identity cap m g_base ept_frames with
  | (m, Err _) => Some (m, hpt, b, None)
  | (m, Ok guest_eptp) =>
      let g_code := g_base ⊞ G1_SLAB_OFF_CODE in
      let '(m, shell_cr3) := write_guest_identity_2m_tables m g_base in
      let m := write_guest_shell_cpuid_page m g_code in
      match clear_nx_identity cr3 hpt g_code with
      | (hpt, false) => Some (m, hpt, b, None)
      | (hpt, true) =>
          match record_event b (EptMapped guest_id g_base g_base) with
          | None => None
          | Some b =>
              Some (m, hpt, b, Some
                {| vmcs_phys := g_base ⊞ G1_SLAB_OFF_VMCS;
                   guest_stack_phys := g_base ⊞ G1_SLAB_OFF_STACK;
                   host_stack_phys := g_base ⊞ G1_SLAB_OFF_HOST_STACK;
                   tss_phys := g_base ⊞ G1_SLAB_OFF_TSS;
                   gdt_phys := g_base ⊞ G1_SLAB_OFF_GDT;
                   eptp := guest_eptp;
                   guest_code_phys := g_code;
                   guest_idt_phys := g_base ⊞ G1_SLAB_OFF_IDT;
                   guest_cr3_phys := Some shell_cr3;
                   msr_bitmap_phys := Some (g_base ⊞ G1_SLAB_OFF_MSR_BITMAP);
                   io_bitmap_a_phys := Some (g_base ⊞ G1_SLAB_OFF_IO_A);
                   io_bitmap_b_phys := Some (g_base ⊞ G1_SLAB_OFF_IO_B) |})
          end
      end
  end.

Fixpoint prepare_shells (cap cr3 : Z) (m hpt : Mem) (b : Boot) (slabs : list (Z * Z))
    : option (Mem * Mem * Boot * option (list LaunchFrames)) :=
  match slabs with
  | [] => Some (m, hpt, b, Some [])
  | (g_base, guest_id) :: slabs =>
      match prepare_shell cap cr3 m hpt b g_base guest_id with
      | None => None
      | Some (m, hpt, b, None) => Some (m, hpt, b, None)
      | Some (m, hpt, b, Some l) =>
          match prepare_shells cap cr3 m hpt b slabs with
          | Some (m, hpt, b, Some ls) => Some (m, hpt, b, Some (l :: ls))
          | r => r
          end
      end
  end.

(** ** The device windows *)

Definition PROBE_DISK_BYTES : Z := 4096.

(** The armed install contract, if any: whether its image is bound, and the size of
    the disk it asks for. *)
Definition disk_bytes_for_virtio_launch (contract : option (bool * Z)) : Z :=
  match contract with
  | Some (extract_bound, install_disk_bytes) =>
      if extract_bound && (PROBE_DISK_BYTES <=? install_disk_bytes) && (install_disk_bytes mod 512 =? 0)
      then install_disk_bytes else PROBE_DISK_BYTES
  | None => PROBE_DISK_BYTES
  end.

Definition disk_pages (disk_bytes : Z) : Z := (disk_bytes ⊞ 4095) / 4096.

Definition alloc_disk (h : Host) (disk_bytes : Z) : option (Host * option Z) :=
  if disk_pages disk_bytes <=? 1 then alloc_phys h
  else
    match allocate_contiguous (falloc h) (disk_pages disk_bytes) with
    | (a, None) => Some (mkHost a (hboot h), None)
    | (a, Some f) =>
        match record_event (hboot h) (FrameAllocated f) with
        | None => None
        | Some b => Some (mkHost a b, Some (to_phys f))
        end
    end.

(** The disk is zeroed and the preloaded image, as much of it as fits, copied in. *)
Definition disk_qword (disk_bytes : Z) (image : option (list Z)) (i : Z) : Z :=
  let img := take (Z.to_nat disk_bytes) (default [] image) in
  from_le ((λ j, default 0 (img !! Z.to_nat j)) <$> seqZ (8 * i) 8).

Definition init_with_image (m : Mem) (disk_phys disk_bytes : Z) (image : option (list Z)) : Mem :=
  fill m disk_phys (disk_bytes / 8) (disk_qword disk_bytes image).

(** A hole for the disk's registers and the frames behind its sectors. *)
Definition blk_window (m : Mem) (h : Host) (pml4 disk_bytes : Z) (preload : option (list Z))
    : option (option (Mem * Host * Z)) :=
  match reserve_slab m (falloc h) pml4 [] with
  | None => None
  | Some (_, None) => Some None
  | Some (m, Some bar_hpa) =>
      match alloc_disk h disk_bytes with
      | None => None
      | Some (_, None) => Some None
      | Some (h, Some disk_phys) =>
          Some (Some (init_with_image m disk_phys disk_bytes preload, h, bar_hpa))
      end
  end.

(** A hole for the registers of the two network ports, and their packet buffers. *)
Definition net_window (m : Mem) (h : Host) (pml4 : Z) (used : list Z)
    : option (option (Mem * Host * Z)) :=
  match reserve_slab m (falloc h) pml4 used with
  | None => None
  | Some (_, None) => Some None
  | Some (m, Some net_bar_hpa) =>
      match alloc_phys h with
      | None => None
      | Some (_, None) => Some None
      | Some (h, Some net_buf0) =>
          match alloc_phys h with
          | None => None
          | Some (_, None) => Some None
          | Some (h, Some net_buf1) =>
              Some (Some (zero_page (zero_page m net_buf0) net_buf1, h, net_bar_hpa))
          end
      end
  end.

(** ** The stage *)

(** What the memory stage of the boot path ends with. *)
Record Guests := mkGuests {
  gs_mem : Mem; gs_hpt : Mem; gs_host : Host; gs_precise : Precise;
  gs_bars : list Z; gs_slabs : list Z; gs_launch : list LaunchFrames;
}.

Definition BAR_COUNT : nat := 2.
Definition SHELL_COUNT : nat := 3.

(** The shell slabs, the range claim and the shell guests. *)
Definition shell_stage (cap cr3 : Z) (m hpt : Mem) (h : Host) (p : Precise) (pml4 : Z) (bars : list Z)
    : option (option Guests) :=
  match reserve_slabs SHELL_COUNT m (falloc h) pml4 bars with
  | None => None
  | Some (_, None) => Some None
  | Some (m, Some used) =>
      let slab_hpas := drop BAR_COUNT used in
      let holes := zip_with (λ h g, (h, TWO_MIB, g)) slab_hpas shell_ids in
      match claim_precise_with_shell_holes p holes with
      | (_, Err _) => Some None
      | (p, Ok _) =>
          match prepare_shells cap cr3 m hpt (hboot h) (zip slab_hpas shell_ids) with
          | None => None
          | Some (_, _, _, None) => Some None
          | Some (m, hpt, b, Some ls) =>
              Some (Some (mkGuests m hpt (mkHost (falloc h) b) p (take BAR_COUNT used) slab_hpas ls))
          end
      end
  end.

(** The two device windows with their frames, then the shell guests. [cr3] and [hpt]
    are the host's page tables, [disk_bytes] and [preload] what the install contract
    asks for. *)
Definition boot_guests (cap cr3 : Z) (m hpt : Mem) (h : Host) (p : Precise) (pml4 disk_bytes : Z)
    (preload : option (list Z)) : option (option Guests) :=
  match blk_window m h pml4 disk_bytes preload with
  | None => None
  | Some None => Some None
  | Some (Some (m, h, bar_hpa)) =>
      match net_window m h pml4 [bar_hpa] with
      | None => None
      | Some None => Some None
      | Some (Some (m, h, net_bar_hpa)) => shell_stage cap cr3 m hpt h p pml4 [bar_hpa; net_bar_hpa]
      end
  end.

(** ** The two frame pools *)

#[global] Instance bump_pool : FramePool BootMem.FrameBump := {
  pool_alloc b := Some (BootMem.alloc_frame b);
  pool_ok := BootMem.bump_ok;
  pool_live b p := BootMem.bump_base b ≤ p < BootMem.next b ∧ p mod 4096 = 0;
  pool_span b p := BootMem.bump_base b ≤ p ∧ p + 4096 ≤ BootMem.bump_end b;
  pool_left := BootMem.remaining_pages;
}.

#[global] Instance bump_pool_laws : FramePoolLaws BootMem.FrameBump.
Proof.
  split; simpl.
  - intros b []. unfold BootMem.remaining_pages, BootMem.PAGE_SIZE. dlia.
  - intros b Hb. destruct (BootMem.alloc_frame b) as [b' r] eqn:E. exists b', r.
    apply BootMem.alloc_frame_spec in E as (Hb' & Hbase & Hend & Hr); [|done].
    pose proof Hb as [Hb1 Hb2 Hb3 Hb4]. unfold BootMem.remaining_pages, BootMem.PAGE_SIZE in *.
    split_and!; [done..| |].
    + intros p. by rewrite Hbase, Hend.
    + destruct r as [f|].
      * destruct Hr as (-> & Ha & Hn & Hf). unfold page_ok.
        split_and!; try done; [mlia..| | |].
        -- intros [? _]. lia.
        -- intros q. rewrite Hbase, Hn. dlia.
        -- rewrite Hend, Hn. dlia.
      * destruct Hr as [-> Hr]. split; [dlia|done].
Qed.

#[global] Instance host_pool : FramePool Host := {
  pool_alloc := alloc_phys;
  pool_ok h := wf (falloc h) ∧ boot_wf (hboot h);
  pool_live h p := p mod 4096 = 0 ∧ p / 4096 ∈ allocated (falloc h);
  pool_span h p := p mod 4096 = 0 ∧ p / 4096 ∈ pool (falloc h);
  pool_left h := capacity (falloc h) - allocated_count (falloc h);
}.

Lemma to_phys_frame a f : wf a → f ∈ pool a →
  page_ok (to_phys f) ∧ to_phys f / 4096 = f ∧ to_phys f = f * 4096.
Proof.
  intros Hwf Hf%elem_of_pool. pose proof (wf_base _ Hwf). pose proof (wf_span _ Hwf).
  assert (to_phys f = f * 4096) as ->.
  { unfold to_phys, MAX_FRAMES in *. rewrite Z.shiftl_mul_pow2 by lia. change (2 ^ 12) with 4096.
    apply wrap64_small. mlia. }
  unfold page_ok, MAX_FRAMES in *. split_and!; dlia.
Qed.

#[global] Instance host_pool_laws : FramePoolLaws Host.
Proof.
  split; simpl.
  - intros h [Hwf _]. rewrite (wf_count _ Hwf). pose proof (size_allocated_le _ (wf_shape _ Hwf)). lia.
  - intros h [Hwf Hb]. unfold alloc_phys. destruct (allocate_frame (falloc h)) as [a' r] eqn:E.
    apply allocate_frame_spec in E as (Hwf' & Hg & Hr); [|done].
    pose proof (same_geometry_pool _ _ Hg) as Hpool. destruct Hg as (G1 & G2 & _).
    destruct r as [f|].
    + destruct Hr as (Hf & Hnf & Hal).
      destruct (record_event_spec (hboot h) (FrameAllocated f) Hb) as (b' & _ & -> & Hb' & _).
      destruct (to_phys_frame _ f Hwf Hf) as (P1 & P2 & P3).
      eexists _, _. split; [reflexivity|]. simpl.
      split_and!; try done; [intros p; by rewrite Hpool|apply P1|by rewrite P2| | |].
      * by rewrite P2; intros [_ ?].
      * intros q. rewrite Hal. split.
        -- intros [Hq [Hq'%elem_of_singleton|Hq']%elem_of_union]; [left|by right].
           rewrite P3. dlia.
        -- intros [->|[? ?]]; [rewrite P2; split; [apply P1|set_solver]|set_solver].
      * rewrite (wf_count _ Hwf), (wf_count _ Hwf'), Hal, G2.
        rewrite size_union, size_singleton by set_solver. lia.
    + destruct Hr as [-> Hfull]. eexists _, _. split; [reflexivity|]. simpl.
      split_and!; try done. rewrite (wf_count _ Hwf), Hfull, (size_pool _ (wf_shape _ Hwf)). lia.
Qed.

(** ** Allocating a batch *)

Section Batch.
Context {S : Type} `{FramePoolLaws S}.

Lemma alloc_frames_spec n : ∀ s : S, pool_ok s →
  ∃ s' r, alloc_frames n s = Some (s', r) ∧ pool_ok s' ∧ (∀ p, pool_span s' p ↔ pool_span s p) ∧
    match r with
    | Some fs => length fs = n ∧ NoDup fs ∧ Forall page_ok fs ∧ Forall (pool_span s) fs ∧
        Forall (λ p, ¬ pool_live s p) fs ∧ pool_left s' = pool_left s - Z.of_nat n ∧
        (∀ q, pool_live s' q ↔ q ∈ fs ∨ pool_live s q)
    | None => pool_left s < Z.of_nat n
    end.
Proof.
  induction n as [|n IH]; intros s Hs; simpl.
  - exists s, (Some []). split_and!; try done; [constructor|lia|]. set_solver.
  - destruct (pool_alloc_spec s Hs) as (s1 & r1 & -> & Hs1 & Hsp1 & Hr1).
    destruct r1 as [f|]; [|eexists _, None; split_and!; try done; lia].
    destruct Hr1 as (Hok & Hspan & Hnl & Hl1 & Hleft).
    destruct (IH s1 Hs1) as (s2 & r2 & -> & Hs2 & Hsp2 & Hr2). destruct r2 as [fs|].
    + destruct Hr2 as (Hlen & Hnd & Hpg & Hfs & Hfl & Hleft2 & Hl2).
      eexists _, (Some _). split; [reflexivity|].
      assert (f ∉ fs) as Hf.
      { intros Hin. rewrite Forall_forall in Hfl. apply (Hfl f Hin), Hl1. by left. }
      split_and!; [done|intros p; by rewrite Hsp2|simpl; lia|by constructor|by constructor|..].
      * constructor; [done|]. eapply Forall_impl; [exact Hfs|]. intros p. apply Hsp1.
      * constructor; [done|]. eapply Forall_impl; [exact Hfl|]. intros p Hp Hp'.
        apply Hp, Hl1. by right.
      * lia.
      * intros q. rewrite Hl2, Hl1. set_solver.
    + eexists _, None. split_and!; try done; [intros p; by rewrite Hsp2|lia].
Qed.

Lemma frames_ok_of_batch fs : (3 ≤ length fs)%nat → NoDup fs → Forall page_ok fs → frames_ok 3 fs.
Proof.
  intros Hl Hnd Hok. constructor; [unfold flen; lia| |by apply Forall_take].
  eapply sublist_NoDup; [exact Hnd|apply sublist_take].
Qed.

(** The precise identity tables of the bring-up guest: one directory with the
    leaves of [present]. *)
Definition g0_tables (cap : Z) (m : Mem) (fs : list Z) (present : Z → bool) : Prop :=
  id_tables cap m (frame_at fs 0) (frame_at fs 1) (λ i, frame_at fs (2 + i)) 1 present.

Lemma g0_translate cap m fs present gpa : g0_tables cap m fs present → 0 ≤ gpa < GPA_LIMIT →
  translate m (frame_at fs 0) gpa =
    if (gpa <? 1073741824) && present (gpa / TWO_MIB) then Some gpa else None.
Proof. intros Ht Hg. exact (translate_id_tables _ _ _ _ _ _ _ _ Ht Hg). Qed.

Lemma precise_window gpa : 0 ≤ gpa →
  (gpa <? 1073741824) && (gpa / TWO_MIB <? 256) = (gpa <? PRECISE_BYTES).
Proof.
  intros Hg. apply eq_true_iff_eq. rewrite andb_true_iff, !Z.ltb_lt.
  unfold TWO_MIB, PRECISE_BYTES. dlia.
Qed.

Lemma build_g0_ept_spec cap m (s : S) : pool_ok s → ensure_2m_capable cap = Ok () →
  3 ≤ pool_left s →
  ∃ m' s' fs, build_g0_ept cap m s =
      Some (m', s', Some (frame_at fs 0, pack_eptp (frame_at fs 0) (eptp_memory_type cap))) ∧
    alloc_frames 3 s = Some (s', Some fs) ∧ frames_ok 3 fs ∧
    g0_tables cap m' fs (λ k, k <? 256) ∧ only_frames m m' 3 fs.
Proof.
  intros Hs Hcap Hleft. destruct (alloc_frames_spec 3 s Hs) as (s' & r & Ea & Hs' & _ & Hr).
  destruct r as [fs|]; [|lia]. destruct Hr as (Hlen & Hnd & Hok & _).
  pose proof (frames_ok_of_batch fs ltac:(lia) Hnd Hok) as Hf.
  destruct (build_2m_tables cap m PRECISE_BYTES fs) as (m' & Eb & Ht & Ho);
    [unfold PRECISE_BYTES, DEFAULT_APIC_PHYS; lia|reflexivity|exact Hf|].
  assert (g0_tables cap m' fs (λ k, k <? 256)) as Hg0 by exact Ht.
  exists m', s', fs. split_and!; try done. unfold build_g0_ept. rewrite Hcap.
  change (Z.to_nat frames_required_precise) with 3%nat. change (8 <? frames_required_precise) with false.
  cbv iota beta zeta. rewrite Ea. unfold build_precise_identity. rewrite Eb.
  rewrite !gpa_is_mapped_translate.
  rewrite !(g0_translate _ _ _ _ _ Hg0) by (vm_compute; split; congruence).
  rewrite !precise_window by (vm_compute; congruence). reflexivity.
Qed.

End Batch.

(** ** Picking a slab *)

(** The slabs of the window that may be picked. *)
Definition slab_free (a : FrameAllocator) (used : list Z) (hpa : Z) : Prop :=
  GUEST_RAM_BYTES ≤ hpa ∧ hpa mod TWO_MIB = 0 ∧ hpa + TWO_MIB ≤ PRECISE_BYTES ∧
  owns_phys_range a hpa TWO_MIB = false ∧ hpa ∉ used.

Lemma pick_loop_spec fuel a used : ∀ hpa, 0 ≤ hpa → hpa mod TWO_MIB = 0 → GUEST_RAM_BYTES ≤ hpa →
  PRECISE_BYTES < hpa + Z.of_nat fuel * TWO_MIB → hpa ≤ PRECISE_BYTES →
  ∃ r, pick_loop fuel a used hpa = Some r ∧
    match r with
    | Some h => hpa ≤ h ∧ slab_free a used h
    | None => ∀ h, hpa ≤ h → ¬ slab_free a used h
    end.
Proof.
  assert (TWO_MIB = 2097152) as E2 by reflexivity. assert (PRECISE_BYTES = 536870912) as EP by reflexivity.
  assert (GUEST_RAM_BYTES = 268435456) as EG by reflexivity.
  induction fuel as [|fuel IH]; intros hpa H0 Hm Hg Hf Hp; [lia|]. cbn [pick_loop].
  assert (sat_add64 hpa TWO_MIB = hpa + TWO_MIB) as -> by (unfold sat_add64; rewrite Z.min_l; mlia).
  destruct (Z.leb_spec (hpa + TWO_MIB) PRECISE_BYTES) as [Hle|Hgt].
  - destruct (negb (owns_phys_range a hpa TWO_MIB) && negb (existsb (Z.eqb hpa) used)) eqn:E.
    + exists (Some hpa). split; [done|]. split; [lia|].
      apply andb_true_iff in E as [E1%negb_true_iff E2'%negb_true_iff].
      split_and!; try done. intros Hin. assert (existsb (Z.eqb hpa) used = true) as E3; [|congruence].
      apply existsb_exists. exists hpa. split; [by apply list_elem_of_In|apply Z.eqb_refl].
    + destruct (IH (hpa + TWO_MIB)) as (r & -> & Hr); [lia|rewrite E2 in *; dlia|lia|lia|lia|].
      exists r. split; [done|]. destruct r as [h|]; [split; [lia|apply Hr]|].
      intros h Hh (F1 & F2 & F3 & F4 & F5). destruct (decide (h = hpa)) as [->|Hne].
      * apply andb_false_iff in E as [E|E]; [by rewrite F4 in E|].
        apply negb_false_iff, existsb_exists in E as (x & Hx & <-%Z.eqb_eq).
        by apply F5, list_elem_of_In.
      * apply (Hr h); [|by split_and!]. rewrite E2 in *. dlia.
  - exists None. split; [done|]. intros h Hh (F1 & F2 & F3 & _). lia.
Qed.

Lemma pick_slab_spec a used : ∃ r, pick_shell_slab_hpa a used = Some r ∧
  match r with
  | Some h => slab_free a used h
  | None => ∀ h, ¬ slab_free a used h
  end.
Proof.
  unfold pick_shell_slab_hpa. change (Z.land _ _) with GUEST_RAM_BYTES.
  destruct (pick_loop_spec 129 a used GUEST_RAM_BYTES) as (r & E & Hr);
    [by vm_compute|reflexivity|lia|by vm_compute|by vm_compute|].
  exists r. split; [exact E|]. destruct r as [h|]; [apply Hr|].
  intros h Hh. apply (Hr h); [apply Hh|done].
Qed.

(** The slabs of the window outside the allocator's pool. *)
Definition free_slabs (a : FrameAllocator) : list Z :=
  filter (λ h, owns_phys_range a h TWO_MIB = false)
    ((λ i, GUEST_RAM_BYTES + i * TWO_MIB) <$> seqZ 0 128).

Lemma free_slabs_spec a h : h ∈ free_slabs a → ∀ used, h ∉ used → slab_free a used h.
Proof.
  intros (Ho & (i & -> & Hi%elem_of_seqZ)%list_elem_of_fmap)%list_elem_of_filter used Hu.
  unfold slab_free. split_and!; try done; unfold GUEST_RAM_BYTES, TWO_MIB, PRECISE_BYTES; dlia.
Qed.

Lemma slab_free_in a used h : slab_free a used h → h ∈ free_slabs a.
Proof.
  intros (F1 & F2 & F3 & F4 & _). apply list_elem_of_filter. split; [done|]. apply list_elem_of_fmap.
  exists ((h - GUEST_RAM_BYTES) / TWO_MIB). rewrite elem_of_seqZ.
  unfold GUEST_RAM_BYTES, TWO_MIB, PRECISE_BYTES in *. split; dlia.
Qed.

Lemma slab_exists a used : (length used < length (free_slabs a))%nat → ∃ h, slab_free a used h.
Proof.
  intros Hlt. destruct (decide (Exists (λ h, h ∉ used) (free_slabs a)))
    as [(h & Hh & Hu)%Exists_exists|Hall].
  - exists h. by apply free_slabs_spec.
  - exfalso. assert (free_slabs a ⊆+ used) as Hs%submseteq_length; [|lia].
    apply NoDup_submseteq.
    + apply NoDup_filter, NoDup_fmap_2; [|apply NoDup_seqZ]. intros x y. unfold TWO_MIB. lia.
    + intros h Hh. rewrite <- Forall_Exists_neg, Forall_forall in Hall.
      destruct (decide (h ∈ used)); [done|]. by destruct (Hall h Hh).
Qed.

(** ** Carving slabs out of the bring-up guest *)

Lemma g0_ext cap m fs p p' : (∀ k, p k = p' k) → g0_tables cap m fs p → g0_tables cap m fs p'.
Proof. intros Hp []. constructor; try done. intros i j Hi Hj. rewrite <- Hp. eauto. Qed.

Lemma only_frames_trans m1 m2 m3 n fs : only_frames m1 m2 n fs → only_frames m2 m3 n fs →
  only_frames m1 m3 n fs.
Proof. intros H1 H2 a Ha. rewrite H2, H1; done. Qed.

(** A leaf survives when no carved slab covers it. *)
Definition carved (present : Z → bool) (slabs : list Z) (k : Z) : bool :=
  present k && negb (existsb (λ h, k =? h / TWO_MIB) slabs).

Lemma slab_gpa a used h : slab_free a used h → 0 ≤ h < GPA_LIMIT ∧ h mod TWO_MIB = 0.
Proof.
  unfold slab_free, GUEST_RAM_BYTES, PRECISE_BYTES, GPA_LIMIT, TWO_MIB.
  intros (? & ? & ? & _). split; [lia|done].
Qed.

Lemma reserve_slab_spec cap m fs present a used : g0_tables cap m fs present →
  ∃ m' r, reserve_slab m a (frame_at fs 0) used = Some (m', r) ∧
    match r with
    | Some h => slab_free a used h ∧ g0_tables cap m' fs (carved present [h])
    | None => (length (free_slabs a) ≤ length used)%nat
    end.
Proof.
  intros Ht. destruct (pick_slab_spec a used) as (r & Ep & Hr). unfold reserve_slab. rewrite Ep.
  destruct r as [h|].
  - destruct (slab_gpa _ _ _ Hr) as [Hg Hm].
    destruct (clear_tables _ _ _ _ _ _ _ _ Ht Hg Hm) as (m' & -> & Ht' & _).
    exists m', (Some h). split_and!; [done..|].
    eapply g0_ext; [|exact Ht']. intros k. unfold carved. simpl. by rewrite orb_false_r.
  - exists m, None. split; [done|]. apply Nat.nlt_ge. intros Hlt.
    by destruct (slab_exists a used Hlt) as [h Hh%Hr].
Qed.

(** ** A shell guest's slab *)

Definition in_slab (g a : Z) : Prop := g ≤ a < g + TWO_MIB.
Definition in_slabb (g a : Z) : bool := (g <=? a) && (a <? g + TWO_MIB).

Record slab_ok (g : Z) : Prop := {
  so_ram : GUEST_RAM_BYTES ≤ g;
  so_aligned : g mod TWO_MIB = 0;
  so_window : g + TWO_MIB ≤ PRECISE_BYTES;
}.

Lemma slab_free_ok a used g : slab_free a used g → slab_ok g.
Proof. by intros (? & ? & ? & _). Qed.

Lemma slab_disjoint g g' a : slab_ok g → slab_ok g' → g ≠ g' → in_slab g a → ¬ in_slab g' a.
Proof. intros [_ Hg _] [_ Hg' _] Hne. unfold in_slab, TWO_MIB in *. dlia. Qed.

Lemma in_slab_index g a : g mod TWO_MIB = 0 → (a / TWO_MIB =? g / TWO_MIB) = in_slabb g a.
Proof.
  intros Hg. apply eq_true_iff_eq. unfold in_slabb. rewrite andb_true_iff, Z.eqb_eq, Z.leb_le, Z.ltb_lt.
  unfold TWO_MIB in *. dlia.
Qed.

Lemma in_slabb_spec g a : in_slabb g a = true ↔ in_slab g a.
Proof. unfold in_slabb, in_slab. rewrite andb_true_iff, Z.leb_le, Z.ltb_lt. done. Qed.

(** Tables read back the same from memory that agrees on their pages. *)
Lemma id_tables_frame cap m m' pml4 pdpt pd n present : id_tables cap m pml4 pdpt pd n present →
  (∀ x, in_page pml4 x ∨ in_page pdpt x ∨ (∃ i, 0 ≤ i < n ∧ in_page (pd i) x) → m' x = m x) →
  id_tables cap m' pml4 pdpt pd n present.
Proof.
  intros [Hl R R0 P P0 D] Hm. pose proof (lay_n _ _ _ _ Hl). constructor; [done|..].
  - rewrite Hm; [done|]. left. unfold in_page. lia.
  - intros k Hk. rewrite Hm; [by apply R0|]. left. apply in_page_qword. lia.
  - intros i Hi. rewrite Hm; [by apply P|]. right. left. apply in_page_qword. lia.
  - intros i Hi. rewrite Hm; [by apply P0|]. right. left. apply in_page_qword. lia.
  - intros i j Hi Hj. rewrite Hm; [by apply D|]. right. right. exists i. split; [done|].
    by apply in_page_qword.
Qed.

Lemma gpt_frame m m' pml4 pdpt pd present : gpt m pml4 pdpt pd present →
  (∀ x, in_pages [pml4; pdpt; pd] x → m' x = m x) → gpt m' pml4 pdpt pd present.
Proof.
  intros [Hl Hs R R0 P P0 D] Hm.
  assert (∀ f x, f ∈ [pml4; pdpt; pd] → in_page f x → m' x = m x) as Hm'.
  { intros f x Hf Hx. apply Hm, Exists_exists. by exists f. }
  constructor; [done|done|..].
  - rewrite (Hm' pml4); [done|rewrite !elem_of_cons; tauto|unfold in_page; lia].
  - intros k Hk. rewrite (Hm' pml4); [by apply R0|rewrite !elem_of_cons; tauto|apply in_page_qword; lia].
  - rewrite (Hm' pdpt); [done|rewrite !elem_of_cons; tauto|unfold in_page; lia].
  - intros k Hk. rewrite (Hm' pdpt); [by apply P0|rewrite !elem_of_cons; tauto|apply in_page_qword; lia].
  - intros j Hj. rewrite (Hm' pd); [by apply D|rewrite !elem_of_cons; tauto|by apply in_page_qword].
Qed.

Definition shell_frames (g : Z) : list Z := [g + 0x6000; g + 0x7000; g + 0x8000].

(** What a prepared shell guest runs on: a private EPT of its slab, and page
    tables inside the slab that map the slab at identity. *)
Record shell_ok (cap : Z) (m : Mem) (g : Z) (l : LaunchFrames) : Prop := {
  sk_eptp : eptp l = pack_eptp (g + 0x6000) (eptp_memory_type cap);
  sk_cr3 : guest_cr3_phys l = Some (g + 0x3000);
  sk_host : vmcs_phys l = g + 0x9000 ∧ host_stack_phys l = g + 0xA000;
  sk_ept : id_tables cap m (g + 0x6000) (g + 0x7000) (λ i, frame_at (shell_frames g) (2 + i)) 1
             (λ k, k =? g / TWO_MIB);
  sk_gpt : gpt m (g + 0x3000) (g + 0x4000) (g + 0x5000) (λ k, k =? g / TWO_MIB);
}.

Lemma shell_frame_at g i : 0 ≤ i < 3 → frame_at (shell_frames g) i = g + 0x6000 + 0x1000 * i.
Proof.
  intros Hi. assert (i = 0 ∨ i = 1 ∨ i = 2) as [->|[->| ->]] by lia;
    unfold frame_at, shell_frames; simpl; lia.
Qed.

Lemma shell_frame_2 g i : 0 ≤ i < 1 → frame_at (shell_frames g) (2 + i) = g + 0x8000.
Proof. intros Hi. by replace i with 0 by lia. Qed.

Lemma shell_ok_frame cap m m' g l : shell_ok cap m g l → (∀ x, in_slab g x → m' x = m x) →
  shell_ok cap m' g l.
Proof.
  intros [E C Hh He Hg] Hm. constructor; [done|done|done|..].
  - eapply id_tables_frame; [exact He|]. intros x Hx. apply Hm. unfold in_slab, TWO_MIB, in_page in *.
    destruct Hx as [?|[?|(i & Hi & Hx)]]; [lia|lia|]. rewrite shell_frame_2 in Hx by done. lia.
  - eapply gpt_frame; [exact Hg|]. intros x Hx. apply Hm. unfold in_slab, TWO_MIB, in_pages, in_page in *.
    rewrite !Exists_cons, Exists_nil in Hx. lia.
Qed.

Lemma shell_frames_ok g : slab_ok g → frames_ok 3 (shell_frames g).
Proof.
  intros [Hr Ha Hw]. unfold GUEST_RAM_BYTES, TWO_MIB, PRECISE_BYTES in *. apply frames_ok_of_batch.
  - simpl. lia.
  - repeat (apply NoDup_cons; split; [rewrite ?elem_of_cons, elem_of_nil; lia|]). apply NoDup_nil_2.
  - repeat (apply Forall_cons_2; [split; [mlia|dlia]|]). apply Forall_nil_2.
Qed.

Lemma cpuid_page_out m page a : ¬ in_page page a → write_guest_shell_cpuid_page m page a = m a.
Proof.
  intros Ha. unfold write_guest_shell_cpuid_page.
  rewrite !wr_ne by (intros ->; unfold in_page in *; lia). by apply zero_page_out.
Qed.

Lemma zero_slab_out m g a : ¬ in_slab g a → zero_slab m g a = m a.
Proof.
  intros Ha. unfold zero_slab. rewrite fill_out; [done|]. change (TWO_MIB / 8) with 262144.
  intros i Hi ->. apply Ha. unfold in_slab, TWO_MIB. lia.
Qed.

(** Clearing the execute-disable bit leaves every walk as it was. *)
Definition same_walks (h h' : Mem) : Prop :=
  ∀ x, Z.land (h x) (bnot64 NX) = Z.land (h' x) (bnot64 NX).

#[global] Instance same_walks_equiv : Equivalence same_walks.
Proof. split; [by intros h x|by intros h h' E x|intros h1 h2 h3 E1 E2 x; by rewrite E1]. Qed.

Lemma same_walks_mask h h' M x : same_walks h h' → Z.land (bnot64 NX) M = M →
  Z.land (h x) M = Z.land (h' x) M.
Proof. intros E <-. by rewrite !Z.land_assoc, (E x). Qed.

Lemma clear_nx_walks cr3 h phys : same_walks h (clear_nx_identity cr3 h phys).1.
Proof.
  assert (∀ e, same_walks h (wr h e (Z.land (h e) (bnot64 NX)))) as W.
  { intros e x. unfold wr. destruct (Z.eqb_spec x e) as [->|]; [|done].
    by rewrite <- Z.land_assoc, Z.land_diag. }
  unfold clear_nx_identity. repeat case_match; simpl; (reflexivity || apply W).
Qed.

Lemma clear_nx_same cr3 h h' phys : same_walks h h' →
  (clear_nx_identity cr3 h' phys).2 = (clear_nx_identity cr3 h phys).2.
Proof.
  intros E. assert (∀ M x, Z.land (bnot64 NX) M = M → Z.land (h' x) M = Z.land (h x) M) as Q
    by (intros; symmetry; by apply same_walks_mask).
  unfold clear_nx_identity. cbv zeta.
  repeat first [rewrite (Q PRESENT) by reflexivity|rewrite (Q PT_ADDR) by reflexivity|rewrite (Q LARGE) by reflexivity].
  repeat case_match; done.
Qed.

Lemma prepare_shell_spec cap cr3 m hpt b g id : slab_ok g → boot_wf b →
  ∃ m' hpt' b' r, prepare_shell cap cr3 m hpt b g id = Some (m', hpt', b', r) ∧ same_walks hpt hpt' ∧ boot_wf b' ∧
    match r with
    | Some l => shell_ok cap m' g l ∧ ∀ x, ¬ in_slab g x → m' x = m x
    | None => (clear_nx_identity cr3 hpt g).2 = false
    end.
Proof.
  intros Hs Hb. pose proof Hs as [Hr Ha Hw]. unfold GUEST_RAM_BYTES in Hr.
  assert (g < 536870912) as Hlt by (unfold TWO_MIB, PRECISE_BYTES in *; lia).
  unfold prepare_shell, G1_SLAB_OFF_EPT_PML4, G1_SLAB_OFF_EPT_PDPT, G1_SLAB_OFF_EPT_PD,
    G1_SLAB_OFF_CODE, G1_SLAB_OFF_VMCS, G1_SLAB_OFF_HOST_STACK.
  rewrite (add64_small g 0x6000), (add64_small g 0x7000), (add64_small g 0x8000),
    (add64_small g 0), Z.add_0_r by mlia.
  destruct (build_single_tables cap (zero_slab m g) g (shell_frames g)) as (m1 & E1 & Ht & Ho);
    [lia|done|done|by apply shell_frames_ok|].
  unfold shell_frames in E1 at 1. rewrite E1.
  destruct (write_2m_tables_spec m1 g) as (m2 & -> & Hg & Ho2); [lia|done|done|].
  pose proof (clear_nx_walks cr3 hpt g) as Hn. destruct (clear_nx_identity cr3 hpt g) as [hpt' []] eqn:En.
  2:{ eexists _, _, _, None. by split_and!. }
  destruct (record_event_spec b (EptMapped id g g) Hb) as (b' & _ & -> & Hb' & _).
  eexists _, _, _, (Some _). split; [reflexivity|]. split; [done|]. split; [done|].
  assert (∀ x, ¬ in_page g x → write_guest_shell_cpuid_page m2 g x = m2 x) as Hc
    by (intros x; apply cpuid_page_out).
  split; [constructor; [done|done|split; apply add64_small; mlia|..]|].
  - eapply id_tables_frame; [exact Ht|]. intros x Hx.
    assert (g + 0x6000 ≤ x < g + 0x9000) as Hx'.
    { unfold in_page in Hx. destruct Hx as [Hx|[Hx|(i & Hi & Hx)]];
        [cbn in Hx; lia|cbn in Hx; lia|]. rewrite shell_frame_2 in Hx by done. lia. }
    rewrite Hc by (unfold in_page; lia). apply Ho2. unfold in_pages, in_page.
    rewrite !Exists_cons, Exists_nil. lia.
  - eapply gpt_frame; [exact Hg|]. intros x Hx. apply Hc. unfold in_pages, in_page in *.
    rewrite !Exists_cons, Exists_nil in Hx. lia.
  - intros x Hx. unfold in_slab, TWO_MIB in Hx. rewrite Hc by (unfold in_page; lia).
    rewrite Ho2 by (unfold in_pages, in_page; rewrite !Exists_cons, Exists_nil; lia).
    rewrite Ho; [by apply zero_slab_out|]. intros i Hi. unfold in_page.
    rewrite shell_frame_at by done. lia.
Qed.

Lemma prepare_shells_spec cap cr3 slabs : ∀ m hpt b, Forall (λ gi, slab_ok gi.1) slabs →
  NoDup slabs.*1 → boot_wf b →
  ∃ m' hpt' b' r, prepare_shells cap cr3 m hpt b slabs = Some (m', hpt', b', r) ∧ same_walks hpt hpt' ∧ boot_wf b' ∧
    match r with
    | Some ls => Forall2 (λ gi l, shell_ok cap m' gi.1 l) slabs ls ∧
        ∀ x, Forall (λ gi, ¬ in_slab gi.1 x) slabs → m' x = m x
    | None => Exists (λ gi, (clear_nx_identity cr3 hpt gi.1).2 = false) slabs
    end.
Proof.
  induction slabs as [|[g id] slabs IH]; intros m hpt b Hok Hnd Hb; simpl.
  - exists m, hpt, b, (Some []). by split_and!.
  - apply Forall_cons in Hok as [Hg Hok]. simpl in Hg, Hnd. apply NoDup_cons in Hnd as [Hni Hnd].
    destruct (prepare_shell_spec cap cr3 m hpt b g id Hg Hb) as (m1 & h1 & b1 & r1 & -> & Hw1 & Hb1 & Hr1).
    destruct r1 as [l|]; [|eexists _, _, _, None; split_and!; try done; by left]. destruct Hr1 as [Hl Ho1].
    destruct (IH m1 h1 b1 Hok Hnd Hb1) as (m2 & h2 & b2 & r2 & -> & Hw2 & Hb2 & Hr2).
    destruct r2 as [ls|].
    + destruct Hr2 as [Hls Ho2]. exists m2, h2, b2, (Some (l :: ls)). split_and!; [done|by etrans|done|..].
      * constructor; [|done]. eapply shell_ok_frame; [exact Hl|]. intros x Hx. apply Ho2.
        apply Forall_forall. intros [g' id'] Hin. rewrite Forall_forall in Hok.
        eapply slab_disjoint; [exact Hg|exact (Hok _ Hin)| |exact Hx]. intros ->.
        apply Hni, list_elem_of_fmap. by exists (g', id').
      * intros x [Hx Hx']%Forall_cons. rewrite Ho2 by done. by apply Ho1.
    + eexists _, _, _, None. split_and!; [done|by etrans|done|]. right. eapply Exists_impl; [exact Hr2|].
      intros [g' id']. simpl. by rewrite (clear_nx_same cr3 hpt h1).
Qed.

(** ** Putting the stages together *)

(** The table frames of the bring-up guest are allocated frames. *)
Definition tables_live (a : FrameAllocator) (fs : list Z) : Prop :=
  ∀ i, 0 ≤ i < 3 → frame_at fs i mod 4096 = 0 ∧ frame_at fs i / 4096 ∈ allocated a.

Lemma slab_misses_pool a used g x : wf a → slab_free a used g → in_slab g x → x / 4096 ∉ pool a.
Proof.
  intros Hwf Hf Hx Hin. pose proof (slab_free_ok _ _ _ Hf) as [Hr Ha Hw].
  destruct Hf as (_ & _ & _ & Ho & _).
  assert (owns_phys_range a g TWO_MIB = true) as Ht; [|congruence].
  unfold GUEST_RAM_BYTES, TWO_MIB, PRECISE_BYTES, in_slab in *.
  apply owns_phys_range_spec; [done|mlia|lia|mlia|]. exists x. split; [done|].
  unfold from_phys. rewrite Z.shiftr_div_pow2 by lia. exact Hin.
Qed.

Lemma g0_frame cap m m' fs present : g0_tables cap m fs present →
  (∀ i x, 0 ≤ i < 3 → in_page (frame_at fs i) x → m' x = m x) → g0_tables cap m' fs present.
Proof.
  intros Ht Hm. eapply id_tables_frame; [exact Ht|].
  intros x [Hx|[Hx|(i & Hi & Hx)]]; eapply Hm; try exact Hx; lia.
Qed.

Lemma page_frame_div f x : f mod 4096 = 0 → in_page f x → x / 4096 = f / 4096.
Proof. unfold in_page. intros. dlia. Qed.

Definition hole_of (h g : Z) : Z * Z * Z := (h, TWO_MIB, g).

Lemma shell_holes_ok slabs ids : Forall slab_ok slabs → NoDup slabs → length slabs = length ids →
  Forall (λ g, g ≠ 0 ∧ g ≠ M2_BRINGUP_GUEST_ID) ids →
  holes_ok (zip_with hole_of slabs ids) ∧ Forall hole_u64 (zip_with hole_of slabs ids).
Proof.
  intros Hs Hnd Hlen Hids. rewrite Forall_forall in Hs. rewrite Forall_forall in Hids.
  assert (∀ h, h ∈ zip_with hole_of slabs ids → ∃ i g, slabs !! i = Some (hpa_of h) ∧ ids !! i = Some g ∧
    h = hole_of (hpa_of h) g) as Hz.
  { intros h (i & x & g & -> & Hx & Hg)%elem_of_lookup_zip_with. by exists i, g. }
  assert (∀ h, h ∈ zip_with hole_of slabs ids → slab_ok (hpa_of h)) as Hok.
  { intros h (i & g & Hi & _)%Hz. by eapply Hs, list_elem_of_lookup_2. }
  split; [split_and!|].
  - apply Forall_forall. intros h Hh. destruct (Hok h Hh) as [Hr Ha Hw].
    destruct (Hz h Hh) as (i & g & _ & Hg & ->). apply list_elem_of_lookup_2, Hids in Hg as [??].
    unfold hole_ok, hole_of, hpa_of, TWO_MIB, GUEST_RAM_BYTES, PRECISE_BYTES in *. simpl in *.
    split_and!; (done || dlia).
  - apply NoDup_fmap_1 with (f := hpa_of). assert (hpa_of <$> zip_with hole_of slabs ids = slabs) as ->; [|done].
    clear -Hlen. revert ids Hlen. induction slabs as [|x xs IH]; intros [|i ids] Hl; try done.
    csimpl. f_equal. apply IH. simpl in Hl. lia.
  - intros h h' Hh Hh' Hne. destruct (Hz h Hh) as (i & g & Hi & Hg & E).
    destruct (Hz h' Hh') as (i' & g' & Hi' & Hg' & E').
    assert (hpa_of h ≠ hpa_of h') as Hd.
    { intros Eh. rewrite Eh in Hi. pose proof (NoDup_lookup _ _ _ _ Hnd Hi Hi') as ->.
      apply Hne. rewrite E, E', Eh. f_equal. congruence. }
    destruct (Hok h Hh) as [_ Ha _], (Hok h' Hh') as [_ Ha' _]. rewrite E, E'.
    unfold hdisj, hole_end, hole_of. cbn [fst snd hpa_of]. unfold hpa_of in *. cbn [fst snd].
    unfold TWO_MIB in *. dlia.
  - apply Forall_forall. intros h Hh. destruct (Hok h Hh) as [Hr Ha Hw].
    destruct (Hz h Hh) as (i & g & _ & _ & ->). unfold hole_u64, hole_of, hpa_of in *. simpl in *.
    unfold TWO_MIB, GUEST_RAM_BYTES, PRECISE_BYTES in *. split; mlia.
Qed.

(** *** The device windows *)

Lemma owns_geometry a a' p n : same_geometry a a' → owns_phys_range a' p n = owns_phys_range a p n.
Proof.
  intros (G1 & G2 & _). unfold owns_phys_range. destruct (n =? 0); [done|]. cbv zeta.
  induction (seqZ _ _) as [|f l IH]; [done|]. simpl. rewrite IH. unfold contains. by rewrite G1, G2.
Qed.

Lemma free_slabs_geometry a a' : same_geometry a a' → free_slabs a' = free_slabs a.
Proof.
  intros G. unfold free_slabs. apply list_filter_iff. intros h. by rewrite (owns_geometry a a').
Qed.

Lemma slab_free_geometry a a' used g : same_geometry a a' → slab_free a' used g ↔ slab_free a used g.
Proof. intros G. unfold slab_free. by rewrite (owns_geometry a a'). Qed.

(** The invariant of the stage: the slabs carved so far, from the allocator as it was
    at the start. *)
Record staged (cap : Z) (a0 : FrameAllocator) (fs : list Z) (m : Mem) (h : Host) (used : list Z) : Prop := {
  sg_wf : wf (falloc h);
  sg_boot : boot_wf (hboot h);
  sg_geom : same_geometry a0 (falloc h);
  sg_live : tables_live (falloc h) fs;
  sg_tables : g0_tables cap m fs (carved (λ k, k <? 256) used);
  sg_dup : NoDup used;
  sg_free : Forall (slab_free a0 []) used;
}.

Lemma staged_reserve cap a0 fs m h used : staged cap a0 fs m h used →
  ∃ m' r, reserve_slab m (falloc h) (frame_at fs 0) used = Some (m', r) ∧
    match r with
    | Some g => staged cap a0 fs m' h (used ++ [g])
    | None => (length (free_slabs a0) ≤ length used)%nat
    end.
Proof.
  intros [W B G L T D F]. destruct (reserve_slab_spec _ _ _ _ (falloc h) used T) as (m' & r & E & Hr).
  exists m', r. split; [exact E|]. destruct r as [g|]; [|by rewrite <- (free_slabs_geometry _ _ G)].
  destruct Hr as [Hf Ht]. apply (slab_free_geometry _ _ _ _ G) in Hf. pose proof Hf as (F1 & F2 & F3 & F4 & F5).
  split; [exact W|exact B|exact G|exact L|..].
  - eapply g0_ext; [|exact Ht]. intros k. unfold carved. rewrite existsb_app. simpl. by rewrite orb_false_r, <- andb_assoc, <- negb_orb.
  - apply NoDup_app. split_and!; [done| |apply NoDup_singleton]. intros x Hx ->%list_elem_of_singleton. done.
  - apply Forall_app. split; [done|]. apply Forall_singleton. split_and!; try done. by apply not_elem_of_nil.
Qed.

Lemma staged_reserves n : ∀ cap a0 fs m h used, staged cap a0 fs m h used →
  ∃ m' r, reserve_slabs n m (falloc h) (frame_at fs 0) used = Some (m', r) ∧
    match r with
    | Some l => (∃ hs, l = used ++ hs ∧ length hs = n) ∧ staged cap a0 fs m' h l
    | None => (length (free_slabs a0) < length used + n)%nat
    end.
Proof.
  induction n as [|n IH]; intros cap a0 fs m h used S; simpl.
  - exists m, (Some used). split_and!; try done. exists []. by rewrite app_nil_r.
  - destruct (staged_reserve _ _ _ _ _ _ S) as (m1 & r1 & -> & H1). destruct r1 as [g|].
    2:{ exists m1, None. split; [done|lia]. }
    destruct (IH _ _ _ _ _ _ H1) as (m2 & r2 & -> & H2). exists m2, r2. split; [done|]. destruct r2 as [l|].
    + destruct H2 as [(hs & -> & Hl) S2]. split; [|done]. exists (g :: hs). rewrite <- app_assoc. simpl. auto.
    + rewrite length_app in H2. simpl in H2. lia.
Qed.

(** Fresh frames are handed out, reported and written; nothing the tables hold is. *)
Definition fresh_run (a a' : FrameAllocator) (phys n : Z) : Prop :=
  phys mod 4096 = 0 ∧ (∀ j, 0 ≤ j < n → phys / 4096 + j ∉ allocated a) ∧
  allocated a' = list_to_set (seqZ (phys / 4096) n) ∪ allocated a ∧
  (∀ j, 0 ≤ j < n → phys / 4096 + j ∈ pool a).

Lemma staged_alloc cap a0 fs m m' h h' used phys n : staged cap a0 fs m h used →
  wf (falloc h') → boot_wf (hboot h') → same_geometry (falloc h) (falloc h') →
  fresh_run (falloc h) (falloc h') phys n →
  (∀ x, ¬ (phys ≤ x < phys + 4096 * n) → m' x = m x) →
  staged cap a0 fs m' h' used ∧
  Z.of_nat (size (allocated (falloc h'))) = Z.of_nat (size (allocated (falloc h))) + Z.max 0 n.
Proof.
  intros [W B G L T D F] W' B' G' (Pm & Pf & Pa & _) Hm.
  assert (same_geometry a0 (falloc h')) as G2 by (destruct G as (?&?&?&?), G' as (?&?&?&?); split_and!; congruence).
  split; [split; try done|].
  - intros i Hi. destruct (L i Hi) as [L1 L2]. split; [done|]. rewrite Pa. set_solver.
  - eapply g0_frame; [exact T|]. intros i x Hi Hx. apply Hm. intros Hin. destruct (L i Hi) as [L1 L2].
    rewrite <- (page_frame_div _ _ L1 Hx) in L2. apply (Pf (x / 4096 - phys / 4096)); [dlia|].
    by replace (phys / 4096 + (x / 4096 - phys / 4096)) with (x / 4096) by lia.
  - rewrite Pa, size_union.
    + rewrite size_list_to_set, length_seqZ by apply NoDup_seqZ. lia.
    + intros f Hf%elem_of_list_to_set%elem_of_seqZ Hf'. apply (Pf (f - phys / 4096)); [lia|].
      by replace (phys / 4096 + (f - phys / 4096)) with f by lia.
Qed.

Lemma to_phys_div a f : wf a → f ∈ pool a → to_phys f mod 4096 = 0 ∧ to_phys f / 4096 = f.
Proof. intros W P. destruct (to_phys_frame a f W P) as ((_ & ?) & ? & _). done. Qed.

Lemma alloc_phys_fresh h : wf (falloc h) → boot_wf (hboot h) →
  ∃ h' r, alloc_phys h = Some (h', r) ∧ wf (falloc h') ∧ boot_wf (hboot h') ∧ same_geometry (falloc h) (falloc h') ∧
    match r with Some p => fresh_run (falloc h) (falloc h') p 1 | None => allocated (falloc h) = pool (falloc h) end.
Proof.
  intros W B. unfold alloc_phys. destruct (allocate_frame (falloc h)) as [a' [f|]] eqn:E;
    apply allocate_frame_spec in E as (W' & G & R); [|done| |done].
  - destruct R as (P & N & A). destruct (record_event_spec (hboot h) (FrameAllocated f) B) as (b' & _ & -> & B' & _).
    eexists _, (Some _). split; [reflexivity|]. destruct (to_phys_div _ _ W P) as [M1 M2].
    split_and!; try done. unfold fresh_run. rewrite M2. split_and!; [done|..].
    + intros j Hj. by replace (f + j) with f by lia.
    + cbn [falloc]. rewrite A. change 1 with (Z.of_nat 1). rewrite seqZ_S. simpl. set_solver.
    + intros j Hj. by replace (f + j) with f by lia.
  - destruct R as [-> R]. eexists _, None. split; [reflexivity|]. by split_and!.
Qed.

(** No run of frames long enough for the disk is free. *)
Definition no_run (a : FrameAllocator) (n : Z) : Prop :=
  ∀ f, base_frame a ≤ f → f + n ≤ base_frame a + capacity a → ∃ j, 0 ≤ j < n ∧ f + j ∈ allocated a.

Lemma alloc_disk_fresh h n : wf (falloc h) → boot_wf (hboot h) → 0 < n → n + 4095 < W64 →
  ∃ h' r, alloc_disk h n = Some (h', r) ∧ wf (falloc h') ∧ boot_wf (hboot h') ∧ same_geometry (falloc h) (falloc h') ∧
    match r with
    | Some p => fresh_run (falloc h) (falloc h') p (disk_pages n)
    | None => no_run (falloc h) (disk_pages n)
    end.
Proof.
  intros W B N L. assert (disk_pages n = (n + 4095) / 4096) as E by (unfold disk_pages; by rewrite add64_small by lia).
  assert (1 ≤ disk_pages n < W64) as [P1 P2] by (rewrite E; dlia).
  unfold alloc_disk. destruct (Z.leb_spec (disk_pages n) 1) as [Hle|Hgt].
  - assert (disk_pages n = 1) as -> by lia. destruct (alloc_phys_fresh h W B) as (h' & r & -> & W' & B' & G & R).
    exists h', r. split_and!; try done. destruct r as [p|]; [done|]. intros f F1 F2. exists 0. split; [lia|].
    rewrite R, Z.add_0_r. apply elem_of_pool. lia.
  - destruct (allocate_contiguous _ _) as [a' r] eqn:Ea.
    apply allocate_contiguous_aligned_spec in Ea as (W' & G & R); [|done|mlia|mlia]. destruct r as [f|].
    + destruct R as (_ & _ & R1 & R2 & R3 & R4).
      destruct (record_event_spec (hboot h) (FrameAllocated f) B) as (b' & _ & -> & B' & _).
      eexists _, (Some _). split; [reflexivity|].
      assert (∀ j, 0 ≤ j < disk_pages n → f + j ∈ pool (falloc h)) as Hp by (intros; apply elem_of_pool; lia).
      destruct (to_phys_div _ f W) as [M1 M2]; [rewrite <- (Z.add_0_r f); apply Hp; lia|].
      split_and!; try done. unfold fresh_run. rewrite M2. by split_and!.
    + destruct R as [-> R]. eexists _, None. split; [reflexivity|]. split_and!; try done.
      intros f F1 F2. destruct R as [?|[?|[?|R]]]; [lia|lia|done|]. apply R; [done..|]. by rewrite Z.mod_1_r.
Qed.

(** What the stage needs: five slabs, a run of frames for the disk and two more
    frames, and host page tables that reach the slabs. *)
Record stage_room (a : FrameAllocator) (cr3 : Z) (hpt : Mem) (disk_bytes : Z) : Prop := {
  room_slabs : (BAR_COUNT + SHELL_COUNT ≤ length (free_slabs a))%nat;
  room_disk : ¬ no_run a (disk_pages disk_bytes);
  room_frames : allocated_count a + disk_pages disk_bytes + 2 ≤ capacity a;
  room_host : ∀ g, g ∈ free_slabs a → (clear_nx_identity cr3 hpt g).2 = true;
}.

(** The stage ended at [m] and [h] with [used], or it gave up and there was no room. *)
Definition window_spec cap a0 fs (room : Prop) (used : list Z) (spent : Z → Prop)
    (r : option (Mem * Host * Z)) : Prop :=
  match r with
  | Some (m, h, g) => staged cap a0 fs m h (used ++ [g]) ∧ spent (Z.of_nat (size (allocated (falloc h))))
  | None => ¬ room
  end.

Lemma blk_window_spec cap fs m h n img : staged cap (falloc h) fs m h [] → 0 < n → n + 4095 < W64 →
  ∃ r, blk_window m h (frame_at fs 0) n img = Some r ∧
    window_spec cap (falloc h) fs ((1 ≤ length (free_slabs (falloc h)))%nat ∧ ¬ no_run (falloc h) (disk_pages n)) []
      (λ c, c = allocated_count (falloc h) + disk_pages n) r.
Proof.
  intros S N L. unfold blk_window. destruct (staged_reserve _ _ _ _ _ _ S) as (m1 & r1 & -> & H1).
  destruct r1 as [g|]; [|exists None; split; [done|]; simpl in *; intros [? _]; lia].
  destruct (alloc_disk_fresh h n (sg_wf _ _ _ _ _ _ S) (sg_boot _ _ _ _ _ _ S) N L) as (h' & r & -> & W & B & G & R).
  destruct r as [p|]; [|exists None; split; [done|]; simpl; tauto].
  destruct (staged_alloc _ _ _ _ (init_with_image m1 p n img) _ h' _ _ _ H1 W B G R) as [S2 C2].
  - intros x Hx. unfold init_with_image. apply fill_out. intros i Hi ->. apply Hx. unfold disk_pages.
    rewrite add64_small by lia. split; [lia|]. dlia.
  - eexists (Some _). split; [reflexivity|]. split; [exact S2|]. rewrite C2, (wf_count _ (sg_wf _ _ _ _ _ _ S)).
    f_equal. unfold disk_pages. rewrite add64_small by lia. dlia.
Qed.

Lemma pool_full a : wf a → allocated a = pool a → Z.of_nat (size (allocated a)) = capacity a.
Proof. intros W E. rewrite E, (size_pool _ (wf_shape _ W)). pose proof (wf_shape _ W). fa_span. lia. Qed.

Lemma net_window_spec cap a0 fs m h used : staged cap a0 fs m h used →
  ∃ r, net_window m h (frame_at fs 0) used = Some r ∧
    window_spec cap a0 fs ((length used < length (free_slabs a0))%nat ∧
      Z.of_nat (size (allocated (falloc h))) + 2 ≤ capacity a0) used (λ _, True) r.
Proof.
  intros S. unfold net_window. destruct (staged_reserve _ _ _ _ _ _ S) as (m1 & r1 & -> & H1).
  destruct r1 as [g|]; [|exists None; split; [done|]; simpl in *; intros [? _]; lia].
  destruct (alloc_phys_fresh h (sg_wf _ _ _ _ _ _ S) (sg_boot _ _ _ _ _ _ S)) as (h1 & r & -> & W1 & B1 & G1 & R1).
  assert (capacity (falloc h) = capacity a0) as Ec by apply (sg_geom _ _ _ _ _ _ S).
  destruct r as [p|].
  2:{ exists None. split; [done|]. intros [_ ?]. rewrite (pool_full _ (sg_wf _ _ _ _ _ _ S)) in * by done. lia. }
  destruct (staged_alloc _ _ _ _ (zero_page m1 p) _ h1 _ _ _ H1 W1 B1 G1 R1) as [S2 C2].
  { intros x Hx. apply zero_page_out. unfold in_page. lia. }
  destruct (alloc_phys_fresh h1 W1 B1) as (h2 & r & -> & W2 & B2 & G2 & R2).
  destruct r as [q|].
  2:{ exists None. split; [done|]. intros [_ ?]. rewrite (pool_full _ W1) in C2 by done. destruct G1 as (_ & G1 & _). lia. }
  destruct (staged_alloc _ _ _ _ (zero_page (zero_page m1 p) q) _ h2 _ _ _ S2 W2 B2 G2 R2) as [S3 _].
  { intros x Hx. apply zero_page_out. unfold in_page. lia. }
  by eexists (Some _).
Qed.

(** *** The whole stage *)

Record stage_ended (cap : Z) (a : FrameAllocator) (fs : list Z) (gs : Guests) : Prop := {
  se_bars : length (gs_bars gs) = BAR_COUNT;
  se_slabs : length (gs_slabs gs) = SHELL_COUNT;
  se_dup : NoDup (gs_bars gs ++ gs_slabs gs);
  se_free : Forall (slab_free a []) (gs_bars gs ++ gs_slabs gs);
  se_g0 : g0_tables cap (gs_mem gs) fs (carved (λ k, k <? 256) (gs_bars gs ++ gs_slabs gs));
  se_shells : Forall2 (shell_ok cap (gs_mem gs)) (gs_slabs gs) (gs_launch gs);
  se_owners : ∀ g x, 0 ≤ x < PRECISE_BYTES → contains_gpa (pranges (gs_precise gs)) g x = true ↔
       owns (zip_with hole_of (gs_slabs gs) shell_ids) g x;
  se_live : wf (falloc (gs_host gs)) ∧ same_geometry a (falloc (gs_host gs)) ∧ tables_live (falloc (gs_host gs)) fs;
}.

Lemma se_ok cap a fs gs : stage_ended cap a fs gs → Forall slab_ok (gs_bars gs ++ gs_slabs gs).
Proof. intros S. eapply Forall_impl; [exact (se_free _ _ _ _ S)|]. intros g. apply slab_free_ok. Qed.

Lemma shell_stage_spec cap cr3 a0 fs m hpt h p bars : wf a0 → staged cap a0 fs m h bars → length bars = BAR_COUNT →
  ∃ r, shell_stage cap cr3 m hpt h p (frame_at fs 0) bars = Some r ∧
    match r with
    | Some gs => stage_ended cap a0 fs gs
    | None => ¬ ((length bars + SHELL_COUNT ≤ length (free_slabs a0))%nat ∧
        ∀ g, g ∈ free_slabs a0 → (clear_nx_identity cr3 hpt g).2 = true)
    end.
Proof.
  intros W0 S0 Lb. unfold shell_stage. destruct (staged_reserves SHELL_COUNT _ _ _ _ _ _ S0) as (m1 & r1 & -> & H1).
  destruct r1 as [l|]; [|exists None; split; [done|]; intros [? _]; lia].
  destruct H1 as [(slabs & -> & Hl3) S1]. rewrite drop_app_length', take_app_length' by done.
  destruct S1 as [W B G L T D F]. pose proof D as (_ & _ & Ds)%NoDup_app. pose proof F as [_ Fs]%Forall_app.
  assert (Forall slab_ok slabs) as Hoks by (eapply Forall_impl; [exact Fs|]; intros g; apply slab_free_ok).
  destruct (shell_holes_ok slabs shell_ids Hoks Ds) as [Hho Hhu]; [done|repeat constructor; done|].
  change (zip_with (λ h g, (h, TWO_MIB, g)) slabs shell_ids) with (zip_with hole_of slabs shell_ids).
  assert ((claim_precise_with_shell_holes p (zip_with hole_of slabs shell_ids)).2 = Ok ()) as Hc.
  { apply claim_precise_accepts; [done|done|]. change SHELL_COUNT with 3%nat in Hl3. rewrite length_zip_with_l; [lia|simpl; lia]. }
  destruct (claim_precise_with_shell_holes p (zip_with hole_of slabs shell_ids)) as [p' r] eqn:E2.
  simpl in Hc. subst r. destruct (claim_precise_owners _ _ _ Hhu E2) as (_ & _ & Hown & _).
  assert ((zip slabs shell_ids).*1 = slabs) as Hfst by (apply fst_zip; change SHELL_COUNT with 3%nat in Hl3; simpl; lia).
  destruct (prepare_shells_spec cap cr3 (zip slabs shell_ids) m1 hpt (hboot h))
    as (m2 & hpt2 & b2 & r2 & -> & _ & _ & Hr2); [|by rewrite Hfst|done|].
  { apply Forall_fmap with (f := fst). by rewrite Hfst. }
  destruct r2 as [ls|].
  - destruct Hr2 as [Hls Ho2]. eexists (Some _). split; [reflexivity|]. split; simpl; try done.
    + eapply g0_frame; [exact T|]. intros i x Hi Hx. apply Ho2.
      apply Forall_fmap with (f := fst) (P := λ g, ¬ in_slab g x). rewrite Hfst.
      eapply Forall_impl; [exact Fs|]. intros g Hg Hin. destruct (L i Hi) as [Hm0 Hpool%allocated_pool].
      rewrite (same_geometry_pool _ _ G) in Hpool.
      eapply slab_misses_pool; [exact W0|exact Hg|exact Hin|]. by rewrite (page_frame_div _ _ Hm0 Hx).
    + rewrite <- Hfst. by apply Forall2_fmap_l.
  - exists None. split; [done|]. intros [_ Hn]. apply Exists_exists in Hr2 as ([g id] & Hin & Hx). simpl in Hx.
    rewrite Hn in Hx; [done|]. apply slab_free_in with (used := []). rewrite Forall_forall in Fs. apply Fs.
    rewrite <- Hfst. apply list_elem_of_fmap. by exists (g, id).
Qed.

(** From tables of the whole window, held in allocated frames, the stage ends as
    described or there is no room for it. *)
Lemma boot_guests_spec cap cr3 m hpt h p fs n img : wf (falloc h) → boot_wf (hboot h) →
  g0_tables cap m fs (λ k, k <? 256) → tables_live (falloc h) fs → 0 < n → n + 4095 < W64 →
  ∃ r, boot_guests cap cr3 m hpt h p (frame_at fs 0) n img = Some r ∧
    match r with
    | Some gs => stage_ended cap (falloc h) fs gs
    | None => ¬ stage_room (falloc h) cr3 hpt n
    end.
Proof.
  intros W B T L N Ln.
  assert (staged cap (falloc h) fs m h []) as S.
  { split; try done; [|constructor]. eapply g0_ext; [|exact T]. intros k. unfold carved. simpl. by rewrite andb_true_r. }
  unfold boot_guests. destruct (blk_window_spec cap fs m h n img S N Ln) as (r1 & -> & H1).
  destruct r1 as [[[m1 h1] g1]|].
  2:{ exists None. split; [done|]. intros [R1 R2 R3 R4]. apply H1. unfold BAR_COUNT in R1. split; [lia|done]. }
  destruct H1 as [S1 C1]. simpl app in S1. destruct (net_window_spec _ _ _ _ _ _ S1) as (r2 & -> & H2).
  destruct r2 as [[[m2 h2] g2]|].
  2:{ exists None. split; [done|]. intros [R1 R2 R3 R4]. apply H2. unfold BAR_COUNT in R1. simpl. split; [lia|]. rewrite C1. lia. }
  destruct H2 as [S2 _]. simpl app in S2.
  destruct (shell_stage_spec cap cr3 _ _ _ hpt _ p _ W S2 eq_refl) as (r3 & -> & H3).
  exists r3. split; [done|]. destruct r3 as [gs|]; [done|]. intros [R1 R2 R3 R4]. apply H3. by split.
Qed.

(** The tables the walk of an address reads, and whether every entry on its way to a
    2 MiB leaf allows writing. *)
Definition walk_entries (m : Mem) (pml4 gpa : Z) : Z * Z * Z :=
  let e0 := m (pml4 + 8 * idx 39 gpa) in
  let e1 := m (ept_hpa_from_pte e0 + 8 * idx 30 gpa) in
  (e0, e1, m (ept_hpa_from_pte e1 + 8 * idx 21 gpa)).

Definition walk_tables (m : Mem) (pml4 gpa : Z) : list Z :=
  let '(e0, e1, _) := walk_entries m pml4 gpa in [pml4; ept_hpa_from_pte e0; ept_hpa_from_pte e1].

Definition may_write (m : Mem) (pml4 gpa : Z) : bool :=
  let '(e0, e1, e2) := walk_entries m pml4 gpa in Z.testbit e0 1 && Z.testbit e1 1 && Z.testbit e2 1.

Lemma walk_entries_id cap m pml4 pdpt pd n present gpa : id_tables cap m pml4 pdpt pd n present →
  0 ≤ gpa < n * 1073741824 → walk_entries m pml4 gpa = (ept_link pdpt, ept_link (pd (gpa / 1073741824)),
    if present (gpa / TWO_MIB) then ept_leaf_large (gpa / TWO_MIB * TWO_MIB) (eptp_memory_type cap) else 0).
Proof.
  intros [Hl R R0 P P0 D] Hg. pose proof (lay_n _ _ _ _ Hl) as Hn. unfold walk_entries.
  rewrite idx39, idx30, idx21. replace ((gpa / 549755813888) mod 512) with 0 by dlia.
  rewrite Z.mul_0_r, Z.add_0_r, R. destruct (link_spec pdpt) as (_ & _ & -> & _); [apply Hl..|].
  replace ((gpa / 1073741824) mod 512) with (gpa / 1073741824) by dlia. rewrite P by dlia.
  destruct (link_spec (pd (gpa / 1073741824))) as (_ & _ & -> & _); [apply Hl; dlia..|].
  rewrite D by dlia. replace (512 * (gpa / 1073741824) + (gpa / 2097152) mod 512) with (gpa / TWO_MIB)
    by (unfold TWO_MIB; dlia). done.
Qed.

Lemma walk_tables_id cap m pml4 pdpt pd n present gpa : id_tables cap m pml4 pdpt pd n present →
  0 ≤ gpa < n * 1073741824 → walk_tables m pml4 gpa = [pml4; pdpt; pd (gpa / 1073741824)].
Proof.
  intros Ht Hg. unfold walk_tables. rewrite (walk_entries_id _ _ _ _ _ _ _ _ Ht Hg).
  pose proof (it_layout _ _ _ _ _ _ _ Ht) as Hl. pose proof (lay_n _ _ _ _ Hl).
  destruct (link_spec pdpt) as (_ & _ & -> & _); [apply Hl..|].
  destruct (link_spec (pd (gpa / 1073741824))) as (_ & _ & -> & _); [apply Hl; dlia..|]. done.
Qed.

Lemma may_write_id cap m pml4 pdpt pd n present gpa : id_tables cap m pml4 pdpt pd n present →
  0 ≤ gpa < n * 1073741824 → may_write m pml4 gpa = present (gpa / TWO_MIB).
Proof.
  intros Ht Hg. unfold may_write. rewrite (walk_entries_id _ _ _ _ _ _ _ _ Ht Hg).
  unfold ept_link, ept_leaf_large. rewrite !Z.lor_spec. destruct (present _); [|done].
  rewrite ?Z.lor_spec. done.
Qed.

(** *** What each guest reaches *)

Lemma carved_window slabs gpa : Forall slab_ok slabs → 0 ≤ gpa →
  (gpa <? 1073741824) && carved (λ k, k <? 256) slabs (gpa / TWO_MIB)
  = (gpa <? PRECISE_BYTES) && negb (existsb (λ g, in_slabb g gpa) slabs).
Proof.
  intros Hs Hg. unfold carved. rewrite andb_assoc, precise_window by done. f_equal. f_equal.
  induction Hs as [|g slabs [_ Ha _] _ IH]; [done|]. simpl. by rewrite IH, in_slab_index.
Qed.

Lemma shell_window g gpa : slab_ok g →
  (gpa <? 1073741824) && (gpa / TWO_MIB =? g / TWO_MIB) = in_slabb g gpa.
Proof.
  intros [_ Ha Hw]. rewrite in_slab_index by done. destruct (in_slabb g gpa) eqn:E; [|apply andb_false_r].
  apply in_slabb_spec in E. unfold in_slab, TWO_MIB, PRECISE_BYTES in *. rewrite andb_true_r. apply Z.ltb_lt. lia.
Qed.

Lemma shell_translate cap m g l gpa : slab_ok g → shell_ok cap m g l → 0 ≤ gpa < GPA_LIMIT →
  translate m (pml4_from_eptp (eptp l)) gpa = if in_slabb g gpa then Some gpa else None.
Proof.
  intros Hs Hl Hg. pose proof (sk_ept _ _ _ _ Hl) as He. rewrite (sk_eptp _ _ _ _ Hl).
  destruct (lay_pml4 _ _ _ _ (it_layout _ _ _ _ _ _ _ He)) as [P1 P2]. rewrite eptp_roundtrip by done.
  rewrite (translate_id_tables _ _ _ _ _ _ _ _ He Hg). change (1 * 1073741824) with 1073741824.
  by rewrite shell_window.
Qed.

Definition guest_root (gs : Guests) (pml4 : Z) (i : nat) : option Z :=
  match i with
  | O => Some pml4
  | Datatypes.S i => (λ l, pml4_from_eptp (eptp l)) <$> gs_launch gs !! i
  end.

(** Guest [i] (0 is the bring-up guest) can reach the host address. *)
Definition reaches (gs : Guests) (pml4 : Z) (i : nat) (hpa : Z) : Prop :=
  ∃ root gpa, guest_root gs pml4 i = Some root ∧ 0 ≤ gpa < GPA_LIMIT ∧
    translate (gs_mem gs) root gpa = Some hpa.

(** The addresses a guest's tables allow, from the shape the boot stage leaves. *)
Lemma reaches_region cap gs fs i hpa :
  g0_tables cap (gs_mem gs) fs (carved (λ k, k <? 256) (gs_bars gs ++ gs_slabs gs)) →
  Forall2 (shell_ok cap (gs_mem gs)) (gs_slabs gs) (gs_launch gs) →
  Forall slab_ok (gs_bars gs ++ gs_slabs gs) →
  reaches gs (frame_at fs 0) i hpa →
  match i with
  | O => Forall (λ g, ¬ in_slab g hpa) (gs_bars gs ++ gs_slabs gs)
  | Datatypes.S i => ∃ g, gs_slabs gs !! i = Some g ∧ in_slab g hpa
  end.
Proof.
  intros Ht Hsh Hok (root & gpa & Hr & Hg & Htr). destruct i as [|i]; simpl in Hr.
  - injection Hr as <-. rewrite (g0_translate _ _ _ _ _ Ht Hg), carved_window in Htr by (done || lia).
    destruct ((gpa <? PRECISE_BYTES) && _) eqn:E; [|done]. injection Htr as <-.
    apply andb_true_iff in E as [_ E%negb_true_iff]. apply Forall_forall. intros g Hin Hx.
    assert (existsb (λ g, in_slabb g gpa) (gs_bars gs ++ gs_slabs gs) = true) as Ht'; [|congruence].
    apply existsb_exists. exists g. split; [by apply list_elem_of_In|by apply in_slabb_spec].
  - apply fmap_Some in Hr as (l & Hl & ->).
    destruct (Forall2_lookup_r _ _ _ _ _ Hsh Hl) as (g & Hgs & Hs).
    apply Forall_app in Hok as [_ Hok]. pose proof (Forall_lookup_1 _ _ _ _ Hok Hgs) as Hsg.
    rewrite (shell_translate _ _ _ _ _ Hsg Hs Hg) in Htr.
    destruct (in_slabb g gpa) eqn:E; [|done]. injection Htr as <-.
    exists g. split; [done|]. by apply in_slabb_spec.
Qed.

(** ** Theorems *)

(** C3: the bring-up guest's EPT, over any lawful frame pool. On a processor with
    2 MiB EPT pages and three frames left, the boot path succeeds; the tables are
    three fresh frames of the pool and nothing else is written; the guest reaches
    every address below 512 MiB at identity and nothing else. *)
Theorem g0_ept_exact {S} `{FramePoolLaws S} cap m (s : S) :
  pool_ok s → ensure_2m_capable cap = Ok () → 3 ≤ pool_left s →
  ∃ m' s' fs eptp, build_g0_ept cap m s = Some (m', s', Some (frame_at fs 0, eptp)) ∧
    pml4_from_eptp eptp = frame_at fs 0 ∧
    (∀ gpa, 0 ≤ gpa < GPA_LIMIT →
       translate m' (frame_at fs 0) gpa = if gpa <? PRECISE_BYTES then Some gpa else None) ∧
    only_frames m m' 3 fs ∧ pool_ok s' ∧ pool_left s' = pool_left s - 3 ∧
    Forall (λ f, pool_span s f ∧ ¬ pool_live s f ∧ pool_live s' f) fs.
Proof.
  intros Hs Hcap Hleft. destruct (build_g0_ept_spec cap m s Hs Hcap Hleft)
    as (m' & s' & fs & E & Ea & Hf & Ht & Ho).
  destruct (alloc_frames_spec 3 s Hs) as (s1 & r & Ea' & Hs1 & _ & Hr).
  rewrite Ea in Ea'. injection Ea' as <- <-. destruct Hr as (_ & _ & _ & Hsp & Hnl & Hl & Hlive).
  exists m', s', fs, (pack_eptp (frame_at fs 0) (eptp_memory_type cap)).
  destruct (frame_at_ok 3 fs 0 Hf ltac:(lia)) as [P1 P2].
  split_and!; [done|by apply eptp_roundtrip| |done|done|lia|].
  - intros gpa Hg. by rewrite (g0_translate _ _ _ _ _ Ht Hg), precise_window by lia.
  - rewrite Forall_forall in Hsp. rewrite Forall_forall in Hnl. apply Forall_forall. intros f Hin.
    split_and!; [by apply Hsp|by apply Hnl|]. apply Hlive. by left.
Qed.

(** Without 2 MiB EPT support, or with fewer than three frames left, the boot
    path gives up without having written memory. *)
Theorem g0_ept_gives_up {S} `{FramePoolLaws S} cap m (s : S) :
  pool_ok s → ensure_2m_capable cap ≠ Ok () ∨ pool_left s < 3 →
  ∃ s', build_g0_ept cap m s = Some (m, s', None).
Proof.
  intros Hs Hc. unfold build_g0_ept. destruct (ensure_2m_capable cap) as [[]|e]; [|by exists s].
  destruct Hc as [Hc|Hc]; [done|]. change (8 <? frames_required_precise) with false. cbv iota.
  change (Z.to_nat frames_required_precise) with 3%nat.
  destruct (alloc_frames_spec 3 s Hs) as (s' & r & -> & Hs' & _ & Hr). exists s'.
  destruct r as [fs|]; [|done]. destruct Hr as (_ & _ & _ & _ & _ & Hl & _).
  pose proof (pool_left_nonneg s' Hs'). lia.
Qed.

(** What the stage starts from: tables of the whole window in allocated frames, and a
    disk whose size rounds up to pages without wrapping. *)
Record stage_start (cap : Z) (m : Mem) (h : Host) (fs : list Z) (c : option (bool * Z)) : Prop := {
  ss_wf : wf (falloc h);
  ss_boot : boot_wf (hboot h);
  ss_tables : g0_tables cap m fs (λ k, k <? 256);
  ss_live : tables_live (falloc h) fs;
  ss_disk : disk_bytes_for_virtio_launch c + 4095 < W64;
}.

Lemma disk_bytes_pos c : 0 < disk_bytes_for_virtio_launch c.
Proof. unfold disk_bytes_for_virtio_launch, PROBE_DISK_BYTES. repeat case_match; lia. Qed.

Section Stage.
Context (cap cr3 : Z) (m hpt : Mem) (h : Host) (p : Precise) (fs : list Z) (c : option (bool * Z)) (img : option (list Z)).
Let run := boot_guests cap cr3 m hpt h p (frame_at fs 0) (disk_bytes_for_virtio_launch c) img.

Lemma stage_spec : stage_start cap m h fs c → ∃ r, run = Some r ∧
  match r with
  | Some gs => stage_ended cap (falloc h) fs gs
  | None => ¬ stage_room (falloc h) cr3 hpt (disk_bytes_for_virtio_launch c)
  end.
Proof. intros [W B T L D]. apply boot_guests_spec; try done. apply disk_bytes_pos. Qed.

Lemma stage_shape gs : stage_start cap m h fs c → run = Some (Some gs) → stage_ended cap (falloc h) fs gs.
Proof. intros S E. destruct (stage_spec S) as (r & E' & R). rewrite E in E'. by injection E' as <-. Qed.

(** C2: carving and preparing the guests. From identity tables of the window whose
    frames are allocated, with five slabs of the window outside the allocator's pool, a
    run of free frames for the disk and two more for the network buffers, and host page
    tables that reach the slabs, the stage succeeds: two device windows and three shell
    slabs, distinct and inside [256 MiB, 512 MiB); the bring-up guest reaches the window
    less those five slabs, at identity, and nothing else; each shell guest reaches
    its own slab, at identity, and nothing else; and the range registry names the
    shell guest as owner of its slab and the bring-up guest as owner of the rest. *)
Theorem boot_guests_exact : stage_start cap m h fs c →
  stage_room (falloc h) cr3 hpt (disk_bytes_for_virtio_launch c) →
  ∃ gs, boot_guests cap cr3 m hpt h p (frame_at fs 0) (disk_bytes_for_virtio_launch c) img = Some (Some gs) ∧
    let carved_out := gs_bars gs ++ gs_slabs gs in
    length (gs_bars gs) = BAR_COUNT ∧ length (gs_slabs gs) = SHELL_COUNT ∧
    NoDup carved_out ∧ Forall slab_ok carved_out ∧
    (∀ gpa, 0 ≤ gpa < GPA_LIMIT → translate (gs_mem gs) (frame_at fs 0) gpa =
       if (gpa <? PRECISE_BYTES) && negb (existsb (λ g, in_slabb g gpa) carved_out)
       then Some gpa else None) ∧
    Forall2 (λ g l, ∀ gpa, 0 ≤ gpa < GPA_LIMIT →
       translate (gs_mem gs) (pml4_from_eptp (eptp l)) gpa =
         if in_slabb g gpa then Some gpa else None) (gs_slabs gs) (gs_launch gs) ∧
    (∀ g x, 0 ≤ x < PRECISE_BYTES → contains_gpa (pranges (gs_precise gs)) g x = true ↔
       owns (zip_with hole_of (gs_slabs gs) shell_ids) g x).
Proof.
  intros S R. destruct (stage_spec S) as ([gs|] & E & G); [|done]. pose proof (se_ok _ _ _ _ G) as Hok.
  exists gs. split; [exact E|]. cbv zeta. split_and!; try apply G; [done|..].
  - intros gpa Hg. by rewrite (g0_translate _ _ _ _ _ (se_g0 _ _ _ _ G) Hg), carved_window by (done || lia).
  - apply Forall_app in Hok as [_ Hok]. rewrite Forall_forall in Hok.
    apply Forall2_same_length_lookup. split; [eapply Forall2_length; apply G|].
    intros i g l Hg Hl gpa Hgpa.
    eapply shell_translate; [|exact (Forall2_lookup_lr _ _ _ _ _ _ (se_shells _ _ _ _ G) Hg Hl)|done].
    by eapply Hok, list_elem_of_lookup_2.
Qed.

(** Where a slab, a frame or a mapping of the host is missing the stage gives up, and
    otherwise it does not: there is no other way to fail. *)
Theorem boot_guests_total : stage_start cap m h fs c →
  ∃ r, boot_guests cap cr3 m hpt h p (frame_at fs 0) (disk_bytes_for_virtio_launch c) img = Some r ∧
    (r = None → ¬ stage_room (falloc h) cr3 hpt (disk_bytes_for_virtio_launch c)).
Proof. intros S. destruct (stage_spec S) as ([gs|] & E & G); eexists; by split. Qed.

(** C1: isolation. After the stage no host address is reachable by two guests, no
    guest reaches a device window, and no shell guest reaches a frame of the
    allocator, where the hypervisor keeps its own structures. *)
Theorem guests_isolated gs : stage_start cap m h fs c →
  boot_guests cap cr3 m hpt h p (frame_at fs 0) (disk_bytes_for_virtio_launch c) img = Some (Some gs) →
  (∀ i j hpa, reaches gs (frame_at fs 0) i hpa → reaches gs (frame_at fs 0) j hpa → i = j) ∧
  (∀ i hpa, reaches gs (frame_at fs 0) i hpa → Forall (λ g, ¬ in_slab g hpa) (gs_bars gs)) ∧
  (∀ i hpa, reaches gs (frame_at fs 0) (Datatypes.S i) hpa → hpa / 4096 ∉ pool (falloc h)).
Proof.
  intros S Egs. pose proof (stage_shape gs S Egs) as G. pose proof (se_ok _ _ _ _ G) as Hok.
  pose proof (λ i hpa, reaches_region cap gs fs i hpa (se_g0 _ _ _ _ G) (se_shells _ _ _ _ G) Hok) as Hreg.
  apply Forall_app in Hok as [Hokb Hoks]. pose proof (se_dup _ _ _ _ G) as (_ & Hdis & Hnds)%NoDup_app.
  assert (∀ i g, gs_slabs gs !! i = Some g → slab_ok g) as Hlk by (intros i g; by apply Forall_lookup_1).
  split_and!.
  - intros i j hpa Hi%Hreg Hj%Hreg. destruct i as [|i], j as [|j]; [done|..].
    + destruct Hj as (g & Hg & Hin). apply Forall_app in Hi as [_ Hi].
      by destruct (Forall_lookup_1 _ _ _ _ Hi Hg).
    + destruct Hi as (g & Hg & Hin). apply Forall_app in Hj as [_ Hj].
      by destruct (Forall_lookup_1 _ _ _ _ Hj Hg).
    + destruct Hi as (g & Hg & Hin), Hj as (g' & Hg' & Hin').
      destruct (decide (g = g')) as [->|Hne]; [f_equal; by eapply NoDup_lookup|].
      by destruct (slab_disjoint g g' hpa (Hlk _ _ Hg) (Hlk _ _ Hg') Hne Hin).
  - intros i hpa Hi%Hreg. destruct i as [|i]; [by apply Forall_app in Hi as [? _]|].
    destruct Hi as (g & Hg & Hin). apply Forall_forall. intros g' Hg'. rewrite Forall_forall in Hokb.
    eapply slab_disjoint; [exact (Hlk _ _ Hg)|by apply Hokb| |exact Hin]. intros ->.
    eapply Hdis; [exact Hg'|by eapply list_elem_of_lookup_2].
  - intros i hpa (g & Hg & Hin)%Hreg. pose proof (se_free _ _ _ _ G) as [_ Hsf]%Forall_app.
    eapply slab_misses_pool; [apply S|exact (Forall_lookup_1 _ _ _ _ Hsf Hg)|done].
Qed.

(** C4: a shell guest runs entirely inside its slab: its page tables are read
    through its own EPT, and the nested walk takes every virtual address of the slab
    to itself and faults on every other. *)
Theorem shell_nested_exact gs : stage_start cap m h fs c →
  boot_guests cap cr3 m hpt h p (frame_at fs 0) (disk_bytes_for_virtio_launch c) img = Some (Some gs) →
  Forall2 (λ g l, ∃ cr3, guest_cr3_phys l = Some cr3 ∧
    ∀ gva, 0 ≤ gva < GVA_LIMIT → nested_walk (gs_mem gs) (pml4_from_eptp (eptp l)) cr3 gva =
      if in_slabb g gva then Some gva else None) (gs_slabs gs) (gs_launch gs).
Proof.
  intros S Egs. pose proof (stage_shape gs S Egs) as G. pose proof (se_shells _ _ _ _ G) as Hsh.
  pose proof (se_ok _ _ _ _ G) as [_ Hoks]%Forall_app.
  apply Forall2_same_length_lookup. split; [by eapply Forall2_length|]. intros i g l Hg Hl.
  pose proof (Forall2_lookup_lr _ _ _ _ _ _ Hsh Hg Hl) as Hs.
  pose proof (Forall_lookup_1 _ _ _ _ Hoks Hg) as Hok. pose proof Hok as [Hr Ha Hw].
  exists (g + 0x3000). split; [apply Hs|]. intros gva Hgva. unfold nested_walk.
  rewrite (guest_walk_gpt _ _ _ _ _ _ _ (sk_gpt _ _ _ _ Hs)); [| |done].
  - rewrite shell_window by done. destruct (in_slabb g gva) eqn:E; [|done]. simpl.
    rewrite (shell_translate _ _ _ _ _ Hok Hs) by (unfold GVA_LIMIT, GPA_LIMIT in *; lia). by rewrite E.
  - intros x Hx. unfold read_ept. unfold in_page, GUEST_RAM_BYTES, PRECISE_BYTES, TWO_MIB in *.
    rewrite (shell_translate _ _ _ _ _ Hok Hs) by (unfold GPA_LIMIT; lia).
    assert (in_slabb g x = true) as ->; [|done]. apply in_slabb_spec. unfold in_slab, TWO_MIB. lia.
Qed.

(** C11: what the EPTs leave exposed. Each shell guest reaches, at identity and with
    leave to write, every table of its own EPT (the three its walks read), its VMCS page
    and the host stack of its exits; the bring-up guest reaches those table frames of
    its own EPT that lie below 512 MiB, and no others. *)
Theorem guests_reach_own_tables gs : stage_start cap m h fs c →
  boot_guests cap cr3 m hpt h p (frame_at fs 0) (disk_bytes_for_virtio_launch c) img = Some (Some gs) →
  Forall2 (λ g l, let root := pml4_from_eptp (eptp l) in
     ∀ x, x ∈ walk_tables (gs_mem gs) root g ++ [vmcs_phys l; host_stack_phys l] →
       translate (gs_mem gs) root x = Some x ∧ may_write (gs_mem gs) root x = true) (gs_slabs gs) (gs_launch gs) ∧
  ∀ i, 0 ≤ i < 3 → 0 ≤ frame_at fs i < GPA_LIMIT →
    translate (gs_mem gs) (frame_at fs 0) (frame_at fs i) =
      (if frame_at fs i <? PRECISE_BYTES then Some (frame_at fs i) else None) ∧
    (frame_at fs i < PRECISE_BYTES → may_write (gs_mem gs) (frame_at fs 0) (frame_at fs i) = true).
Proof.
  intros S Egs. pose proof (stage_shape gs S Egs) as G. pose proof (se_ok _ _ _ _ G) as Hok. split.
  - pose proof (se_shells _ _ _ _ G) as Hsh. apply Forall_app in Hok as [_ Hok].
    apply Forall2_same_length_lookup. split; [by eapply Forall2_length|]. intros i g l Hg Hl root x Hx.
    pose proof (Forall2_lookup_lr _ _ _ _ _ _ Hsh Hg Hl) as Hs.
    pose proof (Forall_lookup_1 _ _ _ _ Hok Hg) as Hsg. pose proof Hsg as [Hr Ha Hw].
    unfold GUEST_RAM_BYTES, PRECISE_BYTES, TWO_MIB in Hr, Hw.
    pose proof (sk_ept _ _ _ _ Hs) as He. destruct (lay_pml4 _ _ _ _ (it_layout _ _ _ _ _ _ _ He)) as [P1 P2].
    assert (root = g + 0x6000) as Er by (unfold root; by rewrite (sk_eptp _ _ _ _ Hs), eptp_roundtrip).
    assert (in_slab g x) as Hin.
    { rewrite Er, (walk_tables_id _ _ _ _ _ _ _ _ He) in Hx by (unfold GPA_LIMIT; lia).
      destruct (sk_host _ _ _ _ Hs) as [Hv Hh]. rewrite Hv, Hh, shell_frame_2 in Hx by dlia.
      rewrite !elem_of_app, !elem_of_cons, elem_of_nil in Hx. unfold in_slab, TWO_MIB. lia. }
    unfold in_slab, TWO_MIB in Hin. split.
    + unfold root. rewrite (shell_translate _ _ _ _ _ Hsg Hs) by (unfold GPA_LIMIT; lia).
      by rewrite (proj2 (in_slabb_spec g x)).
    + rewrite Er, (may_write_id _ _ _ _ _ _ _ _ He) by (unfold GPA_LIMIT; lia).
      rewrite in_slab_index by done. by apply in_slabb_spec.
  - intros i Hi Hx.
    assert (existsb (λ g, in_slabb g (frame_at fs i)) (gs_bars gs ++ gs_slabs gs) = false) as Hout.
    { apply not_true_iff_false. intros (g & Hg%list_elem_of_In & Hin%in_slabb_spec)%existsb_exists.
      destruct (ss_live _ _ _ _ _ S i Hi) as [_ Hp%allocated_pool].
      pose proof (se_free _ _ _ _ G) as Hsf. rewrite Forall_forall in Hsf.
      by eapply slab_misses_pool in Hin; [|apply S|by apply Hsf]. }
    pose proof (carved_window _ (frame_at fs i) Hok (proj1 Hx)) as Hc. rewrite Hout, andb_true_r in Hc. split.
    + by rewrite (g0_translate _ _ _ _ _ (se_g0 _ _ _ _ G)), Hc by done.
    + intros Hlt. rewrite (proj2 (Z.ltb_lt _ _) Hlt) in Hc. apply andb_true_iff in Hc as [Hc1%Z.ltb_lt Hc2].
      rewrite (may_write_id _ _ _ _ _ _ _ _ (se_g0 _ _ _ _ G)) by lia. exact Hc2.
Qed.

End Stage.

(** ** Witnesses: an allocator of eight frames at 1 MiB *)

Definition demo_alloc : FrameAllocator :=
  match Falloc.new 1048576 8 8192 with Ok a => a | Err _ => Falloc.demo end.
Definition demo_host : Host := mkHost demo_alloc boot_init.
Definition demo_cap : Z := Z.lor EPT_CAP_WALK4 EPT_CAP_2M.

Lemma demo_alloc_ok : wf demo_alloc.
Proof. apply reachable_inv, (reach_new 1048576 8 8192); [mlia..|reflexivity]. Qed.

Lemma demo_host_ok : pool_ok demo_host.
Proof. split; [apply demo_alloc_ok|apply boot_init_wf]. Qed.

Lemma g0_ept_exact_witness :
  ∃ m' s' pml4 eptp, build_g0_ept demo_cap (λ _, 0xdead) demo_host = Some (m', s', Some (pml4, eptp)) ∧
    translate m' pml4 0x1fffffff = Some 0x1fffffff ∧ translate m' pml4 0x20000000 = None.
Proof.
  destruct (g0_ept_exact demo_cap (λ _, 0xdead) demo_host demo_host_ok eq_refl)
    as (m' & s' & fs & eptp & E & _ & Ht & _); [vm_compute; congruence|].
  exists m', s', (frame_at fs 0), eptp. split; [exact E|].
  split; (rewrite Ht by (unfold GPA_LIMIT; lia); reflexivity).
Defined.

Lemma g0_ept_gives_up_witness :
  ∃ s', build_g0_ept 0 (λ _, 0) demo_host = Some (λ _, 0, s', None).
Proof. apply (g0_ept_gives_up 0 (λ _, 0) demo_host demo_host_ok). left. discriminate. Defined.

(** The host's page tables: one gigabyte page at identity, execute-disabled. *)
Definition demo_hpt : Mem := λ x, if x =? 0x1000 then 0x2003 else if x =? 0x2000 then NX + 0x83 else 0.
Definition demo_staged : Host :=
  match alloc_frames 3 demo_host with Some (h, _) => h | None => demo_host end.
Definition demo_frames : list Z := [0x100000; 0x101000; 0x102000].

Lemma demo_alloc3 : alloc_frames 3 demo_host = Some (demo_staged, Some demo_frames).
Proof. vm_compute. reflexivity. Qed.

(** The first stage on the demonstration host gives what the second needs. *)
Lemma first_stage_starts s fs : alloc_frames 3 demo_host = Some (s, Some fs) → ∃ m, stage_start demo_cap m s fs None.
Proof.
  intros E. destruct (build_g0_ept_spec demo_cap (λ _, 0) demo_host demo_host_ok eq_refl)
    as (m & s1 & fs1 & _ & Ea & Hf & Ht & _); [vm_compute; congruence|].
  rewrite E in Ea. injection Ea as <- <-.
  destruct (alloc_frames_spec 3 demo_host demo_host_ok) as (s1 & r & Ea & Hok & _ & Hr).
  rewrite E in Ea. injection Ea as <- <-. destruct Hr as (Hlen & _ & _ & _ & _ & _ & Hl). exists m.
  split; [apply Hok|apply Hok|exact Ht| |by vm_compute].
  intros i Hi. apply (Hl (frame_at fs i)). left. pose proof (frame_at_elem 3 fs i Hf Hi) as Hin.
  by rewrite take_ge in Hin by (rewrite Hlen; lia).
Qed.

Lemma demo_start : ∃ m, stage_start demo_cap m demo_staged demo_frames None.
Proof. apply first_stage_starts, demo_alloc3. Qed.

Lemma demo_room : stage_room (falloc demo_staged) 0x1000 demo_hpt (disk_bytes_for_virtio_launch None).
Proof.
  split.
  - apply Nat.leb_le. vm_compute. reflexivity.
  - intros Hn. destruct (Hn 259) as (j & Hj & Hin); [by vm_compute|by vm_compute|].
    change (disk_pages (disk_bytes_for_virtio_launch None)) with 1 in Hj. assert (j = 0) as -> by lia.
    apply elem_of_allocated in Hin as [_ Hin]. by vm_compute in Hin.
  - vm_compute. congruence.
  - intros g Hg%list_elem_of_In. revert g Hg. apply forallb_forall with (f := λ g, (clear_nx_identity 0x1000 demo_hpt g).2).
    vm_compute. reflexivity.
Qed.

Definition demo_precise : Precise := mkPrecise rm_new false.
Definition demo_run (m : Mem) : option (option Guests) :=
  boot_guests demo_cap 0x1000 m demo_hpt demo_staged demo_precise (frame_at demo_frames 0)
    (disk_bytes_for_virtio_launch None) None.

Lemma boot_guests_exact_witness : ∃ m gs, demo_run m = Some (Some gs) ∧ length (gs_slabs gs) = 3%nat.
Proof.
  destruct demo_start as (m & S).
  destruct (boot_guests_exact demo_cap 0x1000 m demo_hpt demo_staged demo_precise demo_frames None None S demo_room)
    as (gs & E & _ & Hl & _).
  exists m, gs. split; [exact E|exact Hl].
Defined.

Lemma demo_guests : ∃ m gs, stage_start demo_cap m demo_staged demo_frames None ∧ demo_run m = Some (Some gs).
Proof.
  destruct demo_start as (m & S). exists m.
  destruct (stage_spec demo_cap 0x1000 m demo_hpt demo_staged demo_precise demo_frames None None S) as ([gs|] & E & R).
  - exists gs. split; [exact S|exact E].
  - destruct (R demo_room).
Qed.

Lemma boot_guests_total_witness : ∃ m r, demo_run m = Some r ∧ r ≠ None.
Proof.
  destruct demo_start as (m & S).
  destruct (boot_guests_total demo_cap 0x1000 m demo_hpt demo_staged demo_precise demo_frames None None S) as (r & E & R).
  exists m, r. split; [exact E|]. intros Q. exact (R Q demo_room).
Defined.

Lemma guests_isolated_witness : ∃ gs pml4,
  ∀ i j hpa, reaches gs pml4 i hpa → reaches gs pml4 j hpa → i = j.
Proof.
  destruct demo_guests as (m & gs & S & E). unfold demo_run in E. exists gs, (frame_at demo_frames 0).
  exact (proj1 (guests_isolated demo_cap 0x1000 m demo_hpt demo_staged demo_precise demo_frames None None gs S E)).
Defined.

Lemma shell_nested_exact_witness : ∃ gs,
  Forall2 (λ g l, ∃ cr3, guest_cr3_phys l = Some cr3 ∧
    ∀ gva, 0 ≤ gva < GVA_LIMIT → nested_walk (gs_mem gs) (pml4_from_eptp (eptp l)) cr3 gva =
      if in_slabb g gva then Some gva else None) (gs_slabs gs) (gs_launch gs).
Proof.
  destruct demo_guests as (m & gs & S & E). unfold demo_run in E. exists gs.
  exact (shell_nested_exact demo_cap 0x1000 m demo_hpt demo_staged demo_precise demo_frames None None gs S E).
Defined.

Lemma guests_reach_own_tables_witness : ∃ gs,
  translate (gs_mem gs) 0x100000 0x102000 = Some 0x102000 ∧ may_write (gs_mem gs) 0x100000 0x102000 = true.
Proof.
  destruct demo_guests as (m & gs & S & E). unfold demo_run in E. exists gs.
  assert (0 ≤ 2 < 3) as H1 by lia. assert (0 ≤ frame_at demo_frames 2 < GPA_LIMIT) as H2 by (by vm_compute).
  pose proof (proj2 (guests_reach_own_tables demo_cap 0x1000 m demo_hpt demo_staged demo_precise demo_frames None None gs S E) 2 H1 H2) as [T W].
  change (frame_at demo_frames 0) with 0x100000 in T, W. change (frame_at demo_frames 2) with 0x102000 in T, W.
  exact (conj T (W eq_refl)).
Defined.

End Isolation.
