(* ===== verification/Sched.v ===== *)
(** * The credit scheduler

    [sched/scheduler.rs] (credits, the fair pick, the quantum), the slot choice of
    a preemption in [vmx/launch.rs] ([enter_sched_mode_from_shell],
    [schedule_preempt]), the vCPU run states of [sched/vcpu.rs] and the VMX
    lifecycle of [vmx/lifecycle.rs]. *)

From S2P Require Import Prelude.

Module Sched.

(** ** The scheduler *)

Inductive SchedError := NoRunnable.

Definition DEFAULT_CREDIT : Z := 10.

(** Credits are [i32]; no operation computes with them, so they stay in range. *)
Record CreditScheduler := mkSched { credits : list Z; count : nat }.

Definition sched_new : CreditScheduler := mkSched (replicate 8 0) 0.

Definition credit_at (s : CreditScheduler) (id : nat) : Z := default 0 (credits s !! id).

Definition register_vcpu (s : CreditScheduler) (initial_credit : Z)
    : CreditScheduler * option nat :=
  if (length (credits s) <=? count s)%nat then (s, None)
  else (mkSched (<[count s := initial_credit]> (credits s)) (S (count s)), Some (count s)).

Definition credit (s : CreditScheduler) (id : nat) : option Z :=
  if (id <? count s)%nat then Some (credit_at s id) else None.

(** One round of the pick loop. *)
Definition pick_step (s : CreditScheduler) (prefer_not : option nat)
    (best : option (nat * Z)) (id : nat) : option (nat * Z) :=
  let c := credit_at s id in
  if c <=? 0 then best
  else
    match best with
    | None => Some (id, c)
    | Some (bid, bc) =>
        if bc <? c then Some (id, c)
        else if c =? bc then
          if bool_decide (prefer_not = Some bid) then Some (id, c) else best
        else best
    end.

Definition pick_next_fair (s : CreditScheduler) (prefer_not : option nat)
    : result nat SchedError :=
  ok_or (fst <$> foldl (pick_step s prefer_not) None (seq 0 (count s))) NoRunnable.

Definition pick_next (s : CreditScheduler) : result nat SchedError := pick_next_fair s None.

Definition any_runnable (s : CreditScheduler) : bool :=
  existsb (λ i, 0 <? credit_at s i) (seq 0 (count s)).

Definition consume_quantum_amount (s : CreditScheduler) (id : nat) (replenish : Z)
    : CreditScheduler :=
  let s := if (id <? count s)%nat then mkSched (<[id := 0]> (credits s)) (count s) else s in
  if any_runnable s then s
  else mkSched (foldl (λ l i, <[i := replenish]> l) (credits s) (seq 0 (count s))) (count s).

Definition consume_quantum (s : CreditScheduler) (id : nat) : CreditScheduler :=
  consume_quantum_amount s id DEFAULT_CREDIT.

(** ** Preemption *)

(** The latches of the launcher that redirect a pick. *)
Record Latches := mkLatches {
  M4_LADDER_DONE : bool; SPA_LAUNCHED : bool; SPA_RUNNABLE : bool; SPA_VMPTRLD_FAILED : bool;
  G0_VMCS_RELOCATED : bool; G0_VMPTRLD_FAILED : bool;
}.

Definition redirect (f : Latches) (cur next : nat) : nat :=
  let next := if M4_LADDER_DONE f && (2 <=? next)%nat then 0%nat else next in
  let next := if M4_LADDER_DONE f && (next =? 1)%nat && (negb (SPA_RUNNABLE f) || SPA_VMPTRLD_FAILED f)
              then 0%nat else next in
  let next := if (next =? 0)%nat && G0_VMPTRLD_FAILED f
              then (if (cur =? 0)%nat then 1%nat else cur) else next in
  if M4_LADDER_DONE f && (next =? 0)%nat && SPA_LAUNCHED f
     && (negb (G0_VMCS_RELOCATED f) || G0_VMPTRLD_FAILED f)
     && SPA_RUNNABLE f && negb (SPA_VMPTRLD_FAILED f)
  then 1%nat else next.

(** A tick: the running slot spends its quantum and the next slot is chosen. The
    latches are those in force when the pick is made, after the device poll and the
    launch attempt that open the handler and may set them; [Err] is the end of the
    boot ([finish_boot]). *)
Definition schedule_preempt (f : Latches) (s : CreditScheduler) (cur : nat)
    : CreditScheduler * result nat SchedError :=
  let s := consume_quantum s cur in
  (s, match pick_next_fair s (Some cur) with
      | Ok next => Ok (redirect f cur next)
      | Err e => Err e
      end).

(** [for _ in 0..n { let _ = SCHED.register_vcpu(DEFAULT_CREDIT); }] *)
Definition register_n (n : nat) (s : CreditScheduler) : CreditScheduler :=
  foldl (λ s _, (register_vcpu s DEFAULT_CREDIT).1) s (seq 0 n).

Definition enter_sched_mode (f : Latches) (slots from_slot : nat)
    : CreditScheduler * result nat SchedError :=
  let s := consume_quantum (register_n slots sched_new) from_slot in
  (s, match pick_next_fair s (Some from_slot) with
      | Ok next => Ok (if (next =? 0)%nat && G0_VMPTRLD_FAILED f then from_slot else next)
      | Err e => Err e
      end).

(** The slots that run in [n] ticks after the current one. *)
Fixpoint ticks (f : Latches) (n : nat) (s : CreditScheduler) (cur : nat) : list nat :=
  match n with
  | O => []
  | S n =>
      match schedule_preempt f s cur with
      | (s, Ok next) => next :: ticks f n s next
      | (_, Err _) => []
      end
  end.

(** ** vCPU run states *)

Inductive VcpuState := Created | Runnable | Running | Halted | TornDown.

#[global] Instance VcpuState_eq_dec : EqDecision VcpuState.
Proof. solve_decision. Defined.

Record Vcpu := mkVcpu { vcpu_id : Z; vstate : VcpuState }.

Definition vcpu_new (id : Z) : Vcpu := mkVcpu id Created.
Definition make_runnable (v : Vcpu) : Vcpu := mkVcpu (vcpu_id v) Runnable.
Definition enter_running (v : Vcpu) : Vcpu := mkVcpu (vcpu_id v) Running.
Definition halt (v : Vcpu) : Vcpu := mkVcpu (vcpu_id v) Halted.

Definition tear_down (v : Vcpu) : Vcpu * result unit unit :=
  match vstate v with
  | Runnable | Running | Halted => (mkVcpu (vcpu_id v) TornDown, Ok ())
  | Created | TornDown => (v, Err ())
  end.

(** ** The VMX lifecycle

    The outcome of the VMXON and VMXOFF instructions is an input. *)

Inductive VmxState := Off | Root.
Inductive VmxError := InvalidState | NotSupported | FeatureControl | VmxonFailed | VmxoffFailed.

#[global] Instance VmxState_eq_dec : EqDecision VmxState.
Proof. solve_decision. Defined.

Definition enable (st : VmxState) (vmxon : result unit VmxError) : VmxState * result unit VmxError :=
  if negb (bool_decide (st = Off)) then (st, Err InvalidState)
  else match vmxon with
       | Err e => (st, Err e)
       | Ok _ => (Root, Ok ())
       end.

Definition disable (st : VmxState) (vmxoff : result unit VmxError) : VmxState * result unit VmxError :=
  if negb (bool_decide (st = Root)) then (st, Err InvalidState)
  else match vmxoff with
       | Err e => (st, Err e)
       | Ok _ => (Off, Ok ())
       end.

(** ** The pick *)

Definition positive (s : CreditScheduler) (i : nat) : Prop := (i < count s)%nat ∧ 0 < credit_at s i.

(** What the pick loop has chosen after the slots of [ids]. *)
Definition pick_inv (s : CreditScheduler) (prefer_not : option nat) (ids : list nat)
    (best : option (nat * Z)) : Prop :=
  match best with
  | None => ∀ i, i ∈ ids → credit_at s i ≤ 0
  | Some (b, c) => b ∈ ids ∧ c = credit_at s b ∧ 0 < c ∧ (∀ i, i ∈ ids → credit_at s i ≤ c) ∧
      (prefer_not = Some b → ∀ i, i ∈ ids → credit_at s i = c → i = b)
  end.

Lemma pick_step_inv s pn ids best id : id ∉ ids → pick_inv s pn ids best →
  pick_inv s pn (ids ++ [id]) (pick_step s pn best id).
Proof.
  intros Hni Hinv. unfold pick_step.
  assert (∀ P : nat → Prop, (∀ i, i ∈ ids → P i) → P id → ∀ i, i ∈ ids ++ [id] → P i) as Hall.
  { intros P H1 H2 i [Hi| ->%list_elem_of_singleton]%elem_of_app; auto. }
  destruct (Z.leb_spec (credit_at s id) 0) as [Hle|Hgt].
  - destruct best as [[b c]|]; simpl in *; [|by apply (Hall (λ i, credit_at s i ≤ 0))].
    destruct Hinv as (Hb & -> & Hc & Hmax & Hpn). split_and!; [apply elem_of_app; by left|done|done|..].
    + apply (Hall (λ i, credit_at s i ≤ credit_at s b)); [done|lia].
    + intros E. apply (Hall (λ i, credit_at s i = credit_at s b → i = b)); [by apply Hpn|lia].
  - assert (id ∈ ids ++ [id]) as Hid by (apply elem_of_app; right; by apply list_elem_of_singleton).
    destruct best as [[b c]|]; simpl in *.
    2:{ split_and!; [done|done|done|..].
        - apply (Hall (λ i, credit_at s i ≤ credit_at s id)); [|lia]. intros i Hi. specialize (Hinv i Hi). lia.
        - intros _. apply (Hall (λ i, credit_at s i = credit_at s id → i = id)); [|done]. intros i Hi E. specialize (Hinv i Hi). lia. }
    destruct Hinv as (Hb & -> & Hc & Hmax & Hpn).
    destruct (Z.ltb_spec (credit_at s b) (credit_at s id)) as [Hlt|Hge].
    { simpl. split_and!; [done|done|done|..].
      - apply (Hall (λ i, credit_at s i ≤ credit_at s id)); [|lia]. intros i Hi. specialize (Hmax i Hi). lia.
      - intros _. apply (Hall (λ i, credit_at s i = credit_at s id → i = id)); [|done]. intros i Hi E. specialize (Hmax i Hi). lia. }
    destruct (Z.eqb_spec (credit_at s id) (credit_at s b)) as [Heq|Hne].
    + case_bool_decide as Ep; simpl.
      * split_and!; [done|done|done|..].
        -- apply (Hall (λ i, credit_at s i ≤ credit_at s id)); [|lia]. intros i Hi. specialize (Hmax i Hi). lia.
        -- intros E'. exfalso. rewrite Ep in E'. injection E' as ->. done.
      * split_and!; [apply elem_of_app; by left|done|done|..]; [apply (Hall (λ i, credit_at s i ≤ credit_at s b)); [done|lia]|].
        intros E'. by destruct Ep.
    + simpl. split_and!; [apply elem_of_app; by left|done|done|..].
      * apply (Hall (λ i, credit_at s i ≤ credit_at s b)); [done|lia].
      * intros E'. apply (Hall (λ i, credit_at s i = credit_at s b → i = b)); [by apply Hpn|lia].
Qed.

Lemma pick_foldl_inv s pn n :
  pick_inv s pn (seq 0 n) (foldl (pick_step s pn) None (seq 0 n)).
Proof.
  induction n as [|n IH]; [simpl; intros i Hi; by apply elem_of_nil in Hi|].
  rewrite seq_S, foldl_app. simpl. apply pick_step_inv; [|done]. rewrite elem_of_seq. lia.
Qed.

(** The pick, as its callers use it. *)
Lemma pick_next_fair_spec s pn :
  match pick_next_fair s pn with
  | Ok b => positive s b ∧ (∀ i, (i < count s)%nat → credit_at s i ≤ credit_at s b) ∧
      (pn = Some b → ∀ i, (i < count s)%nat → credit_at s i = credit_at s b → i = b)
  | Err _ => ∀ i, ¬ positive s i
  end.
Proof.
  pose proof (pick_foldl_inv s pn (count s)) as H. unfold pick_next_fair.
  destruct (foldl _ _ _) as [[b c]|]; simpl in *.
  - destruct H as (Hb & -> & Hc & Hmax & Hpn). apply elem_of_seq in Hb.
    split_and!; [split; [lia|done]| |].
    + intros i Hi. apply Hmax. apply elem_of_seq. lia.
    + intros E i Hi. apply Hpn; [done|]. apply elem_of_seq. lia.
  - intros i [Hi Hc]. specialize (H i). rewrite elem_of_seq in H. specialize (H ltac:(lia)). lia.
Qed.

(** ** Spending a quantum *)

Record sched_ok (s : CreditScheduler) : Prop := {
  sc_len : length (credits s) = 8%nat;
  sc_count : (count s ≤ 8)%nat;
}.

Lemma foldl_insert_all (v : Z) n : ∀ l, (n ≤ length l)%nat →
  length (foldl (λ l i, <[i := v]> l) l (seq 0 n)) = length l ∧
  ∀ i, foldl (λ l i, <[i := v]> l) l (seq 0 n) !! i = if decide (i < n)%nat then Some v else l !! i.
Proof.
  induction n as [|n IH]; intros l Hn; [by split|].
  rewrite seq_S, foldl_app. simpl. destruct (IH l ltac:(lia)) as [Hl Hi].
  rewrite length_insert. split; [done|]. intros i. destruct (decide (i = n)) as [->|Hne].
  - rewrite list_lookup_insert_eq by lia. by rewrite decide_True by lia.
  - rewrite list_lookup_insert_ne, Hi by done. repeat case_decide; (done || lia).
Qed.

Lemma any_runnable_spec s : any_runnable s = true ↔ ∃ i, positive s i.
Proof.
  unfold any_runnable, positive. rewrite existsb_exists. setoid_rewrite <- list_elem_of_In.
  setoid_rewrite elem_of_seq. setoid_rewrite Z.ltb_lt. split; intros (i & H); exists i; lia.
Qed.

(** The credits after the quantum of [id] alone. *)
Definition spent (s : CreditScheduler) (id i : nat) : Z := if decide (i = id) then 0 else credit_at s i.

Lemma consume_spec s id : sched_ok s →
  let s' := consume_quantum s id in
  sched_ok s' ∧ count s' = count s ∧
  ((∃ i, (i < count s)%nat ∧ 0 < spent s id i) ∧ (∀ i, (i < count s)%nat → credit_at s' i = spent s id i) ∨
   (∀ i, (i < count s)%nat → spent s id i ≤ 0) ∧ (∀ i, (i < count s)%nat → credit_at s' i = DEFAULT_CREDIT)).
Proof.
  intros [Hl Hc] s'. unfold s', consume_quantum, consume_quantum_amount.
  set (s0 := if (id <? count s)%nat then _ else _).
  assert (count s0 = count s ∧ length (credits s0) = 8%nat ∧
    ∀ i, (i < count s)%nat → credit_at s0 i = spent s id i) as (Hc0 & Hl0 & H0).
  { unfold s0, spent. destruct (Nat.ltb_spec id (count s)) as [Hlt|Hge]; simpl.
    - rewrite length_insert. split_and!; [done|done|]. intros i Hi. unfold credit_at. simpl.
      case_decide as E; [subst; by rewrite list_lookup_insert_eq by lia|].
      by rewrite list_lookup_insert_ne.
    - split_and!; [done|done|]. intros i Hi. by rewrite decide_False by lia. }
  clearbody s0. destruct (any_runnable s0) eqn:E.
  - apply any_runnable_spec in E as (i & Hi & Hp). rewrite Hc0 in Hi. rewrite H0 in Hp by done.
    split_and!; [constructor; lia|done|]. left. split; [by exists i|done].
  - destruct (foldl_insert_all DEFAULT_CREDIT (count s0) (credits s0) ltac:(lia)) as [Hl1 Hi1].
    split_and!; [constructor; simpl; lia|done|]. right. split.
    + intros i Hi. destruct (Z.le_gt_cases (spent s id i) 0) as [|Hp]; [done|].
      assert (any_runnable s0 = true); [|congruence]. apply any_runnable_spec. exists i.
      split; [lia|]. rewrite H0; lia.
    + intros i Hi. unfold credit_at. simpl. by rewrite Hi1, decide_True by lia.
Qed.

Lemma consume_positive s id : sched_ok s → (0 < count s)%nat → ∃ i, positive (consume_quantum s id) i.
Proof.
  intros Hs Hc. destruct (consume_spec s id Hs) as (_ & Hc' & [[(i & Hi & Hp) Hcr]|[_ Hcr]]).
  - exists i. split; [lia|]. by rewrite Hcr.
  - exists 0%nat. split; [lia|]. by rewrite Hcr.
Qed.

(** The number of runnable slots. *)
Definition runnable_slots (s : CreditScheduler) : list nat :=
  filter (λ i, 0 < credit_at s i) (seq 0 (count s)).

Lemma elem_runnable s i : i ∈ runnable_slots s ↔ positive s i.
Proof. unfold runnable_slots, positive. rewrite list_elem_of_filter, elem_of_seq. lia. Qed.

Lemma runnable_slots_le s : (length (runnable_slots s) ≤ count s)%nat.
Proof. unfold runnable_slots. pose proof (length_filter (λ i, 0 < credit_at s i) (seq 0 (count s))) as H.
  rewrite length_seq in H. exact H. Qed.

(** Spending the quantum of a runnable slot, when another stays runnable, takes
    exactly that slot out of the runnable ones. *)
Lemma consume_runnable s j i : sched_ok s → positive s j → positive s i → i ≠ j →
  positive (consume_quantum s j) i ∧
  (length (runnable_slots (consume_quantum s j)) < length (runnable_slots s))%nat.
Proof.
  intros Hs [Hj Hpj] [Hi Hpi] Hne. destruct (consume_spec s j Hs) as (Hs' & Hc' & [[_ Hcr]|[Hz _]]).
  2:{ specialize (Hz i Hi). unfold spent in Hz. rewrite decide_False in Hz by done. lia. }
  assert (∀ k, positive (consume_quantum s j) k ↔ positive s k ∧ k ≠ j) as Hpos.
  { intros k. unfold positive. rewrite Hc'. split.
    - intros [Hk Hp]. rewrite Hcr in Hp by done. unfold spent in Hp. case_decide; [lia|done].
    - intros [[Hk Hp] Hkj]. split; [done|]. rewrite Hcr by done. unfold spent. by rewrite decide_False. }
  split; [by apply Hpos|].
  assert (j :: runnable_slots (consume_quantum s j) ⊆+ runnable_slots s) as Hsub%submseteq_length;
    [|simpl in Hsub; lia].
  apply NoDup_submseteq.
  - constructor; [|apply NoDup_filter, NoDup_seq]. rewrite elem_runnable, Hpos. tauto.
  - intros k [->|Hk]%elem_of_cons; apply elem_runnable; [done|]. by apply elem_runnable, Hpos in Hk as [? _].
Qed.

(** ** Bounded waiting *)

Section Fairness.
Context (f : Latches) (Hladder : M4_LADDER_DONE f = false) (Hg0 : G0_VMPTRLD_FAILED f = false).

Lemma redirect_id cur next : redirect f cur next = next.
Proof. unfold redirect. rewrite Hladder, Hg0. simpl. by rewrite andb_false_r. Qed.

Lemma preempt_spec s cur : sched_ok s → (0 < count s)%nat →
  ∃ j, schedule_preempt f s cur = (consume_quantum s cur, Ok j) ∧ positive (consume_quantum s cur) j.
Proof.
  intros Hs Hc. unfold schedule_preempt. pose proof (pick_next_fair_spec (consume_quantum s cur) (Some cur)) as H.
  destruct (pick_next_fair _ _) as [j|e].
  - exists j. rewrite redirect_id. split; [done|apply H].
  - destruct (consume_positive s cur Hs Hc) as [i Hi]. by destruct (H i).
Qed.

Lemma ticks_mono n n' s cur i : (n ≤ n')%nat → i ∈ ticks f n s cur → i ∈ ticks f n' s cur.
Proof.
  revert n' s cur. induction n as [|n IH]; intros n' s cur Hn Hi; [by apply elem_of_nil in Hi|].
  destruct n' as [|n']; [lia|]. cbn [ticks] in *. destruct (schedule_preempt f s cur) as [s' [j|e]]; [|by apply elem_of_nil in Hi].
  apply elem_of_cons in Hi as [->|Hi]; apply elem_of_cons; [by left|right]. apply IH; [lia|done].
Qed.

(** A runnable slot runs before the runnable slots are used up. *)
Lemma runnable_served k : ∀ s cur i, sched_ok s → positive (consume_quantum s cur) i →
  (length (runnable_slots (consume_quantum s cur)) ≤ k)%nat → i ∈ ticks f k s cur.
Proof.
  induction k as [|k IH]; intros s cur i Hs Hi Hk.
  { apply elem_runnable in Hi. destruct (runnable_slots _); [by apply elem_of_nil in Hi|simpl in Hk; lia]. }
  destruct (consume_spec s cur Hs) as (Hs' & Hc' & _). pose proof Hi as [Hlt _].
  destruct (preempt_spec s cur Hs ltac:(lia)) as (j & E & Hj). cbn [ticks Nat.add]. rewrite E. apply elem_of_cons.
  destruct (decide (i = j)) as [->|Hne]; [by left|right].
  destruct (consume_runnable _ j i Hs' Hj Hi Hne) as [Hi' Hm]. apply IH; [done|done|lia].
Qed.

Lemma waiting_served k : ∀ s cur i, sched_ok s → (i < count s)%nat →
  (length (runnable_slots (consume_quantum s cur)) ≤ k)%nat → i ∈ ticks f (k + count s) s cur.
Proof.
  induction k as [|k IH]; intros s cur i Hs Hi Hk.
  { destruct (consume_positive s cur Hs ltac:(lia)) as [j Hj%elem_runnable].
    destruct (runnable_slots _); [by apply elem_of_nil in Hj|simpl in Hk; lia]. }
  destruct (consume_spec s cur Hs) as (Hs' & Hc' & _). set (s' := consume_quantum s cur) in *.
  destruct (decide (i ∈ runnable_slots s')) as [Hr|Hr].
  { apply (ticks_mono (S k)); [lia|]. apply runnable_served; [done|by apply elem_runnable|done]. }
  destruct (preempt_spec s cur Hs ltac:(lia)) as (j & E & Hj). cbn [ticks Nat.add]. rewrite E. fold s'.
  apply elem_of_cons. right.
  destruct (consume_spec s' j Hs') as (Hs'' & Hc'' & [[(i' & Hi' & Hp) Hcr]|[_ Hcr]]).
  - assert (positive s' i') as Hpi'. { split; [done|]. unfold spent in Hp. case_decide; [lia|done]. }
    assert (i' ≠ j) as Hne. { intros ->. unfold spent in Hp. rewrite decide_True in Hp by done. lia. }
    destruct (consume_runnable s' j i' Hs' Hj Hpi' Hne) as [_ Hm].
    rewrite <- Hc'. apply IH; [done|lia|lia].
  - apply (ticks_mono (count s)); [lia|]. apply runnable_served; [done| |].
    + split; [lia|]. by rewrite Hcr by lia.
    + pose proof (runnable_slots_le (consume_quantum s' j)). lia.
Qed.

End Fairness.

(** ** Theorems *)

(** C10: no starvation. From any scheduler state and any running slot, with no
    launch latch set, every registered slot runs within twice as many ticks as
    there are slots. *)
Theorem sched_no_starvation f s cur i : M4_LADDER_DONE f = false → G0_VMPTRLD_FAILED f = false →
  sched_ok s → (i < count s)%nat → i ∈ ticks f (2 * count s) s cur.
Proof.
  intros Hf1 Hf2 Hs Hi. apply (ticks_mono f (count s + count s)); [lia|].
  apply waiting_served; [done..|]. destruct (consume_spec s cur Hs) as (_ & <- & _).
  apply runnable_slots_le.
Qed.

(** The fair pick is exact: it fails only when no slot has credit left, and
    otherwise returns a slot of the largest credit; when that is the slot to avoid,
    no other slot has as much. *)
Theorem pick_next_fair_exact s prefer_not :
  (pick_next_fair s prefer_not = Err NoRunnable ↔ ∀ i, (i < count s)%nat → credit_at s i ≤ 0) ∧
  ∀ b, pick_next_fair s prefer_not = Ok b →
    (b < count s)%nat ∧ 0 < credit_at s b ∧
    (∀ i, (i < count s)%nat → credit_at s i ≤ credit_at s b) ∧
    (prefer_not = Some b → ∀ i, (i < count s)%nat → i ≠ b → credit_at s i < credit_at s b).
Proof.
  pose proof (pick_next_fair_spec s prefer_not) as H. destruct (pick_next_fair s prefer_not) as [b|[]].
  - destruct H as ([Hb Hp] & Hmax & Hpn). split.
    + split; [done|]. intros Hz. specialize (Hz b Hb). lia.
    + intros b' [= <-]. split_and!; try done. intros E i Hi Hne. specialize (Hmax i Hi).
      destruct (Z.eq_dec (credit_at s i) (credit_at s b)); [|lia]. by destruct Hne; apply Hpn.
  - split; [|done]. split; [|done]. intros _ i Hi. destruct (Z.le_gt_cases (credit_at s i) 0); [done|].
    destruct (H i). by split.
Qed.

(** Once the ladder is done and the bring-up guest's VMCS loads, a tick goes to
    slot 0 or to a launched, loadable slot 1, never to a parked slot. *)
Theorem parked_slots_never_run f s cur s' next :
  M4_LADDER_DONE f = true → G0_VMPTRLD_FAILED f = false →
  schedule_preempt f s cur = (s', Ok next) →
  next = 0%nat ∨ next = 1%nat ∧ SPA_RUNNABLE f = true ∧ SPA_VMPTRLD_FAILED f = false.
Proof.
  intros Hl Hg. unfold schedule_preempt. destruct (pick_next_fair _ _) as [n|e]; [|done].
  intros [= <- <-]. unfold redirect. rewrite Hl, Hg. destruct n as [|[|n]];
    destruct (SPA_LAUNCHED f), (G0_VMCS_RELOCATED f), (SPA_RUNNABLE f), (SPA_VMPTRLD_FAILED f);
    simpl; auto.
Qed.

(** *** The VMX lifecycle as a trace *)

Inductive VmxOp := OpEnable (hw : result unit VmxError) | OpDisable (hw : result unit VmxError).

Definition vmx_step (st : VmxState) (op : VmxOp) : VmxState * result unit VmxError :=
  match op with OpEnable hw => enable st hw | OpDisable hw => disable st hw end.

(** The operations that succeeded, in order: [true] for an enable. *)
Fixpoint vmx_successes (st : VmxState) (ops : list VmxOp) : list bool :=
  match ops with
  | [] => []
  | op :: ops =>
      let '(st', r) := vmx_step st op in
      (if is_ok r then [match op with OpEnable _ => true | OpDisable _ => false end] else [])
      ++ vmx_successes st' ops
  end.

(** In any sequence of lifecycle calls, whatever the instructions report, the
    successful ones alternate, VMXON first: no VMXON in root operation, no VMXOFF
    outside it. *)
Theorem vmx_lifecycle_alternates ops :
  ∀ i b, vmx_successes Off ops !! i = Some b → b = Nat.even i.
Proof.
  assert (∀ st i b, vmx_successes st ops !! i = Some b →
    b = match st with Off => Nat.even i | Root => negb (Nat.even i) end) as H; [|by apply (H Off)].
  induction ops as [|op ops IH]; intros st i b; [done|].
  cbn [vmx_successes]. destruct (vmx_step st op) as [st' r] eqn:E.
  destruct op as [hw|hw], st; cbn in E; destruct hw as [[]|e]; cbn in E; injection E as <- <-;
    cbn [is_ok app]; try apply IH; (destruct i as [|i]; [intros [= <-]; done|]; cbn [lookup list_lookup]);
    intros ->%IH; rewrite Nat.even_succ, <- Nat.negb_even; try done; by rewrite negb_involutive.
Qed.

(** ** Witnesses *)

Definition no_latches : Latches := mkLatches false false false false false false.
Definition demo_sched : CreditScheduler := (enter_sched_mode no_latches 4 3).1.

Lemma sched_no_starvation_witness :
  ticks no_latches 8 demo_sched 0 = [1; 2; 0; 1; 2; 3; 0; 1]%nat ∧
  3%nat ∈ ticks no_latches 8 demo_sched 0.
Proof.
  split; [reflexivity|].
  refine (sched_no_starvation no_latches demo_sched 0 3 eq_refl eq_refl _ _);
    [by constructor; vm_compute; repeat constructor|vm_compute; repeat constructor].
Defined.

Definition ladder_latches : Latches := mkLatches true true true false true false.

Lemma parked_slots_never_run_witness :
  (schedule_preempt ladder_latches demo_sched 1).2 = Ok 0%nat ∧
  (0%nat = 0%nat ∨ 0%nat = 1%nat ∧ SPA_RUNNABLE ladder_latches = true ∧ SPA_VMPTRLD_FAILED ladder_latches = false).
Proof.
  split; [reflexivity|].
  exact (parked_slots_never_run ladder_latches demo_sched 1 _ 0%nat eq_refl eq_refl eq_refl).
Defined.

End Sched.
