(* ===== verification/Firewall.v ===== *)
(** * Guest access policies

    The decisions the hypervisor takes on a guest's privileged accesses:
    [sched/msr_firewall.rs] (RDMSR/WRMSR classification, shadows, the CPUID
    filter), [sched/interrupt.rs] (injection words), [sched/ipi.rs] and
    [sched/hypercall.rs]. *)

From S2P Require Import Prelude.

Module Firewall.

(** ** Model-specific registers *)

Definition MSR_TSC : Z := 0x10.
Definition MSR_APIC_BASE : Z := 0x1B.
Definition MSR_FEATURE_CONTROL : Z := 0x3A.
Definition MSR_SPEC_CTRL : Z := 0x48.
Definition MSR_PRED_CMD : Z := 0x49.
Definition MSR_BIOS_SIGN_ID : Z := 0x8B.
Definition MSR_MTRRCAP : Z := 0xFE.
Definition MSR_SYSENTER_CS : Z := 0x174.
Definition MSR_SYSENTER_ESP : Z := 0x175.
Definition MSR_SYSENTER_EIP : Z := 0x176.
Definition MSR_MISC_ENABLE : Z := 0x1A0.
Definition MSR_PAT : Z := 0x277.
Definition MSR_MTRR_DEF_TYPE : Z := 0x2FF.
Definition MSR_EFER : Z := 0xC0000080.
Definition MSR_STAR : Z := 0xC0000081.
Definition MSR_LSTAR : Z := 0xC0000082.
Definition MSR_CSTAR : Z := 0xC0000083.
Definition MSR_SFMASK : Z := 0xC0000084.
Definition MSR_FS_BASE : Z := 0xC0000100.
Definition MSR_GS_BASE : Z := 0xC0000101.
Definition MSR_KERNEL_GS_BASE : Z := 0xC0000102.
Definition MSR_TSC_AUX : Z := 0xC0000103.
Definition MSR_VMX_BASIC : Z := 0x480.
Definition MSR_VMX_VMFUNC : Z := 0x491.

Inductive MsrAccess := Read | Write.
Inductive FirewallDecision := Allow | Block.
Inductive MsrAction :=
| HostPassthrough | VmcsEfer | VmcsPat | VmcsSysenterCs | VmcsSysenterEsp | VmcsSysenterEip
| VmcsFsBase | VmcsGsBase | Shadow | ReadZero | IgnoreWrite | InjectGp.

#[global] Instance MsrAction_eq_dec : EqDecision MsrAction.
Proof. solve_decision. Defined.
#[global] Instance FirewallDecision_eq_dec : EqDecision FirewallDecision.
Proof. solve_decision. Defined.

Definition classify_msr (index : Z) (access : MsrAccess) : MsrAction :=
  if (MSR_VMX_BASIC <=? index) && (index <=? MSR_VMX_VMFUNC) then InjectGp
  else if index =? MSR_FEATURE_CONTROL then InjectGp
  else if index =? MSR_APIC_BASE then Shadow
  else if index =? MSR_TSC then match access with Read => HostPassthrough | Write => IgnoreWrite end
  else if index =? MSR_EFER then VmcsEfer
  else if index =? MSR_PAT then VmcsPat
  else if index =? MSR_SYSENTER_CS then VmcsSysenterCs
  else if index =? MSR_SYSENTER_ESP then VmcsSysenterEsp
  else if index =? MSR_SYSENTER_EIP then VmcsSysenterEip
  else if index =? MSR_FS_BASE then VmcsFsBase
  else if index =? MSR_GS_BASE then VmcsGsBase
  else if (index =? MSR_STAR) || (index =? MSR_LSTAR) || (index =? MSR_CSTAR)
          || (index =? MSR_SFMASK) || (index =? MSR_KERNEL_GS_BASE) || (index =? MSR_TSC_AUX)
  then HostPassthrough
  else if index =? MSR_SPEC_CTRL then Shadow
  else if index =? MSR_PRED_CMD then match access with Write => IgnoreWrite | Read => ReadZero end
  else if (index =? MSR_BIOS_SIGN_ID) || (index =? MSR_MTRRCAP) || (index =? MSR_MISC_ENABLE)
          || (index =? MSR_MTRR_DEF_TYPE)
  then match access with Read => HostPassthrough | Write => IgnoreWrite end
  else match access with Read => ReadZero | Write => IgnoreWrite end.

Definition check_msr (index : Z) (access : MsrAccess) : FirewallDecision :=
  match classify_msr index access with InjectGp => Block | _ => Allow end.

(** The shadow statics. *)
Record Shadows := mkShadows { SHADOW_SPEC_CTRL : Z; SHADOW_APIC_BASE : Z }.

Definition shadows_init : Shadows := mkShadows 0 (Z.lor 0xFEE00000 (Z.shiftl 1 11)).

Definition shadow_read (s : Shadows) (index : Z) : Z :=
  if index =? MSR_SPEC_CTRL then SHADOW_SPEC_CTRL s
  else if index =? MSR_APIC_BASE then SHADOW_APIC_BASE s
  else 0.

Definition shadow_write (s : Shadows) (index value : Z) : Shadows :=
  if index =? MSR_SPEC_CTRL then mkShadows value (SHADOW_APIC_BASE s)
  else if index =? MSR_APIC_BASE then mkShadows (SHADOW_SPEC_CTRL s) value
  else s.

(** ** CPUID *)

Record CpuidRegs := mkCpuid { eax : Z; ebx : Z; ecx : Z; edx : Z }.

Definition CPUID_ECX_VMX : Z := Z.shiftl 1 5.
Definition CPUID_EDX_APIC : Z := Z.shiftl 1 9.
Definition CPUID_ECX_X2APIC : Z := Z.shiftl 1 21.
Definition CPUID_ECX_TSC_DEADLINE : Z := Z.shiftl 1 24.
Definition CPUID_LEAF7_ECX_LA57 : Z := Z.shiftl 1 16.
Definition CPUID_LEAF7_EBX_CLFLUSHOPT : Z := Z.shiftl 1 23.
Definition CPUID_LEAF7_EBX_CLWB : Z := Z.shiftl 1 24.
Definition CPUID_LEAF7_ECX_WAITPKG : Z := Z.shiftl 1 5.

(** [r] is what the processor answers; the flag is [CPUID_FILTER_OK]. *)
Definition note_leaf1_filtered (ok : bool) (c : Z) : bool :=
  if Z.land c CPUID_ECX_VMX =? 0 then true else ok.

Definition filter_cpuid (ok : bool) (leaf subleaf : Z) (r : CpuidRegs) : bool * CpuidRegs :=
  let '(ok, out) :=
    if leaf =? 1 then
      let c := Z.land (ecx r) (bnot32 CPUID_ECX_VMX) in
      let c := Z.land c (bnot32 CPUID_ECX_TSC_DEADLINE) in
      let c := Z.lor c CPUID_ECX_X2APIC in
      let d := Z.lor (edx r) CPUID_EDX_APIC in
      (note_leaf1_filtered ok c, mkCpuid (eax r) (ebx r) c d)
    else (ok, r) in
  if (leaf =? 7) && (subleaf =? 0) then
    (ok, mkCpuid (eax out)
      (Z.land (ebx out) (bnot32 (Z.lor CPUID_LEAF7_EBX_CLFLUSHOPT CPUID_LEAF7_EBX_CLWB)))
      (Z.land (ecx out) (bnot32 (Z.lor CPUID_LEAF7_ECX_LA57 CPUID_LEAF7_ECX_WAITPKG)))
      (edx out))
  else (ok, out).

Definition vmx_hidden (r : CpuidRegs) : bool := Z.land (ecx r) CPUID_ECX_VMX =? 0.

(** ** Injection *)

Definition INTR_TYPE_EXTERNAL : Z := 0.
Definition INTR_INFO_VALID : Z := Z.shiftl 1 31.

Inductive InjectError := InvalidVector | NotRunning.

Definition validate_vector (vector : Z) : result Z InjectError :=
  if 255 <? vector then Err InvalidVector else Ok vector.

Definition pack_entry_intr_info (vector type_ : Z) : Z :=
  Z.lor (Z.lor vector (Z.shiftl (Z.land type_ 7) 8)) INTR_INFO_VALID.

Definition prepare_external_inject (vector : Z) : result Z InjectError :=
  let? v := validate_vector vector in
  Ok (pack_entry_intr_info v INTR_TYPE_EXTERNAL).

(** ** Inter-processor interrupts and hypercalls *)

Inductive IpiError := TargetNotOwned | InvalidTarget.

Definition validate_ipi_target (sender_guest target_guest apic_id : Z) : result unit IpiError :=
  if apic_id =? 0xFFFFFFFF then Err InvalidTarget
  else if negb (sender_guest =? target_guest) then Err TargetNotOwned
  else Ok ().

Inductive HypercallError := UnknownNr | InvalidArg.

Definition dispatch (nr arg0 : Z) : result Z HypercallError :=
  if nr =? 0 then Ok 0 else Err UnknownNr.

(** ** Lemmas *)

Lemma bit_clear_mask x m n : 0 ≤ n < 32 →
  Z.testbit (Z.land x (bnot32 m)) n = Z.testbit x n && negb (Z.testbit m n).
Proof.
  intros Hn. unfold bnot32. rewrite Z.land_spec, Z.lxor_spec, Z.ones_spec_low by lia. by rewrite xorb_true_r.
Qed.

Lemma testbit_pow k n : 0 ≤ k → Z.testbit (Z.shiftl 1 k) n = (k =? n).
Proof. intros Hk. rewrite Z.shiftl_1_l. by apply Z.pow2_bits_eqb. Qed.

Lemma land_pow_zero x k : 0 ≤ k → (Z.land x (Z.shiftl 1 k) =? 0) = negb (Z.testbit x k).
Proof.
  intros Hk. apply eq_true_iff_eq. rewrite Z.eqb_eq, negb_true_iff. split.
  - intros E. assert (Z.testbit (Z.land x (Z.shiftl 1 k)) k = false) as Hb by (rewrite E; apply Z.testbit_0_l).
    rewrite Z.land_spec, testbit_pow, Z.eqb_refl, andb_true_r in Hb; done.
  - intros Hb. apply Z.bits_inj_0. intros n. rewrite Z.land_spec, testbit_pow by done.
    destruct (Z.eqb_spec k n) as [->|]; [by rewrite Hb|apply andb_false_r].
Qed.

(** ** Theorems *)

(** The registers whose writes reach the processor. *)
Definition syscall_msrs : list Z :=
  [MSR_STAR; MSR_LSTAR; MSR_CSTAR; MSR_SFMASK; MSR_KERNEL_GS_BASE; MSR_TSC_AUX].

Definition vmx_capability (index : Z) : Prop := MSR_VMX_BASIC ≤ index ≤ MSR_VMX_VMFUNC.

(** The MSR policy. A guest access faults exactly for the VMX capability
    registers and the feature control; a guest write reaches the processor exactly
    for the six system-call registers, and a guest read for those, the TSC and the
    four harmless probes. *)
Theorem msr_policy_exact index access :
  (check_msr index access = Block ↔ vmx_capability index ∨ index = MSR_FEATURE_CONTROL) ∧
  (classify_msr index Write = HostPassthrough ↔ index ∈ syscall_msrs) ∧
  (classify_msr index Read = HostPassthrough ↔
     index ∈ syscall_msrs ++ [MSR_TSC; MSR_BIOS_SIGN_ID; MSR_MTRRCAP; MSR_MISC_ENABLE; MSR_MTRR_DEF_TYPE]).
Proof.
  unfold check_msr, classify_msr, vmx_capability, syscall_msrs. cbn [app].
  rewrite !elem_of_cons, !elem_of_nil.
  unfold MSR_VMX_BASIC, MSR_VMX_VMFUNC, MSR_FEATURE_CONTROL, MSR_APIC_BASE, MSR_TSC, MSR_EFER, MSR_PAT,
    MSR_SYSENTER_CS, MSR_SYSENTER_ESP, MSR_SYSENTER_EIP, MSR_FS_BASE, MSR_GS_BASE, MSR_STAR, MSR_LSTAR,
    MSR_CSTAR, MSR_SFMASK, MSR_KERNEL_GS_BASE, MSR_TSC_AUX, MSR_SPEC_CTRL, MSR_PRED_CMD,
    MSR_BIOS_SIGN_ID, MSR_MTRRCAP, MSR_MISC_ENABLE, MSR_MTRR_DEF_TYPE.
  destruct (_ && _) eqn:E0; [destruct access; split_and!; split; try done; lia|].
  repeat match goal with
  | |- context [index =? ?k] => destruct (Z.eqb_spec index k); [subst index; destruct access; split_and!; split; (done || lia || auto 20)|]
  end; simpl; destruct access; split_and!; split; (done || lia).
Qed.

(** The CPUID filter hides VMX and the TSC deadline and shows the APIC bits on
    leaf 1, hides the four instructions on leaf 7.0, and changes no other bit of
    any leaf. *)
Theorem filter_cpuid_exact ok leaf subleaf r n : 0 ≤ n < 32 →
  let out := (filter_cpuid ok leaf subleaf r).2 in
  let leaf1 := leaf =? 1 in
  let leaf7 := (leaf =? 7) && (subleaf =? 0) in
  eax out = eax r ∧
  Z.testbit (ecx out) n =
    (if leaf1 then (n =? 21) || Z.testbit (ecx r) n && negb ((n =? 5) || (n =? 24))
     else Z.testbit (ecx r) n && negb (leaf7 && ((n =? 16) || (n =? 5)))) ∧
  Z.testbit (edx out) n = Z.testbit (edx r) n || leaf1 && (n =? 9) ∧
  Z.testbit (ebx out) n = Z.testbit (ebx r) n && negb (leaf7 && ((n =? 23) || (n =? 24))) ∧
  (leaf = 1 → vmx_hidden out = true ∧ (filter_cpuid ok leaf subleaf r).1 = true).
Proof.
  intros Hn. unfold filter_cpuid, vmx_hidden, note_leaf1_filtered, CPUID_ECX_VMX, CPUID_EDX_APIC,
    CPUID_ECX_X2APIC, CPUID_ECX_TSC_DEADLINE, CPUID_LEAF7_ECX_LA57, CPUID_LEAF7_EBX_CLFLUSHOPT,
    CPUID_LEAF7_EBX_CLWB, CPUID_LEAF7_ECX_WAITPKG.
  destruct (Z.eqb_spec leaf 1) as [->|Hl1].
  - cbn [fst snd eax ebx ecx edx Z.eqb Pos.eqb andb negb]. rewrite !land_pow_zero by lia.
    rewrite !Z.lor_spec, !bit_clear_mask, !testbit_pow by lia.
    rewrite (Z.eqb_sym 5 n), (Z.eqb_sym 24 n), (Z.eqb_sym 21 n), (Z.eqb_sym 9 n).
    split_and!; [done| |done|by rewrite andb_true_r|].
    + destruct (n =? 21), (Z.testbit (ecx r) n), (n =? 5), (n =? 24); done.
    + intros _. by destruct (Z.testbit (ecx r) 5).
  - destruct ((leaf =? 7) && (subleaf =? 0)); cbn [fst snd eax ebx ecx edx andb].
    + rewrite !bit_clear_mask, !Z.lor_spec, !testbit_pow by lia.
      rewrite (Z.eqb_sym 5 n), (Z.eqb_sym 16 n), (Z.eqb_sym 23 n), (Z.eqb_sym 24 n).
      split_and!; [done|done|by rewrite orb_false_r|done|done].
    + rewrite orb_false_r, !andb_true_r. by split_and!.
Qed.

(** An injection word names exactly the validated vector: it is produced exactly
    for vectors below 256, and its fields read back the vector, the external type
    and the valid bit. *)
Theorem inject_word_exact vector : 0 ≤ vector →
  (vector < 256 → ∃ w, prepare_external_inject vector = Ok w ∧ Z.land w 0xff = vector ∧
     Z.land (Z.shiftr w 8) 7 = INTR_TYPE_EXTERNAL ∧ Z.testbit w 31 = true ∧ 0 ≤ w < 2 ^ 32) ∧
  (256 ≤ vector → prepare_external_inject vector = Err InvalidVector).
Proof.
  intros Hv. unfold prepare_external_inject, validate_vector. split.
  - intros Hlt. rewrite (proj2 (Z.ltb_ge 255 vector)) by lia. eexists. split; [reflexivity|].
    unfold pack_entry_intr_info, INTR_TYPE_EXTERNAL, INTR_INFO_VALID.
    change (Z.shiftl (Z.land 0 7) 8) with 0. rewrite Z.lor_0_r.
    assert (Z.lor vector (Z.shiftl 1 31) = vector + 2147483648) as ->.
    { change (Z.shiftl 1 31) with (4096 * 524288). rewrite lor_page by lia. lia. }
    change 0xff with (Z.ones 8). change 7 with (Z.ones 3). rewrite !Z.land_ones by lia.
    rewrite Z.shiftr_div_pow2, Z.testbit_eqb by lia. change (2 ^ 31) with 2147483648.
    change (2 ^ 8) with 256. change (2 ^ 3) with 8. change (2 ^ 32) with 4294967296.
    split_and!; [dlia|dlia| |lia|lia]. apply Z.eqb_eq. dlia.
  - intros Hge. by rewrite (proj2 (Z.ltb_lt 255 vector)) by lia.
Qed.

(** ** Witnesses *)

Lemma filter_cpuid_exact_witness :
  vmx_hidden (filter_cpuid false 1 0 (mkCpuid 0 0 0xffffffff 0)).2 = true.
Proof.
  refine (proj1 (proj2 (proj2 (proj2 (proj2 (filter_cpuid_exact false 1 0 (mkCpuid 0 0 0xffffffff 0) 0 _)))) eq_refl)).
  lia.
Defined.

Lemma inject_word_exact_witness :
  (∃ w, prepare_external_inject 0x21 = Ok w ∧ Z.land w 0xff = 0x21) ∧
  prepare_external_inject 256 = Err InvalidVector.
Proof.
  split; [|refine (proj2 (inject_word_exact 256 _) _); lia].
  destruct (proj1 (inject_word_exact 0x21 ltac:(lia)) ltac:(lia)) as (w & E & V & _).
  exists w. split; [exact E|exact V].
Defined.

End Firewall.
