(* ===== verification/Lapic.v ===== *)
(** * The virtual local APIC

    [devices/lapic_virt.rs]: the request and in-service registers, priorities,
    end of interrupt, self-IPIs, the countdown timer, the register file behind the
    x2APIC MSRs and the xAPIC page, and the MSR bitmap that traps them. The time
    stamp counter is an input of the operations that read it, one argument per
    read. *)

From Stdlib Require Import Sorting.Sorted.
From S2P Require Import Prelude.

Module Lapic.

Definition APIC_GPA : Z := 0xFEE00000.
Definition X2APIC_MSR_BASE : Z := 0x800.
Definition X2APIC_MSR_LAST : Z := 0x83F.

Definition REG_ID : Z := 0x20.
Definition REG_VERSION : Z := 0x30.
Definition REG_TPR : Z := 0x80.
Definition REG_PPR : Z := 0xA0.
Definition REG_EOI : Z := 0xB0.
Definition REG_SVR : Z := 0xF0.
Definition REG_ISR_BASE : Z := 0x100.
Definition REG_IRR_BASE : Z := 0x200.
Definition REG_LVT_TIMER : Z := 0x320.
Definition REG_INIT_COUNT : Z := 0x380.
Definition REG_CUR_COUNT : Z := 0x390.
Definition REG_DIVIDE : Z := 0x3E0.
Definition REG_ICR_LOW : Z := 0x300.
Definition REG_ICR_HIGH : Z := 0x310.

Definition LVT_MASKED : Z := Z.shiftl 1 16.
Definition LVT_PERIODIC : Z := Z.shiftl 1 17.
Definition SVR_ENABLED : Z := Z.shiftl 1 8.
Definition XAPIC_VERSION : Z := 0x00050014.
Definition TSC_PER_BUS_CYCLE : Z := 32.

(** ** The statics *)

Record Lapic := mkLapic {
  APIC_ID : Z;
  APIC_TPR : Z;
  APIC_SVR : Z;
  APIC_LVT_TIMER : Z;
  APIC_DIVIDE : Z;
  APIC_INIT_COUNT : Z;
  APIC_ISR : list Z;
  APIC_IRR : list Z;
  HOST_TIMER_FOR_GUEST : bool;
  GTIMER3_OK : bool;
  GTIMER3_PRINT : bool;
  APIC_OK : bool;
  APIC_OK_PRINT : bool;
  PENDING_VECTOR : option Z;
  TIMER_RELA_TSC : Z;
  TIMER_START_TSC : Z;
  TIMER_RUNNING : bool;
  APIC_ICR_HIGH : Z;
  SELF_IPI_MASK : list Z;
}.

Definition set_tpr (s : Lapic) (v : Z) : Lapic :=
  mkLapic (APIC_ID s) v (APIC_SVR s) (APIC_LVT_TIMER s) (APIC_DIVIDE s) (APIC_INIT_COUNT s) (APIC_ISR s) (APIC_IRR s) (HOST_TIMER_FOR_GUEST s) (GTIMER3_OK s) (GTIMER3_PRINT s) (APIC_OK s) (APIC_OK_PRINT s) (PENDING_VECTOR s) (TIMER_RELA_TSC s) (TIMER_START_TSC s) (TIMER_RUNNING s) (APIC_ICR_HIGH s) (SELF_IPI_MASK s).
Definition set_svr (s : Lapic) (v : Z) : Lapic :=
  mkLapic (APIC_ID s) (APIC_TPR s) v (APIC_LVT_TIMER s) (APIC_DIVIDE s) (APIC_INIT_COUNT s) (APIC_ISR s) (APIC_IRR s) (HOST_TIMER_FOR_GUEST s) (GTIMER3_OK s) (GTIMER3_PRINT s) (APIC_OK s) (APIC_OK_PRINT s) (PENDING_VECTOR s) (TIMER_RELA_TSC s) (TIMER_START_TSC s) (TIMER_RUNNING s) (APIC_ICR_HIGH s) (SELF_IPI_MASK s).
Definition set_lvt (s : Lapic) (v : Z) : Lapic :=
  mkLapic (APIC_ID s) (APIC_TPR s) (APIC_SVR s) v (APIC_DIVIDE s) (APIC_INIT_COUNT s) (APIC_ISR s) (APIC_IRR s) (HOST_TIMER_FOR_GUEST s) (GTIMER3_OK s) (GTIMER3_PRINT s) (APIC_OK s) (APIC_OK_PRINT s) (PENDING_VECTOR s) (TIMER_RELA_TSC s) (TIMER_START_TSC s) (TIMER_RUNNING s) (APIC_ICR_HIGH s) (SELF_IPI_MASK s).
Definition set_divide (s : Lapic) (v : Z) : Lapic :=
  mkLapic (APIC_ID s) (APIC_TPR s) (APIC_SVR s) (APIC_LVT_TIMER s) v (APIC_INIT_COUNT s) (APIC_ISR s) (APIC_IRR s) (HOST_TIMER_FOR_GUEST s) (GTIMER3_OK s) (GTIMER3_PRINT s) (APIC_OK s) (APIC_OK_PRINT s) (PENDING_VECTOR s) (TIMER_RELA_TSC s) (TIMER_START_TSC s) (TIMER_RUNNING s) (APIC_ICR_HIGH s) (SELF_IPI_MASK s).
Definition set_init (s : Lapic) (v : Z) : Lapic :=
  mkLapic (APIC_ID s) (APIC_TPR s) (APIC_SVR s) (APIC_LVT_TIMER s) (APIC_DIVIDE s) v (APIC_ISR s) (APIC_IRR s) (HOST_TIMER_FOR_GUEST s) (GTIMER3_OK s) (GTIMER3_PRINT s) (APIC_OK s) (APIC_OK_PRINT s) (PENDING_VECTOR s) (TIMER_RELA_TSC s) (TIMER_START_TSC s) (TIMER_RUNNING s) (APIC_ICR_HIGH s) (SELF_IPI_MASK s).
Definition set_isr (s : Lapic) (v : list Z) : Lapic :=
  mkLapic (APIC_ID s) (APIC_TPR s) (APIC_SVR s) (APIC_LVT_TIMER s) (APIC_DIVIDE s) (APIC_INIT_COUNT s) v (APIC_IRR s) (HOST_TIMER_FOR_GUEST s) (GTIMER3_OK s) (GTIMER3_PRINT s) (APIC_OK s) (APIC_OK_PRINT s) (PENDING_VECTOR s) (TIMER_RELA_TSC s) (TIMER_START_TSC s) (TIMER_RUNNING s) (APIC_ICR_HIGH s) (SELF_IPI_MASK s).
Definition set_irr (s : Lapic) (v : list Z) : Lapic :=
  mkLapic (APIC_ID s) (APIC_TPR s) (APIC_SVR s) (APIC_LVT_TIMER s) (APIC_DIVIDE s) (APIC_INIT_COUNT s) (APIC_ISR s) v (HOST_TIMER_FOR_GUEST s) (GTIMER3_OK s) (GTIMER3_PRINT s) (APIC_OK s) (APIC_OK_PRINT s) (PENDING_VECTOR s) (TIMER_RELA_TSC s) (TIMER_START_TSC s) (TIMER_RUNNING s) (APIC_ICR_HIGH s) (SELF_IPI_MASK s).
Definition set_armed (s : Lapic) (v : bool) : Lapic :=
  mkLapic (APIC_ID s) (APIC_TPR s) (APIC_SVR s) (APIC_LVT_TIMER s) (APIC_DIVIDE s) (APIC_INIT_COUNT s) (APIC_ISR s) (APIC_IRR s) v (GTIMER3_OK s) (GTIMER3_PRINT s) (APIC_OK s) (APIC_OK_PRINT s) (PENDING_VECTOR s) (TIMER_RELA_TSC s) (TIMER_START_TSC s) (TIMER_RUNNING s) (APIC_ICR_HIGH s) (SELF_IPI_MASK s).
Definition set_gt3 (s : Lapic) (v : bool) : Lapic :=
  mkLapic (APIC_ID s) (APIC_TPR s) (APIC_SVR s) (APIC_LVT_TIMER s) (APIC_DIVIDE s) (APIC_INIT_COUNT s) (APIC_ISR s) (APIC_IRR s) (HOST_TIMER_FOR_GUEST s) v (GTIMER3_PRINT s) (APIC_OK s) (APIC_OK_PRINT s) (PENDING_VECTOR s) (TIMER_RELA_TSC s) (TIMER_START_TSC s) (TIMER_RUNNING s) (APIC_ICR_HIGH s) (SELF_IPI_MASK s).
Definition set_gt3p (s : Lapic) (v : bool) : Lapic :=
  mkLapic (APIC_ID s) (APIC_TPR s) (APIC_SVR s) (APIC_LVT_TIMER s) (APIC_DIVIDE s) (APIC_INIT_COUNT s) (APIC_ISR s) (APIC_IRR s) (HOST_TIMER_FOR_GUEST s) (GTIMER3_OK s) v (APIC_OK s) (APIC_OK_PRINT s) (PENDING_VECTOR s) (TIMER_RELA_TSC s) (TIMER_START_TSC s) (TIMER_RUNNING s) (APIC_ICR_HIGH s) (SELF_IPI_MASK s).
Definition set_ok (s : Lapic) (v : bool) : Lapic :=
  mkLapic (APIC_ID s) (APIC_TPR s) (APIC_SVR s) (APIC_LVT_TIMER s) (APIC_DIVIDE s) (APIC_INIT_COUNT s) (APIC_ISR s) (APIC_IRR s) (HOST_TIMER_FOR_GUEST s) (GTIMER3_OK s) (GTIMER3_PRINT s) v (APIC_OK_PRINT s) (PENDING_VECTOR s) (TIMER_RELA_TSC s) (TIMER_START_TSC s) (TIMER_RUNNING s) (APIC_ICR_HIGH s) (SELF_IPI_MASK s).
Definition set_okp (s : Lapic) (v : bool) : Lapic :=
  mkLapic (APIC_ID s) (APIC_TPR s) (APIC_SVR s) (APIC_LVT_TIMER s) (APIC_DIVIDE s) (APIC_INIT_COUNT s) (APIC_ISR s) (APIC_IRR s) (HOST_TIMER_FOR_GUEST s) (GTIMER3_OK s) (GTIMER3_PRINT s) (APIC_OK s) v (PENDING_VECTOR s) (TIMER_RELA_TSC s) (TIMER_START_TSC s) (TIMER_RUNNING s) (APIC_ICR_HIGH s) (SELF_IPI_MASK s).
Definition set_pending (s : Lapic) (v : option Z) : Lapic :=
  mkLapic (APIC_ID s) (APIC_TPR s) (APIC_SVR s) (APIC_LVT_TIMER s) (APIC_DIVIDE s) (APIC_INIT_COUNT s) (APIC_ISR s) (APIC_IRR s) (HOST_TIMER_FOR_GUEST s) (GTIMER3_OK s) (GTIMER3_PRINT s) (APIC_OK s) (APIC_OK_PRINT s) v (TIMER_RELA_TSC s) (TIMER_START_TSC s) (TIMER_RUNNING s) (APIC_ICR_HIGH s) (SELF_IPI_MASK s).
Definition set_rela (s : Lapic) (v : Z) : Lapic :=
  mkLapic (APIC_ID s) (APIC_TPR s) (APIC_SVR s) (APIC_LVT_TIMER s) (APIC_DIVIDE s) (APIC_INIT_COUNT s) (APIC_ISR s) (APIC_IRR s) (HOST_TIMER_FOR_GUEST s) (GTIMER3_OK s) (GTIMER3_PRINT s) (APIC_OK s) (APIC_OK_PRINT s) (PENDING_VECTOR s) v (TIMER_START_TSC s) (TIMER_RUNNING s) (APIC_ICR_HIGH s) (SELF_IPI_MASK s).
Definition set_start (s : Lapic) (v : Z) : Lapic :=
  mkLapic (APIC_ID s) (APIC_TPR s) (APIC_SVR s) (APIC_LVT_TIMER s) (APIC_DIVIDE s) (APIC_INIT_COUNT s) (APIC_ISR s) (APIC_IRR s) (HOST_TIMER_FOR_GUEST s) (GTIMER3_OK s) (GTIMER3_PRINT s) (APIC_OK s) (APIC_OK_PRINT s) (PENDING_VECTOR s) (TIMER_RELA_TSC s) v (TIMER_RUNNING s) (APIC_ICR_HIGH s) (SELF_IPI_MASK s).
Definition set_running (s : Lapic) (v : bool) : Lapic :=
  mkLapic (APIC_ID s) (APIC_TPR s) (APIC_SVR s) (APIC_LVT_TIMER s) (APIC_DIVIDE s) (APIC_INIT_COUNT s) (APIC_ISR s) (APIC_IRR s) (HOST_TIMER_FOR_GUEST s) (GTIMER3_OK s) (GTIMER3_PRINT s) (APIC_OK s) (APIC_OK_PRINT s) (PENDING_VECTOR s) (TIMER_RELA_TSC s) (TIMER_START_TSC s) v (APIC_ICR_HIGH s) (SELF_IPI_MASK s).
Definition set_icrh (s : Lapic) (v : Z) : Lapic :=
  mkLapic (APIC_ID s) (APIC_TPR s) (APIC_SVR s) (APIC_LVT_TIMER s) (APIC_DIVIDE s) (APIC_INIT_COUNT s) (APIC_ISR s) (APIC_IRR s) (HOST_TIMER_FOR_GUEST s) (GTIMER3_OK s) (GTIMER3_PRINT s) (APIC_OK s) (APIC_OK_PRINT s) (PENDING_VECTOR s) (TIMER_RELA_TSC s) (TIMER_START_TSC s) (TIMER_RUNNING s) v (SELF_IPI_MASK s).
Definition set_selfm (s : Lapic) (v : list Z) : Lapic :=
  mkLapic (APIC_ID s) (APIC_TPR s) (APIC_SVR s) (APIC_LVT_TIMER s) (APIC_DIVIDE s) (APIC_INIT_COUNT s) (APIC_ISR s) (APIC_IRR s) (HOST_TIMER_FOR_GUEST s) (GTIMER3_OK s) (GTIMER3_PRINT s) (APIC_OK s) (APIC_OK_PRINT s) (PENDING_VECTOR s) (TIMER_RELA_TSC s) (TIMER_START_TSC s) (TIMER_RUNNING s) (APIC_ICR_HIGH s) v.

(** Power-on values, what [reset] restores. *)
Definition reset : Lapic :=
  {| APIC_ID := 0;
     APIC_TPR := 0;
     APIC_SVR := Z.lor 0xFF SVR_ENABLED;
     APIC_LVT_TIMER := Z.lor LVT_MASKED 0xEF;
     APIC_DIVIDE := 3;
     APIC_INIT_COUNT := 0;
     APIC_ISR := replicate 8 0;
     APIC_IRR := replicate 8 0;
     HOST_TIMER_FOR_GUEST := false;
     GTIMER3_OK := false;
     GTIMER3_PRINT := false;
     APIC_OK := false;
     APIC_OK_PRINT := false;
     PENDING_VECTOR := None;
     TIMER_RELA_TSC := 0;
     TIMER_START_TSC := 0;
     TIMER_RUNNING := false;
     APIC_ICR_HIGH := 0;
     SELF_IPI_MASK := replicate 8 0 |}.

(** ** 256-bit registers *)

Definition word (regs : list Z) (i : Z) : Z := default 0 (regs !! Z.to_nat i).

Definition bit_set (regs : list Z) (vec : Z) : list Z :=
  <[Z.to_nat (vec / 32) := Z.lor (word regs (vec / 32)) (Z.shiftl 1 (vec mod 32))]> regs.

Definition bit_clear (regs : list Z) (vec : Z) : list Z :=
  <[Z.to_nat (vec / 32) := Z.land (word regs (vec / 32)) (bnot32 (Z.shiftl 1 (vec mod 32)))]> regs.

(** The scan from word 7 down; [31 - leading_zeros] of a non-zero word is its
    binary logarithm. *)
Definition highest_in (w : Z → Z) : option Z :=
  find_map (λ i, if negb (w i =? 0) then Some (i * 32 + Z.log2 (w i)) else None)
    [7; 6; 5; 4; 3; 2; 1; 0].

Definition highest_bit (regs : list Z) : option Z := highest_in (word regs).

Definition bit_is_set (regs : list Z) (vec : Z) : bool :=
  negb (Z.land (word regs (vec / 32)) (Z.shiftl 1 (vec mod 32)) =? 0).

(** ** Registers and priorities *)

Definition is_x2apic_msr (index : Z) : bool := (X2APIC_MSR_BASE <=? index) && (index <=? X2APIC_MSR_LAST).
Definition reg_from_msr (index : Z) : Z := Z.shiftl (index - X2APIC_MSR_BASE) 4.
Definition is_xapic_mmio_gpa (gpa : Z) : bool := (APIC_GPA <=? gpa) && (gpa <? APIC_GPA + 0x1000).
Definition reg_from_gpa (gpa : Z) : option Z :=
  if negb (is_xapic_mmio_gpa gpa) then None else Some (gpa - APIC_GPA).

Definition divide_value (dcr : Z) : Z :=
  let d := Z.land dcr 11 in
  if d =? 0 then 2 else if d =? 1 then 4 else if d =? 2 then 8 else if d =? 3 then 16
  else if d =? 8 then 1 else if d =? 9 then 32 else if d =? 10 then 64 else if d =? 11 then 128
  else 16.

Definition timer_should_deliver (s : Lapic) : bool :=
  (Z.land (APIC_LVT_TIMER s) LVT_MASKED =? 0) && negb (Z.land (APIC_SVR s) SVR_ENABLED =? 0).

Definition lvt_timer_vector (s : Lapic) : Z := Z.land (APIC_LVT_TIMER s) 0xFF.

Definition set_irr_bit (s : Lapic) (vec : Z) : Lapic := set_irr s (bit_set (APIC_IRR s) vec).

Definition processor_priority (s : Lapic) : Z :=
  let tpr := Z.land (APIC_TPR s) 0xFF in
  let isr := match highest_bit (APIC_ISR s) with Some v => Z.land v 0xF0 | None => 0 end in
  let tpr_class := Z.land tpr 0xF0 in
  if tpr_class <? isr then isr else tpr.

Definition tpr (s : Lapic) : Z := Z.land (APIC_TPR s) 0xFF.
Definition write_tpr (s : Lapic) (val : Z) : Lapic := set_tpr s (Z.land val 0xFF).
Definition cr8 (s : Lapic) : Z := Z.land (Z.shiftr (tpr s) 4) 0xF.
Definition set_cr8 (s : Lapic) (val : Z) : Lapic := write_tpr s (Z.shiftl (Z.land val 0xF) 4).

Definition latch_irr (s : Lapic) (vec : Z) : Lapic := if 16 <=? vec then set_irr_bit s vec else s.

(** *** Self-IPIs *)

Definition accept_icr_low (s : Lapic) (val : Z) : Lapic :=
  let shorthand := Z.land (Z.shiftr val 18) 3 in
  let mode := Z.land (Z.shiftr val 8) 7 in
  let vector := Z.land val 0xFF in
  if negb (mode =? 0) || (vector <? 32) then s
  else
    let dest := Z.shiftr (APIC_ICR_HIGH s) 24 in
    let apic_id := Z.shiftr (APIC_ID s) 24 in
    let to_self := (shorthand =? 1) || (shorthand =? 2) || ((shorthand =? 0) && (dest =? apic_id)) in
    if negb to_self then s
    else let s := set_irr_bit s vector in set_selfm s (bit_set (SELF_IPI_MASK s) vector).

Definition highest_self_ipi (s : Lapic) : option Z :=
  highest_in (λ i, Z.land (word (SELF_IPI_MASK s) i) (word (APIC_IRR s) i)).

(** *** Delivery *)

(** The common tail of the deliveries: the bit moves from IRR to ISR. *)
Definition deliver (s : Lapic) (vec : Z) : Lapic :=
  let s := set_irr s (bit_clear (APIC_IRR s) vec) in
  let s := set_isr s (bit_set (APIC_ISR s) vec) in
  if (vec =? lvt_timer_vector s) || (vec =? 0xEF) then
    if negb (APIC_OK s) then set_okp (set_ok s true) true else s
  else s.

Definition take_irr_vector (s : Lapic) (ignore_tpr : bool) : Lapic * option Z :=
  match highest_bit (APIC_IRR s) with
  | None => (s, None)
  | Some vec =>
      if negb ignore_tpr && (Z.land vec 0xF0 <=? Z.land (processor_priority s) 0xF0) then (s, None)
      else (deliver s vec, Some vec)
  end.

Definition take_deliverable_vector (s : Lapic) : Lapic * option Z := take_irr_vector s false.
Definition take_highest_irr (s : Lapic) : Lapic * option Z := take_irr_vector s true.

Definition take_irr_vec (s : Lapic) (vec : Z) (ignore_tpr : bool) : Lapic * option Z :=
  if vec <? 16 then (s, None)
  else if negb (bit_is_set (APIC_IRR s) vec) then (s, None)
  else if negb ignore_tpr && (Z.land vec 0xF0 <=? Z.land (processor_priority s) 0xF0) then (s, None)
  else (deliver s vec, Some vec).

Definition take_self_ipi (s : Lapic) : Lapic * option Z :=
  match highest_self_ipi s with
  | None => (s, None)
  | Some vec =>
      if Z.land vec 0xF0 <=? Z.land (processor_priority s) 0xF0 then (s, None)
      else take_irr_vec (set_selfm s (bit_clear (SELF_IPI_MASK s) vec)) vec false
  end.

Definition take_timer_vector (s : Lapic) : Lapic * option Z := take_irr_vec s (lvt_timer_vector s) false.

Definition has_deliverable_irr (s : Lapic) : bool :=
  match highest_bit (APIC_IRR s) with
  | None => false
  | Some vec => Z.land (processor_priority s) 0xF0 <? Z.land vec 0xF0
  end.

Definition has_pending_irr (s : Lapic) : bool :=
  match highest_bit (APIC_IRR s) with Some _ => true | None => false end.

Definition has_irr_vec (s : Lapic) (vec : Z) : bool :=
  if vec <? 16 then false else bit_is_set (APIC_IRR s) vec.

Definition timer_vector_pending (s : Lapic) : bool := has_irr_vec s (lvt_timer_vector s).

(** The vector handed to the I/O APIC, when something was in service. *)
Definition handle_eoi (s : Lapic) : Lapic * option Z :=
  match highest_bit (APIC_ISR s) with
  | Some v => (set_isr s (bit_clear (APIC_ISR s) v), Some v)
  | None => (s, None)
  end.

(** *** The timer *)

Definition elapsed_counts (s : Lapic) (now : Z) : Z :=
  if negb (TIMER_RUNNING s) || (APIC_INIT_COUNT s =? 0) then 0
  else (now ⊟ TIMER_START_TSC s) / TSC_PER_BUS_CYCLE / divide_value (APIC_DIVIDE s).

Definition current_count_raw (s : Lapic) (now : Z) : Z :=
  if negb (TIMER_RUNNING s) || (APIC_INIT_COUNT s =? 0) then 0
  else
    let init := APIC_INIT_COUNT s in
    let elapsed := elapsed_counts s now in
    if negb (Z.land (APIC_LVT_TIMER s) LVT_PERIODIC =? 0) then init - elapsed mod init
    else if init <=? elapsed then 0
    else init - elapsed.

Definition arm_guest_delivery_if_needed (s : Lapic) (now : Z) : Lapic :=
  if TIMER_RUNNING s && timer_should_deliver s && negb (current_count_raw s now =? 0)
  then set_pending (set_armed s true) (Some (lvt_timer_vector s))
  else s.

Definition start_countdown (s : Lapic) (val t0 t1 : Z) : Lapic :=
  let s := set_init s val in
  if val =? 0 then set_pending (set_armed (set_running s false) false) None
  else arm_guest_delivery_if_needed (set_running (set_start s t0) true) t1.

Definition on_host_timer_fire (s : Lapic) (t0 t1 : Z) : Lapic * bool :=
  if negb (HOST_TIMER_FOR_GUEST s) then (s, false)
  else
    let s := set_armed s false in
    let v := default (lvt_timer_vector s) (PENDING_VECTOR s) in
    let s := set_pending s None in
    let s := if timer_should_deliver s then set_irr_bit s v else s in
    let s := if negb (GTIMER3_OK s) then set_gt3p (set_gt3 s true) true else s in
    let s :=
      if negb (Z.land (APIC_LVT_TIMER s) LVT_PERIODIC =? 0) && negb (APIC_INIT_COUNT s =? 0)
         && timer_should_deliver s
      then arm_guest_delivery_if_needed (set_running (set_start s t0) true) t1
      else set_running s false in
    (s, true).

Definition poll_timer_expiry (s : Lapic) (now t0 t1 : Z) : Lapic * bool :=
  if negb (HOST_TIMER_FOR_GUEST s) || negb (TIMER_RUNNING s) || (APIC_INIT_COUNT s =? 0) then (s, false)
  else if elapsed_counts s now <? APIC_INIT_COUNT s then (s, false)
  else on_host_timer_fire s t0 t1.

Definition force_firmware_lapic_timer_expiry (s : Lapic) (t0 t1 : Z) : Lapic * bool :=
  let lvt := APIC_LVT_TIMER s in
  let s :=
    if negb (Z.land lvt LVT_MASKED =? 0)
    then set_lvt s (Z.lor (Z.lor (Z.land (Z.land lvt (bnot32 0xFF)) (bnot32 LVT_MASKED)) 0x20) LVT_PERIODIC)
    else set_lvt s (Z.lor (Z.land lvt (bnot32 LVT_MASKED)) LVT_PERIODIC) in
  let s := set_svr s (Z.lor (APIC_SVR s) SVR_ENABLED) in
  let s := if APIC_INIT_COUNT s =? 0 then set_init s 1 else s in
  let s := set_running (set_start s 0) true in
  let s := set_armed s true in
  let s := set_pending s (Some (lvt_timer_vector s)) in
  on_host_timer_fire s t0 t1.

Definition relatch_if_idle (s : Lapic) (now : Z) : Lapic * bool :=
  if negb (timer_should_deliver s) || timer_vector_pending s then (s, false)
  else if (APIC_INIT_COUNT s =? 0) || (TIMER_RUNNING s && HOST_TIMER_FOR_GUEST s) then (s, false)
  else if negb (TIMER_RELA_TSC s =? 0) && (now ⊟ TIMER_RELA_TSC s <? 2000000) then (s, false)
  else let s := set_rela s now in (set_irr_bit s (lvt_timer_vector s), true).

(** ** The register file *)

Definition isr_reg_index (reg : Z) : option Z :=
  if (REG_ISR_BASE <=? reg) && (reg <? REG_ISR_BASE + 0x80) && (Z.land reg 0xF =? 0)
  then Some ((reg - REG_ISR_BASE) / 0x10) else None.
Definition irr_reg_index (reg : Z) : option Z :=
  if (REG_IRR_BASE <=? reg) && (reg <? REG_IRR_BASE + 0x80) && (Z.land reg 0xF =? 0)
  then Some ((reg - REG_IRR_BASE) / 0x10) else None.

Definition read_reg (s : Lapic) (reg now : Z) : Z :=
  match isr_reg_index reg with
  | Some i => word (APIC_ISR s) i
  | None =>
      match irr_reg_index reg with
      | Some i => word (APIC_IRR s) i
      | None =>
          if reg =? REG_ID then APIC_ID s
          else if reg =? REG_VERSION then XAPIC_VERSION
          else if reg =? REG_TPR then APIC_TPR s
          else if reg =? REG_PPR then processor_priority s
          else if reg =? REG_EOI then 0
          else if reg =? REG_SVR then APIC_SVR s
          else if reg =? REG_LVT_TIMER then APIC_LVT_TIMER s
          else if reg =? REG_INIT_COUNT then APIC_INIT_COUNT s
          else if reg =? REG_CUR_COUNT then current_count_raw s now
          else if reg =? REG_DIVIDE then APIC_DIVIDE s
          else 0
      end
  end.

(** The vector is the one an end of interrupt hands to the I/O APIC. *)
Definition write_reg (s : Lapic) (reg val t0 t1 : Z) : Lapic * option Z :=
  if reg =? REG_TPR then (set_tpr s val, None)
  else if reg =? REG_EOI then handle_eoi s
  else if reg =? REG_SVR then (arm_guest_delivery_if_needed (set_svr s val) t0, None)
  else if reg =? REG_LVT_TIMER then (arm_guest_delivery_if_needed (set_lvt s val) t0, None)
  else if reg =? REG_DIVIDE then (set_divide s (Z.land val 11), None)
  else if reg =? REG_INIT_COUNT then (start_countdown s val t0 t1, None)
  else if reg =? REG_ICR_HIGH then (set_icrh s val, None)
  else if reg =? REG_ICR_LOW then (accept_icr_low s val, None)
  else (s, None).

Definition rdmsr (s : Lapic) (index now : Z) : option Z :=
  if negb (is_x2apic_msr index) then None else Some (read_reg s (reg_from_msr index) now).

Definition wrmsr (s : Lapic) (index value t0 t1 : Z) : option (Lapic * option Z * bool) :=
  if negb (is_x2apic_msr index) then None
  else let '(s, eoi) := write_reg s (reg_from_msr index) (value mod 4294967296) t0 t1 in
       Some (s, eoi, HOST_TIMER_FOR_GUEST s).

Definition mmio_access (s : Lapic) (gpa : Z) (is_write : bool) (write_val t0 t1 : Z)
    : option (Lapic * option Z * option Z) :=
  match reg_from_gpa gpa with
  | None => None
  | Some reg =>
      if is_write then let '(s, eoi) := write_reg s reg write_val t0 t1 in Some (s, eoi, None)
      else Some (s, None, Some (read_reg s reg t0))
  end.

(** Latches read once by the caller that prints the markers. *)
Definition take_gtimer3_latch (s : Lapic) : Lapic * bool :=
  if GTIMER3_PRINT s then (set_gt3p s false, true) else (s, false).
Definition take_apic_ok_latch (s : Lapic) : Lapic * bool :=
  if APIC_OK_PRINT s then (set_okp s false, true) else (s, false).

(** ** The MSR bitmap *)

Definition Page := Z → Z.

(** The little-endian bytes of a [u32] at an offset. *)
Definition poke (p : Page) (off v : Z) : Page :=
  λ x, if (off <=? x) && (x <? off + 4) then Z.land (Z.shiftr v (8 * (x - off))) 0xFF else p x.

(** The static image of the register page; [len] is the slice's length. *)
Definition fill_xapic_page (len : Z) (p : Page) : Page :=
  if len <? 0x400 then p
  else
    let p := (λ x, if (0 <=? x) && (x <? 0x400) then 0 else p x) : Page in
    let p := poke p REG_VERSION XAPIC_VERSION in
    let p := poke p 0xE0 0xFFFFFFFF in
    let p := poke p REG_SVR (Z.lor 0xFF SVR_ENABLED) in
    foldl (λ p off, poke p off LVT_MASKED) p [0x320; 0x330; 0x340; 0x350; 0x360; 0x370].

Definition set_msr_bit (p : Page) (msr : Z) (read : bool) : Page :=
  let region := if read then 0 else 1024 in
  let idx := region + msr / 8 in
  let bit := msr mod 8 in
  λ x, if x =? idx then Z.lor (p idx) (Z.shiftl 1 bit) else p x.

Definition trap_x2apic_msrs (p : Page) : Page :=
  let p := foldl (λ p msr, set_msr_bit (set_msr_bit p msr true) msr false) p
             (seqZ X2APIC_MSR_BASE (X2APIC_MSR_LAST - X2APIC_MSR_BASE + 1)) in
  set_msr_bit (set_msr_bit p 0x1B true) 0x1B false.

(** The processor's use of the bitmap (SDM Vol. 3C, MSR-bitmap address): read low
    at 0, read high at 1024, write low at 2048, write high at 3072; other registers
    always exit. *)
Definition msr_exits (p : Page) (msr : Z) (write : bool) : bool :=
  let base := if write then 2048 else 0 in
  if (0 <=? msr) && (msr <=? 0x1FFF) then Z.testbit (p (base + msr / 8)) (msr mod 8)
  else if (0xC0000000 <=? msr) && (msr <=? 0xC0001FFF) then
    Z.testbit (p (base + 1024 + (msr - 0xC0000000) / 8)) ((msr - 0xC0000000) mod 8)
  else true.

(** ** Registers as sets of vectors *)

Section Regs.
Implicit Types regs : list Z.

(** Eight words of 32 bits. *)
Definition reg_wf (regs : list Z) : Prop :=
  length regs = 8%nat ∧ ∀ i, 0 ≤ word regs i < 2 ^ 32.

Definition vec_of (w : Z → Z) (v : Z) : bool :=
  (0 <=? v) && (v <? 256) && Z.testbit (w (v / 32)) (v mod 32).

(** The vectors a register holds. *)
Definition vecs (regs : list Z) (v : Z) : bool := vec_of (word regs) v.

Lemma word_insert regs i j x : reg_wf regs → 0 ≤ i < 8 → 0 ≤ j →
  word (<[Z.to_nat i := x]> regs) j = if j =? i then x else word regs j.
Proof.
  intros [L _] Hi Hj. unfold word. destruct (Z.eqb_spec j i) as [->|N].
  - by rewrite list_lookup_insert_eq by lia.
  - by rewrite list_lookup_insert_ne by lia.
Qed.

Lemma reg_wf_insert regs i x : reg_wf regs → 0 ≤ i < 8 → 0 ≤ x < 2 ^ 32 →
  reg_wf (<[Z.to_nat i := x]> regs).
Proof.
  intros H Hi Hx. split; [by rewrite length_insert; apply H|]. intros j.
  destruct (decide (0 ≤ j)).
  - rewrite word_insert by done. destruct (j =? i); [done|apply H].
  - destruct H as [_ H]. specialize (H j). unfold word in *.
    replace (Z.to_nat j) with 0%nat in * by lia.
    destruct (decide (i = 0)) as [->|].
    + destruct regs; [split; reflexivity || done|exact Hx].
    + rewrite list_lookup_insert_ne by lia. exact H.
Qed.

Lemma bits32 x : 0 ≤ x → (∀ i, 32 ≤ i → Z.testbit x i = false) → 0 ≤ x < 2 ^ 32.
Proof. by apply (below_of_bits 32). Qed.

Lemma high32 x i : 0 ≤ x < 2 ^ 32 → 32 ≤ i → Z.testbit x i = false.
Proof. exact (below_high 32 x i). Qed.

Lemma bnot32_bit b i : 0 ≤ b < 32 → 0 ≤ i →
  Z.testbit (bnot32 (Z.shiftl 1 b)) i = (i <? 32) && negb (i =? b).
Proof.
  intros. unfold bnot32. rewrite Z.lxor_spec, one_bit, Z.testbit_ones_nonneg by lia.
  destruct (Z.eqb_spec i b), (Z.ltb_spec i 32); (done || lia).
Qed.

Lemma reg_wf_set regs v : reg_wf regs → 0 ≤ v < 256 → reg_wf (bit_set regs v).
Proof.
  intros H Hv. apply reg_wf_insert; [done|dlia|]. destruct H as [_ H].
  apply bits32; [apply Z.lor_nonneg; split; [apply H|rewrite Z.shiftl_nonneg; lia]|].
  intros i Hi. rewrite Z.lor_spec, one_bit, (high32 _ _ (H _) Hi) by dlia.
  apply Z.eqb_neq. dlia.
Qed.

Lemma reg_wf_clear regs v : reg_wf regs → 0 ≤ v < 256 → reg_wf (bit_clear regs v).
Proof.
  intros H Hv. apply reg_wf_insert; [done|dlia|]. destruct H as [_ H].
  apply bits32; [apply Z.land_nonneg; left; apply H|].
  intros i Hi. by rewrite Z.land_spec, (high32 _ _ (H _) Hi).
Qed.

(** Two vectors are the same exactly when word and bit are. *)
Lemma vec_coords u v : u / 32 = v / 32 → u mod 32 = v mod 32 → u = v.
Proof. dlia. Qed.

Lemma vecs_set regs v u : reg_wf regs → 0 ≤ v < 256 →
  vecs (bit_set regs v) u = (u =? v) || vecs regs u.
Proof.
  intros H Hv. unfold vecs, vec_of.
  destruct (Z.leb_spec 0 u); [|replace (u =? v) with false by lia; done].
  destruct (Z.ltb_spec u 256); [|replace (u =? v) with false by lia; done].
  unfold bit_set. rewrite word_insert by (done || dlia). cbn [andb].
  destruct (Z.eqb_spec (u / 32) (v / 32)) as [E|N].
  - rewrite Z.lor_spec, one_bit, E, orb_comm by dlia. f_equal.
    destruct (Z.eqb_spec (u mod 32) (v mod 32)), (Z.eqb_spec u v); try done; subst; try done.
    exfalso. eauto using vec_coords.
  - replace (u =? v) with false; [done|]. symmetry. apply Z.eqb_neq. by intros ->.
Qed.

Lemma vecs_clear regs v u : reg_wf regs → 0 ≤ v < 256 →
  vecs (bit_clear regs v) u = negb (u =? v) && vecs regs u.
Proof.
  intros H Hv. unfold vecs, vec_of.
  destruct (Z.leb_spec 0 u); [|cbn [andb]; by rewrite andb_false_r].
  destruct (Z.ltb_spec u 256); [|cbn [andb]; by rewrite andb_false_r].
  unfold bit_clear. rewrite word_insert by (done || dlia). cbn [andb].
  destruct (Z.eqb_spec (u / 32) (v / 32)) as [E|N].
  - rewrite Z.land_spec, bnot32_bit, E, andb_comm by dlia.
    replace (u mod 32 <? 32) with true by dlia. cbn [andb]. f_equal.
    destruct (Z.eqb_spec (u mod 32) (v mod 32)), (Z.eqb_spec u v); try done; subst; try done.
    exfalso. eauto using vec_coords.
  - replace (u =? v) with false; [done|]. symmetry. apply Z.eqb_neq. by intros ->.
Qed.

Lemma vecs_range regs v : vecs regs v = true → 0 ≤ v < 256.
Proof. unfold vecs, vec_of. rewrite !andb_true_iff. lia. Qed.

Lemma bit_is_set_vecs regs v : reg_wf regs → 0 ≤ v < 256 → bit_is_set regs v = vecs regs v.
Proof.
  intros [_ H] Hv. unfold bit_is_set, vecs, vec_of.
  replace ((0 <=? v) && (v <? 256)) with true by lia. cbn [andb].
  rewrite Z.shiftl_1_l, land_pow2_test by dlia.
  by destruct (Z.testbit _ _).
Qed.

(** The scan finds the greatest vector, and fails only on an empty register. *)
Lemma words_down i x : [7; 6; 5; 4; 3; 2; 1; 0] !! i = Some x → x = 7 - Z.of_nat i ∧ 0 ≤ x < 8.
Proof. do 8 (destruct i as [|i]; [intros [= <-]; lia|]). by destruct i. Qed.

Lemma words_down_at k : 0 ≤ k < 8 → [7; 6; 5; 4; 3; 2; 1; 0] !! Z.to_nat (7 - k) = Some k.
Proof.
  intros Hk. assert (k = 0 ∨ k = 1 ∨ k = 2 ∨ k = 3 ∨ k = 4 ∨ k = 5 ∨ k = 6 ∨ k = 7) as C by lia.
  by destruct C as [->|[->|[->|[->|[->|[->|[->| ->]]]]]]].
Qed.

Definition greatest (w : Z → Z) (o : option Z) : Prop :=
  match o with
  | Some v => vec_of w v = true ∧ ∀ u, vec_of w u = true → u ≤ v
  | None => ∀ u, vec_of w u = false
  end.

Lemma highest_in_spec w : (∀ i, 0 ≤ w i < 2 ^ 32) → greatest w (highest_in w).
Proof.
  intros Hw. unfold highest_in. destruct (find_map _ _) as [v|] eqn:E; cbn.
  - apply find_map_Some in E as (i & x & Hx & Hv & Hmin).
    apply words_down in Hx as [Hxi Hx].
    destruct (Z.eqb_spec (w x) 0) as [|Nz]; [done|]. injection Hv as <-.
    pose proof (Hw x) as Hwx.
    assert (0 ≤ Z.log2 (w x) < 32) as HL.
    { split; [apply Z.log2_nonneg|]. apply Z.log2_lt_pow2; lia. }
    unfold vec_of. rewrite Z.div_add_l, (Z.div_small _ _ HL), Z.add_0_r by lia.
    rewrite Z.add_comm, Z_mod_plus_full, (Z.mod_small _ _ HL), Z.bit_log2 by lia. split; [lia|].
    intros u. rewrite !andb_true_iff. intros [[U0%Z.leb_le U1%Z.ltb_lt] Ht].
    assert (0 ≤ u / 32 < 8) as Hk by dlia.
    destruct (Z.lt_trichotomy (u / 32) x) as [?|[Ek|?]]; [dlia| |].
    + rewrite Ek in Ht. destruct (Z.le_gt_cases (u mod 32) (Z.log2 (w x))); [dlia|].
      rewrite Z.bits_above_log2 in Ht by lia. done.
    + specialize (Hmin (Z.to_nat (7 - u / 32)) (u / 32)).
      rewrite words_down_at in Hmin by done.
      assert (w (u / 32) = 0) as Z0.
      { destruct (Z.eqb_spec (w (u / 32)) 0); [done|]. exfalso.
        enough (Some (u / 32 * 32 + Z.log2 (w (u / 32))) = None) by done.
        apply Hmin; [lia|done]. }
      by rewrite Z0, Z.bits_0 in Ht.
  - intros u. rewrite find_map_None in E. unfold vec_of.
    destruct (Z.leb_spec 0 u), (Z.ltb_spec u 256); try done. cbn [andb].
    assert (0 ≤ u / 32 < 8) as Hk by dlia.
    specialize (E (u / 32)). destruct (Z.eqb_spec (w (u / 32)) 0) as [->|]; [apply Z.bits_0|].
    exfalso. apply words_down_at, list_elem_of_lookup_2, E in Hk. done.
Qed.

Lemma highest_bit_spec regs : reg_wf regs → greatest (word regs) (highest_bit regs).
Proof. intros [_ H]. by apply highest_in_spec. Qed.

Lemma greatest_unique w o1 o2 : greatest w o1 → greatest w o2 → o1 = o2.
Proof.
  destruct o1 as [v1|], o2 as [v2|]; cbn; [| | |done].
  - intros [H1 M1] [H2 M2]. f_equal. specialize (M1 _ H2). specialize (M2 _ H1). lia.
  - intros [H1 _] H2. by rewrite H2 in H1.
  - intros H1 [H2 _]. by rewrite H1 in H2.
Qed.

(** The answer depends on the set only. *)
Lemma highest_bit_max regs v : reg_wf regs → vecs regs v = true →
  (∀ u, vecs regs u = true → u ≤ v) → highest_bit regs = Some v.
Proof. intros H Hv Hm. eapply greatest_unique; [by apply highest_bit_spec|]. done. Qed.

End Regs.

(** ** Priorities *)

Definition class (v : Z) : Z := Z.land v 0xF0.

Lemma class_div v : 0 ≤ v < 256 → class v = 16 * (v / 16).
Proof.
  intros Hv. apply Z.eqb_eq. by apply (byte_forall (λ v, class v =? 16 * (v / 16))); [vm_compute|].
Qed.

Lemma class_mono u v : 0 ≤ u ≤ v → v < 256 → class u ≤ class v.
Proof. intros. rewrite !class_div by lia. dlia. Qed.

Lemma class_idem v : class (class v) = class v.
Proof. unfold class. by rewrite <-Z.land_assoc. Qed.

Record lapic_wf (s : Lapic) : Prop := {
  wf_isr : reg_wf (APIC_ISR s);
  wf_irr : reg_wf (APIC_IRR s);
  wf_self : reg_wf (SELF_IPI_MASK s);
  wf_pending : ∀ v, PENDING_VECTOR s = Some v → 0 ≤ v < 256;
}.

Definition requested (s : Lapic) (v : Z) : bool := vecs (APIC_IRR s) v.
Definition in_service (s : Lapic) (v : Z) : bool := vecs (APIC_ISR s) v.

(** The vector's class is above the task priority and above everything in
    service. *)
Definition unblocked (s : Lapic) (v : Z) : Prop :=
  class (tpr s) < class v ∧ ∀ u, in_service s u = true → class u < class v.

Lemma ppr_unblocked s v : lapic_wf s → 0 ≤ v < 256 →
  class (processor_priority s) < class v ↔ unblocked s v.
Proof.
  intros W Hv. unfold unblocked, processor_priority. fold (tpr s).
  pose proof (highest_bit_spec _ (wf_isr s W)) as Hh.
  assert (0 ≤ class (tpr s)) as T0 by (apply Z.land_nonneg; by right).
  destruct (highest_bit (APIC_ISR s)) as [h|]; cbn in Hh; fold (class (tpr s)).
  - destruct Hh as [Hh Hm]. fold (class h). pose proof (vecs_range _ _ Hh).
    assert (∀ u, in_service s u = true → class u ≤ class h) as Hc.
    { intros u Hu. apply class_mono; [|lia]. split; [apply vecs_range in Hu; lia|by apply Hm]. }
    destruct (Z.ltb_spec (class (tpr s)) (class h)); rewrite ?class_idem; split.
    + intros L. split; [lia|]. intros u Hu%Hc. lia.
    + intros [_ L]. by apply L.
    + intros L. split; [done|]. intros u Hu%Hc. lia.
    + tauto.
  - replace (class (tpr s) <? 0) with false by lia. split; [|tauto].
    intros L. split; [done|]. intros u Hu. unfold in_service, vecs in Hu. by rewrite Hh in Hu.
Qed.

(** ** Delivery and end of interrupt *)

Lemma deliver_shape s v : ∃ ok okp,
  deliver s v = set_okp (set_ok (set_isr (set_irr s (bit_clear (APIC_IRR s) v)) (bit_set (APIC_ISR s) v)) ok) okp.
Proof.
  unfold deliver. cbv zeta.
  repeat match goal with |- context [if ?b then _ else _] => destruct b end;
    by destruct s; repeat eexists.
Qed.

Lemma deliver_isr s v : APIC_ISR (deliver s v) = bit_set (APIC_ISR s) v.
Proof. by destruct (deliver_shape s v) as (? & ? & ->). Qed.
Lemma deliver_irr s v : APIC_IRR (deliver s v) = bit_clear (APIC_IRR s) v.
Proof. by destruct (deliver_shape s v) as (? & ? & ->). Qed.

Lemma deliver_wf s v : lapic_wf s → 0 ≤ v < 256 → lapic_wf (deliver s v).
Proof.
  intros [] Hv. destruct (deliver_shape s v) as (? & ? & ->).
  split; cbn; auto using reg_wf_set, reg_wf_clear.
Qed.

Lemma handle_eoi_max s v : lapic_wf s → in_service s v = true →
  (∀ u, in_service s u = true → u ≤ v) →
  handle_eoi s = (set_isr s (bit_clear (APIC_ISR s) v), Some v).
Proof. intros [] Hv Hm. unfold handle_eoi. by rewrite (highest_bit_max _ v). Qed.

(** An interrupt taken while nothing of its class or above is in service is the
    one the next end of interrupt retires, and the service set is as before. *)
Lemma deliver_eoi s v : lapic_wf s → 0 ≤ v < 256 → unblocked s v →
  ∃ s', handle_eoi (deliver s v) = (s', Some v) ∧ APIC_IRR s' = APIC_IRR (deliver s v) ∧
        ∀ u, in_service s' u = in_service s u.
Proof.
  intros W Hv [_ U]. eexists. split_and!; [apply handle_eoi_max; [by apply deliver_wf|..]|done|].
  - unfold in_service. rewrite deliver_isr, vecs_set by (done || apply W). by rewrite Z.eqb_refl.
  - intros u. unfold in_service. rewrite deliver_isr, vecs_set by (done || apply W).
    intros [->%Z.eqb_eq|Hu]%orb_true_iff; [done|]. specialize (U _ Hu). apply vecs_range in Hu.
    rewrite !class_div in U by done. dlia.
  - intros u. unfold in_service. cbn. rewrite deliver_isr.
    rewrite vecs_clear, vecs_set by (auto using reg_wf_set, wf_isr).
    destruct (Z.eqb_spec u v) as [->|]; cbn; [|done].
    destruct (vecs (APIC_ISR s) v) eqn:E; [|done]. specialize (U _ E). lia.
Qed.

(** [take_deliverable_vector] takes the greatest requested vector when its
    class is above the task priority and everything in service, moves exactly that
    bit and nothing else but the APIC-OK latch, and the next end of interrupt undoes
    it; otherwise it changes nothing and every request is blocked.
    [has_deliverable_irr] predicts which. *)
Theorem delivery_exact (s : Lapic) : lapic_wf s →
  let '(s', r) := take_deliverable_vector s in
  has_deliverable_irr s = bool_decide (is_Some r) ∧
  match r with
  | Some v =>
      requested s v = true ∧ (∀ u, requested s u = true → u ≤ v) ∧ unblocked s v ∧
      (∀ u, requested s' u = negb (u =? v) && requested s u) ∧
      (∀ u, in_service s' u = (u =? v) || in_service s u) ∧
      (∃ ok okp, s' = set_okp (set_ok (set_isr (set_irr s (APIC_IRR s')) (APIC_ISR s')) ok) okp) ∧
      (∃ s'', handle_eoi s' = (s'', Some v) ∧ APIC_IRR s'' = APIC_IRR s' ∧
              ∀ u, in_service s'' u = in_service s u)
  | None => s' = s ∧ ∀ u, requested s u = true → ¬ unblocked s u
  end.
Proof.
  intros W. unfold take_deliverable_vector, take_irr_vector, has_deliverable_irr.
  pose proof (highest_bit_spec _ (wf_irr s W)) as Hh.
  destruct (highest_bit (APIC_IRR s)) as [v|]; cbn in Hh; cbn [negb andb].
  2:{ split_and!; [done..|]. intros u Hu. unfold requested, vecs in Hu. by rewrite Hh in Hu. }
  destruct Hh as [Hv Hm]. pose proof (vecs_range _ _ Hv) as Rv.
  pose proof (ppr_unblocked s v W Rv) as P. unfold class in P at 1 2.
  rewrite Z.ltb_antisym. destruct (Z.leb_spec (Z.land v 0xF0) (Z.land (processor_priority s) 0xF0)).
  - split_and!; [done..|]. intros u Hu Bu.
    assert (unblocked s v) as Bv; [|apply P in Bv; lia].
    assert (class u ≤ class v) as C.
    { apply class_mono; [|lia]. split; [apply vecs_range in Hu; lia|by apply Hm]. }
    destruct Bu as [B1 B2]. split; [lia|]. intros w Hw%B2. lia.
  - assert (unblocked s v) as U by by apply P. split_and!; [done..| | | |].
    + intros u. unfold requested. rewrite deliver_irr. by apply vecs_clear; [apply W|].
    + intros u. unfold in_service. rewrite deliver_isr. by apply vecs_set; [apply W|].
    + rewrite deliver_irr, deliver_isr. apply deliver_shape.
    + by apply deliver_eoi.
Qed.

(** Two requests, one at a blocked class: 0x31 is taken over 0x30, then 0x30
    waits for the end of interrupt. *)
Definition two_requests : Lapic := latch_irr (latch_irr reset 0x30) 0x31.

Lemma reset_wf : lapic_wf reset.
Proof.
  assert (reg_wf (replicate 8 0)) as R.
  { split; [done|]. intros i. unfold word.
    destruct (replicate 8 0 !! Z.to_nat i) as [x|] eqn:E; cbn; [|split; reflexivity || done].
    apply lookup_replicate_1 in E as [-> _]. split; reflexivity || done. }
  by split.
Qed.

Lemma latch_irr_wf s v : lapic_wf s → 0 ≤ v < 256 → lapic_wf (latch_irr s v).
Proof. intros [] Hv. unfold latch_irr. destruct (16 <=? v); split; cbn; auto using reg_wf_set. Qed.

Lemma delivery_exact_witness :
  snd (take_deliverable_vector two_requests) = Some 0x31 ∧
  snd (take_deliverable_vector (fst (take_deliverable_vector two_requests))) = None ∧
  (∀ u, requested two_requests u = true → u ≤ 0x31).
Proof.
  split_and!; [by vm_compute..|].
  assert (lapic_wf two_requests) as W.
  { apply latch_irr_wf; [apply latch_irr_wf; [apply reset_wf|lia]|lia]. }
  pose proof (delivery_exact two_requests W) as H.
  assert (take_deliverable_vector two_requests = (fst (take_deliverable_vector two_requests), Some 0x31)) as E
    by by vm_compute.
  rewrite E in H. apply H.
Defined.

(** ** Sequences of operations: nested interrupts

    What a virtual processor sees of the controller: vectors delivered, those the
    firmware path forces past the priorities, the vector each end of interrupt
    retires, and restarts. *)

Inductive Event :=
| Delivered (v : Z)
| Forced (v : Z)
| Restarted
| Eoi (retired : option Z)
| Quiet.

(** Every operation of the controller that changes its state. *)
Inductive Op :=
| OpDeliver
| OpTakeVec (vec : Z)
| OpTakeHighest
| OpForceVec (vec : Z)
| OpReset
| OpSelfIpi
| OpTimerVector
| OpLatch (vec : Z)
| OpWrmsr (index value t0 t1 : Z)
| OpMmio (gpa : Z) (is_write : bool) (val t0 t1 : Z)
| OpSetTpr (val : Z)
| OpSetCr8 (val : Z)
| OpFire (t0 t1 : Z)
| OpPoll (now t0 t1 : Z)
| OpForce (t0 t1 : Z)
| OpRelatch (now : Z)
| OpGtimer3Latch
| OpApicOkLatch.

(** The arguments of type [u8]. *)
Definition op_ok (o : Op) : Prop :=
  match o with
  | OpTakeVec v | OpForceVec v | OpLatch v => 0 ≤ v < 256
  | _ => True
  end.

Definition delivered (r : Lapic * option Z) : Lapic * Event :=
  (fst r, match snd r with Some v => Delivered v | None => Quiet end).

Definition forced (r : Lapic * option Z) : Lapic * Event :=
  (fst r, match snd r with Some v => Forced v | None => Quiet end).

Definition written (reg : Z) (r : Lapic * option Z) : Lapic * Event :=
  (fst r, if reg =? REG_EOI then Eoi (snd r) else Quiet).

Definition exec (s : Lapic) (o : Op) : Lapic * Event :=
  match o with
  | OpDeliver => delivered (take_deliverable_vector s)
  | OpTakeVec v => delivered (take_irr_vec s v false)
  | OpTakeHighest => forced (take_highest_irr s)
  | OpForceVec v => forced (take_irr_vec s v true)
  | OpReset => (reset, Restarted)
  | OpSelfIpi => delivered (take_self_ipi s)
  | OpTimerVector => delivered (take_timer_vector s)
  | OpLatch v => (latch_irr s v, Quiet)
  | OpWrmsr index value t0 t1 =>
      match wrmsr s index value t0 t1 with
      | Some (s', eoi, _) => written (reg_from_msr index) (s', eoi)
      | None => (s, Quiet)
      end
  | OpMmio gpa w val t0 t1 =>
      match mmio_access s gpa w val t0 t1 with
      | Some (s', eoi, _) => if w then written (gpa - APIC_GPA) (s', eoi) else (s', Quiet)
      | None => (s, Quiet)
      end
  | OpSetTpr v => (write_tpr s v, Quiet)
  | OpSetCr8 v => (set_cr8 s v, Quiet)
  | OpFire t0 t1 => (fst (on_host_timer_fire s t0 t1), Quiet)
  | OpPoll now t0 t1 => (fst (poll_timer_expiry s now t0 t1), Quiet)
  | OpForce t0 t1 => (fst (force_firmware_lapic_timer_expiry s t0 t1), Quiet)
  | OpRelatch now => (fst (relatch_if_idle s now), Quiet)
  | OpGtimer3Latch => (fst (take_gtimer3_latch s), Quiet)
  | OpApicOkLatch => (fst (take_apic_ok_latch s), Quiet)
  end.

Fixpoint run (s : Lapic) (ops : list Op) : Lapic * list Event :=
  match ops with
  | [] => (s, [])
  | o :: ops => let '(s, e) := exec s o in let '(s, es) := run s ops in (s, e :: es)
  end.

(** The abstract controller: the vectors in service, greatest first. A delivery is of a
    class above all of them; a forced one joins them at its place; an end of interrupt
    retires the greatest, and does nothing exactly when none is in service. Without
    forced deliveries this is a stack: a delivery pushes and an end of interrupt pops. *)
Fixpoint merge_in (v : Z) (st : list Z) : list Z :=
  match st with
  | [] => [v]
  | u :: rest => if u <? v then v :: st else if u =? v then st else u :: merge_in v rest
  end.

Definition astep (st : list Z) (e : Event) : option (list Z) :=
  match e, st with
  | Delivered v, _ => if forallb (λ x, class x <? class v) st then Some (v :: st) else None
  | Forced v, _ => Some (merge_in v st)
  | Eoi (Some v), x :: st' => if x =? v then Some st' else None
  | Eoi None, [] => Some []
  | Quiet, _ => Some st
  | Restarted, _ => Some []
  | _, _ => None
  end.

(** No delivery has been forced since the last restart. *)
Definition calm_step (calm : bool) (e : Event) : bool :=
  match e with Forced _ => false | Restarted => true | _ => calm end.
Definition calm (es : list Event) : bool := foldl calm_step true es.

Fixpoint arun (st : list Z) (es : list Event) : option (list Z) :=
  match es with
  | [] => Some st
  | e :: es => match astep st e with Some st => arun st es | None => None end
  end.

(** *** Operations that leave the service set alone *)

Definition quiet (s s' : Lapic) : Prop := APIC_ISR s' = APIC_ISR s ∧ (lapic_wf s → lapic_wf s').

Lemma byte_range x : 0 ≤ Z.land x 0xFF < 256.
Proof. change 0xFF with (Z.ones 8). rewrite Z.land_ones by lia. apply Z.mod_pos_bound. lia. Qed.

Lemma quiet_refl s : quiet s s.
Proof. by split. Qed.

Lemma quiet_trans s1 s2 s3 : quiet s1 s2 → quiet s2 s3 → quiet s1 s3.
Proof. intros [E1 W1] [E2 W2]. split; [congruence|auto]. Qed.

(** Setters of fields outside the registers. *)
Ltac quiet_field := split; [reflexivity|]; intros []; split; cbn; eauto using byte_range; congruence.

Lemma quiet_irr s v : 0 ≤ v < 256 → quiet s (set_irr_bit s v).
Proof. intros Hv. split; [done|]. intros []. split; cbn; auto using reg_wf_set. Qed.

Lemma quiet_pending s v : 0 ≤ v < 256 → quiet s (set_pending s (Some v)).
Proof. intros Hv. split; [done|]. intros []. split; cbn; try done. by intros ? [= <-]. Qed.

Lemma quiet_selfm s m : (lapic_wf s → reg_wf m) → quiet s (set_selfm s m).
Proof. intros Hm. split; [done|]. intros W. split; cbn; try apply W. by apply Hm. Qed.

Lemma arm_quiet s now : quiet s (arm_guest_delivery_if_needed s now).
Proof.
  unfold arm_guest_delivery_if_needed. destruct (_ && _); [|apply quiet_refl].
  eapply quiet_trans; [|apply quiet_pending, byte_range]. quiet_field.
Qed.

Lemma start_quiet s val t0 t1 : quiet s (start_countdown s val t0 t1).
Proof.
  unfold start_countdown. cbv zeta. destruct (val =? 0); [quiet_field|].
  eapply quiet_trans; [|apply arm_quiet]. quiet_field.
Qed.

Lemma fire_quiet s t0 t1 : quiet s (fst (on_host_timer_fire s t0 t1)).
Proof.
  unfold on_host_timer_fire. destruct (negb _); [apply quiet_refl|]. cbn [fst]. cbv zeta.
  split.
  - repeat match goal with |- context [if ?b then _ else _] => destruct b end;
      rewrite ?(proj1 (arm_quiet _ _)); done.
  - intros W. pose proof (wf_pending s W) as P.
    set (v := default (lvt_timer_vector (set_armed s false)) (PENDING_VECTOR (set_armed s false))).
    assert (0 ≤ v < 256) as Hv.
    { unfold v. cbn. destruct (PENDING_VECTOR s); cbn; [by apply P|apply byte_range]. }
    assert (lapic_wf (set_pending (set_armed s false) None)) as W0 by (destruct W; by split).
    repeat match goal with |- context [if ?b then _ else _] => destruct b end;
      (apply arm_quiet || idtac); destruct W0; split; cbn in *; auto using reg_wf_set.
Qed.

Lemma poll_quiet s now t0 t1 : quiet s (fst (poll_timer_expiry s now t0 t1)).
Proof.
  unfold poll_timer_expiry. destruct (_ || _); [apply quiet_refl|].
  destruct (_ <? _); [apply quiet_refl|apply fire_quiet].
Qed.

Lemma force_quiet s t0 t1 : quiet s (fst (force_firmware_lapic_timer_expiry s t0 t1)).
Proof.
  unfold force_firmware_lapic_timer_expiry. cbv zeta.
  eapply quiet_trans; [|apply fire_quiet].
  eapply quiet_trans; [|apply quiet_pending, byte_range].
  repeat match goal with |- context [if ?b then _ else _] => destruct b end; quiet_field.
Qed.

Lemma relatch_quiet s now : quiet s (fst (relatch_if_idle s now)).
Proof.
  unfold relatch_if_idle. repeat (destruct (_ || _); [apply quiet_refl|]).
  destruct (_ && _); [apply quiet_refl|]. cbv zeta. cbn [fst].
  eapply quiet_trans; [|apply quiet_irr, byte_range]. quiet_field.
Qed.

Lemma accept_quiet s val : quiet s (accept_icr_low s val).
Proof.
  unfold accept_icr_low. cbv zeta. destruct (_ || _); [apply quiet_refl|].
  destruct (negb _); [apply quiet_refl|].
  eapply quiet_trans; [apply quiet_irr, (byte_range val)|]. apply quiet_selfm.
  intros []. apply reg_wf_set; [done|apply byte_range].
Qed.

Lemma write_reg_quiet s reg val t0 t1 : reg ≠ REG_EOI → quiet s (fst (write_reg s reg val t0 t1)).
Proof.
  intros N. unfold write_reg. rewrite (proj2 (Z.eqb_neq _ _) N).
  repeat match goal with |- context [if ?b then _ else _] => destruct b end; cbn [fst];
    try first [apply start_quiet | apply accept_quiet | apply quiet_refl | quiet_field];
    (eapply quiet_trans; [|apply arm_quiet]); quiet_field.
Qed.

(** *** Deliveries *)

(** A delivery takes an unblocked vector out of a state that agrees with [s] on
    the service set and the priority, or leaves the service set alone. *)
Definition delivers (s : Lapic) (r : Lapic * option Z) : Prop :=
  match snd r with
  | Some v => 0 ≤ v < 256 ∧ unblocked s v ∧ ∃ s0, quiet s s0 ∧ fst r = deliver s0 v
  | None => quiet s (fst r)
  end.

Lemma take_irr_vector_delivers s : lapic_wf s → delivers s (take_deliverable_vector s).
Proof.
  intros W. unfold take_deliverable_vector, take_irr_vector. cbn [negb andb].
  pose proof (highest_bit_spec _ (wf_irr s W)) as Hh.
  destruct (highest_bit (APIC_IRR s)) as [v|]; [|apply quiet_refl].
  destruct Hh as [Hv%vecs_range _]. case_match eqn:E; [apply quiet_refl|].
  apply Z.leb_gt in E. split_and!; [lia..|by apply ppr_unblocked|]. exists s. split; [apply quiet_refl|done].
Qed.

Lemma take_irr_vec_delivers s v : lapic_wf s → 0 ≤ v < 256 → delivers s (take_irr_vec s v false).
Proof.
  intros W Hv. unfold take_irr_vec. destruct (v <? 16); [apply quiet_refl|].
  destruct (negb _); [apply quiet_refl|]. cbn [negb andb].
  case_match eqn:E; [apply quiet_refl|]. apply Z.leb_gt in E.
  split_and!; [lia..|by apply ppr_unblocked|]. exists s. split; [apply quiet_refl|done].
Qed.

Lemma self_ipi_range s v : lapic_wf s → highest_self_ipi s = Some v → 0 ≤ v < 256.
Proof.
  intros W E. unfold highest_self_ipi in E. epose proof (highest_in_spec _ _) as H.
  rewrite E in H. destruct H as [H _]. unfold vec_of in H. rewrite !andb_true_iff in H. lia.
  Unshelve. intros i. apply bits32; [apply Z.land_nonneg; left; apply (wf_self s W)|].
  intros j Hj. by rewrite Z.land_spec, (high32 _ _ (proj2 (wf_self s W) i) Hj).
Qed.

Lemma take_self_ipi_delivers s : lapic_wf s → delivers s (take_self_ipi s).
Proof.
  intros W. unfold take_self_ipi. destruct (highest_self_ipi s) as [v|] eqn:E; [|apply quiet_refl].
  pose proof (self_ipi_range _ _ W E) as Hv. destruct (_ <=? _); [apply quiet_refl|].
  set (s1 := set_selfm s _).
  assert (quiet s s1) as Q by (apply quiet_selfm; intros []; by apply reg_wf_clear).
  pose proof (take_irr_vec_delivers s1 v (proj2 Q W) Hv) as D. unfold delivers in *.
  destruct (snd _) as [u|].
  - destruct D as (R & U & s0 & Q0 & Es). split_and!; [lia..|exact U|]. exists s0.
    split; [by apply (quiet_trans _ s1)|done].
  - by apply (quiet_trans _ s1).
Qed.

(** *** The stack *)

Definition desc (x y : Z) : Prop := class y < class x.
Definition above (x y : Z) : Prop := y < x.

Record stacked (s : Lapic) (st : list Z) (calm : bool) : Prop := {
  st_wf : lapic_wf s;
  st_isr : ∀ v, in_service s v = true ↔ v ∈ st;
  st_sorted : StronglySorted above st;
  st_nested : calm = true → StronglySorted desc st ∧ Forall (λ v, 0 < class v) st;
}.

Lemma stacked_reset : stacked reset [] true.
Proof.
  split; [apply reset_wf| |constructor|intros _; split; constructor].
  intros v. split; [|by intros H%not_elem_of_nil].
  unfold in_service, vecs, vec_of. cbn [APIC_ISR reset]. unfold word. intros H. exfalso.
  assert (default 0 (replicate 8 0 !! Z.to_nat (v / 32)) = 0) as E0.
  { destruct (_ !! _) as [x|] eqn:E; [|done]. by apply lookup_replicate_1 in E as [-> _]. }
  rewrite E0, Z.bits_0, andb_false_r in H. done.
Qed.

Lemma stacked_quiet s s' st c : stacked s st c → quiet s s' → stacked s' st c.
Proof. intros [] [E Q]. split; [by apply Q| |done..]. unfold in_service. by rewrite E. Qed.

Lemma deliver_in_service s v u : lapic_wf s → 0 ≤ v < 256 →
  in_service (deliver s v) u = true ↔ u = v ∨ in_service s u = true.
Proof.
  intros W Hv. unfold in_service. rewrite deliver_isr, vecs_set by (done || apply W).
  by rewrite orb_true_iff, Z.eqb_eq.
Qed.

(** One operation takes a state to one that the abstract controller follows. *)
Definition follows (s : Lapic) (st : list Z) (c : bool) (r : Lapic * Event) : Prop :=
  ∃ st', astep st (snd r) = Some st' ∧ stacked (fst r) st' (calm_step c (snd r)).

Lemma follows_quiet s st c s' : stacked s st c → quiet s s' → follows s st c (s', Quiet).
Proof. intros S Q. exists st. split; [done|by eapply stacked_quiet]. Qed.

Lemma stacked_deliver s r st c : stacked s st c → delivers s r → follows s st c (delivered r).
Proof.
  intros S D. unfold delivered, delivers in *. destruct (snd r) as [v|]; [|by apply follows_quiet].
  destruct D as (Hv & [T U] & s0 & Q & ->).
  assert (Forall (desc v) st) as F.
  { apply Forall_forall. intros u Hu%(st_isr _ _ _ S). by apply U. }
  assert (0 ≤ class (tpr s)) by (apply Z.land_nonneg; by right).
  exists (v :: st). cbn [fst snd]. split.
  - cbn [astep]. assert (forallb (λ x, class x <? class v) st = true) as ->; [|done].
    apply forallb_forall. intros x Hx%list_elem_of_In. rewrite Forall_forall in F. by apply Z.ltb_lt, F.
  - apply (stacked_quiet _ s0) in S; [|done]. destruct S as [W I O N].
    split; [by apply deliver_wf| |constructor; [done|]|].
    + intros u. rewrite deliver_in_service, I, elem_of_cons by done. done.
    + rewrite Forall_forall in F. apply Forall_forall. intros u Hu. specialize (F _ Hu). unfold desc in F. unfold above.
      apply I, vecs_range in Hu. destruct (Z_lt_ge_dec u v); [done|]. assert (class v ≤ class u) by (apply class_mono; lia). lia.
    + intros K. destruct (N K). split; [by constructor|constructor; [lia|done]].
Qed.

Lemma elem_of_merge_in v st u : u ∈ merge_in v st ↔ u = v ∨ u ∈ st.
Proof.
  induction st as [|x st IH]; cbn [merge_in]; [by rewrite elem_of_cons|].
  destruct (x <? v); [by rewrite !elem_of_cons|]. destruct (Z.eqb_spec x v) as [->|]; rewrite !elem_of_cons; [tauto|].
  rewrite IH. tauto.
Qed.

Lemma merge_in_sorted v st : StronglySorted above st → StronglySorted above (merge_in v st).
Proof.
  induction 1 as [|x st O IH F]; cbn [merge_in]; [by repeat constructor|].
  destruct (Z.ltb_spec x v) as [L|G].
  - constructor; [by constructor|]. constructor; [done|]. eapply Forall_impl; [exact F|]. unfold above. lia.
  - destruct (Z.eqb_spec x v); [by constructor|]. constructor; [done|]. rewrite Forall_forall in F.
    apply Forall_forall. intros u [->|Hu]%elem_of_merge_in; [unfold above; lia|by apply F].
Qed.

(** A forced delivery moves the vector into service whatever is there. *)
Lemma stacked_force s r st c : stacked s st c →
  match snd r with Some v => 0 ≤ v < 256 ∧ fst r = deliver s v | None => quiet s (fst r) end →
  follows s st c (forced r).
Proof.
  intros S D. unfold forced. destruct (snd r) as [v|]; [|by apply follows_quiet]. destruct D as [Hv ->].
  destruct S as [W I O N]. exists (merge_in v st). split; [done|]. cbn [fst snd calm_step].
  split; [by apply deliver_wf| |by apply merge_in_sorted|done].
  intros u. by rewrite deliver_in_service, I, elem_of_merge_in.
Qed.

Lemma take_highest_forces s : lapic_wf s →
  match snd (take_highest_irr s) with
  | Some v => 0 ≤ v < 256 ∧ fst (take_highest_irr s) = deliver s v
  | None => quiet s (fst (take_highest_irr s))
  end.
Proof.
  intros W. unfold take_highest_irr, take_irr_vector. pose proof (highest_bit_spec _ (wf_irr s W)) as H.
  destruct (highest_bit (APIC_IRR s)) as [v|]; [|apply quiet_refl]. destruct H as [H%vecs_range _]. done.
Qed.

Lemma take_irr_vec_forces s v : 0 ≤ v < 256 →
  match snd (take_irr_vec s v true) with
  | Some u => 0 ≤ u < 256 ∧ fst (take_irr_vec s v true) = deliver s u
  | None => quiet s (fst (take_irr_vec s v true))
  end.
Proof.
  intros Hv. unfold take_irr_vec. destruct (v <? 16); [apply quiet_refl|].
  destruct (negb (bit_is_set _ _)); [apply quiet_refl|]. by split.
Qed.

(** The greatest vector in service is the first. *)
Lemma stacked_top s x st c : stacked s (x :: st) c →
  handle_eoi s = (set_isr s (bit_clear (APIC_ISR s) x), Some x).
Proof.
  intros [W I O _]. apply handle_eoi_max; [done|by apply I, list_elem_of_here|].
  intros u [->|Hu]%I%elem_of_cons; [done|]. apply StronglySorted_inv in O as [_ F].
  rewrite Forall_forall in F. specialize (F _ Hu). unfold above in F. lia.
Qed.

Lemma stacked_eoi s st c : stacked s st c → follows s st c (fst (handle_eoi s), Eoi (snd (handle_eoi s))).
Proof.
  intros S. destruct st as [|x st].
  - exists []. unfold handle_eoi. pose proof (highest_bit_spec _ (wf_isr s (st_wf _ _ _ S))) as H.
    destruct (highest_bit _) as [v|]; [|done]. destruct H as [H%(st_isr _ _ _ S)%not_elem_of_nil _]. done.
  - rewrite (stacked_top _ _ _ _ S). cbn [fst snd]. exists st. split; [cbn; by rewrite Z.eqb_refl|].
    destruct S as [W I O N]. apply StronglySorted_inv in O as [O F].
    assert (in_service s x = true) as Hx%vecs_range by by apply I, list_elem_of_here.
    split; [| |done|].
    + destruct W. split; cbn; auto using reg_wf_clear.
    + intros u. unfold in_service. cbn. rewrite vecs_clear by (done || apply W).
      rewrite andb_true_iff, negb_true_iff, Z.eqb_neq. fold (in_service s u). rewrite I, elem_of_cons.
      split; [tauto|]. intros Hu. split; [|by right]. intros ->.
      rewrite Forall_forall in F. specialize (F _ Hu). unfold above in F. lia.
    + intros K. destruct (N K) as [D C]. apply StronglySorted_inv in D as [D _]. by apply Forall_cons in C as [_ C].
Qed.

Lemma stacked_write s st c reg val t0 t1 : stacked s st c → follows s st c (written reg (write_reg s reg val t0 t1)).
Proof.
  intros S. unfold written. destruct (Z.eqb_spec reg REG_EOI) as [->|N].
  - by apply stacked_eoi.
  - apply follows_quiet; [done|by apply write_reg_quiet].
Qed.

Lemma exec_stacked s st c o : stacked s st c → op_ok o → follows s st c (exec s o).
Proof.
  intros S K. pose proof (λ s', follows_quiet s st c s' S) as Q. pose proof (st_wf _ _ _ S) as W.
  destruct o; cbn [exec op_ok] in *.
  - apply stacked_deliver; [done|by apply take_irr_vector_delivers].
  - apply stacked_deliver; [done|by apply take_irr_vec_delivers].
  - apply stacked_force; [done|by apply take_highest_forces].
  - apply stacked_force; [done|by apply take_irr_vec_forces].
  - exists []. split; [done|apply stacked_reset].
  - apply stacked_deliver; [done|by apply take_self_ipi_delivers].
  - apply stacked_deliver; [done|apply take_irr_vec_delivers; [done|apply byte_range]].
  - apply Q. unfold latch_irr. destruct (16 <=? vec); [by apply quiet_irr|apply quiet_refl].
  - unfold wrmsr. destruct (negb _); [apply Q, quiet_refl|].
    pose proof (stacked_write _ _ _ (reg_from_msr index) (value mod 4294967296) t0 t1 S) as H.
    destruct (write_reg _ _ _ _ _) as [s' eoi]. exact H.
  - unfold mmio_access, reg_from_gpa. destruct (negb _); [apply Q, quiet_refl|].
    destruct is_write; [|apply Q, quiet_refl].
    pose proof (stacked_write _ _ _ (gpa - APIC_GPA) val t0 t1 S) as H.
    destruct (write_reg _ _ _ _ _) as [s' eoi]. exact H.
  - apply Q. quiet_field.
  - apply Q. quiet_field.
  - apply Q, fire_quiet.
  - apply Q, poll_quiet.
  - apply Q, force_quiet.
  - apply Q, relatch_quiet.
  - apply Q. unfold take_gtimer3_latch. destruct (GTIMER3_PRINT s); [quiet_field|apply quiet_refl].
  - apply Q. unfold take_apic_ok_latch. destruct (APIC_OK_PRINT s); [quiet_field|apply quiet_refl].
Qed.

Lemma run_stacked ops : ∀ s st c, stacked s st c → Forall op_ok ops →
  ∃ st', arun st (snd (run s ops)) = Some st' ∧ stacked (fst (run s ops)) st' (foldl calm_step c (snd (run s ops))).
Proof.
  induction ops as [|o ops IH]; intros s st c S F; [by exists st|].
  apply Forall_cons in F as [K F]. destruct (exec_stacked _ _ _ _ S K) as (st1 & A & S1).
  cbn [run]. destruct (exec s o) as [s1 e]. destruct (IH _ _ _ S1 F) as (st2 & A2 & S2).
  cbn [fst snd] in *. destruct (run s1 ops) as [s2 es]. exists st2. cbn in *. by rewrite A.
Qed.

(** Distinct classes: the stack is at most as deep as the top's class. *)
Lemma stack_depth x st : StronglySorted desc (x :: st) → Forall (λ v, 0 ≤ v < 256 ∧ 0 < class v) (x :: st) →
  16 * Z.of_nat (length (x :: st)) ≤ class x.
Proof.
  revert x. induction st as [|y st IH]; intros x O F; apply Forall_cons in F as [[Hx Cx] F].
  - rewrite class_div in * by done. cbn [length]. dlia.
  - apply StronglySorted_inv in O as [O D]. apply Forall_cons in D as [D _].
    specialize (IH _ O F). apply Forall_cons in F as [[Hy _] _].
    unfold desc in D. cbn [length] in *. rewrite !class_div in * by done. dlia.
Qed.

(** C9: over any sequence of operations from power-on, forced deliveries and restarts
    included, the controller refines the abstract one: the in-service register holds
    exactly its vectors, every delivery that heeds the priorities is of a class above
    everything in service, every end of interrupt retires the greatest vector in service,
    and one with nothing in service retires nothing. As long as no delivery has been
    forced since the last restart these are the nested interrupts of a stack: the end of
    interrupt retires the vector delivered last, and the stack is never more than 15
    deep. *)
Theorem nested_interrupts (ops : list Op) : Forall op_ok ops →
  let '(s, es) := run reset ops in
  ∃ st, arun [] es = Some st ∧ (∀ v, in_service s v = true ↔ v ∈ st) ∧ StronglySorted above st ∧
        (calm es = true → StronglySorted desc st ∧ (length st ≤ 15)%nat).
Proof.
  intros F. destruct (run_stacked ops reset [] true stacked_reset F) as (st & A & [W I O N]).
  destruct (run reset ops) as [s es]. exists st. split_and!; [done..|]. intros K. destruct (N K) as [D C]. split; [done|].
  destruct st as [|x st]; [cbn; lia|].
  assert (Forall (λ v, 0 ≤ v < 256) (x :: st)) as R.
  { apply Forall_forall. intros v Hv%I. by apply vecs_range in Hv. }
  pose proof (stack_depth x st D) as L. rewrite Forall_and in L. specialize (L (conj R C)).
  apply Forall_cons in R as [R _]. rewrite class_div in L by done. dlia.
Qed.

(** Three nested deliveries, unwound in reverse order through both register
    windows; the timer's vector is raised by its countdown. *)
Definition nest : list Op :=
  [OpLatch 0x31; OpDeliver; OpSetCr8 2; OpMmio (APIC_GPA + 0x300) true 0x40051 0 0; OpSelfIpi;
   OpWrmsr 0x832 0xEF 0 0; OpWrmsr 0x838 10 100 100; OpPoll 100000 100000 100000; OpDeliver;
   OpLatch 0x30; OpDeliver;
   OpWrmsr 0x80B 0 0 0; OpMmio (APIC_GPA + 0xB0) true 0 0 0].

Lemma nested_interrupts_witness :
  omap (λ e, match e with Delivered v => Some v | _ => None end) (snd (run reset nest)) = [0x31; 0x51; 0xEF] ∧
  ∃ st, arun [] (snd (run reset nest)) = Some st ∧ st = [0x31] ∧
        ∀ v, in_service (fst (run reset nest)) v = true ↔ v ∈ st.
Proof.
  split; [by vm_compute|].
  assert (Forall op_ok nest) as F by (repeat constructor; cbn; lia).
  pose proof (nested_interrupts nest F) as H.
  destruct (run reset nest) as [s es] eqn:E. destruct H as (st & A & I & _).
  exists st. split_and!; [done| |done].
  assert (es = snd (run reset nest)) as Ees by by rewrite E.
  rewrite Ees in A. vm_compute in A. congruence.
Defined.

(** After a forced delivery the end of interrupt retires the older vector, not the one
    delivered last. *)
Example forced_not_nested :
  let '(s, es) := run reset [OpLatch 0x61; OpDeliver; OpLatch 0x31; OpTakeHighest; OpWrmsr 0x80B 0 0 0] in
  es = [Quiet; Delivered 0x61; Quiet; Forced 0x31; Eoi (Some 0x61)] ∧ in_service s 0x31 = true ∧ calm es = false.
Proof. by vm_compute. Qed.

(** ** The countdown *)

Definition periodic (s : Lapic) : bool := negb (Z.land (APIC_LVT_TIMER s) LVT_PERIODIC =? 0).

(** Timer counts between two time stamps. *)
Definition counts (s : Lapic) (t0 t : Z) : Z := (t - t0) / TSC_PER_BUS_CYCLE / divide_value (APIC_DIVIDE s).

Lemma elapsed_running s now : TIMER_RUNNING s = true → APIC_INIT_COUNT s ≠ 0 →
  0 ≤ TIMER_START_TSC s ≤ now → u64 now → elapsed_counts s now = counts s (TIMER_START_TSC s) now.
Proof.
  intros R I T N. unfold elapsed_counts, counts. rewrite R, (proj2 (Z.eqb_neq _ _) I). cbn [negb orb].
  by rewrite sub64_small by (done || lia).
Qed.

(** The state of a countdown from [val] begun at [t0]. *)
Definition counting (s : Lapic) (val t0 : Z) : Lapic := set_running (set_start (set_init s val) t0) true.

Lemma count_running s val t0 now : 0 < val → 0 ≤ t0 ≤ now → u64 now →
  current_count_raw (counting s val t0) now =
  if periodic s then val - counts s t0 now mod val else Z.max 0 (val - counts s t0 now).
Proof.
  intros V T N. unfold current_count_raw.
  rewrite (elapsed_running (counting s val t0)) by (cbn; lia || done). cbn.
  rewrite (proj2 (Z.eqb_neq val 0)) by lia. unfold periodic, counts. cbn.
  destruct (negb _); [done|]. destruct (Z.leb_spec val ((now - t0) / TSC_PER_BUS_CYCLE / divide_value (APIC_DIVIDE s))); lia.
Qed.

(** Not already over when it is armed. *)
Definition live (s : Lapic) (val t0 t : Z) : Prop := periodic s = false → counts s t0 t < val.

Lemma arm_counting s val t0 t1 : timer_should_deliver s = true → 0 < val → 0 ≤ t0 ≤ t1 → u64 t1 →
  live s val t0 t1 →
  arm_guest_delivery_if_needed (counting s val t0) t1 =
  set_pending (set_armed (counting s val t0) true) (Some (lvt_timer_vector s)).
Proof.
  intros D V T U L. unfold arm_guest_delivery_if_needed. rewrite (count_running s) by done.
  change (timer_should_deliver (counting s val t0)) with (timer_should_deliver s). rewrite D. cbn [counting set_running TIMER_RUNNING].
  cbn [andb]. rewrite (proj2 (Z.eqb_neq _ _)); [done|]. unfold live in L.
  destruct (periodic s); [|specialize (L eq_refl); lia].
  pose proof (Z.mod_pos_bound (counts s t0 t1) val). lia.
Qed.

(** A countdown from [val] started at [t0] with the timer unmasked reads, at any
    later time, the counts that are left; polling it fires exactly when they are
    used up, and then latches the timer's vector and no other request. A one-shot
    timer never fires again before it is rewritten, a periodic one is rearmed from
    the time of the poll. *)
Theorem countdown_exact (s : Lapic) (val t0 t1 now t2 t3 : Z) :
  lapic_wf s → timer_should_deliver s = true → 0 < val →
  0 ≤ t0 ≤ t1 → u64 t1 → t0 ≤ now → u64 now → 0 ≤ t2 ≤ t3 → u64 t3 → live s val t0 t1 →
  let s1 := start_countdown s val t0 t1 in
  let '(s2, fired) := poll_timer_expiry s1 now t2 t3 in
  current_count_raw s1 now =
    (if periodic s then val - counts s t0 now mod val else Z.max 0 (val - counts s t0 now)) ∧
  fired = (val <=? counts s t0 now) ∧
  (fired = false → s2 = s1) ∧
  (fired = true →
     (∀ u, requested s2 u = (u =? lvt_timer_vector s) || requested s u) ∧
     (∀ u, in_service s2 u = in_service s u) ∧
     if periodic s
     then HOST_TIMER_FOR_GUEST s2 = true ∧ TIMER_RUNNING s2 = true ∧ TIMER_START_TSC s2 = t2
     else ∀ n a b, poll_timer_expiry s2 n a b = (s2, false)).
Proof.
  intros W D V T1 U1 TN UN T2 U2 L. cbv zeta.
  assert (start_countdown s val t0 t1 =
          set_pending (set_armed (counting s val t0) true) (Some (lvt_timer_vector s))) as E1.
  { unfold start_countdown. cbv zeta. rewrite (proj2 (Z.eqb_neq val 0)) by lia. by apply arm_counting. }
  rewrite E1. set (s1 := set_pending _ _).
  assert (elapsed_counts s1 now = counts s t0 now) as EL.
  { rewrite (elapsed_running s1) by (cbn; lia || done). done. }
  unfold poll_timer_expiry. rewrite EL. cbn [s1 set_pending set_armed HOST_TIMER_FOR_GUEST negb orb].
  change (TIMER_RUNNING s1) with true. change (APIC_INIT_COUNT s1) with val.
  rewrite (proj2 (Z.eqb_neq val 0)) by lia. cbn [negb orb].
  rewrite Z.leb_antisym. destruct (Z.ltb_spec (counts s t0 now) val).
  - split_and!; [|done..]. apply (count_running s); (lia || done).
  - set (s3 := set_irr_bit (set_pending (set_armed s1 false) None) (lvt_timer_vector s)).
    set (s4 := if negb (GTIMER3_OK s3) then set_gt3p (set_gt3 s3 true) true else s3).
    assert (on_host_timer_fire s1 t2 t3 =
            (if periodic s then set_pending (set_armed (counting s4 val t2) true) (Some (lvt_timer_vector s))
             else set_running s4 false, true)) as EF.
    { unfold on_host_timer_fire. cbn [s1 set_pending set_armed HOST_TIMER_FOR_GUEST negb].
      cbv zeta. change (timer_should_deliver (set_pending (set_armed s1 false) None)) with (timer_should_deliver s).
      rewrite D. change (default _ _) with (lvt_timer_vector s). fold s3. fold s4.
      assert (timer_should_deliver s4 = true ∧ APIC_LVT_TIMER s4 = APIC_LVT_TIMER s ∧ APIC_INIT_COUNT s4 = val ∧
              lvt_timer_vector s4 = lvt_timer_vector s ∧ set_init s4 val = s4) as (D4 & P4 & I4 & L4 & S4).
      { unfold s4. destruct (negb _); split_and!; done. }
      rewrite D4, P4, I4, (proj2 (Z.eqb_neq val 0)) by lia. fold (periodic s). destruct (periodic s) eqn:EP; [|done].
      cbn [andb negb]. rewrite <-S4, <-L4 at 1. f_equal. apply (arm_counting s4); try done.
      unfold live, periodic. rewrite P4. fold (periodic s). by rewrite EP. }
    rewrite EF. split_and!; [apply (count_running s); (lia || done)|done..|].
    intros _.
    assert (APIC_IRR s4 = APIC_IRR s3 ∧ APIC_ISR s4 = APIC_ISR s) as [R4 I4] by (unfold s4; by destruct (negb _)).
    split_and!.
    + intros u. unfold requested. rewrite <-vecs_set by (apply byte_range || apply W).
      destruct (periodic s); cbn; by rewrite R4.
    + intros u. unfold in_service. destruct (periodic s); cbn; by rewrite I4.
    + destruct (periodic s); [done|]. intros n a b. unfold poll_timer_expiry.
      cbn [set_running TIMER_RUNNING negb]. by rewrite orb_true_r.
Qed.

(** The timer enabled by its local vector entry, one-shot. *)
Definition unmasked : Lapic := set_lvt reset 0xEF.

Lemma countdown_exact_witness :
  let s1 := start_countdown unmasked 10 1000 1100 in
  snd (poll_timer_expiry s1 6119 7000 7000) = false ∧
  snd (poll_timer_expiry s1 6120 7000 7000) = true ∧
  requested (fst (poll_timer_expiry s1 6120 7000 7000)) 0xEF = true ∧
  current_count_raw s1 6120 = 0.
Proof.
  cbv zeta. split_and!; [by vm_compute..|].
  assert (lapic_wf unmasked) as W by (destruct reset_wf; by split).
  epose proof (countdown_exact unmasked 10 1000 1100 6120 7000 7000 W eq_refl) as H.
  cbv zeta in H. destruct (poll_timer_expiry _ _ _ _) as [s2 fired].
  edestruct H as [E _]; [done..|exact E].
Defined.

(** ** The MSR bitmap *)

Definition hits (msr x b : Z) (read : bool) : bool :=
  (x =? (if read then 0 else 1024) + msr / 8) && (b =? msr mod 8).

Lemma set_msr_bit_spec p msr read x b : 
  Z.testbit (set_msr_bit p msr read x) b = hits msr x b read || Z.testbit (p x) b.
Proof.
  unfold set_msr_bit, hits. cbv zeta. destruct (Z.eqb_spec x ((if read then 0 else 1024) + msr / 8)) as [E|N]; [|done].
  rewrite <-E, Z.lor_spec, one_bit, orb_comm by dlia. done.
Qed.

Lemma trap_fold_spec l : ∀ p x b,
  Z.testbit (foldl (λ p msr, set_msr_bit (set_msr_bit p msr true) msr false) p l x) b =
  existsb (λ msr, hits msr x b true || hits msr x b false) l || Z.testbit (p x) b.
Proof.
  induction l as [|m l IH]; intros p x b; [done|]. cbn [foldl existsb]. rewrite IH, !set_msr_bit_spec.
  destruct (existsb _ _), (hits m x b true), (hits m x b false); done.
Qed.

Lemma hits_low msr m c read : 0 ≤ msr < 8192 → 0 ≤ m < 8192 → 0 ≤ c < 4 →
  hits m (1024 * c + msr / 8) (msr mod 8) read = (m =? msr) && (c =? (if read then 0 else 1)).
Proof.
  intros H1 H2 Hc. unfold hits. apply eq_true_iff_eq.
  rewrite !andb_true_iff, !Z.eqb_eq. destruct read; dlia.
Qed.

(** Bit of [msr] in the [c]th kilobyte after the traps are set in a zeroed
    page. *)
Lemma trap_bit msr c : 0 ≤ msr < 8192 → 0 ≤ c < 4 →
  Z.testbit (trap_x2apic_msrs (λ _, 0) (1024 * c + msr / 8)) (msr mod 8) =
  (is_x2apic_msr msr || (msr =? 0x1B)) && (c <? 2).
Proof.
  intros Hm Hc. unfold trap_x2apic_msrs. cbv zeta.
  rewrite !set_msr_bit_spec, trap_fold_spec, Z.bits_0, !hits_low, orb_false_r by lia.
  assert (existsb (λ m, hits m (1024 * c + msr / 8) (msr mod 8) true || hits m (1024 * c + msr / 8) (msr mod 8) false)
            (seqZ X2APIC_MSR_BASE (X2APIC_MSR_LAST - X2APIC_MSR_BASE + 1)) = is_x2apic_msr msr && (c <? 2)) as ->.
  { apply eq_true_iff_eq. rewrite existsb_exists, andb_true_iff. unfold is_x2apic_msr. split.
    - intros (m & Hin%list_elem_of_In%elem_of_seqZ & H). unfold X2APIC_MSR_LAST, X2APIC_MSR_BASE in *.
      rewrite !hits_low in H by lia. lia.
    - unfold X2APIC_MSR_LAST, X2APIC_MSR_BASE. intros [H C]. exists msr. split.
      + apply list_elem_of_In, elem_of_seqZ. lia.
      + rewrite !hits_low by lia. lia. }
  destruct (is_x2apic_msr msr); destruct (Z.eqb_spec 0x1B msr), (Z.eqb_spec msr 0x1B), (Z.ltb_spec c 2),
    (Z.eqb_spec c 0), (Z.eqb_spec c 1); try done; lia.
Qed.

(** C29: With the traps set in a zeroed page, the processor exits on reads of the
    x2APIC registers and of the APIC base, as intended, but on no write of them;
    the bits meant for writes land in the read map of the high registers, so the
    same offsets from 0xC0000000 exit on reads instead. *)
Theorem x2apic_traps_exact (msr : Z) : 0 ≤ msr ≤ 0x1FFF →
  let p := trap_x2apic_msrs (λ _, 0) in
  let trapped := is_x2apic_msr msr || (msr =? 0x1B) in
  msr_exits p msr false = trapped ∧
  msr_exits p msr true = false ∧
  msr_exits p (0xC0000000 + msr) false = trapped ∧
  msr_exits p (0xC0000000 + msr) true = false.
Proof.
  intros Hm. cbv zeta.
  pose proof (λ c, trap_bit msr c ltac:(lia)) as B.
  assert (∀ w : bool, msr_exits (trap_x2apic_msrs (λ _, 0)) msr w =
            Z.testbit (trap_x2apic_msrs (λ _, 0) (1024 * (if w then 2 else 0) + msr / 8)) (msr mod 8)) as L.
  { intros w. unfold msr_exits. replace ((0 <=? msr) && (msr <=? 0x1FFF)) with true by lia. by destruct w. }
  assert (∀ w : bool, msr_exits (trap_x2apic_msrs (λ _, 0)) (0xC0000000 + msr) w =
            Z.testbit (trap_x2apic_msrs (λ _, 0) (1024 * (if w then 3 else 1) + msr / 8)) (msr mod 8)) as H.
  { intros w. unfold msr_exits.
    replace ((0 <=? 0xC0000000 + msr) && (0xC0000000 + msr <=? 0x1FFF)) with false by lia.
    replace ((0xC0000000 <=? 0xC0000000 + msr) && (0xC0000000 + msr <=? 0xC0001FFF)) with true by lia.
    replace (0xC0000000 + msr - 0xC0000000) with msr by lia. by destruct w. }
  rewrite !L, !H, !B by lia. rewrite ?andb_true_r, ?andb_false_r. done.
Qed.

(** The write of the end-of-interrupt register, MSR 0x80B, runs on the physical
    controller. *)
Lemma x2apic_traps_exact_witness :
  msr_exits (trap_x2apic_msrs (λ _, 0)) 0x80B false = true ∧
  msr_exits (trap_x2apic_msrs (λ _, 0)) 0x80B true = false.
Proof. destruct (x2apic_traps_exact 0x80B) as (A & B & _); [lia|]. split; [exact A|exact B]. Defined.

(** *** The static register page *)

Definition peek (p : Page) (off : Z) : Z :=
  p off + 256 * p (off + 1) + 65536 * p (off + 2) + 16777216 * p (off + 3).

(** The static image agrees with the register file at power-on on every
    register the two share but the timer's vector, which the image leaves at 0. *)
Lemma fill_xapic_page_reset (p : Page) :
  let q := fill_xapic_page 0x1000 p in
  (∀ reg, reg ∈ [REG_ID; REG_VERSION; REG_TPR; REG_PPR; REG_EOI; REG_SVR; REG_INIT_COUNT; REG_CUR_COUNT] →
     peek q reg = read_reg reset reg 0) ∧
  Z.lor (peek q REG_LVT_TIMER) 0xEF = read_reg reset REG_LVT_TIMER 0.
Proof.
  cbv zeta. split; [|by vm_compute]. intros reg H.
  repeat (apply elem_of_cons in H as [->|H]; [by vm_compute|]). by apply not_elem_of_nil in H.
Qed.

End Lapic.
