(* ===== verification/MmioDecode.v ===== *)
(** * Decoding the guest's register moves

    [vmx/mmio_decode.rs]: the decoder of the [mov] instructions that fault on the
    local-APIC page, and their emulation on the register file. *)

From S2P Require Import Prelude.
From S2P Require Import Lapic.

Module Decode.

Record MovMmio := mkMov { is_write : bool; mreg : Z; mlen : Z }.

Definition at_ (l : list Z) (i : nat) : Z := default 0 (l !! i).

Definition read_gpr (reg : Z) (gprs : list Z) : Z := at_ gprs (Z.to_nat (Z.land reg 15)).

Definition write_gpr (reg val : Z) (gprs : list Z) : list Z :=
  let i := Z.to_nat (Z.land reg 15) in
  <[i := Z.lor (Z.land (at_ gprs i) (bnot64 0xFFFFFFFF)) (Z.land val 0xFFFFFFFF)]> gprs.

(** The number of displacement bytes; [None] is the unreachable arm. *)
Definition disp_bytes (mod_ rm : Z) (sib_base : option Z) : option nat :=
  if mod_ =? 0 then
    if rm =? 5 then Some 4%nat
    else if (rm =? 4) && bool_decide (sib_base = Some 5) then Some 4%nat
    else Some 0%nat
  else if mod_ =? 1 then Some 1%nat
  else if mod_ =? 2 then Some 4%nat
  else None.

(** From the displacement on. *)
Definition decode_disp (n i : nat) (w : bool) (reg : Z) (disp : option nat) : option MovMmio :=
  match disp with
  | None => None
  | Some disp =>
      if negb (disp =? 0)%nat && (n <? i + disp)%nat then None
      else
        let i := (i + disp)%nat in
        if (15 <? i)%nat then None else Some (mkMov w reg (Z.of_nat i))
  end.

(** From the ModRM byte on. *)
Definition decode_modrm (insn : list Z) (i : nat) (w : bool) (rex_r : Z) : option MovMmio :=
  if (length insn <=? i)%nat then None
  else
    let modrm := at_ insn i in
    let i := S i in
    let mod_ := Z.shiftr modrm 6 in
    let reg := Z.lor (Z.land (Z.shiftr modrm 3) 7) (Z.shiftl rex_r 3) in
    let rm := Z.land modrm 7 in
    if mod_ =? 3 then None
    else if rm =? 4 then
      if (length insn <=? i)%nat then None
      else decode_disp (length insn) (S i) w reg (disp_bytes mod_ rm (Some (Z.land (at_ insn i) 7)))
    else decode_disp (length insn) i w reg (disp_bytes mod_ rm None).

(** From the opcode on. *)
Definition decode_op (insn : list Z) (i : nat) (rex_r : Z) : option MovMmio :=
  let op := at_ insn i in
  if op =? 0x89 then decode_modrm insn (S i) true rex_r
  else if op =? 0x8B then decode_modrm insn (S i) false rex_r
  else None.

Definition decode_mov_mmio (insn : list Z) : option MovMmio :=
  if (length insn <? 2)%nat then None
  else
    let b0 := at_ insn 0 in
    if Z.land b0 0xF0 =? 0x40 then
      if (length insn <=? 1)%nat then None else decode_op insn 1 (Z.land (Z.shiftr b0 2) 1)
    else decode_op insn 0 0.

(** The controller state, the vector an end of interrupt hands on, and the
    registers; [t0], [t1] are the time stamps the access may read. *)
Definition apply_apic_mov (s : Lapic.Lapic) (mov : MovMmio) (gpa : Z) (gprs : list Z) (t0 t1 : Z)
    : result (Lapic.Lapic * option Z * list Z) unit :=
  if is_write mov then
    let val := read_gpr (mreg mov) gprs mod 4294967296 in
    match Lapic.mmio_access s gpa true val t0 t1 with
    | None => Err ()
    | Some (s, eoi, _) => Ok (s, eoi, gprs)
    end
  else
    match Lapic.mmio_access s gpa false 0 t0 t1 with
    | Some (s, eoi, Some v) => Ok (s, eoi, write_gpr (mreg mov) v gprs)
    | _ => Err ()
    end.

(** ** The instructions (Intel SDM Vol. 2, ModRM and SIB forms) *)

Record Insn := mkInsn {
  rex : option Z;      (* low nibble of the REX prefix *)
  store : bool;
  imod : Z; ireg : Z; irm : Z; isib : Z;
  disp : list Z;
}.

Definition disp_need (f : Insn) : nat :=
  if imod f =? 0 then
    if (irm f =? 5) || (irm f =? 4) && (isib f mod 8 =? 5) then 4%nat else 0%nat
  else if imod f =? 1 then 1%nat
  else 4%nat.

Definition insn_ok (f : Insn) : Prop :=
  match rex f with Some r => 0 ≤ r < 16 | None => True end ∧
  0 ≤ imod f < 3 ∧ 0 ≤ ireg f < 8 ∧ 0 ≤ irm f < 8 ∧ 0 ≤ isib f < 256 ∧
  length (disp f) = disp_need f.

Definition opcode (f : Insn) : Z := if store f then 0x89 else 0x8B.

Definition tail_bytes (f : Insn) : list Z :=
  [64 * imod f + 8 * ireg f + irm f] ++ (if irm f =? 4 then [isib f] else []) ++ disp f.

Definition encode (f : Insn) : list Z :=
  match rex f with Some r => [0x40 + r] | None => [] end ++ [opcode f] ++ tail_bytes f.

(** The size of the operand: REX.W, bit 3 of the prefix, selects 64 bits. *)
Definition operand_bits (f : Insn) : Z :=
  match rex f with Some r => if Z.testbit r 3 then 64 else 32 | None => 32 end.

(** The same instruction with REX.W clear. *)
Definition narrow (f : Insn) : Insn :=
  mkInsn ((λ r, Z.clearbit r 3) <$> rex f) (store f) (imod f) (ireg f) (irm f) (isib f) (disp f).

(** The register number, extended by REX.R. *)
Definition full_reg (f : Insn) : Z := ireg f + 8 * (default 0 (rex f) / 4 mod 2).

(** ** Bits of the bytes *)

Lemma modrm_bits b : 0 ≤ b < 256 →
  Z.shiftr b 6 = b / 64 ∧ Z.land (Z.shiftr b 3) 7 = b / 8 mod 8 ∧ Z.land b 7 = b mod 8.
Proof.
  intros Hb. change 7 with (Z.ones 3). rewrite !Z.land_ones, !Z.shiftr_div_pow2 by lia. done.
Qed.

Lemma rex_bits b : 0 ≤ b < 256 →
  (Z.land b 0xF0 =? 0x40) = (64 <=? b) && (b <? 80) ∧ Z.land (Z.shiftr b 2) 1 = b / 4 mod 2.
Proof.
  intros Hb. split.
  - apply eqb_true_iff. by apply (byte_forall (λ b, eqb (Z.land b 0xF0 =? 0x40) ((64 <=? b) && (b <? 80)))); [vm_compute|].
  - change 1 with (Z.ones 1). rewrite Z.land_ones, Z.shiftr_div_pow2 by lia. done.
Qed.

Lemma reg_bits r x : 0 ≤ r < 8 → 0 ≤ x < 2 → Z.lor r (Z.shiftl x 3) = r + 8 * x.
Proof.
  intros Hr Hx. assert (x = 0 ∨ x = 1) as [-> | ->] by lia; cbn.
  - rewrite Z.lor_0_r. lia.
  - assert (r = 0 ∨ r = 1 ∨ r = 2 ∨ r = 3 ∨ r = 4 ∨ r = 5 ∨ r = 6 ∨ r = 7) as C by lia.
    destruct C as [->|[->|[->|[->|[->|[->|[->| ->]]]]]]]; done.
Qed.

Lemma at_app l x r i : length l = i → at_ (l ++ x :: r) i = x.
Proof. intros <-. unfold at_. by rewrite list_lookup_middle. Qed.

Lemma at_app_r l r i j : length l = i → at_ (l ++ r) (i + j) = at_ r j.
Proof. intros <-. unfold at_. by rewrite lookup_app_r, Nat.add_comm, Nat.add_sub by lia. Qed.

Definition byte (b : Z) : Prop := 0 ≤ b < 256.

Lemma tail_len f : insn_ok f → (1 ≤ length (tail_bytes f) ≤ 6)%nat.
Proof.
  intros (_ & _ & _ & _ & _ & L). unfold tail_bytes. rewrite !length_app, L. cbn [length].
  unfold disp_need. repeat case_match; cbn [length]; lia.
Qed.

(** The operand forms decode to their register and length. *)
Lemma decode_modrm_tail pre f rest i w x : insn_ok f → length pre = i → (i ≤ 2)%nat → 0 ≤ x < 2 →
  decode_modrm (pre ++ tail_bytes f ++ rest) i w x =
  Some (mkMov w (ireg f + 8 * x) (Z.of_nat (i + length (tail_bytes f)))).
Proof.
  intros O Hi Hi2 Hx. pose proof (tail_len f O) as TL. destruct O as (_ & M & R & RM & SB & L).
  set (insn := pre ++ tail_bytes f ++ rest). unfold decode_modrm.
  assert (length insn = (i + length (tail_bytes f) + length rest)%nat) as Ln.
  { unfold insn. rewrite !length_app. lia. }
  rewrite (proj2 (Nat.leb_gt _ _)) by lia. cbv zeta.
  set (b := 64 * imod f + 8 * ireg f + irm f).
  assert (at_ insn i = b) as -> by (unfold insn, tail_bytes; cbn [app]; by apply at_app).
  destruct (modrm_bits b) as (-> & -> & ->); [unfold b; lia|].
  replace (b / 64) with (imod f) by (unfold b; dlia). replace (b / 8 mod 8) with (ireg f) by (unfold b; dlia).
  replace (b mod 8) with (irm f) by (unfold b; dlia). rewrite reg_bits by done.
  replace (imod f =? 3) with false by lia.
  assert (∀ k sb, disp_bytes (imod f) (irm f) sb = Some (disp_need f) → (S i + k + disp_need f = i + length (tail_bytes f))%nat →
     decode_disp (length insn) (S i + k) w (ireg f + 8 * x) (disp_bytes (imod f) (irm f) sb) =
     Some (mkMov w (ireg f + 8 * x) (Z.of_nat (i + length (tail_bytes f))))) as D.
  { intros k sb -> E. unfold decode_disp. rewrite E, (proj2 (Nat.ltb_ge _ _)), andb_false_r by lia.
    by rewrite (proj2 (Nat.ltb_ge _ _)) by lia. }
  unfold tail_bytes in *. rewrite !length_app, L in *. cbn [length] in *.
  destruct (Z.eqb_spec (irm f) 4) as [E4|N4]; cbn [length] in *.
  - rewrite (proj2 (Nat.leb_gt _ _)) by lia.
    replace (S (S i)) with (S i + 1)%nat by lia. apply D; [|lia]. 
    replace (at_ insn (S i)) with (isib f).
    2:{ unfold insn. replace (S i) with (i + 1)%nat by lia. by rewrite at_app_r. }
    change 7 with (Z.ones 3). rewrite Z.land_ones by lia. change (2 ^ 3) with 8.
    unfold disp_bytes, disp_need. rewrite E4. cbn [Z.eqb Pos.eqb orb andb].
    destruct (Z.eqb_spec (imod f) 0), (Z.eqb_spec (imod f) 1), (Z.eqb_spec (imod f) 2); try lia; try done.
    destruct (Z.eqb_spec (isib f mod 8) 5) as [->|]; [done|]. rewrite bool_decide_eq_false_2; [done|congruence].
  - replace (S i) with (S i + 0)%nat by lia. apply D; [|lia].
    unfold disp_bytes, disp_need. replace (irm f =? 4) with false by lia. cbn [andb orb]. rewrite orb_false_r.
    destruct (Z.eqb_spec (imod f) 0), (Z.eqb_spec (imod f) 1), (Z.eqb_spec (imod f) 2); try lia; try done.
    by destruct (irm f =? 5).
Qed.

(** Conversely, what decodes is such a form. *)
Lemma decode_modrm_inv insn i w x m : Forall byte insn → 0 ≤ x < 2 → decode_modrm insn i w x = Some m →
  ∃ f rest, insn_ok f ∧ rex f = None ∧ insn = take i insn ++ tail_bytes f ++ rest ∧ (i < length insn)%nat.
Proof.
  intros B Hx H. unfold decode_modrm in H. destruct (Nat.leb_spec (length insn) i); [done|]. cbv zeta in H.
  destruct (drop i insn) as [|b r] eqn:Ed.
  { apply (f_equal length) in Ed. rewrite length_drop in Ed. cbn in Ed. lia. }
  assert (insn = take i insn ++ b :: r) as Ei by (by rewrite <-Ed, take_drop).
  assert (length (take i insn) = i) as Lt by (rewrite length_take; lia).
  assert (at_ insn i = b) as Eb by (rewrite Ei; by apply at_app).
  assert (byte b ∧ Forall byte r) as [Hb Br].
  { rewrite Ei in B. apply Forall_app in B as [_ B]. by apply Forall_cons in B. }
  rewrite Eb in H. destruct (modrm_bits b Hb) as (E1 & E2 & E3). rewrite E1, E2, E3 in H.
  destruct (Z.eqb_spec (b / 64) 3) as [|N3]; [done|]. unfold byte in Hb.
  assert (length insn = (i + S (length r))%nat) as Ln by (rewrite Ei, length_app, Lt; done).
  assert (∀ k o, decode_disp (length insn) (S i + k) w (Z.lor (b / 8 mod 8) (Z.shiftl x 3)) o = Some m →
     ∃ n, o = Some n ∧ (n ≤ length r - k)%nat) as D.
  { intros k o. unfold decode_disp. destruct o as [n|]; [|done]. cbv zeta. intros Hd. exists n. split; [done|].
    destruct (Nat.eqb_spec n 0); [lia|]. cbn [negb andb] in Hd.
    destruct (Nat.ltb_spec (length insn) (S i + k + n)); [done|]. lia. }
  destruct (Z.eqb_spec (b mod 8) 4) as [E4|N4].
  - destruct (Nat.leb_spec (length insn) (S i)); [done|].
    destruct r as [|sib r]; [cbn in Ln; lia|]. apply Forall_cons in Br as [Hs Br]. unfold byte in Hs.
    assert (at_ insn (S i) = sib) as Es.
    { rewrite Ei. replace (S i) with (i + 1)%nat by lia. by rewrite at_app_r. }
    rewrite Es in H. replace (S (S i)) with (S i + 1)%nat in H by lia.
    destruct (D 1%nat _ H) as (n & En & Hn). cbn [length] in Hn.
    exists (mkInsn None w (b / 64) (b / 8 mod 8) 4 sib (take n r)), (drop n r).
    split_and!; [|done| |lia].
    + split_and!; cbn; try dlia. rewrite length_take. rewrite Nat.min_l by lia.
      unfold disp_bytes in En. rewrite E4 in En. cbn in En. unfold disp_need. cbn.
      change (Z.land sib 7) with (Z.land sib (Z.ones 3)) in En. rewrite Z.land_ones in En by lia. change (2 ^ 3) with 8 in En.
      destruct (b / 64 =? 0), (b / 64 =? 1), (b / 64 =? 2); try (by simplify_eq); try lia.
      all: destruct (Z.eqb_spec (sib mod 8) 5) as [E5|N5]; [rewrite E5, bool_decide_eq_true_2 in En by done|
             rewrite bool_decide_eq_false_2 in En by congruence]; by simplify_eq.
    + unfold tail_bytes. cbn [imod ireg irm isib disp Z.eqb Pos.eqb app].
      replace (64 * (b / 64) + 8 * (b / 8 mod 8) + 4) with b by dlia. rewrite take_drop. done.
  - replace (S i) with (S i + 0)%nat in H by lia.
    destruct (D 0%nat _ H) as (n & En & Hn). rewrite Nat.sub_0_r in Hn.
    exists (mkInsn None w (b / 64) (b / 8 mod 8) (b mod 8) 0 (take n r)), (drop n r).
    split_and!; [|done| |lia].
    + split_and!; cbn; try dlia. rewrite length_take, Nat.min_l by lia.
      unfold disp_bytes in En. replace (b mod 8 =? 4) with false in * by lia. cbn in En. unfold disp_need. cbn.
      replace (b mod 8 =? 4) with false by lia. rewrite orb_false_r.
      destruct (b / 64 =? 0), (b mod 8 =? 5), (b / 64 =? 1), (b / 64 =? 2) eqn:Em2; try (by simplify_eq); lia.
    + unfold tail_bytes. cbn [imod ireg irm isib disp app]. replace (b mod 8 =? 4) with false by lia. cbn [app].
      replace (64 * (b / 64) + 8 * (b / 8 mod 8) + b mod 8) with b by dlia. rewrite take_drop. done.
Qed.

Definition decoded (f : Insn) : MovMmio := mkMov (store f) (full_reg f) (Z.of_nat (length (encode f))).

(** The opcode selects the direction. *)
Lemma decode_op_enc pre f rest i x : insn_ok f → length pre = i → (i ≤ 1)%nat → 0 ≤ x < 2 →
  decode_op (pre ++ opcode f :: tail_bytes f ++ rest) i x =
  Some (mkMov (store f) (ireg f + 8 * x) (Z.of_nat (i + 1 + length (tail_bytes f)))).
Proof.
  intros O Hi Hi1 Hx. unfold decode_op. rewrite at_app by done. unfold opcode.
  rewrite (cons_middle _ pre), app_assoc.
  destruct (store f); cbn [Z.eqb Pos.eqb];
    rewrite decode_modrm_tail by (done || lia || (rewrite length_app; cbn; lia)); do 2 f_equal; lia.
Qed.

Lemma decode_complete f rest : insn_ok f → decode_mov_mmio (encode f ++ rest) = Some (decoded f).
Proof.
  intros O. pose proof (tail_len f O) as TL. unfold decode_mov_mmio, decoded, full_reg.
  unfold encode. destruct O as (Rx & O). assert (insn_ok f) as O' by (split; done).
  destruct (rex f) as [r|] eqn:Er; cbn [app default].
  - set (insn := _ :: _ :: _).
    assert (length insn = (2 + length (tail_bytes f) + length rest)%nat) as L.
    { unfold insn. cbn [length]. rewrite length_app. lia. }
    rewrite (proj2 (Nat.ltb_ge _ _)), (proj2 (Nat.leb_gt _ _)) by lia. cbv zeta.
    change (at_ insn 0) with (64 + r). destruct (rex_bits (64 + r)) as [-> ->]; [lia|].
    replace ((64 <=? 64 + r) && (64 + r <? 80)) with true by lia.
    unfold insn. rewrite (decode_op_enc [64 + r] f rest 1) by (done || lia || dlia).
    cbn [length from_option id]. do 2 f_equal; dlia.
  - set (insn := _ :: _).
    assert (length insn = (1 + length (tail_bytes f) + length rest)%nat) as L.
    { unfold insn. cbn [length]. rewrite length_app. lia. }
    rewrite (proj2 (Nat.ltb_ge _ _)) by lia. cbv zeta. change (at_ insn 0) with (opcode f).
    replace (Z.land (opcode f) 0xF0 =? 0x40) with false by (unfold opcode; by destruct (store f)).
    unfold insn. rewrite (decode_op_enc [] f rest 0) by (done || lia). cbn [length]. do 2 f_equal; lia.
Qed.

Lemma decode_op_inv insn i x m : Forall byte insn → 0 ≤ x < 2 → decode_op insn i x = Some m →
  ∃ f rest, insn_ok f ∧ rex f = None ∧ insn = take i insn ++ opcode f :: tail_bytes f ++ rest ∧ (i < length insn)%nat.
Proof.
  intros B Hx H.
  assert (∃ w : bool, at_ insn i = (if w then 0x89 else 0x8B) ∧ decode_modrm insn (S i) w x = Some m) as (w & Ea & D).
  { unfold decode_op in H. destruct (Z.eqb_spec (at_ insn i) 0x89); [by exists true|].
    destruct (Z.eqb_spec (at_ insn i) 0x8B); [by exists false|done]. }
  destruct (decode_modrm_inv _ _ _ _ _ B Hx D) as (f & rest & O & R & E & L).
  exists (mkInsn None w (imod f) (ireg f) (irm f) (isib f) (disp f)), rest.
  split_and!; [|done| |lia]; [by destruct O as (_ & O)|].
  rewrite E at 1. change (tail_bytes (mkInsn _ _ _ _ _ _ _)) with (tail_bytes f).
  assert (insn !! i = Some (at_ insn i)) as Hi.
  { unfold at_. destruct (insn !! i) eqn:El; [done|]. apply lookup_ge_None in El. lia. }
  rewrite (take_S_r _ _ _ Hi), <-app_assoc, Ea. cbn [app]. unfold opcode. cbn [store]. done.
Qed.

Lemma decode_from (insn : list Z) (m : MovMmio) : Forall byte insn →
  decode_mov_mmio insn = Some m ↔ ∃ f rest, insn_ok f ∧ insn = encode f ++ rest ∧ m = decoded f.
Proof.
  intros B. split; [|by intros (f & rest & O & -> & ->); apply decode_complete].
  intros H.
  enough (∃ f rest, insn_ok f ∧ insn = encode f ++ rest) as (f & rest & O & E).
  { exists f, rest. split_and!; [done..|]. rewrite E, decode_complete in H by done. congruence. }
  unfold decode_mov_mmio in H. destruct (Nat.ltb_spec (length insn) 2); [done|]. cbv zeta in H.
  destruct insn as [|b0 insn]; [cbn in *; lia|]. change (at_ (b0 :: insn) 0) with b0 in H.
  assert (byte b0) as Hb by exact (proj1 (proj1 (Forall_cons _ _ _) B)). destruct (rex_bits b0 Hb) as [E1 E2]. rewrite E1, E2 in H.
  destruct ((64 <=? b0) && (b0 <? 80)) eqn:Er.
  - rewrite (proj2 (Nat.leb_gt _ _)) in H by lia.
    destruct (decode_op_inv _ 1 (b0 / 4 mod 2) m B ltac:(dlia) H) as (f & rest & (_ & O) & R & E & _).
    exists (mkInsn (Some (b0 - 64)) (store f) (imod f) (ireg f) (irm f) (isib f) (disp f)), rest.
    split; [split; [cbn; lia|done]|]. rewrite E. unfold encode. cbn [rex take app].
    replace (64 + (b0 - 64)) with b0 by lia. done.
  - destruct (decode_op_inv _ 0 0 m B ltac:(lia) H) as (f & rest & O & R & E & _).
    exists f, rest. split; [done|]. rewrite E. unfold encode. by rewrite R.
Qed.

Lemma clear_w r : 0 ≤ r < 16 →
  0 ≤ Z.clearbit r 3 < 16 ∧ Z.testbit (Z.clearbit r 3) 3 = false ∧ Z.clearbit r 3 / 4 mod 2 = r / 4 mod 2.
Proof.
  intros R. assert (r ∈ seqZ 0 16) as Hin by (apply elem_of_seqZ; lia). revert r Hin R.
  assert (Forall (λ r, 0 ≤ Z.clearbit r 3 < 16 ∧ Z.testbit (Z.clearbit r 3) 3 = false ∧ Z.clearbit r 3 / 4 mod 2 = r / 4 mod 2)
    (seqZ 0 16)) as F by (repeat constructor; done).
  rewrite Forall_forall in F. auto.
Qed.

Lemma narrow_ok f : insn_ok f → insn_ok (narrow f) ∧ operand_bits (narrow f) = 32 ∧ decoded (narrow f) = decoded f.
Proof.
  intros (R & O). destruct f as [[r|] st md rg rm sb dp]; [|split_and!; done]. destruct (clear_w r R) as (K1 & K2 & K3).
  split_and!; [by split|cbn [operand_bits narrow rex fmap option_fmap option_map]; by rewrite K2|].
  unfold decoded. f_equal. unfold full_reg. cbn [narrow rex ireg fmap option_fmap option_map from_option]. unfold id. by rewrite K3.
Qed.

(** C18: the decoder is exact, the operand size aside: a byte string decodes exactly when
    it begins with a [mov] of a 32-bit or 64-bit register to or from memory, in any
    ModRM, SIB and displacement form, with or without a REX prefix, and it yields that
    instruction's direction, register and length. The size is lost: a 64-bit move is
    taken for the 32-bit one with the same operands. *)
Theorem decode_exact (insn : list Z) (m : MovMmio) : Forall byte insn →
  (decode_mov_mmio insn = Some m ↔ ∃ f rest, insn_ok f ∧ insn = encode f ++ rest ∧ m = decoded f) ∧
  (∀ f rest, insn_ok f → insn = encode f ++ rest → operand_bits f = 64 →
     operand_bits (narrow f) = 32 ∧ decode_mov_mmio insn = decode_mov_mmio (encode (narrow f) ++ rest)).
Proof.
  intros B. split; [by apply decode_from|]. intros f rest O -> _.
  destruct (narrow_ok f O) as (On & Nb & E). split; [done|].
  by rewrite (decode_complete _ _ O), (decode_complete _ _ On), E.
Qed.

(** Linux's end of interrupt, [mov %eax, disp32]: 89 04 25 b0 d0 5f ff; and
    [mov %rax, (%rcx)], 48 89 01, which decodes as [mov %eax, (%rcx)]. *)
Lemma decode_exact_witness :
  (∃ f rest, insn_ok f ∧ [0x89; 0x04; 0x25; 0xB0; 0xD0; 0x5F; 0xFF; 0x90] = encode f ++ rest ∧
    mkMov true 0 7 = decoded f) ∧
  decode_mov_mmio [0x48; 0x89; 0x01] = decode_mov_mmio [0x40; 0x89; 0x01] ∧ decode_mov_mmio [0x40; 0x89; 0x01] = Some (mkMov true 0 3).
Proof.
  split; [|split; [|by vm_compute]].
  - apply (proj1 (decode_exact [0x89; 0x04; 0x25; 0xB0; 0xD0; 0x5F; 0xFF; 0x90] (mkMov true 0 7)
      ltac:(repeat constructor; unfold byte; lia))). by vm_compute.
  - apply (proj2 (decode_exact [0x48; 0x89; 0x01] (mkMov true 0 3) ltac:(repeat constructor; unfold byte; lia))
      (mkInsn (Some 8) true 0 0 1 0 []) []); [|by vm_compute..]. unfold insn_ok. cbn. lia.
Defined.

(** ** Emulation *)

(** The exit handler's path: decode the bytes at the guest's instruction pointer
    and perform the access. *)
Definition emulate (s : Lapic.Lapic) (insn : list Z) (gpa : Z) (gprs : list Z) (t0 t1 : Z)
    : result (Lapic.Lapic * option Z * list Z) unit :=
  match decode_mov_mmio insn with Some m => apply_apic_mov s m gpa gprs t0 t1 | None => Err () end.

Lemma low4 reg : 0 ≤ reg < 16 → Z.land reg 15 = reg.
Proof. intros. change 15 with (Z.ones 4). rewrite Z.land_ones by lia. apply Z.mod_small. lia. Qed.

Lemma write_gpr_spec reg val gprs x : 0 ≤ reg < 16 → gprs !! Z.to_nat reg = Some x → u64 x →
  write_gpr reg val gprs = <[Z.to_nat reg := x / 2 ^ 32 * 2 ^ 32 + val mod 2 ^ 32]> gprs.
Proof.
  intros Hr Hx Ux. unfold write_gpr. cbv zeta. rewrite low4 by done.
  unfold at_. rewrite Hx. cbn [default from_option id]. f_equal.
  change 0xFFFFFFFF with (Z.ones 32). rewrite clear_low, Z.land_ones by (done || lia).
  apply lor_mul_pow2; [lia|]. apply Z.mod_pos_bound. lia.
Qed.

Lemma full_reg_range f : insn_ok f → 0 ≤ full_reg f < 16.
Proof. intros (_ & _ & R & _). unfold full_reg. dlia. Qed.

(** The emulated instruction on the controller's page: a store writes the low 32
    bits of its register to the APIC register and changes no register; a load
    changes nothing but its register, whose low half becomes the APIC register and
    whose high half is kept (the processor would clear it). Outside the page the
    access is refused. *)
Theorem emulate_exact (s : Lapic.Lapic) (f : Insn) (rest : list Z) (gpa : Z) (gprs : list Z) (x t0 t1 : Z) :
  insn_ok f → gprs !! Z.to_nat (full_reg f) = Some x → u64 x →
  emulate s (encode f ++ rest) gpa gprs t0 t1 =
  if (Lapic.APIC_GPA <=? gpa) && (gpa <? Lapic.APIC_GPA + 0x1000) then
    let reg := gpa - Lapic.APIC_GPA in
    if store f then
      let '(s', eoi) := Lapic.write_reg s reg (x mod 2 ^ 32) t0 t1 in Ok (s', eoi, gprs)
    else
      Ok (s, None, <[Z.to_nat (full_reg f) := x / 2 ^ 32 * 2 ^ 32 + Lapic.read_reg s reg t0 mod 2 ^ 32]> gprs)
  else Err ().
Proof.
  intros O Hx Ux. pose proof (full_reg_range f O) as Hr. unfold emulate.
  rewrite decode_complete by done. unfold apply_apic_mov, decoded. cbn [is_write mreg].
  unfold Lapic.mmio_access, Lapic.reg_from_gpa, Lapic.is_xapic_mmio_gpa.
  destruct ((Lapic.APIC_GPA <=? gpa) && (gpa <? Lapic.APIC_GPA + 0x1000)); cbn [negb].
  - destruct (store f).
    + unfold read_gpr, at_. rewrite low4, Hx by done. cbn [default from_option id].
      change 4294967296 with (2 ^ 32). cbv zeta. by destruct (Lapic.write_reg _ _ _ _ _).
    + cbv zeta. by rewrite (write_gpr_spec _ _ _ x).
  - by destruct (store f).
Qed.

(** [mov 0x30(%rcx), %r9d] on the version register, with a stale high half. *)
Definition load_version : Insn := mkInsn (Some 4) false 1 1 1 0 [0x30].

Lemma emulate_exact_witness :
  emulate Lapic.reset (encode load_version ++ []) (Lapic.APIC_GPA + 0x30) (replicate 16 0xABCD00000000) 0 0 =
  Ok (Lapic.reset, None, <[9%nat := 0xABCD00050014]> (replicate 16 0xABCD00000000)).
Proof.
  rewrite (emulate_exact Lapic.reset load_version [] _ _ 0xABCD00000000);
    [by vm_compute|repeat split; cbn; lia|by vm_compute|split; by vm_compute].
Defined.

End Decode.
