(* ===== verification/Vars.v ===== *)
(** * The firmware variable store

    [raynu_f/vars.rs]: the UEFI variables a guest loader keeps for one boot, in a
    table of sixteen slots. The store is shown to implement a finite map from
    (GUID, name) to (attributes, data) of bounded size, and the enumeration to visit
    each variable once. *)

From S2P Require Import Prelude.

Module Vars.

Definition EFI_SUCCESS : Z := 0.
Definition EFI_INVALID_PARAMETER : Z := 0x8000000000000002.
Definition EFI_NOT_FOUND : Z := 0x800000000000000E.
Definition EFI_OUT_OF_RESOURCES : Z := 0x8000000000000009.

Definition VAR_SLOTS : nat := 16.
Definition VAR_NAME_MAX : nat := 32.
Definition VAR_DATA_MAX : nat := 2048.

Definition ATTR_NV : Z := 0x1.
Definition ATTR_BS : Z := 0x2.
Definition ATTR_RT : Z := 0x4.
Definition ATTR_APPEND : Z := 0x40.
Definition ATTR_KNOWN : Z :=
  Z.lor (Z.lor (Z.lor (Z.lor (Z.lor (Z.lor ATTR_NV ATTR_BS) ATTR_RT) 0x8) 0x10) 0x20) ATTR_APPEND.

(** [len] is a [u16] that never exceeds [VAR_DATA_MAX]. *)
Record Slot := mkSlot {
  used : bool; guid : list Z; name : list Z; attrs : Z; slen : nat; data : list Z;
}.

Definition EMPTY_SLOT : Slot :=
  mkSlot false (replicate 16 0) (replicate VAR_NAME_MAX 0) 0 0 (replicate VAR_DATA_MAX 0).

Notation VarStore := (list Slot).

Definition var_new : VarStore := replicate VAR_SLOTS EMPTY_SLOT.

(** The stored name up to its first NUL. *)
Definition cut (stored : list Z) : list Z :=
  match find_index (λ c, c =? 0) stored with Some n => take n stored | None => stored end.

Definition name_eq (stored nm : list Z) : bool := bool_decide (cut stored = nm).

Definition find_var_index (s : VarStore) (g nm : list Z) : option nat :=
  find_index (λ sl, used sl && bool_decide (guid sl = g) && name_eq (name sl) nm) s.

Definition var_get (s : VarStore) (g nm : list Z) : option (Z * list Z) :=
  match find_var_index s g nm with
  | Some i => (λ sl, (attrs sl, take (slen sl) (data sl))) <$> s !! i
  | None => None
  end.

(** [buf[at..at + l.len()].copy_from_slice(l)] *)
Definition blit (buf : list Z) (at_ : nat) (l : list Z) : list Z :=
  take at_ buf ++ l ++ drop (at_ + length l) buf.

Definition attrs_bad (a : Z) : bool :=
  (a =? 0) || negb (Z.land a (bnot32 ATTR_KNOWN) =? 0) || (Z.land a ATTR_BS =? 0).

Definition var_set (s : VarStore) (g nm : list Z) (a : Z) (d : list Z) : VarStore * Z :=
  if (length nm =? 0)%nat || (VAR_NAME_MAX <=? length nm)%nat then (s, EFI_INVALID_PARAMETER)
  else if (length d =? 0)%nat then
    match find_var_index s g nm with
    | Some i => (<[i := EMPTY_SLOT]> s, EFI_SUCCESS)
    | None => (s, EFI_NOT_FOUND)
    end
  else if attrs_bad a then (s, EFI_INVALID_PARAMETER)
  else if negb (Z.land a ATTR_RT =? 0) && (Z.land a ATTR_BS =? 0) then (s, EFI_INVALID_PARAMETER)
  else
    let append := negb (Z.land a ATTR_APPEND =? 0) in
    let stored_attrs := Z.land a (bnot32 ATTR_APPEND) in
    match find_var_index s g nm with
    | Some i =>
        let slot := default EMPTY_SLOT (s !! i) in
        if negb (attrs slot =? stored_attrs) then (s, EFI_INVALID_PARAMETER)
        else if append then
          let e := (slen slot + length d)%nat in
          if (VAR_DATA_MAX <? e)%nat then (s, EFI_OUT_OF_RESOURCES)
          else (<[i := mkSlot (used slot) (guid slot) (name slot) (attrs slot) e
                         (blit (data slot) (slen slot) d)]> s, EFI_SUCCESS)
        else if (VAR_DATA_MAX <? length d)%nat then (s, EFI_OUT_OF_RESOURCES)
        else (<[i := mkSlot (used slot) (guid slot) (name slot) (attrs slot) (length d)
                       (blit (data slot) 0 d)]> s, EFI_SUCCESS)
    | None =>
        if append then (s, EFI_NOT_FOUND)
        else if (VAR_DATA_MAX <? length d)%nat then (s, EFI_OUT_OF_RESOURCES)
        else
          match find_index (λ sl, negb (used sl)) s with
          | None => (s, EFI_OUT_OF_RESOURCES)
          | Some i =>
              (<[i := mkSlot true g (blit (name EMPTY_SLOT) 0 nm) stored_attrs (length d)
                        (blit (data EMPTY_SLOT) 0 d)]> s, EFI_SUCCESS)
          end
    end.

Definition var_next (s : VarStore) (g nm : list Z) : result (option (list Z * list Z)) unit :=
  if (VAR_NAME_MAX <=? length nm)%nat then Err ()
  else
    let start := if (length nm =? 0)%nat then Some 0%nat
                 else match find_var_index s g nm with Some i => Some (S i) | None => None end in
    match start with
    | None => Ok None
    | Some i => Ok ((λ sl, (guid sl, cut (name sl))) <$> head (filter (λ sl, used sl = true) (drop i s)))
    end.

Definition var_query (s : VarStore) (a : Z) : result (Z * Z * Z) Z :=
  if attrs_bad a then Err EFI_INVALID_PARAMETER
  else
    let cap := Z.of_nat (VAR_SLOTS * VAR_DATA_MAX) in
    let u := Z.of_nat (sum_list (slen <$> filter (λ sl, used sl = true) s)) in
    Ok (cap, sat_sub64 cap u, Z.of_nat VAR_DATA_MAX).

(** ** The abstract store *)

Notation Key := (list Z * list Z)%type.
Notation Val := (Z * list Z)%type.

(** What [SetVariable] promises. *)
Definition spec_set (m : gmap Key Val) (g nm : list Z) (a : Z) (d : list Z) : gmap Key Val * Z :=
  if (length nm =? 0)%nat || (VAR_NAME_MAX <=? length nm)%nat then (m, EFI_INVALID_PARAMETER)
  else if bool_decide (d = []) then
    match m !! (g, nm) with
    | Some _ => (delete (g, nm) m, EFI_SUCCESS)
    | None => (m, EFI_NOT_FOUND)
    end
  else if attrs_bad a then (m, EFI_INVALID_PARAMETER)
  else
    let stored := Z.land a (bnot32 ATTR_APPEND) in
    let append := negb (Z.land a ATTR_APPEND =? 0) in
    match m !! (g, nm) with
    | Some (a0, d0) =>
        if negb (a0 =? stored) then (m, EFI_INVALID_PARAMETER)
        else
          let d' := if append then d0 ++ d else d in
          if (VAR_DATA_MAX <? length d')%nat then (m, EFI_OUT_OF_RESOURCES)
          else (<[(g, nm) := (stored, d')]> m, EFI_SUCCESS)
    | None =>
        if append then (m, EFI_NOT_FOUND)
        else if (VAR_DATA_MAX <? length d)%nat || (VAR_SLOTS <=? size m)%nat then (m, EFI_OUT_OF_RESOURCES)
        else (<[(g, nm) := (stored, d)]> m, EFI_SUCCESS)
    end.

Definition entry (sl : Slot) : option (Key * Val) :=
  if used sl then Some ((guid sl, cut (name sl)), (attrs sl, take (slen sl) (data sl))) else None.

Definition entries (s : VarStore) : list (Key * Val) := omap entry s.

Definition abs_vars (s : VarStore) : gmap Key Val := list_to_map (entries s).

Record slot_wf (sl : Slot) : Prop := {
  sw_len : (slen sl ≤ VAR_DATA_MAX)%nat;
  sw_data : length (data sl) = VAR_DATA_MAX;
  sw_name : (0 < length (cut (name sl)) < VAR_NAME_MAX)%nat;
}.

Record vars_wf (s : VarStore) : Prop := {
  vw_slots : length s = VAR_SLOTS;
  vw_nodup : NoDup (entries s).*1;
  vw_wf : ∀ sl, sl ∈ s → used sl = true → slot_wf sl;
}.

(** ** Lemmas *)

Lemma entries_app s1 s2 : entries (s1 ++ s2) = entries s1 ++ entries s2.
Proof. apply omap_app. Qed.

Lemma entries_mid s1 x s2 :
  entries (s1 ++ x :: s2) ≡ₚ match entry x with Some e => [e] | None => [] end ++ entries (s1 ++ s2).
Proof.
  rewrite !entries_app. unfold entries. csimpl.
  destruct (entry x); [|done]. by rewrite <-Permutation_middle.
Qed.

Lemma abs_mid s1 x s2 k v : NoDup (entries (s1 ++ x :: s2)).*1 → entry x = Some (k, v) →
  abs_vars (s1 ++ x :: s2) = <[k := v]> (abs_vars (s1 ++ s2)) ∧ abs_vars (s1 ++ s2) !! k = None.
Proof.
  intros N E. pose proof (entries_mid s1 x s2) as P. rewrite E in P. cbn [app] in P. split.
  - unfold abs_vars. by rewrite (list_to_map_proper _ _ N P).
  - rewrite P in N. apply NoDup_cons in N as [N _]. by apply not_elem_of_list_to_map_1.
Qed.

Lemma abs_mid_none s1 x s2 : entry x = None → abs_vars (s1 ++ x :: s2) = abs_vars (s1 ++ s2).
Proof.
  intros E. unfold abs_vars. rewrite !entries_app. unfold entries. csimpl. by rewrite E.
Qed.

Lemma nodup_mid s1 x s2 : NoDup (entries (s1 ++ x :: s2)).*1 → NoDup (entries (s1 ++ s2)).*1.
Proof. rewrite (entries_mid s1 x s2). destruct (entry x); cbn; [|done]. by intros [_ N]%NoDup_cons. Qed.

Lemma nodup_mid_set s1 x s2 k v : NoDup (entries (s1 ++ s2)).*1 → entry x = Some (k, v) →
  abs_vars (s1 ++ s2) !! k = None → NoDup (entries (s1 ++ x :: s2)).*1.
Proof.
  intros N E H. rewrite (entries_mid s1 x s2), E. cbn. constructor; [|done].
  by apply not_elem_of_list_to_map in H.
Qed.

(** The index found is that of the entry with the key. *)
Lemma find_var_Some s g nm i : find_var_index s g nm = Some i →
  ∃ sl, s !! i = Some sl ∧ used sl = true ∧ entry sl = Some ((g, nm), (attrs sl, take (slen sl) (data sl))).
Proof.
  unfold find_var_index. intros (sl & H & T & _)%find_index_Some. exists sl. split; [done|].
  rewrite !andb_true_iff in T. destruct T as [[U G] N]. unfold name_eq in N.
  apply bool_decide_eq_true in G, N. unfold entry. by rewrite U, G, N.
Qed.

Lemma find_var_None s g nm : find_var_index s g nm = None → abs_vars s !! (g, nm) = None.
Proof.
  unfold find_var_index. rewrite find_index_None. intros H. apply not_elem_of_list_to_map_1.
  intros ([k v] & E & (sl & Hs & He)%list_elem_of_omap)%list_elem_of_fmap. cbn in E.
  specialize (H _ Hs). unfold entry in He. destruct (used sl); [|done]. simplify_eq.
  rewrite !andb_false_iff in H. unfold name_eq in H. destruct H as [[?|H]|H]; [done|..];
    by apply bool_decide_eq_false in H.
Qed.

Lemma length_blit buf k l : (k + length l ≤ length buf)%nat → length (blit buf k l) = length buf.
Proof. intros. unfold blit. rewrite !length_app, length_take, length_drop. lia. Qed.

Lemma take_blit buf k l : (k ≤ length buf)%nat → take (k + length l) (blit buf k l) = take k buf ++ l.
Proof.
  intros. unfold blit. rewrite app_assoc, take_app_length'; [done|].
  rewrite length_app, length_take. lia.
Qed.

Lemma take_blit_0 buf l : take (length l) (blit buf 0 l) = l.
Proof. unfold blit. rewrite take_0. cbn [app]. apply take_app_length. Qed.

Definition name_ok (nm : list Z) : Prop := Forall (λ c, c ≠ 0) nm.

Lemma cut_blit nm : name_ok nm → (length nm < VAR_NAME_MAX)%nat → cut (blit (name EMPTY_SLOT) 0 nm) = nm.
Proof.
  intros N L. unfold blit, cut. cbn [name EMPTY_SLOT plus]. rewrite take_0, drop_replicate. cbn [app].
  destruct (VAR_NAME_MAX - length nm)%nat as [|m] eqn:E; [lia|]. cbn [replicate].
  rewrite (find_index_app_here _ _ _ _ (length nm)); [by rewrite take_app_length| |done..].
  intros y Hy. apply Z.eqb_neq. unfold name_ok in N. rewrite Forall_forall in N. by apply N.
Qed.

Lemma wf_split s i old : vars_wf s → s !! i = Some old →
  ∃ s1 s2, s = s1 ++ old :: s2 ∧ NoDup (entries (s1 ++ s2)).*1 ∧
    ∀ sl, <[i := sl]> s = s1 ++ sl :: s2 ∧
      (NoDup (entries (s1 ++ sl :: s2)).*1 → (used sl = true → slot_wf sl) → vars_wf (<[i := sl]> s)).
Proof.
  intros [L N W] H. destruct (split_at _ _ _ H) as (s1 & s2 & E & I). exists s1, s2.
  split_and!; [done|by apply (nodup_mid s1 old); rewrite <-E|]. intros sl. split; [apply I|].
  intros N' W'. split; [by rewrite length_insert|by rewrite I|].
  rewrite I. intros x [Hx|[->|Hx]%elem_of_cons]%elem_of_app U; [|by apply W'|];
    (apply W; [rewrite E|done]); apply elem_of_app; [by left|right; by apply elem_of_cons; right].
Qed.

(** The three table updates: clearing, rewriting and filling a slot. *)
Lemma clear_slot s i sl k v : vars_wf s → s !! i = Some sl → entry sl = Some (k, v) →
  vars_wf (<[i := EMPTY_SLOT]> s) ∧ abs_vars (<[i := EMPTY_SLOT]> s) = delete k (abs_vars s).
Proof.
  intros W H E. destruct (wf_split _ _ _ W H) as (s1 & s2 & -> & N & I).
  destruct (I EMPTY_SLOT) as [Ei Wi]. destruct (abs_mid s1 sl s2 k v (vw_nodup _ W) E) as [A K].
  split; [apply Wi; [|done]; by rewrite (entries_mid s1)|].
  rewrite Ei, abs_mid_none, A, delete_insert_id by done. done.
Qed.

Lemma rewrite_slot s i sl sl' k v v' : vars_wf s → s !! i = Some sl → entry sl = Some (k, v) →
  entry sl' = Some (k, v') → slot_wf sl' →
  vars_wf (<[i := sl']> s) ∧ abs_vars (<[i := sl']> s) = <[k := v']> (abs_vars s).
Proof.
  intros W H E E' S. destruct (wf_split _ _ _ W H) as (s1 & s2 & -> & N & I).
  destruct (I sl') as [Ei Wi]. destruct (abs_mid s1 sl s2 k v (vw_nodup _ W) E) as [A K].
  assert (NoDup (entries (s1 ++ sl' :: s2)).*1) as N' by by apply (nodup_mid_set _ _ _ k v').
  split; [by apply Wi|]. destruct (abs_mid s1 sl' s2 k v' N' E') as [A' _].
  rewrite Ei, A', A. by rewrite insert_insert_eq.
Qed.

Lemma fill_slot s i sl sl' k v : vars_wf s → s !! i = Some sl → used sl = false →
  entry sl' = Some (k, v) → slot_wf sl' → abs_vars s !! k = None →
  vars_wf (<[i := sl']> s) ∧ abs_vars (<[i := sl']> s) = <[k := v]> (abs_vars s).
Proof.
  intros W H U E S K. destruct (wf_split _ _ _ W H) as (s1 & s2 & -> & N & I).
  assert (entry sl = None) as E0 by (unfold entry; by rewrite U).
  rewrite abs_mid_none in * by done. destruct (I sl') as [Ei Wi].
  assert (NoDup (entries (s1 ++ sl' :: s2)).*1) as N' by by apply (nodup_mid_set _ _ _ k v).
  split; [by apply Wi|]. rewrite Ei. by apply abs_mid.
Qed.

Lemma length_entries s : (length (entries s) ≤ length s)%nat.
Proof. induction s as [|sl s IH]; [done|]. unfold entries in *. csimpl. destruct (entry sl); cbn; lia. Qed.

(** The table is full exactly when the map has [VAR_SLOTS] entries. *)
Lemma store_full_iff s : vars_wf s →
  match find_index (λ sl, negb (used sl)) s with
  | Some i => (size (abs_vars s) < VAR_SLOTS)%nat ∧ ∃ sl, s !! i = Some sl ∧ used sl = false
  | None => size (abs_vars s) = VAR_SLOTS
  end.
Proof.
  intros W. unfold abs_vars. rewrite map_size_list_to_map by apply W.
  destruct (find_index _ s) as [i|] eqn:E.
  - apply find_index_Some in E as (sl & H & U & _). apply negb_true_iff in U. split; [|by exists sl].
    destruct (wf_split _ _ _ W H) as (s1 & s2 & -> & _). rewrite <-(vw_slots _ W).
    rewrite (entries_mid s1). unfold entry. rewrite U. cbn [app].
    pose proof (length_entries (s1 ++ s2)). rewrite !length_app in *. cbn [length]. lia.
  - rewrite find_index_None in E. rewrite <-(vw_slots _ W). clear W.
    induction s as [|sl s IH]; [done|]. unfold entries in *. csimpl.
    assert (used sl = true) as U by (apply negb_false_iff, E, list_elem_of_here).
    unfold entry at 1. rewrite U. cbn [length]. f_equal. apply IH.
    intros x Hx. apply E, elem_of_cons. by right.
Qed.

Lemma get_abs s g nm : vars_wf s → var_get s g nm = abs_vars s !! (g, nm).
Proof.
  intros W. unfold var_get. destruct (find_var_index s g nm) as [i|] eqn:E.
  - apply find_var_Some in E as (sl & H & U & E). rewrite H. cbn.
    destruct (wf_split _ _ _ W H) as (s1 & s2 & -> & _).
    destruct (abs_mid _ _ _ _ _ (vw_nodup _ W) E) as [-> _]. by rewrite lookup_insert_eq.
  - by rewrite (find_var_None _ _ _ E).
Qed.

Lemma attrs_rt a : attrs_bad a = false → negb (Z.land a ATTR_RT =? 0) && (Z.land a ATTR_BS =? 0) = false.
Proof. unfold attrs_bad. rewrite !orb_false_iff. intros [_ ->]. by rewrite andb_false_r. Qed.

(** The table update and the map update agree. *)
Lemma var_set_abs (s : VarStore) (g nm : list Z) (a : Z) (d : list Z) : vars_wf s → name_ok nm →
  let '(s', st) := var_set s g nm a d in
  vars_wf s' ∧ (abs_vars s', st) = spec_set (abs_vars s) g nm a d.
Proof.
  intros W NM.
  unfold var_set, spec_set. destruct (_ || _) eqn:EN; [done|].
  apply orb_false_iff in EN as [N0%Nat.eqb_neq N1%Nat.leb_gt].
  rewrite <-(get_abs s g nm W). unfold var_get.
  destruct (find_var_index s g nm) as [i|] eqn:E.
  - apply find_var_Some in E as (sl & H & U & E). rewrite H. cbn [fmap option_fmap option_map default from_option id].
    pose proof (vw_wf _ W sl (list_elem_of_lookup_2 _ _ _ H) U) as [SL SD SN].
    destruct d as [|x d]; cbn [length Nat.eqb].
    { rewrite bool_decide_eq_true_2 by done. destruct (clear_slot _ _ _ _ _ W H E) as [? ->]. done. }
    rewrite bool_decide_eq_false_2 by done. set (dd := x :: d).
    destruct (attrs_bad a) eqn:EA; [done|]. rewrite (attrs_rt _ EA). cbv zeta.
    destruct (Z.eqb_spec (attrs sl) (Z.land a (bnot32 ATTR_APPEND))) as [EQ|]; [|done]. cbn [negb].
    change (S (length d)) with (length dd).
    destruct (negb (Z.land a ATTR_APPEND =? 0)).
    + rewrite length_app, length_take, SD. replace (slen sl `min` VAR_DATA_MAX)%nat with (slen sl) by lia.
      destruct (Nat.ltb_spec VAR_DATA_MAX (slen sl + length dd)); [done|].
      set (sl' := mkSlot _ _ _ _ _ _).
      destruct (rewrite_slot s i sl sl' (g, nm) _ (attrs sl, take (slen sl) (data sl) ++ dd) W H E) as [? ->].
      * unfold entry in *. cbn [sl' used guid name attrs slen data] in *. rewrite U in *.
        rewrite take_blit by lia. by injection E as <- <-.
      * split; cbn [sl' slen data name]; [lia|rewrite length_blit; lia|done].
      * by rewrite EQ.
    + destruct (Nat.ltb_spec VAR_DATA_MAX (length dd)); [done|].
      set (sl' := mkSlot _ _ _ _ _ _).
      destruct (rewrite_slot s i sl sl' (g, nm) _ (attrs sl, dd) W H E) as [? ->].
      * unfold entry in *. cbn [sl' used guid name attrs slen data] in *. rewrite U in *.
        rewrite take_blit_0. by injection E as <- <-.
      * split; cbn [sl' slen data name]; [done|rewrite length_blit; cbn [plus]; lia|done].
      * by rewrite EQ.
  - apply find_var_None in E. destruct d as [|x d]; cbn [length Nat.eqb]; [done|].
    rewrite bool_decide_eq_false_2 by done. set (dd := x :: d). change (S (length d)) with (length dd).
    destruct (attrs_bad a) eqn:EA; [done|]. rewrite (attrs_rt _ EA). cbv zeta.
    destruct (negb (Z.land a ATTR_APPEND =? 0)); [done|].
    destruct (Nat.ltb_spec VAR_DATA_MAX (length dd)); [done|]. cbn [orb].
    pose proof (store_full_iff s W) as F. destruct (find_index _ s) as [i|].
    + destruct F as [F (sl & Hi & U)]. rewrite (proj2 (Nat.leb_gt _ _) F).
      set (sl' := mkSlot _ _ _ _ _ _).
      destruct (fill_slot s i sl sl' (g, nm) (Z.land a (bnot32 ATTR_APPEND), dd) W Hi U) as [? ->]; [| |done|done].
      * unfold entry. cbn [sl' used guid name attrs slen data]. rewrite cut_blit by (done || lia).
        by rewrite take_blit_0.
      * split; cbn [sl' name slen data]; [done|rewrite length_blit; cbn [EMPTY_SLOT data]; rewrite length_replicate; lia|].
        rewrite cut_blit by (done || lia). lia.
    + rewrite F. by rewrite Nat.leb_refl.
Qed.

(** C15: [SetVariable] implements the abstract store: creation, replacement, append
    and deletion, with the status and every refusal (bad name, bad attributes,
    attribute mismatch, append to nothing, data too long, table full) exact, and the
    table stays well-formed. [GetVariable] reads the same map. *)
Theorem var_set_refines (s : VarStore) (g nm : list Z) (a : Z) (d : list Z) :
  vars_wf s → name_ok nm →
  let '(s', st) := var_set s g nm a d in
  vars_wf s' ∧ (abs_vars s', st) = spec_set (abs_vars s) g nm a d ∧
  ∀ g' nm', var_get s' g' nm' = abs_vars s' !! (g', nm').
Proof.
  intros W NM. pose proof (var_set_abs s g nm a d W NM) as H.
  destruct (var_set s g nm a d) as [s' st]. destruct H. split_and!; [done..|]. intros. by apply get_abs.
Qed.

(** ** Enumeration *)

(** A guest that walks the variables with [GetNextVariableName]. *)
Fixpoint enumerate (fuel : nat) (s : VarStore) (g nm : list Z) : list Key :=
  match fuel with
  | O => []
  | S fuel =>
      match var_next s g nm with
      | Ok (Some (g', nm')) => (g', nm') :: enumerate fuel s g' nm'
      | _ => []
      end
  end.

Lemma entry_used x : used x = true →
  entry x = Some ((guid x, cut (name x)), (attrs x, take (slen x) (data x))).
Proof. unfold entry. by intros ->. Qed.

Lemma head_used s :
  match head (filter (λ sl, used sl = true) s) with
  | Some y => ∃ u1 u2, s = u1 ++ y :: u2 ∧ entries u1 = [] ∧ used y = true
  | None => entries s = []
  end.
Proof.
  induction s as [|x s IH]; [done|]. rewrite filter_cons. destruct (decide (used x = true)) as [U|U].
  - cbn. by exists [], s.
  - assert (entry x = None) as E by (unfold entry; by destruct (used x)).
    destruct (head _) as [y|].
    + destruct IH as (u1 & u2 & -> & E1 & Uy). exists (x :: u1), u2. split_and!; [done| |done].
      unfold entries in *. csimpl. by rewrite E.
    + unfold entries in *. csimpl. by rewrite E.
Qed.

Lemma find_var_here s1 x s2 : vars_wf (s1 ++ x :: s2) → used x = true →
  find_var_index (s1 ++ x :: s2) (guid x) (cut (name x)) = Some (length s1).
Proof.
  intros W U. apply find_index_app_here; [| |done].
  2:{ unfold name_eq. by rewrite U, !bool_decide_eq_true_2. }
  intros y Hy. destruct (used y) eqn:Uy; [|done]. cbn [andb].
  destruct (bool_decide (guid y = guid x)) eqn:Eg; [|done]. unfold name_eq. cbn [andb].
  apply bool_decide_eq_true in Eg. apply bool_decide_eq_false. intros En.
  pose proof (vw_nodup _ W) as N. rewrite (entries_mid s1 x s2) in N. unfold entry in N at 1. rewrite U in N.
  cbn in N. apply NoDup_cons in N as [N _]. apply N, list_elem_of_fmap.
  exists ((guid x, cut (name x)), (attrs y, take (slen y) (data y))). split; [done|].
  apply list_elem_of_omap. exists y. split; [by apply elem_of_app; left|]. unfold entry. by rewrite Uy, Eg, En.
Qed.

(** The walk from a position that has consumed [s1 ++ [x]]. *)
Lemma enumerate_after fuel : ∀ s1 x s2, vars_wf (s1 ++ x :: s2) → used x = true → (length s2 < fuel)%nat →
  enumerate fuel (s1 ++ x :: s2) (guid x) (cut (name x)) = (entries s2).*1.
Proof.
  induction fuel as [|fuel IH]; intros s1 x s2 W U L; [lia|]. cbn [enumerate]. unfold var_next.
  destruct (vw_wf _ W x) as [_ _ SN]; [by apply elem_of_app; right; apply list_elem_of_here|done|].
  rewrite (proj2 (Nat.leb_gt _ _)), (proj2 (Nat.eqb_neq _ _)) by lia.
  rewrite find_var_here by done.
  replace (drop (S (length s1)) (s1 ++ x :: s2)) with s2.
  2:{ rewrite cons_middle, app_assoc, drop_app_length'; [done|]. rewrite length_app. cbn. lia. }
  pose proof (head_used s2) as H. destruct (head _) as [y|]; cbn [fmap option_fmap option_map]; [|by rewrite H].
  destruct H as (u1 & u2 & -> & E1 & Uy). rewrite entries_app, E1. unfold entries. csimpl.
  rewrite (entry_used y Uy). cbn [app fmap list_fmap fst]. f_equal.
  rewrite app_comm_cons, app_assoc. rewrite app_comm_cons, app_assoc in W.
  apply IH; [done..|]. rewrite length_app in L. cbn in L. lia.
Qed.

(** C16: Walking the variables from the empty name yields every key of the store
    exactly once and ends. *)
Theorem enumerate_exact (s : VarStore) (g : list Z) : vars_wf s →
  let l := enumerate (S VAR_SLOTS) s g [] in
  NoDup l ∧ ∀ k, k ∈ l ↔ is_Some (abs_vars s !! k).
Proof.
  intros W. cbv zeta.
  assert (enumerate (S VAR_SLOTS) s g [] = (entries s).*1) as ->.
  { remember VAR_SLOTS as n eqn:En. cbn [enumerate]. unfold var_next.
    cbn [length Nat.eqb Nat.leb VAR_NAME_MAX]. rewrite drop_0.
    pose proof (head_used s) as H. destruct (head _) as [y|]; cbn [fmap option_fmap option_map]; [|by rewrite H].
    destruct H as (u1 & u2 & -> & E1 & Uy). rewrite enumerate_after; [|done..|].
    - rewrite entries_app, E1. unfold entries. csimpl. by rewrite (entry_used y Uy).
    - pose proof (vw_slots _ W) as L. rewrite length_app in L. cbn in L. lia. }
  split; [apply W|]. intros k. split.
  - intros ([k' v] & E & H)%list_elem_of_fmap. cbn in E. subst k'. exists v.
    apply elem_of_list_to_map_1; [apply W|done].
  - intros [v H]. apply elem_of_list_to_map_2 in H. apply list_elem_of_fmap. by exists (k, v).
Qed.

(** ** Witnesses *)

Lemma var_new_wf : vars_wf var_new.
Proof.
  split; [done|by vm_compute; constructor|]. intros sl H. apply elem_of_replicate in H as [-> _]. done.
Qed.

Definition mok : list Z := [0x4D; 0x6F; 0x6B].

Lemma var_set_refines_witness :
  let '(s, st) := var_set var_new (replicate 16 1) mok 7 [1; 2; 3] in
  st = EFI_SUCCESS ∧ var_get s (replicate 16 1) mok = Some (7, [1; 2; 3]) ∧ vars_wf s.
Proof.
  assert (name_ok mok) as N by (repeat constructor; lia).
  pose proof (var_set_refines var_new (replicate 16 1) mok 7 [1; 2; 3] var_new_wf N) as H.
  assert (snd (var_set var_new (replicate 16 1) mok 7 [1; 2; 3]) = EFI_SUCCESS) as E by by vm_compute.
  assert (var_get (fst (var_set var_new (replicate 16 1) mok 7 [1; 2; 3])) (replicate 16 1) mok = Some (7, [1; 2; 3]))
    as G by by vm_compute.
  destruct (var_set _ _ _ _ _) as [s st]. split_and!; [exact E|exact G|apply H].
Defined.

Lemma enumerate_exact_witness :
  let s := fst (var_set (fst (var_set var_new (replicate 16 1) mok 7 [1])) (replicate 16 2) mok 7 [2]) in
  enumerate (S VAR_SLOTS) s [] [] = [(replicate 16 1, mok); (replicate 16 2, mok)] ∧
  NoDup (enumerate (S VAR_SLOTS) s [] []).
Proof.
  cbv zeta. split; [by vm_compute|]. apply enumerate_exact.
  assert (name_ok mok) as N by (repeat constructor; lia).
  pose proof (var_set_abs var_new (replicate 16 1) mok 7 [1] var_new_wf N) as H.
  destruct (var_set var_new _ _ _ _) as [s1 st1]. destruct H as [W _].
  pose proof (var_set_abs s1 (replicate 16 2) mok 7 [2] W N) as H.
  cbn [fst]. destruct (var_set s1 _ _ _ _) as [s2 st2]. apply H.
Defined.

End Vars.
