(* ===== verification/VSwitch.v ===== *)
(** * The virtual switch

    [net/mod.rs]: the learning switch between the virtio-net ports, its forwarding
    table and the frame builder. The table is shown to implement a bounded finite
    map, and every unicast delivery to go to the port where the destination was last
    seen, which is attached and not the sender's. *)

From S2P Require Import Prelude.

Module Switch.

Definition MAX_PORTS : nat := 8.
Definition FDB_CAP : nat := 16.
Definition ETH_HDR_LEN : nat := 14.
Definition NO_PORT : Z := 65535.

Notation mac := (list Z) (only parsing).

Record VSwitch := mkSwitch {
  port_mac : list (option (list Z));
  fdb_mac : list (list Z);
  fdb_port : list Z;
  fdb_len : nat;
  ports : Z;
  partitioned : bool;
}.

Definition sw_new (n : Z) : VSwitch :=
  mkSwitch (replicate MAX_PORTS None) (replicate FDB_CAP (replicate 6 0)) (replicate FDB_CAP NO_PORT) 0 n false.

Definition set_partitioned (s : VSwitch) (on : bool) : VSwitch :=
  mkSwitch (port_mac s) (fdb_mac s) (fdb_port s) (fdb_len s) (ports s) on.

(** The entries in use, in slot order. *)
Definition fdb (s : VSwitch) : list (list Z * Z) := take (fdb_len s) (zip (fdb_mac s) (fdb_port s)).

Definition learn (s : VSwitch) (m : mac) (port : Z) : VSwitch :=
  match find_index (λ x, bool_decide (x = m)) (take (fdb_len s) (fdb_mac s)) with
  | Some i => mkSwitch (port_mac s) (fdb_mac s) (<[i := port]> (fdb_port s)) (fdb_len s) (ports s) (partitioned s)
  | None =>
      if (fdb_len s <? FDB_CAP)%nat then
        mkSwitch (port_mac s) (<[fdb_len s := m]> (fdb_mac s)) (<[fdb_len s := port]> (fdb_port s))
          (S (fdb_len s)) (ports s) (partitioned s)
      else s
  end.

Definition lookup_mac (s : VSwitch) (m : mac) : option Z :=
  find_map (λ e, if bool_decide (e.1 = m) && negb (e.2 =? NO_PORT) then Some e.2 else None) (fdb s).

Definition attach (s : VSwitch) (port : Z) (m : mac) : VSwitch * result unit unit :=
  if (Z.of_nat MAX_PORTS <=? port) || (ports s <=? port) then (s, Err ())
  else
    let s := mkSwitch (<[Z.to_nat port := Some m]> (port_mac s)) (fdb_mac s) (fdb_port s) (fdb_len s)
               (ports s) (partitioned s) in
    (learn s m port, Ok ()).

Definition attached (s : VSwitch) (port : Z) : bool :=
  match port_mac s !! Z.to_nat port with Some (Some _) => true | _ => false end.

Definition frame_dst (f : list Z) : mac := take 6 f.
Definition frame_src (f : list Z) : mac := take 6 (drop 6 f).

Definition forward (s : VSwitch) (src_port : Z) (frame : list Z) : VSwitch * result (option Z) unit :=
  if (length frame <? ETH_HDR_LEN)%nat then (s, Err ())
  else if (Z.of_nat MAX_PORTS <=? src_port) || negb (attached s src_port) then (s, Err ())
  else
    let dst := frame_dst frame in
    let s := learn s (frame_src frame) src_port in
    if partitioned s then (s, Ok None)
    else if negb (Z.land (default 0 (dst !! 0%nat)) 1 =? 0) then (s, Ok None)
    else
      match lookup_mac s dst with
      | Some p => if negb (p =? src_port) then (s, Ok (Some p)) else (s, Ok None)
      | None => (s, Ok None)
      end.

(** [out] and the payload are shorter than [usize::MAX - ETH_HDR_LEN], so the
    checked addition cannot fail. *)
Definition build_eth_frame (out dst src : list Z) (ethertype : Z) (payload : list Z)
    : list Z * result nat unit :=
  let need := (ETH_HDR_LEN + length payload)%nat in
  if (length out <? need)%nat then (out, Err ())
  else (dst ++ src ++ [Z.shiftr ethertype 8; Z.land ethertype 0xFF] ++ payload ++ drop need out, Ok need).

(** ** The table as a map *)

Record sw_wf (s : VSwitch) : Prop := {
  sw_pm : length (port_mac s) = MAX_PORTS;
  sw_fm : length (fdb_mac s) = FDB_CAP;
  sw_fp : length (fdb_port s) = FDB_CAP;
  sw_cap : (fdb_len s ≤ FDB_CAP)%nat;
  sw_nodup : NoDup (fdb s).*1;
}.

Definition abs_fdb (s : VSwitch) : gmap (list Z) Z := list_to_map (fdb s).

Lemma fdb_macs s : sw_wf s → (fdb s).*1 = take (fdb_len s) (fdb_mac s).
Proof. intros W. unfold fdb. rewrite fmap_take, fst_zip; [done|]. rewrite (sw_fm s W), (sw_fp s W). done. Qed.

Lemma length_fdb s : sw_wf s → length (fdb s) = fdb_len s.
Proof.
  intros W. unfold fdb. rewrite length_take, length_zip_with, (sw_fm s W), (sw_fp s W).
  pose proof (sw_cap s W). unfold FDB_CAP in *. lia.
Qed.

Lemma zip_insert_r {A B} (l : list A) (k : list B) i y x : l !! i = Some x →
  zip l (<[i := y]> k) = <[i := (x, y)]> (zip l k).
Proof.
  revert k i. induction l as [|a l IH]; intros [|b k] [|i] H; cbn in *; simplify_eq; try done.
  f_equal. by apply IH.
Qed.

Lemma zip_insert {A B} (l : list A) (k : list B) i x y :
  zip (<[i := x]> l) (<[i := y]> k) = <[i := (x, y)]> (zip l k).
Proof.
  revert k i. induction l as [|a l IH]; intros [|b k] [|i]; cbn; try done. f_equal. apply IH.
Qed.

Lemma fdb_lookup s i x : sw_wf s → fdb_mac s !! i = Some x → (i < fdb_len s)%nat →
  ∃ p, fdb s !! i = Some (x, p).
Proof.
  intros W H L. unfold fdb. rewrite lookup_take_lt by done.
  destruct (fdb_port s !! i) as [p|] eqn:E.
  - exists p. apply lookup_zip_with_Some. by exists x, p.
  - apply lookup_ge_None in E. rewrite (sw_fp s W) in E. pose proof (sw_cap s W). lia.
Qed.

(** Rewriting the port of an entry. *)
Lemma map_update (l : list (list Z * Z)) i k p q : NoDup l.*1 → l !! i = Some (k, p) →
  (list_to_map (<[i := (k, q)]> l) : gmap (list Z) Z) = <[k := q]> (list_to_map l) ∧ (<[i := (k, q)]> l).*1 = l.*1.
Proof.
  intros N H. assert ((<[i := (k, q)]> l).*1 = l.*1) as E.
  { rewrite list_fmap_insert. cbn. apply list_insert_id. by rewrite list_lookup_fmap, H. }
  split; [|done]. apply map_eq. intros j. destruct (decide (j = k)) as [->|Nj].
  - rewrite lookup_insert_eq. apply elem_of_list_to_map_1; [by rewrite E|].
    apply list_elem_of_lookup_2 with i, list_lookup_insert_eq. by eapply lookup_lt_Some.
  - rewrite lookup_insert_ne by done. apply option_eq. intros x.
    rewrite <-!elem_of_list_to_map by (try rewrite E; done).
    rewrite !list_elem_of_lookup. split; intros [m Hm]; exists m.
    + destruct (decide (m = i)) as [->|]; [|by rewrite list_lookup_insert_ne in Hm].
      rewrite list_lookup_insert_eq in Hm by by eapply lookup_lt_Some. congruence.
    + destruct (decide (m = i)) as [->|]; [congruence|]. by rewrite list_lookup_insert_ne.
Qed.

(** Learning is a bounded insertion: a known address moves, a new one is added
    while there is room. *)
Lemma learn_spec s m p : sw_wf s →
  sw_wf (learn s m p) ∧ port_mac (learn s m p) = port_mac s ∧ ports (learn s m p) = ports s ∧
  partitioned (learn s m p) = partitioned s ∧
  abs_fdb (learn s m p) =
    (if bool_decide (is_Some (abs_fdb s !! m)) || (size (abs_fdb s) <? FDB_CAP)%nat
     then <[m := p]> (abs_fdb s) else abs_fdb s).
Proof.
  intros W. assert (size (abs_fdb s) = fdb_len s) as Sz.
  { unfold abs_fdb. rewrite map_size_list_to_map by apply W. by apply length_fdb. }
  unfold learn. destruct (find_index _ _) as [i|] eqn:E.
  - apply find_index_Some in E as (x & Hx & Ex & _). apply bool_decide_eq_true in Ex as ->.
    assert (i < fdb_len s)%nat as L.
    { apply lookup_lt_Some in Hx. rewrite length_take in Hx. lia. }
    rewrite lookup_take_lt in Hx by done. destruct (fdb_lookup s i m W Hx L) as [q Hq].
    destruct (map_update (fdb s) i m q p (sw_nodup s W) Hq) as [U N].
    assert (take (fdb_len s) (zip (fdb_mac s) (<[i:=p]> (fdb_port s))) = <[i := (m, p)]> (fdb s)) as Ef.
    { rewrite (zip_insert_r _ _ _ _ m Hx). unfold fdb. by rewrite take_insert_lt. }
    rewrite bool_decide_eq_true_2; [cbn [orb]|].
    + split_and!; [|done..|unfold abs_fdb, fdb at 1; cbn; by rewrite Ef].
      destruct W. split; cbn; rewrite ?length_insert; try done. unfold fdb. cbn. by rewrite Ef, N.
    + exists q. apply elem_of_list_to_map_1; [apply W|by eapply list_elem_of_lookup_2].
  - rewrite find_index_None in E.
    assert (abs_fdb s !! m = None) as Nm.
    { apply not_elem_of_list_to_map_1. rewrite fdb_macs by done. intros H%E. by apply bool_decide_eq_false in H. }
    rewrite Nm, bool_decide_eq_false_2, Sz by (by intros []). cbn [orb].
    destruct (Nat.ltb_spec (fdb_len s) FDB_CAP) as [L|L]; [|done].
    assert (take (S (fdb_len s)) (zip (<[fdb_len s := m]> (fdb_mac s)) (<[fdb_len s := p]> (fdb_port s)))
            = fdb s ++ [(m, p)]) as Ef.
    { rewrite zip_insert. erewrite take_S_r.
      - rewrite take_insert_ge by done. done.
      - apply list_lookup_insert_eq. rewrite length_zip_with, (sw_fm s W), (sw_fp s W). lia. }
    split_and!; [|done..|unfold abs_fdb, fdb at 1; cbn -[take]; rewrite Ef].
    + assert (m ∉ (fdb s).*1) by by apply not_elem_of_list_to_map.
      destruct W. split; cbn -[take]; rewrite ?length_insert; try done. unfold fdb. cbn -[take]. rewrite Ef, fmap_app.
      apply NoDup_app. split_and!; [done| |apply NoDup_singleton].
      intros x Hx ->%list_elem_of_singleton. done.
    + by rewrite list_to_map_snoc by (by apply not_elem_of_list_to_map).
Qed.

Lemma lookup_mac_spec s m p : sw_wf s → p ≠ NO_PORT →
  lookup_mac s m = Some p ↔ abs_fdb s !! m = Some p.
Proof.
  intros W Np. unfold lookup_mac, abs_fdb. rewrite <-elem_of_list_to_map by apply W. split.
  - intros (i & [x q] & Hx & E & _)%find_map_Some. cbn in E. destruct (_ && _) eqn:B; [|done].
    injection E as ->. apply andb_true_iff in B as [B _]. apply bool_decide_eq_true in B as ->.
    by eapply list_elem_of_lookup_2.
  - intros H. destruct (find_map _ _) as [q|] eqn:E.
    + apply find_map_Some in E as (i & [x q'] & Hx & E & _). cbn in E. destruct (_ && _) eqn:B; [|done].
      injection E as ->. apply andb_true_iff in B as [B _]. apply bool_decide_eq_true in B as ->.
      apply list_elem_of_lookup_2 in Hx. apply elem_of_list_to_map_1 in H, Hx; [|apply W..].
      congruence.
    + rewrite find_map_None in E. specialize (E _ H). cbn in E.
      rewrite bool_decide_eq_true_2, (proj2 (Z.eqb_neq _ _) Np) in E by done. done.
Qed.

(** ** Traffic *)

Inductive Op :=
| OpAttach (port : Z) (m : list Z)
| OpForward (src_port : Z) (frame : list Z)
| OpPartition (on : bool).

(** Port numbers are unsigned. *)
Definition op_ok (o : Op) : Prop :=
  match o with OpAttach p _ | OpForward p _ => 0 ≤ p | OpPartition _ => True end.

(** The switch, and where each address was last seen. *)
Definition net_step (st : VSwitch * gmap (list Z) Z) (o : Op) : VSwitch * gmap (list Z) Z :=
  let '(s, seen) := st in
  match o with
  | OpAttach port m =>
      match attach s port m with (s, Ok _) => (s, <[m := port]> seen) | (s, Err _) => (s, seen) end
  | OpForward src f =>
      match forward s src f with
      | (s, Ok _) => (s, <[frame_src f := src]> seen)
      | (s, Err _) => (s, seen)
      end
  | OpPartition on => (set_partitioned s on, seen)
  end.

Definition net_run (n : Z) (ops : list Op) : VSwitch * gmap (list Z) Z :=
  foldl net_step (sw_new n, ∅) ops.

Record net_ok (s : VSwitch) (seen : gmap (list Z) Z) : Prop := {
  no_wf : sw_wf s;
  no_sub : abs_fdb s ⊆ seen;
  no_all : (size seen ≤ FDB_CAP)%nat → abs_fdb s = seen;
  no_att : ∀ m p, seen !! m = Some p → 0 ≤ p < Z.of_nat MAX_PORTS ∧ attached s p = true;
}.

Lemma net_ok_new n : net_ok (sw_new n) ∅.
Proof.
  split; [split; [done..|cbn; lia|constructor]|apply map_empty_subseteq|done|]. intros m p H. by rewrite lookup_empty in H.
Qed.

Lemma net_ok_learn s seen m p : net_ok s seen → 0 ≤ p < Z.of_nat MAX_PORTS → attached s p = true →
  net_ok (learn s m p) (<[m := p]> seen).
Proof.
  intros [W Sub All Att] Hp Ha. destruct (learn_spec s m p W) as (W' & Ep & _ & _ & Ea).
  assert (∀ q, attached (learn s m p) q = attached s q) as Eatt by (intros q; unfold attached; by rewrite Ep).
  split; [done|..].
  - rewrite Ea. destruct (_ || _) eqn:B; [by apply insert_mono|].
    apply insert_subseteq_r; [|done]. apply orb_false_iff in B as [B _].
    apply bool_decide_eq_false in B. by apply eq_None_not_Some.
  - intros Sz. assert (size seen ≤ size (<[m:=p]> seen))%nat as Le.
    { rewrite map_size_insert. destruct (seen !! m); cbn; lia. }
    specialize (All ltac:(lia)). rewrite <-All in *. rewrite Ea. destruct (_ || _) eqn:B; [reflexivity|].
    apply orb_false_iff in B as [B F%Nat.ltb_ge]. apply bool_decide_eq_false in B. exfalso.
    apply eq_None_not_Some in B. rewrite map_size_insert_None in Sz by done. lia.
  - intros m' q. rewrite Eatt. destruct (decide (m' = m)) as [->|N].
    + rewrite lookup_insert_eq. by intros [= <-].
    + rewrite lookup_insert_ne by done. apply Att.
Qed.

Lemma net_ok_port s seen pm : net_ok s seen → length pm = MAX_PORTS →
  (∀ p, attached s p = true →
     attached (mkSwitch pm (fdb_mac s) (fdb_port s) (fdb_len s) (ports s) (partitioned s)) p = true) →
  net_ok (mkSwitch pm (fdb_mac s) (fdb_port s) (fdb_len s) (ports s) (partitioned s)) seen.
Proof.
  intros [[] Sub All Att] L H. split; [by split|done..|].
  intros m p Hm. destruct (Att _ _ Hm). split; [done|by apply H].
Qed.

Lemma net_ok_forward s seen src f s' r : net_ok s seen → 0 ≤ src → forward s src f = (s', Ok r) →
  (ETH_HDR_LEN ≤ length f)%nat ∧ src < Z.of_nat MAX_PORTS ∧ attached s src = true ∧
  s' = learn s (frame_src f) src ∧ net_ok s' (<[frame_src f := src]> seen).
Proof.
  intros N Hs H. unfold forward in H. destruct (Nat.ltb_spec (length f) ETH_HDR_LEN); [done|].
  destruct (_ || _) eqn:B; [done|]. apply orb_false_iff in B as [B1%Z.leb_gt B2%negb_false_iff].
  assert (s' = learn s (frame_src f) src) as ->.
  { cbv zeta in H. repeat case_match; simplify_eq; done. }
  split_and!; [done..|]. apply net_ok_learn; [done|lia|done].
Qed.

Lemma net_ok_step s seen o : net_ok s seen → op_ok o → net_ok (net_step (s, seen) o).1 (net_step (s, seen) o).2.
Proof.
  intros N K. destruct o as [port m|src f|on]; cbn [net_step op_ok] in *.
  - unfold attach. destruct (_ || _) eqn:B; [done|]. apply orb_false_iff in B as [B%Z.leb_gt _]. cbn [fst snd].
    assert (Z.to_nat port < length (port_mac s))%nat as L by (rewrite (sw_pm s (no_wf _ _ N)); lia).
    apply net_ok_learn; [apply net_ok_port; [done|by rewrite length_insert; apply N|]|lia|].
    + intros p. unfold attached. cbn [port_mac]. destruct (decide (Z.to_nat p = Z.to_nat port)) as [->|].
      * by rewrite list_lookup_insert_eq.
      * by rewrite list_lookup_insert_ne.
    + unfold attached. cbn [port_mac]. by rewrite list_lookup_insert_eq.
  - destruct (forward s src f) as [s' [r|e]] eqn:E.
    + by apply (net_ok_forward _ _ _ _ _ _ N) in E as (_ & _ & _ & _ & E).
    + unfold forward in E. repeat case_match; simplify_eq; done.
  - destruct N as [[] Sub All Att]. split; [by split|done..].
Qed.

Lemma net_ok_run n ops : Forall op_ok ops → net_ok (net_run n ops).1 (net_run n ops).2.
Proof.
  unfold net_run. generalize (net_ok_new n). generalize (sw_new n), (∅ : gmap (list Z) Z).
  induction ops as [|o ops IH]; intros s seen N F; [done|]. apply Forall_cons in F as [K F]. cbn [foldl].
  pose proof (net_ok_step s seen o N K) as N'. destruct (net_step (s, seen) o) as [s' seen']. by apply IH.
Qed.

(** C17: After any traffic, a frame is refused only when it is shorter than a header
    or its port is not attached; delivered only to the port where its destination
    was last seen, which is attached and not the sender's; and held back only under
    a partition, for a group address, for a destination never seen or last seen at
    the sender's port, or once more addresses were seen than the table holds. *)
Theorem switch_delivery (n : Z) (ops : list Op) (src : Z) (f : list Z) : Forall op_ok ops → 0 ≤ src →
  let '(s, seen) := net_run n ops in
  let seen' := <[frame_src f := src]> seen in
  match forward s src f with
  | (_, Err _) => (length f < ETH_HDR_LEN)%nat ∨ Z.of_nat MAX_PORTS ≤ src ∨ attached s src = false
  | (_, Ok (Some p)) => seen' !! frame_dst f = Some p ∧ attached s p = true ∧ p ≠ src ∧ 0 ≤ p < Z.of_nat MAX_PORTS
  | (_, Ok None) =>
      partitioned s = true ∨ Z.land (default 0 (frame_dst f !! 0%nat)) 1 ≠ 0 ∨
      (FDB_CAP < size seen')%nat ∨ seen' !! frame_dst f = None ∨ seen' !! frame_dst f = Some src
  end.
Proof.
  intros F Hs. pose proof (net_ok_run n ops F) as N. destruct (net_run n ops) as [s seen]. cbn [fst snd] in N.
  cbv zeta. destruct (forward s src f) as [s' [r|e]] eqn:E.
  2:{ unfold forward in E. destruct (Nat.ltb_spec (length f) ETH_HDR_LEN); [by left|right].
      destruct (Z.leb_spec (Z.of_nat MAX_PORTS) src); [by left|right].
      destruct (attached s src); [|done]. cbv zeta in E. repeat case_match; simplify_eq. }
  destruct (net_ok_forward _ _ _ _ _ _ N Hs E) as (Lf & Hsrc & Ha & -> & N').
  destruct (learn_spec s (frame_src f) src (no_wf _ _ N)) as (W' & Ep & _ & Epart & _).
  assert (∀ p, abs_fdb (learn s (frame_src f) src) !! frame_dst f = Some p → p ≠ NO_PORT) as Np.
  { intros p Hp. pose proof (lookup_weaken _ _ _ _ Hp (no_sub _ _ N')) as H.
    apply (no_att _ _ N') in H as [H _]. unfold NO_PORT, MAX_PORTS in *. lia. }
  unfold forward in E. rewrite (proj2 (Nat.ltb_ge _ _) Lf), Ha, (proj2 (Z.leb_gt _ _) Hsrc) in E. cbn [orb negb] in E.
  cbv zeta in E. rewrite Epart in E. destruct (partitioned s); [simplify_eq; by left|].
  destruct (Z.eqb_spec (Z.land (default 0 (frame_dst f !! 0%nat)) 1) 0) as [|Ng]; cbn [negb] in E;
    [|simplify_eq; by right; left].
  destruct (lookup_mac _ _) as [p|] eqn:El.
  - assert (p ≠ NO_PORT) as Hp.
    { unfold lookup_mac in El. apply find_map_Some in El as (i & x & _ & El & _).
      destruct (_ && _) eqn:B; [|done]. injection El as <-. apply andb_true_iff in B as [_ B].
      by apply negb_true_iff, Z.eqb_neq in B. }
    apply lookup_mac_spec in El; [|done..].
    pose proof (lookup_weaken _ _ _ _ El (no_sub _ _ N')) as Hp'. destruct (no_att _ _ N' _ _ Hp') as [R A].
    destruct (Z.eqb_spec p src) as [->|]; cbn [negb] in E; simplify_eq; [by do 4 right|].
    split_and!; [done| |done|lia|lia]. unfold attached in *. by rewrite <-Ep.
  - simplify_eq. destruct (Nat.le_gt_cases (size (<[frame_src f:=src]> seen)) FDB_CAP) as [C|C]; [|by do 2 right; left].
    do 3 right. left. rewrite <-(no_all _ _ N' C).
    destruct (abs_fdb _ !! _) as [q|] eqn:Eq; [|done]. exfalso.
    pose proof (Np _ eq_refl) as Nq. apply lookup_mac_spec in Eq; [|done..]. congruence.
Qed.

(** A frame built for an attached station carries both addresses where the
    switch reads them, and fits the buffer or is refused. *)
Lemma build_eth_frame_spec out dst src et payload : length dst = 6%nat → length src = 6%nat →
  match build_eth_frame out dst src et payload with
  | (out', Ok n) => n = (ETH_HDR_LEN + length payload)%nat ∧ length out' = length out ∧
      frame_dst (take n out') = dst ∧ frame_src (take n out') = src ∧ (ETH_HDR_LEN ≤ length (take n out'))%nat
  | (out', Err _) => out' = out ∧ (length out < ETH_HDR_LEN + length payload)%nat
  end.
Proof.
  intros Ld Ls. unfold build_eth_frame. cbv zeta. destruct (Nat.ltb_spec (length out) (ETH_HDR_LEN + length payload)); [done|].
  set (hd := dst ++ src ++ [_; _] ++ payload ++ _).
  assert (length hd = length out) as L.
  { unfold hd. rewrite !length_app, length_drop. cbn [length]. unfold ETH_HDR_LEN in *. lia. }
  assert (6 ≤ ETH_HDR_LEN + length payload)%nat as T by (unfold ETH_HDR_LEN; lia).
  split_and!; [done|done|..].
  - unfold frame_dst. rewrite take_take, Nat.min_l by done. by apply take_app_length'.
  - unfold frame_src. rewrite skipn_firstn_comm, take_take, Nat.min_l by (unfold ETH_HDR_LEN; lia).
    unfold hd. rewrite drop_app_length' by done. by apply take_app_length'.
  - rewrite length_take. lia.
Qed.

Definition mac0 : list Z := [2; 0; 0; 0; 0; 1].
Definition mac1 : list Z := [2; 0; 0; 0; 0; 2].
Definition demo_frame : list Z := (build_eth_frame (replicate 64 0) mac1 mac0 0x88B5 [1; 2; 3]).1.

Lemma switch_delivery_witness :
  (forward (net_run 2 [OpAttach 0 mac0; OpAttach 1 mac1]).1 0 demo_frame).2 = Ok (Some 1) ∧
  attached (net_run 2 [OpAttach 0 mac0; OpAttach 1 mac1]).1 1 = true.
Proof.
  split; [by vm_compute|].
  pose proof (switch_delivery 2 [OpAttach 0 mac0; OpAttach 1 mac1] 0 demo_frame) as H.
  assert (snd (forward (net_run 2 [OpAttach 0 mac0; OpAttach 1 mac1]).1 0 demo_frame) = Ok (Some 1)) as E by by vm_compute.
  destruct (net_run 2 _) as [s seen]. cbn [fst] in *. destruct (forward s 0 demo_frame) as [s' r]. cbn [snd] in E.
  rewrite E in H. apply H; [repeat constructor; cbn; lia|lia].
Defined.

End Switch.
