(* ===== verification/FwMemory.v ===== *)
(** * The guest firmware's page allocator

    [raynu_f/memory.rs]: [AllocatePages], [FreePages], the memory map and
    [ExitBootServices] over three page regions and a tail of spans. Allocation and
    release are shown exact page by page, and the memory map honest: what it
    advertises as conventional memory is free, and can be allocated at its address.

    Page counts are below 2^40 (the regions end below 2^52), so sums of counts and
    addresses derived from them are written with [+]; the sums that take a count
    straight from the guest are written at their width. *)

From S2P Require Import Prelude.

Module FwMem.

Definition BELOW1M_BASE : Z := 0x1000.
Definition BELOW1M_END : Z := 0x9F000.
Definition BELOW1M_PAGES : Z := (BELOW1M_END - BELOW1M_BASE) / 4096.
Definition POOL_BASE : Z := 0xB00000.
Definition POOL_END : Z := 0x1F00000.
Definition POOL_PAGES : Z := (POOL_END - POOL_BASE) / 4096.
Definition HIGH_MAX_PAGES : Z := 65536.
Definition TAIL_SPANS : nat := 8.

Definition EFI_RESERVED_MEMORY_TYPE : Z := 0.
Definition EFI_LOADER_CODE : Z := 1.
Definition EFI_BOOT_SERVICES_DATA : Z := 4.
Definition EFI_RUNTIME_SERVICES_CODE : Z := 5.
Definition EFI_RUNTIME_SERVICES_DATA : Z := 6.
Definition EFI_CONVENTIONAL_MEMORY : Z := 7.
Definition EFI_ACPI_RECLAIM_MEMORY : Z := 9.
Definition EFI_MAX_MEMORY_TYPE : Z := 15.

Definition ALLOCATE_ANY_PAGES : Z := 0.
Definition ALLOCATE_MAX_ADDRESS : Z := 1.
Definition ALLOCATE_ADDRESS : Z := 2.

Definition MAX_DESCRIPTORS : nat := 256.

Definition EFI_SUCCESS : Z := 0.
Definition EFI_INVALID_PARAMETER : Z := 0x8000000000000002.
Definition EFI_NOT_FOUND : Z := 0x800000000000000E.
Definition EFI_OUT_OF_RESOURCES : Z := 0x8000000000000009.

(** Layout of the slab ([raynu_f/launch_plan.rs], [tables.rs], [testapp.rs]). *)
Definition F2_IDENTITY_PML4 : Z := 0x400000.
Definition F2_TABLES_BASE : Z := 0x800000.
Definition F2_APP_LOAD_BASE : Z := 0x900000.
Definition F2_STACK_TOP : Z := 0xA10000.
Definition IMAGE_ACPI_OFF : Z := 0x4000.
Definition IMAGE_BYTES : Z := 0x5000.
Definition TESTAPP_SIZE_OF_IMAGE : Z := 0x3000.

Inductive Region := Below1m | Low | High.

#[global] Instance region_eq_dec : EqDecision Region.
Proof. solve_decision. Defined.

Record TailSpan := mkSpan { sp_start : Z; sp_pages : Z; sp_typ : Z; sp_used : bool }.

#[global] Instance span_eq_dec : EqDecision TailSpan.
Proof. solve_decision. Defined.

Definition NO_SPAN : TailSpan := mkSpan 0 0 0 false.

(** The bitmaps and type bytes of the three regions are one array of each per
    region; every index the operations use is below the region's page count. *)
Record PagePool := mkPool {
  words : Region → Z → Z;
  types : Region → Z → Z;
  high_base : Z;
  high_pages : Z;
  tail_pages : Z;
  tail_spans : list TailSpan;
  map_key : Z;
  exited : bool;
  allocs : Z;
}.

Definition pool_new : PagePool :=
  mkPool (λ _ _, 0) (λ _ _, 0) 0 0 0 (replicate TAIL_SPANS NO_SPAN) 0 false 0.

Definition set_bits (s : PagePool) (w t : Region → Z → Z) : PagePool :=
  mkPool w t (high_base s) (high_pages s) (tail_pages s) (tail_spans s) (map_key s) (exited s) (allocs s).
Definition set_spans (s : PagePool) (l : list TailSpan) : PagePool :=
  mkPool (words s) (types s) (high_base s) (high_pages s) (tail_pages s) l (map_key s) (exited s) (allocs s).
(** [self.allocs.saturating_add(1)] on a [u32]. *)
Definition count_alloc (s : PagePool) : PagePool :=
  mkPool (words s) (types s) (high_base s) (high_pages s) (tail_pages s) (tail_spans s) (map_key s) (exited s)
    (Z.min (allocs s + 1) 4294967295).

Definition clear_high (s : PagePool) : PagePool :=
  mkPool (words s) (types s) 0 0 0 (replicate TAIL_SPANS NO_SPAN) (map_key s) (exited s) (allocs s).

Definition set_high_region (s : PagePool) (base pages : Z) : PagePool * Z :=
  if negb (Z.land base 0xfff =? 0) || (base <? POOL_END) || (pages =? 0) then (clear_high s, 0)
  else
    match checked_add64 base (sat_mul64 pages 4096) with
    | None => (clear_high s, 0)
    | Some e =>
        if Z.shiftl 1 52 <? e then (clear_high s, 0)
        else
          let bitmap := Z.min pages HIGH_MAX_PAGES in
          (mkPool (words s) (types s) base bitmap (pages - bitmap) (replicate TAIL_SPANS NO_SPAN)
             (map_key s) (exited s) (allocs s), pages)
    end.

Definition tail_base (s : PagePool) : Z := high_base s + high_pages s * 4096.

Definition pages_in (s : PagePool) (r : Region) : Z :=
  match r with Below1m => BELOW1M_PAGES | Low => POOL_PAGES | High => high_pages s end.

Definition base_of (s : PagePool) (r : Region) : Z :=
  match r with Below1m => BELOW1M_BASE | Low => POOL_BASE | High => high_base s end.

Definition is_used (s : PagePool) (r : Region) (i : Z) : bool :=
  Z.land (Z.shiftr (words s r (i / 64)) (i mod 64)) 1 =? 1.

Definition upd (f : Region → Z → Z) (r : Region) (i v : Z) : Region → Z → Z :=
  λ r' j, if bool_decide (r' = r) && (j =? i) then v else f r' j.

Definition set_used (s : PagePool) (r : Region) (i : Z) (on : bool) : PagePool :=
  let w := words s r (i / 64) in
  set_bits s
    (upd (words s) r (i / 64)
       (if on then Z.lor w (Z.shiftl 1 (i mod 64)) else Z.land w (bnot64 (Z.shiftl 1 (i mod 64)))))
    (types s).

Definition typ_of (s : PagePool) (r : Region) (i : Z) : Z := types s r i.

Definition set_typ (s : PagePool) (r : Region) (i t : Z) : PagePool :=
  set_bits s (words s) (upd (types s) r i (t mod 256)).

Definition page_of (s : PagePool) (addr : Z) : option (Region * Z) :=
  if negb (Z.land addr 0xfff =? 0) then None
  else if (BELOW1M_BASE <=? addr) && (addr <? BELOW1M_END) then Some (Below1m, (addr - BELOW1M_BASE) / 4096)
  else if (POOL_BASE <=? addr) && (addr <? POOL_END) then Some (Low, (addr - POOL_BASE) / 4096)
  else if negb (high_pages s =? 0) then
    if (high_base s <=? addr) && (addr <? high_base s + high_pages s * 4096)
    then Some (High, (addr - high_base s) / 4096) else None
  else None.

(** The loop of [find_run] over the indices that are left. *)
Fixpoint find_run_loop (s : PagePool) (r : Region) (pages run : Z) (idxs : list Z) : option Z :=
  match idxs with
  | [] => None
  | i :: rest =>
      if is_used s r i then find_run_loop s r pages 0 rest
      else if run + 1 =? pages then Some (i + 1 - pages)
      else find_run_loop s r pages (run + 1) rest
  end.

Definition find_run (s : PagePool) (r : Region) (pages max_end_page : Z) : option Z :=
  find_run_loop s r pages 0 (seqZ 0 (Z.min max_end_page (pages_in s r))).

Definition end_page_for_max (s : PagePool) (r : Region) (max_addr : Z) : option Z :=
  let base := base_of s r in
  if max_addr <? base then None else Some ((sat_add64 max_addr 1 - base) / 4096).

Definition mark (s : PagePool) (r : Region) (first pages typ : Z) : PagePool :=
  foldl (λ s i, set_typ (set_used s r i true) r i typ) s (seqZ first pages).

(** The release loop of [free_pages_at] and [free_across_tail]. *)
Definition unmark (s : PagePool) (r : Region) (first pages : Z) : PagePool :=
  foldl (λ s i, set_typ (set_used s r i false) r i 0) s (seqZ first pages).

(** ** The tail *)

Definition tail_index (s : PagePool) (addr pages : Z) : option Z :=
  if (tail_pages s =? 0) || (pages =? 0) || negb (Z.land addr 0xfff =? 0) then None
  else
    let base := tail_base s in
    if addr <? base then None
    else
      let start := (addr - base) / 4096 in
      if tail_pages s <? sat_add64 start pages then None else Some start.

Definition span_hits (start e : Z) (sp : TailSpan) : bool :=
  sp_used sp && (start <? sp_start sp + sp_pages sp) && (sp_start sp <? e).

Definition tail_busy (s : PagePool) (start pages : Z) : bool :=
  existsb (span_hits start (start + pages)) (tail_spans s).

Definition tail_insert (s : PagePool) (start pages typ : Z) : option PagePool :=
  if (4294967295 <? start) || (4294967295 <? pages) || (pages =? 0) then None
  else
    match find_index (λ sp, negb (sp_used sp)) (tail_spans s) with
    | Some k => Some (set_spans s (<[k := mkSpan start pages (typ mod 256) true]> (tail_spans s)))
    | None => None
    end.

Definition allocate_tail_at (s : PagePool) (addr pages typ : Z) : PagePool * (Z * Z) :=
  match tail_index s addr pages with
  | None => (s, (EFI_NOT_FOUND, addr))
  | Some start =>
      if tail_busy s start pages then (s, (EFI_NOT_FOUND, addr))
      else
        match tail_insert s start pages typ with
        | None => (s, (EFI_NOT_FOUND, addr))
        | Some s => (count_alloc s, (EFI_SUCCESS, addr))
        end
  end.

Definition any_used (s : PagePool) (r : Region) (first n : Z) : bool :=
  existsb (is_used s r) (seqZ first n).

Definition allocate_across_tail (s : PagePool) (page pages typ addr : Z) : PagePool * (Z * Z) :=
  if high_pages s <=? page then (s, (EFI_NOT_FOUND, addr))
  else
    let in_bitmap := high_pages s - page in
    if pages <=? in_bitmap then (s, (EFI_NOT_FOUND, addr))
    else
      let in_tail := pages - in_bitmap in
      if tail_pages s <? in_tail then (s, (EFI_NOT_FOUND, addr))
      else if any_used s High page in_bitmap || tail_busy s 0 in_tail then (s, (EFI_NOT_FOUND, addr))
      else
        match tail_insert s 0 in_tail typ with
        | None => (s, (EFI_OUT_OF_RESOURCES, addr))
        | Some s => (count_alloc (mark s High page in_bitmap typ), (EFI_SUCCESS, addr))
        end.

(** The insertion sort of the used spans by start; the sorted prefix is kept with
    its last element first, where the swaps begin. *)
Fixpoint ins_rev (x : TailSpan) (l : list TailSpan) : list TailSpan :=
  match l with
  | [] => [x]
  | y :: l => if sp_start x <? sp_start y then y :: ins_rev x l else x :: y :: l
  end.

Definition span_order (s : PagePool) : list TailSpan :=
  rev (foldl (λ acc x, ins_rev x acc) [] (filter (λ sp, sp_used sp = true) (tail_spans s))).

Definition try_gap (s : PagePool) (pages max_addr typ cursor : Z) : option (PagePool * Z) :=
  let addr := tail_base s + cursor * 4096 in
  let last := addr + pages * 4096 - 1 in
  if max_addr <? last then None
  else match tail_insert s cursor pages typ with Some s => Some (s, addr) | None => None end.

Fixpoint fit_loop (s : PagePool) (pages max_addr typ cursor : Z) (order : list TailSpan)
    : option (PagePool * Z) :=
  match order with
  | [] => if pages <=? tail_pages s - cursor then try_gap s pages max_addr typ cursor else None
  | sp :: order =>
      let next := fit_loop s pages max_addr typ (sp_start sp + sp_pages sp) order in
      if (cursor <? sp_start sp) && (pages <=? sp_start sp - cursor) then
        match try_gap s pages max_addr typ cursor with Some r => Some r | None => next end
      else next
  end.

Definition tail_fit_below (s : PagePool) (pages max_addr typ : Z) : option (PagePool * Z) :=
  if (tail_pages s =? 0) || (pages =? 0) || (tail_pages s <? pages) then None
  else fit_loop s pages max_addr typ 0 (span_order s).

Definition tail_first_fit (s : PagePool) (pages typ : Z) : option (PagePool * Z) :=
  tail_fit_below s pages U64_MAX typ.

(** ** [AllocatePages] and [FreePages] *)

Definition heap_regions : list Region := [Low; High].

(** What the first match decides: an answer, or a run to mark if there is one. *)
Inductive Search :=
| Return (r : PagePool * (Z * Z))
| Found (f : option (Region * Z)).

Definition search_address (s : PagePool) (mem_type pages memory : Z) : Search :=
  match page_of s memory with
  | Some (r, p) =>
      if p + pages <=? pages_in s r then
        if any_used s r p pages then Return (s, (EFI_NOT_FOUND, memory)) else Found (Some (r, p))
      else
        match r with
        | High => Return (allocate_across_tail s p pages mem_type memory)
        | _ => Return (s, (EFI_NOT_FOUND, memory))
        end
  | None =>
      match tail_index s memory pages with
      | Some _ => Return (allocate_tail_at s memory pages mem_type)
      | None => Return (s, (EFI_NOT_FOUND, memory))
      end
  end.

Definition search_max (s : PagePool) (r : Region) (pages memory : Z) : option (Region * Z) :=
  match end_page_for_max s r memory with
  | Some e => (λ p, (r, p)) <$> find_run s r pages e
  | None => None
  end.

Definition search_pages (s : PagePool) (alloc_type mem_type pages memory : Z) : Search :=
  if alloc_type =? ALLOCATE_ANY_PAGES then
    Found (find_map (λ r, (λ p, (r, p)) <$> find_run s r pages (pages_in s r)) heap_regions)
  else if alloc_type =? ALLOCATE_MAX_ADDRESS then
    Found (if memory <? 0x100000 then search_max s Below1m pages memory
           else find_map (λ r, search_max s r pages memory) heap_regions)
  else if alloc_type =? ALLOCATE_ADDRESS then search_address s mem_type pages memory
  else Return (s, (EFI_INVALID_PARAMETER, memory)).

Definition max_run (s : PagePool) : Z :=
  Z.max (Z.max (Z.max (Z.max POOL_PAGES (high_pages s)) BELOW1M_PAGES) (tail_pages s))
    (high_pages s + tail_pages s).

Definition allocate_pages (s : PagePool) (alloc_type mem_type pages memory : Z) : PagePool * (Z * Z) :=
  if (pages =? 0) || (max_run s <? pages) then (s, (EFI_INVALID_PARAMETER, memory))
  else if (EFI_MAX_MEMORY_TYPE <=? mem_type) || (mem_type =? EFI_CONVENTIONAL_MEMORY)
          || (mem_type =? EFI_RESERVED_MEMORY_TYPE) then (s, (EFI_INVALID_PARAMETER, memory))
  else
    match search_pages s alloc_type mem_type pages memory with
    | Return r => r
    | Found None =>
        match (if alloc_type =? ALLOCATE_ANY_PAGES then tail_first_fit s pages mem_type
               else if alloc_type =? ALLOCATE_MAX_ADDRESS then tail_fit_below s pages memory mem_type
               else None) with
        | Some (s, addr) => (count_alloc s, (EFI_SUCCESS, addr))
        | None => (s, (if alloc_type =? ALLOCATE_MAX_ADDRESS then EFI_NOT_FOUND else EFI_OUT_OF_RESOURCES, memory))
        end
    | Found (Some (r, first)) =>
        (count_alloc (mark s r first pages mem_type), (EFI_SUCCESS, base_of s r + first * 4096))
    end.

(** The loop over the spans: [None] when none of them is released. *)
Fixpoint free_span (start e : Z) (l : list TailSpan) : option (list TailSpan) :=
  match l with
  | [] => None
  | sp :: l =>
      let ss := sp_start sp in
      let se := ss + sp_pages sp in
      if negb (sp_used sp) || (start <? ss) || (se <? e) then (cons sp) <$> free_span start e l
      else if (start =? ss) && (e =? se) then Some (mkSpan ss (sp_pages sp) (sp_typ sp) false :: l)
      else if start =? ss then Some (mkSpan e (se - e) (sp_typ sp) (sp_used sp) :: l)
      else if e =? se then Some (mkSpan ss (start - ss) (sp_typ sp) (sp_used sp) :: l)
      else None
  end.

Definition free_tail_at (s : PagePool) (memory pages : Z) : PagePool * Z :=
  match tail_index s memory pages with
  | None => (s, EFI_NOT_FOUND)
  | Some start =>
      match free_span start (start + pages) (tail_spans s) with
      | Some l => (set_spans s l, EFI_SUCCESS)
      | None => (s, EFI_NOT_FOUND)
      end
  end.

Definition all_used (s : PagePool) (r : Region) (first n : Z) : bool :=
  forallb (is_used s r) (seqZ first n).

Definition free_across_tail (s : PagePool) (page pages : Z) : PagePool * Z :=
  if (high_pages s <=? page) || (pages <=? high_pages s - page) then (s, EFI_NOT_FOUND)
  else
    let in_bitmap := high_pages s - page in
    let in_tail := pages - in_bitmap in
    if negb (all_used s High page in_bitmap) then (s, EFI_NOT_FOUND)
    else
      match free_tail_at s (tail_base s) in_tail with
      | (s, st) => if negb (st =? EFI_SUCCESS) then (s, EFI_NOT_FOUND)
                   else (unmark s High page in_bitmap, EFI_SUCCESS)
      end.

Definition free_pages_at (s : PagePool) (memory pages : Z) : PagePool * Z :=
  match page_of s memory with
  | None => free_tail_at s memory pages
  | Some (r, p) =>
      if bool_decide (r = High) && (0 <? pages) && (high_pages s <? p ⊞ pages)
      then free_across_tail s p pages
      else
        let n := p ⊞ pages - p in
        if (pages =? 0) || (pages_in s r <? p ⊞ pages) || negb (all_used s r p n) then (s, EFI_NOT_FOUND)
        else (unmark s r p n, EFI_SUCCESS)
  end.

(** ** The memory map *)

Record MemRun := mkRun { rtyp : Z; rstart : Z; rpages : Z }.

(** The runs emitted so far, the last one first. *)
Definition push (out : list MemRun) (typ start e : Z) : list MemRun :=
  if (e <=? start) || (MAX_DESCRIPTORS <=? length out)%nat then out
  else
    let pages := (e - start) / 4096 in
    match out with
    | l :: out' =>
        if (rtyp l =? typ) && (rstart l + rpages l * 4096 =? start)
        then mkRun (rtyp l) (rstart l) (rpages l + pages) :: out'
        else mkRun typ start pages :: out
    | [] => [mkRun typ start pages]
    end.

Definition state_at (s : PagePool) (r : Region) (i : Z) : bool * Z :=
  let u := is_used s r i in (u, if u then typ_of s r i else EFI_CONVENTIONAL_MEMORY).

(** The inner loop: the end of the run of equal state that begins before [j]. *)
Fixpoint run_end (s : PagePool) (r : Region) (st : bool * Z) (total : Z) (js : list Z) : Z :=
  match js with
  | [] => total
  | j :: js => if bool_decide (state_at s r j = st) then run_end s r st total js else j
  end.

(** The outer loop; it advances at least one page per turn. *)
Fixpoint region_loop (fuel : nat) (s : PagePool) (r : Region) (i : Z) (out : list MemRun) : list MemRun :=
  match fuel with
  | O => out
  | S fuel =>
      let total := pages_in s r in
      if i <? total then
        let st := state_at s r i in
        let j := run_end s r st total (seqZ (i + 1) (total - (i + 1))) in
        region_loop fuel s r j (push out st.2 (base_of s r + i * 4096) (base_of s r + j * 4096))
      else out
  end.

Definition region_runs (s : PagePool) (r : Region) (out : list MemRun) : list MemRun :=
  region_loop (Z.to_nat (pages_in s r)) s r 0 out.

Fixpoint emit_spans (base : Z) (order : list TailSpan) (cursor : Z) (out : list MemRun) : list MemRun * Z :=
  match order with
  | [] => (out, cursor)
  | sp :: order =>
      let start := sp_start sp in
      let out := if cursor <? start
                 then push out EFI_CONVENTIONAL_MEMORY (base + cursor * 4096) (base + start * 4096) else out in
      let e := start + sp_pages sp in
      emit_spans base order e (push out (sp_typ sp) (base + start * 4096) (base + e * 4096))
  end.

Definition emit_tail (s : PagePool) (out : list MemRun) : list MemRun :=
  let base := tail_base s in
  let '(out, cursor) := emit_spans base (span_order s) 0 out in
  if cursor <? tail_pages s
  then push out EFI_CONVENTIONAL_MEMORY (base + cursor * 4096) (base + tail_pages s * 4096) else out.

Definition memory_map_rev (s : PagePool) (slab_bytes : Z) : list MemRun :=
  let out := push [] EFI_RESERVED_MEMORY_TYPE 0 BELOW1M_BASE in
  let out := region_runs s Below1m out in
  let out := push out EFI_RESERVED_MEMORY_TYPE BELOW1M_END 0x100000 in
  let out := push out EFI_BOOT_SERVICES_DATA 0x100000 F2_IDENTITY_PML4 in
  let out := push out EFI_RESERVED_MEMORY_TYPE F2_IDENTITY_PML4 F2_TABLES_BASE in
  let out := push out EFI_RUNTIME_SERVICES_CODE F2_TABLES_BASE (F2_TABLES_BASE + IMAGE_ACPI_OFF) in
  let out := push out EFI_ACPI_RECLAIM_MEMORY (F2_TABLES_BASE + IMAGE_ACPI_OFF) (F2_TABLES_BASE + IMAGE_BYTES) in
  let out := push out EFI_BOOT_SERVICES_DATA (F2_TABLES_BASE + IMAGE_BYTES) F2_APP_LOAD_BASE in
  let out := push out EFI_LOADER_CODE F2_APP_LOAD_BASE (F2_APP_LOAD_BASE + TESTAPP_SIZE_OF_IMAGE) in
  let out := push out EFI_BOOT_SERVICES_DATA (F2_APP_LOAD_BASE + TESTAPP_SIZE_OF_IMAGE) (F2_STACK_TOP - 0x10000) in
  let out := push out EFI_RESERVED_MEMORY_TYPE (F2_STACK_TOP - 0x10000) (F2_STACK_TOP + 0x1000) in
  let out := push out EFI_BOOT_SERVICES_DATA (F2_STACK_TOP + 0x1000) POOL_BASE in
  let out := region_runs s Low out in
  let out := push out EFI_RESERVED_MEMORY_TYPE POOL_END slab_bytes in
  let out := if negb (high_pages s =? 0) then region_runs s High out else out in
  if negb (tail_pages s =? 0) then emit_tail s out else out.

Definition memory_map (s : PagePool) (slab_bytes : Z) : list MemRun := rev (memory_map_rev s slab_bytes).

Definition next_map_key (s : PagePool) : PagePool * Z :=
  let k := map_key s ⊞ 1 in
  (mkPool (words s) (types s) (high_base s) (high_pages s) (tail_pages s) (tail_spans s) k (exited s) (allocs s), k).

Definition exit_boot_services (s : PagePool) (key : Z) : PagePool * Z :=
  if (key =? 0) || negb (key =? map_key s) then (s, EFI_INVALID_PARAMETER)
  else (mkPool (words s) (types s) (high_base s) (high_pages s) (tail_pages s) (tail_spans s) (map_key s) true
          (allocs s), EFI_SUCCESS).

Definition pool_pages_for (size : Z) : Z := (sat_add64 size 16 ⊞ 4095) / 4096.

(** ** The bitmaps *)

Lemma is_used_bit s r i : is_used s r i = Z.testbit (words s r (i / 64)) (i mod 64).
Proof.
  unfold is_used. change 1 with (Z.ones 1) at 1. rewrite Z.land_ones by lia.
  rewrite <-Z.bit0_mod, Z.shiftr_spec, Z.add_0_l by lia. by destruct (Z.testbit _ _).
Qed.

Lemma is_used_set s r i on r' j : 0 ≤ i → 0 ≤ j →
  is_used (set_used s r i on) r' j = if bool_decide (r' = r) && (j =? i) then on else is_used s r' j.
Proof.
  intros Hi Hj. rewrite !is_used_bit. unfold set_used. cbn [words set_bits]. unfold upd.
  destruct (bool_decide (r' = r)) eqn:Er; cbn [andb]; [|done]. apply bool_decide_eq_true in Er as ->.
  destruct (Z.eqb_spec (j / 64) (i / 64)) as [E|N].
  2:{ destruct (Z.eqb_spec j i) as [->|]; done. }
  assert (0 ≤ i mod 64 < 64 ∧ 0 ≤ j mod 64 < 64) as [Bi Bj] by dlia. rewrite <-E.
  assert (∀ k, Z.testbit (Z.shiftl 1 (i mod 64)) k = (k =? i mod 64)) as T.
  { intros k. rewrite Z.shiftl_1_l. destruct (Z.eqb_spec k (i mod 64)) as [->|]; [apply Z.pow2_bits_true; lia|].
    apply Z.pow2_bits_false. lia. }
  assert ((j mod 64 =? i mod 64) = (j =? i)) as Eb.
  { destruct (Z.eqb_spec (j mod 64) (i mod 64)), (Z.eqb_spec j i); try done; dlia. }
  destruct on.
  - rewrite Z.lor_spec, T, Eb. destruct (j =? i); [apply orb_true_r|apply orb_false_r].
  - rewrite Z.land_spec. unfold bnot64. rewrite Z.lxor_spec, T, Eb, Z.ones_spec_low by lia.
    destruct (j =? i); [apply andb_false_r|apply andb_true_r].
Qed.

(** Only the arrays differ. *)
Definition same_shape (s s' : PagePool) : Prop :=
  high_base s' = high_base s ∧ high_pages s' = high_pages s ∧ tail_pages s' = tail_pages s ∧
  tail_spans s' = tail_spans s ∧ map_key s' = map_key s ∧ exited s' = exited s ∧ allocs s' = allocs s.

Lemma same_shape_refl s : same_shape s s.
Proof. by repeat split. Qed.

Lemma if_cons {A} (r r' : Region) (i j : Z) l (a b : A) : ¬ (r' = r ∧ j ∈ l) →
  (if bool_decide (r' = r) && (j =? i) then a else b) = if bool_decide (r' = r ∧ j ∈ i :: l) then a else b.
Proof.
  intros N. destruct (decide (r' = r ∧ j = i)) as [[-> ->]|D].
  - rewrite Z.eqb_refl, !bool_decide_eq_true_2; [done|split; [done|apply list_elem_of_here]|done].
  - rewrite (bool_decide_eq_false_2 (_ ∧ _)).
    + destruct (decide (r' = r)), (Z.eqb_spec j i); try (by rewrite bool_decide_eq_false_2 by done);
        try (by rewrite andb_false_r). naive_solver.
    + rewrite elem_of_cons. naive_solver.
Qed.

Lemma mark_step_spec (on : bool) t : 0 ≤ t < 256 → ∀ (l : list Z) s r, (∀ i, i ∈ l → 0 ≤ i) →
  let s' := foldl (λ s i, set_typ (set_used s r i on) r i t) s l in
  same_shape s s' ∧
  (∀ r' j, 0 ≤ j → is_used s' r' j = if bool_decide (r' = r ∧ j ∈ l) then on else is_used s r' j) ∧
  (∀ r' j, 0 ≤ j → typ_of s' r' j = if bool_decide (r' = r ∧ j ∈ l) then t else typ_of s r' j).
Proof.
  intros Ht l. induction l as [|i l IH]; intros s r Hl; cbv zeta; cbn [foldl].
  - split_and!; [by repeat split|..]; intros r' j Hj; rewrite bool_decide_eq_false_2; (done || by intros [_ ?%elem_of_nil]).
  - assert (0 ≤ i) as Hi by apply Hl, list_elem_of_here.
    destruct (IH (set_typ (set_used s r i on) r i t) r) as (Sh & U & T).
    { intros k Hk. apply Hl, elem_of_cons. by right. }
    split_and!; [exact Sh|..]; intros r' j Hj; [rewrite U by done|rewrite T by done];
      destruct (decide (r' = r ∧ j ∈ l)) as [D|D].
    + rewrite !bool_decide_eq_true_2; [done|split; [apply D|apply elem_of_cons; right; apply D]|done].
    + rewrite (bool_decide_eq_false_2 (r' = r ∧ j ∈ l)) by done.
      change (is_used (set_typ (set_used s r i on) r i t) r' j) with (is_used (set_used s r i on) r' j).
      rewrite is_used_set by done. by apply if_cons.
    + rewrite !bool_decide_eq_true_2; [done|split; [apply D|apply elem_of_cons; right; apply D]|done].
    + rewrite (bool_decide_eq_false_2 (r' = r ∧ j ∈ l)) by done.
      unfold typ_of, set_typ, upd. cbn [types set_bits]. rewrite Z.mod_small by done.
      by apply if_cons.
Qed.

Lemma if_seqZ {A} (r r' : Region) (j first n : Z) (a b : A) :
  (if bool_decide (r' = r ∧ j ∈ seqZ first n) then a else b) =
  if bool_decide (r' = r ∧ first ≤ j < first + n) then a else b.
Proof. by rewrite (bool_decide_ext _ (r' = r ∧ first ≤ j < first + n)) by (by rewrite elem_of_seqZ). Qed.

Lemma mark_spec s r first n t : 0 ≤ first → 0 ≤ t < 256 →
  same_shape s (mark s r first n t) ∧
  (∀ r' j, 0 ≤ j → is_used (mark s r first n t) r' j =
     if bool_decide (r' = r ∧ first ≤ j < first + n) then true else is_used s r' j) ∧
  (∀ r' j, 0 ≤ j → typ_of (mark s r first n t) r' j =
     if bool_decide (r' = r ∧ first ≤ j < first + n) then t else typ_of s r' j).
Proof.
  intros Hf Ht. destruct (mark_step_spec true t Ht (seqZ first n) s r) as (Sh & U & T).
  { intros i Hi%elem_of_seqZ. lia. }
  split_and!; [done|..]; intros r' j Hj; unfold mark; [rewrite U by done|rewrite T by done]; apply if_seqZ.
Qed.

Lemma unmark_spec s r first n : 0 ≤ first →
  same_shape s (unmark s r first n) ∧
  (∀ r' j, 0 ≤ j → is_used (unmark s r first n) r' j =
     if bool_decide (r' = r ∧ first ≤ j < first + n) then false else is_used s r' j) ∧
  (∀ r' j, 0 ≤ j → ¬ (r' = r ∧ first ≤ j < first + n) → typ_of (unmark s r first n) r' j = typ_of s r' j).
Proof.
  intros Hf. destruct (mark_step_spec false 0 ltac:(lia) (seqZ first n) s r) as (Sh & U & T).
  { intros i Hi%elem_of_seqZ. lia. }
  split_and!; [done|..]; intros r' j Hj; unfold unmark.
  - rewrite U by done. apply if_seqZ.
  - intros D. rewrite T by done. by rewrite bool_decide_eq_false_2 by (rewrite ?elem_of_seqZ; done).
Qed.

(** ** Pages and what they hold *)

(** [None] is a free page. *)
Definition cell (s : PagePool) (r : Region) (i : Z) : option Z :=
  if is_used s r i then Some (typ_of s r i) else None.

Definition covers (k : Z) (sp : TailSpan) : bool :=
  sp_used sp && (sp_start sp <=? k) && (k <? sp_start sp + sp_pages sp).

Definition tcell (s : PagePool) (k : Z) : option Z :=
  find_map (λ sp, if covers k sp then Some (sp_typ sp) else None) (tail_spans s).

(** The page at an address: not managed, free, or allocated with a type. *)
Definition page_state (s : PagePool) (a : Z) : option (option Z) :=
  match page_of s a with
  | Some (r, i) => Some (cell s r i)
  | None => match tail_index s a 1 with Some k => Some (tcell s k) | None => None end
  end.

(** The types a caller may ask for. *)
Definition ok_type (t : Z) : Prop := 0 < t < EFI_MAX_MEMORY_TYPE ∧ t ≠ EFI_CONVENTIONAL_MEMORY.

Definition uspans (s : PagePool) : list TailSpan := filter (λ sp, sp_used sp = true) (tail_spans s).

Definition apart (x y : TailSpan) : Prop :=
  sp_start x + sp_pages x ≤ sp_start y ∨ sp_start y + sp_pages y ≤ sp_start x.

Record spans_ok (tp : Z) (l : list TailSpan) : Prop := {
  so_nodup : NoDup l;
  so_apart : ∀ x y, x ∈ l → y ∈ l → x ≠ y → apart x y;
  so_range : ∀ x, x ∈ l → 0 ≤ sp_start x ∧ 0 < sp_pages x ∧ sp_start x + sp_pages x ≤ tp;
  so_type : ∀ x, x ∈ l → sp_used x = true ∧ ok_type (sp_typ x);
}.

Record pool_wf (s : PagePool) : Prop := {
  pw_high : 0 ≤ high_pages s ≤ HIGH_MAX_PAGES;
  pw_tail : 0 ≤ tail_pages s;
  pw_none : high_pages s = 0 → tail_pages s = 0;
  pw_base : high_pages s ≠ 0 → high_base s mod 4096 = 0 ∧ POOL_END ≤ high_base s;
  pw_end : high_base s + (high_pages s + tail_pages s) * 4096 ≤ 2 ^ 52;
  pw_slots : length (tail_spans s) = TAIL_SPANS;
  pw_spans : spans_ok (tail_pages s) (uspans s);
  pw_types : ∀ r i, 0 ≤ i < pages_in s r → is_used s r i = true → ok_type (typ_of s r i);
}.

Lemma page_bits a : Z.land a 0xfff = a mod 4096.
Proof. apply land_page. Qed.

Ltac fw_consts := unfold BELOW1M_PAGES, POOL_PAGES, BELOW1M_BASE, BELOW1M_END, POOL_BASE, POOL_END, HIGH_MAX_PAGES in *.

Lemma page_of_spec s a r i : pool_wf s →
  page_of s a = Some (r, i) ↔ 0 ≤ i < pages_in s r ∧ a = base_of s r + i * 4096.
Proof.
  intros W. destruct (pw_high s W) as [H0 H1]. pose proof (pw_base s W) as Hb.
  unfold page_of. rewrite page_bits. fw_consts. cbn [Z.sub Z.opp Z.add Z.div]. 
  assert ((651264 - 4096) / 4096 = 158) as C1 by done. assert ((32505856 - 11534336) / 4096 = 5120) as C2 by done.
  split.
  - destruct (Z.eqb_spec (a mod 4096) 0) as [Ea|]; cbn [negb]; [|done].
    destruct (Z.leb_spec 0x1000 a), (Z.ltb_spec a 0x9F000); cbn [andb];
      try (intros [= <- <-]; cbn; fw_consts; dlia);
    destruct (Z.leb_spec 0xB00000 a), (Z.ltb_spec a 0x1F00000); cbn [andb];
      try (intros [= <- <-]; cbn; fw_consts; dlia);
    (destruct (Z.eqb_spec (high_pages s) 0) as [|Nz]; cbn [negb]; [done|]; destruct (Hb Nz) as [B1 B2];
     destruct (Z.leb_spec (high_base s) a), (Z.ltb_spec a (high_base s + high_pages s * 4096)); cbn [andb]; try done;
     intros [= <- <-]; cbn; dlia).
  - intros [Hi ->]. destruct r; cbn [pages_in base_of] in *; fw_consts.
    + replace ((0x1000 + i * 4096) mod 4096) with 0 by dlia. cbn [Z.eqb negb].
      replace ((0x1000 <=? 0x1000 + i * 4096) && (0x1000 + i * 4096 <? 0x9F000)) with true by lia.
      do 2 f_equal. dlia.
    + replace ((0xB00000 + i * 4096) mod 4096) with 0 by dlia. cbn [Z.eqb negb].
      replace ((0x1000 <=? 0xB00000 + i * 4096) && (0xB00000 + i * 4096 <? 0x9F000)) with false by lia.
      replace ((0xB00000 <=? 0xB00000 + i * 4096) && (0xB00000 + i * 4096 <? 0x1F00000)) with true by lia.
      do 2 f_equal. dlia.
    + assert (high_pages s ≠ 0) as Nz by lia. destruct (Hb Nz) as [B1 B2].
      replace ((high_base s + i * 4096) mod 4096) with 0 by dlia. cbn [Z.eqb negb].
      replace ((0x1000 <=? high_base s + i * 4096) && (high_base s + i * 4096 <? 0x9F000)) with false by lia.
      replace ((0xB00000 <=? high_base s + i * 4096) && (high_base s + i * 4096 <? 0x1F00000)) with false by lia.
      rewrite (proj2 (Z.eqb_neq _ _) Nz). cbn [negb].
      replace ((high_base s <=? high_base s + i * 4096) && (high_base s + i * 4096 <? high_base s + high_pages s * 4096))
        with true by lia.
      do 2 f_equal. dlia.
Qed.

Lemma tail_index_spec s a n k : pool_wf s → u64 a → 0 < n → u64 n →
  tail_index s a n = Some k ↔ 0 ≤ k ∧ k + n ≤ tail_pages s ∧ a = tail_base s + k * 4096.
Proof.
  intros W Ha Hn Un. unfold tail_index. rewrite page_bits. pose proof (pw_tail s W) as T0.
  pose proof (pw_none s W) as T1. pose proof (pw_base s W) as Hb. pose proof (pw_end s W) as He.
  pose proof (pw_high s W) as Hh. fw_consts. unfold tail_base. cbv zeta.
  change (2 ^ 52) with 4503599627370496 in He.
  destruct (Z.eqb_spec (tail_pages s) 0) as [Ez|Nz]; cbn [orb]; [split; [done|lia]|].
  rewrite (proj2 (Z.eqb_neq n 0)) by lia. cbn [orb].
  assert (high_pages s ≠ 0) as Nh by tauto. destruct (Hb Nh) as [B1 B2].
  destruct (Z.eqb_spec (a mod 4096) 0) as [Ea|Na]; cbn [negb]; [|split; [done|intros (?&?&->); dlia]].
  destruct (Z.ltb_spec a (high_base s + high_pages s * 4096)); [split; [done|lia]|].
  unfold sat_add64. unfold u64 in *.
  destruct (Z.ltb_spec (tail_pages s) (Z.min ((a - (high_base s + high_pages s * 4096)) / 4096 + n) U64_MAX)).
  - split; [done|]. intros (K & L & ->). mach_unfold. dlia.
  - split; [intros [= <-]; mach_unfold; dlia|]. intros (K & L & ->). f_equal. dlia.
Qed.

(** ** Spans *)

Lemma covers_true k sp : covers k sp = true ↔ sp_used sp = true ∧ sp_start sp ≤ k < sp_start sp + sp_pages sp.
Proof. unfold covers. rewrite !andb_true_iff, Z.leb_le, Z.ltb_lt. tauto. Qed.

Lemma in_uspans s sp : sp ∈ uspans s ↔ sp_used sp = true ∧ sp ∈ tail_spans s.
Proof. unfold uspans. by rewrite list_elem_of_filter. Qed.

(** What a tail page holds, read off the spans in use. *)
Lemma tcell_Some s k t : spans_ok (tail_pages s) (uspans s) →
  tcell s k = Some t ↔ ∃ sp, sp ∈ uspans s ∧ sp_start sp ≤ k < sp_start sp + sp_pages sp ∧ sp_typ sp = t.
Proof.
  intros O. unfold tcell.
  assert (∀ t', find_map (λ sp, if covers k sp then Some (sp_typ sp) else None) (tail_spans s) = Some t' →
    ∃ sp, sp ∈ uspans s ∧ sp_start sp ≤ k < sp_start sp + sp_pages sp ∧ sp_typ sp = t') as F.
  { intros t' (i & sp & Hi & E & _)%find_map_Some. destruct (covers k sp) eqn:C; [|done]. injection E as <-.
    apply covers_true in C as [U C]. exists sp. split_and!; [|lia..|done]. apply in_uspans. split; [done|].
    by eapply list_elem_of_lookup_2. }
  split; [apply F|]. intros (sp & Hs & R & <-). destruct (find_map _ _) as [t'|] eqn:E.
  - destruct (F _ eq_refl) as (sp' & Hs' & R' & <-). destruct (decide (sp = sp')) as [->|N]; [done|].
    destruct (so_apart _ _ O sp sp' Hs Hs' N); lia.
  - rewrite find_map_None in E. apply in_uspans in Hs as [U Hs]. specialize (E _ Hs).
    rewrite (proj2 (covers_true k sp)) in E by done. done.
Qed.

Lemma spans_ok_perm tp l l' : spans_ok tp l → l ≡ₚ l' → spans_ok tp l'.
Proof.
  intros [N A R T] P. split; [by rewrite <-P|..].
  - intros x y Hx Hy. rewrite <-P in Hx, Hy. by apply A.
  - intros x Hx. rewrite <-P in Hx. by apply R.
  - intros x Hx. rewrite <-P in Hx. by apply T.
Qed.

Lemma tail_busy_false s start n : tail_busy s start n = false ↔
  ∀ sp, sp ∈ uspans s → sp_start sp + sp_pages sp ≤ start ∨ start + n ≤ sp_start sp.
Proof.
  unfold tail_busy. rewrite <-not_true_iff_false, existsb_exists. split.
  - intros H sp [U Hs]%in_uspans. destruct (decide (span_hits start (start + n) sp = true)) as [B|B].
    + destruct H. exists sp. split; [by apply list_elem_of_In|done].
    + unfold span_hits in B. rewrite U in B. cbn [andb] in B. rewrite andb_true_iff, Z.ltb_lt, Z.ltb_lt in B. lia.
  - intros H (sp & Hs%list_elem_of_In & B). unfold span_hits in B. rewrite !andb_true_iff, !Z.ltb_lt in B.
    destruct B as [[U B1] B2]. destruct (H sp); [by apply in_uspans|lia..].
Qed.

(** A new span where none is busy. *)
Lemma spans_ok_cons tp l x : spans_ok tp l → 0 ≤ sp_start x → 0 < sp_pages x → sp_start x + sp_pages x ≤ tp →
  sp_used x = true → ok_type (sp_typ x) →
  (∀ y, y ∈ l → sp_start y + sp_pages y ≤ sp_start x ∨ sp_start x + sp_pages x ≤ sp_start y) →
  spans_ok tp (x :: l).
Proof.
  intros [N A R T] H0 H1 H2 U O D.
  assert (x ∉ l) as Nx by (intros Hx; specialize (D _ Hx); lia).
  split; [by constructor|..].
  - intros y z [->|Hy]%elem_of_cons [->|Hz]%elem_of_cons Nyz; [done|..|by apply A]; unfold apart.
    + specialize (D _ Hz). lia.
    + specialize (D _ Hy). lia.
  - intros y [->|Hy]%elem_of_cons; [lia|by apply R].
  - intros y [->|Hy]%elem_of_cons; [done|by apply T].
Qed.

Lemma tail_insert_spec s start n t s' : pool_wf s → tail_insert s start n t = Some s' →
  0 ≤ start → 0 < n → start + n ≤ tail_pages s → ok_type t → tail_busy s start n = false →
  words s' = words s ∧ types s' = types s ∧ high_base s' = high_base s ∧ high_pages s' = high_pages s ∧
  tail_pages s' = tail_pages s ∧ length (tail_spans s') = length (tail_spans s) ∧
  uspans s' ≡ₚ mkSpan start n t true :: uspans s ∧ spans_ok (tail_pages s) (uspans s').
Proof.
  intros W H H0 Hn Hle Ht B. unfold tail_insert in H. destruct (_ || _); [done|].
  destruct (find_index _ _) as [k|] eqn:E; [|done]. injection H as <-.
  apply find_index_Some in E as (old & Hk & U & _). apply negb_true_iff in U.
  destruct (split_at _ _ _ Hk) as (s1 & s2 & Es & I).
  assert (uspans (set_spans s (<[k:=mkSpan start n (t mod 256) true]> (tail_spans s)))
          ≡ₚ mkSpan start n t true :: uspans s) as P.
  { unfold uspans. cbn [tail_spans set_spans]. rewrite I, Es, !filter_app, !filter_cons, U.
    destruct Ht as [Ht _]. unfold EFI_MAX_MEMORY_TYPE in Ht. rewrite (Z.mod_small t) by lia.
    cbn [sp_used]. rewrite decide_True, decide_False by done. by rewrite <-Permutation_middle. }
  split_and!; [done..|by apply length_insert|done|].
  eapply spans_ok_perm; [|symmetry; exact P]. apply spans_ok_cons; cbn; try done; [apply W|].
  by apply tail_busy_false.
Qed.

(** *** The sorted order *)

Definition before (x y : TailSpan) : Prop := sp_start x ≤ sp_start y.

(** Spans in address order from [cursor], without overlap. *)
Fixpoint chain (tp cursor : Z) (l : list TailSpan) : Prop :=
  match l with
  | [] => cursor ≤ tp
  | sp :: l => cursor ≤ sp_start sp ∧ chain tp (sp_start sp + sp_pages sp) l
  end.

Fixpoint descending (l : list TailSpan) : Prop :=
  match l with
  | [] => True
  | x :: l => (∀ y, y ∈ l → before y x) ∧ descending l
  end.

Lemma ins_rev_perm x l : ins_rev x l ≡ₚ x :: l.
Proof.
  induction l as [|y l IH]; [done|]. cbn. destruct (_ <? _); [|done]. rewrite IH. apply Permutation_swap.
Qed.

Lemma ins_rev_desc x l : descending l → descending (ins_rev x l).
Proof.
  induction l as [|y l IH]; cbn [ins_rev descending]; [intros _; split; [by intros y Hy%elem_of_nil|done]|]. intros [B D].
  destruct (Z.ltb_spec (sp_start x) (sp_start y)); cbn [descending].
  - split; [|by apply IH]. intros z. rewrite (ins_rev_perm x l), elem_of_cons. unfold before in *.
    intros [->|Hz]; [lia|by apply B].
  - split; [|by split]. intros z [->|Hz]%elem_of_cons; unfold before in *; [lia|]. specialize (B _ Hz). lia.
Qed.

Lemma order_fold l : ∀ acc, descending acc →
  descending (foldl (λ acc x, ins_rev x acc) acc l) ∧ foldl (λ acc x, ins_rev x acc) acc l ≡ₚ l ++ acc.
Proof.
  induction l as [|x l IH]; intros acc D; [done|]. cbn [foldl].
  destruct (IH (ins_rev x acc) (ins_rev_desc _ _ D)) as [D' P]. split; [done|].
  rewrite P, ins_rev_perm. by rewrite <-Permutation_middle.
Qed.

Lemma chain_snoc tp l x : ∀ cursor, chain tp cursor (l ++ [x]) ↔
  chain (sp_start x) cursor l ∧ sp_start x + sp_pages x ≤ tp.
Proof. induction l as [|y l IH]; intros cursor; cbn; [lia|]. rewrite IH. tauto. Qed.

Lemma chain_weaken tp tp' l : tp ≤ tp' → ∀ c, chain tp c l → chain tp' c l.
Proof. intros L. induction l as [|y l IH]; intros c; cbn; [lia|]. intros [? H]. split; [done|]. by apply IH. Qed.

Lemma desc_chain tp l : spans_ok tp l → 0 ≤ tp → descending l → chain tp 0 (rev l).
Proof.
  revert tp. induction l as [|x l IH]; intros tp O Htp D; cbn [rev]; [done|]. destruct D as [B D].
  apply chain_snoc. pose proof O as [N A R T]. apply NoDup_cons in N as [Nx N].
  destruct (R x (list_elem_of_here _ _)) as (S0 & S1 & S2). split; [|done]. apply IH; [|done|done].
  split; [done|..].
  - intros y z Hy Hz. apply A; apply elem_of_cons; by right.
  - intros y Hy. destruct (R y) as (Y0 & Y1 & Y2); [by apply elem_of_cons; right|]. split_and!; [done..|].
    destruct (A y x) as [?|?]; [by apply elem_of_cons; right|apply list_elem_of_here|by intros ->|done|].
    specialize (B _ Hy). unfold before in B. lia.
  - intros y Hy. apply T, elem_of_cons. by right.
Qed.

Lemma span_order_spec s : pool_wf s →
  chain (tail_pages s) 0 (span_order s) ∧ ∀ sp, sp ∈ span_order s ↔ sp ∈ uspans s.
Proof.
  intros W. unfold span_order. destruct (order_fold (uspans s) []) as [D P]; [done|]. rewrite app_nil_r in P. split.
  - apply desc_chain; [|apply W|done]. eapply spans_ok_perm; [apply W|]. symmetry. exact P.
  - intros sp. rewrite list_elem_of_In, <-in_rev, <-list_elem_of_In. by rewrite P.
Qed.

Lemma chain_ge tp l : ∀ c, chain tp c l → (∀ x, x ∈ l → 0 < sp_pages x) → ∀ y, y ∈ l → c ≤ sp_start y.
Proof.
  induction l as [|x l IH]; intros c; cbn; [by intros _ _ y Hy%elem_of_nil|].
  intros [C H] P y [->|Hy]%elem_of_cons; [done|].
  assert (0 < sp_pages x) by apply P, list_elem_of_here.
  enough (sp_start x + sp_pages x ≤ sp_start y) by lia.
  apply IH; [done| |done]. intros z Hz. apply P, elem_of_cons. by right.
Qed.

(** What the first fit finds is a gap. *)
Lemma fit_loop_spec s pages mx t s' addr : pool_wf s → 0 < pages → ∀ order cursor, 0 ≤ cursor →
  chain (tail_pages s) cursor order →
  (∀ sp, sp ∈ uspans s → sp_start sp + sp_pages sp ≤ cursor ∨ sp ∈ order) →
  (∀ sp, sp ∈ order → sp ∈ uspans s) →
  fit_loop s pages mx t cursor order = Some (s', addr) →
  ∃ k, 0 ≤ k ∧ k + pages ≤ tail_pages s ∧ tail_busy s k pages = false ∧ tail_insert s k pages t = Some s' ∧
       addr = tail_base s + k * 4096 ∧ addr + pages * 4096 - 1 ≤ mx.
Proof.
  intros W Hp. pose proof (pw_spans s W) as O.
  assert (∀ cursor, try_gap s pages mx t cursor = Some (s', addr) →
    tail_insert s cursor pages t = Some s' ∧ addr = tail_base s + cursor * 4096 ∧ addr + pages * 4096 - 1 ≤ mx) as G.
  { intros cursor. unfold try_gap. cbv zeta. destruct (Z.ltb_spec mx (tail_base s + cursor * 4096 + pages * 4096 - 1)); [done|].
    destruct (tail_insert _ _ _ _); [|done]. intros [= <- <-]. done. }
  induction order as [|sp order IH]; intros cursor Hc C Cov Sub; cbn [fit_loop chain] in *.
  - destruct (Z.leb_spec pages (tail_pages s - cursor)); [|done]. intros (? & ? & ?)%G. exists cursor.
    split_and!; try done; [lia|]. apply tail_busy_false. intros y Hy. left.
    destruct (Cov y Hy) as [|Hn%elem_of_nil]; done.
  - destruct C as [C1 C2].
    assert (sp ∈ uspans s) as Hsp by apply Sub, list_elem_of_here. destruct (so_range _ _ O sp Hsp) as (R0 & R1 & R2).
    assert (∀ x, x ∈ order → 0 < sp_pages x) as Pos.
    { intros x Hx. apply (so_range _ _ O), Sub, elem_of_cons. by right. }
    assert (fit_loop s pages mx t (sp_start sp + sp_pages sp) order = Some (s', addr) →
      ∃ k, 0 ≤ k ∧ k + pages ≤ tail_pages s ∧ tail_busy s k pages = false ∧ tail_insert s k pages t = Some s' ∧
       addr = tail_base s + k * 4096 ∧ addr + pages * 4096 - 1 ≤ mx) as Next.
    { apply IH; [lia|done|..].
      - intros y Hy. destruct (Cov y Hy) as [|[->|]%elem_of_cons]; [left; lia|left; lia|by right].
      - intros y Hy. apply Sub, elem_of_cons. by right. }
    destruct (_ && _) eqn:B; [|done]. apply andb_true_iff in B as [B1%Z.ltb_lt B2%Z.leb_le].
    destruct (try_gap s pages mx t cursor) as [[s1 a1]|] eqn:T; [|done]. intros [= -> ->].
    destruct (G _ T) as (? & ? & ?). exists cursor. split_and!; try done; [lia|].
    apply tail_busy_false. intros y Hy. destruct (Cov y Hy) as [|[->|Hin]%elem_of_cons]; [by left|right; lia|right].
    pose proof (chain_ge _ _ _ C2 Pos y Hin). lia.
Qed.

Lemma tail_fit_spec s pages mx t s' addr : pool_wf s → 0 < pages → tail_fit_below s pages mx t = Some (s', addr) →
  ∃ k, 0 ≤ k ∧ k + pages ≤ tail_pages s ∧ tail_busy s k pages = false ∧ tail_insert s k pages t = Some s' ∧
       addr = tail_base s + k * 4096 ∧ addr + pages * 4096 - 1 ≤ mx.
Proof.
  intros W Hp. unfold tail_fit_below. destruct (_ || _); [done|].
  destruct (span_order_spec s W) as [C I]. apply fit_loop_spec; [done..| |].
  - intros sp Hs. right. by apply I.
  - intros sp Hs. by apply I.
Qed.

(** ** Reading pages *)

Lemma base_aligned s r : pool_wf s → 0 < pages_in s r → base_of s r mod 4096 = 0.
Proof. intros W H. destruct r; [done|done|]. cbn in *. by apply (pw_base s W); lia. Qed.

Lemma tail_aligned s : pool_wf s → 0 < tail_pages s → tail_base s mod 4096 = 0 ∧ POOL_END ≤ high_base s.
Proof.
  intros W H. unfold tail_base. pose proof (pw_none s W). pose proof (pw_base s W) as B.
  destruct B as [B1 B2]; [lia|]. split; [|done]. dlia.
Qed.

Lemma region_end s r i : pool_wf s → 0 ≤ i < pages_in s r → 0 ≤ base_of s r + i * 4096 < 2 ^ 52.
Proof.
  intros W H. pose proof (pw_end s W). pose proof (pw_tail s W). pose proof (pw_base s W) as B.
  change (2 ^ 52) with 4503599627370496 in *. destruct r; cbn in *; fw_consts; [dlia..|].
  destruct B; lia.
Qed.

Lemma page_state_region s r i : pool_wf s → 0 ≤ i < pages_in s r →
  page_state s (base_of s r + i * 4096) = Some (cell s r i).
Proof. intros W H. unfold page_state. by rewrite (proj2 (page_of_spec s _ r i W)). Qed.

Lemma page_of_tail s k : pool_wf s → 0 ≤ k < tail_pages s → page_of s (tail_base s + k * 4096) = None.
Proof.
  intros W H. destruct (page_of s _) as [[r i]|] eqn:E; [|done]. apply page_of_spec in E as [Hi E]; [|done].
  destruct (tail_aligned s W) as [_ B]; [lia|]. unfold tail_base in E. pose proof (pw_high s W).
  destruct r; cbn in *; fw_consts; dlia.
Qed.

Lemma tail_addr s k : pool_wf s → 0 ≤ k < tail_pages s → 0 ≤ tail_base s + k * 4096 < 2 ^ 52.
Proof.
  intros W H. pose proof (pw_end s W). pose proof (pw_high s W). unfold tail_base.
  destruct (tail_aligned s W) as [_ B]; [lia|]. fw_consts. lia.
Qed.

Lemma u64_52 a : 0 ≤ a < 2 ^ 52 → u64 a.
Proof. intros H. change (2 ^ 52) with 4503599627370496 in H. mlia. Qed.

Lemma page_state_tail s k : pool_wf s → 0 ≤ k < tail_pages s →
  page_state s (tail_base s + k * 4096) = Some (tcell s k).
Proof.
  intros W H. unfold page_state. rewrite page_of_tail by done.
  rewrite (proj2 (tail_index_spec s _ 1 k W ltac:(by apply u64_52, tail_addr) ltac:(lia) ltac:(mlia))); [done|].
  split_and!; [lia..|done].
Qed.

(** Every managed page is one of these. *)
Lemma page_state_cases s a : pool_wf s → u64 a →
  (page_state s a = None ∧ page_of s a = None ∧ tail_index s a 1 = None) ∨
  (∃ r i, 0 ≤ i < pages_in s r ∧ a = base_of s r + i * 4096) ∨
  (∃ k, 0 ≤ k < tail_pages s ∧ a = tail_base s + k * 4096).
Proof.
  intros W Ha. unfold page_state. destruct (page_of s a) as [[r i]|] eqn:E.
  - right. left. exists r, i. by apply page_of_spec.
  - destruct (tail_index s a 1) as [k|] eqn:Ek; [|by left]. right. right. exists k.
    apply tail_index_spec in Ek; [|done|done|lia|mlia]. split; [lia|apply Ek].
Qed.

(** ** Updates of a range of pages *)

Definition in_range (addr n a : Z) : Prop := a mod 4096 = 0 ∧ addr ≤ a < addr + n * 4096.

#[local] Instance in_range_dec addr n a : Decision (in_range addr n a).
Proof. unfold in_range. apply _. Defined.

(** The pages of the range hold [v], every other page what it held. *)
Definition updated (s s' : PagePool) (addr n : Z) (v : option Z) : Prop :=
  ∀ a, u64 a → page_state s' a = if bool_decide (in_range addr n a) then Some v else page_state s a.

Definition all_hold (s : PagePool) (addr n : Z) (P : option Z → Prop) : Prop :=
  ∀ a, in_range addr n a → ∃ c, page_state s a = Some c ∧ P c.

Definition same_layout (s s' : PagePool) : Prop :=
  high_base s' = high_base s ∧ high_pages s' = high_pages s ∧ tail_pages s' = tail_pages s.

Lemma layout_facts s s' : same_layout s s' →
  (∀ a, page_of s' a = page_of s a) ∧ (∀ a n, tail_index s' a n = tail_index s a n) ∧
  (∀ r, pages_in s' r = pages_in s r) ∧ (∀ r, base_of s' r = base_of s r) ∧ tail_base s' = tail_base s.
Proof.
  intros (B & H & T). split_and!.
  - intros a. unfold page_of. by rewrite B, H.
  - intros a n. unfold tail_index, tail_base. by rewrite B, H, T.
  - intros []; cbn; done.
  - intros []; cbn; done.
  - unfold tail_base. by rewrite B, H.
Qed.

Lemma updated_intro s s' addr n v : pool_wf s → pool_wf s' → same_layout s s' →
  (∀ r i, 0 ≤ i < pages_in s r →
     cell s' r i = if bool_decide (in_range addr n (base_of s r + i * 4096)) then v else cell s r i) →
  (∀ k, 0 ≤ k < tail_pages s →
     tcell s' k = if bool_decide (in_range addr n (tail_base s + k * 4096)) then v else tcell s k) →
  all_hold s addr n (λ _, True) → updated s s' addr n v.
Proof.
  intros W W' L HR HT HM a Ha. destruct (layout_facts _ _ L) as (F1 & F2 & F3 & F4 & F5).
  destruct L as (_ & _ & L3).
  destruct (page_state_cases s a W Ha) as [(E & E1 & E2)|[(r & i & Hi & ->)|(k & Hk & ->)]].
  - rewrite bool_decide_eq_false_2.
    + unfold page_state. by rewrite F1, F2, E1, E2.
    + intros H. destruct (HM a H) as (c & Hc & _). congruence.
  - rewrite page_state_region by done. rewrite <-F4, page_state_region, F4 by (by rewrite ?F3). rewrite HR by done.
    by destruct (bool_decide _).
  - rewrite page_state_tail by done. rewrite <-F5, page_state_tail, F5 by (by rewrite ?L3). rewrite HT by done.
    by destruct (bool_decide _).
Qed.

(** A range inside a region covers the region's run and nothing else. *)
Lemma range_region s r first n : pool_wf s → 0 ≤ first → 0 < n → first + n ≤ pages_in s r →
  (∀ r' i, 0 ≤ i < pages_in s r' →
     in_range (base_of s r + first * 4096) n (base_of s r' + i * 4096) ↔ r' = r ∧ first ≤ i < first + n) ∧
  (∀ k, 0 ≤ k < tail_pages s → ¬ in_range (base_of s r + first * 4096) n (tail_base s + k * 4096)) ∧
  (∀ a, in_range (base_of s r + first * 4096) n a → ∃ i, first ≤ i < first + n ∧ a = base_of s r + i * 4096).
Proof.
  intros W Hf Hn Hle. pose proof (base_aligned s r W ltac:(lia)) as Al.
  assert (∀ a, in_range (base_of s r + first * 4096) n a → ∃ i, first ≤ i < first + n ∧ a = base_of s r + i * 4096) as E.
  { intros a [A R]. exists ((a - base_of s r) / 4096). dlia. }
  split_and!; [| |exact E].
  - intros r' i Hi. split.
    + intros (j & Hj & Ea)%E.
      assert (page_of s (base_of s r' + i * 4096) = Some (r', i)) as P1 by by apply page_of_spec.
      assert (page_of s (base_of s r' + i * 4096) = Some (r, j)) as P2 by (apply page_of_spec; [done|split; [lia|done]]).
      rewrite P1 in P2. injection P2 as -> ->. split; [done|lia].
    + intros [-> H]. split; [dlia|lia].
  - intros k Hk (j & Hj & Ea)%E. pose proof (page_of_tail s k W Hk) as P. rewrite Ea in P.
    rewrite (proj2 (page_of_spec s _ r j W)) in P; [done|split; [lia|done]].
Qed.

Lemma range_tail s k n : pool_wf s → 0 ≤ k → 0 < n → k + n ≤ tail_pages s →
  (∀ r i, 0 ≤ i < pages_in s r → ¬ in_range (tail_base s + k * 4096) n (base_of s r + i * 4096)) ∧
  (∀ j, in_range (tail_base s + k * 4096) n (tail_base s + j * 4096) ↔ k ≤ j < k + n) ∧
  (∀ a, in_range (tail_base s + k * 4096) n a → ∃ j, k ≤ j < k + n ∧ a = tail_base s + j * 4096).
Proof.
  intros W Hk Hn Hle. destruct (tail_aligned s W) as [Al _]; [lia|].
  assert (∀ a, in_range (tail_base s + k * 4096) n a → ∃ j, k ≤ j < k + n ∧ a = tail_base s + j * 4096) as E.
  { intros a [A R]. exists ((a - tail_base s) / 4096). dlia. }
  split_and!; [| |exact E].
  - intros r i Hi (j & Hj & Ea)%E. pose proof (page_of_tail s j W ltac:(lia)) as P. rewrite <-Ea in P.
    rewrite (proj2 (page_of_spec s _ r i W)) in P; [done|split; [lia|done]].
  - intros j. split; [intros (j' & Hj & Ea)%E; lia|]. intros H. split; [dlia|lia].
Qed.

Lemma cell_mark s r first n t r' j : 0 ≤ first → ok_type t → 0 ≤ j →
  cell (mark s r first n t) r' j = if bool_decide (r' = r ∧ first ≤ j < first + n) then Some t else cell s r' j.
Proof.
  intros Hf [Ht _] Hj. unfold EFI_MAX_MEMORY_TYPE in Ht.
  destruct (mark_spec s r first n t Hf ltac:(lia)) as (_ & U & T). unfold cell. rewrite U, T by done.
  by destruct (bool_decide _).
Qed.

Lemma mark_pool_wf s r first n t : pool_wf s → 0 ≤ first → ok_type t → pool_wf (mark s r first n t).
Proof.
  intros W Hf Ht. pose proof Ht as [Ht' _]. unfold EFI_MAX_MEMORY_TYPE in Ht'.
  destruct (mark_spec s r first n t Hf ltac:(lia)) as ((B & H & T & S & _) & U & Ty).
  destruct W. split; try (by rewrite ?B, ?H, ?T, ?S); [unfold uspans; by rewrite T, S|].
  intros r' i. replace (pages_in (mark s r first n t) r') with (pages_in s r') by (destruct r'; cbn; congruence).
  intros Hi. rewrite U, Ty by lia. destruct (bool_decide _); [done|]. by apply pw_types0.
Qed.

Lemma count_wf s : pool_wf s → pool_wf (count_alloc s).
Proof. intros []. by split. Qed.

(** *** Allocation in a region *)
Lemma mark_updates s r first n t : pool_wf s → 0 ≤ first → 0 < n → first + n ≤ pages_in s r → ok_type t →
  any_used s r first n = false →
  all_hold s (base_of s r + first * 4096) n (λ c, c = None) ∧
  updated s (mark s r first n t) (base_of s r + first * 4096) n (Some t).
Proof.
  intros W Hf Hn Hle Ht F. destruct (range_region s r first n W Hf Hn Hle) as (R1 & R2 & R3).
  assert (all_hold s (base_of s r + first * 4096) n (λ c, c = None)) as AH.
  { intros a (i & Hi & ->)%R3. exists None. split; [|done]. rewrite page_state_region by (done || lia).
    f_equal. unfold cell. destruct (is_used s r i) eqn:E; [|done]. unfold any_used in F.
    assert (existsb (is_used s r) (seqZ first n) = true) as X; [|congruence].
    apply existsb_exists. exists i. split; [|done]. apply list_elem_of_In, elem_of_seqZ. lia. }
  split; [done|].
  pose proof Ht as [Ht' _]. unfold EFI_MAX_MEMORY_TYPE in Ht'.
  destruct (mark_spec s r first n t Hf ltac:(lia)) as ((B & H & T & S & _) & _).
  apply updated_intro; [done|by apply mark_pool_wf|done|..].
  - intros r' i Hi. rewrite cell_mark by (done || lia).
    by rewrite (bool_decide_ext _ _ (R1 r' i Hi)).
  - intros k Hk. rewrite bool_decide_eq_false_2 by (by apply R2). unfold tcell. by rewrite S.
  - intros a Ha. destruct (AH a Ha) as (c & Hc & _). by exists c.
Qed.

(** *** Allocation in the tail *)

Lemma tail_insert_updates s k n t s' : pool_wf s → tail_insert s k n t = Some s' → 0 ≤ k → 0 < n →
  k + n ≤ tail_pages s → ok_type t → tail_busy s k n = false →
  pool_wf s' ∧ same_layout s s' ∧ words s' = words s ∧ types s' = types s ∧
  (∀ j, tcell s' j = if bool_decide (k ≤ j < k + n) then Some t else tcell s j) ∧
  (∀ j, k ≤ j < k + n → tcell s j = None).
Proof.
  intros W H Hk Hn Hle Ht B. destruct (tail_insert_spec _ _ _ _ _ W H Hk Hn Hle Ht B) as (Ew & Et & L1 & L2 & L3 & L4 & P & O).
  assert (∀ j, k ≤ j < k + n → tcell s j = None) as F.
  { intros j Hj. destruct (tcell s j) as [t'|] eqn:E; [|done]. apply tcell_Some in E as (sp & Hs & R & _); [|apply W].
    destruct (proj1 (tail_busy_false s k n) B sp Hs); lia. }
  split_and!; [|done..| |exact F].
  - destruct W. split; rewrite ?L1, ?L2, ?L3, ?L4; try done.
    intros r i. replace (pages_in s' r) with (pages_in s r) by (destruct r; cbn; congruence).
    unfold is_used, typ_of. rewrite Ew, Et. apply pw_types0.
  - intros j. rewrite <-L3 in O. apply option_eq. intros x. rewrite (tcell_Some s' j x O).
    destruct (decide (k ≤ j < k + n)) as [D|D].
    + rewrite bool_decide_eq_true_2 by done. split.
      * intros (sp & Hs & R & <-). rewrite P in Hs. apply elem_of_cons in Hs as [->|Hs]; [done|].
        destruct (proj1 (tail_busy_false s k n) B sp Hs); lia.
      * intros [= <-]. exists (mkSpan k n t true). rewrite P. split_and!; [apply list_elem_of_here|cbn; lia..|done].
    + rewrite bool_decide_eq_false_2 by done. rewrite (tcell_Some s j x (pw_spans s W)). split.
      * intros (sp & Hs & R & <-). rewrite P in Hs. apply elem_of_cons in Hs as [->|Hs]; [cbn in R; lia|]. by exists sp.
      * intros (sp & Hs & R & <-). exists sp. rewrite P. split_and!; [by apply elem_of_cons; right|lia..|done].
Qed.

(** What a successful allocation grants. *)
Definition granted (s s' : PagePool) (addr n t : Z) : Prop :=
  pool_wf s' ∧ addr mod 4096 = 0 ∧ all_hold s addr n (λ c, c = None) ∧ updated s s' addr n (Some t).

Lemma granted_count s s' addr n t : granted s s' addr n t → granted s (count_alloc s') addr n t.
Proof. intros (W & A & F & U). split_and!; [by apply count_wf|done..]. Qed.

Lemma grant_tail s k n t s' : pool_wf s → tail_insert s k n t = Some s' → 0 ≤ k → 0 < n →
  k + n ≤ tail_pages s → ok_type t → tail_busy s k n = false → granted s s' (tail_base s + k * 4096) n t.
Proof.
  intros W H Hk Hn Hle Ht B.
  destruct (tail_insert_updates _ _ _ _ _ W H Hk Hn Hle Ht B) as (W' & L & Ew & Et & T & F).
  destruct (range_tail s k n W Hk Hn Hle) as (R1 & R2 & R3). destruct (tail_aligned s W) as [Al _]; [lia|].
  assert (all_hold s (tail_base s + k * 4096) n (λ c, c = None)) as AH.
  { intros a (j & Hj & ->)%R3. exists None. split; [|done]. rewrite page_state_tail by (done || lia). by rewrite F. }
  split_and!; [done|dlia|done|]. apply updated_intro; [done..| | |].
  - intros r i Hi. rewrite bool_decide_eq_false_2 by (by apply R1). unfold cell, is_used, typ_of. by rewrite Ew, Et.
  - intros j Hj. rewrite T. by rewrite (bool_decide_ext _ _ (R2 j)).
  - intros a Ha. destruct (AH a Ha) as (c & Hc & _). by exists c.
Qed.

Lemma grant_region s r first n t : pool_wf s → 0 ≤ first → 0 < n → first + n ≤ pages_in s r → ok_type t →
  any_used s r first n = false → granted s (mark s r first n t) (base_of s r + first * 4096) n t.
Proof.
  intros W Hf Hn Hle Ht F. destruct (mark_updates s r first n t W Hf Hn Hle Ht F).
  pose proof (base_aligned s r W ltac:(lia)). split_and!; [by apply mark_pool_wf|dlia|done..].
Qed.

(** Two adjacent updates make one. *)
Lemma updated_trans s s1 s2 a1 n1 a2 n2 v : 0 ≤ n1 → 0 ≤ n2 → a2 = a1 + n1 * 4096 → a1 mod 4096 = 0 →
  updated s s1 a2 n2 v → updated s1 s2 a1 n1 v → updated s s2 a1 (n1 + n2) v.
Proof.
  intros H1 H2 -> Al U1 U2 a Ha. rewrite U2, U1 by done.
  destruct (decide (in_range a1 n1 a)) as [D1|D1]; [rewrite bool_decide_eq_true_2 by done|rewrite bool_decide_eq_false_2 by done];
    [|destruct (decide (in_range (a1 + n1 * 4096) n2 a)) as [D2|D2];
      [rewrite bool_decide_eq_true_2 by done|rewrite bool_decide_eq_false_2 by done]];
    unfold in_range in *; [rewrite bool_decide_eq_true_2 by lia|rewrite bool_decide_eq_true_2 by lia|
                           rewrite bool_decide_eq_false_2 by lia]; done.
Qed.

(** *** Across the end of the bitmap *)
Lemma grant_across s page n t s' addr : pool_wf s → 0 ≤ page < high_pages s → ok_type t →
  high_pages s < page + n →
  addr = high_base s + page * 4096 →
  allocate_across_tail s page n t addr = (s', (EFI_SUCCESS, addr)) → granted s s' addr n t.
Proof.
  intros W Hp Ht Hn Ea H. unfold allocate_across_tail in H. rewrite (proj2 (Z.leb_gt _ _)) in H by lia. cbv zeta in H.
  set (nb := high_pages s - page) in *. rewrite (proj2 (Z.leb_gt n nb)) in H by lia.
  set (nt := n - nb) in *. destruct (Z.ltb_spec (tail_pages s) nt); [done|].
  destruct (_ || _) eqn:B; [done|]. apply orb_false_iff in B as [B1 B2].
  destruct (tail_insert s 0 nt t) as [s1|] eqn:E; [|done]. injection H as <-.
  assert (0 < nt ∧ 0 < nb) as [Pt Pb] by lia.
  destruct (grant_tail s 0 nt t s1 W E ltac:(lia) Pt ltac:(lia) Ht B2) as (W1 & A1 & F1 & U1).
  destruct (tail_insert_updates _ _ _ _ _ W E ltac:(lia) Pt ltac:(lia) Ht B2) as (_ & (L1 & L2 & L3) & Ew & _).
  assert (any_used s1 High page nb = false) as B1'.
  { unfold any_used, is_used in *. by rewrite Ew. }
  assert (pages_in s1 High = high_pages s) as P1 by done.
  destruct (grant_region s1 High page nb t W1 ltac:(lia) Pb ltac:(rewrite P1; lia) Ht B1') as (W2 & A2 & F2 & U2).
  change (base_of s1 High) with (high_base s1) in *. rewrite L1, <-Ea in *.
  assert (tail_base s + 0 * 4096 = addr + nb * 4096) as Eb by (unfold tail_base; lia). rewrite Eb in *.
  apply granted_count. split_and!; [done|done| |].
  - intros a [Aa Ra]. destruct (decide (a < addr + nb * 4096)).
    + destruct (F2 a) as (c & Hc & ->); [split; [done|lia]|]. exists None. split; [|done].
      assert (u64 a) as Ua.
      { apply u64_52. destruct (range_region s High page nb W ltac:(lia) Pb ltac:(cbn; lia)) as (_ & _ & R3).
        destruct (R3 a) as (i & Hi & ->); [split; [done|cbn; lia]|]. apply region_end; [done|cbn; lia]. }
      rewrite U1 in Hc by done. rewrite bool_decide_eq_false_2 in Hc; [done|]. unfold in_range. lia.
    + apply F1. split; [done|lia].
  - replace n with (nb + nt) by lia. by apply (updated_trans _ s1 _ _ _ (addr + nb * 4096)); [lia|lia|..].
Qed.

(** *** The search for a run *)

Definition free_run (s : PagePool) (r : Region) (p n : Z) : Prop := ∀ j, p ≤ j < p + n → is_used s r j = false.

Lemma free_run_any s r p n : free_run s r p n ↔ any_used s r p n = false.
Proof.
  unfold any_used. rewrite <-not_true_iff_false, existsb_exists. split.
  - intros F (j & Hj%list_elem_of_In%elem_of_seqZ & U). rewrite F in U by lia. done.
  - intros N j Hj. destruct (is_used s r j) eqn:E; [|done]. destruct N. exists j.
    split; [|done]. apply list_elem_of_In, elem_of_seqZ. lia.
Qed.

(** The loop at index [i], with the last [run] pages free. *)
Lemma find_run_loop_spec s r n : 0 < n → ∀ m i run, 0 ≤ run < n → run ≤ i → free_run s r (i - run) run →
  match find_run_loop s r n run (seqZ i (Z.of_nat m)) with
  | Some p => i - run ≤ p ∧ p + n ≤ i + Z.of_nat m ∧ free_run s r p n
  | None => ∀ p, i - run ≤ p → p + n ≤ i + Z.of_nat m → ¬ free_run s r p n
  end.
Proof.
  intros Hn m. induction m as [|m IH]; intros i run Hr Hi F; [rewrite seqZ_nil by lia; cbn [find_run_loop]; intros p H1 H2 _; lia|].
  rewrite seqZ_S. cbn [find_run_loop]. destruct (is_used s r i) eqn:U.
  - specialize (IH (i + 1) 0 ltac:(lia) ltac:(lia)). rewrite Z.sub_0_r in IH.
    destruct (find_run_loop s r n 0 _) as [p|].
    + destruct IH as (A & B & C); [intros j Hj; lia|]. split_and!; [lia..|done].
    + intros p Hp Hle Fp. destruct (decide (i + 1 ≤ p)).
      * apply (IH ltac:(intros j Hj; lia) p); [lia|lia|done].
      * rewrite Fp in U by lia. done.
  - assert (free_run s r (i - run) (run + 1)) as F'.
    { intros j Hj. destruct (decide (j = i)) as [->|]; [done|]. apply F. lia. }
    destruct (Z.eqb_spec (run + 1) n) as [En|Nn].
    + split_and!; [lia..|]. intros j Hj. apply F'. lia.
    + specialize (IH (i + 1) (run + 1) ltac:(lia) ltac:(lia)).
      replace (i + 1 - (run + 1)) with (i - run) in IH by lia. specialize (IH F').
      destruct (find_run_loop s r n (run + 1) _) as [p|].
      * destruct IH as (A & B & C). split_and!; [lia..|done].
      * intros p Hp Hle. apply IH; lia.
Qed.

Lemma find_run_spec s r n mx : 0 < n → 0 ≤ pages_in s r →
  match find_run s r n mx with
  | Some p => 0 ≤ p ∧ p + n ≤ pages_in s r ∧ p + n ≤ mx ∧ free_run s r p n
  | None => ∀ p, 0 ≤ p → p + n ≤ pages_in s r → p + n ≤ mx → ¬ free_run s r p n
  end.
Proof.
  intros Hn Hp. unfold find_run. destruct (decide (0 ≤ Z.min mx (pages_in s r))) as [H|H].
  - pose proof (find_run_loop_spec s r n Hn (Z.to_nat (Z.min mx (pages_in s r))) 0 0 ltac:(lia) ltac:(lia)) as L.
    rewrite Z2Nat.id in L by lia. specialize (L ltac:(intros j Hj; lia)).
    destruct (find_run_loop _ _ _ _ _) as [p|].
    + destruct L as (A & B & C). split_and!; [lia..|done].
    + intros p H1 H2 H3. apply L; lia.
  - rewrite seqZ_nil by lia. cbn. intros. lia.
Qed.

Lemma pages_in_nonneg s r : pool_wf s → 0 ≤ pages_in s r.
Proof. intros W. pose proof (pw_high s W). destruct r; cbn; fw_consts; [done|done|lia]. Qed.

(** A run from the bitmap searches, and the bound it respects. *)
Definition run_ok (s : PagePool) (n : Z) (bound : Z → Prop) (f : Region * Z) : Prop :=
  0 ≤ f.2 ∧ f.2 + n ≤ pages_in s f.1 ∧ free_run s f.1 f.2 n ∧ bound (base_of s f.1 + f.2 * 4096).

Lemma search_max_ok s r n memory f : pool_wf s → 0 < n → search_max s r n memory = Some f →
  run_ok s n (λ a, a + n * 4096 - 1 ≤ memory) f.
Proof.
  intros W Hn. unfold search_max, end_page_for_max. cbv zeta. destruct (Z.ltb_spec memory (base_of s r)); [done|].
  pose proof (find_run_spec s r n ((sat_add64 memory 1 - base_of s r) / 4096) Hn (pages_in_nonneg s r W)) as F.
  destruct (find_run _ _ _ _) as [p|]; [|done]. intros [= <-]. destruct F as (A & B & C & D).
  split_and!; [done..|]. cbn [fst snd].
  assert (sat_add64 memory 1 ≤ memory + 1) as Sat by (unfold sat_add64; apply Z.le_min_l).
  pose proof (Z.mul_div_le (sat_add64 memory 1 - base_of s r) 4096 ltac:(lia)). lia.
Qed.

Definition bound_of (alloc_type memory n a : Z) : Prop :=
  (alloc_type = ALLOCATE_ADDRESS → a = memory) ∧
  (alloc_type = ALLOCATE_MAX_ADDRESS → a + n * 4096 - 1 ≤ memory) ∧
  (alloc_type = ALLOCATE_ANY_PAGES → POOL_BASE ≤ a).

Lemma high_base_bound s : pool_wf s → 0 < high_pages s → POOL_BASE ≤ high_base s.
Proof. intros W H. destruct (pw_base s W); [lia|]. fw_consts. lia. Qed.

Lemma Found_inj a b : Found a = Found b → a = b.
Proof. congruence. Qed.

Lemma search_found_ok s at_ mt n memory f : pool_wf s → 0 < n →
  search_pages s at_ mt n memory = Found (Some f) → run_ok s n (bound_of at_ memory n) f.
Proof.
  intros W Hn H. unfold search_pages in H. destruct (Z.eqb_spec at_ ALLOCATE_ANY_PAGES) as [->|N0].
  { apply Found_inj in H. apply find_map_Some in H as (i & r & Hr & H & _).
    pose proof (find_run_spec s r n (pages_in s r) Hn (pages_in_nonneg s r W)) as F.
    destruct (find_run _ _ _ _) as [p|]; [|done]. injection H as <-. destruct F as (A & B & C & D).
    split_and!; [done..|]. split_and!; [done|done|]. intros _. cbn [fst snd].
    destruct i as [|[|i]]; [| |by destruct i]; injection Hr as <-; cbn in *; [fw_consts; lia|].
    pose proof (high_base_bound s W ltac:(lia)). lia. }
  destruct (Z.eqb_spec at_ ALLOCATE_MAX_ADDRESS) as [->|N1].
  { apply Found_inj in H.
    assert (∃ r, search_max s r n memory = Some f) as [r E].
    { destruct (memory <? 0x100000); [by exists Below1m|]. apply find_map_Some in H as (i & r & _ & H & _). by exists r. }
    destruct (search_max_ok _ _ _ _ _ W Hn E) as (A & B & C & D). split_and!; [done..|]. by split_and!. }
  destruct (Z.eqb_spec at_ ALLOCATE_ADDRESS) as [->|N2]; [|done].
  unfold search_address in H. destruct (page_of s memory) as [[r p]|] eqn:P.
  - apply page_of_spec in P as [P1 P2]; [|done]. destruct (Z.leb_spec (p + n) (pages_in s r)).
    + destruct (any_used s r p n) eqn:U; [done|]. apply Found_inj, Some_inj in H as <-. apply free_run_any in U.
      split_and!; cbn; [lia|lia|done|]. by split_and!.
    + by destruct r.
  - by destruct (tail_index _ _ _).
Qed.

(** *** The whole operation *)

Definition refused (s : PagePool) (memory : Z) (r : PagePool * (Z * Z)) : Prop :=
  r.2.1 ≠ EFI_SUCCESS ∧ r.1 = s ∧ r.2.2 = memory.

Definition alloc_result (s : PagePool) (at_ mt n memory : Z) (r : PagePool * (Z * Z)) : Prop :=
  refused s memory r ∨
  (r.2.1 = EFI_SUCCESS ∧ granted s r.1 r.2.2 n mt ∧ bound_of at_ memory n r.2.2).

Lemma search_address_ok s mt n memory r : pool_wf s → ok_type mt → 0 < n → u64 n → u64 memory →
  search_address s mt n memory = Return r → alloc_result s ALLOCATE_ADDRESS mt n memory r.
Proof.
  intros W Ht Hn Un Um H. unfold search_address in H.
  assert (∀ st, st ≠ EFI_SUCCESS → refused s memory (s, (st, memory))) as Rf by done.
  assert (bound_of ALLOCATE_ADDRESS memory n memory) as Bm by done.
  destruct (page_of s memory) as [[r0 p]|] eqn:P.
  - apply page_of_spec in P as [P1 P2]; [|done]. destruct (Z.leb_spec (p + n) (pages_in s r0)).
    + destruct (any_used s r0 p n); [|done]. injection H as <-. left. by apply Rf.
    + destruct r0; [injection H as <-; left; by apply Rf..|]. injection H as <-. cbn [pages_in base_of] in *.
      assert (∃ s' st, allocate_across_tail s p n mt memory = (s', (st, memory)) ∧ (st ≠ EFI_SUCCESS → s' = s)) as (s' & st & E & Es).
      { unfold allocate_across_tail. cbv zeta. repeat case_match; eauto. by eexists _, _. }
      destruct (decide (st = EFI_SUCCESS)) as [->|N].
      * right. rewrite E. split_and!; [done|..|done]. cbn [fst snd]. by apply (grant_across s p); [..|lia| |].
      * left. rewrite E. rewrite (Es N). by apply Rf.
  - destruct (tail_index s memory n) as [k|] eqn:K; [|injection H as <-; left; by apply Rf].
    injection H as <-. unfold allocate_tail_at. rewrite K.
    apply tail_index_spec in K as (K1 & K2 & K3); [|done..].
    destruct (tail_busy s k n) eqn:B; [left; by apply Rf|].
    destruct (tail_insert s k n mt) as [s'|] eqn:E; [|left; by apply Rf].
    right. split_and!; [done|..|done]. cbn [fst snd]. apply granted_count. rewrite K3. by apply grant_tail.
Qed.

Lemma allocate_result s at_ mt n memory : pool_wf s → u64 n → u64 memory → 0 ≤ mt →
  alloc_result s at_ mt n memory (allocate_pages s at_ mt n memory) ∧
  ((allocate_pages s at_ mt n memory).2.1 = EFI_SUCCESS → 0 < n ∧ ok_type mt).
Proof.
  intros W Un Um Hm. unfold allocate_pages.
  assert (∀ st, st ≠ EFI_SUCCESS → refused s memory (s, (st, memory))) as Rf by done.
  destruct ((n =? 0) || _) eqn:E1; [split; [left; by apply Rf|done]|].
  destruct (_ || _ || _) eqn:E2; [split; [left; by apply Rf|done]|].
  apply orb_false_iff in E1 as [N0%Z.eqb_neq _]. rewrite !orb_false_iff in E2.
  destruct E2 as [[T1%Z.leb_gt T2%Z.eqb_neq] T3%Z.eqb_neq].
  assert (0 < n) as Hn by (unfold u64 in Un; lia).
  assert (ok_type mt) as Ht.
  { unfold EFI_RESERVED_MEMORY_TYPE in T3. split; [lia|done]. }
  enough (alloc_result s at_ mt n memory
    (match search_pages s at_ mt n memory with
     | Return r => r
     | Found None =>
        match (if at_ =? ALLOCATE_ANY_PAGES then tail_first_fit s n mt
               else if at_ =? ALLOCATE_MAX_ADDRESS then tail_fit_below s n memory mt else None) with
        | Some (s, addr) => (count_alloc s, (EFI_SUCCESS, addr))
        | None => (s, (if at_ =? ALLOCATE_MAX_ADDRESS then EFI_NOT_FOUND else EFI_OUT_OF_RESOURCES, memory))
        end
     | Found (Some (r, first)) =>
        (count_alloc (mark s r first n mt), (EFI_SUCCESS, base_of s r + first * 4096))
     end)) as G by (split; [exact G|done]).
  destruct (search_pages s at_ mt n memory) as [r|[[r first]|]] eqn:S.
  - unfold search_pages in S. destruct (at_ =? ALLOCATE_ANY_PAGES); [done|].
    destruct (at_ =? ALLOCATE_MAX_ADDRESS); [done|].
    destruct (Z.eqb_spec at_ ALLOCATE_ADDRESS) as [->|]; [by apply search_address_ok|].
    injection S as <-. left. by apply Rf.
  - destruct (search_found_ok _ _ _ _ _ _ W Hn S) as (A & B & C & D). cbn [fst snd] in *.
    right. split_and!; [done| |exact D]. cbn [fst snd]. apply granted_count, grant_region; try done.
    by apply free_run_any.
  - destruct (if at_ =? _ then _ else _) as [[s' addr]|] eqn:F; [|left; apply Rf; by destruct (at_ =? ALLOCATE_MAX_ADDRESS)].
    assert (∃ mx, tail_fit_below s n mx mt = Some (s', addr) ∧ at_ ≠ ALLOCATE_ADDRESS ∧
                  (at_ = ALLOCATE_MAX_ADDRESS → mx = memory)) as (mx & E & Na & Em).
    { destruct (Z.eqb_spec at_ ALLOCATE_ANY_PAGES) as [->|]; [by exists U64_MAX|].
      destruct (Z.eqb_spec at_ ALLOCATE_MAX_ADDRESS) as [->|]; [by exists memory|done]. }
    destruct (tail_fit_spec _ _ _ _ _ _ W Hn E) as (k & K0 & K1 & K2 & K3 & -> & K5).
    right. split_and!; [done|..]; cbn [fst snd].
    + apply granted_count. by apply grant_tail.
    + split_and!; [done|intros M; rewrite <-(Em M); done|]. intros _. unfold tail_base.
      pose proof (pw_none s W). pose proof (pw_high s W). pose proof (high_base_bound s W ltac:(lia)). lia.
Qed.

(** *** No request is refused that could be met *)

Definition slot_free (s : PagePool) : Prop := ∃ sp, sp ∈ tail_spans s ∧ sp_used sp = false.

Lemma tail_insert_some s k n t : slot_free s → 0 ≤ k ≤ 4294967295 → 0 < n ≤ 4294967295 →
  ∃ s', tail_insert s k n t = Some s'.
Proof.
  intros (sp & Hs & U) Hk Hn. unfold tail_insert.
  replace ((4294967295 <? k) || (4294967295 <? n) || (n =? 0)) with false by lia.
  destruct (find_index _ _) as [i|] eqn:E; [by eexists|].
  rewrite find_index_None in E. specialize (E _ Hs). by rewrite U in E.
Qed.


Lemma try_gap_some s n mx t c : slot_free s → tail_pages s < 2 ^ 32 → 0 < n → 0 ≤ c → c + n ≤ tail_pages s →
  tail_base s + (c + n) * 4096 - 1 ≤ mx → try_gap s n mx t c ≠ None.
Proof.
  intros Hf Hl Hn Hc Hle Hm. change (2 ^ 32) with 4294967296 in Hl. unfold try_gap. cbv zeta.
  rewrite (proj2 (Z.ltb_ge _ _)) by lia.
  destruct (tail_insert_some s c n t Hf) as [s' ->]; [lia|lia|done].
Qed.

(** The first fit misses no gap: every run it passes over meets a span. *)
Lemma fit_loop_complete s n mx t k : slot_free s → tail_pages s < 2 ^ 32 → 0 < n → k + n ≤ tail_pages s →
  tail_base s + (k + n) * 4096 - 1 ≤ mx → ∀ order cursor, 0 ≤ cursor ≤ k →
  fit_loop s n mx t cursor order = None → chain (tail_pages s) cursor order →
  (∀ sp, sp ∈ order → 0 ≤ sp_start sp ∧ 0 < sp_pages sp) →
  ∃ sp, sp ∈ order ∧ sp_start sp < k + n ∧ k < sp_start sp + sp_pages sp.
Proof.
  intros Hf Hl Hn Hk Hm. induction order as [|sp order IH]; intros c Hc E C R; cbn [fit_loop chain] in *.
  - rewrite (proj2 (Z.leb_le _ _)) in E by lia. by apply try_gap_some in E; [..|lia|lia|lia].
  - destruct C as [C1 C2]. destruct (R sp (list_elem_of_here _ _)) as [R1 R2].
    destruct (decide (sp_start sp < k + n)) as [L|L].
    + destruct (decide (k < sp_start sp + sp_pages sp)); [exists sp; split; [apply list_elem_of_here|lia]|].
      assert (fit_loop s n mx t (sp_start sp + sp_pages sp) order = None) as E'.
      { destruct (_ && _); [|done]. by destruct (try_gap _ _ _ _ _). }
      destruct (IH (sp_start sp + sp_pages sp) ltac:(lia) E' C2) as (y & Hy & Y); [|exists y; split; [by apply list_elem_of_further|done]].
      intros y Hy. apply R. by apply list_elem_of_further.
    + rewrite (proj2 (Z.ltb_lt _ _)), (proj2 (Z.leb_le _ _)) in E by lia. cbn [andb] in E.
      destruct (try_gap s n mx t c) eqn:T; [done|]. by apply try_gap_some in T; [..|lia|lia|lia].
Qed.

Lemma tail_fit_complete s n mx t k : pool_wf s → slot_free s → tail_pages s < 2 ^ 32 → 0 < n → 0 ≤ k →
  k + n ≤ tail_pages s → tail_base s + (k + n) * 4096 - 1 ≤ mx → tail_busy s k n = false →
  tail_fit_below s n mx t ≠ None.
Proof.
  intros W Hf Hl Hn Hk Hle Hm B E. unfold tail_fit_below in E.
  rewrite (proj2 (Z.eqb_neq _ _)), (proj2 (Z.eqb_neq _ _)), (proj2 (Z.ltb_ge _ _)) in E by lia. cbn [orb] in E.
  destruct (span_order_spec s W) as [C I].
  destruct (fit_loop_complete s n mx t k Hf Hl Hn Hle Hm (span_order s) 0 ltac:(lia) E C) as (sp & Hs & L).
  - intros sp Hs%I. destruct (so_range _ _ (pw_spans s W) sp Hs). lia.
  - apply I in Hs. rewrite tail_busy_false in B. specialize (B sp Hs). lia.
Qed.

Notation all_free s addr n := (all_hold s addr n (λ c, c = None)).

Lemma all_free_region s r p n : pool_wf s → 0 ≤ p → p + n ≤ pages_in s r →
  all_free s (base_of s r + p * 4096) n → free_run s r p n.
Proof.
  intros W Hp Hle F j Hj. destruct (F (base_of s r + j * 4096)) as (c & Hc & ->).
  { pose proof (base_aligned s r W ltac:(lia)). split; [dlia|lia]. }
  rewrite page_state_region in Hc by (done || lia). injection Hc as Hc. unfold cell in Hc. by destruct (is_used s r j).
Qed.

Lemma all_free_tail s k n : pool_wf s → 0 ≤ k → 0 < n → k + n ≤ tail_pages s →
  all_free s (tail_base s + k * 4096) n → tail_busy s k n = false.
Proof.
  intros W Hk Hn Hle F. apply tail_busy_false. intros sp Hs.
  destruct (so_range _ _ (pw_spans s W) sp Hs) as (R0 & R1 & R2).
  destruct (decide (sp_start sp + sp_pages sp ≤ k)); [by left|]. destruct (decide (k + n ≤ sp_start sp)); [by right|].
  set (j := Z.max k (sp_start sp)). destruct (tail_aligned s W) as [Al _]; [lia|].
  destruct (F (tail_base s + j * 4096)) as (c & Hc & ->); [split; [dlia|lia]|].
  rewrite page_state_tail in Hc by (done || lia). injection Hc as Hc.
  rewrite (proj2 (tcell_Some s j (sp_typ sp) (pw_spans s W))) in Hc; [done|]. exists sp. split_and!; [done|lia..|done].
Qed.

(** Where a request may be placed: inside one of its bitmap regions; in the tail,
    given a free span slot; and, at a named address only, across their boundary. *)
Definition candidate (s : PagePool) (alloc_type memory n addr : Z) : Prop :=
  bound_of alloc_type memory n addr ∧
  ((∃ r p, (alloc_type = ALLOCATE_ADDRESS ∨ (r = Below1m ↔ alloc_type = ALLOCATE_MAX_ADDRESS ∧ memory < 0x100000)) ∧
           0 ≤ p ∧ p + n ≤ pages_in s r ∧ addr = base_of s r + p * 4096) ∨
   (slot_free s ∧ tail_pages s < 2 ^ 32 ∧ ∃ k, 0 ≤ k ∧ k + n ≤ tail_pages s ∧ addr = tail_base s + k * 4096) ∨
   (alloc_type = ALLOCATE_ADDRESS ∧ slot_free s ∧ tail_pages s < 2 ^ 32 ∧
    ∃ p, 0 ≤ p < high_pages s ∧ high_pages s < p + n ≤ high_pages s + tail_pages s ∧ addr = high_base s + p * 4096)).

Lemma candidate_size s at_ memory n addr : pool_wf s → candidate s at_ memory n addr → n ≤ max_run s.
Proof.
  intros W (_ & [(r & p & _ & P1 & P2 & _)|[(_ & _ & k & K)|(_ & _ & _ & p & P)]]);
    pose proof (pw_tail s W); pose proof (pw_high s W); unfold max_run; [|lia..].
  destruct r; cbn in P2; lia.
Qed.

Lemma search_max_complete s r p n memory : pool_wf s → 0 < n → 0 ≤ p → p + n ≤ pages_in s r →
  base_of s r + p * 4096 + n * 4096 - 1 ≤ memory → u64 memory → free_run s r p n → search_max s r n memory ≠ None.
Proof.
  intros W Hn Hp Hle Hm Um F. unfold search_max, end_page_for_max. cbv zeta.
  pose proof (region_end s r p W ltac:(lia)) as B1. pose proof (region_end s r (p + n - 1) W ltac:(lia)) as B2.
  change (2 ^ 52) with 4503599627370496 in *.
  rewrite (proj2 (Z.ltb_ge _ _)) by lia.
  pose proof (find_run_spec s r n ((sat_add64 memory 1 - base_of s r) / 4096) Hn (pages_in_nonneg s r W)) as S.
  destruct (find_run _ _ _ _); [done|]. destruct (S p Hp Hle); [|done].
  apply Z.div_le_lower_bound; [lia|]. unfold sat_add64. mlia.
Qed.

Lemma search_address_complete s mt n memory : pool_wf s → 0 < n → u64 n → u64 memory → ok_type mt →
  candidate s ALLOCATE_ADDRESS memory n memory → all_free s memory n →
  match search_address s mt n memory with
  | Return r => r.2.1 = EFI_SUCCESS
  | Found f => f ≠ None
  end.
Proof.
  intros W Hn Un Um Ht (_ & C) F. unfold search_address.
  destruct C as [(r & p & _ & P1 & P2 & E)|[(Hf & Hl & k & K1 & K2 & E)|(_ & Hf & Hl & p & P1 & P2 & E)]].
  - rewrite E in F. rewrite (proj2 (page_of_spec s memory r p W)) by (split; [lia|done]).
    rewrite (proj2 (Z.leb_le _ _)) by lia.
    by rewrite (proj1 (free_run_any s r p n)) by (by apply all_free_region).
  - rewrite E in *. rewrite page_of_tail by (done || lia).
    rewrite (proj2 (tail_index_spec s _ n k W Um Hn Un)) by done. unfold allocate_tail_at.
    rewrite (proj2 (tail_index_spec s _ n k W Um Hn Un)), all_free_tail by done.
    change (2 ^ 32) with 4294967296 in Hl. by destruct (tail_insert_some s k n mt Hf) as [s' ->]; [lia..|].
  - rewrite E in *. rewrite (proj2 (page_of_spec s _ High p W)) by done. cbn [pages_in].
    rewrite (proj2 (Z.leb_gt _ _)) by lia. unfold allocate_across_tail. cbv zeta.
    rewrite (proj2 (Z.leb_gt _ _)), (proj2 (Z.leb_gt _ _)), (proj2 (Z.ltb_ge _ _)) by lia.
    assert (all_free s (base_of s High + p * 4096) (high_pages s - p)) as F1 by (intros a [A R]; apply F; cbn in R; split; [done|lia]).
    assert (all_free s (tail_base s + 0 * 4096) (n - (high_pages s - p))) as F2.
    { intros a [A R]. apply F. unfold tail_base in R. split; [done|lia]. }
    apply all_free_region in F1; [|done|lia|cbn; lia]. apply all_free_tail in F2; [|done|lia..].
    rewrite (proj1 (free_run_any s High p _) F1), F2. cbn [orb]. change (2 ^ 32) with 4294967296 in Hl.
    by destruct (tail_insert_some s 0 (n - (high_pages s - p)) mt Hf) as [s' ->]; [lia..|].
Qed.

Lemma search_none_full s at_ mt n memory addr : pool_wf s → u64 n → u64 memory → ok_type mt → 0 < n →
  candidate s at_ memory n addr → all_free s addr n →
  search_pages s at_ mt n memory = Found None →
  (if at_ =? ALLOCATE_ANY_PAGES then tail_first_fit s n mt
   else if at_ =? ALLOCATE_MAX_ADDRESS then tail_fit_below s n memory mt else None) ≠ None.
Proof.
  intros W Un Um Ht Hn C F S. unfold search_pages in S.
  assert (∀ k, 0 ≤ k → k + n ≤ tail_pages s → tail_base s + (k + n) * 4096 - 1 ≤ U64_MAX) as Bt.
  { intros k K1 K2. pose proof (tail_addr s (k + n - 1) W ltac:(lia)). change (2 ^ 52) with 4503599627370496 in *. mlia. }
  destruct (Z.eqb_spec at_ ALLOCATE_ANY_PAGES) as [->|N0].
  { apply Found_inj in S. rewrite find_map_None in S.
    destruct C as (_ & [(r & p & [|R] & P1 & P2 & ->)|[(Hf & Hl & k & K1 & K2 & ->)|(N & _)]]); [done| | |done].
    - exfalso. assert (r ∈ heap_regions) as Hr.
      { destruct r; [|by repeat constructor..]. by destruct (proj1 R eq_refl). }
      specialize (S r Hr). pose proof (find_run_spec s r n (pages_in s r) Hn (pages_in_nonneg s r W)) as Sp.
      destruct (find_run _ _ _ _); [done|]. by apply (Sp p); [..|apply all_free_region].
    - unfold tail_first_fit. apply (tail_fit_complete s n _ mt k); try done; [by apply Bt|by apply all_free_tail]. }
  destruct (Z.eqb_spec at_ ALLOCATE_MAX_ADDRESS) as [->|N1].
  { apply Found_inj in S. destruct C as ((_ & B & _) & C). specialize (B eq_refl).
    destruct C as [(r & p & [|R] & P1 & P2 & ->)|[(Hf & Hl & k & K1 & K2 & ->)|(N & _)]]; [done| | |done].
    - exfalso. apply (search_max_complete s r p n memory); try done; [by apply all_free_region|].
      destruct (Z.ltb_spec memory 0x100000); [by rewrite (proj2 R)|]. rewrite find_map_None in S. apply S.
      destruct r; [|by repeat constructor..]. destruct (proj1 R eq_refl). lia.
    - apply (tail_fit_complete s n _ mt k); try done; [lia|by apply all_free_tail]. }
  exfalso. destruct (Z.eqb_spec at_ ALLOCATE_ADDRESS) as [->|]; [|done].
  assert (addr = memory) as -> by by apply C.
  pose proof (search_address_complete s mt n memory W Hn Un Um Ht C F) as A. by rewrite S in A.
Qed.

Lemma allocate_complete s at_ mt n memory addr : pool_wf s → u64 n → u64 memory → ok_type mt → 0 < n →
  at_ ∈ [ALLOCATE_ANY_PAGES; ALLOCATE_MAX_ADDRESS; ALLOCATE_ADDRESS] →
  candidate s at_ memory n addr → all_free s addr n → (allocate_pages s at_ mt n memory).2.1 = EFI_SUCCESS.
Proof.
  intros W Un Um Ht Hn Hat C F. pose proof (candidate_size _ _ _ _ _ W C) as Hr. unfold allocate_pages.
  rewrite (proj2 (Z.eqb_neq n 0)), (proj2 (Z.ltb_ge _ _)) by lia. cbn [orb].
  destruct Ht as [[T1 T2] T3]. unfold EFI_RESERVED_MEMORY_TYPE.
  rewrite (proj2 (Z.leb_gt _ _)), (proj2 (Z.eqb_neq _ _) T3), (proj2 (Z.eqb_neq mt 0)) by lia. cbn [orb].
  destruct (search_pages s at_ mt n memory) as [r|[[r p]|]] eqn:S; [|done|].
  - unfold search_pages in S. destruct (at_ =? ALLOCATE_ANY_PAGES) eqn:E0; [done|].
    destruct (at_ =? ALLOCATE_MAX_ADDRESS) eqn:E1; [done|]. rewrite !elem_of_cons, elem_of_nil in Hat.
    destruct Hat as [->|[->|[->|[]]]]; [done|done|]. cbn in S.
    assert (addr = memory) as -> by by apply C.
    pose proof (search_address_complete s mt n memory W Hn Un Um ltac:(by repeat split) C F) as A. by rewrite S in A.
  - destruct (if at_ =? _ then _ else _) as [[s' a]|] eqn:T; [done|]. exfalso.
    by apply (search_none_full s at_ mt n memory addr).
Qed.

(** C14: [AllocatePages] is exact, page by page. A success returns a page-aligned
    range whose pages were all free, now hold the requested type, and are the only
    pages that changed; it honours the request's kind: the address asked for, the
    highest address allowed, or never the window below 1 MiB. A refusal changes
    nothing, and for a request with a legal type it means that no candidate range
    is free. The pool stays well-formed. *)
Theorem allocate_exact (s : PagePool) (alloc_type mem_type pages memory : Z) :
  pool_wf s → u64 pages → u64 memory → 0 ≤ mem_type →
  let '(s', (st, addr)) := allocate_pages s alloc_type mem_type pages memory in
  pool_wf s' ∧
  (st = EFI_SUCCESS →
     0 < pages ∧ addr mod 4096 = 0 ∧ all_hold s addr pages (λ c, c = None) ∧
     updated s s' addr pages (Some mem_type) ∧ bound_of alloc_type memory pages addr) ∧
  (st ≠ EFI_SUCCESS → s' = s ∧ addr = memory) ∧
  (st ≠ EFI_SUCCESS → 0 < pages → ok_type mem_type →
     alloc_type ∈ [ALLOCATE_ANY_PAGES; ALLOCATE_MAX_ADDRESS; ALLOCATE_ADDRESS] →
     ∀ a, candidate s alloc_type memory pages a → ¬ all_free s a pages).
Proof.
  intros W Un Um Hm. destruct (allocate_result s alloc_type mem_type pages memory W Un Um Hm) as [R P].
  assert (∀ a, ok_type mem_type → 0 < pages → alloc_type ∈ [ALLOCATE_ANY_PAGES; ALLOCATE_MAX_ADDRESS; ALLOCATE_ADDRESS] →
    candidate s alloc_type memory pages a → all_free s a pages →
    (allocate_pages s alloc_type mem_type pages memory).2.1 = EFI_SUCCESS) as Cp.
  { intros a Ht Hn Hat. by apply allocate_complete. }
  destruct (allocate_pages s alloc_type mem_type pages memory) as [s' [st addr]]. cbn [fst snd] in *.
  destruct R as [(N & Es & Ea)|(E & (W' & A & F & U) & B)]; cbn [fst snd] in *.
  - subst. split_and!; [done| |done|]; [intros E; by destruct N|]. intros _ Hn Ht Hat a C A.
    by apply N, (Cp a).
  - split_and!; [done| |by intros N..]. intros _. destruct (P E) as [Hn _]. by split_and!.
Qed.

(** ** Release *)

(** What is left of a span from which an end piece, or all, is cut off. *)
Definition trimmed (sp : TailSpan) (start e : Z) (new : list TailSpan) : Prop :=
  (start = sp_start sp ∧ e = sp_start sp + sp_pages sp ∧ new = []) ∨
  (start = sp_start sp ∧ e < sp_start sp + sp_pages sp ∧
     new = [mkSpan e (sp_start sp + sp_pages sp - e) (sp_typ sp) true]) ∨
  (sp_start sp < start ∧ e = sp_start sp + sp_pages sp ∧
     new = [mkSpan (sp_start sp) (start - sp_start sp) (sp_typ sp) true]).

Lemma free_span_spec start e l : ∀ l', free_span start e l = Some l' →
  length l' = length l ∧
  ∃ sp rest new, filter (λ sp, sp_used sp = true) l ≡ₚ sp :: rest ∧
    filter (λ sp, sp_used sp = true) l' ≡ₚ new ++ rest ∧
    sp_start sp ≤ start ∧ e ≤ sp_start sp + sp_pages sp ∧ trimmed sp start e new.
Proof.
  induction l as [|x l IH]; intros l' H; [done|]. cbn [free_span] in H. cbv zeta in H.
  destruct (_ || _ || _) eqn:B.
  - apply fmap_Some in H as (l0 & H & ->). destruct (IH _ H) as (L & sp & rest & new & P1 & P2 & R1 & R2 & T).
    split; [cbn; lia|]. rewrite !filter_cons. destruct (decide (sp_used x = true)); [|by exists sp, rest, new].
    exists sp, (x :: rest), new. split_and!; [|..|done|done|done].
    + rewrite P1. apply Permutation_swap.
    + rewrite P2. apply Permutation_middle.
  - apply orb_false_iff in B as [[U%negb_false_iff R1%Z.ltb_ge]%orb_false_iff R2%Z.ltb_ge].
    destruct x as [ss sz ty us]. cbn [sp_start sp_pages sp_typ sp_used] in *. subst us.
    set (sp := mkSpan ss sz ty true).
    assert (∀ new, l' ≡ₚ new ++ l → length l' = S (length l) →
              filter (λ sp, sp_used sp = true) new = new → trimmed sp start e new →
      length l' = S (length l) ∧ ∃ sp' rest new, filter (λ sp, sp_used sp = true) (sp :: l) ≡ₚ sp' :: rest ∧
        filter (λ sp, sp_used sp = true) l' ≡ₚ new ++ rest ∧
        sp_start sp' ≤ start ∧ e ≤ sp_start sp' + sp_pages sp' ∧ trimmed sp' start e new) as Fin.
    { intros new P L F T. split; [done|]. exists sp, (filter (λ sp, sp_used sp = true) l), new.
      split_and!; [by rewrite filter_cons, decide_True|by rewrite P, filter_app, F|done..]. }
    destruct (Z.eqb_spec start ss) as [->|N1], (Z.eqb_spec e (ss + sz)) as [->|N2]; cbn [andb] in H; try done;
      injection H as <-.
    + split; [done|]. exists sp, (filter (λ sp, sp_used sp = true) l), [].
      split_and!; [by rewrite filter_cons, decide_True|by rewrite filter_cons, decide_False|done..|by left].
    + apply (Fin [mkSpan e (ss + sz - e) ty true]); [reflexivity|done|by rewrite filter_cons, decide_True|].
      right. left. split_and!; [done|cbn; lia|done].
    + apply (Fin [mkSpan ss (start - ss) ty true]); [reflexivity|done|by rewrite filter_cons, decide_True|].
      right. right. split_and!; [cbn; lia|done|done].
Qed.

Lemma trimmed_spec sp start e new : sp_start sp ≤ start → start < e → e ≤ sp_start sp + sp_pages sp →
  trimmed sp start e new →
  (∀ x, x ∈ new → sp_start sp ≤ sp_start x ∧ 0 < sp_pages x ∧ sp_start x + sp_pages x ≤ sp_start sp + sp_pages sp ∧
     sp_used x = true ∧ sp_typ x = sp_typ sp) ∧
  (∀ j, (∃ x, x ∈ new ∧ sp_start x ≤ j < sp_start x + sp_pages x) ↔
     sp_start sp ≤ j < sp_start sp + sp_pages sp ∧ ¬ (start ≤ j < e)) ∧
  (new = [] ∨ ∃ x, new = [x]).
Proof.
  intros H1 H2 H3 [(-> & -> & ->)|[(-> & L & ->)|(L & -> & ->)]]; split_and!.
  - by intros x Hx%elem_of_nil.
  - intros j. split; [by intros (x & Hx%elem_of_nil & _)|lia].
  - by left.
  - intros x ->%list_elem_of_singleton. cbn. split_and!; (lia || done).
  - intros j. split.
    + intros (x & ->%list_elem_of_singleton & R). cbn in R. lia.
    + intros R. eexists. split; [by apply list_elem_of_singleton|]. cbn. lia.
  - right. by eexists.
  - intros x ->%list_elem_of_singleton. cbn. split_and!; (lia || done).
  - intros j. split.
    + intros (x & ->%list_elem_of_singleton & R). cbn in R. lia.
    + intros R. eexists. split; [by apply list_elem_of_singleton|]. cbn. lia.
  - right. by eexists.
Qed.

Lemma spans_ok_trim tp sp rest start e new : spans_ok tp (sp :: rest) → sp_start sp ≤ start → start < e →
  e ≤ sp_start sp + sp_pages sp → trimmed sp start e new → spans_ok tp (new ++ rest).
Proof.
  intros [N A R T] H1 H2 H3 Tr. destruct (trimmed_spec _ _ _ _ H1 H2 H3 Tr) as (X & _ & C).
  destruct (R sp (list_elem_of_here _ _)) as (R0 & R1 & R2). destruct (T sp (list_elem_of_here _ _)) as [_ Ot].
  assert (spans_ok tp rest) as Or.
  { apply NoDup_cons in N as [_ N]. split; [done|..].
    - intros x y Hx Hy. apply A; apply elem_of_cons; by right.
    - intros x Hx. apply R, elem_of_cons. by right.
    - intros x Hx. apply T, elem_of_cons. by right. }
  destruct C as [->|[x ->]]; [done|]. destruct (X x) as (X1 & X2 & X3 & X4 & X5); [apply list_elem_of_here|].
  apply NoDup_cons in N as [Nsp _].
  apply spans_ok_cons; [done|lia|done|lia|done|by rewrite X5|].
  intros y Hy. destruct (A sp y) as [?|?]; [apply list_elem_of_here|by apply elem_of_cons; right|by intros ->|right; lia|left; lia].
Qed.

Lemma release_tail_cells s start n l : pool_wf s → 0 ≤ start → 0 < n →
  free_span start (start + n) (tail_spans s) = Some l →
  pool_wf (set_spans s l) ∧
  (∀ j, tcell (set_spans s l) j = if bool_decide (start ≤ j < start + n) then None else tcell s j) ∧
  (∀ j, start ≤ j < start + n → tcell s j ≠ None).
Proof.
  intros W Hs Hn F. destruct (free_span_spec _ _ _ _ F) as (L & sp & rest & new & P1 & P2 & R1 & R2 & T).
  fold (uspans s) in P1. pose proof (spans_ok_perm _ _ _ (pw_spans s W) P1) as O.
  assert (start < start + n) as Hse by lia. pose proof (spans_ok_trim _ _ _ _ _ _ O R1 Hse R2 T) as O'.
  assert (spans_ok (tail_pages s) (uspans (set_spans s l))) as O2.
  { eapply spans_ok_perm; [exact O'|]. symmetry. exact P2. }
  destruct (trimmed_spec _ _ _ _ R1 Hse R2 T) as (X & Y & _).
  assert (∀ x, x ∈ uspans s ↔ x = sp ∨ x ∈ rest) as M1 by (intros x; by rewrite P1, elem_of_cons).
  assert (∀ x, x ∈ uspans (set_spans s l) ↔ x ∈ new ∨ x ∈ rest) as M2.
  { intros x. unfold uspans. cbn [tail_spans set_spans]. by rewrite P2, elem_of_app. }
  assert (∀ x j, x ∈ rest → sp_start sp ≤ j < sp_start sp + sp_pages sp → ¬ (sp_start x ≤ j < sp_start x + sp_pages x)) as D.
  { intros x j Hx Hj. destruct O as [N A _ _]. apply NoDup_cons in N as [N _].
    destruct (A sp x); [apply list_elem_of_here|by apply elem_of_cons; right|by intros ->|lia|lia]. }
  split_and!.
  - destruct W. split; try done. by rewrite <-pw_slots0.
  - intros j. apply option_eq. intros t. rewrite (tcell_Some (set_spans s l) j t O2).
    destruct (decide (start ≤ j < start + n)) as [Hj|Hj].
    + rewrite bool_decide_eq_true_2 by done. split; [|done]. intros (x & [Hx|Hx]%M2 & Rx & _); exfalso.
      * destruct (proj1 (Y j)) as [_ NN]; [by exists x|]. done.
      * apply (D x j Hx); [lia|done].
    + rewrite bool_decide_eq_false_2 by done. rewrite (tcell_Some s j t (pw_spans s W)). split.
      * intros (x & [Hx|Hx]%M2 & Rx & <-).
        -- exists sp. split_and!; [by apply M1; left|..]; [apply (proj1 (Y j)); by exists x..|]. symmetry. by apply X.
        -- exists x. split_and!; [by apply M1; right|lia..|done].
      * intros (x & [->|Hx]%M1 & Rx & <-).
        -- destruct (proj2 (Y j)) as (x & Hx & Rx'); [split; [lia|done]|]. exists x.
           split_and!; [by apply M2; left|lia..|by apply X].
        -- exists x. split_and!; [by apply M2; right|lia..|done].
  - intros j Hj E. assert (tcell s j = Some (sp_typ sp)) as E'; [|congruence].
    apply tcell_Some; [apply W|]. exists sp. split_and!; [by apply M1; left|lia..|done].
Qed.

(** What a successful release gives back. *)
Definition released (s s' : PagePool) (addr n : Z) : Prop :=
  pool_wf s' ∧ addr mod 4096 = 0 ∧ all_hold s addr n (λ c, c ≠ None) ∧ updated s s' addr n None.

Lemma release_tail s start n l : pool_wf s → 0 ≤ start → 0 < n → start + n ≤ tail_pages s →
  free_span start (start + n) (tail_spans s) = Some l → released s (set_spans s l) (tail_base s + start * 4096) n.
Proof.
  intros W Hs Hn Hle F. destruct (release_tail_cells s start n l W Hs Hn F) as (W' & C1 & C2).
  destruct (range_tail s start n W Hs Hn Hle) as (R1 & R2 & R3). destruct (tail_aligned s W) as [Al _]; [lia|].
  assert (all_hold s (tail_base s + start * 4096) n (λ c, c ≠ None)) as AH.
  { intros a (j & Hj & ->)%R3. rewrite page_state_tail by (done || lia). eexists. split; [done|by apply C2]. }
  split_and!; [done|dlia|done|]. apply updated_intro; [done..| | |].
  - intros r i Hi. by rewrite bool_decide_eq_false_2 by (by apply R1).
  - intros j Hj. rewrite C1. by rewrite (bool_decide_ext _ _ (R2 j)).
  - intros a Ha. destruct (AH a Ha) as (c & Hc & _). by exists c.
Qed.

Lemma release_region s r first n : pool_wf s → 0 ≤ first → 0 < n → first + n ≤ pages_in s r →
  all_used s r first n = true → released s (unmark s r first n) (base_of s r + first * 4096) n.
Proof.
  intros W Hf Hn Hle F. destruct (range_region s r first n W Hf Hn Hle) as (R1 & R2 & R3).
  destruct (unmark_spec s r first n Hf) as ((B & H & T & S & _) & U & Ty).
  assert (pool_wf (unmark s r first n)) as W'.
  { destruct W. split; try (by rewrite ?B, ?H, ?T, ?S); [unfold uspans; by rewrite T, S|].
    intros r' i. replace (pages_in (unmark s r first n) r') with (pages_in s r') by (destruct r'; cbn; congruence).
    intros Hi. rewrite U by lia. destruct (decide (r' = r ∧ first ≤ i < first + n)) as [D|D].
    - by rewrite bool_decide_eq_true_2.
    - rewrite bool_decide_eq_false_2, Ty by (done || lia). by apply pw_types0. }
  assert (all_hold s (base_of s r + first * 4096) n (λ c, c ≠ None)) as AH.
  { intros a (i & Hi & ->)%R3. rewrite page_state_region by (done || lia). eexists. split; [done|].
    unfold all_used in F. rewrite forallb_forall in F. unfold cell. rewrite F; [done|].
    apply list_elem_of_In, elem_of_seqZ. lia. }
  pose proof (base_aligned s r W ltac:(lia)).
  split_and!; [done|dlia|done|]. apply updated_intro; [done..| | |].
  - intros r' i Hi. rewrite (bool_decide_ext _ _ (R1 r' i Hi)). unfold cell. rewrite U by lia.
    destruct (decide (r' = r ∧ first ≤ i < first + n)) as [D|D].
    + by rewrite !bool_decide_eq_true_2.
    + rewrite !bool_decide_eq_false_2, Ty by (done || lia). done.
  - intros k Hk. rewrite bool_decide_eq_false_2 by (by apply R2). unfold tcell. by rewrite S.
  - intros a Ha. destruct (AH a Ha) as (c & Hc & _). by exists c.
Qed.

Lemma free_tail_at_ok s memory n : pool_wf s → u64 memory → 0 ≤ n → u64 n →
  let '(s', st) := free_tail_at s memory n in
  (st = EFI_SUCCESS ∧ 0 < n ∧ released s s' memory n ∧ ∃ l, s' = set_spans s l) ∨ (st ≠ EFI_SUCCESS ∧ s' = s).
Proof.
  intros W Um Hn Un. unfold free_tail_at. destruct (tail_index s memory n) as [k|] eqn:K; [|by right].
  assert (0 < n) as Pn.
  { unfold tail_index in K. destruct (_ || _) eqn:B in K; [done|].
    apply orb_false_iff in B as [[_ B%Z.eqb_neq]%orb_false_iff _]. lia. }
  apply tail_index_spec in K as (K1 & K2 & ->); [|done..].
  destruct (free_span _ _ _) as [l|] eqn:F; [|by right]. left. split_and!; [done..|by apply release_tail|by exists l].
Qed.

Lemma release_across s page n : pool_wf s → 0 ≤ page < high_pages s → high_pages s < page + n → u64 n →
  let '(s', st) := free_across_tail s page n in
  (st = EFI_SUCCESS ∧ released s s' (high_base s + page * 4096) n) ∨ (st ≠ EFI_SUCCESS ∧ s' = s).
Proof.
  intros W Hp Hn Un. unfold free_across_tail. rewrite (proj2 (Z.leb_gt _ _)), (proj2 (Z.leb_gt n _)) by lia. cbn [orb].
  cbv zeta. set (nb := high_pages s - page). set (nt := n - nb). assert (0 < nb ∧ 0 < nt) as [Pb Pt] by lia.
  destruct (all_used s High page nb) eqn:A; cbn [negb]; [|by right].
  assert (u64 (tail_base s) ∧ u64 nt) as [Ut Unt].
  { split; [|unfold u64 in *; lia]. unfold tail_base. pose proof (pw_end s W) as He. pose proof (pw_tail s W).
    pose proof (high_base_bound s W ltac:(lia)). change (2 ^ 52) with 4503599627370496 in He. fw_consts. mlia. }
  pose proof (free_tail_at_ok s (tail_base s) nt W Ut ltac:(lia) Unt) as R.
  destruct (free_tail_at s (tail_base s) nt) as [s1 st].
  destruct R as [(-> & _ & (W1 & A1 & F1 & U1) & l & E)|(N & ->)].
  2:{ rewrite (proj2 (Z.eqb_neq _ _) N). by right. }
  cbn [negb Z.eqb EFI_SUCCESS]. left. split; [done|].
  assert (all_used s1 High page nb = true) as A' by (rewrite E; exact A).
  destruct (release_region s1 High page nb W1 ltac:(lia) Pb ltac:(rewrite E; cbn; lia) A') as (W2 & A2 & F2 & U2).
  assert (base_of s1 High + page * 4096 = high_base s + page * 4096) as Eb by (rewrite E; done). rewrite Eb in *.
  assert (tail_base s = high_base s + page * 4096 + nb * 4096) as Et by (unfold tail_base; lia). rewrite Et in *.
  split_and!; [done|done| |].
  - intros a [Aa Ra]. destruct (decide (a < high_base s + page * 4096 + nb * 4096)); [|apply F1; split; [done|lia]].
    destruct (range_region s High page nb W ltac:(lia) Pb ltac:(cbn; lia)) as (_ & _ & R3).
    destruct (R3 a) as (i & Hi & Ei); [split; [done|cbn; lia]|].
    assert (u64 a) as Ua by (rewrite Ei; apply u64_52, region_end; [done|cbn; lia]).
    destruct (F2 a) as (c & Hc & Nc); [split; [done|lia]|]. exists c. split; [|done].
    rewrite U1 in Hc by done. rewrite bool_decide_eq_false_2 in Hc; [done|]. unfold in_range. lia.
  - replace n with (nb + nt) by lia.
    by apply (updated_trans _ s1 _ _ _ (high_base s + page * 4096 + nb * 4096)); [lia|lia|..].
Qed.

(** The ranges [FreePages] takes back: allocated pages of one bitmap region, a part
    of one tail span that touches an end of the span, or a run across the boundary
    between the two. *)
Definition edge (sp : TailSpan) (start e : Z) : Prop :=
  sp_start sp ≤ start ∧ e ≤ sp_start sp + sp_pages sp ∧ (start = sp_start sp ∨ e = sp_start sp + sp_pages sp).

Definition freeable (s : PagePool) (addr n : Z) : Prop :=
  (∃ r p, 0 ≤ p ∧ p + n ≤ pages_in s r ∧ addr = base_of s r + p * 4096 ∧
          ∀ j, p ≤ j < p + n → is_used s r j = true) ∨
  (∃ sp k, sp ∈ uspans s ∧ edge sp k (k + n) ∧ addr = tail_base s + k * 4096) ∨
  (∃ sp p, 0 ≤ p < high_pages s ∧ high_pages s < p + n ∧ addr = high_base s + p * 4096 ∧
           (∀ j, p ≤ j < high_pages s → is_used s High j = true) ∧
           sp ∈ uspans s ∧ edge sp 0 (n - (high_pages s - p))).

Lemma all_used_true s r p n : all_used s r p n = true ↔ ∀ j, p ≤ j < p + n → is_used s r j = true.
Proof.
  unfold all_used. rewrite forallb_forall. split.
  - intros H j Hj. apply H, list_elem_of_In, elem_of_seqZ. lia.
  - intros H j Hj%list_elem_of_In%elem_of_seqZ. apply H. lia.
Qed.

Lemma free_span_complete start e l : start < e →
  (∀ y, y ∈ l → sp_used y = true → sp_start y ≤ start → e ≤ sp_start y + sp_pages y → edge y start e) →
  (∃ sp, sp ∈ l ∧ sp_used sp = true ∧ edge sp start e) → free_span start e l ≠ None.
Proof.
  intros He. induction l as [|y l IH]; intros A (sp & Hs & U & G); [by apply elem_of_nil in Hs|].
  cbn [free_span]. cbv zeta. destruct (negb (sp_used y) || _ || _) eqn:C.
  - assert (free_span start e l ≠ None); [|by destruct (free_span start e l)]. apply IH.
    + intros z Hz. apply A. by apply list_elem_of_further.
    + exists sp. split_and!; [|done..]. apply elem_of_cons in Hs as [->|]; [|done]. rewrite U in C. destruct G. lia.
  - rewrite !orb_false_iff, negb_false_iff, !Z.ltb_ge in C. destruct C as [[U' C1] C2].
    destruct (A y (list_elem_of_here _ _) U' C1 C2) as (_ & _ & [->| ->]); rewrite ?Z.eqb_refl.
    + by destruct (e =? _).
    + by destruct (start =? _).
Qed.

Lemma free_tail_complete s n sp k : pool_wf s → 0 < n → u64 n → sp ∈ uspans s → edge sp k (k + n) →
  (free_tail_at s (tail_base s + k * 4096) n).2 = EFI_SUCCESS.
Proof.
  intros W Hn Un Hs G. destruct (so_range _ _ (pw_spans s W) sp Hs) as (R0 & R1 & R2). destruct G as (G1 & G2 & G3).
  pose proof (tail_addr s k W ltac:(lia)) as B. unfold free_tail_at.
  rewrite (proj2 (tail_index_spec s _ n k W (u64_52 _ B) Hn Un)) by (split_and!; [lia..|done]).
  destruct (free_span k (k + n) (tail_spans s)) eqn:E; [done|]. exfalso. revert E. apply free_span_complete; [lia|..].
  - intros y Hy U Y1 Y2. assert (y ∈ uspans s) as Hy' by by apply in_uspans.
    destruct (decide (y = sp)) as [->|N]; [done|]. destruct (so_apart _ _ (pw_spans s W) y sp Hy' Hs N); lia.
  - apply in_uspans in Hs as [U Hs]. by exists sp.
Qed.

Lemma page_index_small s r p : pool_wf s → 0 ≤ p < pages_in s r → 0 ≤ p < 2 ^ 52.
Proof.
  intros W Hp. pose proof (pw_high s W). change (2 ^ 52) with 4503599627370496. destruct r; cbn in Hp; fw_consts; dlia.
Qed.

Lemma free_complete s memory n : pool_wf s → u64 memory → 0 < n < 2 ^ 63 → freeable s memory n →
  (free_pages_at s memory n).2 = EFI_SUCCESS.
Proof.
  intros W Um Hn F. change (2 ^ 63) with 9223372036854775808 in Hn. assert (u64 n) as Un by mlia. unfold free_pages_at.
  destruct F as [(r & p & P1 & P2 & E & U)|[(sp & k & Hs & G & ->)|(sp & p & P1 & P2 & -> & U & Hs & G)]].
  - rewrite (proj2 (page_of_spec s memory r p W)) by (split; [lia|done]).
    pose proof (page_index_small s r p W ltac:(lia)) as B. change (2 ^ 52) with 4503599627370496 in B.
    rewrite add64_small by mlia. replace (bool_decide (r = High) && (0 <? n) && (high_pages s <? p + n)) with false.
    2:{ symmetry. case_bool_decide as Er; [|done]. subst r. cbn in P2. rewrite (proj2 (Z.ltb_ge (high_pages s) _)) by lia. apply andb_false_r. }
    cbv zeta. replace (p + n - p) with n by lia.
    by rewrite (proj2 (Z.eqb_neq _ _)), (proj2 (Z.ltb_ge _ _)), (proj2 (all_used_true s r p n) U) by lia.
  - destruct (so_range _ _ (pw_spans s W) sp Hs) as (R0 & R1 & R2).
    rewrite page_of_tail; [apply (free_tail_complete s n sp); [done|lia|done..]|done|]. destruct G as (G1 & G2 & G3). lia.
  - rewrite (proj2 (page_of_spec s _ High p W)) by done.
    pose proof (page_index_small s High p W P1) as B. change (2 ^ 52) with 4503599627370496 in B.
    rewrite add64_small by mlia. rewrite bool_decide_eq_true_2, !(proj2 (Z.ltb_lt _ _)) by (done || lia). cbn [andb].
    unfold free_across_tail. rewrite !(proj2 (Z.leb_gt _ _)) by lia. cbn [orb]. cbv zeta.
    rewrite (proj2 (all_used_true s High p (high_pages s - p))) by (intros j Hj; apply U; lia). cbn [negb].
    pose proof (free_tail_complete s (n - (high_pages s - p)) sp 0 W ltac:(lia) ltac:(mlia) Hs G) as T.
    rewrite Z.mul_0_l, Z.add_0_r in T. destruct (free_tail_at _ _ _) as [s' st]. cbn in T. by subst st.
Qed.

Lemma free_sound (s : PagePool) (memory pages : Z) :
  pool_wf s → u64 memory → 0 ≤ pages < 2 ^ 63 →
  let '(s', st) := free_pages_at s memory pages in
  pool_wf s' ∧
  (st = EFI_SUCCESS →
     0 < pages ∧ memory mod 4096 = 0 ∧ all_hold s memory pages (λ c, c ≠ None) ∧ updated s s' memory pages None) ∧
  (st ≠ EFI_SUCCESS → s' = s).
Proof.
  intros W Um Hp. change (2 ^ 63) with 9223372036854775808 in Hp. assert (u64 pages) as Up by mlia.
  assert (∀ s' st, (st = EFI_SUCCESS ∧ 0 < pages ∧ released s s' memory pages) ∨ (st ≠ EFI_SUCCESS ∧ s' = s) →
    pool_wf s' ∧ (st = EFI_SUCCESS →
     0 < pages ∧ memory mod 4096 = 0 ∧ all_hold s memory pages (λ c, c ≠ None) ∧ updated s s' memory pages None) ∧
    (st ≠ EFI_SUCCESS → s' = s)) as Fin.
  { intros s' st [(-> & P & W' & A & F & U)|(N & ->)]; split_and!; try done. }
  unfold free_pages_at. destruct (page_of s memory) as [[r p]|] eqn:P.
  - apply page_of_spec in P as [P1 P2]; [|done].
    pose proof (region_end s r p W P1) as Re. change (2 ^ 52) with 4503599627370496 in Re.
    assert (0 ≤ base_of s r) as B0.
    { pose proof (pw_base s W). destruct r; cbn in *; fw_consts; lia. }
    rewrite add64_small by mlia. destruct (_ && _) eqn:B.
    + apply andb_true_iff in B as [[Br B1%Z.ltb_lt]%andb_true_iff B2%Z.ltb_lt]. apply bool_decide_eq_true in Br as ->.
      cbn [pages_in base_of] in *. pose proof (release_across s p pages W P1 ltac:(lia) Up) as R.
      destruct (free_across_tail s p pages) as [s' st]. apply Fin. rewrite P2. naive_solver.
    + cbv zeta. replace (p + pages - p) with pages by lia.
      destruct (_ || _ || _) eqn:C; [apply Fin; by right|].
      rewrite !orb_false_iff in C. destruct C as [[C1%Z.eqb_neq C2%Z.ltb_ge] C3%negb_false_iff].
      apply Fin. left. split_and!; [done|lia|]. rewrite P2. apply release_region; [done|lia..|done].
  - pose proof (free_tail_at_ok s memory pages W Um ltac:(lia) Up) as R. destruct (free_tail_at s memory pages) as [s' st].
    apply Fin. naive_solver.
Qed.

(** [FreePages] is exact for every page count whose end does not wrap: a success
    means every page of the range was allocated, and frees exactly those pages; a
    refusal changes nothing, and never meets a range that can be taken back. *)
Theorem free_exact (s : PagePool) (memory pages : Z) :
  pool_wf s → u64 memory → 0 ≤ pages < 2 ^ 63 →
  let '(s', st) := free_pages_at s memory pages in
  pool_wf s' ∧
  (st = EFI_SUCCESS →
     0 < pages ∧ memory mod 4096 = 0 ∧ all_hold s memory pages (λ c, c ≠ None) ∧ updated s s' memory pages None) ∧
  (st ≠ EFI_SUCCESS → s' = s) ∧
  (0 < pages → freeable s memory pages → st = EFI_SUCCESS).
Proof.
  intros W Um Hp. pose proof (free_sound s memory pages W Um Hp) as F.
  pose proof (λ H, free_complete s memory pages W Um (conj H (proj2 Hp))) as C.
  destruct (free_pages_at s memory pages) as [s' st]. destruct F as (F1 & F2 & F3). by split_and!.
Qed.

(** A page count near 2^64 wraps the end of the range: the call reports success
    and frees nothing, even on a page that is free. *)
Theorem free_wraps_to_success :
  free_pages_at pool_new (POOL_BASE + 5 * 4096) (W64 - 1) = (pool_new, EFI_SUCCESS) ∧
  page_state pool_new (POOL_BASE + 5 * 4096) = Some None.
Proof. split; [reflexivity|by vm_compute]. Qed.

(** ** The memory map is honest *)

Definition run_has (a : Z) (r : MemRun) : Prop := rstart r ≤ a < rstart r + rpages r * 4096.

(** Some run advertises the page at [a] with type [t]. *)
Definition advertised (out : list MemRun) (a t : Z) : Prop := ∃ r, r ∈ out ∧ rtyp r = t ∧ run_has a r.

Lemma advertised_cons r out a t : advertised (r :: out) a t ↔ (rtyp r = t ∧ run_has a r) ∨ advertised out a t.
Proof.
  unfold advertised. split.
  - intros (x & [->|Hx]%elem_of_cons & H); [by left|right; by exists x].
  - intros [H|(x & Hx & H)]; [exists r; split; [apply list_elem_of_here|done]|exists x; split; [by apply elem_of_cons; right|done]].
Qed.

Lemma push_sound out typ start e a t : advertised (push out typ start e) a t →
  advertised out a t ∨ (typ = t ∧ start ≤ a < e).
Proof.
  unfold push. destruct (_ || _) eqn:B; [by left|]. cbv zeta.
  apply orb_false_iff in B as [B%Z.leb_gt _].
  assert ((e - start) / 4096 * 4096 ≤ e - start) as D by dlia.
  destruct out as [|l out].
  - rewrite advertised_cons. intros [[E R]|(x & Hx%elem_of_nil & _)]; [|done]. unfold run_has in R. cbn in *. right. lia.
  - destruct (_ && _) eqn:M.
    + apply andb_true_iff in M as [M1%Z.eqb_eq M2%Z.eqb_eq]. rewrite !advertised_cons. cbn.
      intros [[E R]|H]; [|by left; right]. unfold run_has in *. cbn in R.
      destruct (decide (a < start)); [left; left|right]; lia.
    + rewrite advertised_cons. intros [[E R]|H]; [|by left]. unfold run_has in R. cbn in *. right. lia.
Qed.

(** What is in the map stays, and a push that finds room adds its range. *)
Lemma push_complete out typ start e : 
  (∀ a t, (∀ r, r ∈ out → 0 ≤ rpages r) → advertised out a t → advertised (push out typ start e) a t) ∧
  ((∀ r, r ∈ out → 0 ≤ rpages r) → ∀ r, r ∈ push out typ start e → 0 ≤ rpages r) ∧
  (length out ≤ length (push out typ start e))%nat ∧
  ((length out < MAX_DESCRIPTORS)%nat → start mod 4096 = 0 → e mod 4096 = 0 → (∀ r, r ∈ out → 0 ≤ rpages r) →
     ∀ a, start ≤ a < e → advertised (push out typ start e) a typ).
Proof.
  unfold push. destruct (Z.leb_spec e start) as [L|L]; cbn [orb]; [split_and!; try done; lia|].
  destruct (Nat.leb_spec MAX_DESCRIPTORS (length out)); [split_and!; try done; lia|]. cbv zeta.
  assert (0 ≤ (e - start) / 4096) as D0 by dlia.
  destruct out as [|l out]; [|destruct (_ && _) eqn:M].
  - split_and!; [by intros a t _ (x & Hx%elem_of_nil & _)|intros _ r ->%list_elem_of_singleton; done|cbn; lia|].
    intros _ A1 A2 _ a Ha. apply advertised_cons. left. split; [done|]. unfold run_has. cbn. dlia.
  - apply andb_true_iff in M as [M1%Z.eqb_eq M2%Z.eqb_eq]. split_and!.
    + intros a t P. rewrite !advertised_cons. intros [[E R]|H1]; [left|by right]. split; [done|].
      unfold run_has in *. cbn. lia.
    + intros P r [->|Hr]%elem_of_cons; [|apply P, elem_of_cons; by right]. cbn.
      specialize (P l (list_elem_of_here _ _)). lia.
    + done.
    + intros _ A1 A2 P a Ha. apply advertised_cons. left. split; [done|]. unfold run_has. cbn.
      specialize (P l (list_elem_of_here _ _)). dlia.
  - split_and!.
    + intros a t _ H1. apply advertised_cons. by right.
    + intros P r [->|Hr]%elem_of_cons; [done|]. by apply P.
    + cbn. lia.
    + intros _ A1 A2 _ a Ha. apply advertised_cons. left. split; [done|]. unfold run_has. cbn. dlia.
Qed.

Definition good (out : list MemRun) : Prop := ∀ r, r ∈ out → 0 ≤ rpages r.

(** The map grew from [out] to [out']. *)
Definition ext (out out' : list MemRun) : Prop :=
  good out → good out' ∧ (length out ≤ length out')%nat ∧ ∀ a t, advertised out a t → advertised out' a t.

Lemma ext_refl out : ext out out.
Proof. by intros G. Qed.

Lemma ext_trans o1 o2 o3 : ext o1 o2 → ext o2 o3 → ext o1 o3.
Proof.
  intros E1 E2 G1. destruct (E1 G1) as (G2 & L2 & A2). destruct (E2 G2) as (G3 & L3 & A3).
  split_and!; [done|lia|auto].
Qed.

Lemma push_ext out typ start e : ext out (push out typ start e).
Proof. intros G. destruct (push_complete out typ start e) as (A & B & C & _). split; [exact (B G)|split; [exact C|intros a t; by apply A]]. Qed.

Lemma ext_good o o' : ext o o' → good o → good o'.
Proof. intros E G. exact (proj1 (E G)). Qed.

Lemma push_covers out typ start e out' : good out → ext (push out typ start e) out' → (length out' < MAX_DESCRIPTORS)%nat →
  start mod 4096 = 0 → e mod 4096 = 0 → ∀ a, start ≤ a < e → ∃ t, advertised out' a t.
Proof.
  intros G E L A1 A2 a Ha. destruct (push_complete out typ start e) as (_ & P2 & P3 & P4).
  destruct (E (P2 G)) as (_ & L2 & A). exists typ. apply A, P4; (done || lia).
Qed.

Section Map.
Context (s : PagePool) (W : pool_wf s).

Definition shown_type (c : option Z) : Z := match c with Some t => t | None => EFI_CONVENTIONAL_MEMORY end.

(** What an advertised type must say about a page. *)
Definition adv_ok (a t : Z) : Prop :=
  (t = EFI_CONVENTIONAL_MEMORY → page_state s a = Some None) ∧
  (∀ c, page_state s a = Some c → t = shown_type c).

Definition sound (out : list MemRun) : Prop :=
  ∀ a t, u64 a → a mod 4096 = 0 → advertised out a t → adv_ok a t.

Lemma push_ok out typ start e : sound out →
  (∀ a, u64 a → a mod 4096 = 0 → start ≤ a < e → adv_ok a typ) → sound (push out typ start e).
Proof. intros S H a t Ua Al [A|[<- R]]%push_sound; [by apply S|by apply H]. Qed.

Definition managed (a : Z) : Prop := is_Some (page_state s a).

Lemma managed_ranges a : u64 a → managed a →
  BELOW1M_BASE ≤ a < BELOW1M_END ∨ POOL_BASE ≤ a < POOL_END ∨ (high_pages s ≠ 0 ∧ high_base s ≤ a).
Proof.
  intros Ua [c Hc]. destruct (page_state_cases s a W Ua) as [(E & _)|[(r & i & Hi & ->)|(k & Hk & ->)]]; [congruence|..].
  - destruct r; cbn in *; fw_consts; [left; dlia|right; left; dlia|right; right; lia].
  - right. right. pose proof (pw_none s W). pose proof (pw_high s W). unfold tail_base. lia.
Qed.

(** A fixed range of firmware or reserved memory that no managed page meets. *)
Lemma push_static out typ start e : sound out → typ ≠ EFI_CONVENTIONAL_MEMORY →
  (∀ a, start ≤ a < e → ¬ (BELOW1M_BASE ≤ a < BELOW1M_END) ∧ ¬ (POOL_BASE ≤ a < POOL_END) ∧
        (high_pages s ≠ 0 → a < high_base s)) → sound (push out typ start e).
Proof.
  intros S N H. apply push_ok; [done|]. intros a Ua Al R. destruct (H a R) as (H1 & H2 & H3).
  split; [done|]. intros c Hc. exfalso.
  destruct (managed_ranges a Ua ltac:(by exists c)) as [?|[?|[Hh ?]]]; [tauto|tauto|]. specialize (H3 Hh). lia.
Qed.

Lemma run_end_spec r st total js : ∀ j0, js = seqZ j0 (total - j0) → j0 ≤ total →
  j0 ≤ run_end s r st total js ≤ total ∧ ∀ j, j0 ≤ j < run_end s r st total js → state_at s r j = st.
Proof.
  induction js as [|j js IH]; intros j0 E Hj.
  - cbn [run_end]. assert (total = j0) as ->.
    { destruct (decide (total = j0)); [done|]. symmetry in E. apply (f_equal length) in E. rewrite length_seqZ in E. cbn in E. lia. }
    split; lia.
  - assert (j0 < total) as Lt.
    { destruct (decide (j0 < total)); [done|]. rewrite seqZ_nil in E by lia. done. }
    assert (seqZ j0 (total - j0) = j0 :: seqZ (j0 + 1) (total - (j0 + 1))) as E2.
    { rewrite seqZ_cons by lia. f_equal. f_equal; lia. }
    rewrite E2 in E. injection E as -> ->. cbn [run_end].
    destruct (decide (state_at s r j0 = st)) as [D|D]; [rewrite bool_decide_eq_true_2 by done|rewrite bool_decide_eq_false_2 by done].
    + destruct (IH (j0 + 1) eq_refl ltac:(lia)) as [B F]. split; [lia|].
      intros j Hj'. destruct (decide (j = j0)) as [->|]; [done|]. apply F. lia.
    + split; [lia|]. intros; lia.
Qed.

Lemma state_shown r i : 0 ≤ i < pages_in s r → adv_ok (base_of s r + i * 4096) (state_at s r i).2.
Proof.
  intros Hi. unfold adv_ok. rewrite page_state_region by done. unfold state_at, cell. cbn [snd]. cbv zeta.
  destruct (is_used s r i) eqn:U; cbn [snd].
  - destruct (pw_types s W r i Hi U) as [_ N]. split; [done|]. by intros c [= <-].
  - split; [done|]. by intros c [= <-].
Qed.

Lemma region_loop_sound fuel r : ∀ i out, 0 ≤ i → sound out → sound (region_loop fuel s r i out).
Proof.
  induction fuel as [|fuel IH]; intros i out Hi S; [done|]. cbn [region_loop]. cbv zeta.
  destruct (Z.ltb_spec i (pages_in s r)) as [L|]; [|done].
  destruct (run_end_spec r (state_at s r i) (pages_in s r) _ (i + 1) eq_refl ltac:(lia)) as [B F].
  set (j := run_end _ _ _ _ _) in *. apply IH; [lia|]. apply push_ok; [done|].
  intros a Ua Al R. pose proof (base_aligned s r W ltac:(lia)) as Ab.
  assert (a = base_of s r + (a - base_of s r) / 4096 * 4096) as Ea by dlia.
  set (k := (a - base_of s r) / 4096) in *. assert (i ≤ k < j) as Hk by lia.
  rewrite Ea. replace (state_at s r i) with (state_at s r k).
  - apply state_shown. lia.
  - destruct (decide (k = i)) as [->|]; [done|]. apply F. lia.
Qed.

Lemma region_loop_ext fuel r : ∀ i out, ext out (region_loop fuel s r i out).
Proof.
  induction fuel as [|fuel IH]; intros i out; [apply ext_refl|]. cbn [region_loop]. cbv zeta.
  destruct (_ <? _); [|apply ext_refl]. eapply ext_trans; [apply push_ext|apply IH].
Qed.

Lemma region_loop_covers r fuel : ∀ i out, good out → 0 ≤ i → pages_in s r - i ≤ Z.of_nat fuel →
  (length (region_loop fuel s r i out) < MAX_DESCRIPTORS)%nat →
  ∀ k, i ≤ k < pages_in s r → ∃ t, advertised (region_loop fuel s r i out) (base_of s r + k * 4096) t.
Proof.
  induction fuel as [|fuel IH]; intros i out G Hi Hf L k Hk; [lia|]. cbn [region_loop] in *. cbv zeta in *.
  rewrite (proj2 (Z.ltb_lt i (pages_in s r))) in * by lia.
  destruct (run_end_spec r (state_at s r i) (pages_in s r) _ (i + 1) eq_refl ltac:(lia)) as [B _].
  set (j := run_end _ _ _ _ _) in *. pose proof (base_aligned s r W ltac:(lia)) as Ab.
  destruct (decide (k < j)).
  - eapply push_covers; [exact G|apply region_loop_ext|exact L|dlia|dlia|lia].
  - apply IH; [|lia|lia|done|lia]. by apply (proj1 (push_ext _ _ _ _ G)).
Qed.

(** *** The tail's runs *)

Lemma tail_gap_free k c : (∀ sp, sp ∈ uspans s → ¬ (sp_start sp ≤ k < sp_start sp + sp_pages sp)) →
  0 ≤ k < tail_pages s → page_state s (tail_base s + k * 4096) = Some c → c = None.
Proof.
  intros H Hk. rewrite page_state_tail by done. intros [= <-]. destruct (tcell s k) as [t|] eqn:E; [|done].
  apply tcell_Some in E as (sp & Hs & R & _); [|apply W]. exfalso. by apply (H sp).
Qed.

Lemma push_tail out typ i j : sound out → 0 ≤ i → j ≤ tail_pages s →
  (∀ k, i ≤ k < j → adv_ok (tail_base s + k * 4096) typ) →
  sound (push out typ (tail_base s + i * 4096) (tail_base s + j * 4096)).
Proof.
  intros S Hi Hj H. apply push_ok; [done|]. intros a Ua Al R.
  destruct (tail_aligned s W) as [Ab _]; [lia|].
  replace a with (tail_base s + (a - tail_base s) / 4096 * 4096) by dlia. apply H. dlia.
Qed.

Lemma free_shown k : 0 ≤ k < tail_pages s → (∀ sp, sp ∈ uspans s → ¬ (sp_start sp ≤ k < sp_start sp + sp_pages sp)) →
  adv_ok (tail_base s + k * 4096) EFI_CONVENTIONAL_MEMORY.
Proof.
  intros Hk H. pose proof (page_state_tail s k W Hk) as P. split; intros; [rewrite P; f_equal|].
  - by apply (tail_gap_free k).
  - by rewrite (tail_gap_free k c).
Qed.

Lemma span_shown sp k : sp ∈ uspans s → sp_start sp ≤ k < sp_start sp + sp_pages sp →
  adv_ok (tail_base s + k * 4096) (sp_typ sp).
Proof.
  intros Hs Hk. destruct (so_range _ _ (pw_spans s W) sp Hs) as (R0 & R1 & R2).
  destruct (so_type _ _ (pw_spans s W) sp Hs) as [_ [_ N]]. split; [done|].
  intros c. rewrite page_state_tail by (done || lia). intros [= <-].
  rewrite (proj2 (tcell_Some s k (sp_typ sp) (pw_spans s W))); [done|]. by exists sp.
Qed.

Lemma emit_spans_sound order : ∀ cursor out, 0 ≤ cursor → chain (tail_pages s) cursor order →
  (∀ sp, sp ∈ uspans s → sp_start sp + sp_pages sp ≤ cursor ∨ sp ∈ order) →
  (∀ sp, sp ∈ order → sp ∈ uspans s) → sound out →
  sound (emit_spans (tail_base s) order cursor out).1 ∧
  cursor ≤ (emit_spans (tail_base s) order cursor out).2 ≤ tail_pages s ∧
  ∀ sp, sp ∈ uspans s → sp_start sp + sp_pages sp ≤ (emit_spans (tail_base s) order cursor out).2.
Proof.
  induction order as [|sp order IH]; intros cursor out Hc C Cov Sub S; cbn [emit_spans chain fst snd] in *.
  - split_and!; [done|lia|lia|]. intros x Hx. by destruct (Cov x Hx) as [|?%elem_of_nil].
  - destruct C as [C1 C2]. assert (sp ∈ uspans s) as Hsp by apply Sub, list_elem_of_here.
    destruct (so_range _ _ (pw_spans s W) sp Hsp) as (R0 & R1 & R2). cbv zeta.
    assert (∀ x, x ∈ order → 0 < sp_pages x) as Pos.
    { intros x Hx. apply (so_range _ _ (pw_spans s W)), Sub, elem_of_cons. by right. }
    set (out1 := if cursor <? sp_start sp then _ else out).
    assert (sound out1) as S1.
    { unfold out1. destruct (Z.ltb_spec cursor (sp_start sp)); [|done]. apply push_tail; [done|done|lia|].
      intros k Hk. apply free_shown; [lia|]. intros x Hx Rx.
      destruct (Cov x Hx) as [?|[->|Hin]%elem_of_cons]; [lia|lia|].
      pose proof (chain_ge _ _ _ C2 Pos x Hin). lia. }
    destruct (IH (sp_start sp + sp_pages sp)
      (push out1 (sp_typ sp) (tail_base s + sp_start sp * 4096) (tail_base s + (sp_start sp + sp_pages sp) * 4096)))
      as (S2 & B & E); [lia|done|..|].
    + intros x Hx. destruct (Cov x Hx) as [?|[->|Hin]%elem_of_cons]; [left; lia|left; lia|by right].
    + intros x Hx. apply Sub, elem_of_cons. by right.
    + apply push_tail; [done|done|lia|]. intros k Hk. by apply span_shown.
    + split_and!; [done|lia|lia|done].
Qed.

Lemma emit_tail_sound out : tail_pages s ≠ 0 → sound out → sound (emit_tail s out).
Proof.
  intros Nz S. unfold emit_tail. cbv zeta. destruct (span_order_spec s W) as [C I].
  destruct (emit_spans_sound (span_order s) 0 out) as (S1 & B & E); [lia|done|..|done|].
  { intros sp Hs. right. by apply I. }
  { intros sp Hs. by apply I. }
  destruct (emit_spans _ _ _ _) as [out1 cursor]. cbn [fst snd] in *.
  destruct (Z.ltb_spec cursor (tail_pages s)); [|done]. apply push_tail; [done|lia|lia|].
  intros k Hk. apply free_shown; [lia|]. intros sp Hs R. specialize (E sp Hs). lia.
Qed.

Lemma emit_spans_ext order : ∀ cursor out, ext out (emit_spans (tail_base s) order cursor out).1.
Proof.
  induction order as [|sp order IH]; intros cursor out; cbn [emit_spans]; [apply ext_refl|]. cbv zeta.
  eapply ext_trans; [|apply IH]. eapply ext_trans; [|apply push_ext].
  destruct (_ <? _); [apply push_ext|apply ext_refl].
Qed.

Lemma emit_spans_covers order : ∀ cursor out out', good out → 0 < tail_pages s → 0 ≤ cursor →
  chain (tail_pages s) cursor order → (∀ sp, sp ∈ order → 0 < sp_pages sp) →
  ext (emit_spans (tail_base s) order cursor out).1 out' → (length out' < MAX_DESCRIPTORS)%nat →
  ∀ k, cursor ≤ k < (emit_spans (tail_base s) order cursor out).2 → ∃ t, advertised out' (tail_base s + k * 4096) t.
Proof.
  induction order as [|sp order IH]; intros cursor out out' G T Hc C Pos E L k Hk; cbn [emit_spans chain fst snd] in *; [lia|].
  destruct C as [C1 C2]. cbv zeta in *. destruct (tail_aligned s W T) as [Ab _].
  assert (0 < sp_pages sp) as Psp by apply Pos, list_elem_of_here.
  set (out1 := if cursor <? sp_start sp then _ else out) in *.
  assert (ext out out1) as X1 by (unfold out1; destruct (_ <? _); [apply push_ext|apply ext_refl]).
  destruct (X1 G) as (G1 & _). set (out2 := push out1 _ _ _) in *.
  assert (ext out1 out2) as X2 by apply push_ext. destruct (X2 G1) as (G2 & _).
  pose proof (ext_trans _ _ _ (emit_spans_ext order (sp_start sp + sp_pages sp) out2) E) as X3.
  destruct (decide (sp_start sp + sp_pages sp ≤ k)).
  - apply (IH (sp_start sp + sp_pages sp) out2 out' G2 T); [lia|done| |done|done|lia].
    intros x Hx. apply Pos, elem_of_cons. by right.
  - destruct (decide (sp_start sp ≤ k)).
    + eapply (push_covers out1); [exact G1|exact X3|exact L|dlia|dlia|lia].
    + assert (cursor < sp_start sp) as Lt by lia.
      assert (out1 = push out EFI_CONVENTIONAL_MEMORY (tail_base s + cursor * 4096) (tail_base s + sp_start sp * 4096)) as E1.
      { unfold out1. by rewrite (proj2 (Z.ltb_lt _ _) Lt). }
      pose proof (ext_trans _ _ _ X2 X3) as X4. rewrite E1 in X4.
      eapply (push_covers out); [exact G|exact X4|exact L|dlia|dlia|lia].
Qed.

Lemma emit_tail_ext out : ext out (emit_tail s out).
Proof.
  unfold emit_tail. cbv zeta. pose proof (emit_spans_ext (span_order s) 0 out) as X.
  destruct (emit_spans _ _ _ _) as [out1 cursor]. cbn [fst] in X. destruct (_ <? _); [|done].
  eapply ext_trans; [exact X|apply push_ext].
Qed.

Lemma emit_tail_covers out out' : good out → 0 < tail_pages s → ext (emit_tail s out) out' →
  (length out' < MAX_DESCRIPTORS)%nat →
  ∀ k, 0 ≤ k < tail_pages s → ∃ t, advertised out' (tail_base s + k * 4096) t.
Proof.
  intros G T E L k Hk. unfold emit_tail in E. cbv zeta in E. destruct (span_order_spec s W) as [C I].
  assert (∀ sp, sp ∈ span_order s → 0 < sp_pages sp) as Pos.
  { intros sp Hs%I. by apply (so_range _ _ (pw_spans s W)). }
  pose proof (emit_spans_ext (span_order s) 0 out) as X.
  pose proof (emit_spans_covers (span_order s) 0 out out' G T ltac:(lia) C Pos) as F.
  destruct (emit_spans _ _ _ _) as [out1 cursor]. cbn [fst snd] in *. destruct (X G) as (G1 & _).
  destruct (tail_aligned s W T) as [Ab _].
  destruct (Z.ltb_spec cursor (tail_pages s)).
  - destruct (decide (k < cursor)).
    + apply F; [|done|lia]. eapply ext_trans; [apply push_ext|exact E].
    + eapply push_covers; [exact G1|exact E|exact L|dlia|dlia|lia].
  - apply F; [done|done|lia].
Qed.

(** *** The whole map *)

Lemma region_runs_ext r out : ext out (region_runs s r out).
Proof. apply region_loop_ext. Qed.

Lemma region_runs_sound r out : sound out → sound (region_runs s r out).
Proof. intros S. apply region_loop_sound; [lia|done]. Qed.

Lemma region_runs_covers r out out' : good out → ext (region_runs s r out) out' → (length out' < MAX_DESCRIPTORS)%nat →
  ∀ k, 0 ≤ k < pages_in s r → ∃ t, advertised out' (base_of s r + k * 4096) t.
Proof.
  intros G E L k Hk. destruct (region_runs_ext r out G) as (G1 & _). destruct (E G1) as (_ & L1 & A).
  destruct (region_loop_covers r (Z.to_nat (pages_in s r)) 0 out G ltac:(lia) ltac:(lia)) with (k := k) as [t Ht]; [|done|].
  - unfold region_runs in L1. lia.
  - exists t. by apply A.
Qed.

Lemma map_rev_sound slab : (high_pages s ≠ 0 → slab ≤ high_base s) → sound (memory_map_rev s slab).
Proof.
  intros Hs. assert (∀ a, a < POOL_END → high_pages s ≠ 0 → a < high_base s) as Hb.
  { intros a Ha Nz. destruct (pw_base s W Nz). lia. }
  unfold memory_map_rev. cbv zeta.
  set (o1 := push [] _ _ _). assert (sound o1) as S1.
  { apply push_static; [by intros a t _ _ (r & Hr%elem_of_nil & _)|done|]. intros a Ha. fw_consts. split_and!; try lia.
    apply Hb. lia. }
  assert (sound (region_runs s Below1m o1)) as S2 by by apply region_runs_sound.
  assert (∀ o lo hi t, sound o → t ≠ EFI_CONVENTIONAL_MEMORY → BELOW1M_END ≤ lo → hi ≤ POOL_BASE → sound (push o t lo hi)) as St.
  { intros o lo hi t So Nt H1 H2. apply push_static; [done|done|]. intros a Ha. fw_consts. split_and!; try lia. apply Hb. lia. }
  set (o2 := push (push (push (push (push (push (push (push (push (push (region_runs s Below1m o1) _ _ _) _ _ _) _ _ _) _ _ _)
    _ _ _) _ _ _) _ _ _) _ _ _) _ _ _) _ _ _).
  assert (sound o2) as S3 by (unfold o2; do 10 (apply St; [|done..]); done).
  set (o3 := push (region_runs s Low o2) _ _ _). assert (sound o3) as S4.
  { apply push_static; [by apply region_runs_sound|done|]. intros a Ha. fw_consts.
    split_and!; [lia|lia|]. intros Nz. specialize (Hs Nz). lia. }
  set (o4 := if negb (high_pages s =? 0) then _ else o3). assert (sound o4) as S5.
  { unfold o4. destruct (negb _); [by apply region_runs_sound|done]. }
  destruct (Z.eqb_spec (tail_pages s) 0); cbn [negb]; [done|by apply emit_tail_sound].
Qed.

Lemma map_rev_covers slab a c : u64 a → (length (memory_map_rev s slab) < MAX_DESCRIPTORS)%nat →
  page_state s a = Some c → ∃ t, advertised (memory_map_rev s slab) a t.
Proof.
  intros Ua L Hc. unfold memory_map_rev in *. cbv zeta in *.
  set (o1 := push [] _ _ _) in *. assert (good o1) as G1 by (apply (ext_good [] o1 (push_ext _ _ _ _)); by intros r Hr%elem_of_nil).
  set (o2 := push (push (push (push (push (push (push (push (push (push (region_runs s Below1m o1) _ _ _) _ _ _) _ _ _) _ _ _)
    _ _ _) _ _ _) _ _ _) _ _ _) _ _ _) _ _ _) in *.
  assert (ext (region_runs s Below1m o1) o2) as X2.
  { unfold o2. do 9 (eapply ext_trans; [|apply push_ext]). apply push_ext. }
  assert (good o2) as G2 by exact (ext_good _ _ X2 (ext_good _ _ (region_runs_ext Below1m o1) G1)).
  set (o3 := push (region_runs s Low o2) _ _ _) in *. assert (ext (region_runs s Low o2) o3) as X3 by apply push_ext.
  assert (good o3) as G3 by exact (ext_good _ _ X3 (ext_good _ _ (region_runs_ext Low o2) G2)).
  set (o4 := if negb (high_pages s =? 0) then _ else o3) in *.
  assert (ext o3 o4) as X4 by (unfold o4; destruct (negb _); [apply region_runs_ext|apply ext_refl]).
  assert (good o4) as G4 by exact (ext_good _ _ X4 G3).
  set (o5 := if negb (tail_pages s =? 0) then _ else o4) in *.
  assert (ext o4 o5) as X5 by (unfold o5; destruct (negb (tail_pages s =? 0)); [apply emit_tail_ext|apply ext_refl]).
  assert (high_pages s ≠ 0 → o4 = region_runs s High o3) as E4.
  { intros Nz. unfold o4. by rewrite (proj2 (Z.eqb_neq _ _) Nz). }
  assert (tail_pages s ≠ 0 → o5 = emit_tail s o4) as E5.
  { intros Nz. unfold o5. by rewrite (proj2 (Z.eqb_neq _ _) Nz). }
  clearbody o1 o2 o3 o4 o5.
  pose proof (ext_trans _ _ _ X4 X5) as X35. pose proof (ext_trans _ _ _ X3 X35) as XL5.
  pose proof (ext_trans _ _ _ X2 (ext_trans _ _ _ (region_runs_ext Low o2) XL5)) as XB5.
  destruct (page_state_cases s a W Ua) as [(E & _)|[(r & i & Hi & ->)|(k & Hk & ->)]]; [congruence|..].
  - destruct r.
    + exact (region_runs_covers Below1m o1 o5 G1 XB5 L i Hi).
    + exact (region_runs_covers Low o2 o5 G2 XL5 L i Hi).
    + rewrite E4 in X5 by (cbn in Hi; lia). exact (region_runs_covers High o3 o5 G3 X5 L i Hi).
  - rewrite E5 in * by lia. exact (emit_tail_covers o4 _ G4 ltac:(lia) (ext_refl _) L k Hk).
Qed.

End Map.

Lemma advertised_rev l a t : advertised (rev l) a t ↔ advertised l a t.
Proof. unfold advertised. setoid_rewrite list_elem_of_In. by setoid_rewrite <-in_rev. Qed.

(** The memory map tells the truth about every managed page: conventional memory
    is free and managed, an allocated page appears with its own type, and while the
    map has room for its descriptors no managed page is left out. *)
Theorem memory_map_exact (s : PagePool) (slab_bytes a : Z) :
  pool_wf s → (high_pages s ≠ 0 → slab_bytes ≤ high_base s) → u64 a → a mod 4096 = 0 →
  let m := memory_map s slab_bytes in
  (advertised m a EFI_CONVENTIONAL_MEMORY → page_state s a = Some None) ∧
  (∀ t c, advertised m a t → page_state s a = Some c → t = shown_type c) ∧
  ((length m < MAX_DESCRIPTORS)%nat → ∀ c, page_state s a = Some c → advertised m a (shown_type c)).
Proof.
  intros W Hs Ua Al. cbv zeta. unfold memory_map. pose proof (map_rev_sound s W slab_bytes Hs) as S.
  setoid_rewrite advertised_rev. rewrite length_rev. split_and!.
  - intros H. by destruct (S a _ Ua Al H) as [H1 _]; apply H1.
  - intros t c H. destruct (S a _ Ua Al H) as [_ H2]. apply H2.
  - intros L c Hc. destruct (map_rev_covers s W slab_bytes a c Ua L Hc) as [t Ht].
    destruct (S a t Ua Al Ht) as [_ E]. by rewrite <-(E c Hc).
Qed.


(** ** Allocating what the map offers *)

Lemma tail_not_busy s k : pool_wf s → tcell s k = None → tail_busy s k 1 = false.
Proof.
  intros W E. apply tail_busy_false. intros sp Hs. destruct (decide (sp_start sp ≤ k < sp_start sp + sp_pages sp)); [|lia].
  assert (tcell s k = Some (sp_typ sp)); [|congruence]. apply tcell_Some; [apply W|]. by exists sp.
Qed.

(** The honesty rule: a page the map advertises as conventional can be allocated
    at its address, with any type a caller may ask for, provided that a span slot is
    free when the page lies in the tail. *)
Theorem conventional_allocatable (s : PagePool) (slab_bytes a mem_type : Z) :
  pool_wf s → (high_pages s ≠ 0 → slab_bytes ≤ high_base s) → u64 a → a mod 4096 = 0 → ok_type mem_type →
  (tail_base s ≤ a → slot_free s ∧ tail_pages s ≤ 2 ^ 32) →
  advertised (memory_map s slab_bytes) a EFI_CONVENTIONAL_MEMORY →
  (allocate_pages s ALLOCATE_ADDRESS mem_type 1 a).2 = (EFI_SUCCESS, a).
Proof.
  intros W Hs Ua Al Ht Hslot Had.
  assert (page_state s a = Some None) as P.
  { unfold memory_map in Had. rewrite advertised_rev in Had.
    destruct (map_rev_sound s W slab_bytes Hs a _ Ua Al Had) as [H _]. by apply H. }
  unfold allocate_pages. destruct Ht as [[T1 T2] T3]. unfold EFI_RESERVED_MEMORY_TYPE, EFI_MAX_MEMORY_TYPE in *.
  assert (1 ≤ max_run s) as Mr.
  { unfold max_run. assert (1 ≤ POOL_PAGES) by done. lia. }
  replace ((1 =? 0) || (max_run s <? 1)) with false by lia.
  rewrite (proj2 (Z.leb_gt _ _)), (proj2 (Z.eqb_neq _ _) T3), (proj2 (Z.eqb_neq mem_type 0)) by lia. cbn [orb].
  cbn [search_pages ALLOCATE_ADDRESS ALLOCATE_ANY_PAGES ALLOCATE_MAX_ADDRESS Z.eqb Pos.eqb].
  unfold search_pages. cbn [ALLOCATE_ADDRESS ALLOCATE_ANY_PAGES ALLOCATE_MAX_ADDRESS Z.eqb Pos.eqb]. unfold search_address.
  destruct (page_state_cases s a W Ua) as [(E & _)|[(r & i & Hi & ->)|(k & Hk & ->)]]; [congruence|..].
  - rewrite page_state_region in P by done. rewrite (proj2 (page_of_spec s _ r i W)) by done.
    rewrite (proj2 (Z.leb_le _ _)) by lia. rewrite (proj1 (free_run_any s r i 1)); [done|].
    intros j Hj. replace j with i by lia. injection P as P. unfold cell in P. by destruct (is_used s r i).
  - rewrite page_state_tail in P by done. injection P as P. rewrite page_of_tail by done.
    assert (tail_index s (tail_base s + k * 4096) 1 = Some k) as K.
    { apply tail_index_spec; [done|done|lia|mlia|]. split_and!; [lia..|done]. }
    rewrite K. unfold allocate_tail_at. rewrite K, (tail_not_busy s k W P).
    destruct Hslot as [Hf Hl]; [lia|]. change (2 ^ 32) with 4294967296 in Hl.
    destruct (tail_insert_some s k 1 mem_type Hf) as [s' ->]; [lia|lia|]. done.
Qed.

(** With all eight spans in use no page of the tail can be allocated at its
    address any more, free and advertised as it may be. *)
Theorem tail_slots_exhausted (s : PagePool) (k mem_type : Z) :
  pool_wf s → 0 ≤ k < tail_pages s → ¬ slot_free s →
  (allocate_pages s ALLOCATE_ADDRESS mem_type 1 (tail_base s + k * 4096)).2.1 ≠ EFI_SUCCESS.
Proof.
  intros W Hk N. unfold allocate_pages. destruct (_ || _); [done|]. destruct (_ || _ || _); [done|].
  unfold search_pages. cbn [ALLOCATE_ADDRESS ALLOCATE_ANY_PAGES ALLOCATE_MAX_ADDRESS Z.eqb Pos.eqb].
  unfold search_address. rewrite page_of_tail by done. destruct (tail_index _ _ _) as [j|] eqn:K; [|done].
  unfold allocate_tail_at. rewrite K. destruct (tail_busy s j 1); [done|].
  destruct (tail_insert s j 1 mem_type) as [s'|] eqn:E; [|done]. exfalso. apply N.
  unfold tail_insert in E. destruct (_ || _) in E; [done|]. destruct (find_index _ _) as [i|] eqn:F; [|done].
  apply find_index_Some in F as (sp & Hi & U & _). exists sp. split; [by eapply list_elem_of_lookup_2|].
  by apply negb_true_iff.
Qed.

(** ** Witnesses *)

Lemma spans_ok_nil tp : spans_ok tp [].
Proof. split; [apply NoDup_nil_2| |..]; intros x; [intros y Hx%elem_of_nil|intros Hx%elem_of_nil..]; done. Qed.

Lemma pool_new_wf : pool_wf pool_new.
Proof.
  split; try (cbn; fw_consts; lia); [done|apply spans_ok_nil|]. intros r i _. by rewrite is_used_bit, Z.bits_0.
Qed.

Lemma types_kept s s' : pool_wf s → (∀ i, 0 ≤ i → is_used s High i = false) → words s' = words s → types s' = types s →
  ∀ r i, 0 ≤ i < pages_in s' r → is_used s' r i = true → ok_type (typ_of s' r i).
Proof.
  intros W F Ew Et r i Hi. unfold is_used, typ_of. rewrite Ew, Et. fold (is_used s r i). fold (typ_of s r i).
  destruct r; [exact (pw_types s W Below1m i Hi)|exact (pw_types s W Low i Hi)|]. rewrite F by lia. done.
Qed.

Lemma high_fits base pages e : 0 ≤ pages → e = base + sat_mul64 pages 4096 → POOL_END ≤ base → e ≤ 2 ^ 52 →
  base + (Z.min pages HIGH_MAX_PAGES + (pages - Z.min pages HIGH_MAX_PAGES)) * 4096 ≤ 2 ^ 52.
Proof.
  intros H0 -> B H. replace (Z.min pages HIGH_MAX_PAGES + (pages - Z.min pages HIGH_MAX_PAGES)) with pages by lia.
  assert (sat_mul64 pages 4096 = Z.min (pages * 4096) 18446744073709551615) as Es by reflexivity.
  assert (2 ^ 52 = 4503599627370496) as E52 by reflexivity. assert (POOL_END = 0x1F00000) as Ep by reflexivity.
  rewrite Es, E52 in H. rewrite Ep in B. rewrite E52. lia.
Qed.

(** Configuring the high region keeps the pool well-formed while nothing in it is
    allocated. *)
Lemma set_high_region_wf s base pages : pool_wf s → 0 ≤ pages → (∀ i, 0 ≤ i → is_used s High i = false) →
  pool_wf (set_high_region s base pages).1.
Proof.
  intros W Hp F.
  assert (pool_wf (clear_high s)) as Wc.
  { split; try (by apply (types_kept s)); try apply spans_ok_nil; cbn [clear_high high_pages tail_pages high_base tail_spans];
      unfold HIGH_MAX_PAGES; try lia. done. }
  unfold set_high_region. destruct (_ || _ || _) eqn:B; [done|].
  rewrite !orb_false_iff in B. destruct B as [[B1%negb_false_iff%Z.eqb_eq B2%Z.ltb_ge] B3%Z.eqb_neq].
  destruct (checked_add64 _ _) as [e|] eqn:E; [|done]. apply checked_add64_Some in E as [E Ee].
  destruct (Z.ltb_spec (Z.shiftl 1 52) e) as [|L]; [done|]. cbn [fst]. rewrite page_bits in B1.
  assert (e ≤ 2 ^ 52) as L' by (rewrite <-Z.shiftl_1_l; done). pose proof (high_fits base pages e Hp E B2 L') as He. clear E Ee L L' e.
  set (hp := Z.min pages HIGH_MAX_PAGES) in *. assert (0 < hp ≤ HIGH_MAX_PAGES ∧ hp ≤ pages) as Hh by (unfold hp, HIGH_MAX_PAGES; lia).
  clearbody hp. split; try (by apply (types_kept s)); try apply spans_ok_nil; cbn [high_pages tail_pages high_base tail_spans]; try lia; done.
Qed.

Lemma allocate_exact_witness :
  let '(s', (st, addr)) := allocate_pages pool_new ALLOCATE_ADDRESS 2 3 POOL_BASE in
  st = EFI_SUCCESS ∧ addr = POOL_BASE ∧ page_state s' (POOL_BASE + 4096) = Some (Some 2).
Proof.
  assert (u64 3 ∧ u64 POOL_BASE ∧ u64 (POOL_BASE + 4096)) as (U1 & U2 & U3) by (repeat split; by vm_compute).
  pose proof (allocate_exact pool_new ALLOCATE_ADDRESS 2 3 POOL_BASE pool_new_wf U1 U2 ltac:(lia)) as H.
  assert ((allocate_pages pool_new ALLOCATE_ADDRESS 2 3 POOL_BASE).2.1 = EFI_SUCCESS) as E by by vm_compute.
  destruct (allocate_pages _ _ _ _ _) as [s' [st addr]]. cbn [fst snd] in E.
  destruct H as (_ & H & _). destruct (H E) as (_ & _ & _ & U & B & _). specialize (B eq_refl). subst addr.
  split_and!; [exact E|reflexivity|]. rewrite (U _ U3), bool_decide_eq_true_2; [reflexivity|].
  split; [by vm_compute|unfold POOL_BASE; lia].
Defined.

Definition one_page : PagePool := mark pool_new Low 7 2 4.

Lemma one_page_wf : pool_wf one_page.
Proof. apply mark_pool_wf; [apply pool_new_wf|lia|by vm_compute]. Qed.

Lemma free_exact_witness :
  let '(s', st) := free_pages_at one_page (POOL_BASE + 7 * 4096) 2 in
  st = EFI_SUCCESS ∧ page_state s' (POOL_BASE + 8 * 4096) = Some None.
Proof.
  assert (u64 (POOL_BASE + 7 * 4096) ∧ u64 (POOL_BASE + 8 * 4096)) as [U1 U2] by (repeat split; by vm_compute).
  pose proof (free_exact one_page (POOL_BASE + 7 * 4096) 2 one_page_wf U1 ltac:(split; [lia|by vm_compute])) as H.
  assert ((free_pages_at one_page (POOL_BASE + 7 * 4096) 2).2 = EFI_SUCCESS) as E by by vm_compute.
  destruct (free_pages_at _ _ _) as [s' st]. cbn [snd] in E. destruct H as (_ & H & _).
  destruct (H E) as (_ & _ & _ & U). split; [exact E|]. rewrite (U _ U2), bool_decide_eq_true_2; [reflexivity|].
  split; [by vm_compute|unfold POOL_BASE; lia].
Defined.

Lemma memory_map_exact_witness :
  advertised (memory_map one_page 0x2000000) (POOL_BASE + 7 * 4096) 4 ∧
  advertised (memory_map one_page 0x2000000) POOL_BASE EFI_CONVENTIONAL_MEMORY.
Proof.
  assert (length (memory_map one_page 0x2000000) < MAX_DESCRIPTORS)%nat as L by (apply Nat.ltb_lt; by vm_compute).
  assert (u64 (POOL_BASE + 7 * 4096) ∧ u64 POOL_BASE) as [U1 U2] by (repeat split; by vm_compute).
  assert (high_pages one_page ≠ 0 → 0x2000000 ≤ high_base one_page) as Hs by by vm_compute.
  split.
  - apply (proj2 (proj2 (memory_map_exact one_page 0x2000000 _ one_page_wf Hs U1 ltac:(by vm_compute))) L (Some 4)).
    by vm_compute.
  - apply (proj2 (proj2 (memory_map_exact one_page 0x2000000 _ one_page_wf Hs U2 ltac:(by vm_compute))) L None).
    by vm_compute.
Defined.

Lemma conventional_allocatable_witness :
  (allocate_pages one_page ALLOCATE_ADDRESS 2 1 BELOW1M_BASE).2 = (EFI_SUCCESS, BELOW1M_BASE).
Proof.
  apply (conventional_allocatable one_page 0x2000000);
    [apply one_page_wf|by vm_compute|split; by vm_compute|by vm_compute|split; by vm_compute| |].
  - intros _. split; [|by vm_compute]. exists NO_SPAN. split; [|reflexivity]. apply list_elem_of_In. by left.
  - exists (mkRun 7 4096 158). split; [apply list_elem_of_In; vm_compute; right; left; reflexivity|].
    split; [reflexivity|]. split; by vm_compute.
Defined.

(** Every other page of the tail's first sixteen taken, one span each. *)
Definition eight_spans : list TailSpan := (λ k, mkSpan k 1 2 true) <$> [0; 2; 4; 6; 8; 10; 12; 14].

Definition full_spans : PagePool := set_spans (set_high_region pool_new 0x2000000 65600).1 eight_spans.

Lemma full_spans_wf : pool_wf full_spans.
Proof.
  assert (pool_wf (set_high_region pool_new 0x2000000 65600).1) as W.
  { apply set_high_region_wf; [apply pool_new_wf|lia|]. intros i _. by rewrite is_used_bit, Z.bits_0. }
  assert (spans_ok 64 eight_spans) as O.
  { repeat (apply spans_ok_cons; [|cbn; lia|cbn; lia|cbn; lia|done|by vm_compute|
      intros y Hy; repeat (apply elem_of_cons in Hy as [->|Hy]; [cbn; lia|]); by apply elem_of_nil in Hy]).
    apply spans_ok_nil. }
  destruct W. by split.
Qed.

Lemma tail_slots_exhausted_witness :
  page_state full_spans (tail_base full_spans + 1 * 4096) = Some None ∧
  (allocate_pages full_spans ALLOCATE_ADDRESS 2 1 (tail_base full_spans + 1 * 4096)).2.1 ≠ EFI_SUCCESS.
Proof.
  split; [by vm_compute|]. apply tail_slots_exhausted; [apply full_spans_wf|split; by vm_compute|].
  intros (sp & Hs & U). repeat (apply elem_of_cons in Hs as [->|Hs]; [discriminate U|]). by apply elem_of_nil in Hs.
Defined.

End FwMem.
