(* ===== verification/PeLoad.v ===== *)
(** * The PE32+ image loader

    [raynu_f/pe.rs]: the parser of a UEFI application's headers and the loader that
    lays it out in guest memory: headers and sections copied to their addresses, the
    rest cleared, and the 64-bit base relocations applied. Both run in the
    hypervisor on bytes a guest's disk supplies, so the loader is modelled on every
    byte string, with the panics a slice out of bounds would raise as an outcome of
    their own. *)

From S2P Require Import Prelude Bytes.

Module Pe.

(** ** Constants and data *)

Definition DOS_E_LFANEW_OFF : Z := 0x3C.
Definition COFF_HEADER_SIZE : Z := 20.
Definition MACHINE_AMD64 : Z := 0x8664.
Definition PE32PLUS_MAGIC : Z := 0x20B.
Definition DIR_BASERELOC : Z := 5.
Definition OPT_DATA_DIRS_OFF : Z := 112.
Definition SECTION_HEADER_SIZE : Z := 40.
Definition REL_ABSOLUTE : Z := 0.
Definition REL_DIR64 : Z := 10.
Definition MAX_IMAGE_BYTES : Z := 64 * 1024 * 1024.

Inductive PeError :=
| TooShort | NotMz | NotPe | NotAmd64 | NotPe32Plus | BadSectionAlignment | ImageTooLarge
| SectionOutOfFile | SectionOutOfImage | HeadersOutOfFile | EntryOutOfImage | DestinationTooSmall
| RelocOutOfImage | RelocUnsupportedType (t : Z) | LoadBaseUnaligned.

#[global] Instance PeError_eq_dec : EqDecision PeError.
Proof. solve_decision. Defined.

Record PeImage := mkPe {
  machine : Z; num_sections : Z; section_table_off : Z; entry_rva : Z; image_base : Z;
  section_alignment : Z; file_alignment : Z; size_of_image : Z; size_of_headers : Z;
  subsystem : Z; reloc_dir : Z * Z;
}.

Record Section_ := mkSection {
  sec_name : list Z; virtual_size : Z; virtual_address : Z; size_of_raw_data : Z;
  pointer_to_raw_data : Z; characteristics : Z;
}.

Record Loaded := mkLoaded {
  l_load_base : Z; l_entry : Z; l_size_of_image : Z; l_sections_loaded : Z; l_relocs_applied : Z;
}.

(** ** Little-endian fields *)

Definition get (b : list Z) (off : Z) : option Z := b !! Z.to_nat off.

Definition u16_at (b : list Z) (off : Z) : option Z :=
  b0 ← get b off; b1 ← get b (off + 1); Some (b0 + 256 * b1).

Definition u32_at (b : list Z) (off : Z) : option Z :=
  b0 ← get b off; b1 ← get b (off + 1); b2 ← get b (off + 2); b3 ← get b (off + 3);
  Some (b0 + 256 * (b1 + 256 * (b2 + 256 * b3))).

Definition u64_at (b : list Z) (off : Z) : option Z :=
  lo ← u32_at b off; hi ← u32_at b (off + 4); Some (Z.lor lo (Z.shiftl hi 32)).

(** ** Headers *)

(** [u32::is_power_of_two] *)
Definition is_pow2 (x : Z) : bool := (0 <? x) && (Z.land x (x - 1) =? 0).

(** The base-relocation entry of the data directories, if the header has it. *)
Definition reloc_dir_of (file : list Z) (opt size_of_opt num_dirs : Z) : result (Z * Z) PeError :=
  if DIR_BASERELOC <? num_dirs then
    let d := opt + OPT_DATA_DIRS_OFF + DIR_BASERELOC * 8 in
    if d + 8 <=? opt + size_of_opt then
      let? a := ok_or (u32_at file d) TooShort in
      let? b := ok_or (u32_at file (d + 4)) TooShort in
      Ok (a, b)
    else Ok (0, 0)
  else Ok (0, 0).

(** From the optional header on. *)
Definition parse_opt (file : list Z) (machine num_sections size_of_opt opt : Z) : result PeImage PeError :=
  let? magic := ok_or (u16_at file opt) TooShort in
  if negb (magic =? PE32PLUS_MAGIC) then Err NotPe32Plus
  else
    let? entry_rva := ok_or (u32_at file (opt + 16)) TooShort in
    let? image_base := ok_or (u64_at file (opt + 24)) TooShort in
    let? section_alignment := ok_or (u32_at file (opt + 32)) TooShort in
    let? file_alignment := ok_or (u32_at file (opt + 36)) TooShort in
    let? size_of_image := ok_or (u32_at file (opt + 56)) TooShort in
    let? size_of_headers := ok_or (u32_at file (opt + 60)) TooShort in
    let? subsystem := ok_or (u16_at file (opt + 68)) TooShort in
    let? num_dirs := ok_or (u32_at file (opt + 108)) TooShort in
    if (section_alignment =? 0) || negb (is_pow2 section_alignment) then Err BadSectionAlignment
    else if (size_of_image =? 0) || (MAX_IMAGE_BYTES <? size_of_image) then Err ImageTooLarge
    else if blen file <? size_of_headers then Err HeadersOutOfFile
    else if size_of_image <=? entry_rva then Err EntryOutOfImage
    else
      let? reloc_dir := reloc_dir_of file opt size_of_opt num_dirs in
      let section_table_off := opt + size_of_opt in
      if blen file <? section_table_off + num_sections * SECTION_HEADER_SIZE then Err SectionOutOfFile
      else
        Ok (mkPe machine num_sections section_table_off entry_rva image_base section_alignment
              file_alignment size_of_image size_of_headers subsystem reloc_dir).

(** A slice [&l[off..off + n]]; [None] is the panic of one out of range. *)
Definition range (l : list Z) (off n : Z) : option (list Z) :=
  if blen l <? off + n then None else Some (slice off n l).

(** [b"MZ"], [b"PE\0\0"]; [None] is a panic here and below. *)
Definition parse_pe32plus (file : list Z) : option (result PeImage PeError) :=
  if blen file <? 0x40 then Some (Err TooShort)
  else
    mz ← range file 0 2;
    if negb (bool_decide (mz = [0x4D; 0x5A])) then Some (Err NotMz)
    else
      match u32_at file DOS_E_LFANEW_OFF with
      | None => Some (Err TooShort)
      | Some pe_off =>
          if blen file <? pe_off + 4 + COFF_HEADER_SIZE then Some (Err NotPe)
          else
            sig ← range file pe_off 4;
            if negb (bool_decide (sig = [0x50; 0x45; 0; 0])) then Some (Err NotPe)
            else
              let coff := pe_off + 4 in
              Some
                (let? machine := ok_or (u16_at file coff) TooShort in
                 if negb (machine =? MACHINE_AMD64) then Err NotAmd64
                 else
                   let? num_sections := ok_or (u16_at file (coff + 2)) TooShort in
                   let? size_of_opt := ok_or (u16_at file (coff + 16)) TooShort in
                   let opt := coff + COFF_HEADER_SIZE in
                   if (blen file <? opt + size_of_opt) || (size_of_opt <? OPT_DATA_DIRS_OFF) then Err NotPe32Plus
                   else parse_opt file machine num_sections size_of_opt opt)
      end.

Definition section (file : list Z) (pe : PeImage) (i : Z) : option (option Section_) :=
  if num_sections pe <=? i then Some None
  else
    let off := section_table_off pe + i * SECTION_HEADER_SIZE in
    if blen file <? off + 8 then Some None
    else
      name ← range file off 8;
      Some
        (virtual_size ← u32_at file (off + 8);
         virtual_address ← u32_at file (off + 12);
         size_of_raw_data ← u32_at file (off + 16);
         pointer_to_raw_data ← u32_at file (off + 20);
         characteristics ← u32_at file (off + 36);
         Some (mkSection name virtual_size virtual_address size_of_raw_data pointer_to_raw_data characteristics)).

(** ** Loading *)

(** [dst[d..d + n].copy_from_slice(&src[f..f + n])] *)
Definition copy_slice (dst : list Z) (d n : Z) (src : list Z) (f : Z) : option (list Z) :=
  bs ← range src f n; if blen dst <? d + n then None else Some (splice d bs dst).

(** The section loop; [img] is the first [image_len] bytes of the destination. *)
Fixpoint load_sections (file : list Z) (pe : PeImage) (img : list Z) (loaded : Z) (ks : list Z)
    : option (list Z * result Z PeError) :=
  match ks with
  | [] => Some (img, Ok loaded)
  | i :: ks =>
      match section file pe i with
      | None => None
      | Some None => Some (img, Err SectionOutOfFile)
      | Some (Some s) =>
          let image_len := size_of_image pe in
          let va := virtual_address s in
          let vsz := virtual_size s in
          let raw := size_of_raw_data s in
          let src := pointer_to_raw_data s in
          if (image_len <=? va) || (image_len <? sat_add64 va (Z.max vsz raw))
          then Some (img, Err SectionOutOfImage)
          else
            let copy := Z.min raw (Z.max vsz raw) in
            if 0 <? copy then
              if blen file <? sat_add64 src copy then Some (img, Err SectionOutOfFile)
              else
                match copy_slice img va copy file src with
                | None => None
                | Some img => load_sections file pe img (loaded + 1) ks
                end
            else load_sections file pe img (loaded + 1) ks
      end
  end.

(** The entries of one relocation block, at [e], [e + 2], ... *)
Fixpoint reloc_entries (n : nat) (img : list Z) (image_len page_rva delta e applied : Z)
    : option (list Z * result Z PeError) :=
  match n with
  | O => Some (img, Ok applied)
  | S n =>
      match u16_at img e with
      | None => Some (img, Err RelocOutOfImage)
      | Some entry =>
          let typ := Z.shiftr entry 12 in
          let at_ := page_rva + Z.land entry 0xfff in
          if typ =? REL_ABSOLUTE then reloc_entries n img image_len page_rva delta (e + 2) applied
          else if typ =? REL_DIR64 then
            if image_len <? at_ + 8 then Some (img, Err RelocOutOfImage)
            else
              match u64_at img at_ with
              | None => Some (img, Err RelocOutOfImage)
              | Some v =>
                  match copy_slice img at_ 8 (to_le 8 (v ⊞ delta)) 0 with
                  | None => None
                  | Some img => reloc_entries n img image_len page_rva delta (e + 2) (applied + 1)
                  end
              end
          else Some (img, Err (RelocUnsupportedType typ))
      end
  end.

(** The block loop; the outer [None] when the fuel runs out, the inner one a panic. *)
Fixpoint reloc_blocks (fuel : nat) (img : list Z) (image_len delta off e applied : Z)
    : option (option (list Z * result Z PeError)) :=
  match fuel with
  | O => None
  | S fuel =>
      if off + 8 <=? e then
        match u32_at img off, u32_at img (off + 4) with
        | Some page_rva, Some block =>
            if (block <? 8) || (e <? off + block) then Some (Some (img, Err RelocOutOfImage))
            else
              match reloc_entries (Z.to_nat ((block - 8) / 2)) img image_len page_rva delta (off + 8) applied with
              | None => Some None
              | Some (img, Err x) => Some (Some (img, Err x))
              | Some (img, Ok applied) => reloc_blocks fuel img image_len delta (off + block) e applied
              end
        | _, _ => Some (Some (img, Err RelocOutOfImage))
        end
      else Some (Some (img, Ok applied))
  end.

Definition relocate (img : list Z) (pe : PeImage) (delta : Z) : option (option (list Z * result Z PeError)) :=
  let '(rd_rva, rd_size) := reloc_dir pe in
  if negb (delta =? 0) && negb (rd_size =? 0) then
    let e := sat_add64 rd_rva rd_size in
    if size_of_image pe <? e then Some (Some (img, Err RelocOutOfImage))
    else reloc_blocks (S (Z.to_nat (rd_size / 8))) img (size_of_image pe) delta rd_rva e 0
  else Some (Some (img, Ok 0)).

(** What a call does: it returns, with the destination as it then is; a slice is
    out of bounds and the processor panics; or the relocation loop does not end
    within its fuel. *)
Inductive Outcome :=
| Returns (dst : list Z) (r : result Loaded PeError)
| Panics
| Spins.

Definition load_pe32plus (file : list Z) (load_base : Z) (dst : list Z) : Outcome :=
  match parse_pe32plus file with
  | None => Panics
  | Some (Err x) => Returns dst (Err x)
  | Some (Ok pe) =>
      if negb (Z.land load_base 0xfff =? 0) then Returns dst (Err LoadBaseUnaligned)
      else
        let image_len := size_of_image pe in
        if blen dst <? image_len then Returns dst (Err DestinationTooSmall)
        else
          let rest := drop (Z.to_nat image_len) dst in
          let img := replicate (Z.to_nat image_len) 0 in
          let hdr := size_of_headers pe in
          match copy_slice img 0 hdr file 0 with
          | None => Panics
          | Some img =>
              match load_sections file pe img 0 (seqZ 0 (num_sections pe)) with
              | None => Panics
              | Some (img, Err x) => Returns (img ++ rest) (Err x)
              | Some (img, Ok loaded) =>
                  match relocate img pe (load_base ⊟ image_base pe) with
                  | None => Spins
                  | Some None => Panics
                  | Some (Some (img, Err x)) => Returns (img ++ rest) (Err x)
                  | Some (Some (img, Ok applied)) =>
                      Returns (img ++ rest)
                        (Ok (mkLoaded load_base (load_base ⊞ entry_rva pe) image_len loaded applied))
                  end
              end
          end
  end.

(** ** Bytes *)

Lemma get_lookup b i : 0 ≤ i → get b i = None ↔ blen b ≤ i.
Proof. intros Hi. unfold get, blen. rewrite lookup_ge_None. lia. Qed.

Lemma get_Some b i : 0 ≤ i < blen b → ∃ x, get b i = Some x.
Proof. intros Hi. destruct (get b i) as [x|] eqn:E; [by exists x|]. apply get_lookup in E; lia. Qed.

Lemma get_splice off bs l i : 0 ≤ off → off + blen bs ≤ blen l → 0 ≤ i →
  get (splice off bs l) i = if (off <=? i) && (i <? off + blen bs) then get bs (i - off) else get l i.
Proof.
  intros Ho Hle Hi. unfold get, splice, blen in *. destruct (Z.leb_spec off i); cbn [andb].
  - rewrite lookup_app_r by (rewrite length_take; lia). rewrite length_take.
    replace (Z.to_nat i - Z.to_nat off `min` length l)%nat with (Z.to_nat (i - off)) by lia.
    destruct (Z.ltb_spec i (off + Z.of_nat (length bs))).
    + by rewrite lookup_app_l by lia.
    + rewrite lookup_app_r by lia. rewrite lookup_drop. f_equal. lia.
  - rewrite lookup_app_l by (rewrite length_take; lia). by rewrite lookup_take_lt by lia.
Qed.

Lemma get_slice off n l i : 0 ≤ off → 0 ≤ i < n → get (slice off n l) i = get l (off + i).
Proof.
  intros Ho Hi. unfold get, slice. rewrite lookup_take_lt, lookup_drop by lia. f_equal. lia.
Qed.

Lemma range_in l off n : off + n ≤ blen l → range l off n = Some (slice off n l).
Proof. intros H. unfold range. by rewrite (proj2 (Z.ltb_ge _ _)) by lia. Qed.

Lemma copy_slice_in dst d n src f : d + n ≤ blen dst → f + n ≤ blen src →
  copy_slice dst d n src f = Some (splice d (slice f n src) dst).
Proof. intros D S. unfold copy_slice. rewrite range_in by done. cbn. by rewrite (proj2 (Z.ltb_ge _ _)) by lia. Qed.

(** Reads see only their own bytes. *)
Definition agree (a b : list Z) (lo hi : Z) : Prop := ∀ i, lo ≤ i < hi → get a i = get b i.

Lemma u16_agree a b off : agree a b off (off + 2) → u16_at a off = u16_at b off.
Proof. intros H. unfold u16_at. by rewrite !H by lia. Qed.

Lemma u32_agree a b off : agree a b off (off + 4) → u32_at a off = u32_at b off.
Proof. intros H. unfold u32_at. by rewrite !H by lia. Qed.

Lemma u64_agree a b off : agree a b off (off + 8) → u64_at a off = u64_at b off.
Proof.
  intros H. unfold u64_at. rewrite (u32_agree a b off), (u32_agree a b (off + 4)); [done|..];
    intros i Hi; apply H; lia.
Qed.

Lemma agree_sub a b lo hi lo' hi' : agree a b lo hi → lo ≤ lo' → hi' ≤ hi → agree a b lo' hi'.
Proof. intros H ?? i Hi. apply H. lia. Qed.

Lemma u32_bytes b off : Forall is_byte b → ∀ v, u32_at b off = Some v → 0 ≤ v < 2 ^ 32.
Proof.
  intros F v H. unfold u32_at, get in H.
  destruct (b !! Z.to_nat off) as [b0|] eqn:E0; [|done]. destruct (b !! Z.to_nat (off + 1)) as [b1|] eqn:E1; [|done].
  destruct (b !! Z.to_nat (off + 2)) as [b2|] eqn:E2; [|done]. destruct (b !! Z.to_nat (off + 3)) as [b3|] eqn:E3; [|done].
  injection H as <-. rewrite Forall_lookup in F. apply F in E0, E1, E2, E3. unfold is_byte in *.
  change (2 ^ 32) with 4294967296. lia.
Qed.

Lemma u16_bytes b off : Forall is_byte b → ∀ v, u16_at b off = Some v → 0 ≤ v < 2 ^ 16.
Proof.
  intros F v H. unfold u16_at, get in H.
  destruct (b !! Z.to_nat off) as [b0|] eqn:E0; [|done]. destruct (b !! Z.to_nat (off + 1)) as [b1|] eqn:E1; [|done].
  injection H as <-. rewrite Forall_lookup in F. apply F in E0, E1. unfold is_byte in *.
  change (2 ^ 16) with 65536. lia.
Qed.

(** ** What the parser promises *)

Record pe_wf (file : list Z) (pe : PeImage) : Prop := {
  pf_image : 0 < size_of_image pe ≤ MAX_IMAGE_BYTES;
  pf_headers : 0 ≤ size_of_headers pe ≤ blen file;
  pf_entry : 0 ≤ entry_rva pe < size_of_image pe;
  pf_sections : 0 ≤ num_sections pe;
  pf_table : 0 ≤ section_table_off pe ∧ section_table_off pe + num_sections pe * SECTION_HEADER_SIZE ≤ blen file;
  pf_dir : 0 ≤ (reloc_dir pe).1 < 2 ^ 32 ∧ 0 ≤ (reloc_dir pe).2 < 2 ^ 32;
}.

(** One more field of a chain of reads. *)
Lemma bind_ok {A B E} (o : option A) (x : E) (k : A → result B E) b :
  result_bind (ok_or o x) k = Ok b → ∃ a, o = Some a ∧ k a = Ok b.
Proof. destruct o as [a|]; cbn; [|done]. intros H. by exists a. Qed.

Ltac field H v E := apply bind_ok in H as (v & E & H).

Lemma reloc_dir_range file opt so nd d : Forall is_byte file → reloc_dir_of file opt so nd = Ok d →
  0 ≤ d.1 < 2 ^ 32 ∧ 0 ≤ d.2 < 2 ^ 32.
Proof.
  intros F H. unfold reloc_dir_of in H. destruct (DIR_BASERELOC <? nd); [|by injection H as <-].
  destruct (_ <=? _); [|by injection H as <-]. field H a Ea. field H b Eb. injection H as <-.
  by split; eapply u32_bytes.
Qed.

Lemma parse_opt_wf file mc ns so opt pe : Forall is_byte file → 0 ≤ ns → 0 ≤ so → 0 ≤ opt →
  parse_opt file mc ns so opt = Ok pe → pe_wf file pe.
Proof.
  intros F Hns Hso Hopt H. unfold parse_opt in H. field H magic Em. destruct (negb _) in H; [done|].
  field H er E1. field H ib E2. field H sa E3. field H fa E4. field H si E5. field H sh E6. field H ss E7.
  field H nd E8. destruct (_ || _) in H; [done|]. destruct (_ || _) eqn:B1 in H; [done|].
  destruct (Z.ltb_spec (blen file) sh); [done|]. destruct (Z.leb_spec si er); [done|].
  destruct (reloc_dir_of file opt so nd) as [d|] eqn:Ed; [|done]. cbn [result_bind] in H.
  destruct (Z.ltb_spec (blen file) (opt + so + ns * SECTION_HEADER_SIZE)); [done|]. injection H as <-.
  apply orb_false_iff in B1 as [B1%Z.eqb_neq B2%Z.ltb_ge].
  apply (u32_bytes _ _ F) in E1, E5, E6. apply (reloc_dir_range _ _ _ _ _ F) in Ed.
  split; cbn; try done; lia.
Qed.

Lemma parse_wf file pe : Forall is_byte file → parse_pe32plus file = Some (Ok pe) → pe_wf file pe.
Proof.
  intros F H. unfold parse_pe32plus in H. destruct (_ <? _) in H; [done|]. destruct (range file 0 2); [|done].
  cbn [mbind option_bind] in H. destruct (negb _) in H; [done|]. destruct (u32_at file DOS_E_LFANEW_OFF) as [po|] eqn:E1; [|done].
  destruct (_ <? _) in H; [done|]. destruct (range file po 4); [|done]. cbn [mbind option_bind] in H.
  destruct (negb _) in H; [done|]. cbv zeta in H. apply (inj Some) in H. field H mc E2. destruct (negb _) in H; [done|].
  field H ns E3. field H so E4. destruct (_ || _) in H; [done|].
  apply (u32_bytes _ _ F) in E1. apply (u16_bytes _ _ F) in E3, E4.
  eapply (parse_opt_wf file); [done|..|exact H]; unfold COFF_HEADER_SIZE; lia.
Qed.

(** No slice of the parser is out of range. *)
Lemma parse_total file : ∃ r, parse_pe32plus file = Some r.
Proof.
  unfold parse_pe32plus. destruct (Z.ltb_spec (blen file) 0x40); [by eexists|]. rewrite range_in by lia.
  cbn [mbind option_bind]. destruct (negb _); [by eexists|]. destruct (u32_at file DOS_E_LFANEW_OFF) as [po|]; [|by eexists].
  destruct (Z.ltb_spec (blen file) (po + 4 + COFF_HEADER_SIZE)) as [|L]; [by eexists|]. unfold COFF_HEADER_SIZE in L.
  rewrite range_in by lia. cbn [mbind option_bind]. destruct (negb _); by eexists.
Qed.

Lemma parse_len file pe : parse_pe32plus file = Some (Ok pe) → 0x40 ≤ blen file.
Proof. unfold parse_pe32plus. destruct (Z.ltb_spec (blen file) 0x40); [done|]. by intros _. Qed.

Lemma u32_total b off : 0 ≤ off → off + 4 ≤ blen b → ∃ v, u32_at b off = Some v.
Proof.
  intros Ho Hl. unfold u32_at. destruct (get_Some b off) as [? ->]; [lia|].
  destruct (get_Some b (off + 1)) as [? ->]; [lia|]. destruct (get_Some b (off + 2)) as [? ->]; [lia|].
  destruct (get_Some b (off + 3)) as [? ->]; [lia|]. by eexists.
Qed.

Lemma u64_total b off : 0 ≤ off → off + 8 ≤ blen b → ∃ v, u64_at b off = Some v.
Proof.
  intros Ho Hl. unfold u64_at. destruct (u32_total b off) as [? ->]; [lia..|].
  destruct (u32_total b (off + 4)) as [? ->]; [lia..|]. by eexists.
Qed.

Record sec_wf (s : Section_) : Prop := {
  sf_vs : 0 ≤ virtual_size s < 2 ^ 32;
  sf_va : 0 ≤ virtual_address s < 2 ^ 32;
  sf_raw : 0 ≤ size_of_raw_data s < 2 ^ 32;
  sf_ptr : 0 ≤ pointer_to_raw_data s < 2 ^ 32;
}.

(** Every section header of a parsed file can be read. *)
Lemma section_total file pe i : Forall is_byte file → pe_wf file pe → 0 ≤ i < num_sections pe →
  ∃ s, section file pe i = Some (Some s) ∧ sec_wf s.
Proof.
  intros F W Hi. destruct (pf_table _ _ W) as [T0 T1]. unfold SECTION_HEADER_SIZE in T1. unfold section, SECTION_HEADER_SIZE.
  rewrite (proj2 (Z.leb_gt _ _)) by lia. cbv zeta. set (off := section_table_off pe + i * 40).
  assert (0 ≤ off ∧ off + 40 ≤ blen file) as [O0 O1] by (unfold off; nia).
  rewrite (proj2 (Z.ltb_ge _ _)) by lia. rewrite range_in by lia.
  destruct (u32_total file (off + 8)) as [vs E1]; [lia..|]. destruct (u32_total file (off + 12)) as [va E2]; [lia..|].
  destruct (u32_total file (off + 16)) as [raw E3]; [lia..|]. destruct (u32_total file (off + 20)) as [ptr E4]; [lia..|].
  destruct (u32_total file (off + 36)) as [ch E5]; [lia..|].
  rewrite E1, E2, E3, E4, E5. cbn. eexists. split; [done|].
  apply (u32_bytes _ _ F) in E1, E2, E3, E4. by split.
Qed.

(** ** Sections *)

Definition sec_fits (file : list Z) (image_len : Z) (s : Section_) : Prop :=
  virtual_address s < image_len ∧
  virtual_address s + Z.max (virtual_size s) (size_of_raw_data s) ≤ image_len ∧
  (0 < size_of_raw_data s → pointer_to_raw_data s + size_of_raw_data s ≤ blen file).

(** The image with the raw data of [s] in place. *)
Definition put (file : list Z) (s : Section_) (img : list Z) : list Z :=
  if 0 <? size_of_raw_data s
  then splice (virtual_address s) (slice (pointer_to_raw_data s) (size_of_raw_data s) file) img
  else img.

Lemma load_sections_step file pe img loaded i ks s : section file pe i = Some (Some s) → sec_wf s →
  blen img = size_of_image pe →
  (sec_fits file (size_of_image pe) s ∧
   load_sections file pe img loaded (i :: ks) = load_sections file pe (put file s img) (loaded + 1) ks) ∨
  (¬ sec_fits file (size_of_image pe) s ∧ ∃ x, load_sections file pe img loaded (i :: ks) = Some (img, Err x)).
Proof.
  intros E [H1 H2 H3 H4] L. change (2 ^ 32) with 4294967296 in *. cbn [load_sections]. rewrite E. cbv zeta.
  assert (∀ a b, 0 ≤ a < 4294967296 → 0 ≤ b < 4294967296 → sat_add64 a b = a + b) as Sat by (intros; mlia).
  rewrite Sat, (Z.min_l (size_of_raw_data s)) by lia. unfold sec_fits, put.
  destruct ((size_of_image pe <=? virtual_address s) || _) eqn:B; [right; split; [lia|by eexists]|].
  destruct (Z.ltb_spec 0 (size_of_raw_data s)); [|left; split; [lia|done]].
  rewrite Sat by lia. destruct (Z.ltb_spec (blen file) (pointer_to_raw_data s + size_of_raw_data s)).
  - right. split; [lia|by eexists].
  - left. rewrite copy_slice_in by lia. split; [lia|done].
Qed.

Lemma blen_put file s img n : sec_wf s → sec_fits file n s → blen img = n → blen (put file s img) = n.
Proof.
  intros [H1 H2 H3 H4] (F1 & F2 & F3) <-. unfold put. destruct (Z.ltb_spec 0 (size_of_raw_data s)); [|done].
  apply blen_splice; [lia|]. rewrite blen_slice by lia. lia.
Qed.

(** The byte a section puts at [i], if its raw data reaches there. *)
Definition section_byte (file : list Z) (s : Section_) (i : Z) : option Z :=
  if (virtual_address s <=? i) && (i <? virtual_address s + size_of_raw_data s)
  then get file (pointer_to_raw_data s + (i - virtual_address s)) else None.

Lemma get_put file s img i : sec_wf s → sec_fits file (blen img) s → 0 ≤ i →
  get (put file s img) i = match section_byte file s i with Some b => Some b | None => get img i end.
Proof.
  intros [H1 H2 H3 H4] (F1 & F2 & F3) Hi. unfold put, section_byte. destruct (Z.ltb_spec 0 (size_of_raw_data s)).
  - assert (blen (slice (pointer_to_raw_data s) (size_of_raw_data s) file) = size_of_raw_data s) as L.
    { apply blen_slice; lia. }
    rewrite get_splice by lia. rewrite L. destruct (_ && _) eqn:B; [|done].
    rewrite get_slice by lia. destruct (get_Some file (pointer_to_raw_data s + (i - virtual_address s))) as [x ->]; [lia|done].
  - replace ((virtual_address s <=? i) && (i <? virtual_address s + size_of_raw_data s)) with false by lia. done.
Qed.

(** The byte of the laid-out image at [i]: from the last section that covers it,
    else from the headers, else zero. *)
Definition covering (file : list Z) (pe : PeImage) (i k : Z) : option Z :=
  s ← mjoin (section file pe k); section_byte file s i.

Definition layout (file : list Z) (pe : PeImage) (i : Z) : Z :=
  match find_map (covering file pe i) (rev (seqZ 0 (num_sections pe))) with
  | Some b => b
  | None => if i <? size_of_headers pe then default 0 (get file i) else 0
  end.

Definition layout_img (file : list Z) (pe : PeImage) : list Z := layout file pe <$> seqZ 0 (size_of_image pe).

Section Layout.
Context (file : list Z) (pe : PeImage) (F : Forall is_byte file) (W : pe_wf file pe).

Lemma put_bytes s img : Forall is_byte img → Forall is_byte (put file s img).
Proof using F.
  intros H. unfold put. destruct (_ <? _); [|done]. apply Forall_splice; [|done]. by apply Forall_slice.
Qed.

(** The loop either puts every section in place or stops with an error; none of its
    slices is out of range, and the image keeps its length. *)
Lemma load_sections_spec ks : (∀ k, k ∈ ks → 0 ≤ k < num_sections pe) → ∀ img loaded,
  blen img = size_of_image pe → Forall is_byte img →
  ∃ img' r, load_sections file pe img loaded ks = Some (img', r) ∧ blen img' = size_of_image pe ∧ Forall is_byte img' ∧
  match r with
  | Err _ => ∃ k s, k ∈ ks ∧ section file pe k = Some (Some s) ∧ ¬ sec_fits file (size_of_image pe) s
  | Ok n =>
      n = loaded + Z.of_nat (length ks) ∧
      ∀ i, 0 ≤ i → get img' i = match find_map (covering file pe i) (rev ks) with Some b => Some b | None => get img i end
  end.
Proof.
  induction ks as [|k ks IH]; intros Hk img loaded L B; [exists img, (Ok loaded); split_and!; [done..|cbn; lia|done]|].
  destruct (section_total file pe k F W) as (s & Es & Ws); [apply Hk, list_elem_of_here|].
  destruct (load_sections_step file pe img loaded k ks s Es Ws L) as [(Fit & ->)|(N & x & ->)].
  2:{ eexists _, _. split_and!; [done..|]. exists k, s. split_and!; [apply list_elem_of_here|done..]. }
  destruct (IH (λ j Hj, Hk j (list_elem_of_further _ _ _ Hj)) (put file s img) (loaded + 1) (blen_put _ _ _ _ Ws Fit L)
              (put_bytes s img B)) as (img' & r & -> & I1 & I2 & I3).
  exists img', r. split_and!; [done..|]. destruct r as [n|x].
  - destruct I3 as [I3 I4]. split; [cbn; lia|]. intros i Hi. rewrite I4 by done. cbn [rev].
    rewrite find_map_app. destruct (find_map _ (rev ks)); [done|]. cbn [find_map]. unfold covering. rewrite Es. cbn [mjoin option_join mbind option_bind].
    rewrite get_put by (done || by rewrite L). by destruct (section_byte file s i).
  - destruct I3 as (j & t & I4 & I5). exists j, t. split; [by apply list_elem_of_further|done].
Qed.

(** The cleared image with the headers in place. *)
Definition header_img : list Z :=
  splice 0 (take (Z.to_nat (size_of_headers pe)) file) (replicate (Z.to_nat (size_of_image pe)) 0).

Lemma blen_zero : blen (replicate (Z.to_nat (size_of_image pe)) 0) = size_of_image pe.
Proof using W. destruct (pf_image _ _ W). unfold blen. rewrite length_replicate. lia. Qed.

Lemma blen_headers : blen (take (Z.to_nat (size_of_headers pe)) file) = size_of_headers pe.
Proof using W. destruct (pf_headers _ _ W). unfold blen in *. rewrite length_take. lia. Qed.

Lemma header_img_spec : size_of_headers pe ≤ size_of_image pe →
  blen header_img = size_of_image pe ∧ Forall is_byte header_img ∧
  ∀ i, 0 ≤ i < size_of_image pe →
    get header_img i = Some (if i <? size_of_headers pe then default 0 (get file i) else 0).
Proof.
  intros H. pose proof (pf_headers _ _ W) as [H0 H1]. pose proof blen_zero as L0. pose proof blen_headers as L1.
  unfold header_img. split_and!.
  - rewrite blen_splice; lia.
  - apply Forall_splice; [by apply Forall_take|]. apply Forall_replicate. unfold is_byte. lia.
  - intros i Hi. rewrite get_splice by lia. rewrite L1, Z.add_0_l, Z.sub_0_r.
    destruct (Z.ltb_spec i (size_of_headers pe)).
    + rewrite (proj2 (Z.leb_le _ _)) by lia. cbn [andb]. unfold get at 1. rewrite lookup_take_lt by lia.
      destruct (get_Some file i) as [x Ex]; [lia|]. unfold get in *. by rewrite Ex.
    + rewrite andb_false_r. unfold get. rewrite lookup_replicate_2; [done|lia].
Qed.

Lemma section_indices k : k ∈ seqZ 0 (num_sections pe) → 0 ≤ k < num_sections pe.
Proof. rewrite elem_of_seqZ. lia. Qed.

(** When every section fits, the loaded image is the layout. *)
Lemma load_sections_layout : size_of_headers pe ≤ size_of_image pe →
  (∀ k s, 0 ≤ k < num_sections pe → section file pe k = Some (Some s) → sec_fits file (size_of_image pe) s) →
  load_sections file pe header_img 0 (seqZ 0 (num_sections pe)) = Some (layout_img file pe, Ok (num_sections pe)).
Proof.
  intros H Fit. destruct (header_img_spec H) as (L & B & G).
  destruct (load_sections_spec (seqZ 0 (num_sections pe)) section_indices header_img 0 L B) as (img & r & -> & L' & _ & S).
  f_equal. destruct r as [n|x].
  - destruct S as (-> & S). pose proof (pf_sections _ _ W). rewrite length_seqZ. f_equal; [|f_equal; lia].
    apply list_eq. intros i. destruct (decide (Z.of_nat i < size_of_image pe)) as [Hi|Hi].
    + specialize (S (Z.of_nat i) ltac:(lia)). rewrite G in S by lia. unfold get in S. rewrite Nat2Z.id in S. rewrite S.
      unfold layout_img. rewrite list_lookup_fmap, lookup_seqZ_lt by lia. cbn. rewrite Z.add_0_l. unfold layout, get. rewrite Nat2Z.id.
      by destruct (find_map _ _).
    + rewrite !lookup_ge_None_2; [done|..].
      * unfold layout_img. rewrite length_fmap, length_seqZ. lia.
      * unfold blen in L'. lia.
  - destruct S as (k & s & Hk%section_indices & Es & N). destruct N. by apply (Fit k).
Qed.

End Layout.

(** ** Relocations *)

(** One 64-bit word moved by [delta]. *)
Definition patch (delta : Z) (img : list Z) (t : Z) : list Z :=
  match u64_at img t with
  | Some v => splice t (to_le 8 (v ⊞ delta)) img
  | None => img
  end.

(** A word read back from its eight bytes. *)
Lemma u64_of_bytes b off bs : length bs = 8%nat → Forall is_byte bs → (∀ k, 0 ≤ k < 8 → get b (off + k) = get bs k) →
  u64_at b off = Some (from_le bs).
Proof.
  intros L F H. destruct bs as [|b0 [|b1 [|b2 [|b3 [|b4 [|b5 [|b6 [|b7 [|]]]]]]]]]; try done. clear L.
  repeat (apply Forall_cons in F as [? F]). unfold is_byte in *.
  unfold u64_at, u32_at. rewrite <-(Z.add_0_r off) at 1. rewrite <-!Z.add_assoc, !H by lia.
  change (Some (Z.lor (b0 + 256 * (b1 + 256 * (b2 + 256 * b3))) (Z.shiftl (b4 + 256 * (b5 + 256 * (b6 + 256 * b7))) 32))
          = Some (from_le [b0; b1; b2; b3; b4; b5; b6; b7])).
  cbn [from_le]. f_equal. rewrite Z.lor_comm, Z.shiftl_mul_pow2, lor_mul_pow2 by (try done; lia).
  change (2 ^ 32) with 4294967296. lia.
Qed.

Lemma u64_splice img t z : 0 ≤ t → t + 8 ≤ blen img → u64 z → u64_at (splice t (to_le 8 z) img) t = Some z.
Proof.
  intros Ht Hl Uz. rewrite <-(from_to_le_u64 z Uz) at 2.
  apply u64_of_bytes; [apply length_to_le|apply to_le_bytes|]. intros k Hk.
  rewrite get_splice by (rewrite ?blen_to_le; lia). rewrite blen_to_le. change (Z.of_nat 8) with 8.
  replace ((t <=? t + k) && (t + k <? t + 8)) with true by lia.
  by replace (t + k - t) with k by lia.
Qed.

Lemma patch_get delta img t i : 0 ≤ t → t + 8 ≤ blen img → 0 ≤ i → ¬ t ≤ i < t + 8 →
  get (patch delta img t) i = get img i.
Proof.
  intros Ht Hl Hi N. unfold patch. destruct (u64_total img t Ht Hl) as [v ->].
  rewrite get_splice by (rewrite ?blen_to_le; lia). rewrite blen_to_le. change (Z.of_nat 8) with 8.
  by replace ((t <=? i) && (i <? t + 8)) with false by lia.
Qed.

Lemma blen_patch delta img t : 0 ≤ t → t + 8 ≤ blen img → blen (patch delta img t) = blen img.
Proof.
  intros Ht Hl. unfold patch. destruct (u64_at img t); [|done]. apply blen_splice; rewrite ?blen_to_le; lia.
Qed.

Lemma patch_word delta img t v : 0 ≤ t → t + 8 ≤ blen img → u64_at img t = Some v →
  u64_at (patch delta img t) t = Some (v ⊞ delta).
Proof. intros Ht Hl E. unfold patch. rewrite E. apply u64_splice; auto with machine. Qed.

(** The relocation table of an image (PE/COFF 6.6) and the words it names: blocks
    of a page address, a length and 16-bit entries, each padding or a 64-bit
    target inside the image. *)
Inductive entries_at (img : list Z) (page : Z) : nat → Z → list Z → Prop :=
| entries_nil e : entries_at img page 0 e []
| entries_pad n e en ts : u16_at img e = Some en → Z.shiftr en 12 = REL_ABSOLUTE →
    entries_at img page n (e + 2) ts → entries_at img page (S n) e ts
| entries_dir64 n e en ts : u16_at img e = Some en → Z.shiftr en 12 = REL_DIR64 →
    0 ≤ page + Z.land en 0xfff → page + Z.land en 0xfff + 8 ≤ blen img →
    entries_at img page n (e + 2) ts → entries_at img page (S n) e (page + Z.land en 0xfff :: ts).

Inductive blocks_at (img : list Z) : Z → Z → list Z → Prop :=
| blocks_end off e : e < off + 8 → blocks_at img off e []
| blocks_cons off e page block ts ts' : off + 8 ≤ e → u32_at img off = Some page → u32_at img (off + 4) = Some block →
    8 ≤ block → off + block ≤ e → entries_at img page (Z.to_nat ((block - 8) / 2)) (off + 8) ts →
    blocks_at img (off + block) e ts' → blocks_at img off e (ts ++ ts').

(** The words lie in the image and outside [lo, hi). *)
Definition outside (img : list Z) (lo hi : Z) (ts : list Z) : Prop :=
  Forall (λ t, 0 ≤ t ∧ t + 8 ≤ blen img ∧ (t + 8 ≤ lo ∨ hi ≤ t)) ts.

Lemma foldl_patch delta lo hi ts : ∀ img, outside img lo hi ts → 0 ≤ lo →
  blen (foldl (patch delta) img ts) = blen img ∧ agree (foldl (patch delta) img ts) img lo hi.
Proof.
  induction ts as [|t ts IH]; intros img O Hlo; [done|]. apply Forall_cons in O as [(T1 & T2 & T3) O]. cbn [foldl].
  assert (blen (patch delta img t) = blen img) as L by by apply blen_patch.
  destruct (IH (patch delta img t)) as [I1 I2]; [unfold outside in *; by rewrite L|done|].
  split; [by rewrite I1|]. intros i Hi. rewrite I2 by done. apply patch_get; lia.
Qed.

Lemma write_word img t v delta : t + 8 ≤ blen img →
  copy_slice img t 8 (to_le 8 (v ⊞ delta)) 0 = Some (splice t (to_le 8 (v ⊞ delta)) img).
Proof. intros H. by rewrite copy_slice_in by (rewrite ?blen_to_le; lia). Qed.

Lemma reloc_entries_run img0 delta page lo hi n e ts : entries_at img0 page n e ts → ∀ img applied,
  blen img = blen img0 → agree img img0 lo hi → 0 ≤ lo ≤ e → e + 2 * Z.of_nat n ≤ hi → outside img0 lo hi ts →
  reloc_entries n img (blen img0) page delta e applied =
    Some (foldl (patch delta) img ts, Ok (applied + Z.of_nat (length ts))).
Proof.
  induction 1 as [e|n e en ts E T H IH|n e en ts E T P0 P1 H IH]; intros img applied L A He Hh O; cbn [reloc_entries].
  - cbn. do 3 f_equal. lia.
  - rewrite (u16_agree img img0) by (eapply agree_sub; [done|lia..]). rewrite E. cbv zeta. rewrite T. cbn [Z.eqb REL_ABSOLUTE].
    apply IH; try done; lia.
  - rewrite (u16_agree img img0) by (eapply agree_sub; [done|lia..]). rewrite E. cbv zeta. rewrite T.
    apply Forall_cons in O as [(T1 & T2 & T3) O]. change (REL_DIR64 =? REL_ABSOLUTE) with false. rewrite Z.eqb_refl.
    rewrite (proj2 (Z.ltb_ge _ _)) by lia. set (t := page + Z.land en 0xfff) in *.
    destruct (u64_total img t) as [v Ev]; [lia..|]. rewrite Ev. cbn [foldl length].
    rewrite (write_word img t v) by lia.
    replace (splice t (to_le 8 (v ⊞ delta)) img) with (patch delta img t) by (unfold patch; by rewrite Ev).
    rewrite IH; [do 3 f_equal; lia|..|done]; [rewrite blen_patch; lia| |lia|lia].
    intros i Hi. rewrite patch_get by lia. by apply A.
Qed.

Lemma reloc_blocks_run img0 delta lo hi off ts : blocks_at img0 off hi ts → ∀ fuel img applied,
  blen img = blen img0 → agree img img0 lo hi → 0 ≤ lo ≤ off → off ≤ hi → outside img0 lo hi ts →
  (hi - off) / 8 < Z.of_nat fuel →
  reloc_blocks fuel img (blen img0) delta off hi applied =
    Some (Some (foldl (patch delta) img ts, Ok (applied + Z.of_nat (length ts)))).
Proof.
  induction 1 as [off hi H|off hi page block ts ts' H0 E1 E2 H1 H2 He H IH];
    intros [|fuel] img applied L A Ho Hoh O Hf; cbn [reloc_blocks].
  - exfalso. dlia.
  - rewrite (proj2 (Z.leb_gt _ _)) by lia. cbn. do 4 f_equal. lia.
  - exfalso. dlia.
  - rewrite (proj2 (Z.leb_le _ _)) by lia.
    rewrite (u32_agree img img0 off), E1, (u32_agree img img0 (off + 4)), E2 by (eapply agree_sub; [done|lia..]).
    rewrite (proj2 (Z.ltb_ge _ _)), (proj2 (Z.ltb_ge _ _)) by lia. cbn [orb].
    unfold outside in O. apply Forall_app in O as [O1 O2].
    rewrite (reloc_entries_run img0 delta page lo hi _ _ ts); [|done..|lia|dlia|done].
    destruct (foldl_patch delta lo hi ts img) as [P1 P2]; [unfold outside; by rewrite L|lia|].
    rewrite IH; [|congruence| |lia|lia|done|dlia].
    + rewrite foldl_app, length_app. do 4 f_equal. lia.
    + intros i Hi. rewrite P2 by done. by apply A.
Qed.

(** On any image at all the loops return, and keep its bytes and length. *)
Definition same_size (img img' : list Z) : Prop := blen img' = blen img ∧ Forall is_byte img'.

Lemma reloc_entries_safe page delta n : 0 ≤ page → ∀ img e applied, Forall is_byte img →
  ∃ img' r, reloc_entries n img (blen img) page delta e applied = Some (img', r) ∧ same_size img img'.
Proof.
  intros Hp. induction n as [|n IH]; intros img e applied F; cbn [reloc_entries]; [by eexists _, _|].
  destruct (u16_at img e) as [en|]; [|by eexists _, _]. cbv zeta. destruct (_ =? REL_ABSOLUTE); [by apply IH|].
  destruct (_ =? REL_DIR64); [|by eexists _, _]. set (t := page + Z.land en 0xfff).
  assert (0 ≤ t) by (unfold t; pose proof (Z.land_nonneg en 0xfff); lia).
  destruct (Z.ltb_spec (blen img) (t + 8)); [by eexists _, _|]. destruct (u64_at img t) as [v|]; [|by eexists _, _].
  rewrite write_word by lia.
  assert (blen (splice t (to_le 8 (v ⊞ delta)) img) = blen img) as L by (apply blen_splice; rewrite ?blen_to_le; lia).
  rewrite <-L. destruct (IH (splice t (to_le 8 (v ⊞ delta)) img) (e + 2) (applied + 1)) as (img' & r & E & I1 & I2).
  - apply Forall_splice; [apply to_le_bytes|done].
  - exists img', r. split; [exact E|]. split; [congruence|done].
Qed.

Lemma reloc_blocks_safe delta hi fuel : ∀ img off applied, Forall is_byte img → off ≤ hi →
  (hi - off) / 8 < Z.of_nat fuel →
  ∃ img' r, reloc_blocks fuel img (blen img) delta off hi applied = Some (Some (img', r)) ∧ same_size img img'.
Proof.
  induction fuel as [|fuel IH]; intros img off applied F Ho Hf; [exfalso; dlia|]. cbn [reloc_blocks].
  destruct (Z.leb_spec (off + 8) hi); [|by eexists _, _].
  destruct (u32_at img off) as [page|] eqn:E1; [|by eexists _, _]. destruct (u32_at img (off + 4)) as [block|]; [|by eexists _, _].
  destruct ((block <? 8) || (hi <? off + block)) eqn:B; [by eexists _, _|]. apply orb_false_iff in B as [B1%Z.ltb_ge B2%Z.ltb_ge].
  apply (u32_bytes _ _ F) in E1.
  destruct (reloc_entries_safe page delta (Z.to_nat ((block - 8) / 2)) ltac:(lia) img (off + 8) applied F)
    as (img1 & [a|x] & -> & S1 & S2); [|by eexists _, _].
  rewrite <-S1. destruct (IH img1 (off + block) a S2) as (img' & r & -> & I1 & I2); [lia|dlia|].
  eexists _, _. split; [done|]. split; [congruence|done].
Qed.

Lemma relocate_safe img pe delta : Forall is_byte img → blen img = size_of_image pe →
  0 ≤ (reloc_dir pe).1 < 2 ^ 32 → 0 ≤ (reloc_dir pe).2 < 2 ^ 32 →
  ∃ img' r, relocate img pe delta = Some (Some (img', r)) ∧ same_size img img'.
Proof.
  intros F L H1 H2. unfold relocate. destruct (reloc_dir pe) as [rva sz]. cbn [fst snd] in *.
  change (2 ^ 32) with 4294967296 in *. replace (sat_add64 rva sz) with (rva + sz) by mlia.
  destruct (_ && _); [|by eexists _, _]. destruct (_ <? _); [by eexists _, _|]. rewrite <-L.
  apply reloc_blocks_safe; [done|lia|]. rewrite Nat2Z.inj_succ, Z2Nat.id by dlia. dlia.
Qed.

(** Words at least eight bytes apart. *)
Fixpoint separated (ts : list Z) : Prop :=
  match ts with
  | [] => True
  | t :: ts => (∀ u, u ∈ ts → t + 8 ≤ u ∨ u + 8 ≤ t) ∧ separated ts
  end.

Definition in_image (img : list Z) (ts : list Z) : Prop := Forall (λ t, 0 ≤ t ∧ t + 8 ≤ blen img) ts.

Lemma patch_in_image delta img t ts : 0 ≤ t → t + 8 ≤ blen img → in_image img ts → in_image (patch delta img t) ts.
Proof. intros. unfold in_image. by rewrite blen_patch. Qed.

(** Separated words are all moved, and nothing else. *)
Lemma foldl_patch_get delta ts : ∀ img, in_image img ts →
  (∀ i, 0 ≤ i → (∀ t, t ∈ ts → ¬ t ≤ i < t + 8) → get (foldl (patch delta) img ts) i = get img i).
Proof.
  induction ts as [|t ts IH]; intros img I i Hi N; [done|]. apply Forall_cons in I as [[T1 T2] I]. cbn [foldl].
  rewrite IH; [apply patch_get; [done..|apply N, list_elem_of_here]|by apply patch_in_image|done|].
  intros u Hu. by apply N, list_elem_of_further.
Qed.

Lemma foldl_patch_word delta ts : ∀ img, in_image img ts → separated ts → ∀ t, t ∈ ts →
  u64_at (foldl (patch delta) img ts) t = (λ v, v ⊞ delta) <$> u64_at img t.
Proof.
  induction ts as [|x ts IH]; intros img I S t Ht; [by apply elem_of_nil in Ht|].
  apply Forall_cons in I as [[T1 T2] I]. destruct S as [S1 S2]. cbn [foldl].
  pose proof (patch_in_image delta img x ts T1 T2 I) as I'.
  apply elem_of_cons in Ht as [->|Ht].
  - destruct (u64_total img x T1 T2) as [v E]. rewrite E. cbn. rewrite <-(patch_word delta img x v T1 T2 E).
    apply u64_agree. intros i Hi. apply foldl_patch_get; [done|lia|]. intros u Hu. specialize (S1 u Hu). lia.
  - rewrite IH by done. f_equal. apply u64_agree. intros i Hi. specialize (S1 t Ht).
    apply patch_get; [done..| |lia]. unfold in_image in I. rewrite Forall_forall in I. specialize (I t Ht). lia.
Qed.

(** What a rebase by [delta] asks of the image: nothing without a table or with
    [delta] zero, else a table inside the image whose words [ts], in the order the
    table names them, lie in the image and outside the table. *)
Definition relocs_ok (img : list Z) (pe : PeImage) (delta : Z) (ts : list Z) : Prop :=
  let '(rva, sz) := reloc_dir pe in
  if (delta =? 0) || (sz =? 0) then ts = []
  else rva + sz ≤ blen img ∧ blocks_at img rva (rva + sz) ts ∧ outside img rva (rva + sz) ts.

Lemma relocate_run img pe delta ts : blen img = size_of_image pe →
  0 ≤ (reloc_dir pe).1 < 2 ^ 32 → 0 ≤ (reloc_dir pe).2 < 2 ^ 32 → relocs_ok img pe delta ts →
  relocate img pe delta = Some (Some (foldl (patch delta) img ts, Ok (Z.of_nat (length ts)))) ∧ in_image img ts.
Proof.
  intros L H1 H2. unfold relocate, relocs_ok. destruct (reloc_dir pe) as [rva sz]. cbn [fst snd] in *.
  change (2 ^ 32) with 4294967296 in *. replace (sat_add64 rva sz) with (rva + sz) by mlia.
  rewrite <-negb_orb. destruct (_ || _); cbn [negb]; [intros ->; by split; [|apply Forall_nil]|].
  intros (R1 & R2 & R3). rewrite (proj2 (Z.ltb_ge _ _)) by lia. rewrite <-L. split.
  - rewrite (reloc_blocks_run img delta rva (rva + sz) rva ts); try done; [lia|lia|].
    rewrite Nat2Z.inj_succ, Z2Nat.id by dlia. dlia.
  - unfold in_image. eapply Forall_impl; [exact R3|]. cbn. tauto.
Qed.

(** ** The whole load *)

Lemma load_guarded file load_base dst pe : parse_pe32plus file = Some (Ok pe) → Z.land load_base 0xfff = 0 →
  0 ≤ size_of_image pe ≤ blen dst → size_of_headers pe ≤ size_of_image pe → size_of_headers pe ≤ blen file →
  load_pe32plus file load_base dst =
    let rest := drop (Z.to_nat (size_of_image pe)) dst in
    match load_sections file pe (header_img file pe) 0 (seqZ 0 (num_sections pe)) with
    | None => Panics
    | Some (img, Err x) => Returns (img ++ rest) (Err x)
    | Some (img, Ok loaded) =>
        match relocate img pe (load_base ⊟ image_base pe) with
        | None => Spins
        | Some None => Panics
        | Some (Some (img, Err x)) => Returns (img ++ rest) (Err x)
        | Some (Some (img, Ok applied)) =>
            Returns (img ++ rest)
              (Ok (mkLoaded load_base (load_base ⊞ entry_rva pe) (size_of_image pe) loaded applied))
        end
    end.
Proof.
  intros P A D H H'. unfold load_pe32plus. rewrite P, A. cbn [Z.eqb negb]. cbv zeta.
  rewrite (proj2 (Z.ltb_ge _ _)) by lia. rewrite copy_slice_in; [done|unfold blen; rewrite length_replicate; lia|lia].
Qed.

Lemma load_returns file load_base dst pe : Forall is_byte file → parse_pe32plus file = Some (Ok pe) →
  Z.land load_base 0xfff = 0 → size_of_image pe ≤ blen dst → size_of_headers pe ≤ size_of_image pe →
  ∃ img r, load_pe32plus file load_base dst = Returns (img ++ drop (Z.to_nat (size_of_image pe)) dst) r ∧
    blen img = size_of_image pe ∧
    ∀ l, r = Ok l → l_size_of_image l = size_of_image pe ∧ l_entry l = load_base ⊞ entry_rva pe.
Proof.
  intros F P A D H. pose proof (parse_wf file pe F P) as W. pose proof (pf_headers _ _ W) as [_ H'].
  pose proof (pf_image _ _ W) as [I _].
  rewrite (load_guarded file load_base dst pe) by (done || lia). destruct (header_img_spec file pe F W H) as (L & B & _).
  destruct (load_sections_spec file pe F W _ (section_indices pe) (header_img file pe) 0 L B) as (img & r & -> & L1 & B1 & _).
  cbv zeta. destruct r as [n|x]; [|by eexists _, _].
  destruct (pf_dir _ _ W) as [D1 D2].
  destruct (relocate_safe img pe (load_base ⊟ image_base pe) B1 L1 D1 D2) as (img' & r & -> & L2 & _).
  destruct r as [a|x]; eexists _, _; (split; [done|]; split; [congruence|]); intros l E; [|done].
  injection E as <-. done.
Qed.

(** ** Theorems *)

Definition panics_when (file : list Z) (load_base : Z) (dst : list Z) : Prop :=
  ∃ pe, parse_pe32plus file = Some (Ok pe) ∧ load_base mod 4096 = 0 ∧
        size_of_image pe ≤ blen dst ∧ size_of_image pe < size_of_headers pe.

(** C19: On every byte string the loader is contained. The relocation loop ends, and the
    call panics exactly when a file that parses announces headers larger than its
    image: no other slice of the file or of the destination, in the parser, the
    section loop or the relocations, is ever out of range. Otherwise it returns with
    the destination's length kept and every byte past the image untouched, nothing at
    all changed when the file does not parse, and on success an entry point inside
    the image. *)
Theorem pe_load_safe (file : list Z) (load_base : Z) (dst : list Z) : Forall is_byte file →
  (load_pe32plus file load_base dst = Panics ↔ panics_when file load_base dst) ∧
  load_pe32plus file load_base dst ≠ Spins ∧
  ∀ dst' r, load_pe32plus file load_base dst = Returns dst' r →
    blen dst' = blen dst ∧
    (∀ pe, parse_pe32plus file = Some (Ok pe) →
       drop (Z.to_nat (size_of_image pe)) dst' = drop (Z.to_nat (size_of_image pe)) dst) ∧
    (∀ x, parse_pe32plus file = Some (Err x) → dst' = dst ∧ r = Err x) ∧
    (∀ l, r = Ok l → ∃ rva, 0 ≤ rva < l_size_of_image l ∧ l_entry l = load_base ⊞ rva).
Proof.
  intros F. unfold panics_when. rewrite <-land_page.
  destruct (parse_total file) as [[pe|x] P].
  2:{ unfold load_pe32plus. rewrite P. split; [split; [done|by intros (pe & ? & _)]|]. split; [done|].
      intros dst' r [= <- <-]. split_and!; [done|done|by intros ? [= <-]|done]. }
  pose proof (parse_wf file pe F P) as W.
  destruct (decide (Z.land load_base 0xfff = 0)) as [A|A].
  2:{ unfold load_pe32plus. rewrite P, (proj2 (Z.eqb_neq _ _) A). cbn [negb].
      split; [split; [done|by intros (? & _ & ? & _)]|]. split; [done|]. intros dst' r [= <- <-]. by split_and!. }
  destruct (Z.ltb_spec (blen dst) (size_of_image pe)) as [D|D].
  { unfold load_pe32plus. rewrite P, A. cbn [Z.eqb negb]. cbv zeta. rewrite (proj2 (Z.ltb_lt _ _) D).
    split; [split; [done|intros (pe' & [= <-] & _ & ? & _); lia]|]. split; [done|]. intros dst' r [= <- <-]. by split_and!. }
  destruct (Z.ltb_spec (size_of_image pe) (size_of_headers pe)) as [H|H].
  { unfold load_pe32plus. rewrite P, A. cbn [Z.eqb negb]. cbv zeta.
    rewrite (proj2 (Z.ltb_ge _ _) D). unfold copy_slice.
    rewrite range_in by apply W. cbn [mbind option_bind]. rewrite (blen_zero file pe W), (proj2 (Z.ltb_lt _ _)) by lia.
    split; [split; [intros _; by exists pe|done]|]. done. }
  destruct (load_returns file load_base dst pe F P A D H) as (img & r & -> & L & E). rewrite P.
  split; [split; [done|intros (pe' & [= <-] & _ & _ & ?); lia]|]. split; [done|].
  destruct (pf_image _ _ W) as [I _]. intros dst' r' [= <- <-]. unfold blen in *. split_and!.
  - rewrite length_app, length_drop. lia.
  - intros pe' [= <-]. by rewrite drop_app_length' by lia.
  - done.
  - intros l El. destruct (E l El) as [-> ->]. exists (entry_rva pe). split; [apply W|done].
Qed.

(** C20: An image whose headers and sections fit in it, whose raw data lies in the
    file and whose relocation table names words inside the image and outside the
    table is loaded, byte for byte: the load succeeds, and the image is the layout
    with the table's words moved one after the other by the distance from the
    preferred base. So each word the table names apart from the others holds its
    value moved once (a word named twice moves twice), every other byte is that of
    the last section covering it, of the headers, or zero, and the rest of the
    destination is untouched. *)
Theorem pe_load_exact (file : list Z) (load_base : Z) (dst : list Z) (pe : PeImage) (ts : list Z) :
  Forall is_byte file → parse_pe32plus file = Some (Ok pe) → load_base mod 4096 = 0 →
  size_of_image pe ≤ blen dst → size_of_headers pe ≤ size_of_image pe →
  (∀ k s, 0 ≤ k < num_sections pe → section file pe k = Some (Some s) → sec_fits file (size_of_image pe) s) →
  relocs_ok (layout_img file pe) pe (load_base ⊟ image_base pe) ts →
  ∃ img,
    load_pe32plus file load_base dst =
      Returns (img ++ drop (Z.to_nat (size_of_image pe)) dst)
        (Ok (mkLoaded load_base (load_base ⊞ entry_rva pe) (size_of_image pe) (num_sections pe) (Z.of_nat (length ts)))) ∧
    blen img = size_of_image pe ∧
    img = foldl (patch (load_base ⊟ image_base pe)) (layout_img file pe) ts ∧
    (separated ts → ∀ t, t ∈ ts → u64_at img t = (λ v, v ⊞ (load_base ⊟ image_base pe)) <$> u64_at (layout_img file pe) t) ∧
    (∀ i, 0 ≤ i < size_of_image pe → (∀ t, t ∈ ts → ¬ t ≤ i < t + 8) → get img i = Some (layout file pe i)).
Proof.
  intros F P A D H Fit R. pose proof (parse_wf file pe F P) as W. pose proof (pf_headers _ _ W) as [_ H'].
  destruct (pf_dir _ _ W) as [D1 D2]. pose proof (pf_image _ _ W) as [I _].
  assert (blen (layout_img file pe) = size_of_image pe) as L.
  { unfold blen, layout_img. rewrite length_fmap, length_seqZ. lia. }
  destruct (relocate_run (layout_img file pe) pe (load_base ⊟ image_base pe) ts L D1 D2 R) as (E & In).
  rewrite (load_guarded file load_base dst pe) by (done || lia || by rewrite land_page).
  rewrite (load_sections_layout file pe F W H Fit). cbv zeta. rewrite E. eexists. split; [done|].
  split_and!.
  - clear E. assert (outside (layout_img file pe) 0 0 ts) as O.
    { unfold outside. eapply Forall_impl; [exact In|]. cbn. lia. }
    destruct (foldl_patch (load_base ⊟ image_base pe) 0 0 ts _ O) as [-> _]; [lia|done].
  - done.
  - intros Sep. by apply foldl_patch_word.
  - intros i Hi N. rewrite foldl_patch_get by (done || lia). unfold get, layout_img.
    rewrite list_lookup_fmap, lookup_seqZ_lt by lia. cbn. do 2 f_equal. lia.
Qed.

(** ** Witnesses *)

(** A 308-byte image: one section at 320 with a word to relocate and its table. *)
Definition demo_pe (headers : Z) : list Z :=
  foldl (λ l w, splice w.1.1 (to_le w.1.2 w.2) l) (replicate 308 0)
    [(0, 2%nat, 0x5A4D); (0x3C, 4%nat, 0x40); (0x40, 4%nat, 0x4550); (0x44, 2%nat, 0x8664); (0x46, 2%nat, 1);
     (0x54, 2%nat, 160); (0x58, 2%nat, 0x20B); (0x68, 4%nat, 320); (0x70, 8%nat, 0x400000); (0x78, 4%nat, 0x1000);
     (0x7C, 4%nat, 512); (0x90, 4%nat, 512); (0x94, 4%nat, headers); (0x9C, 2%nat, 10); (0xC4, 4%nat, 6);
     (0xF0, 4%nat, 328); (0xF4, 4%nat, 12);
     (0x100, 4%nat, 32); (0x104, 4%nat, 320); (0x108, 4%nat, 20); (0x10C, 4%nat, 288);
     (288, 8%nat, 0x400140); (296, 4%nat, 0); (300, 4%nat, 12); (304, 2%nat, 0xA140)].

Lemma demo_pe_bytes : Forall is_byte (demo_pe 288).
Proof. apply (bool_decide_unpack _). vm_compute. exact I. Qed.

Definition demo_parsed : PeImage := mkPe 0x8664 1 248 320 0x400000 0x1000 512 512 288 10 (328, 12).

Lemma demo_sections k s : 0 ≤ k < num_sections demo_parsed → section (demo_pe 288) demo_parsed k = Some (Some s) →
  sec_fits (demo_pe 288) (size_of_image demo_parsed) s.
Proof.
  intros Hk. cbn in Hk. replace k with 0 by lia. intros E. vm_compute in E. injection E as <-. repeat split; vm_compute; done.
Qed.

Lemma demo_relocs : relocs_ok (layout_img (demo_pe 288) demo_parsed) demo_parsed (0x900000 ⊟ 0x400000) [320].
Proof.
  set (img := layout_img (demo_pe 288) demo_parsed). unfold relocs_ok. cbn [reloc_dir demo_parsed].
  change ((0x900000 ⊟ 0x400000 =? 0) || (12 =? 0)) with false. cbv iota. split_and!; [by vm_compute|..].
  - apply (blocks_cons img 328 340 0 12 [320] []); [lia|by vm_compute|by vm_compute|lia|lia| |apply blocks_end; lia].
    change (Z.to_nat ((12 - 8) / 2)) with 2%nat.
    apply (entries_dir64 img 0 1 336 0xA140 []); [by vm_compute|done|by vm_compute|by vm_compute|].
    apply (entries_pad img 0 0 338 0); [by vm_compute|done|apply entries_nil].
  - apply Forall_singleton. split_and!; [lia|by vm_compute|lia].
Qed.

Lemma pe_load_exact_witness :
  ∃ img, load_pe32plus (demo_pe 288) 0x900000 (replicate 600 7) =
    Returns (img ++ replicate 88 7) (Ok (mkLoaded 0x900000 0x900140 512 1 1)) ∧
    u64_at img 320 = Some 0x900140 ∧ get img 328 = Some 0.
Proof.
  destruct (pe_load_exact (demo_pe 288) 0x900000 (replicate 600 7) demo_parsed [320] demo_pe_bytes
    ltac:(by vm_compute) ltac:(by vm_compute) ltac:(by vm_compute) ltac:(by vm_compute) demo_sections demo_relocs)
    as (img & E & L & _ & R & O).
  exists img. split; [exact E|]. clear E. split.
  - transitivity ((λ v, v ⊞ (0x900000 ⊟ 0x400000)) <$> u64_at (layout_img (demo_pe 288) demo_parsed) 320);
      [apply (λ S, R S 320 (list_elem_of_here _ _))|by vm_compute]. split; [by intros u Hu%elem_of_nil|done].
  - transitivity (Some (layout (demo_pe 288) demo_parsed 328)); [|by vm_compute]. apply O; [by vm_compute|].
    intros t Ht. apply list_elem_of_singleton in Ht as ->. lia.
Defined.

(** An image whose headers are larger than itself: the file is 308 bytes long, the
    image 300. *)
Definition short_pe : list Z := splice 0x94 (to_le 4 304) (splice 0x90 (to_le 4 300) (splice 0x68 (to_le 4 0) (demo_pe 288))).

Lemma pe_load_safe_witness : load_pe32plus short_pe 0x900000 (replicate 600 7) = Panics.
Proof.
  apply (pe_load_safe short_pe 0x900000 (replicate 600 7)).
  - apply (bool_decide_unpack _). vm_compute. exact I.
  - eexists. split; [vm_compute; reflexivity|]. split_and!; by vm_compute.
Defined.

End Pe.
