(* ===== verification/PeGuest.v ===== *)
(** * The image loader over guest memory

    [raynu_f/pe.rs], [load_pe32plus_guest]: the loader that [LoadImage] runs, with
    the file and the destination both in guest memory and every access through the
    trait [GuestMem] of [raynu_f/services.rs]. It is shown to do what
    [load_pe32plus] of [PeLoad] does on the same bytes. *)

From S2P Require Import Prelude Bytes PeLoad.
Import Pe.

Module PeGuest.

(** ** Guest memory *)

Definition MAX_HEADER_BYTES : Z := 4096.

(** The trait [GuestMem] ([raynu_f/services.rs]): a read delivers a prefix of what
    was asked for, a write returns how many bytes it stored. *)
Class GuestMem (M : Type) := {
  gm_read : M → Z → Z → list Z;
  gm_write : M → Z → list Z → M * Z;
}.

(** [SlabMem] ([vmx/guest_uefi.rs]): all of an access or none of it. *)
Definition slab_in (slab : list Z) (addr n : Z) : bool := (addr + n <? W64) && (addr + n <=? blen slab).

#[global] Instance SlabMem : GuestMem (list Z) := {
  gm_read slab addr n := if slab_in slab addr n then slice addr n slab else [];
  gm_write slab addr bs := if slab_in slab addr (blen bs) then (splice addr bs slab, blen bs) else (slab, 0);
}.

Section Guest.
Context {M : Type} `{GuestMem M}.

(** The 4096-byte steps of a loop over [len] bytes: offset and size of each. *)
Definition chunks (len : Z) : list (Z * Z) :=
  (λ k, (k * 4096, Z.min (len - k * 4096) 4096)) <$> seqZ 0 ((len + 4095) / 4096).

Fixpoint zero_loop (m : M) (dst : Z) (cs : list (Z * Z)) : M * bool :=
  match cs with
  | [] => (m, true)
  | (o, c) :: cs =>
      let '(m, n) := gm_write m (dst ⊞ o) (replicate (Z.to_nat c) 0) in
      if n =? c then zero_loop m dst cs else (m, false)
  end.

Fixpoint copy_loop (m : M) (from to : Z) (cs : list (Z * Z)) : M * bool :=
  match cs with
  | [] => (m, true)
  | (o, c) :: cs =>
      let buf := gm_read m (from ⊞ o) c in
      if negb (blen buf =? c) then (m, false)
      else
        let '(m, n) := gm_write m (to ⊞ o) buf in
        if n =? c then copy_loop m from to cs else (m, false)
  end.

Definition guest_copy (m : M) (from to len : Z) : M * bool := copy_loop m from to (chunks len).

(** The section loop; [None] is the panic of a slice out of range. *)
Fixpoint guest_sections (m : M) (hdr : list Z) (pe : PeImage) (src src_len dst loaded : Z) (ks : list Z)
    : option (M * result Z PeError) :=
  match ks with
  | [] => Some (m, Ok loaded)
  | i :: ks =>
      match section hdr pe i with
      | None => None
      | Some None => Some (m, Err SectionOutOfFile)
      | Some (Some s) =>
          let va := virtual_address s in
          let vsz := virtual_size s in
          let raw := size_of_raw_data s in
          let ptr := pointer_to_raw_data s in
          if (size_of_image pe <=? va) || (size_of_image pe <? sat_add64 va (Z.max vsz raw))
          then Some (m, Err SectionOutOfImage)
          else if 0 <? raw then
            if src_len <? sat_add64 ptr raw then Some (m, Err SectionOutOfFile)
            else
              let '(m, ok) := guest_copy m (src ⊞ ptr) (dst ⊞ va) raw in
              if ok then guest_sections m hdr pe src src_len dst (loaded + 1) ks
              else Some (m, Err SectionOutOfFile)
          else guest_sections m hdr pe src src_len dst (loaded + 1) ks
      end
  end.

Fixpoint guest_entries (n : nat) (m : M) (image_len dst page_rva delta e applied : Z) : M * result Z PeError :=
  match n with
  | O => (m, Ok applied)
  | S n =>
      let eb := gm_read m (dst ⊞ e) 2 in
      if blen eb <? 2 then (m, Err RelocOutOfImage)
      else
        let entry := from_le eb in
        let typ := Z.shiftr entry 12 in
        let at_ := page_rva + Z.land entry 0xfff in
        if typ =? REL_ABSOLUTE then guest_entries n m image_len dst page_rva delta (e + 2) applied
        else if typ =? REL_DIR64 then
          if image_len <? at_ + 8 then (m, Err RelocOutOfImage)
          else
            let v := gm_read m (dst ⊞ at_) 8 in
            if blen v <? 8 then (m, Err RelocOutOfImage)
            else
              let '(m, w) := gm_write m (dst ⊞ at_) (to_le 8 (from_le v ⊞ delta)) in
              if w =? 8 then guest_entries n m image_len dst page_rva delta (e + 2) (applied + 1)
              else (m, Err RelocOutOfImage)
        else (m, Err (RelocUnsupportedType typ))
  end.

Fixpoint guest_blocks (fuel : nat) (m : M) (image_len dst delta off e applied : Z) : option (M * result Z PeError) :=
  match fuel with
  | O => None
  | S fuel =>
      if off + 8 <=? e then
        let blk := gm_read m (dst ⊞ off) 8 in
        if blen blk <? 8 then Some (m, Err RelocOutOfImage)
        else
          let page_rva := from_le (slice 0 4 blk) in
          let block := from_le (slice 4 4 blk) in
          if (block <? 8) || (e <? off + block) then Some (m, Err RelocOutOfImage)
          else
            match guest_entries (Z.to_nat ((block - 8) / 2)) m image_len dst page_rva delta (off + 8) applied with
            | (m, Err x) => Some (m, Err x)
            | (m, Ok applied) => guest_blocks fuel m image_len dst delta (off + block) e applied
            end
      else Some (m, Ok applied)
  end.

Definition guest_relocate (m : M) (pe : PeImage) (dst delta : Z) : option (M * result Z PeError) :=
  let '(rd_rva, rd_size) := reloc_dir pe in
  if negb (delta =? 0) && negb (rd_size =? 0) then
    let e := sat_add64 rd_rva rd_size in
    if size_of_image pe <? e then Some (m, Err RelocOutOfImage)
    else guest_blocks (S (Z.to_nat (rd_size / 8))) m (size_of_image pe) dst delta rd_rva e 0
  else Some (m, Ok 0).

(** [None]: a slice is out of range, or the relocation loop does not end within its
    fuel; neither happens ([guest_load_equiv]). *)
Definition load_pe32plus_guest (m : M) (src src_len dst dst_len : Z) : option (M * result Loaded PeError) :=
  if negb (Z.land dst 0xfff =? 0) then Some (m, Err LoadBaseUnaligned)
  else
    let hdr_take := Z.min src_len MAX_HEADER_BYTES in
    if hdr_take <? 0x40 then Some (m, Err TooShort)
    else
      let hdr := gm_read m src hdr_take in
      if blen hdr <? hdr_take then Some (m, Err TooShort)
      else
        match parse_pe32plus hdr with
        | None => None
        | Some (Err x) => Some (m, Err x)
        | Some (Ok pe) =>
            let image_len := size_of_image pe in
            if dst_len <? image_len then Some (m, Err DestinationTooSmall)
            else if src_len <? size_of_headers pe then Some (m, Err HeadersOutOfFile)
            else
              match zero_loop m dst (chunks image_len) with
              | (m, false) => Some (m, Err DestinationTooSmall)
              | (m, true) =>
                  match guest_copy m src dst (size_of_headers pe) with
                  | (m, false) => Some (m, Err HeadersOutOfFile)
                  | (m, true) =>
                      match guest_sections m hdr pe src src_len dst 0 (seqZ 0 (num_sections pe)) with
                      | None => None
                      | Some (m, Err x) => Some (m, Err x)
                      | Some (m, Ok loaded) =>
                          match guest_relocate m pe dst (dst ⊟ image_base pe) with
                          | None => None
                          | Some (m, Err x) => Some (m, Err x)
                          | Some (m, Ok applied) =>
                              Some (m, Ok (mkLoaded dst (dst ⊞ entry_rva pe) image_len loaded applied))
                          end
                      end
                  end
              end
        end.

End Guest.

(** ** The slab as the destination image and the rest *)

(** [slab0] with the bytes at [dst] replaced by [img]. *)
Lemma get_slice_list l l' : blen l = blen l' → (∀ i, 0 ≤ i < blen l → get l i = get l' i) → l = l'.
Proof.
  intros L H. apply list_eq. intros i. destruct (decide (Z.of_nat i < blen l)) as [Hi|Hi].
  - specialize (H (Z.of_nat i) ltac:(lia)). unfold get in H. by rewrite Nat2Z.id in H.
  - unfold blen in *. rewrite !lookup_ge_None_2 by lia. done.
Qed.

Lemma slice_inner dst img l off n : 0 ≤ dst → dst + blen img ≤ blen l → 0 ≤ off → 0 ≤ n → off + n ≤ blen img →
  slice (dst + off) n (splice dst img l) = slice off n img.
Proof.
  intros H1 H2 H3 H4 H5. apply get_slice_list.
  - rewrite !blen_slice; try lia. rewrite blen_splice; lia.
  - rewrite blen_slice by (rewrite ?blen_splice; lia). intros i Hi.
    rewrite !get_slice by lia. rewrite get_splice by lia.
    replace ((dst <=? dst + off + i) && (dst + off + i <? dst + blen img)) with true by lia. by replace (dst + off + i - dst) with (off + i) by lia.
Qed.

Lemma splice_inner dst img l at_ bs : 0 ≤ dst → dst + blen img ≤ blen l → 0 ≤ at_ → at_ + blen bs ≤ blen img →
  splice (dst + at_) bs (splice dst img l) = splice dst (splice at_ bs img) l.
Proof.
  intros H1 H2 H3 H4. assert (0 ≤ blen bs) by (unfold blen; lia).
  assert (blen (splice dst img l) = blen l) as L1 by (apply blen_splice; lia).
  assert (blen (splice at_ bs img) = blen img) as L2 by (apply blen_splice; lia).
  assert (blen (splice (dst + at_) bs (splice dst img l)) = blen l) as L3 by (rewrite blen_splice; lia).
  apply get_slice_list; [rewrite L3, blen_splice; lia|]. rewrite L3. intros i Hi.
  rewrite (get_splice (dst + at_)), (get_splice dst img), (get_splice dst (splice at_ bs img)), L2 by lia.
  destruct ((dst <=? i) && (i <? dst + blen img)) eqn:B.
  - rewrite get_splice by lia. replace ((dst + at_ <=? i) && (i <? dst + at_ + blen bs))
      with ((at_ <=? i - dst) && (i - dst <? at_ + blen bs)) by lia.
    by replace (i - (dst + at_)) with (i - dst - at_) by lia.
  - by replace ((dst + at_ <=? i) && (i <? dst + at_ + blen bs)) with false by lia.
Qed.

(** A word is what [from_le] makes of its bytes. *)
Lemma slice_cons off n l x : 0 ≤ off → 0 < n → get l off = Some x → slice off n l = x :: slice (off + 1) (n - 1) l.
Proof.
  intros Ho Hn E. unfold slice, get in *. rewrite (drop_S _ _ _ E).
  replace (Z.to_nat n) with (S (Z.to_nat (n - 1))) by lia. cbn [take]. f_equal. f_equal. f_equal. lia.
Qed.

Lemma slice_0 off l : slice off 0 l = [].
Proof. done. Qed.

Lemma u16_slice b off : 0 ≤ off → off + 2 ≤ blen b → u16_at b off = Some (from_le (slice off 2 b)).
Proof.
  intros Ho Hl. unfold u16_at. destruct (get_Some b off) as [b0 E0]; [lia|]. destruct (get_Some b (off + 1)) as [b1 E1]; [lia|].
  rewrite (slice_cons off 2 b b0), (slice_cons (off + 1) (2 - 1) b b1) by (done || lia). rewrite E0, E1.
  change (2 - 1 - 1) with 0. rewrite slice_0. cbn -[Z.mul Z.add]. f_equal. lia.
Qed.

Lemma u32_slice b off : 0 ≤ off → off + 4 ≤ blen b → u32_at b off = Some (from_le (slice off 4 b)).
Proof.
  intros Ho Hl. unfold u32_at. destruct (get_Some b off) as [b0 E0]; [lia|]. destruct (get_Some b (off + 1)) as [b1 E1]; [lia|].
  destruct (get_Some b (off + 2)) as [b2 E2]; [lia|]. destruct (get_Some b (off + 3)) as [b3 E3]; [lia|].
  rewrite (slice_cons off 4 b b0), (slice_cons (off + 1) (4 - 1) b b1), (slice_cons (off + 1 + 1) (4 - 1 - 1) b b2),
    (slice_cons (off + 1 + 1 + 1) (4 - 1 - 1 - 1) b b3) by (done || lia || by rewrite <-!Z.add_assoc).
  rewrite E0, E1, E2, E3. change (4 - 1 - 1 - 1 - 1) with 0. rewrite slice_0. cbn -[Z.mul Z.add]. f_equal. lia.
Qed.

Lemma u64_slice b off : Forall is_byte b → 0 ≤ off → off + 8 ≤ blen b → u64_at b off = Some (from_le (slice off 8 b)).
Proof.
  intros F Ho Hl. apply u64_of_bytes; [|by apply Forall_slice|].
  - pose proof (blen_slice off 8 b Ho ltac:(lia) Hl). unfold blen in *. lia.
  - intros k Hk. by rewrite get_slice.
Qed.

Lemma slice_app off n c l : 0 ≤ off → 0 ≤ c ≤ n → slice off n l = slice off c l ++ slice (off + c) (n - c) l.
Proof.
  intros Ho Hc. unfold slice. replace (Z.to_nat n) with (Z.to_nat c + Z.to_nat (n - c))%nat by lia.
  rewrite <-take_take_drop, drop_drop. do 3 f_equal. lia.
Qed.

Lemma splice_nil off l : splice off [] l = l.
Proof. unfold splice. cbn. rewrite Nat.add_0_r. apply take_drop. Qed.

Lemma splice_app off a b l : 0 ≤ off → off + blen a + blen b ≤ blen l →
  splice (off + blen a) b (splice off a l) = splice off (a ++ b) l.
Proof.
  intros Ho Hl. assert (0 ≤ blen a ∧ 0 ≤ blen b) as [Ha Hb] by (unfold blen; lia).
  assert (blen (a ++ b) = blen a + blen b) as La by (unfold blen; rewrite length_app; lia).
  assert (blen (splice off a l) = blen l) as L1 by (apply blen_splice; lia).
  assert (blen (splice (off + blen a) b (splice off a l)) = blen l) as L2 by (rewrite blen_splice; lia).
  apply get_slice_list; [rewrite L2, blen_splice; lia|]. rewrite L2. intros i Hi.
  rewrite (get_splice (off + blen a)), (get_splice off a), (get_splice off (a ++ b)), La by lia. unfold get, blen in *.
  destruct (Z.leb_spec (off + Z.of_nat (length a)) i).
  - rewrite (proj2 (Z.leb_le off i)) by lia. cbn [andb]. rewrite Z.add_assoc, lookup_app_r by lia.
    rewrite (proj2 (Z.ltb_ge i (off + Z.of_nat (length a)))) by lia.
    destruct (i <? off + Z.of_nat (length a) + Z.of_nat (length b)); [|done].
    by replace (Z.to_nat (i - (off + Z.of_nat (length a)))) with (Z.to_nat (i - off) - length a)%nat by lia.
  - cbn [andb]. destruct (Z.leb_spec off i); [|done]. cbn [andb].
    rewrite (proj2 (Z.ltb_lt i (off + Z.of_nat (length a)))), (proj2 (Z.ltb_lt i (off + (_ + _)))) by lia.
    by rewrite lookup_app_l by lia.
Qed.

(** ** Filling in steps *)

Definition fill_step (va : Z) (D : list Z) (l : list Z) (oc : Z * Z) : list Z :=
  splice (va + oc.1) (slice oc.1 oc.2 D) l.

Lemma chunks_fill va D img : 0 ≤ va → va + blen D ≤ blen img →
  foldl (fill_step va D) img (chunks (blen D)) = splice va D img.
Proof.
  intros Hva Hle. assert (0 ≤ blen D) as HD by (unfold blen; lia).
  assert (∀ (m : nat) k img, 0 ≤ k → k + Z.of_nat m = (blen D + 4095) / 4096 → va + blen D ≤ blen img →
    foldl (fill_step va D) img ((λ k, (k * 4096, Z.min (blen D - k * 4096) 4096)) <$> seqZ k (Z.of_nat m)) =
    splice (va + k * 4096) (slice (k * 4096) (blen D - k * 4096) D) img) as G.
  { induction m as [|m IH]; intros k l Hk E Hl.
    - rewrite seqZ_nil by lia. cbn [fmap list_fmap foldl].
      replace (slice (k * 4096) (blen D - k * 4096) D) with (@nil Z); [by rewrite splice_nil|].
      unfold slice. replace (Z.to_nat (blen D - k * 4096)) with 0%nat by dlia. done.
    - rewrite seqZ_S. cbn [fmap list_fmap foldl]. unfold fill_step at 2. cbn [fst snd].
      set (c := Z.min (blen D - k * 4096) 4096). assert (0 < c ∧ k * 4096 + c ≤ blen D) as [C0 C1] by (unfold c; dlia).
      assert (blen (slice (k * 4096) c D) = c) as Lc by (apply blen_slice; lia).
      rewrite IH; [|lia|lia|rewrite blen_splice; lia].
      destruct (decide (blen D - k * 4096 ≤ 4096)) as [Last|More].
      + replace (slice ((k + 1) * 4096) (blen D - (k + 1) * 4096) D) with (@nil Z).
        2:{ unfold slice. replace (Z.to_nat (blen D - (k + 1) * 4096)) with 0%nat by lia. done. }
        rewrite splice_nil. unfold c. by rewrite Z.min_l by lia.
      + assert (c = 4096) as Ec by (unfold c; lia). rewrite (slice_app (k * 4096) (blen D - k * 4096) c) by lia.
        replace ((k + 1) * 4096) with (k * 4096 + c) by lia.
        replace (blen D - (k * 4096 + c)) with (blen D - k * 4096 - c) by lia.
        rewrite <-(splice_app (va + k * 4096)).
        * rewrite Lc. f_equal. lia.
        * lia.
        * rewrite Lc, blen_slice by lia. lia. }
  unfold chunks. specialize (G (Z.to_nat ((blen D + 4095) / 4096)) 0 img). rewrite Z2Nat.id in G by dlia.
  rewrite G by (dlia || lia). rewrite Z.mul_0_l, Z.add_0_r, Z.sub_0_r. f_equal.
  unfold slice, blen. rewrite drop_0, take_ge; [done|lia].
Qed.

Lemma chunks_in len o c : 0 ≤ len → (o, c) ∈ chunks len → 0 ≤ o ∧ 0 ≤ c ∧ o + c ≤ len.
Proof.
  intros Hl (k & [= -> ->] & Hk%elem_of_seqZ)%list_elem_of_fmap. dlia.
Qed.

(** ** The loops, on the image *)

Section Sim.
Context (slab0 : list Z) (dst : Z).
Context (Hd : 0 ≤ dst) (Hs : blen slab0 < W64).

Notation V img := (splice dst img slab0).

Lemma blen_V img : dst + blen img ≤ blen slab0 → blen (V img) = blen slab0.
Proof using Hd. intros. by apply blen_splice. Qed.

Lemma read_V img off n : dst + blen img ≤ blen slab0 → 0 ≤ off → 0 ≤ n → off + n ≤ blen img →
  gm_read (V img) (dst ⊞ off) n = slice off n img.
Proof using Hd Hs.
  intros L Ho Hn Hle. cbn [gm_read SlabMem]. unfold slab_in. rewrite blen_V, add64_small by mlia.
  replace ((dst + off + n <? W64) && (dst + off + n <=? blen slab0)) with true by lia. by apply slice_inner.
Qed.

Lemma write_V img at_ bs : dst + blen img ≤ blen slab0 → 0 ≤ at_ → at_ + blen bs ≤ blen img →
  gm_write (V img) (dst ⊞ at_) bs = (V (splice at_ bs img), blen bs).
Proof using Hd Hs.
  intros L Ha Hle. assert (0 ≤ blen bs) by (unfold blen; lia). cbn [gm_write SlabMem]. unfold slab_in.
  rewrite blen_V, add64_small by mlia.
  replace ((dst + at_ + blen bs <? W64) && (dst + at_ + blen bs <=? blen slab0)) with true by lia. by rewrite splice_inner.
Qed.

(** The relocation loops see and change the image only. *)
Definition on_image {A} (r : list Z * A) : list Z * A := (V r.1, r.2).

Lemma guest_entries_sim n page delta : 0 ≤ page → ∀ img e applied, Forall is_byte img → dst + blen img ≤ blen slab0 →
  0 ≤ e → e + 2 * Z.of_nat n ≤ blen img →
  Some (guest_entries n (V img) (blen img) dst page delta e applied) =
    on_image <$> reloc_entries n img (blen img) page delta e applied.
Proof using Hd Hs.
  intros Hp. induction n as [|n IH]; intros img e applied F L He Hl; [done|]. cbn [guest_entries reloc_entries].
  rewrite read_V by lia. rewrite blen_slice by lia. rewrite u16_slice by lia. cbn [Z.ltb Z.compare Pos.compare Pos.compare_cont]. cbv zeta.
  set (en := from_le (slice e 2 img)). destruct (_ =? REL_ABSOLUTE); [apply IH; try done; lia|].
  destruct (_ =? REL_DIR64); [|done]. set (t := page + Z.land en 0xfff).
  assert (0 ≤ t) by (unfold t; pose proof (Z.land_nonneg en 0xfff); lia).
  destruct (Z.ltb_spec (blen img) (t + 8)); [done|]. rewrite read_V by lia. rewrite blen_slice by lia.
  rewrite u64_slice by (done || lia). change (8 <? 8) with false. cbv iota.
  rewrite write_word by lia. set (w := from_le (slice t 8 img) ⊞ delta).
  assert (blen (splice t (to_le 8 w) img) = blen img) as L' by (apply blen_splice; rewrite ?blen_to_le; lia).
  rewrite write_V by (rewrite ?blen_to_le; lia). rewrite blen_to_le. change (Z.of_nat 8 =? 8) with true. cbv iota.
  rewrite <-L'. apply IH; [|lia..]. apply Forall_splice; [apply to_le_bytes|done].
Qed.

Lemma guest_blocks_sim fuel delta hi : ∀ img off applied, Forall is_byte img → dst + blen img ≤ blen slab0 →
  0 ≤ off → hi ≤ blen img →
  Some <$> guest_blocks fuel (V img) (blen img) dst delta off hi applied =
    fmap on_image <$> reloc_blocks fuel img (blen img) delta off hi applied.
Proof using Hd Hs.
  induction fuel as [|fuel IH]; intros img off applied F L Ho Hh; [done|]. cbn [guest_blocks reloc_blocks].
  destruct (Z.leb_spec (off + 8) hi); [|done]. rewrite read_V by lia. rewrite blen_slice by lia.
  change (8 <? 8) with false. cbv zeta iota. rewrite !slice_slice, Z.add_0_r by lia. rewrite !u32_slice by lia.
  set (page := from_le (slice off 4 img)). set (block := from_le (slice (off + 4) 4 img)).
  destruct ((block <? 8) || (hi <? off + block)) eqn:B; [done|]. apply orb_false_iff in B as [B1%Z.ltb_ge B2%Z.ltb_ge].
  assert (0 ≤ page) as Hp.
  { destruct (u32_bytes img off F page); [|done]. apply u32_slice; lia. }
  pose proof (guest_entries_sim (Z.to_nat ((block - 8) / 2)) page delta Hp img (off + 8) applied F L) as Sim.
  destruct (reloc_entries_safe page delta (Z.to_nat ((block - 8) / 2)) Hp img (off + 8) applied F) as (img1 & r & E & S1 & S2).
  rewrite E in *. cbn [fmap option_fmap option_map] in Sim. injection Sim as ->; [|lia|dlia].
  destruct r as [a|x]; [|done]. cbn [on_image fst snd] in *.
  rewrite <-S1. apply IH; [done|lia..].
Qed.

Lemma guest_relocate_sim img pe delta : Forall is_byte img → blen img = size_of_image pe →
  dst + blen img ≤ blen slab0 → 0 ≤ (reloc_dir pe).1 < 2 ^ 32 → 0 ≤ (reloc_dir pe).2 < 2 ^ 32 →
  Some <$> guest_relocate (V img) pe dst delta = fmap on_image <$> relocate img pe delta.
Proof using Hd Hs.
  intros F E L H1 H2. unfold guest_relocate, relocate. destruct (reloc_dir pe) as [rva sz]. cbn [fst snd] in *.
  change (2 ^ 32) with 4294967296 in *. replace (sat_add64 rva sz) with (rva + sz) by mlia.
  destruct (_ && _); [|done]. destruct (Z.ltb_spec (size_of_image pe) (rva + sz)); [done|]. rewrite <-E.
  apply guest_blocks_sim; [done|lia..].
Qed.

(** A read of the slab away from the image. *)
Lemma read_away img a n : dst + blen img ≤ blen slab0 → 0 ≤ a → 0 ≤ n → a + n ≤ blen slab0 →
  a + n ≤ dst ∨ dst + blen img ≤ a → gm_read (V img) a n = slice a n slab0.
Proof using Hd Hs.
  intros L Ha Hn Hle D. cbn [gm_read SlabMem]. unfold slab_in. rewrite blen_V by done.
  replace ((a + n <? W64) && (a + n <=? blen slab0)) with true by lia. by apply slice_splice_other.
Qed.

Lemma fill_blen va D img oc : 0 ≤ va → va + blen D ≤ blen img → 0 ≤ oc.1 → 0 ≤ oc.2 → oc.1 + oc.2 ≤ blen D →
  blen (slice oc.1 oc.2 D) = oc.2 ∧ blen (fill_step va D img oc) = blen img.
Proof.
  intros Hva Hl O C E. assert (blen (slice oc.1 oc.2 D) = oc.2) as L by (apply blen_slice; lia).
  split; [done|]. unfold fill_step. apply blen_splice; lia.
Qed.

Lemma zero_loop_V img : dst + blen img ≤ blen slab0 →
  zero_loop (V img) dst (chunks (blen img)) = (V (replicate (length img) 0), true).
Proof using Hd Hs.
  intros L. set (D := replicate (length img) 0 : list Z).
  assert (blen D = blen img) as LD by (unfold D, blen; by rewrite length_replicate).
  assert (∀ cs l, blen l = blen img → (∀ oc, oc ∈ cs → 0 ≤ oc.1 ∧ 0 ≤ oc.2 ∧ oc.1 + oc.2 ≤ blen D) →
    zero_loop (V l) dst cs = (V (foldl (fill_step 0 D) l cs), true)) as G.
  { induction cs as [|[o c] cs IH]; intros l Ll H; [done|].
    destruct (H (o, c) (list_elem_of_here _ _)) as (O & C & E). cbn [fst snd] in *.
    destruct (fill_blen 0 D l (o, c)) as [F1 F2]; cbn [fst snd] in *; [lia..|]. cbn [zero_loop foldl].
    replace (replicate (Z.to_nat c) 0) with (slice o c D).
    2:{ unfold slice, D. rewrite drop_replicate, take_replicate. f_equal. unfold blen in *. lia. }
    rewrite write_V by lia. rewrite F1, Z.eqb_refl.
    rewrite IH; [done| |intros oc Hoc; by apply H, list_elem_of_further].
    unfold fill_step in F2. cbn [fst snd] in F2. rewrite Z.add_0_l in F2. lia. }
  rewrite (G (chunks (blen img)) img).
  - rewrite <-LD, chunks_fill by lia. f_equal. f_equal. unfold splice. rewrite take_0, app_nil_l.
    rewrite drop_ge; [by rewrite app_nil_r|]. unfold blen in *. lia.
  - done.
  - intros [o c] Hoc. rewrite LD. apply chunks_in in Hoc; [done|]. unfold blen. lia.
Qed.

Lemma guest_copy_V img from va len : dst + blen img ≤ blen slab0 → 0 ≤ from → 0 ≤ len → from + len ≤ blen slab0 →
  from + len ≤ dst ∨ dst + blen img ≤ from → 0 ≤ va → va + len ≤ blen img →
  guest_copy (V img) from (dst ⊞ va) len = (V (splice va (slice from len slab0) img), true).
Proof using Hd Hs.
  intros L Hf Hn Hle Away Hva Hv. set (D := slice from len slab0).
  assert (blen D = len) as LD by (by apply blen_slice).
  assert (∀ cs l, blen l = blen img → (∀ oc, oc ∈ cs → 0 ≤ oc.1 ∧ 0 ≤ oc.2 ∧ oc.1 + oc.2 ≤ blen D) →
    copy_loop (V l) from (dst ⊞ va) cs = (V (foldl (fill_step va D) l cs), true)) as G.
  { induction cs as [|[o c] cs IH]; intros l Ll H; [done|].
    destruct (H (o, c) (list_elem_of_here _ _)) as (O & C & E). cbn [fst snd] in *.
    destruct (fill_blen va D l (o, c)) as [F1 F2]; cbn [fst snd] in *; [lia..|]. cbn [copy_loop foldl]. cbv zeta.
    rewrite (add64_small from o) by mlia. rewrite read_away by lia.
    replace (slice (from + o) c slab0) with (slice o c D) by (unfold D; apply slice_slice; lia).
    rewrite F1, Z.eqb_refl. cbn [negb].
    replace (dst ⊞ va ⊞ o) with (dst ⊞ (va + o)) by (rewrite (add64_small dst va), !add64_small by mlia; lia).
    rewrite write_V by lia. rewrite F1, Z.eqb_refl. rewrite IH; [done| |intros oc Hoc; by apply H, list_elem_of_further].
    unfold fill_step in F2. cbn [fst snd] in F2. lia. }
  unfold guest_copy. rewrite (G (chunks len) img).
  - rewrite <-LD, chunks_fill by lia. done.
  - done.
  - intros [o c] Hoc. rewrite LD. by apply chunks_in in Hoc.
Qed.

Lemma guest_sections_sim hdr pe src src_len ks : 0 ≤ src → 0 ≤ src_len → src + src_len ≤ blen slab0 →
  src + src_len ≤ dst ∨ dst + size_of_image pe ≤ src → dst + size_of_image pe ≤ blen slab0 →
  (∀ k, k ∈ ks → section hdr pe k = section (slice src src_len slab0) pe k ∧
                 ∃ s, section (slice src src_len slab0) pe k = Some (Some s) ∧ sec_wf s) →
  ∀ img loaded, blen img = size_of_image pe →
  guest_sections (V img) hdr pe src src_len dst loaded ks =
    on_image <$> load_sections (slice src src_len slab0) pe img loaded ks.
Proof using Hd Hs.
  intros S0 S1 S2 Away Hl. set (file := slice src src_len slab0).
  assert (blen file = src_len) as Lf by (by apply blen_slice).
  induction ks as [|k ks IH]; intros Hk img loaded L; [done|].
  destruct (Hk k (list_elem_of_here _ _)) as (E1 & s & E2 & [W1 W2 W3 W4]). change (2 ^ 32) with 4294967296 in *.
  cbn [guest_sections load_sections]. rewrite E1, E2. cbv zeta. rewrite Lf, (Z.min_l (size_of_raw_data s)) by lia.
  assert (∀ j, j ∈ ks → _) as Hk' by exact (λ j Hj, Hk j (list_elem_of_further _ _ _ Hj)).
  assert (∀ a b, 0 ≤ a < 4294967296 → 0 ≤ b < 4294967296 → sat_add64 a b = a + b) as Sat by (intros; mlia).
  rewrite !Sat by lia. destruct ((size_of_image pe <=? virtual_address s) || _) eqn:B; [done|].
  destruct (Z.ltb_spec 0 (size_of_raw_data s)); [|by apply IH].
  destruct (Z.ltb_spec src_len (pointer_to_raw_data s + size_of_raw_data s)); [done|].
  rewrite (add64_small src) by mlia. rewrite guest_copy_V by lia.
  replace (slice (src + pointer_to_raw_data s) (size_of_raw_data s) slab0)
    with (slice (pointer_to_raw_data s) (size_of_raw_data s) file) by (unfold file; apply slice_slice; lia).
  rewrite copy_slice_in by lia.
  apply IH; [done|]. rewrite blen_splice; [done|lia|]. rewrite blen_slice; lia.
Qed.

End Sim.

(** ** The header window *)

Lemma get_take n l i v : get (take n l) i = Some v → get l i = Some v.
Proof. unfold get. intros H. apply lookup_take_Some in H. tauto. Qed.

Lemma u16_take n l off v : u16_at (take n l) off = Some v → u16_at l off = Some v.
Proof.
  unfold u16_at. destruct (get (take n l) off) as [a|] eqn:E0; [|done]. destruct (get (take n l) (off + 1)) as [b|] eqn:E1; [|done].
  apply get_take in E0, E1. by rewrite E0, E1.
Qed.

Lemma u32_take n l off v : u32_at (take n l) off = Some v → u32_at l off = Some v.
Proof.
  unfold u32_at. destruct (get (take n l) off) as [a|] eqn:E0; [|done]. destruct (get (take n l) (off + 1)) as [b|] eqn:E1; [|done].
  destruct (get (take n l) (off + 2)) as [c|] eqn:E2; [|done]. destruct (get (take n l) (off + 3)) as [d|] eqn:E3; [|done].
  apply get_take in E0, E1, E2, E3. by rewrite E0, E1, E2, E3.
Qed.

Lemma u64_take n l off v : u64_at (take n l) off = Some v → u64_at l off = Some v.
Proof.
  unfold u64_at. destruct (u32_at (take n l) off) as [a|] eqn:E0; [|done].
  destruct (u32_at (take n l) (off + 4)) as [b|] eqn:E1; [|done]. apply u32_take in E0, E1. by rewrite E0, E1.
Qed.

Lemma slice_take n l off c : 0 ≤ off → 0 ≤ c → off + c ≤ blen (take n l) → slice off c (take n l) = slice off c l.
Proof.
  intros Ho Hc Hl. unfold blen in Hl. rewrite length_take in Hl. unfold slice.
  rewrite skipn_firstn_comm, take_take. f_equal. lia.
Qed.

Lemma blen_take n l : blen (take n l) ≤ blen l.
Proof. unfold blen. rewrite length_take. lia. Qed.

(** What the parser accepts in a prefix it accepts in the file, with the same
    result; and so for the section headers it then reads. *)
Lemma parse_opt_prefix n file mc ns so opt pe : parse_opt (take n file) mc ns so opt = Ok pe → parse_opt file mc ns so opt = Ok pe.
Proof.
  intros H. unfold parse_opt in *. pose proof (blen_take n file) as L.
  field H magic Em. rewrite (u16_take _ _ _ _ Em). cbn [ok_or result_bind] in *. destruct (negb _) in H |- *; [done|].
  field H er E1. field H ib E2. field H sa E3. field H fa E4. field H si E5. field H sh E6. field H ss E7. field H nd E8.
  rewrite (u32_take _ _ _ _ E1), (u64_take _ _ _ _ E2), (u32_take _ _ _ _ E3), (u32_take _ _ _ _ E4), (u32_take _ _ _ _ E5),
    (u32_take _ _ _ _ E6), (u16_take _ _ _ _ E7), (u32_take _ _ _ _ E8). cbn [ok_or result_bind].
  destruct ((sa =? 0) || _); [done|]. destruct ((si =? 0) || _); [done|].
  destruct (Z.ltb_spec (blen (take n file)) sh); [done|]. rewrite (proj2 (Z.ltb_ge _ _)) by lia.
  destruct (si <=? er); [done|].
  assert (∀ d, reloc_dir_of (take n file) opt so nd = Ok d → reloc_dir_of file opt so nd = Ok d) as Rd.
  { intros d. unfold reloc_dir_of. destruct (DIR_BASERELOC <? nd); [|tauto]. cbv zeta. destruct (_ <=? opt + so); [|tauto]. intros K.
    field K a Ea. field K b Eb. rewrite (u32_take _ _ _ _ Ea), (u32_take _ _ _ _ Eb). done. }
  destruct (reloc_dir_of (take n file) opt so nd) as [d|] eqn:Ed; [|done]. rewrite (Rd d) by done. cbn [result_bind] in *.
  destruct (Z.ltb_spec (blen (take n file)) (opt + so + ns * SECTION_HEADER_SIZE)); [done|].
  by rewrite (proj2 (Z.ltb_ge _ _)) by lia.
Qed.

Lemma parse_prefix n file pe : Forall is_byte file → parse_pe32plus (take n file) = Some (Ok pe) →
  parse_pe32plus file = Some (Ok pe).
Proof.
  intros F H. unfold parse_pe32plus in *. pose proof (blen_take n file) as L.
  destruct (Z.ltb_spec (blen (take n file)) 0x40); [done|]. rewrite (proj2 (Z.ltb_ge _ _)) by lia.
  rewrite !range_in, (slice_take n file 0 2) in * by lia. cbn [mbind option_bind] in *. destruct (negb _) in H |- *; [done|].
  destruct (u32_at (take n file) DOS_E_LFANEW_OFF) as [po|] eqn:E1; [|done].
  pose proof (u32_bytes _ _ (Forall_take _ _ _ F) _ E1) as Hpo. rewrite (u32_take _ _ _ _ E1).
  destruct (Z.ltb_spec (blen (take n file)) (po + 4 + COFF_HEADER_SIZE)) as [|Hl]; [done|]. unfold COFF_HEADER_SIZE in Hl.
  rewrite (proj2 (Z.ltb_ge (blen file) _)) by (unfold COFF_HEADER_SIZE; lia).
  rewrite !range_in, (slice_take n file po 4) in * by lia. cbn [mbind option_bind] in *.
  destruct (negb _) in H |- *; [done|]. cbv zeta in *. apply (inj Some) in H. f_equal.
  field H mc E2. rewrite (u16_take _ _ _ _ E2). cbn [ok_or result_bind].
  destruct (negb _) in H |- *; [done|]. field H ns E3. field H so E4.
  rewrite (u16_take _ _ _ _ E3), (u16_take _ _ _ _ E4). cbn [ok_or result_bind].
  destruct (Z.ltb_spec (blen (take n file)) (po + 4 + COFF_HEADER_SIZE + so)); [done|]. rewrite (proj2 (Z.ltb_ge (blen file) _)) by lia.
  destruct (_ || _) in H |- *; [done|]. by apply parse_opt_prefix in H.
Qed.

Lemma section_prefix n file pe k s : section (take n file) pe k = Some (Some s) → 0 ≤ section_table_off pe → 0 ≤ k →
  section file pe k = Some (Some s).
Proof.
  intros H T Hk. unfold section in *. pose proof (blen_take n file) as L. destruct (_ <=? _); [done|]. cbv zeta in *.
  set (off := section_table_off pe + k * SECTION_HEADER_SIZE) in *. unfold SECTION_HEADER_SIZE in *.
  destruct (Z.ltb_spec (blen (take n file)) (off + 8)); [done|]. rewrite (proj2 (Z.ltb_ge _ _)) by lia.
  rewrite !range_in in * by lia. cbn [mbind option_bind] in *.
  destruct (u32_at (take n file) (off + 8)) as [v1|] eqn:E1; [|done]. destruct (u32_at (take n file) (off + 12)) as [v2|] eqn:E2; [|done].
  destruct (u32_at (take n file) (off + 16)) as [v3|] eqn:E3; [|done]. destruct (u32_at (take n file) (off + 20)) as [v4|] eqn:E4; [|done].
  destruct (u32_at (take n file) (off + 36)) as [v5|] eqn:E5; [|done]. apply u32_take in E1, E2, E3, E4, E5.
  rewrite E1, E2, E3, E4, E5. cbn [mbind option_bind] in *. rewrite slice_take in H by lia. done.
Qed.

(** ** Equivalence *)

Definition header_window (file : list Z) : list Z := take (Z.to_nat MAX_HEADER_BYTES) file.

Lemma window_read slab src src_len : 0 ≤ src → 0 ≤ src_len → src + src_len ≤ blen slab → blen slab < W64 →
  gm_read slab src (Z.min src_len MAX_HEADER_BYTES) = header_window (slice src src_len slab) ∧
  blen (header_window (slice src src_len slab)) = Z.min src_len MAX_HEADER_BYTES.
Proof.
  intros S0 S1 S2 Hs. cbn [gm_read SlabMem]. unfold slab_in, header_window, MAX_HEADER_BYTES.
  replace ((src + src_len `min` 4096 <? W64) && (src + src_len `min` 4096 <=? blen slab)) with true by lia.
  unfold slice, blen in *. rewrite take_take, length_take, length_drop. split; [f_equal; lia|lia].
Qed.

Lemma splice_slice dst n l : 0 ≤ dst → 0 ≤ n → dst + n ≤ blen l → splice dst (slice dst n l) l = l.
Proof.
  intros Hd Hn Hl. assert (blen (slice dst n l) = n) as L by (by apply blen_slice).
  apply get_slice_list; [apply blen_splice; lia|]. rewrite blen_splice by lia. intros i Hi.
  rewrite get_splice, L by lia. destruct (_ && _) eqn:B; [|done]. rewrite get_slice by lia. f_equal. lia.
Qed.

(** The destination buffer with its first bytes replaced, put back in the slab. *)
Lemma splice_rest dst n img slab : 0 ≤ dst → blen img ≤ n → dst + n ≤ blen slab →
  splice dst (img ++ drop (Z.to_nat (blen img)) (slice dst n slab)) slab = splice dst img slab.
Proof.
  intros Hd Hi Hn. assert (0 ≤ blen img) as H0 by (unfold blen; lia).
  rewrite <-(splice_slice (dst + blen img) (n - blen img) (splice dst img slab)) by (rewrite ?blen_splice; lia).
  rewrite slice_splice_other by lia. rewrite splice_app by (rewrite ?blen_slice; lia). do 2 f_equal.
  rewrite (slice_app dst n (blen img)) by lia. rewrite drop_app_length'; [done|].
  pose proof (blen_slice dst (blen img) slab). unfold blen in *. lia.
Qed.

Section Equiv.
Context (slab : list Z) (src src_len dst dst_len : Z) (pe : PeImage).
Context (F : Forall is_byte slab) (Hs : blen slab < W64).
Context (S0 : 0 ≤ src) (S1 : 0 ≤ src_len) (S2 : src + src_len ≤ blen slab).
Context (D0 : 0 ≤ dst) (D1 : dst + dst_len ≤ blen slab).
Context (Away : src + src_len ≤ dst ∨ dst + dst_len ≤ src).

Notation file := (slice src src_len slab).
Context (P : parse_pe32plus (header_window file) = Some (Ok pe)) (Hh : size_of_headers pe ≤ size_of_image pe).

Lemma guest_load_small : dst_len < size_of_image pe → Z.land dst 0xfff = 0 →
  load_pe32plus_guest slab src src_len dst dst_len = Some (slab, Err DestinationTooSmall).
Proof using Hs P S0 S1 S2.
  intros Hi A. destruct (window_read slab src src_len S0 S1 S2 Hs) as [R Lw].
  pose proof (parse_len _ _ P) as H40.
  unfold load_pe32plus_guest. rewrite A. cbn [Z.eqb negb]. cbv zeta.
  rewrite (proj2 (Z.ltb_ge (Z.min _ _) _)) by lia. rewrite R, Lw, Z.ltb_irrefl, P.
  by rewrite (proj2 (Z.ltb_lt dst_len _)) by lia.
Qed.

Lemma guest_load_body : size_of_image pe ≤ dst_len → Z.land dst 0xfff = 0 →
  load_pe32plus_guest slab src src_len dst dst_len =
    match load_sections file pe (header_img file pe) 0 (seqZ 0 (num_sections pe)) with
    | None => None
    | Some (img, Err x) => Some (splice dst img slab, Err x)
    | Some (img, Ok loaded) =>
        match mjoin (relocate img pe (dst ⊟ image_base pe)) with
        | None => None
        | Some (img, Err x) => Some (splice dst img slab, Err x)
        | Some (img, Ok applied) =>
            Some (splice dst img slab, Ok (mkLoaded dst (dst ⊞ entry_rva pe) (size_of_image pe) loaded applied))
        end
    end.
Proof using All.
  intros Hi A. destruct (window_read slab src src_len S0 S1 S2 Hs) as [R Lw].
  assert (Forall is_byte file) as Ff by by apply Forall_slice.
  assert (blen file = src_len) as Lf by by apply blen_slice.
  pose proof (parse_wf _ _ (Forall_take _ _ _ Ff) P) as Ww.
  pose proof (parse_wf file pe Ff (parse_prefix _ _ _ Ff P)) as W.
  pose proof (parse_len _ _ P) as H40.
  destruct (pf_image _ _ W) as [I0 _]. destruct (pf_headers _ _ W) as [H0 H1]. destruct (pf_dir _ _ W) as [R1 R2].
  unfold load_pe32plus_guest. rewrite A. cbn [Z.eqb negb]. cbv zeta.
  rewrite (proj2 (Z.ltb_ge (Z.min _ _) _)) by lia. rewrite R, Lw, Z.ltb_irrefl, P.
  rewrite (proj2 (Z.ltb_ge dst_len _)), (proj2 (Z.ltb_ge src_len _)) by lia.
  (* the destination cleared *)
  rewrite <-(splice_slice dst (size_of_image pe) slab) at 1 by lia.
  assert (blen (slice dst (size_of_image pe) slab) = size_of_image pe) as Li by (apply blen_slice; lia).
  rewrite <-Li at 2. rewrite (zero_loop_V slab dst D0 Hs) by lia.
  replace (length (slice dst (size_of_image pe) slab)) with (Z.to_nat (size_of_image pe)) by (unfold blen in Li; lia).
  (* the headers *)
  pose proof (blen_zero file pe W) as Lz.
  replace (guest_copy _ src dst (size_of_headers pe)) with
    (guest_copy (splice dst (replicate (Z.to_nat (size_of_image pe)) 0) slab) src (dst ⊞ 0) (size_of_headers pe)).
  2:{ do 2 f_equal. rewrite add64_small by mlia. lia. }
  rewrite (guest_copy_V slab dst D0 Hs) by lia.
  replace (splice 0 (slice src (size_of_headers pe) slab) (replicate (Z.to_nat (size_of_image pe)) 0)) with (header_img file pe).
  2:{ unfold header_img. f_equal. unfold slice, blen in *. rewrite take_take. f_equal. lia. }
  destruct (header_img_spec file pe Ff W Hh) as (Lh & Bh & _).
  (* sections and relocations *)
  rewrite (guest_sections_sim slab dst D0 Hs); [|lia|lia|lia|lia|lia| |done].
  2:{ intros k Hk%section_indices. destruct (section_total _ _ _ (Forall_take _ _ _ Ff) Ww Hk) as (s & Es & Wsec).
      destruct (pf_table _ _ Ww) as [T _]. pose proof (section_prefix _ _ _ _ _ Es T ltac:(lia)) as Es'.
      split; [unfold header_window; congruence|]. by exists s. }
  destruct (load_sections_spec file pe Ff W _ (section_indices pe) (header_img file pe) 0 Lh Bh) as (img & r & -> & L1 & B1 & _).
  destruct r as [n|x]; [|done]. cbn [on_image fst snd fmap option_fmap option_map].
  pose proof (guest_relocate_sim slab dst D0 Hs img pe (dst ⊟ image_base pe) B1 L1 ltac:(lia) R1 R2) as Sim.
  destruct (relocate_safe img pe (dst ⊟ image_base pe) B1 L1 R1 R2) as (img' & r & E & _). rewrite E in *.
  destruct (guest_relocate _ _ _ _); [|done]. cbn [fmap option_fmap option_map] in Sim. injection Sim as ->. by destruct r.
Qed.

End Equiv.

(** C21: The loader over guest memory does what the host loader does on the same bytes: for
    a file and a destination that do not overlap in the slab, headers that the 4 KiB
    window holds and that are not longer than the image, both return the same result, success or
    error, and the slab ends up with exactly the bytes the host loader leaves in its
    buffer, nothing outside the destination touched. *)
Theorem guest_load_equiv (slab : list Z) (src src_len dst dst_len : Z) (pe : PeImage) :
  Forall is_byte slab → blen slab < W64 → 0 ≤ src → 0 ≤ src_len → src + src_len ≤ blen slab →
  0 ≤ dst → 0 ≤ dst_len → dst + dst_len ≤ blen slab → src + src_len ≤ dst ∨ dst + dst_len ≤ src →
  parse_pe32plus (header_window (slice src src_len slab)) = Some (Ok pe) → size_of_headers pe ≤ size_of_image pe →
  ∃ d r, load_pe32plus (slice src src_len slab) dst (slice dst dst_len slab) = Returns d r ∧
         load_pe32plus_guest slab src src_len dst dst_len = Some (splice dst d slab, r).
Proof.
  intros F Hs S0 S1 S2 D0 Dl D1 Away P Hh. set (file := slice src src_len slab) in *.
  assert (Forall is_byte file) as Ff by by apply Forall_slice.
  assert (parse_pe32plus file = Some (Ok pe)) as P' by (by eapply parse_prefix).
  pose proof (parse_wf file pe Ff P') as W. destruct (pf_image _ _ W) as [I0 _]. destruct (pf_headers _ _ W) as [H0 H1].
  assert (blen (slice dst dst_len slab) = dst_len) as Ld by by apply blen_slice.
  destruct (decide (Z.land dst 0xfff = 0)) as [A|A].
  2:{ exists (slice dst dst_len slab), (Err LoadBaseUnaligned). rewrite splice_slice by done.
      unfold load_pe32plus, load_pe32plus_guest. by rewrite P', (proj2 (Z.eqb_neq _ _) A). }
  destruct (Z.ltb_spec dst_len (size_of_image pe)) as [Small|Fits].
  { exists (slice dst dst_len slab), (Err DestinationTooSmall). rewrite splice_slice by done. split.
    - unfold load_pe32plus. rewrite P', A, Ld. cbn [Z.eqb negb]. cbv zeta. by rewrite (proj2 (Z.ltb_lt _ _) Small).
    - by apply (guest_load_small slab src src_len dst dst_len pe). }
  rewrite (guest_load_body slab src src_len dst dst_len pe) by done.
  rewrite (load_guarded file dst _ pe) by (done || lia). cbv zeta. fold file.
  destruct (header_img_spec file pe Ff W Hh) as (Lh & Bh & _).
  destruct (load_sections_spec file pe Ff W _ (section_indices pe) (header_img file pe) 0 Lh Bh) as (img & [n|x] & -> & L1 & B1 & _).
  2:{ eexists _, _. split; [done|]. rewrite <-L1, splice_rest by lia. done. }
  destruct (pf_dir _ _ W) as [R1 R2].
  destruct (relocate_safe img pe (dst ⊟ image_base pe) B1 L1 R1 R2) as (img' & r & -> & L2 & _).
  destruct r as [a|x]; eexists _, _; (split; [done|]); (rewrite <-L1, <-L2, splice_rest by lia; done).
Qed.

(** ** Witness *)

(** Two pages: the image of [demo_pe] in the first, the destination the second. *)
Definition demo_slab : list Z := demo_pe 288 ++ replicate (Z.to_nat 7884) 0.

Lemma guest_load_equiv_witness :
  ∃ d r, load_pe32plus (slice 0 308 demo_slab) 0x1000 (slice 0x1000 0x1000 demo_slab) = Returns d r ∧
         load_pe32plus_guest demo_slab 0 308 0x1000 0x1000 = Some (splice 0x1000 d demo_slab, r) ∧
         r = Ok (mkLoaded 0x1000 0x1140 512 1 1).
Proof.
  assert (blen demo_slab = 8192) as L by by vm_compute.
  destruct (guest_load_equiv demo_slab 0 308 0x1000 0x1000 demo_parsed) as (d & r & E & G); try lia.
  - apply Forall_app. split; [apply demo_pe_bytes|]. apply Forall_replicate. unfold is_byte. lia.
  - rewrite L. by vm_compute.
  - vm_compute. reflexivity.
  - by vm_compute.
  - exists d, r. split; [exact E|]. split; [exact G|]. clear G. vm_compute in E. injection E as _ <-. reflexivity.
Defined.

(** Headers longer than the image are copied all the same, past the end of the
    destination: loading [short_pe] (an image of 300 bytes, headers of 304) into a
    destination of 300 bytes changes the byte behind it. *)
Definition short_slab : list Z := short_pe ++ replicate (Z.to_nat 7884) 0.

Theorem long_headers_escape :
  ∃ m r, load_pe32plus_guest short_slab 0 308 0x1000 300 = Some (m, r) ∧
    get short_slab (0x1000 + 300) = Some 0 ∧ get m (0x1000 + 300) = Some 12.
Proof. eexists _, _. split; [vm_compute; reflexivity|]. split; by vm_compute. Qed.

End PeGuest.
