(* ===== verification/Events.v ===== *)
(** * Event and timer services

    [raynu_f/events.rs]: the firmware's event table, timers, task priority levels,
    [WaitForEvent] and [Stall]. The host clock and the console are parameters: the
    sequence of readings they give. A timer is shown to fire at its time and a
    periodic one to keep its phase whatever the host's delays; a wait is shown to
    end, and to end with success when a timer it waits for comes due in time. *)

From Stdlib Require Import Sorting.Sorted.
From S2P Require Import Prelude.

Module Events.

Definition EVENT_SLOTS : nat := 64.
Definition EVENT_HANDLE_TAG : Z := 0x5246000000001000.
Definition EVT_TIMER : Z := 0x80000000.
Definition EVT_NOTIFY_WAIT : Z := 0x100.
Definition EVT_NOTIFY_SIGNAL : Z := 0x200.
Definition TIMER_CANCEL : Z := 0.
Definition TIMER_PERIODIC : Z := 1.
Definition TIMER_RELATIVE : Z := 2.
Definition TPL_APPLICATION : Z := 4.
Definition TPL_CALLBACK : Z := 8.
Definition TPL_HIGH_LEVEL : Z := 31.
Definition EFI_SUCCESS : Z := 0.
Definition EFI_INVALID_PARAMETER : Z := 0x8000000000000002.
Definition EFI_UNSUPPORTED : Z := 0x8000000000000003.
Definition EFI_NOT_READY : Z := 0x8000000000000006.
Definition EFI_OUT_OF_RESOURCES : Z := 0x8000000000000009.
Definition EFI_TIMEOUT : Z := 0x8000000000000012.
Definition WAIT_CAP_100NS : Z := 10 * 10000000.

Record Slot := mkSlot {
  used : bool; event_type : Z; notify_tpl : Z; notify_fn : Z; notify_ctx : Z;
  signaled : bool; timer_kind : Z; deadline : Z; period : Z;
}.

Definition EMPTY : Slot := mkSlot false 0 0 0 0 false TIMER_CANCEL 0 0.

Inductive WaitOutcome :=
| Immediate (i : nat)
| TimerFired (i : nat)
| Stuck
| Error (st : Z).

Record Events := mkEvents { slots : list Slot; tpl : Z; monotonic : Z; timers_fired : Z }.

Definition WAIT_KEY_SLOT : nat := 0.

Definition WAIT_KEY : Slot := mkSlot true EVT_NOTIFY_WAIT TPL_CALLBACK 0 0 false TIMER_CANCEL 0 0.

Definition events_new : Events :=
  mkEvents (<[WAIT_KEY_SLOT := WAIT_KEY]> (replicate EVENT_SLOTS EMPTY)) TPL_APPLICATION 0 0.

(** ** Field updates *)

Definition with_slots (s : Events) (l : list Slot) : Events := mkEvents l (tpl s) (monotonic s) (timers_fired s).

Definition set_signaled (b : bool) (sl : Slot) : Slot :=
  mkSlot (used sl) (event_type sl) (notify_tpl sl) (notify_fn sl) (notify_ctx sl) b (timer_kind sl) (deadline sl) (period sl).

Definition set_timer_fields (kind d p : Z) (sl : Slot) : Slot :=
  mkSlot (used sl) (event_type sl) (notify_tpl sl) (notify_fn sl) (notify_ctx sl) (signaled sl) kind d p.

(** [slots[i]]; the indices are those of [slot_of], in range. *)
Definition slot (s : Events) (i : nat) : Slot := default EMPTY (slots s !! i).

Definition update (s : Events) (i : nat) (f : Slot → Slot) : Events := with_slots s (alter f i (slots s)).

(** ** Operations *)

Definition signal_wait_key (s : Events) : Events := update s WAIT_KEY_SLOT (set_signaled true).

Definition handle_for (i : nat) : Z := Z.lor EVENT_HANDLE_TAG (Z.of_nat i).

Definition slot_of (s : Events) (handle : Z) : option nat :=
  if negb (Z.land handle (bnot64 0xFFF) =? EVENT_HANDLE_TAG) then None
  else
    let i := Z.to_nat (Z.land handle 0xFFF) in
    if (i <? EVENT_SLOTS)%nat && used (slot s i) then Some i else None.

Definition raise_tpl (s : Events) (new : Z) : Events * Z :=
  (if (tpl s <? new) && (new <=? TPL_HIGH_LEVEL)
   then mkEvents (slots s) new (monotonic s) (timers_fired s) else s, tpl s).

Definition restore_tpl (s : Events) (old : Z) : Events :=
  if old <=? TPL_HIGH_LEVEL then mkEvents (slots s) old (monotonic s) (timers_fired s) else s.

Definition next_monotonic (s : Events) : Events * Z :=
  let m := monotonic s ⊞ 1 in (mkEvents (slots s) (tpl s) m (timers_fired s), m).

Definition create (s : Events) (event_type notify_tpl notify_fn notify_ctx : Z) : Events * (Z * Z) :=
  let both := Z.lor EVT_NOTIFY_WAIT EVT_NOTIFY_SIGNAL in
  let needs_notify := negb (Z.land event_type both =? 0) in
  if needs_notify && ((notify_fn =? 0) || (notify_tpl =? 0) || (TPL_HIGH_LEVEL <? notify_tpl))
  then (s, (EFI_INVALID_PARAMETER, 0))
  else if Z.land event_type both =? both then (s, (EFI_INVALID_PARAMETER, 0))
  else
    match find_index (λ sl, negb (used sl)) (slots s) with
    | Some i =>
        (with_slots s (<[i := mkSlot true event_type notify_tpl notify_fn notify_ctx false TIMER_CANCEL 0 0]> (slots s)),
         (EFI_SUCCESS, handle_for i))
    | None => (s, (EFI_OUT_OF_RESOURCES, 0))
    end.

Definition close (s : Events) (handle : Z) : Events * Z :=
  match slot_of s handle with
  | Some i => (with_slots s (<[i := EMPTY]> (slots s)), EFI_SUCCESS)
  | None => (s, EFI_INVALID_PARAMETER)
  end.

Definition signal (s : Events) (handle : Z) : Events * Z :=
  match slot_of s handle with
  | Some i => (update s i (set_signaled true), EFI_SUCCESS)
  | None => (s, EFI_INVALID_PARAMETER)
  end.

Definition set_timer (s : Events) (handle kind trigger now : Z) : Events * Z :=
  match slot_of s handle with
  | None => (s, EFI_INVALID_PARAMETER)
  | Some i =>
      if Z.land (event_type (slot s i)) EVT_TIMER =? 0 then (s, EFI_INVALID_PARAMETER)
      else if kind =? TIMER_CANCEL then
        (update s i (λ sl, set_timer_fields TIMER_CANCEL (deadline sl) 0 sl), EFI_SUCCESS)
      else if kind =? TIMER_RELATIVE then
        (update s i (set_timer_fields TIMER_RELATIVE (sat_add64 now trigger) 0), EFI_SUCCESS)
      else if kind =? TIMER_PERIODIC then
        if trigger =? 0 then (s, EFI_INVALID_PARAMETER)
        else (update s i (set_timer_fields TIMER_PERIODIC (sat_add64 now trigger) trigger), EFI_SUCCESS)
      else (s, EFI_INVALID_PARAMETER)
  end.

(** One slot of [poll_timers]: what becomes of it, and whether its timer fired. *)
Definition due (now : Z) (sl : Slot) : bool :=
  used sl && negb (timer_kind sl =? TIMER_CANCEL) && (deadline sl <=? now).

Definition poll_slot (now : Z) (sl : Slot) : Slot :=
  if due now sl then
    let sl := set_signaled true sl in
    if timer_kind sl =? TIMER_PERIODIC then
      let missed := (now - deadline sl) / period sl ⊞ 1 in
      set_timer_fields (timer_kind sl) (sat_add64 (deadline sl) (missed ⊠ period sl)) (period sl) sl
    else set_timer_fields TIMER_CANCEL (deadline sl) (period sl) sl
  else sl.

Definition poll_timers (s : Events) (now : Z) : Events * Z :=
  let fired := Z.of_nat (length (filter (λ sl, due now sl = true) (slots s))) in
  (mkEvents (poll_slot now <$> slots s) (tpl s) (monotonic s)
     (Z.min (timers_fired s + fired) 4294967295), fired).

Definition check (s : Events) (handle now : Z) (input : bool) : Events * Z :=
  match slot_of s handle with
  | None => (s, EFI_INVALID_PARAMETER)
  | Some i =>
      if negb (Z.land (event_type (slot s i)) EVT_NOTIFY_SIGNAL =? 0) then (s, EFI_INVALID_PARAMETER)
      else
        let s := if input then signal_wait_key s else s in
        let s := (poll_timers s now).1 in
        if signaled (slot s i) then (update s i (set_signaled false), EFI_SUCCESS)
        else (s, EFI_NOT_READY)
  end.

(** The least deadline of an armed timer among the handles. *)
Definition earliest_deadline (s : Events) (handles : list Z) : option Z :=
  foldl (λ best h,
    match slot_of s h with
    | None => best
    | Some i =>
        if timer_kind (slot s i) =? TIMER_CANCEL then best
        else Some (match best with None => deadline (slot s i) | Some b => Z.min b (deadline (slot s i)) end)
    end) None handles.

(** The first handle of the list whose event is signaled, with its position. *)
Fixpoint first_signaled (s : Events) (k : nat) (handles : list Z) : option (nat * nat) :=
  match handles with
  | [] => None
  | h :: handles =>
      let i := default 0%nat (slot_of s h) in
      if signaled (slot s i) then Some (k, i) else first_signaled s (S k) handles
  end.

(** The argument check of [WaitForEvent]. *)
Definition waitable (s : Events) (h : Z) : bool :=
  match slot_of s h with
  | None => false
  | Some i => Z.land (event_type (slot s i)) EVT_NOTIFY_SIGNAL =? 0
  end.

(** The loop from its [k]-th pass on; pass [k] reads [clock k] and, when the key
    event is waited for, [input k]. [None] when the fuel runs out. *)
Fixpoint wait_loop (fuel k : nat) (s : Events) (handles : list Z) (clock : nat → Z) (input : nat → bool) (start : Z)
    (waits_for_key : bool) : option (Events * (Z * Z * WaitOutcome)) :=
  match fuel with
  | O => None
  | S fuel =>
      let now := clock k in
      let s := if waits_for_key && input k then signal_wait_key s else s in
      let '(s, fired) := poll_timers s now in
      match first_signaled s 0 handles with
      | Some (p, i) =>
          let outcome := if (k =? 0)%nat && (fired =? 0) then Immediate p else TimerFired p in
          Some (update s i (set_signaled false), (EFI_SUCCESS, Z.of_nat p, outcome))
      | None =>
          if bool_decide (earliest_deadline s handles = None) && negb waits_for_key
          then Some (s, (EFI_TIMEOUT, 0, Stuck))
          else if WAIT_CAP_100NS <? sat_sub64 now start then Some (s, (EFI_TIMEOUT, 0, Stuck))
          else wait_loop fuel (S k) s handles clock input start waits_for_key
      end
  end.

(** [start] is the reading before the loop. *)
Definition wait (fuel : nat) (s : Events) (handles : list Z) (start : Z) (clock : nat → Z) (input : nat → bool)
    : option (Events * (Z * Z * WaitOutcome)) :=
  if negb (tpl s =? TPL_APPLICATION) then Some (s, (EFI_UNSUPPORTED, 0, Error EFI_UNSUPPORTED))
  else if bool_decide (handles = []) then Some (s, (EFI_INVALID_PARAMETER, 0, Error EFI_INVALID_PARAMETER))
  else if negb (forallb (waitable s) handles) then Some (s, (EFI_INVALID_PARAMETER, 0, Error EFI_INVALID_PARAMETER))
  else wait_loop fuel 0 s handles clock input start (bool_decide (handle_for WAIT_KEY_SLOT ∈ handles)).

(** [Stall]: the number of further readings it takes. *)
Fixpoint stall_loop (fuel k : nat) (clock : nat → Z) (start want : Z) : option nat :=
  match fuel with
  | O => None
  | S fuel => if sat_sub64 (clock k) start <? want then stall_loop fuel (S k) clock start want else Some k
  end.

Definition stall (fuel : nat) (start : Z) (clock : nat → Z) (microseconds : Z) : option nat :=
  stall_loop fuel 0 clock start (Z.min (sat_mul64 microseconds 10) WAIT_CAP_100NS).

(** ** Slots *)

Definition table_wf (s : Events) : Prop := length (slots s) = EVENT_SLOTS.

Lemma slot_lookup s i : table_wf s → (i < EVENT_SLOTS)%nat → slots s !! i = Some (slot s i).
Proof.
  intros W Hi. unfold slot. destruct (slots s !! i) as [sl|] eqn:E; [done|]. apply lookup_ge_None in E. unfold table_wf in W. lia.
Qed.

Lemma slot_update s i f j : table_wf s → (i < EVENT_SLOTS)%nat →
  slot (update s i f) j = if decide (j = i) then f (slot s i) else slot s j.
Proof.
  intros W Hi. unfold slot, update, with_slots. cbn [slots]. destruct (decide (j = i)) as [->|N].
  - by rewrite list_lookup_alter_eq, (slot_lookup s i W Hi).
  - by rewrite list_lookup_alter_ne.
Qed.

Lemma update_wf s i f : table_wf s → table_wf (update s i f).
Proof. intros W. unfold table_wf, update, with_slots. cbn [slots]. by rewrite length_alter. Qed.

Lemma slot_poll s now i : table_wf s → (i < EVENT_SLOTS)%nat → slot (poll_timers s now).1 i = poll_slot now (slot s i).
Proof.
  intros W Hi. unfold poll_timers, slot. cbn [fst slots]. by rewrite list_lookup_fmap, (slot_lookup s i W Hi).
Qed.

Lemma poll_wf s now : table_wf s → table_wf (poll_timers s now).1.
Proof. intros W. unfold table_wf, poll_timers. cbn [fst slots]. by rewrite length_fmap. Qed.

#[local] Hint Resolve update_wf poll_wf : core.

(** Polling and signalling change neither the type of an event nor its use. *)
Definition same_event (a b : Slot) : Prop := used b = used a ∧ event_type b = event_type a.

Lemma poll_same now sl : same_event sl (poll_slot now sl).
Proof. unfold poll_slot. destruct (due now sl); [|done]. by destruct (_ =? _). Qed.

Lemma slot_of_spec s h i : slot_of s h = Some i →
  (i < EVENT_SLOTS)%nat ∧ used (slot s i) = true ∧ Z.land h (bnot64 0xFFF) = EVENT_HANDLE_TAG ∧ i = Z.to_nat (Z.land h 0xFFF).
Proof.
  unfold slot_of. destruct (Z.eqb_spec (Z.land h (bnot64 0xFFF)) EVENT_HANDLE_TAG) as [E|]; cbn [negb]; [|done]. cbv zeta.
  destruct (_ && _) eqn:B; [|done]. intros [= <-]. apply andb_true_iff in B as [B1%Nat.ltb_lt B2]. by split_and!.
Qed.

(** Handles mean the same slot as long as the slots stay in use. *)
Lemma slot_of_ext s s' h : (∀ i, (i < EVENT_SLOTS)%nat → used (slot s' i) = used (slot s i)) → slot_of s' h = slot_of s h.
Proof.
  intros H. unfold slot_of. destruct (negb _); [done|]. cbv zeta.
  destruct (Nat.ltb_spec (Z.to_nat (Z.land h 0xFFF)) EVENT_SLOTS) as [L|]; [|done]. by rewrite H.
Qed.

Definition same_uses (s s' : Events) : Prop :=
  ∀ i, (i < EVENT_SLOTS)%nat → same_event (slot s i) (slot s' i).

Lemma same_uses_slot_of s s' h : same_uses s s' → slot_of s' h = slot_of s h.
Proof. intros H. apply slot_of_ext. intros i Hi. apply (H i Hi). Qed.

Lemma same_uses_trans a b c : same_uses a b → same_uses b c → same_uses a c.
Proof. intros H1 H2 i Hi. destruct (H1 i Hi), (H2 i Hi). split; congruence. Qed.

Lemma poll_uses s now : table_wf s → same_uses s (poll_timers s now).1.
Proof. intros W i Hi. rewrite slot_poll by done. apply poll_same. Qed.

Lemma signaled_uses s i b : table_wf s → (i < EVENT_SLOTS)%nat → same_uses s (update s i (set_signaled b)).
Proof. intros W Hi j Hj. rewrite slot_update by done. by destruct (decide (j = i)) as [->|]. Qed.

(** ** Timers *)

(** The statuses of checks at the times [ts]. *)
Fixpoint checks (s : Events) (h : Z) (ts : list Z) : list Z :=
  match ts with
  | [] => []
  | t :: ts => let '(s, st) := check s h t false in st :: checks s h ts
  end.

(** What they should be: for a one-shot timer, success once, at the first time from
    the deadline on; for a periodic timer started at [t0], success exactly when a
    multiple of the period lies between the previous time [u] and this one. *)
Fixpoint once (d : Z) (done : bool) (ts : list Z) : list Z :=
  match ts with
  | [] => []
  | t :: ts => if negb done && (d <=? t) then EFI_SUCCESS :: once d true ts else EFI_NOT_READY :: once d done ts
  end.

Fixpoint ticks (t0 p u : Z) (ts : list Z) : list Z :=
  match ts with
  | [] => []
  | t :: ts => (if (u - t0) / p <? (t - t0) / p then EFI_SUCCESS else EFI_NOT_READY) :: ticks t0 p t ts
  end.

(** A slot that can be checked. *)
Definition checkable (s : Events) (h : Z) (i : nat) : Prop :=
  table_wf s ∧ slot_of s h = Some i ∧ Z.land (event_type (slot s i)) EVT_NOTIFY_SIGNAL = 0.

(** One check of an event that is not yet signaled. *)
Lemma check_step s h i t : checkable s h i → signaled (slot s i) = false →
  let '(s', st) := check s h t false in
  checkable s' h i ∧
  slot s' i = set_signaled false (poll_slot t (slot s i)) ∧
  st = if due t (slot s i) then EFI_SUCCESS else EFI_NOT_READY.
Proof.
  intros (W & Hs & Hn) Sg. unfold check. rewrite Hs, Hn. cbn [Z.eqb negb]. cbv zeta.
  destruct (slot_of_spec s h i Hs) as (Hi & U & _). rewrite slot_poll by done.
  assert (signaled (poll_slot t (slot s i)) = due t (slot s i)) as E.
  { unfold poll_slot. destruct (due t (slot s i)); [by destruct (_ =? _)|done]. }
  rewrite E. pose proof (poll_uses s t W) as P. pose proof (poll_wf s t W) as W'.
  destruct (due t (slot s i)) eqn:D.
  - assert (same_uses s (update (poll_timers s t).1 i (set_signaled false))) as P'.
    { eapply same_uses_trans; [exact P|]. by apply signaled_uses. }
    split_and!; [split_and!|..|done]; [by apply update_wf|by rewrite (same_uses_slot_of s) by done| |].
    + destruct (P' i Hi) as [_ ->]. done.
    + rewrite slot_update, decide_True by done. by rewrite slot_poll.
  - split_and!; [split_and!|..|done]; [done|by rewrite (same_uses_slot_of s) by done| |].
    + destruct (P i Hi) as [_ ->]. done.
    + rewrite slot_poll by done. unfold poll_slot. rewrite D. unfold set_signaled. rewrite <-Sg. by destruct (slot s i).
Qed.

Lemma once_done d ts : once d true ts = (λ _, EFI_NOT_READY) <$> ts.
Proof. induction ts as [|t ts IH]; cbn; [done|]. by f_equal. Qed.

Lemma checks_once h i d ts : ∀ s, checkable s h i → signaled (slot s i) = false → used (slot s i) = true →
  timer_kind (slot s i) = TIMER_CANCEL ∨ (timer_kind (slot s i) = TIMER_RELATIVE ∧ deadline (slot s i) = d) →
  checks s h ts = once d (timer_kind (slot s i) =? TIMER_CANCEL) ts.
Proof.
  induction ts as [|t ts IH]; intros s C Sg U K; [done|]. cbn [checks once].
  pose proof (check_step s h i t C Sg) as S. destruct (check s h t false) as [s' st]. destruct S as (C' & E & ->).
  assert (used (slot s' i) = true) as U' by (rewrite E; destruct (poll_same t (slot s i)) as [P _]; cbn; by rewrite P).
  assert (signaled (slot s' i) = false) as Sg' by by rewrite E.
  unfold poll_slot, due in *. rewrite U in *. destruct K as [K|[K Kd]]; rewrite K in *; cbn [andb negb] in *.
  - change (TIMER_CANCEL =? TIMER_CANCEL) with true in *. cbn [negb andb] in *. f_equal.
    assert (timer_kind (slot s' i) = TIMER_CANCEL) as K' by (rewrite E; exact K).
    rewrite (IH s') by (try done; by left). by rewrite K'.
  - change (TIMER_RELATIVE =? TIMER_CANCEL) with false in *. cbn [negb andb] in *. rewrite Kd in *.
    destruct (d <=? t); [f_equal|f_equal].
    + assert (timer_kind (slot s' i) = TIMER_CANCEL) as K' by (rewrite E; cbn; by rewrite K).
      rewrite (IH s') by (try done; by left). by rewrite K'.
    + assert (timer_kind (slot s' i) = TIMER_RELATIVE) as K' by (rewrite E; exact K).
      rewrite (IH s'); [by rewrite K'|done..|]. right. split; [done|]. rewrite E. exact Kd.
Qed.

(** The state of a periodic timer after it was last looked at, at time [u]. *)
Definition in_phase (sl : Slot) (t0 p u : Z) : Prop :=
  used sl = true ∧ signaled sl = false ∧ timer_kind sl = TIMER_PERIODIC ∧ period sl = p ∧
  deadline sl = t0 + p * ((u - t0) / p + 1).

Lemma catch_up t0 p u t : 0 < p → t0 + p * ((u - t0) / p + 1) ≤ t →
  t0 + p * ((u - t0) / p + 1) + ((t - (t0 + p * ((u - t0) / p + 1))) / p + 1) * p = t0 + p * ((t - t0) / p + 1).
Proof.
  intros Hp Hd. set (q := (u - t0) / p + 1) in *.
  replace (t - (t0 + p * q)) with (t - t0 + - q * p) by lia. rewrite Z.div_add by lia. lia.
Qed.

Lemma due_iff t0 p u t : 0 < p → (t0 + p * ((u - t0) / p + 1) <=? t) = ((u - t0) / p <? (t - t0) / p).
Proof.
  intros Hp. destruct (Z.leb_spec (t0 + p * ((u - t0) / p + 1)) t) as [H|H]; symmetry.
  - apply Z.ltb_lt. assert ((u - t0) / p + 1 ≤ (t - t0) / p); [|lia]. apply Z.div_le_lower_bound; lia.
  - apply Z.ltb_ge. assert ((t - t0) / p < (u - t0) / p + 1); [|lia]. apply Z.div_lt_upper_bound; lia.
Qed.

Lemma poll_in_phase sl t0 p u t : 0 < p → 0 ≤ t0 ≤ u → u ≤ t → t + p < W64 → in_phase sl t0 p u →
  due t sl = ((u - t0) / p <? (t - t0) / p) ∧ in_phase (set_signaled false (poll_slot t sl)) t0 p t.
Proof.
  intros Hp Hu Ht Hw (U & S & K & P & D). unfold poll_slot, due. rewrite U, K, D. cbn [andb negb].
  change (TIMER_PERIODIC =? TIMER_CANCEL) with false. cbn [negb andb]. rewrite due_iff by done. split; [done|].
  destruct (Z.ltb_spec ((u - t0) / p) ((t - t0) / p)) as [L|L].
  - assert (t0 + p * ((u - t0) / p + 1) ≤ t) as Hd by (apply Z.leb_le; rewrite due_iff by done; by apply Z.ltb_lt).
    set (d := t0 + p * ((u - t0) / p + 1)) in *.
    assert (0 ≤ (t - d) / p) as Q0 by (apply Z.div_pos; lia).
    pose proof (Z.mul_div_le (t - d) p Hp) as Q1.
    assert (0 ≤ d) by (unfold d; pose proof (Z.div_pos (u - t0) p); nia).
    assert ((t - d) / p ≤ t) as Q2 by nia.
    cbn [set_signaled timer_kind deadline period]. rewrite K, P, D. change (TIMER_PERIODIC =? TIMER_PERIODIC) with true. cbv iota.
    fold d. rewrite (add64_small ((t - d) / p) 1) by mlia. rewrite mul64_small by mlia.
    replace (sat_add64 d (((t - d) / p + 1) * p)) with (d + ((t - d) / p + 1) * p) by (mach_unfold; lia).
    unfold d at 1. split_and!; [done..|]. cbn. unfold d. by apply catch_up.
  - assert ((t - t0) / p = (u - t0) / p) as Eq by (pose proof (Z.div_le_mono (u - t0) (t - t0) p Hp ltac:(lia)); lia).
    split_and!; [done..|]. cbn. by rewrite D, Eq.
Qed.

Lemma checks_ticks h i t0 p ts : 0 < p → 0 ≤ t0 → ∀ s u, checkable s h i → in_phase (slot s i) t0 p u →
  t0 ≤ u → Sorted Z.le (u :: ts) → Forall (λ t, t + p < W64) ts → checks s h ts = ticks t0 p u ts.
Proof.
  intros Hp H0. induction ts as [|t ts IH]; intros s u C Ph Hu So Fw; [done|]. cbn [checks ticks].
  apply Forall_cons in Fw as [Fw Fws]. apply Sorted_inv in So as [So Hd]. apply HdRel_inv in Hd.
  destruct (poll_in_phase (slot s i) t0 p u t Hp ltac:(lia) Hd Fw Ph) as [D Ph'].
  pose proof (check_step s h i t C (proj1 (proj2 Ph))) as S. destruct (check s h t false) as [s' st].
  destruct S as (C' & E & ->). rewrite D. f_equal. apply IH; [done|by rewrite E|lia|done|done].
Qed.

(** [SetTimer] on a timer event. *)
Lemma set_timer_spec s h i kind trigger now : checkable s h i → Z.land (event_type (slot s i)) EVT_TIMER ≠ 0 →
  kind = TIMER_RELATIVE ∨ (kind = TIMER_PERIODIC ∧ 0 < trigger) →
  let '(s', st) := set_timer s h kind trigger now in
  st = EFI_SUCCESS ∧ checkable s' h i ∧
  slot s' i = set_timer_fields kind (sat_add64 now trigger) (if kind =? TIMER_PERIODIC then trigger else 0) (slot s i).
Proof.
  intros (W & Hs & Hn) T K. unfold set_timer. rewrite Hs, (proj2 (Z.eqb_neq _ _) T).
  destruct (slot_of_spec s h i Hs) as (Hi & U & _).
  assert (∀ d p, let s' := update s i (set_timer_fields kind d p) in
    checkable s' h i ∧ slot s' i = set_timer_fields kind d p (slot s i)) as G.
  { intros d p. cbv zeta. assert (same_uses s (update s i (set_timer_fields kind d p))) as P.
    { intros j Hj. rewrite slot_update by done. by destruct (decide (j = i)) as [->|]. }
    split; [|by rewrite slot_update, decide_True].
    split_and!; [by apply update_wf|by rewrite (same_uses_slot_of s) by done|]. by destruct (P i Hi) as [_ ->]. }
  destruct K as [->|[-> Ht]].
  - destruct (G (sat_add64 now trigger) 0). by split_and!.
  - cbn [Z.eqb TIMER_PERIODIC TIMER_CANCEL TIMER_RELATIVE Pos.eqb]. rewrite (proj2 (Z.eqb_neq _ _)) by lia.
    destruct (G (sat_add64 now trigger) trigger). by split_and!.
Qed.

(** A timer fires at its time. After [SetTimer] at [now], checks at non-decreasing
    times succeed, for a one-shot timer, once, at the first time from [now + trigger]
    on; for a periodic timer, exactly when a multiple of the period has passed since
    the previous check: late polls neither drift the phase nor queue a burst. *)
Theorem timer_exact (s : Events) (h : Z) (i : nat) (kind trigger now : Z) (ts : list Z) :
  checkable s h i → signaled (slot s i) = false → Z.land (event_type (slot s i)) EVT_TIMER ≠ 0 →
  0 ≤ now → 0 ≤ trigger → Sorted Z.le (now :: ts) → Forall (λ t, t + trigger < W64) (now :: ts) →
  kind = TIMER_RELATIVE ∨ (kind = TIMER_PERIODIC ∧ 0 < trigger) →
  let '(s', st) := set_timer s h kind trigger now in
  st = EFI_SUCCESS ∧
  checks s' h ts = if kind =? TIMER_PERIODIC then ticks now trigger now ts else once (now + trigger) false ts.
Proof.
  intros C Sg T H0 Ht So Fw K. pose proof (set_timer_spec s h i kind trigger now C T K) as S.
  destruct (slot_of_spec s h i (proj1 (proj2 C))) as (_ & U & _).
  destruct (set_timer s h kind trigger now) as [s' st]. destruct S as (-> & C' & E). split; [done|].
  apply Forall_cons in Fw as [Fn Fw]. replace (sat_add64 now trigger) with (now + trigger) in E by mlia.
  destruct K as [->|[-> Hp]].
  - change (TIMER_RELATIVE =? TIMER_PERIODIC) with false in *. cbv iota in *.
    rewrite (checks_once h i (now + trigger) ts s') by (try done; rewrite E; try done; by right). by rewrite E.
  - rewrite Z.eqb_refl in *. apply (checks_ticks h i); try done. rewrite E. split_and!; [done..|]. cbn.
    rewrite Z.sub_diag, Z.div_0_l by lia. lia.
Qed.

(** ** Waiting *)

Section Wait.
Context (handles : list Z) (clock : nat → Z) (input : nat → bool) (start : Z) (key : bool).

(** The state in which pass [k] looks at the events. *)
Definition at_pass (s : Events) (k : nat) : Events :=
  (poll_timers (if key && input k then signal_wait_key s else s) (clock k)).1.

Lemma pass_wf s k : table_wf s → table_wf (at_pass s k).
Proof. intros W. unfold at_pass. apply poll_wf. destruct (_ && _); [by apply update_wf|done]. Qed.

Lemma pass_uses s k : table_wf s → same_uses s (at_pass s k).
Proof.
  intros W. unfold at_pass. destruct (_ && _); [|by apply poll_uses].
  eapply same_uses_trans; [apply (signaled_uses s WAIT_KEY_SLOT true); [done|unfold WAIT_KEY_SLOT, EVENT_SLOTS; lia]|].
  by apply poll_uses, update_wf.
Qed.

(** What a pass leaves of a slot: a signal stays, a timer that is due signals, any
    other stays armed. *)
Lemma pass_slot s k i : table_wf s → (i < EVENT_SLOTS)%nat →
  (signaled (slot s i) = true → signaled (slot (at_pass s k) i) = true) ∧
  (due (clock k) (slot s i) = true → signaled (slot (at_pass s k) i) = true) ∧
  (due (clock k) (slot s i) = false →
     timer_kind (slot (at_pass s k) i) = timer_kind (slot s i) ∧ deadline (slot (at_pass s k) i) = deadline (slot s i)).
Proof.
  intros W Hi. unfold at_pass.
  set (s1 := if key && input k then signal_wait_key s else s).
  assert (table_wf s1) as W1 by (unfold s1; destruct (_ && _); [by apply update_wf|done]).
  assert (slot s1 i = slot s i ∨ slot s1 i = set_signaled true (slot s i)) as E.
  { unfold s1. destruct (_ && _); [|by left]. unfold signal_wait_key.
    rewrite slot_update by (done || (unfold WAIT_KEY_SLOT, EVENT_SLOTS; lia)). destruct (decide _) as [->|]; [by right|by left]. }
  rewrite slot_poll by done.
  assert (due (clock k) (slot s1 i) = due (clock k) (slot s i) ∧ timer_kind (slot s1 i) = timer_kind (slot s i) ∧
          deadline (slot s1 i) = deadline (slot s i)) as (Ed & Ek & El) by (by destruct E as [->| ->]).
  assert (signaled (slot s i) = true → signaled (slot s1 i) = true) as Es by (by destruct E as [->| ->]).
  unfold poll_slot. rewrite Ed. destruct (due (clock k) (slot s i)); split_and!; try done; intros Hs;
    cbn [set_signaled timer_kind]; repeat case_match; cbn; auto.
Qed.

(** And nothing else signals: what is signaled after a pass was signaled before it,
    has a timer that is due, or is the key event with a key waiting. *)
Lemma pass_signaled s k i : table_wf s → (i < EVENT_SLOTS)%nat → signaled (slot (at_pass s k) i) = true →
  signaled (slot s i) = true ∨ due (clock k) (slot s i) = true ∨ (i = WAIT_KEY_SLOT ∧ key = true ∧ input k = true).
Proof.
  intros W Hi. unfold at_pass. destruct (key && input k) eqn:B.
  - apply andb_true_iff in B as [B1 B2]. rewrite slot_poll by (done || by apply update_wf). unfold signal_wait_key.
    rewrite slot_update by (done || (unfold WAIT_KEY_SLOT, EVENT_SLOTS; lia)). destruct (decide _) as [->|]; [tauto|].
    unfold poll_slot. destruct (due _ _) eqn:D; tauto.
  - rewrite slot_poll by done. unfold poll_slot. destruct (due _ _) eqn:D; tauto.
Qed.

(** A key that waits signals its event. *)
Lemma pass_key s k : table_wf s → key = true → input k = true → signaled (slot (at_pass s k) WAIT_KEY_SLOT) = true.
Proof.
  intros W K I. unfold at_pass. rewrite K, I. cbn [andb]. rewrite slot_poll by ((by apply update_wf) || (unfold WAIT_KEY_SLOT, EVENT_SLOTS; lia)).
  unfold signal_wait_key. rewrite slot_update, decide_True by (done || (unfold WAIT_KEY_SLOT, EVENT_SLOTS; lia)).
  unfold poll_slot. destruct (due _ _); [|done]. cbn. by destruct (_ =? _).
Qed.

Lemma first_signaled_None s k hs : first_signaled s k hs = None →
  ∀ h, h ∈ hs → signaled (slot s (default 0%nat (slot_of s h))) = false.
Proof.
  revert k. induction hs as [|x hs IH]; intros k H h Hh; [by apply elem_of_nil in Hh|]. cbn [first_signaled] in H. cbv zeta in H.
  destruct (signaled (slot s (default 0%nat (slot_of s x)))) eqn:E; [done|].
  apply elem_of_cons in Hh as [->|Hh]; [done|]. by eapply IH.
Qed.

Lemma first_signaled_Some s k hs p i : first_signaled s k hs = Some (p, i) →
  ∃ h, hs !! (p - k)%nat = Some h ∧ (k ≤ p)%nat ∧ i = default 0%nat (slot_of s h) ∧ signaled (slot s i) = true ∧
       ∀ q h', (q < p - k)%nat → hs !! q = Some h' → signaled (slot s (default 0%nat (slot_of s h'))) = false.
Proof.
  revert k. induction hs as [|h hs IH]; intros k H; cbn [first_signaled] in H; [done|]. cbv zeta in H.
  destruct (signaled (slot s (default 0%nat (slot_of s h)))) eqn:E.
  - injection H as <- <-. exists h. rewrite Nat.sub_diag. split_and!; [done|lia|done|done|]. intros; lia.
  - apply IH in H as (h' & H1 & H2 & H3 & H4 & H5). exists h'. replace (p - k)%nat with (S (p - S k)) by lia.
    split_and!; [done|lia|done|done|]. intros [|q] h'' Hq Hh; [cbn in Hh; by injection Hh as <-|]. apply (H5 q); [lia|done].
Qed.

Lemma first_signaled_found s h i : h ∈ handles → slot_of s h = Some i → signaled (slot s i) = true →
  ∀ k, first_signaled s k handles ≠ None.
Proof.
  intros Hh Hs Sg. induction handles as [|h' hs IH]; intros k; [by apply elem_of_nil in Hh|]. cbn [first_signaled]. cbv zeta.
  apply elem_of_cons in Hh as [<-|Hh]; [rewrite Hs; cbn [default id]; by rewrite Sg|].
  destruct (signaled (slot s (default 0%nat (slot_of s h')))); [done|]. by apply IH.
Qed.

Lemma earliest_some s h i : h ∈ handles → slot_of s h = Some i → timer_kind (slot s i) ≠ TIMER_CANCEL →
  earliest_deadline s handles ≠ None.
Proof.
  intros Hh Hs K. unfold earliest_deadline. set (f := λ best h, match slot_of s h with None => best | Some i => _ end).
  assert (∀ hs b, b ≠ None → foldl f b hs ≠ None) as Keep.
  { induction hs as [|x hs IH]; intros b Hb; cbn [foldl]; [done|]. apply IH. unfold f. destruct (slot_of s x); [|done]. by destruct (_ =? _). }
  enough (∀ b, foldl f b handles ≠ None) by done.
  induction handles as [|h' hs IH]; intros b; [by apply elem_of_nil in Hh|]. cbn [foldl].
  apply elem_of_cons in Hh as [<-|Hh]; [|by apply IH]. apply Keep. unfold f. by rewrite Hs, (proj2 (Z.eqb_neq _ _) K).
Qed.

(** One pass, with the state named. *)
Lemma wait_pass fuel k s : wait_loop (S fuel) k s handles clock input start key =
  match first_signaled (at_pass s k) 0 handles with
  | Some (p, i) =>
      let fired := (poll_timers (if key && input k then signal_wait_key s else s) (clock k)).2 in
      Some (update (at_pass s k) i (set_signaled false),
            (EFI_SUCCESS, Z.of_nat p, if (k =? 0)%nat && (fired =? 0) then Immediate p else TimerFired p))
  | None =>
      if bool_decide (earliest_deadline (at_pass s k) handles = None) && negb key
      then Some (at_pass s k, (EFI_TIMEOUT, 0, Stuck))
      else if WAIT_CAP_100NS <? sat_sub64 (clock k) start then Some (at_pass s k, (EFI_TIMEOUT, 0, Stuck))
      else wait_loop fuel (S k) (at_pass s k) handles clock input start key
  end.
Proof. unfold at_pass. cbn [wait_loop]. by destruct (poll_timers _ _) as [s' fired]. Qed.

(** An event of the table [s] is ready at pass [k]: signaled on entry, its timer due at
    one of the readings so far, or the key event after a key. *)
Definition ready (s : Events) (k i : nat) : Prop :=
  signaled (slot s i) = true ∨
  (timer_kind (slot s i) ≠ TIMER_CANCEL ∧ ∃ j, (j ≤ k)%nat ∧ deadline (slot s i) ≤ clock j) ∨
  (i = WAIT_KEY_SLOT ∧ key = true ∧ ∃ j, (j ≤ k)%nat ∧ input j = true).

(** No event of the list is ready at pass [k]. *)
Definition idle (s : Events) (k : nat) : Prop :=
  ∀ h i, h ∈ handles → slot_of s h = Some i → ¬ ready s k i.

(** The event at position [p] is, and none before it. *)
Definition first_ready (s : Events) (k p : nat) : Prop :=
  (∃ h i, handles !! p = Some h ∧ slot_of s h = Some i ∧ ready s k i) ∧
  ∀ q h i, (q < p)%nat → handles !! q = Some h → slot_of s h = Some i → ¬ ready s k i.

(** Nothing of the list can ever become ready: no timer is armed, no key is waited for. *)
Definition no_source (s : Events) : Prop :=
  key = false ∧ ∀ h i, h ∈ handles → slot_of s h = Some i → timer_kind (slot s i) = TIMER_CANCEL.

(** How the loop ends, by reading [n] at the latest: at the first pass [k] at which an
    event of the list is ready, with the first such event, its signal consumed; or
    without one, nothing ready up to then, at the cap or when there is nothing to wait for. *)
Definition ended (s : Events) (n : nat) (r : Events * (Z * Z * WaitOutcome)) : Prop :=
  let '(s', (st, idx, _)) := r in
  ∃ k, (k ≤ n)%nat ∧ (∀ j, (j < k)%nat → idle s j) ∧
  ((st = EFI_SUCCESS ∧ first_ready s k (Z.to_nat idx) ∧
    ∀ q h i, (q ≤ Z.to_nat idx)%nat → handles !! q = Some h → slot_of s h = Some i → signaled (slot s' i) = false) ∨
   (st = EFI_TIMEOUT ∧ idle s k ∧ (no_source s ∨ WAIT_CAP_100NS < clock k - start))).

(** The table [s] before pass [k] of a wait that began with [s0] and found nothing so far. *)
Record waiting (s0 : Events) (k : nat) (s : Events) : Prop := {
  wt_wf : table_wf s;
  wt_uses : same_uses s0 s;
  wt_same h i : h ∈ handles → slot_of s0 h = Some i →
    signaled (slot s i) = signaled (slot s0 i) ∧ timer_kind (slot s i) = timer_kind (slot s0 i) ∧
    deadline (slot s i) = deadline (slot s0 i);
  wt_idle j : (j < k)%nat → idle s0 j;
}.

(** The pass signals exactly the events that are ready. *)
Lemma pass_ready s0 k s h i : waiting s0 k s → h ∈ handles → slot_of s0 h = Some i →
  signaled (slot (at_pass s k) i) = true ↔ ready s0 k i.
Proof.
  intros [W U Sm Id] Hh Hi. destruct (Sm h i Hh Hi) as (E1 & E2 & E3).
  assert (slot_of s h = Some i) as Hi' by by rewrite (same_uses_slot_of s0 s).
  destruct (slot_of_spec s h i Hi') as (Lt & Us & _). destruct (pass_slot s k i W Lt) as (P1 & P2 & _).
  assert (due (clock k) (slot s i) = true ↔ timer_kind (slot s0 i) ≠ TIMER_CANCEL ∧ deadline (slot s0 i) ≤ clock k) as D.
  { unfold due. rewrite Us, E2, E3. cbn [andb]. rewrite andb_true_iff, negb_true_iff, Z.eqb_neq, Z.leb_le. done. }
  split.
  - intros Sg. destruct (pass_signaled s k i W Lt Sg) as [H|[H%D|(H1 & H2 & H3)]].
    + left. congruence.
    + right. left. split; [tauto|]. exists k. split; [lia|tauto].
    + right. right. split_and!; [done..|]. by exists k.
  - assert (∀ j, (j < k)%nat → ¬ ready s0 j i) as N by (intros j Hj; by apply (Id j Hj h)).
    intros [H|[(H1 & j & H2 & H3)|(H1 & H2 & j & H3 & H4)]].
    + apply P1. congruence.
    + destruct (decide (j = k)) as [->|]; [apply P2, D; done|]. destruct (N j ltac:(lia)). right. left. split; [done|]. by exists j.
    + destruct (decide (j = k)) as [->|]; [subst i; by apply pass_key|]. destruct (N j ltac:(lia)). right. right. split_and!; [done..|]. by exists j.
Qed.

(** A pass that finds nothing keeps waiting. *)
Lemma pass_waiting s0 k s : waiting s0 k s → idle s0 k → waiting s0 (S k) (at_pass s k).
Proof.
  intros Wt Q. destruct Wt as [W U Sm Id] eqn:E. clear E. split.
  - by apply pass_wf.
  - eapply same_uses_trans; [done|by apply pass_uses].
  - intros h i Hh Hi. specialize (Q h i Hh Hi) as N. destruct (Sm h i Hh Hi) as (E1 & E2 & E3).
    assert (slot_of s h = Some i) as Hi' by by rewrite (same_uses_slot_of s0 s).
    destruct (slot_of_spec s h i Hi') as (Lt & Us & _). destruct (pass_slot s k i W Lt) as (_ & P2 & P3).
    pose proof (pass_ready s0 k s h i Wt Hh Hi) as R.
    assert (signaled (slot (at_pass s k) i) = false) as Sg by (apply not_true_iff_false; tauto).
    destruct (due (clock k) (slot s i)) eqn:D; [rewrite P2 in Sg; done|]. destruct (P3 eq_refl) as [-> ->].
    split_and!; [|done..]. rewrite Sg. symmetry. apply not_true_iff_false. intros H. apply N. by left.
  - intros j Hj. destruct (decide (j = k)) as [->|]; [done|]. apply Id. lia.
Qed.

Lemma wait_loop_ends s0 fuel : (∀ h, h ∈ handles → is_Some (slot_of s0 h)) → ∀ k s n, waiting s0 k s →
  (k ≤ n < k + fuel)%nat → start + WAIT_CAP_100NS < clock n →
  ∃ r, wait_loop fuel k s handles clock input start key = Some r ∧ ended s0 n r.
Proof.
  intros Hv. induction fuel as [|fuel IH]; intros k s n Wt Hn Hc; [lia|]. rewrite wait_pass.
  pose proof (pass_uses s k (wt_wf _ _ _ Wt)) as P. pose proof (pass_wf s k (wt_wf _ _ _ Wt)) as W'.
  assert (∀ h, slot_of (at_pass s k) h = slot_of s0 h) as So.
  { intros h. apply same_uses_slot_of. eapply same_uses_trans; [apply Wt|done]. }
  destruct (first_signaled (at_pass s k) 0 handles) as [[p i]|] eqn:Fs.
  - eexists. split; [done|]. exists k. split; [lia|]. split; [apply Wt|]. left. split; [done|].
    apply first_signaled_Some in Fs as (h & H1 & _ & H2 & H4 & H5). rewrite Nat.sub_0_r in *. rewrite Nat2Z.id.
    rewrite So in H2. destruct (Hv h) as [j Hj]; [by eapply list_elem_of_lookup_2|]. rewrite Hj in H2. cbn in H2. subst i.
    assert (∀ q h' i, (q < p)%nat → handles !! q = Some h' → slot_of s0 h' = Some i → signaled (slot (at_pass s k) i) = false) as Before.
    { intros q h' i Hq Hh Hi. specialize (H5 q h' Hq Hh). by rewrite So, Hi in H5. }
    split; [split|].
    + exists h, j. split_and!; [done..|]. apply (pass_ready s0 k s h j Wt); [by eapply list_elem_of_lookup_2|done..].
    + intros q h' i Hq Hh Hi R. apply (pass_ready s0 k s h' i Wt) in R; [|by eapply list_elem_of_lookup_2|done].
      by rewrite (Before q h' i) in R.
    + destruct (slot_of_spec (at_pass s k) h j) as (Hlt & _); [by rewrite So|]. intros q h' i Hq Hh Hi.
      rewrite slot_update by done. destruct (decide (i = j)); [done|].
      destruct (decide (q = p)) as [->|Nq]; [rewrite H1 in Hh; injection Hh as <-; congruence|]. apply (Before q h'); [lia|done..].
  - assert (idle s0 k) as Q.
    { intros h i Hh Hi R. apply (pass_ready s0 k s h i Wt Hh Hi) in R.
      pose proof (first_signaled_None _ _ _ Fs h Hh) as N. rewrite So, Hi in N. change (default 0%nat (Some i)) with i in N. congruence. }
    destruct (_ && _) eqn:B.
    { apply andb_true_iff in B as [B1%bool_decide_eq_true B2%negb_true_iff]. eexists. split; [done|]. exists k. split; [lia|].
      split; [apply Wt|]. right. split_and!; [done..|]. left. split; [done|]. intros h i Hh Hi.
      destruct (wt_same _ _ _ (pass_waiting s0 k s Wt Q) h i Hh Hi) as (_ & <- & _).
      destruct (decide (timer_kind (slot (at_pass s k) i) = TIMER_CANCEL)) as [|N]; [done|].
      destruct (earliest_some (at_pass s k) h i Hh); [by rewrite So|done|done]. }
    destruct (Z.ltb_spec WAIT_CAP_100NS (sat_sub64 (clock k) start)) as [L|L].
    { eexists. split; [done|]. exists k. split; [lia|]. split; [apply Wt|]. right. split_and!; [done..|]. right.
      unfold sat_sub64, WAIT_CAP_100NS in *. lia. }
    destruct (decide (k = n)) as [->|N]; [exfalso; unfold sat_sub64, WAIT_CAP_100NS in *; lia|].
    apply IH; [by apply pass_waiting|lia|done].
Qed.

(** A waited event that is signaled, or whose timer comes due before the cap. *)
Lemma wait_loop_wakes fuel : ∀ k s m h i, table_wf s → h ∈ handles → slot_of s h = Some i → (k ≤ m < k + fuel)%nat →
  (∀ j, (k ≤ j < m)%nat → clock j ≤ start + WAIT_CAP_100NS) →
  signaled (slot s i) = true ∨ (timer_kind (slot s i) ≠ TIMER_CANCEL ∧ deadline (slot s i) ≤ clock m) →
  ∃ s' idx o, wait_loop fuel k s handles clock input start key = Some (s', (EFI_SUCCESS, idx, o)).
Proof.
  induction fuel as [|fuel IH]; intros k s m h i W Hh Hs Hm Cap Ready; [lia|]. rewrite wait_pass.
  destruct (slot_of_spec s h i Hs) as (Hi & U & _). destruct (pass_slot s k i W Hi) as (K1 & K2 & K3).
  pose proof (pass_uses s k W) as P. pose proof (pass_wf s k W) as W'.
  assert (slot_of (at_pass s k) h = Some i) as Hs' by by rewrite (same_uses_slot_of s _ _ P).
  destruct (first_signaled (at_pass s k) 0 handles) as [[p j]|] eqn:Fs; [by eexists _, _, _|].
  assert (signaled (slot (at_pass s k) i) = false) as Sg.
  { apply not_true_iff_false. intros E. by apply (first_signaled_found (at_pass s k) h i Hh Hs' E 0%nat). }
  destruct Ready as [R|[R1 R2]]; [rewrite K1 in Sg by done; done|].
  destruct (due (clock k) (slot s i)) eqn:D; [rewrite K2 in Sg by done; done|]. destruct (K3 eq_refl) as [E1 E2].
  assert (k ≠ m) as N.
  { intros ->. unfold due in D. rewrite U, (proj2 (Z.eqb_neq _ _) R1), (proj2 (Z.leb_le _ _) R2) in D. done. }
  rewrite bool_decide_eq_false_2 by (by eapply earliest_some; [| |rewrite E1]). cbn [andb].
  specialize (Cap k ltac:(lia)) as Ck. rewrite (proj2 (Z.ltb_ge _ _)) by (unfold sat_sub64, WAIT_CAP_100NS in *; lia).
  apply (IH (S k) (at_pass s k) m h i); try done; [lia|intros j Hj; apply Cap; lia|]. right. by rewrite E1, E2.
Qed.

End Wait.

(** C22: [WaitForEvent] ends and does not miss a timer. Called at application priority with
    events that can be waited for, under a clock that some reading [n] puts past the cap,
    it returns by that reading. It succeeds at the first pass at
    which an event of the list is ready (signaled on entry, its timer due, or a key
    waiting), with the position of the first such event, whose signal it consumes;
    it times out only with nothing ready, past the cap or with nothing to wait for.
    So when an event of the list is signaled on entry, or its timer is due at some
    reading [m] with no earlier reading past the cap, it returns success. *)
Theorem wait_exact (s : Events) (handles : list Z) (start : Z) (clock : nat → Z) (input : nat → bool) (n : nat) :
  table_wf s → tpl s = TPL_APPLICATION → handles ≠ [] → forallb (waitable s) handles = true →
  start + WAIT_CAP_100NS < clock n →
  ∃ r, wait (S n) s handles start clock input = Some r ∧
    ended handles clock input start (bool_decide (handle_for WAIT_KEY_SLOT ∈ handles)) s n r ∧
    ∀ h i m, h ∈ handles → slot_of s h = Some i → (m ≤ n)%nat →
      (∀ j, (j < m)%nat → clock j ≤ start + WAIT_CAP_100NS) →
      signaled (slot s i) = true ∨ (timer_kind (slot s i) ≠ TIMER_CANCEL ∧ deadline (slot s i) ≤ clock m) →
      r.2.1.1 = EFI_SUCCESS.
Proof.
  intros W T N Wt Hc. unfold wait. rewrite T, Z.eqb_refl, bool_decide_eq_false_2, Wt by done. cbn [negb].
  set (key := bool_decide _).
  destruct (wait_loop_ends handles clock input start key s (S n)) with (k := 0%nat) (s := s) (n := n) as (r & E & R); [| |lia|done|].
  { intros h Hh. rewrite forallb_forall in Wt. apply list_elem_of_In, Wt in Hh. unfold waitable in Hh. by destruct (slot_of s h). }
  { split; [done|by split|done|]. intros; lia. }
  exists r. split_and!; [done..|]. intros h i m Hh Hs Hm Cap Ready.
  destruct (wait_loop_wakes handles clock input start key (S n) 0 s m h i W Hh Hs ltac:(lia)) as (s' & idx & o & E'); [|done|].
  - intros j Hj. apply Cap. lia.
  - rewrite E in E'. by injection E' as ->.
Qed.

(** ** Witnesses *)

Definition demo_events : Events := (create events_new EVT_TIMER 0 0 0).1.

Lemma demo_checkable : checkable demo_events (handle_for 1) 1.
Proof. by vm_compute. Qed.

Lemma timer_exact_witness :
  let '(s', st) := set_timer demo_events (handle_for 1) TIMER_PERIODIC 100 1000 in
  st = EFI_SUCCESS ∧
  checks s' (handle_for 1) [1050; 1120; 1130; 1450] = [EFI_NOT_READY; EFI_SUCCESS; EFI_NOT_READY; EFI_SUCCESS].
Proof.
  pose proof (timer_exact demo_events (handle_for 1) 1 TIMER_PERIODIC 100 1000 [1050; 1120; 1130; 1450] demo_checkable) as H.
  apply H; [done|done|lia|lia|repeat constructor; lia| |right; split; [done|lia]].
  repeat apply Forall_cons_2; [mlia..|apply Forall_nil_2].
Defined.

Definition slow_clock (k : nat) : Z := Z.of_nat k * 20000000.

Lemma wait_exact_witness :
  ∃ r, wait 7 (set_timer demo_events (handle_for 1) TIMER_RELATIVE 30000000 0).1 [handle_for 0; handle_for 1] 0 slow_clock
         (λ _, false) = Some r ∧ r.2.1.1 = EFI_SUCCESS.
Proof.
  destruct (wait_exact (set_timer demo_events (handle_for 1) TIMER_RELATIVE 30000000 0).1 [handle_for 0; handle_for 1] 0
    slow_clock (λ _, false) 6) as (r & E & _ & L); [by vm_compute..|].
  exists r. split; [exact E|]. apply (L (handle_for 1) 1%nat 2%nat); [|by vm_compute|lia| |right; split; by vm_compute].
  - apply list_elem_of_In. by vm_compute; auto.
  - intros j Hj. unfold slow_clock, WAIT_CAP_100NS. lia.
Defined.

End Events.
