(* ===== verification/IrqChip.v ===== *)
(** * The guest interrupt chips

    [devices/guest_irq.rs]: the pair of 8259 controllers, the IOAPIC, the latches
    that arbitrate between the timer and the devices, and the functions that hand a
    vector to VM entry; with the channel-0 counter of the i8253
    ([devices/guest_platform.rs]) that [raise_pit] steps and the mount latch
    ([devices/guest_serial_answer.rs]) that sets how often the timer is let through.

    Every function takes the lock for its whole body, so each is one step on the
    state. [iso] is the answer of [product_iso_window_armed], [tsc] a reading of the
    time stamp counter, [hz] the answer of [tsc_hz]. Registers are [Z] at their
    width; [x & !m] is [Z.ldiff x m]. *)

From S2P Require Import Prelude.

Module Pit.

(** ** The i8253 channel-0 counter *)

Record Pit := mkPit {
  pit : Z;
  pit_reload : Z;
  pit_hi : bool;
  pit_rd_hi : bool;
  pit_access : Z;
  pit_latch : Z;
  pit_latch_n : Z;
}.

Definition pit_empty : Pit := mkPit 0xFFFF 0xFFFF false false 0 0 0.

(** [if reload == 0 { 0xFFFF } else { reload }] *)
Definition reload_value (reload : Z) : Z := if reload =? 0 then 0xFFFF else reload.

Definition pit_tick_locked (p : Pit) : Pit :=
  let step := 0x40 in
  let v := if pit p <=? step then reload_value (pit_reload p) else pit p - step in
  mkPit v (pit_reload p) (pit_hi p) (pit_rd_hi p) (pit_access p) (pit_latch p) (pit_latch_n p).

Definition pit_write_cmd (p : Pit) (val : Z) : Pit :=
  if negb (Z.land (Z.shiftr val 6) 3 =? 0) then p
  else
    let access := Z.land (Z.shiftr val 4) 3 in
    if access =? 0 then mkPit (pit p) (pit_reload p) (pit_hi p) (pit_rd_hi p) (pit_access p) (pit p) 2
    else mkPit 0xFFFF (pit_reload p) false false access (pit_latch p) 0.

Definition set_lo (reload val : Z) : Z := Z.lor (Z.land reload 0xFF00) val.
Definition set_hi (reload val : Z) : Z := Z.lor (Z.land reload 0x00FF) (Z.shiftl val 8).

Definition pit_write_data (p : Pit) (val : Z) : Pit :=
  if pit_access p =? 1 then
    let r := set_lo (pit_reload p) val in
    mkPit (reload_value r) r (pit_hi p) (pit_rd_hi p) (pit_access p) (pit_latch p) (pit_latch_n p)
  else if pit_access p =? 2 then
    let r := set_hi (pit_reload p) val in
    mkPit (reload_value r) r (pit_hi p) (pit_rd_hi p) (pit_access p) (pit_latch p) (pit_latch_n p)
  else if negb (pit_hi p) then
    mkPit (pit p) (set_lo (pit_reload p) val) true (pit_rd_hi p) (pit_access p) (pit_latch p) (pit_latch_n p)
  else
    let r := set_hi (pit_reload p) val in
    mkPit (reload_value r) r false (pit_rd_hi p) (pit_access p) (pit_latch p) (pit_latch_n p).

Definition low8 (v : Z) : Z := Z.land v 0xFF.

Definition set_latch_n (p : Pit) (n : Z) : Pit :=
  mkPit (pit p) (pit_reload p) (pit_hi p) (pit_rd_hi p) (pit_access p) (pit_latch p) n.

Definition set_rd_hi (p : Pit) (b : bool) : Pit :=
  mkPit (pit p) (pit_reload p) (pit_hi p) b (pit_access p) (pit_latch p) (pit_latch_n p).

Definition pit_read_data (p : Pit) : Pit * Z :=
  if pit_latch_n p =? 2 then (set_latch_n p 1, low8 (pit_latch p))
  else if pit_latch_n p =? 1 then (set_latch_n p 0, Z.shiftr (pit_latch p) 8)
  else if pit_access p =? 3 then
    if negb (pit_rd_hi p) then (set_rd_hi p true, low8 (pit p))
    else (pit_tick_locked (set_rd_hi p false), Z.shiftr (pit p) 8)
  else (pit_tick_locked p, low8 (pit p)).

(** ** A count is programmed and read back byte by byte *)

Lemma set_lo_hi r lo hi : below 8 lo → below 8 hi → set_hi (set_lo r lo) hi = lo + 256 * hi.
Proof.
  intros Hl Hh. unfold set_hi, set_lo. rewrite Z.land_lor_distr_l, <-Z.land_assoc. change (Z.land 0xFF00 0x00FF) with 0.
  change 0x00FF with (Z.ones 8). rewrite Z.land_0_r, Z.lor_0_l, (Z.land_ones lo 8) by done. rewrite (Z.mod_small lo) by exact Hl.
  rewrite Z.lor_comm, Z.shiftl_mul_pow2, lor_mul_pow2 by (done || exact Hl). change (2 ^ 8) with 256. lia.
Qed.

(** Access mode 3, then the low and the high byte: the counter is loaded, 0 counting
    as 0xFFFF. *)
Lemma pit_programmed p lo hi : below 8 lo → below 8 hi →
  pit (pit_write_data (pit_write_data (pit_write_cmd p 0x34) lo) hi) = reload_value (lo + 256 * hi).
Proof.
  intros Hl Hh. change (pit_write_cmd p 0x34) with (mkPit 0xFFFF (pit_reload p) false false 3 (pit_latch p) 0).
  rewrite <-(set_lo_hi (pit_reload p)) by done. reflexivity.
Qed.

Definition ticks (n : nat) (p : Pit) : Pit := Nat.iter n pit_tick_locked p.

Lemma ticks_latch n p : pit_latch (ticks n p) = pit_latch p ∧ pit_latch_n (ticks n p) = pit_latch_n p.
Proof. induction n as [|n IH]; [done|]. exact IH. Qed.

(** After a latch command two reads return the count of the moment of the command,
    however far the counter runs meanwhile. *)
Theorem pit_latch_read (p : Pit) (i j : nat) :
  let '(q, lo) := pit_read_data (ticks i (pit_write_cmd p 0)) in
  let '(_, hi) := pit_read_data (ticks j q) in
  lo + 256 * hi = pit p.
Proof.
  unfold pit_read_data at 1. destruct (ticks_latch i (pit_write_cmd p 0)) as [-> ->].
  change (pit_latch_n (pit_write_cmd p 0)) with 2. change (pit_latch (pit_write_cmd p 0)) with (pit p). cbn [Z.eqb Pos.eqb].
  set (q := set_latch_n _ 1). unfold pit_read_data. destruct (ticks_latch j q) as [-> ->].
  change (pit_latch_n q) with 1. change (pit_latch q) with (pit_latch (ticks i (pit_write_cmd p 0))). cbn [Z.eqb Pos.eqb].
  rewrite (proj1 (ticks_latch i (pit_write_cmd p 0))). change (pit_latch (pit_write_cmd p 0)) with (pit p).
  unfold low8. change 0xFF with (Z.ones 8). rewrite (Z.land_ones _ 8), Z.shiftr_div_pow2 by done. change (2 ^ 8) with 256. dlia.
Qed.

End Pit.

Module IrqChip.

Import Pit.

Definition IOAPIC_GPA : Z := 0xFEC00000.
Definition IOAPIC_SIZE : Z := 0x1000.
Definition IOAPIC_PINS : Z := 24.
Definition IOAPIC_VERSION : Z := 0x00170011.
Definition ATA_GSI : Z := 14.
Definition VIRTIO_GSI : Z := 17.
Definition VIRTIO_ISO_GSI : Z := 18.
Definition VIRTIO_PIC_IRQ : Z := 11.
Definition UART_GSI : Z := 4.
Definition PIT_IRQ : Z := 0.
Definition PIT_IOAPIC_GSI : Z := 2.
Definition IOAPIC_IO_PINS : list Z := [ATA_GSI; VIRTIO_GSI; VIRTIO_ISO_GSI; VIRTIO_PIC_IRQ; UART_GSI].
Definition RTE_MASK : Z := Z.shiftl 1 16.
Definition RTE_TRIG_LEVEL : Z := Z.shiftl 1 15.
Definition RTE_REMOTE_IRR : Z := Z.shiftl 1 14.
Definition PIC_SLAVE_IRQ : Z := 2.

(** ** State *)

Record Pic := mkPic {
  imr : Z;
  irr : Z;
  isr : Z;
  vector : Z;
  init : Z;
  expect_icw4 : bool;
  ready : bool;
  read_isr : bool;
  aeoi : bool;
}.

Record Ioapic := mkIoapic { sel : Z; io_id : Z; redir : list Z; io_irr : Z }.

Record IrqChip := mkChip { master : Pic; slave : Pic; ioapic : Ioapic }.

Definition pic_empty : Pic := mkPic 0xFF 0 0 0x08 0 false false false false.
Definition ioapic_empty : Ioapic := mkIoapic 0 0 (replicate (Z.to_nat IOAPIC_PINS) RTE_MASK) 0.
Definition chip_empty : IrqChip := mkChip pic_empty pic_empty ioapic_empty.

(** The latches of the timer arbitration. *)
Record Prefs := mkPrefs {
  PREFER_PIT_ONCE : bool;
  PREFER_PIT_HOLD : bool;
  IRQ11_YIELD_PIT : bool;
  PIC11_SINCE_PIT : Z;
}.

(** Counters read by traces only. *)
Record Counts := mkCounts {
  TAKE_IRQ0 : Z;
  TAKE_IRQ4 : Z;
  TAKE_IRQ11 : Z;
  PIT_RAISES : Z;
  EOI_MASTER : Z;
  EOI_SLAVE : Z;
  LAST_OCW2_MASTER : Z;
  LAST_OCW2_SLAVE : Z;
}.

(** The two statics of [guest_serial_answer] behind [apk_media_mounted]. *)
Record Answer := mkAnswer { MEDIA_MOUNTED : bool; HOLD_TSC : Z }.

Record Irq := mkIrq {
  chip : IrqChip;
  prefs : Prefs;
  counts : Counts;
  LINUX_DEV_IRQ : bool;
  FIRMWARE_WIRE : bool;
  LINUX_IOAPIC_GSI2 : bool;
  answer : Answer;
  plat : Pit;
}.

Definition set_imr (p : Pic) (v : Z) : Pic :=
  mkPic v (irr p) (isr p) (vector p) (init p) (expect_icw4 p) (ready p) (read_isr p) (aeoi p).
Definition set_irr (p : Pic) (v : Z) : Pic :=
  mkPic (imr p) v (isr p) (vector p) (init p) (expect_icw4 p) (ready p) (read_isr p) (aeoi p).
Definition set_isr (p : Pic) (v : Z) : Pic :=
  mkPic (imr p) (irr p) v (vector p) (init p) (expect_icw4 p) (ready p) (read_isr p) (aeoi p).
Definition set_aeoi (p : Pic) (b : bool) : Pic :=
  mkPic (imr p) (irr p) (isr p) (vector p) (init p) (expect_icw4 p) (ready p) (read_isr p) b.

Definition on_master (f : Pic → Pic) (c : IrqChip) : IrqChip := mkChip (f (master c)) (slave c) (ioapic c).
Definition on_slave (f : Pic → Pic) (c : IrqChip) : IrqChip := mkChip (master c) (f (slave c)) (ioapic c).
Definition on_ioapic (f : Ioapic → Ioapic) (c : IrqChip) : IrqChip := mkChip (master c) (slave c) (f (ioapic c)).

Definition set_io_irr (io : Ioapic) (v : Z) : Ioapic := mkIoapic (sel io) (io_id io) (redir io) v.
Definition set_rte (io : Ioapic) (pin v : Z) : Ioapic :=
  mkIoapic (sel io) (io_id io) (<[Z.to_nat pin := v]> (redir io)) (io_irr io).
Definition rte (io : Ioapic) (pin : Z) : Z := default 0 (redir io !! Z.to_nat pin).

Definition on_chip (f : IrqChip → IrqChip) (s : Irq) : Irq :=
  mkIrq (f (chip s)) (prefs s) (counts s) (LINUX_DEV_IRQ s) (FIRMWARE_WIRE s) (LINUX_IOAPIC_GSI2 s) (answer s) (plat s).
Definition with_prefs (s : Irq) (p : Prefs) : Irq :=
  mkIrq (chip s) p (counts s) (LINUX_DEV_IRQ s) (FIRMWARE_WIRE s) (LINUX_IOAPIC_GSI2 s) (answer s) (plat s).
Definition with_counts (s : Irq) (k : Counts) : Irq :=
  mkIrq (chip s) (prefs s) k (LINUX_DEV_IRQ s) (FIRMWARE_WIRE s) (LINUX_IOAPIC_GSI2 s) (answer s) (plat s).
Definition with_answer (s : Irq) (a : Answer) : Irq :=
  mkIrq (chip s) (prefs s) (counts s) (LINUX_DEV_IRQ s) (FIRMWARE_WIRE s) (LINUX_IOAPIC_GSI2 s) a (plat s).
Definition with_plat (s : Irq) (p : Pit) : Irq :=
  mkIrq (chip s) (prefs s) (counts s) (LINUX_DEV_IRQ s) (FIRMWARE_WIRE s) (LINUX_IOAPIC_GSI2 s) (answer s) p.

(** [1 << n], [trailing_zeros], [wrapping_add] on a [u8], [fetch_add] on a [u32]. *)
Definition bit (n : Z) : Z := Z.shiftl 1 n.
Definition ctz8 (x : Z) : Z := default 8 (find (Z.testbit x) (seqZ 0 8)).
Definition add8 (a b : Z) : Z := (a + b) mod 256.
Definition inc32 (x : Z) : Z := (x + 1) mod 2 ^ 32.

Definition counts_zero : Counts := mkCounts 0 0 0 0 0 0 0 0.

Definition reset (s : Irq) : Irq :=
  mkIrq chip_empty (mkPrefs false false false 0) counts_zero false false false (answer s) (plat s).

(** ** Arbitration latches *)

Definition guest_irq_live (product_iso linux_handoff : bool) : bool := product_iso || linux_handoff.

Definition product_live (iso : bool) (s : Irq) : bool := guest_irq_live iso (LINUX_DEV_IRQ s).

Definition note_linux_dev_irq (s : Irq) : Irq :=
  mkIrq (chip s) (prefs s) (counts s) true (FIRMWARE_WIRE s) (LINUX_IOAPIC_GSI2 s) (answer s) (plat s).

Definition prefer_pit_priority (p : Prefs) : bool := PREFER_PIT_HOLD p || PREFER_PIT_ONCE p.

Definition prefer_pit_once (s : Irq) : Irq :=
  let p := prefs s in with_prefs s (mkPrefs true (PREFER_PIT_HOLD p) (IRQ11_YIELD_PIT p) (PIC11_SINCE_PIT p)).

Definition note_overlay_hold (a : Answer) (tsc : Z) : Answer :=
  if HOLD_TSC a =? 0 then mkAnswer (MEDIA_MOUNTED a) tsc else a.

Definition prefer_pit_hold (s : Irq) (need : bool) (tsc : Z) : Irq :=
  let p := prefs s in
  let s := with_prefs s (mkPrefs (PREFER_PIT_ONCE p) need (IRQ11_YIELD_PIT p) (PIC11_SINCE_PIT p)) in
  if need then with_answer s (note_overlay_hold (answer s) tsc) else s.

Definition usbdelay_elapsed (a : Answer) (hz tsc : Z) : bool :=
  let start := HOLD_TSC a in
  if start =? 0 then false
  else
    let hz := if hz =? 0 then 2100000000 else hz in
    sat_mul64 hz 30 <=? tsc ⊟ start.

Definition apk_media_mounted (a : Answer) (hz tsc : Z) : Answer * bool :=
  if MEDIA_MOUNTED a then (a, true)
  else if usbdelay_elapsed a hz tsc then (mkAnswer true (HOLD_TSC a), true)
  else (a, false).

Definition is_ioapic_gpa (iso : bool) (s : Irq) (gpa : Z) : bool :=
  product_live iso s && (IOAPIC_GPA <=? gpa) && (gpa <? IOAPIC_GPA ⊞ IOAPIC_SIZE).

(** ** Raising and lowering lines *)

Definition pic_level_intx (irq : Z) : bool := irq =? VIRTIO_PIC_IRQ.

Definition unmask_pic_locked (c : IrqChip) (irq : Z) : IrqChip :=
  if irq <? 8 then on_master (λ p, set_imr p (Z.ldiff (imr p) (bit irq))) c
  else
    on_master (λ p, set_imr p (Z.ldiff (imr p) (bit PIC_SLAVE_IRQ)))
      (on_slave (λ p, set_imr p (Z.ldiff (imr p) (bit (irq - 8)))) c).

Definition raise_pic_locked (c : IrqChip) (irq : Z) : IrqChip :=
  let c :=
    if irq <? 8 then on_master (λ p, set_irr p (Z.lor (irr p) (bit irq))) c
    else
      on_master (λ p, set_irr p (Z.lor (irr p) (bit PIC_SLAVE_IRQ)))
        (on_slave (λ p, set_irr p (Z.lor (irr p) (bit (irq - 8)))) c) in
  if pic_level_intx irq then unmask_pic_locked c irq else c.

(** [if slave.irr & !slave.imr == 0 { master.irr &= !(1 << 2) }] *)
Definition drop_cascade (c : IrqChip) : IrqChip :=
  if Z.ldiff (irr (slave c)) (imr (slave c)) =? 0
  then on_master (λ p, set_irr p (Z.ldiff (irr p) (bit PIC_SLAVE_IRQ))) c else c.

Definition lower_pic_locked (c : IrqChip) (irq : Z) : IrqChip :=
  if irq <? 8 then on_master (λ p, set_irr p (Z.ldiff (irr p) (bit irq))) c
  else drop_cascade (on_slave (λ p, set_irr p (Z.ldiff (irr p) (bit (irq - 8)))) c).

Definition raise_pic_irq (iso : bool) (s : Irq) (irq : Z) : Irq :=
  if negb (product_live iso s) then s else on_chip (λ c, raise_pic_locked c irq) s.

Definition raise_ioapic_gsi (iso : bool) (s : Irq) (gsi : Z) : Irq :=
  if negb (product_live iso s) then s
  else on_chip (λ c, if gsi <? IOAPIC_PINS then on_ioapic (λ io, set_io_irr io (Z.lor (io_irr io) (bit gsi))) c else c) s.

Definition raise_gsi (iso : bool) (s : Irq) (gsi : Z) : Irq :=
  if negb (product_live iso s) then s
  else on_chip (λ c,
    let c := if gsi <? IOAPIC_PINS then on_ioapic (λ io, set_io_irr io (Z.lor (io_irr io) (bit gsi))) c else c in
    if gsi <? 16 then raise_pic_locked c gsi else c) s.

Definition lower_gsi (s : Irq) (gsi : Z) : Irq :=
  on_chip (λ c,
    let c := if gsi <? IOAPIC_PINS then on_ioapic (λ io, set_io_irr io (Z.ldiff (io_irr io) (bit gsi))) c else c in
    if gsi <? 16 then lower_pic_locked c gsi else c) s.

Definition raise_ata (iso : bool) (s : Irq) : Irq := raise_gsi iso s ATA_GSI.
Definition lower_ata (s : Irq) : Irq := lower_gsi s ATA_GSI.
Definition raise_virtio (iso : bool) (s : Irq) : Irq := raise_gsi iso (raise_gsi iso s VIRTIO_GSI) VIRTIO_PIC_IRQ.
Definition lower_virtio (s : Irq) : Irq := lower_gsi (lower_gsi s VIRTIO_GSI) VIRTIO_PIC_IRQ.
Definition raise_virtio_iso (iso : bool) (s : Irq) : Irq := raise_gsi iso (raise_gsi iso s VIRTIO_ISO_GSI) VIRTIO_PIC_IRQ.
Definition lower_virtio_iso (s : Irq) : Irq := lower_gsi (lower_gsi s VIRTIO_ISO_GSI) VIRTIO_PIC_IRQ.

Definition count_raise (k : Counts) : Counts :=
  mkCounts (TAKE_IRQ0 k) (TAKE_IRQ4 k) (TAKE_IRQ11 k) (inc32 (PIT_RAISES k)) (EOI_MASTER k) (EOI_SLAVE k)
    (LAST_OCW2_MASTER k) (LAST_OCW2_SLAVE k).

Definition raise_pit (iso : bool) (s : Irq) : Irq :=
  let s := with_counts s (count_raise (counts s)) in
  let s := with_plat s (pit_tick_locked (plat s)) in
  let s := raise_pic_irq iso s PIT_IRQ in
  raise_ioapic_gsi iso s PIT_IOAPIC_GSI.

(** ** The IOAPIC *)

Definition ioapic_pin_ready (c : IrqChip) (pin : Z) : option Z :=
  if IOAPIC_PINS <=? pin then None
  else if Z.land (io_irr (ioapic c)) (bit pin) =? 0 then None
  else
    let r := rte (ioapic c) pin in
    if negb (Z.land r RTE_MASK =? 0) then None
    else if negb (Z.land r RTE_TRIG_LEVEL =? 0) && negb (Z.land r RTE_REMOTE_IRR =? 0) then None
    else
      let vec := Z.land r 0xFF in
      if vec <? 16 then None else Some vec.

Definition ioapic_pin_is_io (pin : Z) : bool :=
  (pin =? ATA_GSI) || (pin =? VIRTIO_GSI) || (pin =? VIRTIO_ISO_GSI) || (pin =? VIRTIO_PIC_IRQ) || (pin =? UART_GSI).

Definition ready_pin (c : IrqChip) (pin : Z) : option (Z * Z) := (λ vec, (pin, vec)) <$> ioapic_pin_ready c pin.

Definition ioapic_peek_pin (p : Prefs) (c : IrqChip) : option (Z * Z) :=
  match find_map (λ pin, if prefer_pit_priority p && (pin =? UART_GSI) then None else ready_pin c pin) IOAPIC_IO_PINS with
  | Some r => Some r
  | None =>
      match ready_pin c PIT_IOAPIC_GSI with
      | Some r => Some r
      | None =>
          match (if prefer_pit_priority p then ready_pin c UART_GSI else None) with
          | Some r => Some r
          | None =>
              find_map (λ pin, if ioapic_pin_is_io pin || (pin =? PIT_IOAPIC_GSI) then None else ready_pin c pin)
                (seqZ 0 IOAPIC_PINS)
          end
      end
  end.

Definition ioapic_peek (p : Prefs) (c : IrqChip) : option Z := snd <$> ioapic_peek_pin p c.

Definition ioapic_accept (c : IrqChip) (pin : Z) : IrqChip :=
  on_ioapic (λ io,
    let r := rte io pin in
    let level := negb (Z.land r RTE_TRIG_LEVEL =? 0) in
    let '(r, io) := if level then let r := Z.lor r RTE_REMOTE_IRR in (r, set_rte io pin r) else (r, io) in
    if Z.land r RTE_TRIG_LEVEL =? 0 then set_io_irr io (Z.ldiff (io_irr io) (bit pin)) else io) c.

(** One pin of the loop of [ioapic_eoi]. *)
Definition eoi_rte (vec r : Z) : Z :=
  if (Z.land r 0xFF =? vec) && negb (Z.land r RTE_REMOTE_IRR =? 0) then Z.ldiff r RTE_REMOTE_IRR else r.

Definition ioapic_eoi (iso : bool) (s : Irq) (vec : Z) : Irq :=
  if negb (product_live iso s) then s
  else on_chip (on_ioapic (λ io, mkIoapic (sel io) (io_id io) (eoi_rte vec <$> redir io) (io_irr io))) s.

Definition ioapic_win_read (io : Ioapic) : Z :=
  let n := Z.land (sel io) 0xFF in
  if n =? 0 then io_id io
  else if n =? 1 then IOAPIC_VERSION
  else if n =? 2 then 0
  else if (0x10 <=? n) && (n <=? 0x3F) then
    let pin := (n - 0x10) / 2 in
    if IOAPIC_PINS <=? pin then 0
    else
      let r := rte io pin in
      if Z.land n 1 =? 0 then Z.land r 0xFFFFFFFF else Z.shiftr r 32
  else 0.

Definition ioapic_win_write (io : Ioapic) (val : Z) : Ioapic :=
  let n := Z.land (sel io) 0xFF in
  if n =? 0 then mkIoapic (sel io) (Z.land val 0x0F000000) (redir io) (io_irr io)
  else if (0x10 <=? n) && (n <=? 0x3F) then
    let pin := (n - 0x10) / 2 in
    if IOAPIC_PINS <=? pin then io
    else
      let r := rte io pin in
      let r := if Z.land n 1 =? 0 then Z.lor (Z.ldiff r 0xFFFFFFFF) val
               else Z.lor (Z.land r 0xFFFFFFFF) (Z.shiftl val 32) in
      set_rte io pin r
  else io.

Definition ioapic_read_locked (io : Ioapic) (off : Z) : Z :=
  let o := Z.land off 0xFF in
  if o =? 0 then sel io else if o =? 0x10 then ioapic_win_read io else 0.

Definition ioapic_write_locked (io : Ioapic) (off val : Z) : Ioapic :=
  let o := Z.land off 0xFF in
  if o =? 0 then mkIoapic val (io_id io) (redir io) (io_irr io)
  else if o =? 0x10 then ioapic_win_write io val
  else io.

Definition ioapic_read (s : Irq) (off : Z) : Z := ioapic_read_locked (ioapic (chip s)) off.
Definition ioapic_write (s : Irq) (off val : Z) : Irq := on_chip (on_ioapic (λ io, ioapic_write_locked io off val)) s.

Definition note_linux_ioapic_write (s : Irq) (off : Z) : Irq :=
  if negb (Z.land off 0xFF =? 0x10) then s
  else
    let n := Z.land (sel (ioapic (chip s))) 0xFF in
    let pin_lo := 0x10 + 2 * PIT_IOAPIC_GSI in
    if (n =? pin_lo) || (n =? pin_lo + 1)
    then mkIrq (chip s) (prefs s) (counts s) (LINUX_DEV_IRQ s) (FIRMWARE_WIRE s) true (answer s) (plat s)
    else s.

Definition ioapic_pin_unmasked (iso : bool) (s : Irq) (pin : Z) : bool :=
  if negb (product_live iso s) || (IOAPIC_PINS <=? pin) then false
  else
    let r := rte (ioapic (chip s)) pin in
    if negb (Z.land r RTE_MASK =? 0) then false else 16 <=? Z.land r 0xFF.

(** ** The 8259 pair *)

Definition pic_pending_irq (p : Prefs) (c : IrqChip) : option Z :=
  if negb (ready (master c)) || (vector (master c) <? 16) then None
  else
    let master_req := Z.ldiff (Z.ldiff (irr (master c)) (imr (master c))) (isr (master c)) in
    if master_req =? 0 then None
    else
      let slave_irq :=
        if negb (Z.land master_req (bit PIC_SLAVE_IRQ) =? 0) && ready (slave c) && (16 <=? vector (slave c)) then
          let slave_req := Z.ldiff (Z.ldiff (irr (slave c)) (imr (slave c))) (isr (slave c)) in
          if negb (slave_req =? 0) then Some (8 + ctz8 slave_req) else None
        else None in
      let pit := prefer_pit_priority p && negb (Z.land master_req 1 =? 0) in
      if bool_decide (slave_irq = Some VIRTIO_PIC_IRQ) && pit && IRQ11_YIELD_PIT p then Some 0
      else
        match slave_irq with
        | Some irq => Some irq
        | None =>
            if pit then Some 0
            else
              let master_dev := Z.ldiff (Z.ldiff master_req 1) (bit PIC_SLAVE_IRQ) in
              if negb (master_dev =? 0) then Some (ctz8 master_dev)
              else
                let irq := ctz8 master_req in
                if irq =? PIC_SLAVE_IRQ then None else Some irq
        end.

Definition pic_vector (c : IrqChip) (irq : Z) : Z :=
  if irq <? 8 then add8 (vector (master c)) irq else add8 (vector (slave c)) (irq - 8).

Definition pic_peek (p : Prefs) (c : IrqChip) : option Z := pic_vector c <$> pic_pending_irq p c.

Definition count_take (irq : Z) (k : Counts) : Counts :=
  if irq =? 0 then
    mkCounts (inc32 (TAKE_IRQ0 k)) (TAKE_IRQ4 k) (TAKE_IRQ11 k) (PIT_RAISES k) (EOI_MASTER k) (EOI_SLAVE k)
      (LAST_OCW2_MASTER k) (LAST_OCW2_SLAVE k)
  else if irq =? 4 then
    mkCounts (TAKE_IRQ0 k) (inc32 (TAKE_IRQ4 k)) (TAKE_IRQ11 k) (PIT_RAISES k) (EOI_MASTER k) (EOI_SLAVE k)
      (LAST_OCW2_MASTER k) (LAST_OCW2_SLAVE k)
  else if irq =? VIRTIO_PIC_IRQ then
    mkCounts (TAKE_IRQ0 k) (TAKE_IRQ4 k) (inc32 (TAKE_IRQ11 k)) (PIT_RAISES k) (EOI_MASTER k) (EOI_SLAVE k)
      (LAST_OCW2_MASTER k) (LAST_OCW2_SLAVE k)
  else k.

(** The arbitration update of [pic_take]; [hz] and [tsc] feed [apk_media_mounted]. *)
Definition note_take (irq hz tsc : Z) (p : Prefs) (a : Answer) : Prefs * Answer :=
  if irq =? 0 then (mkPrefs false (PREFER_PIT_HOLD p) false 0, a)
  else if irq =? VIRTIO_PIC_IRQ then
    let '(a, mounted) := apk_media_mounted a hz tsc in
    if (mounted : bool) then
      let n := Z.min (PIC11_SINCE_PIT p + 1) 255 in
      (mkPrefs (PREFER_PIT_ONCE p) (PREFER_PIT_HOLD p) (3 <=? n)
         (if 3 <=? n then 0 else add8 (PIC11_SINCE_PIT p) 1), a)
    else (mkPrefs (PREFER_PIT_ONCE p) (PREFER_PIT_HOLD p) true (PIC11_SINCE_PIT p), a)
  else (p, a).

(** What the acknowledge cycle does to the registers. *)
Definition pic_ack (c : IrqChip) (irq : Z) : IrqChip :=
  if irq <? 8 then
    let c := on_master (λ p, set_irr p (Z.ldiff (irr p) (bit irq))) c in
    if aeoi (master c) then c else on_master (λ p, set_isr p (Z.lor (isr p) (bit irq))) c
  else
    let n := irq - 8 in
    let c := if pic_level_intx irq then c else on_slave (λ p, set_irr p (Z.ldiff (irr p) (bit n))) c in
    let c :=
      if aeoi (slave c) then c
      else
        on_master (λ p, set_isr p (Z.lor (isr p) (bit PIC_SLAVE_IRQ)))
          (on_slave (λ p, set_isr p (Z.lor (isr p) (bit n))) c) in
    drop_cascade c.

Definition pic_take (s : Irq) (hz tsc : Z) : Irq * option Z :=
  match pic_pending_irq (prefs s) (chip s) with
  | None => (s, None)
  | Some irq =>
      let s := with_counts s (count_take irq (counts s)) in
      let '(p, a) := note_take irq hz tsc (prefs s) (answer s) in
      let s := with_answer (with_prefs s p) a in
      (on_chip (λ c, pic_ack c irq) s, Some (pic_vector (chip s) irq))
  end.

Definition pic_ocw2_is_eoi (val : Z) : bool := (Z.land val 0x18 =? 0) && negb (Z.land val 0x20 =? 0).

Definition pic_ocw2_eoi_bit (isr val : Z) : Z :=
  if negb (pic_ocw2_is_eoi val) || (isr =? 0) then 0
  else if negb (Z.land val 0x40 =? 0) then
    let b := bit (Z.land val 7) in
    if negb (Z.land isr b =? 0) then b else 0
  else bit (ctz8 isr).

Definition pic_cmd (p : Pic) (val : Z) : Pic :=
  if negb (Z.land val 0x10 =? 0) then
    mkPic 0 0 0 (vector p) 1 (negb (Z.land val 1 =? 0)) false false false
  else if negb (Z.land val 0x08 =? 0) then
    mkPic (imr p) (irr p) (isr p) (vector p) (init p) (expect_icw4 p) (ready p) (Z.land val 0x03 =? 0x03) (aeoi p)
  else set_isr p (Z.ldiff (isr p) (pic_ocw2_eoi_bit (isr p) val)).

Definition pic_data (p : Pic) (val : Z) : Pic :=
  if init p =? 1 then
    mkPic (imr p) (irr p) (isr p) val 2 (expect_icw4 p) (ready p) (read_isr p) (aeoi p)
  else if init p =? 2 then
    let next := if expect_icw4 p then 3 else 0 in
    mkPic (imr p) (irr p) (isr p) (vector p) next (expect_icw4 p)
      (if next =? 0 then 16 <=? vector p else ready p) (read_isr p) (aeoi p)
  else if init p =? 3 then
    mkPic (imr p) (irr p) (isr p) (vector p) 0 (expect_icw4 p) (16 <=? vector p) (read_isr p) (negb (Z.land val 2 =? 0))
  else set_imr p val.

Definition pic_is_slave (port : Z) : bool := (port =? 0xA0) || (port =? 0xA1) || (port =? 0x4D1).

(** [pic_of]: the chip a port belongs to, as an update. *)
Definition pic_of (port : Z) (f : Pic → Pic) (c : IrqChip) : IrqChip :=
  if pic_is_slave port then on_slave f c else on_master f c.

Definition pic_read (c : IrqChip) (port : Z) : Z :=
  if port =? 0x21 then imr (master c)
  else if port =? 0xA1 then imr (slave c)
  else if port =? 0x20 then if read_isr (master c) then isr (master c) else irr (master c)
  else if port =? 0xA0 then if read_isr (slave c) then isr (slave c) else irr (slave c)
  else 0.

Definition count_eoi (port val : Z) (k : Counts) : Counts :=
  if port =? 0xA0 then
    mkCounts (TAKE_IRQ0 k) (TAKE_IRQ4 k) (TAKE_IRQ11 k) (PIT_RAISES k) (EOI_MASTER k) (inc32 (EOI_SLAVE k))
      (LAST_OCW2_MASTER k) val
  else
    mkCounts (TAKE_IRQ0 k) (TAKE_IRQ4 k) (TAKE_IRQ11 k) (PIT_RAISES k) (inc32 (EOI_MASTER k)) (EOI_SLAVE k)
      val (LAST_OCW2_SLAVE k).

Definition pic_write (s : Irq) (port val : Z) : Irq :=
  if (port =? 0x20) || (port =? 0xA0) then
    let s := if pic_ocw2_is_eoi val then with_counts s (count_eoi port val (counts s)) else s in
    on_chip (pic_of port (λ p, pic_cmd p val)) s
  else if (port =? 0x21) || (port =? 0xA1) then on_chip (pic_of port (λ p, pic_data p val)) s
  else s.

Definition pic_io (s : Irq) (port : Z) (is_in : bool) (size rax : Z) : Irq * Z :=
  let mask := if size =? 1 then 0xFF else if size =? 2 then 0xFFFF else 0xFFFFFFFF in
  if is_in then (s, Z.lor (Z.land rax (bnot64 mask)) (Z.land (pic_read (chip s) port) mask))
  else (pic_write s port (low8 rax), rax).

(** ** What VM entry asks *)

Definition peek_vector (p : Prefs) (c : IrqChip) : option Z :=
  match ioapic_peek p c with Some v => Some v | None => pic_peek p c end.

Definition has_deliverable (iso : bool) (s : Irq) : bool :=
  if negb (product_live iso s) then false else bool_decide (is_Some (peek_vector (prefs s) (chip s))).

Definition pic_has_deliverable (iso : bool) (s : Irq) : bool :=
  if negb (product_live iso s) then false else bool_decide (is_Some (pic_peek (prefs s) (chip s))).

Definition take_vector (s : Irq) (hz tsc : Z) : Irq * option Z :=
  match ioapic_peek_pin (prefs s) (chip s) with
  | Some (pin, vec) => (on_chip (λ c, ioapic_accept c pin) s, Some vec)
  | None => pic_take s hz tsc
  end.

Definition take_inject_vector (iso : bool) (s : Irq) (hz tsc : Z) : Irq * option Z :=
  if negb (product_live iso s) then (s, None) else take_vector s hz tsc.

Definition take_pic_vector (iso : bool) (s : Irq) (hz tsc : Z) : Irq * option Z :=
  if negb (product_live iso s) then (s, None) else pic_take s hz tsc.

Definition take_ioapic_vector (iso : bool) (s : Irq) : Irq * option Z :=
  if negb (product_live iso s) then (s, None)
  else
    match ioapic_peek_pin (prefs s) (chip s) with
    | None => (s, None)
    | Some (pin, vec) => (on_chip (λ c, ioapic_accept c pin) s, Some vec)
    end.

Definition take_ioapic_ata_vector (iso : bool) (s : Irq) : Irq * option Z :=
  if negb (product_live iso s) then (s, None)
  else
    match ioapic_pin_ready (chip s) ATA_GSI with
    | None => (s, None)
    | Some vec => (on_chip (λ c, ioapic_accept c ATA_GSI) s, Some vec)
    end.

Definition ioapic_ata_ready (iso : bool) (s : Irq) : bool :=
  if negb (product_live iso s) then false else bool_decide (is_Some (ioapic_pin_ready (chip s) ATA_GSI)).

(** ** Firmware set-up *)

Definition ata_vec_default : Z := add8 0x20 ATA_GSI.

Definition pic_irq14_vec (c : IrqChip) : Z :=
  if 16 <=? vector (slave c) then add8 (vector (slave c)) (ATA_GSI - 8) else add8 0x20 ATA_GSI.

Definition pic_idle_default (p : Pic) (vec : Z) : Pic :=
  if negb (init p =? 0) then p
  else if negb (ready p) || (vector p <? 16) then
    mkPic (imr p) (irr p) (isr p) vec (init p) (expect_icw4 p) true (read_isr p) (aeoi p)
  else p.

Definition firmware_ata_vec_locked (c : IrqChip) : Z :=
  let io := Z.land (rte (ioapic c) ATA_GSI) 0xFF in
  let pic := pic_irq14_vec c in
  if (16 <=? io) && negb (io =? ata_vec_default) then io
  else if negb (pic =? ata_vec_default) then pic
  else if 16 <=? io then io
  else pic.

Definition firmware_ata_vec (iso : bool) (s : Irq) : Z :=
  if negb (product_live iso s) then add8 0x20 ATA_GSI else firmware_ata_vec_locked (chip s).

Definition firmware_is_pit_vec (iso : bool) (s : Irq) (vec : Z) : bool :=
  if vec =? 0x20 then true
  else if negb (product_live iso s) then false
  else ready (master (chip s)) && (16 <=? vector (master (chip s))) && (vec =? vector (master (chip s))).

Definition pic_ata_ready (iso : bool) (s : Irq) : bool :=
  if negb (product_live iso s) then false
  else
    let want := firmware_ata_vec_locked (chip s) in
    bool_decide (pic_peek (prefs s) (chip s) = Some want) && (want =? pic_irq14_vec (chip s)).

Definition arm_firmware_virtual_wire (iso : bool) (s : Irq) : Irq :=
  if negb (product_live iso s) then s
  else
    let s := mkIrq (chip s) (prefs s) (counts s) (LINUX_DEV_IRQ s) true (LINUX_IOAPIC_GSI2 s) (answer s) (plat s) in
    on_chip (λ c,
      let c := on_master (λ p, pic_idle_default p 0x20) c in
      let c := on_master (λ p, set_imr p (Z.ldiff (imr p) 1)) c in
      let c := on_master (λ p, set_aeoi p true) c in
      let c := on_ioapic (λ io, set_rte io PIT_IOAPIC_GSI 0x20) c in
      on_ioapic (λ io, set_rte io ATA_GSI (add8 0x20 ATA_GSI)) c) s.

Definition arm_firmware_ata_gsi14 (iso : bool) (s : Irq) : Irq :=
  if negb (product_live iso s) then s
  else
    on_chip (λ c,
      let c := on_master (λ p, pic_idle_default p 0x20) c in
      let c := on_slave (λ p, pic_idle_default p 0x28) c in
      let c := on_master (λ p, set_aeoi p true) c in
      let c := on_slave (λ p, set_aeoi p true) c in
      let r := rte (ioapic c) ATA_GSI in
      let want := firmware_ata_vec_locked c in
      let c := on_ioapic (λ io, set_rte io ATA_GSI (Z.lor (Z.ldiff (Z.ldiff r 0xFF) RTE_MASK) want)) c in
      let c := on_slave (λ p, set_imr p (Z.ldiff (imr p) (bit (ATA_GSI - 8)))) c in
      on_master (λ p, set_imr p (Z.ldiff (imr p) (bit PIC_SLAVE_IRQ))) c) s.

(** ** Runs *)

Inductive Op :=
| RaiseGsi (gsi : Z)
| LowerGsi (gsi : Z)
| RaiseIoapicGsi (gsi : Z)
| RaisePit
| PreferOnce
| PreferHold (need : bool) (tsc : Z)
| NoteLinux
| ArmWire
| ArmAta
| PicIo (port : Z) (is_in : bool) (size rax : Z)
| IoapicWrite (off val : Z)
| NoteIoapicWrite (off : Z)
| TakeInject (hz tsc : Z)
| TakePic (hz tsc : Z)
| TakeIoapic
| TakeAta
| Eoi (vec : Z)
| Mounted
| Reset.

(** One operation: the new state, and the vector when one is taken. *)
Definition exec (iso : bool) (s : Irq) (o : Op) : Irq * option Z :=
  match o with
  | RaiseGsi gsi => (raise_gsi iso s gsi, None)
  | LowerGsi gsi => (lower_gsi s gsi, None)
  | RaiseIoapicGsi gsi => (raise_ioapic_gsi iso s gsi, None)
  | RaisePit => (raise_pit iso s, None)
  | PreferOnce => (prefer_pit_once s, None)
  | PreferHold need tsc => (prefer_pit_hold s need tsc, None)
  | NoteLinux => (note_linux_dev_irq s, None)
  | ArmWire => (arm_firmware_virtual_wire iso s, None)
  | ArmAta => (arm_firmware_ata_gsi14 iso s, None)
  | PicIo port is_in size rax => ((pic_io s port is_in size rax).1, None)
  | IoapicWrite off val => (ioapic_write s off val, None)
  | NoteIoapicWrite off => (note_linux_ioapic_write s off, None)
  | TakeInject hz tsc => take_inject_vector iso s hz tsc
  | TakePic hz tsc => take_pic_vector iso s hz tsc
  | TakeIoapic => take_ioapic_vector iso s
  | TakeAta => take_ioapic_ata_vector iso s
  | Eoi vec => (ioapic_eoi iso s vec, None)
  | Mounted => (with_answer s (mkAnswer true (HOLD_TSC (answer s))), None)
  | Reset => (reset s, None)
  end.

Definition boot : Irq :=
  mkIrq chip_empty (mkPrefs false false false 0) counts_zero false false false (mkAnswer false 0) pit_empty.

(** A run: the window may be armed or not at each step. *)
Fixpoint run (s : Irq) (ops : list (bool * Op)) : Irq * list Z :=
  match ops with
  | [] => (s, [])
  | (iso, o) :: ops =>
      let '(s, v) := exec iso s o in
      let '(s, vs) := run s ops in
      (s, match v with Some v => v :: vs | None => vs end)
  end.

(** ** Bits of the registers *)

Lemma bit_test x n : 0 ≤ n → (Z.land x (bit n) =? 0) = negb (Z.testbit x n).
Proof. intros. unfold bit. rewrite Z.shiftl_1_l. by apply land_pow2_test. Qed.

Lemma bit_set x n i : 0 ≤ n → Z.testbit (Z.lor x (bit n)) i = Z.testbit x i || (i =? n).
Proof. intros. unfold bit. by rewrite Z.lor_spec, one_bit. Qed.

Lemma bit_clear x n i : 0 ≤ n → Z.testbit (Z.ldiff x (bit n)) i = Z.testbit x i && negb (i =? n).
Proof. intros. unfold bit. by rewrite Z.ldiff_spec, one_bit. Qed.

Lemma below_bit n b : 0 ≤ b < n → below n (bit b).
Proof. apply below_one_bit. Qed.

#[local] Hint Resolve below_bit : machine.

(** [trailing_zeros] finds the first set bit. *)
Lemma ctz8_find x : below 8 x →
  find (Z.testbit x) (seqZ 0 8) = if x =? 0 then None else Some (ctz8 x).
Proof.
  intros Hx. unfold ctz8. destruct (find (Z.testbit x) (seqZ 0 8)) as [n|] eqn:E; cbn [default].
  - apply find_some in E as [_ E]. destruct (Z.eqb_spec x 0) as [->|]; [by rewrite Z.bits_0 in E|done].
  - rewrite (below_zero 8 x Hx); [done|]. intros i Hi.
    apply (find_none _ _ E), list_elem_of_In, elem_of_seqZ. lia.
Qed.

Lemma find_ext {A} (f g : A → bool) l : (∀ x, In x l → f x = g x) → find f l = find g l.
Proof.
  induction l as [|x l IH]; [done|]. intros H. cbn. rewrite (H x) by (by left).
  destruct (g x); [done|]. apply IH. intros y Hy. apply H. by right.
Qed.

Lemma find_app_case {A} (f : A → bool) l1 l2 :
  find f (l1 ++ l2) = match find f l1 with Some x => Some x | None => find f l2 end.
Proof. induction l1 as [|x l1 IH]; [done|]. cbn. by destruct (f x). Qed.

Lemma find_map_z (f : Z → bool) k l : find f (Z.add k <$> l) = Z.add k <$> find (λ n, f (k + n)) l.
Proof. induction l as [|x l IH]; [done|]. cbn. destruct (f (k + x)); [done|apply IH]. Qed.

(** ** The 8259 pair chooses the first request of a priority list *)

(** A line requests service: latched, not masked, not in service. *)
Definition req (p : Pic) (n : Z) : bool :=
  Z.testbit (irr p) n && negb (Z.testbit (imr p) n) && negb (Z.testbit (isr p) n).

Definition live (p : Pic) : bool := ready p && (16 <=? vector p).

(** Lines 8 to 15 come through the cascade line of the master. *)
Definition requested (c : IrqChip) (irq : Z) : bool :=
  live (master c) &&
  (if irq <? 8 then negb (irq =? PIC_SLAVE_IRQ) && req (master c) irq
   else req (master c) PIC_SLAVE_IRQ && live (slave c) && req (slave c) (irq - 8)).

(** Lines of the slave first, then the devices of the master, the timer last. With
    the timer preferred it comes before the devices of the master, and once line 11
    has to yield, before line 11. *)
Definition order (p : Prefs) (c : IrqChip) : list Z :=
  [8; 9; 10] ++
  (if prefer_pit_priority p && IRQ11_YIELD_PIT p && requested c VIRTIO_PIC_IRQ then [PIT_IRQ] else []) ++
  [11; 12; 13; 14; 15] ++
  (if prefer_pit_priority p then [PIT_IRQ] else []) ++
  [1; 3; 4; 5; 6; 7; PIT_IRQ].

Record pic_wf (p : Pic) : Prop := {
  wf_imr : below 8 (imr p);
  wf_irr : below 8 (irr p);
  wf_isr : below 8 (isr p);
  wf_vector : below 8 (vector p);
  wf_init : 0 ≤ init p ≤ 3;
  wf_ready : ready p = true → 16 ≤ vector p;
  wf_idle : init p ≠ 0 → ready p = false;
}.

Definition requests (p : Pic) : Z := Z.ldiff (Z.ldiff (irr p) (imr p)) (isr p).

Lemma requests_bit p n : Z.testbit (requests p) n = req p n.
Proof. unfold requests, req. by rewrite !Z.ldiff_spec. Qed.

Lemma requests_below p : pic_wf p → below 8 (requests p).
Proof. intros []. unfold requests. eauto with machine lia. Qed.

Lemma first_request p (x : Z) (l : list Z) : below 8 x → (∀ n, Z.testbit x n = Z.testbit (requests p) n && bool_decide (n ∈ l)) →
  l = filter (λ n, n ∈ l) (seqZ 0 8) →
  (if negb (x =? 0) then Some (ctz8 x) else None) = find (req p) l.
Proof.
  intros Hx Hb El. pose proof (ctz8_find x Hx) as F.
  assert (find (Z.testbit x) (seqZ 0 8) = find (req p) l) as <-; [|by rewrite F; destruct (x =? 0)].
  rewrite El. clear F Hx El. induction (seqZ 0 8) as [|n ns IH]; [done|]. cbn [find].
  rewrite Hb, requests_bit. rewrite filter_cons. destruct (decide (n ∈ l)) as [D|D].
  - rewrite bool_decide_eq_true_2, andb_true_r by done. cbn [find]. by destruct (req p n).
  - rewrite bool_decide_eq_false_2, andb_false_r by done. exact IH.
Qed.

Lemma find_false {A} (f : A → bool) l : (∀ x, In x l → f x = false) → find f l = None.
Proof. intros H. rewrite (find_ext f (λ _, false)) by done. clear. by induction l. Qed.

Lemma slave_choice c : pic_wf (slave c) → live (master c) = true →
  (if negb (Z.land (requests (master c)) (bit PIC_SLAVE_IRQ) =? 0) && ready (slave c) && (16 <=? vector (slave c)) then
     if negb (requests (slave c) =? 0) then Some (8 + ctz8 (requests (slave c))) else None
   else None) = find (requested c) [8; 9; 10; 11; 12; 13; 14; 15].
Proof.
  intros W L. rewrite bit_test, requests_bit, negb_involutive by done.
  change [8; 9; 10; 11; 12; 13; 14; 15] with (Z.add 8 <$> seqZ 0 8). rewrite find_map_z.
  rewrite (find_ext _ (λ n, req (master c) PIC_SLAVE_IRQ && live (slave c) && req (slave c) n)); cycle 1.
  { intros n Hn. apply list_elem_of_In, elem_of_seqZ in Hn. unfold requested.
    rewrite L, (proj2 (Z.ltb_ge _ _)) by lia. cbn [andb]. by replace (8 + n - 8) with n by lia. }
  unfold live. destruct (req (master c) PIC_SLAVE_IRQ), (ready (slave c)), (16 <=? vector (slave c)); cbn [andb];
    try (by rewrite find_false).
  rewrite (find_ext _ (Z.testbit (requests (slave c)))) by (intros; by rewrite requests_bit).
  rewrite ctz8_find by (by apply requests_below). by destruct (_ =? 0).
Qed.

Lemma requested_master c n : live (master c) = true → 0 ≤ n < 8 → n ≠ 2 → requested c n = req (master c) n.
Proof.
  intros L Hn N. unfold requested. rewrite L, (proj2 (Z.ltb_lt _ _)) by lia.
  unfold PIC_SLAVE_IRQ. rewrite (proj2 (Z.eqb_neq _ _)) by done. done.
Qed.

Lemma device_choice c : pic_wf (master c) → live (master c) = true →
  let dev := Z.ldiff (Z.ldiff (requests (master c)) 1) (bit PIC_SLAVE_IRQ) in
  (if negb (dev =? 0) then Some (ctz8 dev) else None) = find (requested c) [1; 3; 4; 5; 6; 7].
Proof.
  intros W L dev. rewrite (find_ext (requested c) (req (master c))).
  - apply first_request; [|intros n|reflexivity].
    + unfold dev. pose proof (requests_below _ W). eauto with machine lia.
    + unfold dev. change 1 with (bit 0). rewrite !bit_clear by done. rewrite <-andb_assoc.
      destruct (Z.testbit (requests (master c)) n) eqn:E; [|done]. cbn [andb]. symmetry.
      destruct (Z.eqb_spec n 0) as [->|]; [done|]. destruct (Z.eqb_spec n PIC_SLAVE_IRQ) as [->|N2]; [done|].
      apply bool_decide_eq_true_2. unfold PIC_SLAVE_IRQ in N2.
      assert (0 ≤ n < 8) as Hn.
      { split; [|destruct (Z.lt_ge_cases n 8); [done|]; by rewrite (below_high 8) in E by (done || by apply requests_below)].
        destruct (Z.le_gt_cases 0 n); [done|]. by rewrite Z.testbit_neg_r in E. }
      assert (n = 1 ∨ n = 3 ∨ n = 4 ∨ n = 5 ∨ n = 6 ∨ n = 7) as D by lia.
      by destruct D as [-> | [-> | [-> | [-> | [-> | -> ]]]]]; repeat constructor.
  - intros n Hn. apply requested_master; [done|..]; cbn in Hn; lia.
Qed.

(** What is left when no device of the master asks: the timer, or a cascade line
    behind which no line is ready. *)
Lemma timer_choice c : pic_wf (master c) → live (master c) = true → requests (master c) ≠ 0 →
  find (requested c) [1; 3; 4; 5; 6; 7] = None →
  (if ctz8 (requests (master c)) =? PIC_SLAVE_IRQ then None else Some (ctz8 (requests (master c))))
  = find (requested c) [PIT_IRQ].
Proof.
  intros W L N D. pose proof (ctz8_find _ (requests_below _ W)) as F.
  rewrite (proj2 (Z.eqb_neq _ _)) in F by done.
  assert (∀ n, In n [1; 3; 4; 5; 6; 7] → Z.testbit (requests (master c)) n = false) as Z0.
  { intros n Hn. rewrite requests_bit, <-requested_master; [by apply (find_none _ _ D)|done|..]; cbn in Hn; lia. }
  cbn [find]. unfold PIT_IRQ. rewrite requested_master by (done || lia). rewrite <-requests_bit.
  change (seqZ 0 8) with [0; 1; 2; 3; 4; 5; 6; 7] in F. cbn [find] in F.
  destruct (Z.testbit _ 0); [by injection F as <-|]. rewrite (Z0 1) in F by (cbn; lia).
  destruct (Z.testbit _ 2); [by injection F as <-|]. by rewrite !Z0 in F by (cbn; lia).
Qed.

Lemma pic_choice p c : pic_wf (master c) → pic_wf (slave c) →
  pic_pending_irq p c = find (requested c) (order p c).
Proof.
  intros Wm Ws. unfold pic_pending_irq. destruct (live (master c)) eqn:L; cycle 1.
  { rewrite find_false by (intros; unfold requested; by rewrite L).
    unfold live in L. by destruct (ready _), (Z.leb_spec 16 (vector (master c))), (Z.ltb_spec (vector (master c)) 16); (done || lia). }
  assert (negb (ready (master c)) || (vector (master c) <? 16) = false) as ->.
  { unfold live in L. by destruct (ready _), (Z.leb_spec 16 (vector (master c))), (Z.ltb_spec (vector (master c)) 16); (done || lia). }
  fold (requests (master c)). fold (requests (slave c)). rewrite slave_choice by done.
  destruct (Z.eqb_spec (requests (master c)) 0) as [Z0|N].
  { rewrite find_false; [done|]. intros n Hn. unfold requested. rewrite L.
    assert (∀ k, req (master c) k = false) as R by (intros k; by rewrite <-requests_bit, Z0, Z.bits_0).
    rewrite !R. cbn [andb]. by rewrite andb_false_r; destruct (_ <? _). }
  assert (negb (Z.land (requests (master c)) 1 =? 0) = requested c 0) as ->.
  { rewrite requested_master by (done || lia). change 1 with (bit 0).
    by rewrite bit_test, requests_bit, negb_involutive. }
  unfold order.
  pose proof (device_choice c Wm L) as D. cbv zeta in D.
  change [8; 9; 10; 11; 12; 13; 14; 15] with ([8; 9; 10] ++ [11; 12; 13; 14; 15]).
  change [1; 3; 4; 5; 6; 7; PIT_IRQ] with ([1; 3; 4; 5; 6; 7] ++ [PIT_IRQ]).
  rewrite !find_app_case. destruct (find (requested c) [8; 9; 10]) as [n|] eqn:E.
  { apply find_some in E as [In _]. rewrite bool_decide_eq_false_2; [done|]. intros [= ->]. unfold VIRTIO_PIC_IRQ in In. cbn in In. lia. }
  pose proof (timer_choice c Wm L N) as T. unfold PIT_IRQ, VIRTIO_PIC_IRQ in *.
  set (devs := [1; 3; 4; 5; 6; 7]) in *. change [11; 12; 13; 14; 15] with ([11] ++ [12; 13; 14; 15]).
  set (rest := [12; 13; 14; 15]) in *.
  rewrite find_app_case. cbn [find] in T |- *. destruct (requested c 11) eqn:E11; rewrite ?andb_true_r, ?andb_false_r.
  { rewrite bool_decide_eq_true_2 by done. cbn [andb].
    by destruct (prefer_pit_priority p), (IRQ11_YIELD_PIT p), (requested c 0) eqn:E0; cbn; rewrite ?E0. }
  destruct (find (requested c) rest) as [n|] eqn:E12.
  { apply find_some in E12 as [In _]. rewrite bool_decide_eq_false_2; [done|]. intros [= ->]. cbn in In. lia. }
  rewrite bool_decide_eq_false_2 by done. cbn [andb find].
  destruct (prefer_pit_priority p && requested c 0) eqn:P.
  { apply andb_true_iff in P as [-> R0]. cbn [find]. by rewrite R0. }
  assert (find (requested c) (if prefer_pit_priority p then [0] else []) = None) as ->.
  { destruct (prefer_pit_priority p); [|done]. cbn in P |- *. by rewrite P. }
  rewrite <-D. destruct (negb _) eqn:Z0; [done|]. apply T. rewrite <-D. done.
Qed.

(** ** Acknowledge and end of interrupt *)

Definition side (c : IrqChip) (n : Z) : Pic := if n <? 8 then master c else slave c.
Definition level_of (n : Z) : Z := if n <? 8 then n else n - 8.

Definition line_irr (c : IrqChip) (n : Z) : bool := Z.testbit (irr (side c n)) (level_of n).
Definition line_imr (c : IrqChip) (n : Z) : bool := Z.testbit (imr (side c n)) (level_of n).
Definition line_isr (c : IrqChip) (n : Z) : bool := Z.testbit (isr (side c n)) (level_of n).

(** The guest's specific end of interrupt for a line: for a line of the slave, one
    command to each chip. *)
Definition specific_eoi (s : Irq) (irq : Z) : Irq :=
  if irq <? 8 then pic_write s 0x20 (0x60 + irq)
  else pic_write (pic_write s 0xA0 (0x60 + (irq - 8))) 0x20 (0x60 + PIC_SLAVE_IRQ).

Lemma ldiff_clear x n : 0 ≤ n → Z.testbit x n = false → Z.ldiff x (bit n) = x.
Proof.
  intros Hn Hb. apply Z.bits_inj'. intros i _. rewrite bit_clear by done.
  destruct (Z.eqb_spec i n) as [->|]; [by rewrite Hb|apply andb_true_r].
Qed.

Lemma specific_eoi_cmd p n : 0 ≤ n < 8 → pic_cmd p (0x60 + n) = set_isr p (Z.ldiff (isr p) (bit n)).
Proof.
  intros Hn. assert (pic_ocw2_is_eoi (0x60 + n) = true ∧ Z.land (0x60 + n) 0x40 = 0x40 ∧ Z.land (0x60 + n) 7 = n ∧
    Z.land (0x60 + n) 0x10 = 0 ∧ Z.land (0x60 + n) 0x08 = 0) as (E & E4 & E7 & E1 & E8).
  { assert (n = 0 ∨ n = 1 ∨ n = 2 ∨ n = 3 ∨ n = 4 ∨ n = 5 ∨ n = 6 ∨ n = 7) as D by lia.
    by repeat (destruct D as [-> | D]); [..|rewrite D]. }
  unfold pic_cmd, pic_ocw2_eoi_bit. rewrite E, E1, E4, E7, E8. cbn [Z.eqb negb orb]. f_equal.
  destruct (Z.eqb_spec (isr p) 0) as [->|]; [by rewrite !Z.ldiff_0_l|].
  rewrite bit_test, negb_involutive by lia. destruct (Z.testbit (isr p) n) eqn:B; [done|].
  rewrite Z.ldiff_0_r. by rewrite ldiff_clear by (done || lia).
Qed.

Lemma pic_write_cmd s port val : port = 0x20 ∨ port = 0xA0 →
  chip (pic_write s port val) = pic_of port (λ p, pic_cmd p val) (chip s).
Proof. intros [-> | ->]; unfold pic_write; cbn [Z.eqb Pos.eqb orb]; by destruct (pic_ocw2_is_eoi val). Qed.

Lemma specific_eoi_isr s irq n : 0 ≤ irq < 16 → irq ≠ 2 → 0 ≤ n < 16 →
  line_isr (chip (specific_eoi s irq)) n
  = line_isr (chip s) n && negb (n =? irq) && negb ((8 <=? irq) && (n =? PIC_SLAVE_IRQ)).
Proof.
  intros Hi H2 Hn. unfold specific_eoi, line_isr, side, level_of.
  destruct (Z.ltb_spec irq 8) as [L|L]; rewrite !pic_write_cmd by auto; unfold pic_of;
    cbn [pic_is_slave Z.eqb Pos.eqb orb on_master on_slave master slave]; rewrite specific_eoi_cmd by (unfold PIC_SLAVE_IRQ; lia).
  - destruct (Z.ltb_spec n 8), (Z.leb_spec 8 irq); try lia; cbn.
    + by rewrite bit_clear, andb_true_r by lia.
    + rewrite (proj2 (Z.eqb_neq n irq)) by lia. by rewrite !andb_true_r.
  - rewrite (specific_eoi_cmd _ (irq - 8)) by lia.
    destruct (Z.ltb_spec n 8), (Z.leb_spec 8 irq); try lia; cbn -[bit].
    + rewrite bit_clear, (proj2 (Z.eqb_neq n irq)) by (unfold PIC_SLAVE_IRQ; lia). by rewrite andb_true_r.
    + rewrite bit_clear by lia. rewrite (proj2 (Z.eqb_neq n PIC_SLAVE_IRQ)) by (unfold PIC_SLAVE_IRQ; lia).
      rewrite andb_true_r. f_equal. f_equal. destruct (Z.eqb_spec n irq), (Z.eqb_spec (n - 8) (irq - 8)); (done || lia).
Qed.

Record chip_wf (c : IrqChip) : Prop := {
  wf_master : pic_wf (master c);
  wf_slave : pic_wf (slave c);
}.

Lemma order_range p c n : In n (order p c) → 0 ≤ n < 16 ∧ n ≠ 2.
Proof.
  unfold order, PIT_IRQ. destruct (prefer_pit_priority p), (IRQ11_YIELD_PIT p), (requested c VIRTIO_PIC_IRQ); cbn; lia.
Qed.

Lemma pending_range p c irq : chip_wf c → pic_pending_irq p c = Some irq →
  0 ≤ irq < 16 ∧ irq ≠ 2 ∧ requested c irq = true.
Proof. intros [Wm Ws] E. rewrite pic_choice in E by done. apply find_some in E as [I R]. by apply order_range in I as [??]. Qed.

Lemma pic_take_pending s hz tsc irq : pic_pending_irq (prefs s) (chip s) = Some irq →
  chip (pic_take s hz tsc).1 = pic_ack (chip s) irq ∧ (pic_take s hz tsc).2 = Some (pic_vector (chip s) irq).
Proof. intros E. unfold pic_take. rewrite E. by destruct (note_take _ _ _ _ _). Qed.

Lemma requested_idle c irq : requested c irq = true → line_isr c irq = false ∧ (8 ≤ irq → Z.testbit (isr (master c)) PIC_SLAVE_IRQ = false).
Proof.
  unfold requested, line_isr, side, level_of, req. destruct (live (master c)); [|done]. cbn [andb].
  destruct (Z.ltb_spec irq 8).
  - intros R. apply andb_true_iff in R as [_ R]. apply andb_true_iff in R as [_ R]. apply negb_true_iff in R. split; [done|lia].
  - rewrite !andb_true_iff, !negb_true_iff. by intros (((_ & R1) & _) & _ & R2).
Qed.

Lemma drop_cascade_shape c : ∃ v, drop_cascade c = on_master (λ p, set_irr p v) c ∧
  ∀ n, n ≠ PIC_SLAVE_IRQ → Z.testbit v n = Z.testbit (irr (master c)) n.
Proof.
  unfold drop_cascade. destruct (_ =? 0).
  - eexists. split; [done|]. intros n Hn. cbn beta. rewrite bit_clear by done. rewrite (proj2 (Z.eqb_neq _ _)) by done. apply andb_true_r.
  - exists (irr (master c)). split; [|done]. by destruct c as [[] ? ?].
Qed.

Ltac pic_cbn := cbn -[bit Z.testbit Z.ldiff].

(** The effect of an acknowledge on every line but the cascade. *)
Lemma pic_ack_lines c irq n : 0 ≤ irq < 16 → 0 ≤ n < 16 → n ≠ 2 →
  let c' := pic_ack c irq in
  line_irr c' n = line_irr c n && negb ((n =? irq) && negb (pic_level_intx irq)) ∧
  line_isr c' n = line_isr c n || ((n =? irq) && negb (aeoi (side c irq))) ∧
  line_imr c' n = line_imr c n.
Proof.
  intros Hi Hn N2. cbv zeta. unfold pic_ack, line_irr, line_isr, line_imr, side, level_of.
  destruct (Z.ltb_spec irq 8) as [L|L].
  - assert (pic_level_intx irq = false) as -> by (unfold pic_level_intx, VIRTIO_PIC_IRQ; lia).
    destruct (aeoi (master c)) eqn:A; pic_cbn; rewrite ?A; destruct (Z.ltb_spec n 8); pic_cbn;
      rewrite ?bit_clear, ?bit_set, ?andb_true_r, ?andb_false_r, ?orb_false_r by lia;
      rewrite ?(proj2 (Z.eqb_neq n irq)), ?andb_true_r, ?orb_false_r by lia; done.
  - match goal with |- context [drop_cascade ?d] => destruct (drop_cascade_shape d) as (v & -> & V) end.
    destruct (pic_level_intx irq) eqn:P; destruct (aeoi (slave c)) eqn:A; pic_cbn; rewrite ?A;
      destruct (Z.ltb_spec n 8); pic_cbn; rewrite ?V by done; pic_cbn; rewrite ?A; pic_cbn;
      rewrite ?bit_clear, ?bit_set, ?andb_true_r, ?andb_false_r, ?orb_false_r by (done || lia);
      try replace (n - 8 =? irq - 8) with (n =? irq) by lia;
      rewrite ?(proj2 (Z.eqb_neq n irq)), ?(proj2 (Z.eqb_neq n PIC_SLAVE_IRQ)), ?andb_true_r, ?orb_false_r by (done || lia); done.
Qed.

(** Acknowledging an interrupt of the 8259 pair. The line that is taken is the
    first one that asks for service in the priority list; the vector is the one the
    preceding peek announced; the request of exactly that line is withdrawn (line 11,
    level triggered, keeps it) and exactly its in-service bit is set, unless the chip
    ends interrupts by itself; then the line stays blocked. The guest's specific end
    of interrupt puts the in-service registers of both chips back to what they were.
    With no line asking nothing happens. *)
Theorem pic_take_exact (s : Irq) (hz tsc : Z) : chip_wf (chip s) →
  match find (requested (chip s)) (order (prefs s) (chip s)) with
  | None => pic_take s hz tsc = (s, None) ∧ pic_peek (prefs s) (chip s) = None
  | Some irq =>
      let '(s', v) := pic_take s hz tsc in
      v = Some (pic_vector (chip s) irq) ∧ pic_peek (prefs s) (chip s) = v ∧
      (∀ n, 0 ≤ n < 16 → n ≠ PIC_SLAVE_IRQ →
         line_irr (chip s') n = line_irr (chip s) n && negb ((n =? irq) && negb (pic_level_intx irq)) ∧
         line_isr (chip s') n = line_isr (chip s) n || ((n =? irq) && negb (aeoi (side (chip s) irq))) ∧
         line_imr (chip s') n = line_imr (chip s) n) ∧
      (aeoi (side (chip s) irq) = false → requested (chip s') irq = false) ∧
      ∀ n, 0 ≤ n < 16 → line_isr (chip (specific_eoi s' irq)) n = line_isr (chip s) n
  end.
Proof.
  intros W. destruct W as [Wm Ws] eqn:EW. rewrite <-pic_choice by done.
  destruct (pic_pending_irq (prefs s) (chip s)) as [irq|] eqn:E; cycle 1.
  { unfold pic_take, pic_peek. by rewrite E. }
  destruct (pending_range _ _ _ W E) as (Hi & N2 & R). destruct (pic_take_pending s hz tsc irq E) as [C V].
  destruct (pic_take s hz tsc) as [s' v]. cbn [fst snd] in C, V. rewrite V.
  pose proof (λ n Hn N, pic_ack_lines (chip s) irq n Hi Hn N) as A. cbv zeta in A. rewrite <-C in A.
  destruct (requested_idle _ _ R) as [I I2]. split_and!; [done|unfold pic_peek; by rewrite E|exact A|..].
  - intros Ae. destruct (A irq Hi N2) as (_ & S & _). rewrite Z.eqb_refl, Ae, orb_true_r in S.
    destruct (requested (chip s') irq) eqn:R'; [|done]. apply requested_idle in R' as [R' _]. congruence.
  - intros n Hn. rewrite specific_eoi_isr by done. destruct (decide (n = 2)) as [->|Nn].
    + rewrite (proj2 (Z.eqb_neq 2 irq)), andb_true_r by done. unfold line_isr, side, level_of. cbn -[Z.testbit]. rewrite C.
      destruct (Z.leb_spec 8 irq) as [L|L]; [specialize (I2 L); change PIC_SLAVE_IRQ with 2 in I2; rewrite I2; apply andb_false_r|].
      rewrite andb_true_r. unfold pic_ack. rewrite (proj2 (Z.ltb_lt irq 8)) by done.
      pic_cbn. destruct (aeoi (master (chip s))); pic_cbn; [done|].
      rewrite bit_set by lia. by rewrite (proj2 (Z.eqb_neq 2 irq)), orb_false_r.
    + destruct (A n Hn Nn) as (_ & -> & _). rewrite (proj2 (Z.eqb_neq n PIC_SLAVE_IRQ)), andb_false_r, andb_true_r by done.
      destruct (Z.eqb_spec n irq) as [->|]; [by rewrite I, andb_false_r|by rewrite orb_false_r, andb_true_r].
Qed.

(** ** The types of the state *)

Record pit_wf (p : Pit) : Prop := {
  wf_pit : below 16 (pit p);
  wf_reload : below 16 (pit_reload p);
  wf_latch : below 16 (pit_latch p);
  wf_access : 0 ≤ pit_access p ≤ 3;
  wf_latch_n : 0 ≤ pit_latch_n p ≤ 2;
}.

Record io_wf (io : Ioapic) : Prop := {
  wf_sel : below 32 (sel io);
  wf_id : below 32 (io_id io);
  wf_pins : length (redir io) = Z.to_nat IOAPIC_PINS;
  wf_rtes : Forall (below 64) (redir io);
  wf_lines : below 24 (io_irr io);
}.

Record irq_wf (s : Irq) : Prop := {
  wf_chip : chip_wf (chip s);
  wf_io : io_wf (ioapic (chip s));
  wf_since : 0 ≤ PIC11_SINCE_PIT (prefs s) ≤ 2;
  wf_counts : Forall (below 32) [TAKE_IRQ0 (counts s); TAKE_IRQ4 (counts s); TAKE_IRQ11 (counts s);
                                 PIT_RAISES (counts s); EOI_MASTER (counts s); EOI_SLAVE (counts s)];
  wf_last : below 8 (LAST_OCW2_MASTER (counts s)) ∧ below 8 (LAST_OCW2_SLAVE (counts s));
  wf_hold : u64 (HOLD_TSC (answer s));
  wf_plat : pit_wf (plat s);
}.

(** Arguments in their width. *)
Definition op_ok (o : Op) : Prop :=
  match o with
  | RaiseGsi gsi | LowerGsi gsi | RaiseIoapicGsi gsi => below 8 gsi
  | PreferHold _ tsc => u64 tsc
  | IoapicWrite _ val => below 32 val
  | _ => True
  end.

(** What leaves the rest of the state alone needs the chip only. *)
Lemma on_chip_wf f s : irq_wf s → chip_wf (f (chip s)) → io_wf (ioapic (f (chip s))) → irq_wf (on_chip f s).
Proof. by intros [] ??; split. Qed.

Lemma with_counts_wf s k : irq_wf s →
  Forall (below 32) [TAKE_IRQ0 k; TAKE_IRQ4 k; TAKE_IRQ11 k; PIT_RAISES k; EOI_MASTER k; EOI_SLAVE k] →
  below 8 (LAST_OCW2_MASTER k) → below 8 (LAST_OCW2_SLAVE k) → irq_wf (with_counts s k).
Proof. by intros [] ???; split. Qed.

Lemma below_slave : below 8 (bit PIC_SLAVE_IRQ).
Proof. by split. Qed.

Lemma below_low8 v : below 8 (low8 v).
Proof. by apply below_land. Qed.

Lemma below_inc32 x : below 32 (inc32 x).
Proof. by apply Z.mod_pos_bound. Qed.

Lemma below_add8 a b : below 8 (add8 a b).
Proof. by apply Z.mod_pos_bound. Qed.

#[local] Hint Resolve below_slave below_low8 below_inc32 below_add8 : machine.

Lemma set_irr_wf p v : pic_wf p → below 8 v → pic_wf (set_irr p v).
Proof. by intros [] ?; split. Qed.

Lemma set_imr_wf p v : pic_wf p → below 8 v → pic_wf (set_imr p v).
Proof. by intros [] ?; split. Qed.

Lemma set_isr_wf p v : pic_wf p → below 8 v → pic_wf (set_isr p v).
Proof. by intros [] ?; split. Qed.

Lemma on_master_wf f c : chip_wf c → (pic_wf (master c) → pic_wf (f (master c))) → chip_wf (on_master f c).
Proof. intros [] H. split; [by apply H|done]. Qed.

Lemma on_slave_wf f c : chip_wf c → (pic_wf (slave c) → pic_wf (f (slave c))) → chip_wf (on_slave f c).
Proof. intros [] H. split; [done|by apply H]. Qed.

#[local] Hint Resolve set_irr_wf set_imr_wf set_isr_wf on_master_wf on_slave_wf wf_imr wf_irr wf_isr : machine.

Ltac wf_auto :=
  repeat (cbv beta; first [assumption | lazymatch goal with
    | |- _ → _ => intros
    | |- chip_wf (on_master _ _) => apply on_master_wf
    | |- chip_wf (on_slave _ _) => apply on_slave_wf
    | |- pic_wf (set_irr _ _) => apply set_irr_wf
    | |- pic_wf (set_imr _ _) => apply set_imr_wf
    | |- pic_wf (set_isr _ _) => apply set_isr_wf
    | |- below 8 (irr _) => apply wf_irr
    | |- below 8 (imr _) => apply wf_imr
    | |- below 8 (isr _) => apply wf_isr
    | |- below _ (Z.lor _ _) => apply below_lor; [done| |]
    | |- below _ (Z.ldiff _ _) => apply below_ldiff; [done|]
    | |- below 8 (bit PIC_SLAVE_IRQ) => apply below_slave
    | |- below _ (bit _) => apply below_bit; lia
    end]).

Lemma drop_cascade_wf c : chip_wf c → chip_wf (drop_cascade c).
Proof. intros W. unfold drop_cascade. destruct (_ =? 0); wf_auto. Qed.

Lemma raise_pic_wf c irq : chip_wf c → 0 ≤ irq < 16 → chip_wf (raise_pic_locked c irq).
Proof.
  intros W Hi. unfold raise_pic_locked, unmask_pic_locked. destruct (Z.ltb_spec irq 8), (pic_level_intx irq); wf_auto.
Qed.

Lemma lower_pic_wf c irq : chip_wf c → chip_wf (lower_pic_locked c irq).
Proof. intros W. unfold lower_pic_locked. destruct (irq <? 8); [|apply drop_cascade_wf]; wf_auto. Qed.

Lemma pic_ack_wf c irq : chip_wf c → 0 ≤ irq < 16 → chip_wf (pic_ack c irq).
Proof.
  intros W Hi. unfold pic_ack. destruct (Z.ltb_spec irq 8).
  - cbv zeta. destruct (aeoi _); wf_auto.
  - apply drop_cascade_wf. destruct (pic_level_intx irq), (aeoi _); wf_auto.
Qed.

Lemma pic_cmd_wf p val : pic_wf p → pic_wf (pic_cmd p val).
Proof.
  intros W. unfold pic_cmd. destruct (negb _); [by destruct W; split|]. destruct (negb _); [by destruct W; split|].
  eauto with machine lia.
Qed.

Lemma pic_data_wf p val : pic_wf p → below 8 val → pic_wf (pic_data p val).
Proof.
  intros W V. unfold pic_data. destruct (Z.eqb_spec (init p) 1) as [E|N1].
  { destruct W. split; cbn; try done. intros R. by rewrite wf_idle0 in R by lia. intros _. apply wf_idle0. lia. }
  destruct (Z.eqb_spec (init p) 2) as [E|N2].
  { destruct W. specialize (wf_idle0 ltac:(lia)). split; cbn; try done; destruct (expect_icw4 p); cbn; try lia; try congruence. }
  destruct (Z.eqb_spec (init p) 3) as [E|N3].
  { destruct W. split; cbn; try done; lia. }
  eauto with machine.
Qed.

Lemma idle_default_wf p vec : pic_wf p → 16 ≤ vec < 256 → pic_wf (pic_idle_default p vec).
Proof.
  intros W V. unfold pic_idle_default. destruct (Z.eqb_spec (init p) 0); [|done]. cbn [negb].
  destruct (_ || _); [|done]. destruct W. assert (below 8 vec) by (by split; lia). split; cbn; try done; lia.
Qed.

Lemma set_io_irr_wf io v : io_wf io → below 24 v → io_wf (set_io_irr io v).
Proof. by intros [] ?; split. Qed.

Lemma set_rte_wf io pin v : io_wf io → below 64 v → io_wf (set_rte io pin v).
Proof. intros [] ?; split; cbn; try done; [by rewrite length_insert|by apply Forall_insert]. Qed.

Lemma rte_below io pin : io_wf io → below 64 (rte io pin).
Proof.
  intros []. unfold rte. destruct (redir io !! Z.to_nat pin) eqn:E; cbn; [|by split].
  by eapply Forall_lookup_1 in wf_rtes0.
Qed.

Lemma accept_wf c pin : chip_wf c → io_wf (ioapic c) → chip_wf (ioapic_accept c pin) ∧ io_wf (ioapic (ioapic_accept c pin)).
Proof.
  intros W V. split; [by destruct W|]. cbn. pose proof (rte_below (ioapic c) pin V) as R.
  assert (below 64 (Z.lor (rte (ioapic c) pin) RTE_REMOTE_IRR)) by (by apply below_lor; [|done|split]).
  assert (below 24 (Z.ldiff (io_irr (ioapic c)) (bit pin))) by (apply below_ldiff; [done|by destruct V]).
  destruct (negb _); destruct (_ =? 0); auto using set_io_irr_wf, set_rte_wf.
Qed.

Lemma eoi_rte_below vec r : below 64 r → below 64 (eoi_rte vec r).
Proof. intros. unfold eoi_rte. destruct (_ && _); [by apply below_ldiff|done]. Qed.

Lemma write_rte_below r n val : below 64 r → below 32 val →
  below 64 (if Z.land n 1 =? 0 then Z.lor (Z.ldiff r 0xFFFFFFFF) val else Z.lor (Z.land r 0xFFFFFFFF) (Z.shiftl val 32)).
Proof.
  intros R V. destruct (_ =? 0); apply below_lor; try done.
  - by apply below_ldiff.
  - by eapply below_mono; [|exact V].
  - eapply below_mono; [|by apply (below_land 32)]. done.
  - rewrite Z.shiftl_mul_pow2 by done. destruct V. split; [lia|]. change (2 ^ 64) with (2 ^ 32 * 2 ^ 32). nia.
Qed.

Lemma io_write_wf io off val : io_wf io → below 32 val → io_wf (ioapic_write_locked io off val).
Proof.
  intros W V. unfold ioapic_write_locked, ioapic_win_write. cbv zeta. destruct (_ =? 0); [by destruct W; split|].
  destruct (_ =? 0x10); [|done]. destruct (_ =? 0); [destruct W; split; try done; by apply below_land|].
  destruct (_ && _); [|done]. destruct (_ <=? _); [done|]. apply set_rte_wf; [done|]. by apply write_rte_below, V; apply rte_below.
Qed.

Lemma peek_pin_ready p c pin vec : ioapic_peek_pin p c = Some (pin, vec) → ioapic_pin_ready c pin = Some vec.
Proof.
  assert (∀ q, ready_pin c q = Some (pin, vec) → ioapic_pin_ready c pin = Some vec) as R.
  { unfold ready_pin. intros q. destruct (ioapic_pin_ready c q) eqn:E; cbn; [|done]. by intros [= <- <-]. }
  unfold ioapic_peek_pin. intros H.
  repeat match type of H with
  | match ?t with Some _ => _ | None => _ end = _ => destruct t eqn:?; [simplify_eq|]
  end; repeat match goal with
  | E : find_map _ _ = Some _ |- _ => apply find_map_Some in E as (? & ? & ? & E & _)
  | E : (if ?b then _ else _) = Some _ |- _ => destruct b; [try done|try done]
  end; eauto.
Qed.

Lemma pit_tick_wf p : pit_wf p → pit_wf (pit_tick_locked p).
Proof.
  intros []. split; cbn; try done. unfold reload_value. destruct (Z.leb_spec (pit p) 64); [by destruct (_ =? 0)|].
  unfold below in *. lia.
Qed.

Lemma on_chip_raise_wf f s : irq_wf s → (chip_wf (chip s) → io_wf (ioapic (chip s)) → chip_wf (f (chip s)) ∧ io_wf (ioapic (f (chip s)))) →
  irq_wf (on_chip f s).
Proof. intros W H. destruct (H (wf_chip s W) (wf_io s W)). by apply on_chip_wf. Qed.

Lemma raise_pic_io c irq : ioapic (raise_pic_locked c irq) = ioapic c.
Proof. unfold raise_pic_locked, unmask_pic_locked. by destruct (irq <? 8), (pic_level_intx irq). Qed.

Lemma lower_pic_io c irq : ioapic (lower_pic_locked c irq) = ioapic c.
Proof. unfold lower_pic_locked, drop_cascade. destruct (irq <? 8); [done|]. by destruct (_ =? 0). Qed.

Lemma pic_ack_io c irq : ioapic (pic_ack c irq) = ioapic c.
Proof.
  unfold pic_ack, drop_cascade. destruct (irq <? 8); cbv zeta; [by destruct (aeoi _)|].
  by destruct (_ =? 0), (pic_level_intx irq), (aeoi _).
Qed.

Lemma raise_line_wf io gsi : io_wf io → 0 ≤ gsi < 24 → io_wf (set_io_irr io (Z.lor (io_irr io) (bit gsi))).
Proof. intros W H. apply set_io_irr_wf; [done|]. apply below_lor; [done|by destruct W|by apply below_bit]. Qed.

Lemma raise_ioapic_wf iso s gsi : irq_wf s → 0 ≤ gsi → irq_wf (raise_ioapic_gsi iso s gsi).
Proof.
  intros W H. unfold raise_ioapic_gsi. destruct (negb _); [done|]. apply on_chip_raise_wf; [done|]. intros C I.
  unfold IOAPIC_PINS. destruct (Z.ltb_spec gsi 24); [|done]. split; [by destruct C|]. by apply raise_line_wf.
Qed.

Lemma raise_gsi_wf iso s gsi : irq_wf s → 0 ≤ gsi → irq_wf (raise_gsi iso s gsi).
Proof.
  intros W H. unfold raise_gsi. destruct (negb _); [done|]. apply on_chip_raise_wf; [done|]. intros C I. cbv zeta.
  unfold IOAPIC_PINS. destruct (Z.ltb_spec gsi 16).
  - rewrite raise_pic_io, (proj2 (Z.ltb_lt gsi 24)) by lia. split; [apply raise_pic_wf; [by destruct C|lia]|apply raise_line_wf; [done|lia]].
  - destruct (Z.ltb_spec gsi 24); [|done]. split; [by destruct C|by apply raise_line_wf].
Qed.

Lemma lower_gsi_wf s gsi : irq_wf s → irq_wf (lower_gsi s gsi).
Proof.
  intros W. apply on_chip_raise_wf; [done|]. intros C I. cbv zeta.
  set (c := if gsi <? IOAPIC_PINS then _ else _).
  assert (chip_wf c ∧ io_wf (ioapic c)) as [C' I'].
  { unfold c. destruct (gsi <? IOAPIC_PINS); [|done]. split; [by destruct C|]. apply set_io_irr_wf; [done|].
    apply below_ldiff; [done|by destruct I]. }
  destruct (gsi <? 16); [|done]. rewrite lower_pic_io. split; [by apply lower_pic_wf|done].
Qed.

Lemma raise_pit_wf iso s : irq_wf s → irq_wf (raise_pit iso s).
Proof.
  intros W. unfold raise_pit. apply raise_ioapic_wf; [|done]. unfold raise_pic_irq. destruct (negb _).
  - destruct W as [? ? ? Ct [? ?] ? ?]. split; cbn; try done; [|by apply pit_tick_wf].
    rewrite !Forall_cons in Ct |- *. destruct Ct as (?&?&?&?&?&?&?). split_and!; try done. apply below_inc32.
  - apply on_chip_raise_wf; cycle 1.
    { intros C I. rewrite raise_pic_io. split; [by apply raise_pic_wf|done]. }
    destruct W as [? ? ? Ct [? ?] ? ?]. split; cbn; try done; [|by apply pit_tick_wf].
    rewrite !Forall_cons in Ct |- *. destruct Ct as (?&?&?&?&?&?&?). split_and!; try done. apply below_inc32.
Qed.

Lemma ata_vec_range c : chip_wf c → 0 ≤ firmware_ata_vec_locked c < 256.
Proof.
  intros [Wm Ws]. unfold firmware_ata_vec_locked. cbv zeta.
  assert (0 ≤ Z.land (rte (ioapic c) ATA_GSI) 0xFF < 256) by (by apply (below_land 8)).
  assert (0 ≤ pic_irq14_vec c < 256) by (unfold pic_irq14_vec; destruct (_ <=? _); apply (below_add8 _ _)).
  by repeat destruct (_ && _) || destruct (negb _) || destruct (_ <=? _).
Qed.

Lemma set_aeoi_wf p b : pic_wf p → pic_wf (set_aeoi p b).
Proof. by intros []; split. Qed.

Lemma arm_wire_wf iso s : irq_wf s → irq_wf (arm_firmware_virtual_wire iso s).
Proof.
  intros W. unfold arm_firmware_virtual_wire. destruct (negb _); [done|]. apply on_chip_raise_wf; [by destruct W; split|].
  cbn -[pic_idle_default bit]. intros [Wm Ws] I. split; [split; [|done]|].
  - apply set_aeoi_wf, set_imr_wf; [by apply idle_default_wf|]. apply below_ldiff; [done|]. by apply wf_imr, idle_default_wf.
  - by repeat apply set_rte_wf.
Qed.

Lemma arm_ata_wf iso s : irq_wf s → irq_wf (arm_firmware_ata_gsi14 iso s).
Proof.
  intros W. unfold arm_firmware_ata_gsi14. destruct (negb _); [done|]. apply on_chip_raise_wf; [done|]. intros [Wm Ws] I.
  cbv zeta. set (c := on_slave (λ p, set_aeoi p true) _).
  assert (pic_wf (master c)) as Wm' by (by apply set_aeoi_wf, idle_default_wf).
  assert (pic_wf (slave c)) as Ws' by (by apply set_aeoi_wf, idle_default_wf).
  assert (0 ≤ firmware_ata_vec_locked c < 256) as V by (by apply ata_vec_range).
  assert (io_wf (ioapic c)) as I' by exact I. clearbody c. split.
  - apply on_master_wf; [apply on_slave_wf; [by split|]|]; wf_auto.
  - cbn -[bit firmware_ata_vec_locked]. apply set_rte_wf; [done|]. apply below_lor; [done| |split; [lia|]; change (2 ^ 64) with 18446744073709551616; lia].
    apply below_ldiff; [done|]. apply below_ldiff; [done|]. by apply rte_below.
Qed.

Lemma count_take_wf s irq : irq_wf s → irq_wf (with_counts s (count_take irq (counts s))).
Proof.
  intros W. destruct (wf_last s W), (wf_counts s W) as [|]; pose proof (wf_counts s W) as Ct;
    rewrite !Forall_cons in Ct; destruct Ct as (?&?&?&?&?&?&?); apply with_counts_wf; try done;
    unfold count_take; destruct (irq =? 0), (irq =? 4), (irq =? VIRTIO_PIC_IRQ); cbn; try done;
    rewrite !Forall_cons; split_and!; try done; apply below_inc32.
Qed.

Lemma note_take_wf irq hz tsc p a : 0 ≤ PIC11_SINCE_PIT p ≤ 2 → u64 (HOLD_TSC a) →
  let '(p', a') := note_take irq hz tsc p a in 0 ≤ PIC11_SINCE_PIT p' ≤ 2 ∧ u64 (HOLD_TSC a').
Proof.
  intros Hp Ha. unfold note_take. destruct (irq =? 0); [done|]. destruct (irq =? VIRTIO_PIC_IRQ); [|done].
  unfold apk_media_mounted.
  assert (∀ a', u64 (HOLD_TSC a') → let '(p', a'0) :=
    (mkPrefs (PREFER_PIT_ONCE p) (PREFER_PIT_HOLD p) (3 <=? Z.min (PIC11_SINCE_PIT p + 1) 255)
      (if 3 <=? Z.min (PIC11_SINCE_PIT p + 1) 255 then 0 else add8 (PIC11_SINCE_PIT p) 1), a') in
    0 ≤ PIC11_SINCE_PIT p' ≤ 2 ∧ u64 (HOLD_TSC a'0)) as M.
  { intros a' Ha'. cbn. split; [|done]. unfold add8. destruct (Z.leb_spec 3 (Z.min (PIC11_SINCE_PIT p + 1) 255)); [lia|].
    rewrite Z.mod_small; lia. }
  destruct (MEDIA_MOUNTED a); [by apply M|]. destruct (usbdelay_elapsed a hz tsc); [by apply M|done].
Qed.

Lemma pic_take_wf s hz tsc : irq_wf s → irq_wf (pic_take s hz tsc).1.
Proof.
  intros W. unfold pic_take. destruct (pic_pending_irq _ _) as [irq|] eqn:E; [|done].
  destruct (pending_range _ _ _ (wf_chip s W) E) as (Hi & _ & _).
  pose proof (note_take_wf irq hz tsc (prefs s) (answer s) (wf_since s W) (wf_hold s W)) as N.
  cbn [prefs answer with_counts]. destruct (note_take _ _ _ _ _) as [p' a']. destruct N as [N1 N2]. cbn [fst].
  apply on_chip_raise_wf; [|intros; rewrite pic_ack_io; split; [by apply pic_ack_wf|done]].
  pose proof (count_take_wf s irq W) as [? ? ? ? ? ? ?]. by split.
Qed.

Lemma accept_pin_wf s pin : irq_wf s → irq_wf (on_chip (λ c, ioapic_accept c pin) s).
Proof. intros W. apply on_chip_raise_wf; [done|]. apply accept_wf. Qed.

Lemma pic_io_wf s port is_in size rax : irq_wf s → irq_wf (pic_io s port is_in size rax).1.
Proof.
  intros W. unfold pic_io. destruct is_in; [done|]. cbn [fst]. unfold pic_write.
  assert (∀ s' f, irq_wf s' → (∀ p, pic_wf p → pic_wf (f p)) → irq_wf (on_chip (pic_of port f) s')) as P.
  { intros s' f W' F. apply on_chip_raise_wf; [done|]. intros [Wm Ws] I. unfold pic_of. split; [|by destruct (pic_is_slave port)]. split; destruct (pic_is_slave port); cbn; auto. }
  destruct (_ || _).
  - apply P; [|intros; by apply pic_cmd_wf]. destruct (pic_ocw2_is_eoi _); [|done].
    pose proof (wf_counts s W) as Ct. destruct (wf_last s W). rewrite !Forall_cons in Ct. destruct Ct as (?&?&?&?&?&?&?).
    apply with_counts_wf; [done|..]; unfold count_eoi; destruct (port =? 0xA0); cbn; try apply below_low8; try done;
      rewrite !Forall_cons; split_and!; try done; apply below_inc32.
  - destruct (_ || _); [|done]. apply P; [done|]. intros. apply pic_data_wf; [done|apply below_low8].
Qed.

Lemma empty_wf : chip_wf chip_empty ∧ io_wf (ioapic chip_empty) ∧
  Forall (below 32) [TAKE_IRQ0 counts_zero; TAKE_IRQ4 counts_zero; TAKE_IRQ11 counts_zero; PIT_RAISES counts_zero;
                     EOI_MASTER counts_zero; EOI_SLAVE counts_zero].
Proof.
  assert (below 8 0 ∧ below 32 0 ∧ below 24 0 ∧ below 8 255 ∧ below 64 RTE_MASK) as (?&?&?&?&?) by done.
  assert (pic_wf pic_empty) by (split; done). split_and!; [done| |by repeat constructor]. split; try done.
  by apply Forall_replicate.
Qed.

Lemma exec_wf iso s o : irq_wf s → op_ok o → irq_wf (exec iso s o).1.
Proof.
  intros W. destruct o; cbn [exec fst op_ok]; intros O.
  - apply raise_gsi_wf, O. done.
  - by apply lower_gsi_wf.
  - apply raise_ioapic_wf, O. done.
  - by apply raise_pit_wf.
  - by destruct W; split.
  - unfold prefer_pit_hold. destruct W, need; split; cbn; try done. unfold note_overlay_hold. by destruct (_ =? 0).
  - by destruct W; split.
  - by apply arm_wire_wf.
  - by apply arm_ata_wf.
  - by apply pic_io_wf.
  - apply on_chip_raise_wf; [done|]. intros C I. split; [by destruct C|by apply io_write_wf].
  - unfold note_linux_ioapic_write. destruct (negb _); [done|]. destruct (_ || _); [by destruct W; split|done].
  - unfold take_inject_vector, take_vector. destruct (negb _); [done|].
    destruct (ioapic_peek_pin _ _) as [[pin vec]|]; [by apply accept_pin_wf|by apply pic_take_wf].
  - unfold take_pic_vector. destruct (negb _); [done|by apply pic_take_wf].
  - unfold take_ioapic_vector. destruct (negb _); [done|]. destruct (ioapic_peek_pin _ _) as [[pin vec]|]; [by apply accept_pin_wf|done].
  - unfold take_ioapic_ata_vector. destruct (negb _); [done|]. destruct (ioapic_pin_ready _ _); [by apply accept_pin_wf|done].
  - unfold ioapic_eoi. destruct (negb _); [done|]. apply on_chip_raise_wf; [done|]. intros [] []. split; [done|].
    split; cbn; try done; [by rewrite length_fmap|]. apply Forall_fmap. eapply Forall_impl; [done|]. intros. by apply eoi_rte_below.
  - by destruct W; split.
  - destruct W. split; try done; apply empty_wf.
Qed.

Lemma boot_wf : irq_wf boot.
Proof. split; try done; try apply empty_wf. Qed.

Lemma run_wf ops : ∀ s, irq_wf s → Forall (λ o, op_ok o.2) ops → irq_wf (run s ops).1.
Proof.
  induction ops as [|[iso o] ops IH]; intros s W O; [done|]. apply Forall_cons in O as [O Os]. cbn [run].
  pose proof (exec_wf iso s o W O) as W'. destruct (exec iso s o) as [s' v]. specialize (IH s' W' Os).
  by destruct (run s' ops).
Qed.

Lemma ready_vec_range c pin vec : ioapic_pin_ready c pin = Some vec → 16 ≤ vec < 256 ∧ pin < IOAPIC_PINS.
Proof.
  unfold ioapic_pin_ready. destruct (Z.leb_spec IOAPIC_PINS pin); [done|]. destruct (_ =? 0); [done|]. cbv zeta.
  destruct (negb _); [done|]. destruct (_ && _); [done|].
  assert (0 ≤ Z.land (rte (ioapic c) pin) 0xFF < 256) by (by apply (below_land 8)).
  destruct (Z.ltb_spec (Z.land (rte (ioapic c) pin) 0xFF) 16); [done|]. intros [= <-]. lia.
Qed.

Lemma pic_vec_range s hz tsc s' v : irq_wf s → pic_take s hz tsc = (s', Some v) →
  vector (master (chip s)) ≤ 248 → vector (slave (chip s)) ≤ 248 → 16 ≤ v < 256.
Proof.
  intros W E Hm Hs. destruct (pic_pending_irq (prefs s) (chip s)) as [irq|] eqn:P; cycle 1.
  { unfold pic_take in E. by rewrite P in E. }
  destruct (pic_take_pending s hz tsc irq P) as [_ V]. rewrite E in V. cbn in V. injection V as ->.
  destruct (pending_range _ _ _ (wf_chip s W) P) as (Hi & _ & R). unfold requested, live in R.
  destruct (wf_chip s W) as [[] []]. unfold pic_vector, add8.
  destruct (Z.ltb_spec irq 8).
  - destruct (ready (master (chip s))); [|done]. rewrite Z.mod_small; lia.
  - destruct (ready (slave (chip s))); [|by rewrite !andb_false_r in R]. rewrite Z.mod_small; lia.
Qed.

(** C25: Whatever the guest and the devices do from power-on, every register of the
    chips, the counter, the latches and the counters stays in its type: widths, the
    24 entries of the redirection table, the initialisation phase of an 8259 (a chip
    in the middle of it is not ready, a ready one has a vector base of 16 or more).
    And a vector that is handed to VM entry is never one of the sixteen exception
    vectors, provided the guest's ICW2 bytes do not let the line number wrap. *)
Theorem irq_typed (ops : list (bool * Op)) : Forall (λ o, op_ok o.2) ops →
  let s := (run boot ops).1 in
  irq_wf s ∧
  ∀ iso o s' v, exec iso s o = (s', Some v) →
    vector (master (chip s)) ≤ 248 → vector (slave (chip s)) ≤ 248 → 16 ≤ v < 256.
Proof.
  intros O s. assert (irq_wf s) as W by (by apply run_wf; [apply boot_wf|]). split; [done|].
  intros iso o s' v E Hm Hs. destruct o; try done; cbn [exec] in E.
  - unfold take_inject_vector, take_vector in E. destruct (negb _); [done|].
    destruct (ioapic_peek_pin _ _) as [[pin vec]|] eqn:P; [|by eapply pic_vec_range].
    injection E as _ <-. by eapply ready_vec_range, peek_pin_ready.
  - unfold take_pic_vector in E. destruct (negb _); [done|]. by eapply pic_vec_range.
  - unfold take_ioapic_vector in E. destruct (negb _); [done|].
    destruct (ioapic_peek_pin _ _) as [[pin vec]|] eqn:P; [|done].
    injection E as _ <-. by eapply ready_vec_range, peek_pin_ready.
  - unfold take_ioapic_ata_vector in E. destruct (negb _); [done|].
    destruct (ioapic_pin_ready _ _) as [vec|] eqn:P; [|done]. injection E as _ <-. by eapply ready_vec_range.
Qed.

(** ** The timer is not starved *)

(** The line an operation acknowledges on the 8259 pair, if any. *)
Definition acked (iso : bool) (s : Irq) (o : Op) : option (Z * Z * Z) :=
  match o with
  | TakePic hz tsc =>
      if product_live iso s then (λ irq, (irq, hz, tsc)) <$> pic_pending_irq (prefs s) (chip s) else None
  | TakeInject hz tsc =>
      if product_live iso s then
        match ioapic_peek_pin (prefs s) (chip s) with
        | Some _ => None
        | None => (λ irq, (irq, hz, tsc)) <$> pic_pending_irq (prefs s) (chip s)
        end
      else None
  | _ => None
  end.

(** One acknowledge: the line; whether the timer was asking with preference; whether
    the media counted as mounted. *)
Record Ack := mkAck { a_irq : Z; a_waits : bool; a_mounted : bool }.

Definition timer_waits (s : Irq) : bool := prefer_pit_priority (prefs s) && requested (chip s) PIT_IRQ.

Fixpoint ack_log (s : Irq) (ops : list (bool * Op)) : list Ack :=
  match ops with
  | [] => []
  | (iso, o) :: ops =>
      let rest := ack_log (exec iso s o).1 ops in
      match acked iso s o with
      | Some (irq, hz, tsc) => mkAck irq (timer_waits s) (apk_media_mounted (answer s) hz tsc).2 :: rest
      | None => rest
      end
  end.

Definition count11 (l : list Ack) : nat := length (filter (λ a, a_irq a = VIRTIO_PIC_IRQ) l).

(** How often line 11 may still go first. *)
Definition budget (p : Prefs) : nat := if IRQ11_YIELD_PIT p then 0 else Z.to_nat (3 - PIC11_SINCE_PIT p).
Definition budget1 (p : Prefs) : nat := if IRQ11_YIELD_PIT p then 0 else 1.

Definition same_yield (p p' : Prefs) : Prop :=
  IRQ11_YIELD_PIT p' = IRQ11_YIELD_PIT p ∧ PIC11_SINCE_PIT p' = PIC11_SINCE_PIT p.

Lemma exec_acked iso s o irq hz tsc : acked iso s o = Some (irq, hz, tsc) →
  pic_pending_irq (prefs s) (chip s) = Some irq ∧ prefs (exec iso s o).1 = (note_take irq hz tsc (prefs s) (answer s)).1.
Proof.
  assert (∀ h t, pic_pending_irq (prefs s) (chip s) = Some irq →
    prefs (pic_take s h t).1 = (note_take irq h t (prefs s) (answer s)).1) as T.
  { intros h t E. unfold pic_take. rewrite E. cbn [prefs answer with_counts]. by destruct (note_take _ _ _ _ _). }
  destruct o; try done; cbn [acked exec]; unfold take_inject_vector, take_pic_vector, take_vector.
  all: destruct (product_live iso s); [|done]; cbn [negb].
  - destruct (ioapic_peek_pin _ _); [done|]. destruct (pic_pending_irq _ _) as [i|] eqn:E; [|done]. intros [= -> -> ->]. auto.
  - destruct (pic_pending_irq _ _) as [i|] eqn:E; [|done]. intros [= -> -> ->]. auto.
Qed.

Lemma exec_not_acked iso s o : o ≠ Reset → acked iso s o = None → same_yield (prefs s) (prefs (exec iso s o).1).
Proof.
  assert (∀ h t, pic_pending_irq (prefs s) (chip s) = None → (pic_take s h t).1 = s) as T.
  { intros h t E. unfold pic_take. by rewrite E. }
  intros NR. destruct o; try done; cbn [acked exec fst]; intros A.
  - unfold raise_gsi. by destruct (negb _).
  - unfold raise_ioapic_gsi. by destruct (negb _).
  - unfold raise_pit, raise_ioapic_gsi, raise_pic_irq. by destruct (negb _); destruct (negb _).
  - unfold prefer_pit_hold. by destruct need.
  - unfold arm_firmware_virtual_wire. by destruct (negb _).
  - unfold arm_firmware_ata_gsi14. by destruct (negb _).
  - unfold pic_io. destruct is_in; [done|]. cbn. unfold pic_write. destruct (_ || _); [by destruct (pic_ocw2_is_eoi _)|by destruct (_ || _)].
  - unfold note_linux_ioapic_write. destruct (negb _); [done|]. by destruct (_ || _).
  - unfold take_inject_vector, take_vector. destruct (product_live iso s); [|done]. cbn [negb].
    destruct (ioapic_peek_pin _ _) as [[]|]; [done|]. destruct (pic_pending_irq _ _) eqn:E; [done|]. by rewrite T.
  - unfold take_pic_vector. destruct (product_live iso s); [|done]. cbn [negb].
    destruct (pic_pending_irq _ _) eqn:E; [done|]. by rewrite T.
  - unfold take_ioapic_vector. destruct (negb _); [done|]. by destruct (ioapic_peek_pin _ _) as [[]|].
  - unfold take_ioapic_ata_vector. destruct (negb _); [done|]. by destruct (ioapic_pin_ready _ _).
  - unfold ioapic_eoi. by destruct (negb _).
Qed.

(** While the timer waits with preference, line 11 is chosen only with its yield latch clear. *)
Lemma yield_blocks s : chip_wf (chip s) → timer_waits s = true →
  pic_pending_irq (prefs s) (chip s) = Some VIRTIO_PIC_IRQ → IRQ11_YIELD_PIT (prefs s) = false.
Proof.
  intros [Wm Ws] T E. apply andb_true_iff in T as [P R]. rewrite pic_choice in E by done.
  pose proof (find_some _ _ E) as [_ R11]. unfold order in E. rewrite P, R11 in E.
  destruct (IRQ11_YIELD_PIT (prefs s)); [|done]. cbn [andb app] in E.
  change (8 :: 9 :: 10 :: ?l) with ([8; 9; 10] ++ l) in E. rewrite find_app_case in E.
  destruct (find _ [8; 9; 10]) as [n|] eqn:F.
  - injection E as ->. apply find_some in F as [F _]. cbn in F. unfold VIRTIO_PIC_IRQ in F. lia.
  - cbn [find] in E. by rewrite R in E.
Qed.

Lemma note11_budget hz tsc p a : 0 ≤ PIC11_SINCE_PIT p ≤ 2 → IRQ11_YIELD_PIT p = false →
  let p' := (note_take VIRTIO_PIC_IRQ hz tsc p a).1 in
  (S (budget p') ≤ budget p)%nat ∧ ((apk_media_mounted a hz tsc).2 = false → budget1 p' = 0%nat).
Proof.
  intros Hp Y. cbv zeta. unfold note_take. cbn [Z.eqb VIRTIO_PIC_IRQ Pos.eqb].
  destruct (apk_media_mounted a hz tsc) as [a' []]; cbn [fst snd]; unfold budget, budget1; rewrite Y; cbn [IRQ11_YIELD_PIT PIC11_SINCE_PIT].
  - split; [|done]. unfold add8. destruct (Z.leb_spec 3 (Z.min (PIC11_SINCE_PIT p + 1) 255)); [lia|]. rewrite Z.mod_small; lia.
  - split; [lia|done].
Qed.

Definition run_ok (ops : list (bool * Op)) : Prop := Forall (λ o, op_ok o.2 ∧ o.2 ≠ Reset) ops.

(** An acknowledge made while the timer waits, of another line. *)
Definition passed_over (a : Ack) : Prop := a_waits a = true ∧ a_irq a ≠ PIT_IRQ.

Lemma window_budget ops : ∀ s w l, irq_wf s → run_ok ops → ack_log s ops = w ++ l → Forall passed_over w →
  (count11 w ≤ budget (prefs s))%nat ∧
  (Forall (λ a, a_mounted a = false) w → (count11 w ≤ budget1 (prefs s))%nat).
Proof.
  induction ops as [|[iso o] ops IH]; intros s w l W O L Pw.
  { destruct w; [|done]. split; [|intros _]; cbn; lia. }
  apply Forall_cons in O as [[O NR] Os]. cbn [ack_log] in L. pose proof (exec_wf iso s o W O) as W'.
  destruct (acked iso s o) as [[[irq hz] tsc]|] eqn:A.
  - destruct w as [|a w]; [split; [|intros _]; cbn; lia|]. injection L as <- L.
    apply Forall_cons in Pw as [[T N0] Pw]. cbn in T, N0. destruct (exec_acked _ _ _ _ _ _ A) as [E P].
    destruct (IH _ _ _ W' Os L Pw) as [B B1]. rewrite P in B, B1. unfold count11. rewrite filter_cons. cbn [a_irq].
    destruct (decide (irq = VIRTIO_PIC_IRQ)) as [->|N11].
    + pose proof (yield_blocks s (wf_chip s W) T E) as Y.
      destruct (note11_budget hz tsc (prefs s) (answer s) (wf_since s W) Y) as [D D1]. cbn [length]. split.
      * etransitivity; [|exact D]. by apply le_n_S.
      * intros M. apply Forall_cons in M as [M Ms]. cbn in M. unfold budget1 at 1. rewrite Y.
        specialize (B1 Ms). rewrite (D1 M) in B1. unfold count11 in B1. lia.
    + assert ((note_take irq hz tsc (prefs s) (answer s)).1 = prefs s) as EP.
      { unfold note_take. unfold PIT_IRQ in N0. by rewrite !(proj2 (Z.eqb_neq _ _)). }
      rewrite EP in B, B1. split; [exact B|]. intros M. apply Forall_cons in M as [_ Ms]. by apply B1.
  - destruct (exec_not_acked iso s o NR A) as [Y S]. destruct (IH _ _ _ W' Os L Pw) as [B B1].
    unfold budget, budget1 in *. by rewrite Y, S in *.
Qed.

Lemma log_suffix ops : ∀ s l1 l2, irq_wf s → run_ok ops → ack_log s ops = l1 ++ l2 →
  ∃ s' ops', irq_wf s' ∧ run_ok ops' ∧ ack_log s' ops' = l2.
Proof.
  induction ops as [|[iso o] ops IH]; intros s l1 l2 W O L.
  { destruct l1, l2; try done. by exists s, []. }
  destruct l1 as [|a l1]; [by exists s, ((iso, o) :: ops)|].
  pose proof O as Os. apply Forall_cons in Os as [[O1 NR] Os]. pose proof (exec_wf iso s o W O1) as W'. cbn [ack_log] in L.
  destruct (acked iso s o) as [[[irq hz] tsc]|]; [injection L as _ L|]; by eapply IH.
Qed.

(** The timer is not starved by the level-triggered line 11. Take any stretch of
    consecutive acknowledges, in any run without a reset, throughout which the timer
    asks with preference and is not taken: line 11 is taken at most three times in
    it, and at most once while the media does not count as mounted, however often it
    is raised and whatever else the guest does. *)
Theorem pit_not_starved (s : Irq) (ops : list (bool * Op)) (before w after : list Ack) :
  irq_wf s → run_ok ops → ack_log s ops = before ++ w ++ after → Forall passed_over w →
  (count11 w ≤ 3)%nat ∧ (Forall (λ a, a_mounted a = false) w → (count11 w ≤ 1)%nat).
Proof.
  intros W O L Pw. destruct (log_suffix ops s before (w ++ after) W O L) as (s' & ops' & W' & O' & L').
  destruct (window_budget ops' s' w after W' O' L' Pw) as [B B1]. pose proof (wf_since s' W') as S.
  unfold budget, budget1 in *. split; [destruct (IRQ11_YIELD_PIT _); lia|].
  intros M. specialize (B1 M). destruct (IRQ11_YIELD_PIT _); lia.
Qed.

(** ** Deliveries of an IOAPIC pin *)

Definition pin_rte (s : Irq) (pin : Z) : Z := rte (ioapic (chip s)) pin.
Definition pin_level (s : Irq) (pin : Z) : bool := Z.testbit (pin_rte s pin) 15.
Definition pin_remote (s : Irq) (pin : Z) : bool := Z.testbit (pin_rte s pin) 14.
Definition pin_pending (s : Irq) (pin : Z) : bool := Z.testbit (io_irr (ioapic (chip s))) pin.
Definition pin_vec (s : Irq) (pin : Z) : Z := Z.land (pin_rte s pin) 0xFF.

(** The pin an operation accepts. *)
Definition delivered (iso : bool) (s : Irq) (o : Op) : option Z :=
  if negb (product_live iso s) then None
  else
    match o with
    | TakeInject _ _ | TakeIoapic => fst <$> ioapic_peek_pin (prefs s) (chip s)
    | TakeAta => (λ _, ATA_GSI) <$> ioapic_pin_ready (chip s) ATA_GSI
    | _ => None
    end.

(** Operations that do not reprogram the redirection table. *)
Definition keeps_rte (o : Op) : Prop :=
  match o with
  | ArmWire | ArmAta | Reset => False
  | IoapicWrite off _ => Z.land off 0xFF ≠ 0x10
  | _ => True
  end.

Definition raises_pin (pin : Z) (o : Op) : bool :=
  match o with
  | RaiseGsi gsi | RaiseIoapicGsi gsi => gsi =? pin
  | RaisePit => pin =? PIT_IOAPIC_GSI
  | _ => false
  end.

Definition ends_vec (vec : Z) (o : Op) : bool := match o with Eoi v => v =? vec | _ => false end.

Definition count_ops (f : Op → bool) (ops : list (bool * Op)) : nat := length (filter (λ o, f o.2 = true) ops).

Fixpoint deliveries (s : Irq) (pin : Z) (ops : list (bool * Op)) : nat :=
  match ops with
  | [] => 0
  | (iso, o) :: ops =>
      ((if decide (delivered iso s o = Some pin) then 1 else 0) + deliveries (exec iso s o).1 pin ops)%nat
  end.

Lemma rte_set io p q v : (Z.to_nat p < length (redir io))%nat → 0 ≤ p → 0 ≤ q →
  rte (set_rte io p v) q = if q =? p then v else rte io q.
Proof.
  intros Hl Hp Hq. unfold rte, set_rte. cbn. destruct (Z.eqb_spec q p) as [->|N].
  - by rewrite list_lookup_insert_eq.
  - rewrite list_lookup_insert_ne by lia. done.
Qed.

Lemma accept_pin c pin q : io_wf (ioapic c) → 0 ≤ pin < 24 → 0 ≤ q →
  let io := ioapic (ioapic_accept c pin) in
  let lvl := Z.testbit (rte (ioapic c) pin) 15 in
  rte io q = (if (q =? pin) && lvl then Z.lor (rte (ioapic c) q) (bit 14) else rte (ioapic c) q) ∧
  Z.testbit (io_irr io) q = Z.testbit (io_irr (ioapic c)) q && negb ((q =? pin) && negb lvl).
Proof.
  intros W Hp Hq. cbv zeta. unfold ioapic_accept. cbn [on_ioapic ioapic].
  change RTE_TRIG_LEVEL with (bit 15). change RTE_REMOTE_IRR with (bit 14). rewrite bit_test, negb_involutive by done.
  destruct (Z.testbit (rte (ioapic c) pin) 15) eqn:L; rewrite bit_test by done.
  - rewrite bit_set, L, andb_false_r, !andb_true_r by done. cbn [orb negb].
    rewrite rte_set by (rewrite ?wf_pins by done; unfold IOAPIC_PINS; lia). split; [|done]. by destruct (Z.eqb_spec q pin) as [->|].
  - rewrite L, andb_false_r, andb_true_r. cbn [negb set_io_irr io_irr]. split; [done|]. by rewrite bit_clear by lia.
Qed.

Lemma delivered_ready iso s o pin : delivered iso s o = Some pin →
  ∃ vec, ioapic_pin_ready (chip s) pin = Some vec ∧ chip (exec iso s o).1 = ioapic_accept (chip s) pin.
Proof.
  unfold delivered. destruct (product_live iso s) eqn:P; [|done]. cbn [negb].
  destruct o; try done; cbn [exec]; unfold take_inject_vector, take_vector, take_ioapic_vector, take_ioapic_ata_vector; rewrite P; cbn [negb].
  - destruct (ioapic_peek_pin _ _) as [[q vec]|] eqn:E; [|done]. intros [= ->]. apply peek_pin_ready in E. eauto.
  - destruct (ioapic_peek_pin _ _) as [[q vec]|] eqn:E; [|done]. intros [= ->]. apply peek_pin_ready in E. eauto.
  - destruct (ioapic_pin_ready _ _) as [vec|] eqn:E; [|done]. intros [= <-]. eauto.
Qed.

Lemma ready_bits c pin vec : 0 ≤ pin → ioapic_pin_ready c pin = Some vec →
  Z.testbit (io_irr (ioapic c)) pin = true ∧ Z.testbit (rte (ioapic c) pin) 15 && Z.testbit (rte (ioapic c) pin) 14 = false.
Proof.
  intros Hp. unfold ioapic_pin_ready. destruct (_ <=? pin); [done|]. rewrite bit_test by done.
  destruct (Z.testbit (io_irr (ioapic c)) pin); [|done]. cbn [negb]. cbv zeta. destruct (negb _); [done|].
  change RTE_TRIG_LEVEL with (bit 15). change RTE_REMOTE_IRR with (bit 14). rewrite !bit_test, !negb_involutive by done.
  by destruct (_ && _).
Qed.

Lemma peek_pin_nonneg p c pin vec : ioapic_peek_pin p c = Some (pin, vec) → 0 ≤ pin.
Proof.
  assert (∀ q, 0 ≤ q → ready_pin c q = Some (pin, vec) → 0 ≤ pin) as R.
  { unfold ready_pin. intros q Hq. destruct (ioapic_pin_ready c q) eqn:E; cbn; [|done]. by intros [= <- _]. }
  assert (Forall (λ q, 0 ≤ q) IOAPIC_IO_PINS ∧ Forall (λ q, 0 ≤ q) (seqZ 0 IOAPIC_PINS)) as [P1 P2].
  { split; [by repeat constructor|]. apply Forall_forall. intros q Hq%elem_of_seqZ. lia. }
  unfold ioapic_peek_pin. intros H.
  destruct (find_map _ IOAPIC_IO_PINS) eqn:E1; simplify_eq.
  { apply find_map_Some in E1 as (i & q & L & E1 & _). eapply Forall_lookup_1 in L; [|exact P1]. destruct (_ && _); [done|eauto]. }
  destruct (ready_pin c PIT_IOAPIC_GSI) eqn:E2; simplify_eq; [by eapply (R PIT_IOAPIC_GSI)|].
  destruct (if prefer_pit_priority p then _ else _) eqn:E3; simplify_eq.
  { destruct (prefer_pit_priority p); [|done]. by eapply (R UART_GSI). }
  apply find_map_Some in H as (i & q & L & E & _). eapply Forall_lookup_1 in L; [|exact P2]. destruct (_ || _); [done|eauto].
Qed.

Lemma delivered_range iso s o pin : delivered iso s o = Some pin → 0 ≤ pin < 24.
Proof.
  intros D. destruct (delivered_ready iso s o pin D) as (vec & R & _). apply ready_vec_range in R as [_ R].
  split; [|exact R]. unfold delivered in D. destruct (negb _); [done|].
  destruct o; try done; [..|destruct (ioapic_pin_ready _ _); [by injection D as <-|done]].
  all: destruct (ioapic_peek_pin _ _) as [[q v]|] eqn:E; [|done]; injection D as ->; by eapply peek_pin_nonneg.
Qed.

Lemma take_io_same s hz tsc : ioapic (chip (pic_take s hz tsc).1) = ioapic (chip s).
Proof.
  unfold pic_take. destruct (pic_pending_irq _ _); [|done]. destruct (note_take _ _ _ _ _). cbn. apply pic_ack_io.
Qed.

(** The IOAPIC after an operation that accepts no pin. *)
Definition io_after (iso : bool) (s : Irq) (o : Op) (pin : Z) : Prop :=
  let s' := (exec iso s o).1 in
  pin_rte s' pin = (match o with Eoi v => if product_live iso s then eoi_rte v (pin_rte s pin) else pin_rte s pin | _ => pin_rte s pin end) ∧
  (pin_pending s' pin = true → pin_pending s pin = true ∨ raises_pin pin o = true).

Lemma pending_raise x gsi pin : 0 ≤ gsi → Z.testbit (Z.lor x (bit gsi)) pin = true → Z.testbit x pin = true ∨ (gsi =? pin) = true.
Proof. intros H. rewrite bit_set by done. rewrite Z.eqb_sym. by destruct (Z.testbit x pin); auto. Qed.

Lemma pending_lower x gsi pin : 0 ≤ gsi → Z.testbit (Z.ldiff x (bit gsi)) pin = true → Z.testbit x pin = true.
Proof. intros H. rewrite bit_clear by done. by destruct (Z.testbit x pin). Qed.

Lemma not_delivered iso s o pin : irq_wf s → op_ok o → keeps_rte o → 0 ≤ pin < 24 → delivered iso s o = None → io_after iso s o pin.
Proof.
  intros W O K Hp D. unfold io_after, pin_rte, pin_pending.
  assert (∀ s', ioapic (chip s') = ioapic (chip s) →
    rte (ioapic (chip s')) pin = rte (ioapic (chip s)) pin ∧
    (Z.testbit (io_irr (ioapic (chip s'))) pin = true → Z.testbit (io_irr (ioapic (chip s))) pin = true ∨ raises_pin pin o = true)) as Same.
  { intros s' ->. auto. }
  destruct o; try done; try (by apply Same); cbn [exec fst op_ok keeps_rte raises_pin] in *; unfold delivered in D.
  - unfold raise_gsi. destruct (negb _); [by apply Same|]. cbn. destruct (gsi <? IOAPIC_PINS), (gsi <? 16); rewrite ?raise_pic_io; cbn;
      (split; [done|]); try (by auto); apply pending_raise, O.
  - unfold lower_gsi. cbn. destruct (gsi <? IOAPIC_PINS), (gsi <? 16); rewrite ?lower_pic_io; cbn;
      (split; [done|]); try (by auto); intros H; left; by eapply pending_lower; [apply O|].
  - unfold raise_ioapic_gsi. destruct (negb _); [by apply Same|]. cbn. destruct (gsi <? IOAPIC_PINS); cbn;
      (split; [done|]); try (by auto); apply pending_raise, O.
  - unfold raise_pit, raise_ioapic_gsi, raise_pic_irq. destruct (negb _); destruct (negb _); try (by apply Same); cbn; rewrite ?raise_pic_io;
      (split; [done|]); rewrite (Z.eqb_sym pin); by apply pending_raise.
  - apply Same. unfold prefer_pit_hold. by destruct need.
  - apply Same. unfold pic_io. destruct is_in; [done|]. cbn. unfold pic_write, pic_of.
    destruct (_ || _); [destruct (pic_ocw2_is_eoi _)|destruct (_ || _)]; by destruct (pic_is_slave port).
  - unfold ioapic_write. cbn. unfold ioapic_write_locked. destruct (_ =? 0); [by auto|].
    rewrite (proj2 (Z.eqb_neq _ _)) by done. auto.
  - apply Same. clear D. unfold note_linux_ioapic_write. destruct (negb _); [done|]. by destruct (_ || _).
  - apply Same. unfold take_inject_vector, take_vector. destruct (negb _); [done|]. destruct (ioapic_peek_pin _ _) as [[]|]; [done|]. apply take_io_same.
  - apply Same. unfold take_pic_vector. destruct (negb _); [done|]. apply take_io_same.
  - apply Same. unfold take_ioapic_vector. destruct (negb _); [done|]. by destruct (ioapic_peek_pin _ _) as [[]|].
  - apply Same. unfold take_ioapic_ata_vector. destruct (negb _); [done|]. by destruct (ioapic_pin_ready _ _).
  - unfold ioapic_eoi. destruct (product_live iso s); cbn; [|by auto]. split; [|by auto]. unfold rte. cbn. rewrite list_lookup_fmap.
    destruct (lookup_lt_is_Some_2 (redir (ioapic (chip s))) (Z.to_nat pin)) as [r ->]; [|done].
    rewrite wf_pins by apply W. unfold IOAPIC_PINS. lia.
Qed.

Lemma low_byte_same r r' : (∀ i, i ≠ 14 → Z.testbit r' i = Z.testbit r i) → Z.land r' 0xFF = Z.land r 0xFF.
Proof.
  intros H. apply Z.bits_inj'. intros i Hi. rewrite !Z.land_spec. destruct (decide (i = 14)) as [->|N]; [by rewrite !andb_false_r|].
  by rewrite H.
Qed.

Lemma set14_bits r i : i ≠ 14 → Z.testbit (Z.lor r (bit 14)) i = Z.testbit r i.
Proof. intros. rewrite bit_set, (proj2 (Z.eqb_neq _ _)) by done. apply orb_false_r. Qed.

Lemma eoi_rte_bits v r i : i ≠ 14 → Z.testbit (eoi_rte v r) i = Z.testbit r i.
Proof.
  intros. unfold eoi_rte. destruct (_ && _); [|done]. change RTE_REMOTE_IRR with (bit 14).
  rewrite bit_clear, (proj2 (Z.eqb_neq _ _)) by done. apply andb_true_r.
Qed.

(** One step: trigger mode and vector stay; the remote bit falls only by an end of
    interrupt of the vector, the latch rises only by raising the pin; an accepted
    level pin had its remote bit clear and has it set after, an accepted edge pin
    had its latch set and has it clear after. *)
Lemma pin_step iso s o pin : irq_wf s → op_ok o → keeps_rte o → 0 ≤ pin < 24 →
  let s' := (exec iso s o).1 in
  pin_level s' pin = pin_level s pin ∧ pin_vec s' pin = pin_vec s pin ∧
  (pin_remote s' pin = false → pin_remote s pin = false ∨ ends_vec (pin_vec s pin) o = true) ∧
  (pin_pending s' pin = true → pin_pending s pin = true ∨ raises_pin pin o = true) ∧
  (delivered iso s o = Some pin →
     if pin_level s pin then pin_remote s pin = false ∧ pin_remote s' pin = true
     else pin_pending s pin = true ∧ pin_pending s' pin = false).
Proof.
  intros W O K Hp. cbv zeta. unfold pin_vec, pin_level, pin_remote. destruct (delivered iso s o) as [q|] eqn:D.
  - pose proof (delivered_range _ _ _ _ D) as Hq. destruct (delivered_ready _ _ _ _ D) as (vec & R & C).
    destruct (ready_bits _ _ _ (proj1 Hq) R) as [P RB].
    destruct (accept_pin (chip s) q pin (wf_io s W) Hq (proj1 Hp)) as [A1 A2]. rewrite <-C in A1, A2.
    unfold pin_rte, pin_pending. rewrite A1, A2. destruct (Z.eqb_spec pin q) as [->|N]; cbn [andb].
    + destruct (Z.testbit (rte (ioapic (chip s)) q) 15) eqn:L.
      * rewrite set14_bits by done. rewrite (low_byte_same _ _ (set14_bits _)). split_and!; try done.
        -- rewrite bit_set by done. by rewrite orb_true_r.
        -- by rewrite andb_true_r; left.
        -- intros _. split; [done|]. rewrite bit_set by done. apply orb_true_r.
      * split_and!; try done; [by left|by rewrite andb_false_r|]. intros _. by rewrite P.
    + rewrite andb_true_r. split_and!; try done; [by left|by left|]. intros [= ->]. done.
  - destruct (not_delivered iso s o pin W O K Hp D) as [A1 A2]. rewrite A1. split_and!; try done.
    + destruct o; try done. destruct (product_live iso s); [|done]. by rewrite eoi_rte_bits.
    + destruct o; try done. destruct (product_live iso s); [|done]. apply low_byte_same. intros. by rewrite eoi_rte_bits.
    + destruct o; try (by left). destruct (product_live iso s); [|by left]. cbn [ends_vec]. unfold eoi_rte.
      destruct (Z.eqb_spec (Z.land (pin_rte s pin) 0xFF) vec) as [<-|N]; [rewrite Z.eqb_refl; by right|by left].
Qed.

Lemma count_ops_cons f iso o ops : count_ops f ((iso, o) :: ops) = ((if f o then 1 else 0) + count_ops f ops)%nat.
Proof. unfold count_ops. rewrite filter_cons. cbn. by destruct (f o). Qed.

Definition table_kept (ops : list (bool * Op)) : Prop := Forall (λ o, op_ok o.2 ∧ keeps_rte o.2) ops.

Lemma ready_peeks p c pin : 0 ≤ pin < IOAPIC_PINS → is_Some (ioapic_pin_ready c pin) → is_Some (ioapic_peek_pin p c).
Proof.
  intros Hp R. assert (is_Some (ready_pin c pin)) as R' by (unfold ready_pin; by apply fmap_is_Some). clear R.
  unfold ioapic_peek_pin. destruct (find_map _ IOAPIC_IO_PINS) eqn:E1; [done|]. destruct (ready_pin c PIT_IOAPIC_GSI) eqn:E2; [done|].
  destruct (if prefer_pit_priority p then _ else _) eqn:E3; [done|]. apply not_eq_None_Some. intros E4.
  rewrite find_map_None in E1, E4. specialize (E4 pin). rewrite elem_of_seqZ in E4. specialize (E4 ltac:(lia)).
  destruct (pin =? PIT_IOAPIC_GSI) eqn:P2; [apply Z.eqb_eq in P2 as ->; by rewrite E2 in R'; apply is_Some_None in R'|].
  destruct (ioapic_pin_is_io pin) eqn:IO; [|cbn in E4; by rewrite E4 in R'; apply is_Some_None in R'].
  destruct (prefer_pit_priority p && (pin =? UART_GSI)) eqn:U.
  - apply andb_true_iff in U as [U1 ->%Z.eqb_eq]. rewrite U1 in E3. by rewrite E3 in R'; apply is_Some_None in R'.
  - specialize (E1 pin). cbv beta in E1. rewrite U in E1. rewrite E1 in R'; [by apply is_Some_None in R'|].
    unfold ioapic_pin_is_io in IO. rewrite !orb_true_iff, !Z.eqb_eq in IO. unfold IOAPIC_IO_PINS.
    destruct IO as [[[[-> | ->] | ->] | ->] | ->]; repeat constructor.
Qed.

(** C24: An IOAPIC pin is delivered only for cause. In a run that does not touch the
    redirection table ([table_kept]: no write through the IOAPIC window, no arming of
    the virtual wire or of the ATA pin by the hypervisor, no reset; a write to an entry clears its
    remote bit, and the pin could be delivered again), a level pin is delivered at most once more than the guest ends its
    vector (not even once before the first end when its remote bit is set), so two
    deliveries always have an end of interrupt between them; an edge pin is delivered
    at most once per raise, an earlier latched one included. And as long as some pin
    is ready a take is not empty. *)
Theorem ioapic_deliveries (s : Irq) (pin : Z) (ops : list (bool * Op)) :
  irq_wf s → table_kept ops → 0 ≤ pin < IOAPIC_PINS →
  (if pin_level s pin
   then deliveries s pin ops ≤ count_ops (ends_vec (pin_vec s pin)) ops + (if pin_remote s pin then 0 else 1)
   else deliveries s pin ops ≤ count_ops (raises_pin pin) ops + (if pin_pending s pin then 1 else 0))%nat ∧
  (is_Some (ioapic_pin_ready (chip s) pin) → is_Some (ioapic_peek_pin (prefs s) (chip s))).
Proof.
  intros W O Hp. split; [|by apply ready_peeks]. revert s W. induction ops as [|[iso o] ops IH]; intros s W; [destruct (pin_level s pin); cbn; lia|].
  apply Forall_cons in O as [[O1 K] Os]. specialize (IH Os _ (exec_wf iso s o W O1)).
  destruct (pin_step iso s o pin W O1 K Hp) as (Lv & Vc & Rm & Pd & Dl). cbn [deliveries]. rewrite !count_ops_cons.
  rewrite Lv, Vc in IH. destruct (decide (delivered iso s o = Some pin)) as [D|D].
  - specialize (Dl D). destruct (pin_level s pin); destruct Dl as [D1 D2]; rewrite D1; rewrite D2 in IH; lia.
  - clear Dl. destruct (pin_level s pin).
    + destruct (pin_remote (exec iso s o).1 pin) eqn:R'; [lia|]. destruct (Rm eq_refl) as [-> | ->]; lia.
    + destruct (pin_pending (exec iso s o).1 pin) eqn:P'; [|lia]. destruct (Pd eq_refl) as [-> | ->]; lia.
Qed.

(** ** A request behind a masked cascade is lost *)

Definition slave_quiet_but (c : IrqChip) (j : Z) : Prop :=
  ∀ n, 8 ≤ n < 16 → n ≠ j → line_irr c n = true → line_imr c n = true.

Lemma lower_slave c j : pic_wf (slave c) → 8 ≤ j < 16 → slave_quiet_but c j →
  lower_pic_locked c j = on_master (λ p, set_irr p (Z.ldiff (irr p) (bit PIC_SLAVE_IRQ)))
                           (on_slave (λ p, set_irr p (Z.ldiff (irr p) (bit (j - 8)))) c).
Proof.
  intros Ws Hj Q. unfold lower_pic_locked. rewrite (proj2 (Z.ltb_ge _ _)) by lia. unfold drop_cascade.
  assert (Z.ldiff (irr (slave (on_slave (λ p, set_irr p (Z.ldiff (irr p) (bit (j - 8)))) c)))
            (imr (slave (on_slave (λ p, set_irr p (Z.ldiff (irr p) (bit (j - 8)))) c))) = 0) as E; [|by rewrite E].
  cbn -[bit Z.ldiff]. apply (below_zero 8); [repeat apply below_ldiff; [done..|by apply wf_irr]|].
  intros i Hi. rewrite Z.ldiff_spec, bit_clear by lia. destruct (Z.eqb_spec i (j - 8)) as [->|N]; [by rewrite andb_false_r|].
  specialize (Q (i + 8) ltac:(lia) ltac:(lia)). unfold line_irr, line_imr, side, level_of in Q.
  rewrite (proj2 (Z.ltb_ge _ _)) in Q by lia. replace (i + 8 - 8) with i in Q by lia.
  destruct (Z.testbit (irr (slave c)) i); [|done]. by rewrite Q.
Qed.

(** A request can get lost behind the cascade. Line [k] of the slave is latched but
    masked, and so is every other pending line of the slave but [j]; line [j] is
    lowered, and the guest then unmasks line [k]. The request is latched and unmasked,
    yet no line of the slave is chosen any more: lowering [j] withdrew the cascade
    request of the master and unmasking does not put it back. *)
Theorem masked_cascade_lost (s : Irq) (j k m : Z) :
  irq_wf s → 8 ≤ j < 16 → 8 ≤ k < 16 → j ≠ k → line_irr (chip s) k = true → slave_quiet_but (chip s) j →
  init (slave (chip s)) = 0 → below 8 m → Z.testbit m (k - 8) = false →
  let s' := (pic_io (lower_gsi s j) 0xA1 false 1 m).1 in
  line_irr (chip s') k = true ∧ line_imr (chip s') k = false ∧ line_isr (chip s') k = line_isr (chip s) k ∧
  ∀ p n, 8 ≤ n → pic_pending_irq p (chip s') ≠ Some n.
Proof.
  intros W Hj Hk N Ik Q I0 Hm Mk s'. assert (irq_wf s') as W' by (by apply pic_io_wf, lower_gsi_wf).
  assert (low8 m = m) as Lm by (unfold low8; rewrite (Z.land_ones _ 8) by done; by apply Z.mod_small).
  set (c0 := on_ioapic (λ io, set_io_irr io (Z.ldiff (io_irr io) (bit j))) (chip s)).
  assert (chip s' = on_slave (λ p, set_imr p m) (lower_pic_locked c0 j)) as C.
  { unfold s', pic_io. cbn [fst]. rewrite Lm. unfold pic_write, lower_gsi. cbn [Z.eqb Pos.eqb orb on_chip chip].
    rewrite !(proj2 (Z.ltb_lt _ _)) by (unfold IOAPIC_PINS; lia). cbn [pic_of pic_is_slave Z.eqb Pos.eqb orb]. fold c0.
    rewrite lower_slave; [|by apply W|done|exact Q]. unfold on_slave, pic_data. cbn [slave on_slave on_master init set_irr].
    change (init (slave c0)) with (init (slave (chip s))). by rewrite I0. }
  rewrite lower_slave in C; [|by apply W|done|exact Q]. split_and!.
  - rewrite C. unfold line_irr, side, level_of in Ik |- *. rewrite (proj2 (Z.ltb_ge k 8)) in Ik |- * by lia.
    cbn -[bit Z.testbit Z.ldiff]. rewrite bit_clear, Ik, (proj2 (Z.eqb_neq _ _)) by lia. done.
  - rewrite C. unfold line_imr, side, level_of. by rewrite (proj2 (Z.ltb_ge k 8)) by lia.
  - rewrite C. unfold line_isr, side, level_of. by rewrite (proj2 (Z.ltb_ge k 8)) by lia.
  - intros p n Hn E. apply pending_range in E as (_ & _ & R); [|by apply W'].
    unfold requested, req in R. rewrite (proj2 (Z.ltb_ge n 8)) in R by lia. rewrite C in R. cbn -[bit Z.testbit Z.ldiff] in R.
    rewrite bit_clear, Z.eqb_refl, andb_false_r in R by done. cbn [andb] in R. by rewrite andb_false_r in R.
Qed.

(** ** Witnesses *)

Definition outb (port val : Z) : bool * Op := (false, PicIo port false 1 val).

(** Linux has taken over and programmed both chips: vectors 0x30 and 0x38. *)
Definition demo_init : list (bool * Op) :=
  [(false, NoteLinux);
   outb 0x20 0x11; outb 0x21 0x30; outb 0x21 4; outb 0x21 1; outb 0x21 0;
   outb 0xA0 0x11; outb 0xA1 0x38; outb 0xA1 2; outb 0xA1 1; outb 0xA1 0].

Definition demo (ops : list (bool * Op)) : Irq := (run boot (demo_init ++ ops)).1.

Lemma demo_wf ops : Forall (λ o, op_ok o.2) ops → irq_wf (demo ops).
Proof. intros O. apply run_wf; [apply boot_wf|]. apply Forall_app. split; [by repeat constructor|done]. Qed.

Definition two_lines : list (bool * Op) := [(false, RaiseGsi 4); (false, RaiseGsi 14)].

Lemma pic_take_exact_witness :
  pic_peek (prefs (demo two_lines)) (chip (demo two_lines)) = Some 0x3E ∧ (pic_take (demo two_lines) 0 0).2 = Some 0x3E ∧
  line_isr (chip (specific_eoi (pic_take (demo two_lines) 0 0).1 14)) 14 = false.
Proof.
  assert (chip_wf (chip (demo two_lines))) as W by (apply wf_chip, demo_wf; by repeat constructor).
  pose proof (pic_take_exact (demo two_lines) 0 0 W) as H.
  assert (find (requested (chip (demo two_lines))) (order (prefs (demo two_lines)) (chip (demo two_lines))) = Some 14) as E by reflexivity.
  rewrite E in H. destruct (pic_take (demo two_lines) 0 0) as [s' v]. destruct H as (V & P & _ & _ & R).
  split_and!; [by rewrite P, V|exact V|]. by rewrite R.
Defined.

Lemma irq_typed_witness : irq_wf (demo two_lines) ∧ 16 ≤ 0x3E < 256.
Proof.
  destruct (irq_typed (demo_init ++ two_lines)) as [W V]; [by repeat constructor|]. split; [exact W|].
  apply (V false (TakePic 0 0) (exec false (run boot (demo_init ++ two_lines)).1 (TakePic 0 0)).1 0x3E); vm_compute; [reflexivity|discriminate..].
Defined.

(** Line 11 stays high while the timer waits: taken once, then the timer. *)
Definition storm : list (bool * Op) :=
  [(false, PreferHold true 1); (false, RaiseGsi 11); (false, RaisePit);
   (false, TakePic 0 5); outb 0xA0 0x63; outb 0x20 0x62; (false, TakePic 0 6)].

Lemma pit_not_starved_witness :
  ack_log (demo []) storm = [mkAck 11 true false; mkAck 0 true false] ∧ (count11 [mkAck 11 true false] ≤ 1)%nat.
Proof.
  assert (ack_log (demo []) storm = [] ++ [mkAck 11 true false] ++ [mkAck 0 true false]) as E by (vm_compute; reflexivity).
  split; [exact E|].
  destruct (pit_not_starved (demo []) storm [] [mkAck 11 true false] [mkAck 0 true false]) as [_ H];
    [by apply demo_wf|by repeat constructor|exact E|by repeat constructor|]. apply H. by repeat constructor.
Defined.

(** Pin 17, level triggered, vector 0x51, its line high. *)
Definition pin17 : list (bool * Op) := [(false, IoapicWrite 0 0x32); (false, IoapicWrite 0x10 0x8051); (false, RaiseGsi 17)].

Definition takes : list (bool * Op) := [(false, TakeIoapic); (false, TakeIoapic); (false, Eoi 0x51); (false, TakeIoapic)].

Lemma ioapic_deliveries_witness :
  deliveries (demo pin17) 17 takes = 2%nat ∧ (deliveries (demo pin17) 17 takes ≤ 1 + 1)%nat.
Proof.
  split; [vm_compute; reflexivity|].
  destruct (ioapic_deliveries (demo pin17) 17 takes) as [H _]; [apply demo_wf; by repeat constructor|by repeat constructor|done|].
  exact H.
Defined.

(** Line 14 raised while masked, line 11 served and lowered meanwhile. *)
Definition masked14 : list (bool * Op) := [outb 0xA1 0x40; (false, RaiseGsi 14); (false, RaiseGsi 11)].

Lemma masked_cascade_lost_witness :
  pic_pending_irq (mkPrefs false false false 0) (chip (pic_io (lower_gsi (demo masked14) 11) 0xA1 false 1 0).1) ≠ Some 14 ∧
  pic_pending_irq (mkPrefs true true true 0) (chip (pic_io (lower_gsi (demo masked14) 11) 0xA1 false 1 0).1) ≠ Some 14.
Proof.
  split; apply (masked_cascade_lost (demo masked14) 11 14 0); try done; (try by apply demo_wf; repeat constructor);
  intros n Hn N; (assert (n = 8 ∨ n = 9 ∨ n = 10 ∨ n = 12 ∨ n = 13 ∨ n = 14 ∨ n = 15) as D by lia);
  by destruct D as [-> | [-> | [-> | [-> | [-> | [-> | ->]]]]]].
Defined.

End IrqChip.
