(* ===== verification/IrqInject.v ===== *)
(** * Interrupt injection at VM entry

    [try_inject_guest_irq] ([vmx/guest_uefi.rs]): what the resume path of the
    guest-UEFI monitor does with the 8259 pair, the IOAPIC and the virtual local APIC
    to decide which vector, if any, the next VM entry delivers. The VMCS fields it
    reads and writes are a record; reads and writes of the control structure succeed.
    What the device models raise while they are polled is an argument, a list of
    operations of the chips; log lines and statistics are left out. *)

From S2P Require Import Prelude Firewall Lapic IrqChip.

Module Inject.

Import Pit.

(** ** State and inputs *)

Record Vmcs := mkVmcs {
  GUEST_RFLAGS : Z;
  GUEST_INTERRUPTIBILITY_STATE : Z;
  GUEST_ACTIVITY_STATE : Z;
  VM_ENTRY_INTERRUPTION_INFO : Z;
  window : bool;
}.

Record Inj := mkInj {
  irq : IrqChip.Irq;
  lapic : Lapic.Lapic;
  vmcs : Vmcs;
  LINUX_EXC_INJECT : bool;
  REINJECT_INFO : Z;
  FIRMWARE_PIT_ONESHOT : bool;
}.

(** What the handler asks other parts of the monitor, and what they do to the lines. *)
Record Env := mkEnv {
  iso : bool;
  linux : bool;
  pf_cr2 : Z;
  pci_ide : bool;
  ataio : Z;
  polls : list (bool * IrqChip.Op);
  hz : Z;
  tsc : Z;
}.

Inductive Skip := SkipExc | SkipUnarmed | SkipIdle | SkipWindow | SkipNone | SkipPit | SkipPrep.

Inductive Outcome :=
| Skipped (why : Skip)
| Reinjected (info : Z)
| Injected (vec : Z).

Definition with_irq (s : Inj) (x : IrqChip.Irq) : Inj :=
  mkInj x (lapic s) (vmcs s) (LINUX_EXC_INJECT s) (REINJECT_INFO s) (FIRMWARE_PIT_ONESHOT s).
Definition with_lapic (s : Inj) (x : Lapic.Lapic) : Inj :=
  mkInj (irq s) x (vmcs s) (LINUX_EXC_INJECT s) (REINJECT_INFO s) (FIRMWARE_PIT_ONESHOT s).
Definition with_vmcs (s : Inj) (x : Vmcs) : Inj :=
  mkInj (irq s) (lapic s) x (LINUX_EXC_INJECT s) (REINJECT_INFO s) (FIRMWARE_PIT_ONESHOT s).
Definition with_exc (s : Inj) (b : bool) : Inj :=
  mkInj (irq s) (lapic s) (vmcs s) b (REINJECT_INFO s) (FIRMWARE_PIT_ONESHOT s).
Definition with_reinject (s : Inj) (x : Z) : Inj :=
  mkInj (irq s) (lapic s) (vmcs s) (LINUX_EXC_INJECT s) x (FIRMWARE_PIT_ONESHOT s).
Definition with_oneshot (s : Inj) (b : bool) : Inj :=
  mkInj (irq s) (lapic s) (vmcs s) (LINUX_EXC_INJECT s) (REINJECT_INFO s) b.

Definition set_rflags (s : Inj) (x : Z) : Inj :=
  let v := vmcs s in
  with_vmcs s (mkVmcs x (GUEST_INTERRUPTIBILITY_STATE v) (GUEST_ACTIVITY_STATE v) (VM_ENTRY_INTERRUPTION_INFO v) (window v)).
Definition set_interruptibility (s : Inj) (x : Z) : Inj :=
  let v := vmcs s in
  with_vmcs s (mkVmcs (GUEST_RFLAGS v) x (GUEST_ACTIVITY_STATE v) (VM_ENTRY_INTERRUPTION_INFO v) (window v)).
Definition set_activity (s : Inj) (x : Z) : Inj :=
  let v := vmcs s in
  with_vmcs s (mkVmcs (GUEST_RFLAGS v) (GUEST_INTERRUPTIBILITY_STATE v) x (VM_ENTRY_INTERRUPTION_INFO v) (window v)).
Definition set_entry_info (s : Inj) (x : Z) : Inj :=
  let v := vmcs s in
  with_vmcs s (mkVmcs (GUEST_RFLAGS v) (GUEST_INTERRUPTIBILITY_STATE v) (GUEST_ACTIVITY_STATE v) x (window v)).

Definition set_guest_uefi_interrupt_window (s : Inj) (on : bool) : Inj :=
  let v := vmcs s in
  with_vmcs s (mkVmcs (GUEST_RFLAGS v) (GUEST_INTERRUPTIBILITY_STATE v) (GUEST_ACTIVITY_STATE v)
                 (VM_ENTRY_INTERRUPTION_INFO v) on).

(** ** The predicates *)

Definition guest_uefi_linux_exc_blocks_irq (pending_cr2 : Z) (inject : bool) : bool := negb (pending_cr2 =? 0) || inject.

Definition guest_uefi_idt_vectoring_reinject (idtv : Z) : option Z :=
  if Z.land idtv (Z.shiftl 1 31) =? 0 then None
  else if negb (Z.land (Z.shiftr idtv 8) 0x7 =? 0) then None
  else Some (Z.lor (Z.shiftl 1 31) (Z.land idtv 0xFF)).

Definition guest_uefi_firmware_virtual_wire_pic (linux pci_ide : bool) (ataio : Z) : bool :=
  negb linux && pci_ide && (ataio =? 0).

Definition guest_uefi_firmware_hlt_force_if (linux pci_ide : bool) (ataio rflags : Z) : Z :=
  if guest_uefi_firmware_virtual_wire_pic linux pci_ide ataio then Z.lor rflags (Z.shiftl 1 9) else rflags.

Definition guest_uefi_firmware_arm_ata_gsi14 (linux : bool) : bool := negb linux.

Definition guest_uefi_linux_pic_before_lapic (pic_ready gsi2_armed : bool) : bool := pic_ready && negb gsi2_armed.

Definition guest_uefi_pic_before_lapic (s : IrqChip.Irq) (pic_ready gsi2_armed linux : bool) : bool :=
  if linux then guest_uefi_linux_pic_before_lapic pic_ready gsi2_armed
  else if IrqChip.FIRMWARE_WIRE s && gsi2_armed then false
  else pic_ready.

Definition guest_uefi_firmware_hlt_ignores_tpr (linux pci_ide : bool) (ataio : Z) : bool :=
  negb linux && pci_ide && (ataio =? 0).

Definition guest_uefi_firmware_prefer_ata_irr (linux : bool) (ataio : Z) : bool := negb linux.
Definition guest_uefi_firmware_ata_over_pic (linux ata_ready : bool) : bool := negb linux && ata_ready.
Definition guest_uefi_firmware_pic_ata (linux pic_ata : bool) : bool := negb linux && pic_ata.
Definition guest_uefi_linux_timer_before_virtio_pic (linux timer_pending : bool) : bool := linux && timer_pending.
Definition guest_uefi_firmware_take_ioapic_ata (linux : bool) : bool := negb linux.
Definition guest_uefi_firmware_ata_irr_only (linux : bool) : bool := negb linux.
Definition guest_uefi_firmware_hlt_skip_without_inject (linux : bool) : bool := negb linux.

Definition guest_uefi_firmware_force_if_for_inject (linux : bool) (rflags : Z) : Z :=
  if negb linux then Z.lor rflags (Z.shiftl 1 9) else rflags.

Definition guest_uefi_firmware_skip_pit_inject_oneshot (iso : bool) (s : IrqChip.Irq) (linux : bool) (vec ataio : Z)
    (pit_oneshot : bool) : bool :=
  if linux || negb (IrqChip.firmware_is_pit_vec iso s (low8 vec)) then false
  else if 0 <? ataio then guest_uefi_firmware_hlt_skip_without_inject linux
  else pit_oneshot.

(** The flag as it is left. *)
Definition guest_uefi_firmware_note_pit_injected (iso : bool) (s : IrqChip.Irq) (linux : bool) (vec ataio : Z)
    (pit_oneshot : bool) : bool :=
  if linux || negb (ataio =? 0) || negb (IrqChip.firmware_is_pit_vec iso s (low8 vec)) then pit_oneshot else true.

(** A VM exit in the middle of delivering an injected interrupt: [idtv] is the
    IDT-vectoring information of the exit. *)
Definition note_exit (s : Inj) (idtv : Z) : Inj :=
  if negb (Z.land idtv (Z.shiftl 1 31) =? 0) then
    match guest_uefi_idt_vectoring_reinject idtv with
    | Some info => with_reinject s info
    | None => s
    end
  else s.

(** ** The handler *)

(** Poll the devices; for a firmware guest, open the way for the timer wire and
    unmask the ATA line. *)
Definition setup (e : Env) (s : Inj) : Inj :=
  let s := with_irq s (IrqChip.run (irq s) (polls e)).1 in
  let s :=
    if guest_uefi_firmware_virtual_wire_pic (linux e) (pci_ide e) (ataio e) && IrqChip.FIRMWARE_WIRE (irq s) then
      set_interruptibility
        (set_rflags s (guest_uefi_firmware_hlt_force_if (linux e) (pci_ide e) (ataio e) (GUEST_RFLAGS (vmcs s)))) 0
    else s in
  if guest_uefi_firmware_arm_ata_gsi14 (linux e)
  then with_irq s (IrqChip.arm_firmware_ata_gsi14 (iso e) (irq s)) else s.

Definition timer_first (e : Env) (s : Inj) : bool :=
  guest_uefi_linux_timer_before_virtio_pic (linux e) (Lapic.timer_vector_pending (lapic s)).

Definition first_use_pic (e : Env) (s : Inj) : bool :=
  let ata_vec := IrqChip.firmware_ata_vec (iso e) (irq s) in
  let leftover_gsi2 := IrqChip.ioapic_pin_unmasked (iso e) (irq s) IrqChip.PIT_IOAPIC_GSI in
  let linux_gsi2 := IrqChip.LINUX_IOAPIC_GSI2 (irq s) in
  let gsi2_armed := if linux e then linux_gsi2 else leftover_gsi2 in
  let pic_ready := IrqChip.pic_has_deliverable (iso e) (irq s) in
  let use_pic := guest_uefi_pic_before_lapic (irq s) pic_ready gsi2_armed (linux e) in
  let ata_ready := IrqChip.ioapic_ata_ready (iso e) (irq s) || Lapic.has_irr_vec (lapic s) ata_vec in
  let use_pic :=
    if guest_uefi_firmware_ata_over_pic (linux e) ata_ready
       && negb (guest_uefi_firmware_pic_ata (linux e) (IrqChip.pic_ata_ready (iso e) (irq s)))
    then false else use_pic in
  if timer_first e s then false else use_pic.

(** An IOAPIC pin, accepted into the request register of the local APIC. *)
Definition accept (e : Env) (s : Inj) (use_pic : bool) : Inj :=
  if negb use_pic && negb (timer_first e s) then
    let '(i, v) :=
      if guest_uefi_firmware_prefer_ata_irr (linux e) (ataio e) && guest_uefi_firmware_take_ioapic_ata (linux e)
      then IrqChip.take_ioapic_ata_vector (iso e) (irq s)
      else IrqChip.take_ioapic_vector (iso e) (irq s) in
    match v with
    | Some vec => with_lapic (with_irq s i) (Lapic.latch_irr (lapic s) vec)
    | None => with_irq s i
    end
  else s.

Definition lapic_ready (e : Env) (s : Inj) (ata_vec : Z) : bool :=
  let prefer_ata := guest_uefi_firmware_prefer_ata_irr (linux e) (ataio e) in
  if prefer_ata && Lapic.has_irr_vec (lapic s) ata_vec then true
  else if prefer_ata && guest_uefi_firmware_ata_irr_only (linux e) then false
  else if guest_uefi_firmware_hlt_ignores_tpr (linux e) (pci_ide e) (ataio e) then Lapic.has_pending_irr (lapic s)
  else Lapic.has_deliverable_irr (lapic s).

Definition on_lapic (s : Inj) (r : Lapic.Lapic * option Z) : Inj * option Z := (with_lapic s r.1, r.2).

(** The request register of the local APIC, as far as the task priority counts. *)
Definition take_lapic (e : Env) (s : Inj) : Inj * option Z :=
  if guest_uefi_firmware_hlt_ignores_tpr (linux e) (pci_ide e) (ataio e)
  then on_lapic s (Lapic.take_highest_irr (lapic s))
  else on_lapic s (Lapic.take_deliverable_vector (lapic s)).

(** The source of the vector: the timer first, a self-IPI, the 8259 pair, the
    firmware's ATA vector, the highest request. *)
Definition take (e : Env) (s : Inj) (timer_first use_pic : bool) (ata_vec : Z) : Inj * option Z :=
  let '(s, self_vec) :=
    if linux e && negb timer_first then on_lapic s (Lapic.take_self_ipi (lapic s)) else (s, None) in
  if timer_first then on_lapic s (Lapic.take_timer_vector (lapic s))
  else
    match self_vec with
    | Some v => (s, Some v)
    | None =>
        if use_pic then
          let '(i, v) := IrqChip.take_pic_vector (iso e) (irq s) (hz e) (tsc e) in (with_irq s i, v)
        else if guest_uefi_firmware_prefer_ata_irr (linux e) (ataio e) then
          match on_lapic s (Lapic.take_irr_vec (lapic s) ata_vec true) with
          | (s, Some v) => (s, Some v)
          | (s, None) => if guest_uefi_firmware_ata_irr_only (linux e) then (s, None) else take_lapic e s
          end
        else take_lapic e s
    end.

(** The guest takes an interrupt: [RFLAGS.IF], no blocking by STI or MOV SS. *)
Definition interruptible (s : Inj) : bool :=
  negb ((Z.land (GUEST_RFLAGS (vmcs s)) (Z.shiftl 1 9) =? 0) || negb (Z.land (GUEST_INTERRUPTIBILITY_STATE (vmcs s)) 0x3 =? 0)).

Definition inject (e : Env) (s : Inj) (vec : Z) : Inj * Outcome :=
  if guest_uefi_firmware_skip_pit_inject_oneshot (iso e) (irq s) (linux e) vec (ataio e) (FIRMWARE_PIT_ONESHOT s)
  then (set_guest_uefi_interrupt_window s false, Skipped SkipPit)
  else
    match Firewall.prepare_external_inject vec with
    | Ok info =>
        let s := set_guest_uefi_interrupt_window s false in
        let s := set_activity (set_interruptibility (set_entry_info s info) 0) 0 in
        (with_oneshot s (guest_uefi_firmware_note_pit_injected (iso e) (irq s) (linux e) vec (ataio e) (FIRMWARE_PIT_ONESHOT s)),
         Injected vec)
    | Err _ => (set_guest_uefi_interrupt_window s true, Skipped SkipPrep)
    end.

(** From the choice of the source on. *)
Definition deliver_next (e : Env) (s : Inj) : Inj * Outcome :=
  let ata_vec := IrqChip.firmware_ata_vec (iso e) (irq s) in
  let pic_ready := IrqChip.pic_has_deliverable (iso e) (irq s) in
  let first := timer_first e s in
  let use_pic := first_use_pic e s in
  let s := accept e s use_pic in
  let idle := negb use_pic && negb (lapic_ready e s ata_vec) && negb first in
  if idle && negb pic_ready then (set_guest_uefi_interrupt_window s false, Skipped SkipIdle)
  else
    let use_pic := if idle then true else use_pic in
    let s :=
      if negb (linux e) then
        set_interruptibility
          (set_rflags s (guest_uefi_firmware_force_if_for_inject (linux e) (GUEST_RFLAGS (vmcs s)))) 0
      else s in
    if negb (interruptible s) then (set_guest_uefi_interrupt_window s true, Skipped SkipWindow)
    else
      match take e s first use_pic ata_vec with
      | (s, None) => (set_guest_uefi_interrupt_window s false, Skipped SkipNone)
      | (s, Some vec) => inject e s vec
      end.

Definition try_inject_guest_irq (e : Env) (s : Inj) : Inj * Outcome :=
  let exc := LINUX_EXC_INJECT s in
  let s := with_exc s false in
  if guest_uefi_linux_exc_blocks_irq (pf_cr2 e) exc then (s, Skipped SkipExc)
  else
    let reinject := REINJECT_INFO s in
    let s := with_reinject s 0 in
    if negb (reinject =? 0) then
      let s := set_guest_uefi_interrupt_window s false in
      (set_activity (set_interruptibility (set_entry_info s reinject) 0) 0, Reinjected reinject)
    else if negb (iso e) then (s, Skipped SkipUnarmed)
    else deliver_next e (setup e s).

(** ** What an entry does *)

Definition same_regs (l l' : Lapic.Lapic) : Prop :=
  Lapic.APIC_IRR l' = Lapic.APIC_IRR l ∧ Lapic.APIC_ISR l' = Lapic.APIC_ISR l.

(** The chips before the vector is taken: as they were, or one ready pin of the IOAPIC
    moved into the request register. *)
Definition moved (s a : Inj) : Prop :=
  (irq a = irq s ∧ lapic a = lapic s) ∨
  ∃ pin vec, IrqChip.ioapic_pin_ready (IrqChip.chip (irq s)) pin = Some vec ∧
    irq a = IrqChip.on_chip (λ c, IrqChip.ioapic_accept c pin) (irq s) ∧
    lapic a = Lapic.latch_irr (lapic s) vec.

(** One vector is acknowledged, by one of the two: the 8259 pair or the local APIC. *)
Definition taken (e : Env) (a s' : Inj) (v : Z) : Prop :=
  (same_regs (lapic a) (lapic s') ∧ IrqChip.pic_take (irq a) (hz e) (tsc e) = (irq s', Some v)) ∨
  (irq s' = irq a ∧ Lapic.requested (lapic a) v = true ∧
   ∃ l, same_regs (lapic a) l ∧ lapic s' = Lapic.deliver l v).

Definition kept (s s' : Inj) : Prop := irq s' = irq s ∧ same_regs (lapic s) (lapic s').

Record inj_wf (s : Inj) : Prop := {
  wf_irq : IrqChip.irq_wf (irq s);
  wf_lapic : Lapic.lapic_wf (lapic s);
}.

(** A step of the local APIC that takes at most one request. *)
Definition takes (l : Lapic.Lapic) (r : Lapic.Lapic * option Z) : Prop :=
  match r.2 with
  | Some v => Lapic.requested l v = true ∧ ∃ l0, same_regs l l0 ∧ r.1 = Lapic.deliver l0 v
  | None => same_regs l r.1
  end.

Lemma take_irr_vector_takes l b : Lapic.lapic_wf l → takes l (Lapic.take_irr_vector l b).
Proof.
  intros W. unfold Lapic.take_irr_vector. pose proof (Lapic.highest_bit_spec _ (Lapic.wf_irr l W)) as H.
  destruct (Lapic.highest_bit (Lapic.APIC_IRR l)) as [v|]; [|by split]. destruct H as [H _].
  destruct (_ && _); [by split|]. split; [exact H|]. by exists l.
Qed.

Lemma take_irr_vec_takes l v b : Lapic.lapic_wf l → v < 256 → takes l (Lapic.take_irr_vec l v b).
Proof.
  intros W Hv. unfold Lapic.take_irr_vec. destruct (Z.ltb_spec v 16); [by split|].
  destruct (Lapic.bit_is_set (Lapic.APIC_IRR l) v) eqn:B; [|by split]. cbn [negb]. destruct (_ && _); [by split|].
  split; [|by exists l]. by rewrite Lapic.bit_is_set_vecs in B by (lia || by apply W).
Qed.

Lemma take_self_ipi_takes l : Lapic.lapic_wf l → takes l (Lapic.take_self_ipi l).
Proof.
  intros W. unfold Lapic.take_self_ipi. destruct (Lapic.highest_self_ipi l) as [v|] eqn:E; [|by split].
  pose proof (Lapic.self_ipi_range _ _ W E) as Hv. destruct (_ <=? _); [by split|].
  set (l1 := Lapic.set_selfm l _).
  assert (Lapic.lapic_wf l1) as W1 by (destruct W; split; cbn; auto; by apply Lapic.reg_wf_clear).
  exact (take_irr_vec_takes l1 v false W1 (proj2 Hv)).
Qed.

Lemma take_timer_takes l : Lapic.lapic_wf l → takes l (Lapic.take_timer_vector l).
Proof. intros W. apply take_irr_vec_takes; [done|]. unfold Lapic.lvt_timer_vector. apply (below_land 8); done. Qed.

Lemma ata_vec_lt e s : inj_wf s → IrqChip.firmware_ata_vec (iso e) (irq s) < 256.
Proof.
  intros W. unfold IrqChip.firmware_ata_vec. destruct (negb _); [done|].
  apply IrqChip.ata_vec_range, IrqChip.wf_chip, W.
Qed.

(** What [take] leaves alone. *)
Definition same_entry (s s' : Inj) : Prop := vmcs s' = vmcs s ∧ FIRMWARE_PIT_ONESHOT s' = FIRMWARE_PIT_ONESHOT s.

Definition take_ok (e : Env) (a : Inj) (r : Inj * option Z) : Prop :=
  same_entry a r.1 ∧ match r.2 with Some v => taken e a r.1 v | None => kept a r.1 end.

Lemma on_lapic_ok e a r : takes (lapic a) r → take_ok e a (on_lapic a r).
Proof. intros T. split; [done|]. unfold takes in T. cbn. destruct r.2 as [v|]; [by right|by split]. Qed.

Lemma take_lapic_ok e a : inj_wf a → take_ok e a (take_lapic e a).
Proof. intros W. unfold take_lapic. destruct (guest_uefi_firmware_hlt_ignores_tpr _ _ _); apply on_lapic_ok, take_irr_vector_takes, W. Qed.

Lemma pic_take_none s hz tsc : (IrqChip.pic_take s hz tsc).2 = None → IrqChip.pic_take s hz tsc = (s, None).
Proof. unfold IrqChip.pic_take. destruct (IrqChip.pic_pending_irq _ _); [|done]. by destruct (IrqChip.note_take _ _ _ _ _). Qed.

Lemma take_pic_ok e a : take_ok e a (let '(i, v) := IrqChip.take_pic_vector (iso e) (irq a) (hz e) (tsc e) in (with_irq a i, v)).
Proof.
  unfold IrqChip.take_pic_vector. destruct (negb _); [by split|].
  pose proof (pic_take_none (irq a) (hz e) (tsc e)) as N. destruct (IrqChip.pic_take (irq a) (hz e) (tsc e)) as [i [v|]] eqn:E.
  - split; [done|]. left. split; [done|exact E].
  - injection (N eq_refl) as ->. by split.
Qed.

(** A second attempt after an empty one. *)
Lemma take_ok_after e a s1 r : same_entry a s1 → kept a s1 → take_ok e s1 r → take_ok e a r.
Proof.
  intros [Ev Eo] [K1 [K2 K3]] [[Rv Ro] R]. split; [split; congruence|]. destruct r.2 as [v|].
  - destruct R as [[[S1 S2] P]|(I & Rq & l & [L1 L2] & D)].
    + left. split; [split; congruence|]. by rewrite <-K1.
    + right. split_and!; [congruence| |exists l; split; [split; congruence|done]]. unfold Lapic.requested in *. by rewrite <-K2.
  - destruct R as [I [S1 S2]]. split; [congruence|split; congruence].
Qed.

Lemma same_regs_wf l l' : same_regs l l' → Lapic.lapic_wf l → Lapic.reg_wf (Lapic.APIC_IRR l') ∧ Lapic.reg_wf (Lapic.APIC_ISR l').
Proof. intros [-> ->] W. split; apply W. Qed.

Lemma self_none_wf l l' : Lapic.lapic_wf l → Lapic.take_self_ipi l = (l', None) → Lapic.lapic_wf l'.
Proof.
  intros W. unfold Lapic.take_self_ipi. destruct (Lapic.highest_self_ipi l) as [v|] eqn:E; [|by intros [= <-]].
  pose proof (Lapic.self_ipi_range _ _ W E) as Hv. destruct (_ <=? _); [by intros [= <-]|].
  set (l1 := Lapic.set_selfm l _).
  assert (Lapic.lapic_wf l1) as W1 by (destruct W; split; cbn; auto; by apply Lapic.reg_wf_clear).
  unfold Lapic.take_irr_vec. destruct (v <? 16); [by intros [= <-]|]. destruct (negb _); [by intros [= <-]|].
  destruct (_ && _); [by intros [= <-]|done].
Qed.

Lemma take_spec e a first use_pic ata_vec : inj_wf a → ata_vec < 256 → take_ok e a (take e a first use_pic ata_vec).
Proof.
  intros W Ha. unfold take. set (r := if linux e && negb first then _ else _).
  assert (take_ok e a r) as [Er Rr].
  { unfold r. destruct (_ && _); [|by split]. apply on_lapic_ok, take_self_ipi_takes, W. }
  assert (r.2 = None → inj_wf r.1) as Wr.
  { unfold r. destruct (_ && _); [|done]. cbn. intros N. destruct W as [Wi Wl]. split; [done|].
    apply (self_none_wf (lapic a)); [done|]. by destruct (Lapic.take_self_ipi (lapic a)) as [l' []]; cbn in *; simplify_eq. }
  assert (first = true → r = (a, None)) as Rf by (intros ->; unfold r; by rewrite andb_false_r).
  destruct first; [rewrite Rf by done; apply on_lapic_ok, take_timer_takes, W|]. clear Rf. clearbody r.
  destruct r as [s1 [v|]]; cbn [fst snd] in *; [by split|]. specialize (Wr eq_refl). apply (take_ok_after e a s1); [done..|].
  destruct use_pic; [apply take_pic_ok|]. destruct (guest_uefi_firmware_prefer_ata_irr _ _); [|by apply take_lapic_ok].
  unfold on_lapic. pose proof (take_irr_vec_takes (lapic s1) ata_vec true (wf_lapic s1 Wr) Ha) as T.
  pose proof (on_lapic_ok e s1 _ T) as [E2 R2]. unfold on_lapic in *. cbn [fst snd] in *.
  destruct (Lapic.take_irr_vec (lapic s1) ata_vec true) as [l2 [v|]] eqn:D; cbn [fst snd] in *; [by split|].
  destruct (guest_uefi_firmware_ata_irr_only _); [by split|].
  apply (take_ok_after e s1 (with_lapic s1 l2)); [done|done|]. apply take_lapic_ok. split; [apply Wr|]. cbn.
  assert (l2 = lapic s1) as ->; [|apply Wr]. unfold Lapic.take_irr_vec in D. destruct (_ <? _); [by simplify_eq|].
  destruct (negb _); [by simplify_eq|]. by cbn [negb andb] in D.
Qed.

Lemma accept_moved e s u : inj_wf s → moved s (accept e s u) ∧ inj_wf (accept e s u) ∧ same_entry s (accept e s u) ∧
  (u = true → accept e s u = s).
Proof.
  intros W. unfold accept. destruct (negb u && _) eqn:U; [|by split_and!; [left|..]].
  assert (u = true → False) as NU by (by intros ->). clear U. set (r := if _ && _ then _ else _).
  assert (r = (irq s, None) ∨ ∃ pin vec, r = (IrqChip.on_chip (λ c, IrqChip.ioapic_accept c pin) (irq s), Some vec) ∧
    IrqChip.ioapic_pin_ready (IrqChip.chip (irq s)) pin = Some vec) as R.
  { unfold r. destruct (_ && _).
    - unfold IrqChip.take_ioapic_ata_vector. destruct (negb _); [by left|].
      destruct (IrqChip.ioapic_pin_ready _ _) as [vec|] eqn:E; [|by left]. right. by exists IrqChip.ATA_GSI, vec.
    - unfold IrqChip.take_ioapic_vector. destruct (negb _); [by left|].
      destruct (IrqChip.ioapic_peek_pin _ _) as [[pin vec]|] eqn:E; [|by left]. right. exists pin, vec.
      split; [done|]. by apply IrqChip.peek_pin_ready in E. }
  destruct R as [-> | (pin & vec & -> & R)].
  - destruct s. by split_and!; [left|..].
  - split_and!; try done.
    + right. by exists pin, vec.
    + destruct W as [Wi Wl]. split; [by apply IrqChip.accept_pin_wf|]. apply IrqChip.ready_vec_range in R as [R _].
      apply Lapic.latch_irr_wf; [done|lia].
Qed.

Lemma setup_wf e s : inj_wf s → Forall (λ o, IrqChip.op_ok o.2) (polls e) → inj_wf (setup e s) ∧ lapic (setup e s) = lapic s.
Proof.
  intros [Wi Wl] P. unfold setup. pose proof (IrqChip.run_wf (polls e) (irq s) Wi P) as Wr.
  destruct (_ && _), (guest_uefi_firmware_arm_ata_gsi14 (linux e)); cbn; (split; [split; [|done]|done]); try done; by apply IrqChip.arm_ata_wf.
Qed.

Lemma setup_linux e s : linux e = true → vmcs (setup e s) = vmcs s.
Proof. intros L. unfold setup. by rewrite L. Qed.

Lemma pack_info v : 0 ≤ v < 256 → Firewall.prepare_external_inject v = Ok (Firewall.pack_entry_intr_info v 0).
Proof. intros. unfold Firewall.prepare_external_inject, Firewall.validate_vector. by rewrite (proj2 (Z.ltb_ge _ _)) by lia. Qed.

Lemma taken_range e a s' v : inj_wf a → taken e a s' v → 0 ≤ v < 256.
Proof.
  intros W [[_ P]|(_ & R & _)].
  - destruct (IrqChip.pic_pending_irq (IrqChip.prefs (irq a)) (IrqChip.chip (irq a))) as [n|] eqn:E; cycle 1.
    { unfold IrqChip.pic_take in P. by rewrite E in P. }
    destruct (IrqChip.pic_take_pending _ (hz e) (tsc e) _ E) as [_ V]. rewrite P in V. cbn in V. injection V as ->.
    unfold IrqChip.pic_vector. destruct (_ <? _); apply (IrqChip.below_add8 _ _).
  - by eapply Lapic.vecs_range.
Qed.

(** The state the sources are chosen from. *)
Definition polled (e : Env) (s : Inj) : Inj := setup e (with_reinject (with_exc s false) 0).

Definition entry_info (s : Inj) : Z := VM_ENTRY_INTERRUPTION_INFO (vmcs s).

(** What the outcome of an entry says about the chips and the control structure. *)
Definition entry_ok (e : Env) (s s' : Inj) (o : Outcome) : Prop :=
  match o with
  | Skipped SkipExc => kept s s' ∧ REINJECT_INFO s' = REINJECT_INFO s
  | Skipped SkipUnarmed => kept s s'
  | Reinjected info => kept s s' ∧ info = REINJECT_INFO s ∧ entry_info s' = info ∧ REINJECT_INFO s' = 0
  | Skipped SkipIdle | Skipped SkipNone => ∃ a, moved (polled e s) a ∧ kept a s'
  | Skipped SkipWindow => window (vmcs s') = true ∧ ∃ a, moved (polled e s) a ∧ kept a s'
  | Skipped SkipPit =>
      linux e = false ∧ ∃ a v, moved (polled e s) a ∧ taken e a s' v ∧ IrqChip.firmware_is_pit_vec (iso e) (irq s') v = true
  | Skipped SkipPrep => False
  | Injected v =>
      entry_info s' = Firewall.pack_entry_intr_info v 0 ∧ window (vmcs s') = false ∧ (linux e = true → interruptible s = true) ∧
      ∃ a, moved (polled e s) a ∧ taken e a s' v
  end.

Lemma low8_byte v : 0 ≤ v < 256 → low8 v = v.
Proof. intros. unfold low8. rewrite (Z.land_ones _ 8) by done. by apply Z.mod_small. Qed.

Lemma moved_irq s a b : moved s a → irq b = irq a → lapic b = lapic a → moved s b.
Proof. intros M I L. unfold moved. by rewrite I, L. Qed.

Lemma taken_from e a b s' v : irq b = irq a → lapic b = lapic a → taken e b s' v → taken e a s' v.
Proof. intros I L. unfold taken. by rewrite I, L. Qed.

Lemma interruptible_same s s' : vmcs s' = vmcs s → interruptible s' = interruptible s.
Proof. intros E. unfold interruptible. by rewrite E. Qed.

(** The tail of the handler, from the polled state [p] of [s]. *)
Lemma deliver_next_ok e s : inj_wf (polled e s) → (linux e = true → vmcs (polled e s) = vmcs s) →
  let '(s', o) := deliver_next e (polled e s) in entry_ok e s s' o.
Proof.
  intros W Lv. set (p := polled e s) in *. unfold deliver_next. set (u := first_use_pic e p).
  pose proof (accept_moved e p u W) as (M & Wa & Sa & _). set (a := accept e p u) in *. clearbody a.
  set (idle := _ && negb (timer_first e p)). destruct (idle && _).
  { cbn. exists a. by split. }
  set (b := if negb (linux e) then _ else a).
  assert (irq b = irq a ∧ lapic b = lapic a ∧ (linux e = true → b = a)) as (Ib & Lb & Bl).
  { unfold b. by destruct (linux e). }
  assert (inj_wf b) as Wb by (destruct Wa; by split; rewrite ?Ib, ?Lb). clearbody b.
  destruct (interruptible b) eqn:Hi; cbn [negb]; cycle 1.
  { cbn. split; [done|]. exists b. split; [by eapply moved_irq|done]. }
  pose proof (take_spec e b (timer_first e p) (if idle then true else u) _ Wb (ata_vec_lt e p W)) as [[Ev Eo] T].
  destruct (take e b _ _ _) as [s1 [v|]]; cbn [fst snd] in *; cycle 1.
  { cbn. exists b. split; [by eapply moved_irq|done]. }
  pose proof (taken_range e b s1 v Wb T) as Hv. apply (taken_from e a b s1 v Ib Lb) in T. unfold inject.
  destruct (guest_uefi_firmware_skip_pit_inject_oneshot _ _ _ _ _ _) eqn:Sk.
  { unfold guest_uefi_firmware_skip_pit_inject_oneshot in Sk. destruct (linux e) eqn:Le; [done|]. cbn [orb] in Sk.
    rewrite low8_byte in Sk by done. cbn. split; [done|]. exists a, v. split_and!; [done|exact T|].
    by destruct (IrqChip.firmware_is_pit_vec _ _ v). }
  rewrite pack_info by done. cbn. split_and!; try done.
  - intros Le. rewrite (Bl Le) in Hi. rewrite <-Hi. symmetry. apply interruptible_same. destruct Sa as [-> _]. by apply Lv.
  - exists a. by split.
Qed.

Lemma reinject_info v : 0 ≤ v < 256 →
  guest_uefi_idt_vectoring_reinject (Firewall.pack_entry_intr_info v 0) = Some (Firewall.pack_entry_intr_info v 0) ∧
  Z.land (Firewall.pack_entry_intr_info v 0) (Z.shiftl 1 31) ≠ 0 ∧ Firewall.pack_entry_intr_info v 0 ≠ 0.
Proof.
  intros Hv. pose proof (byte_forall (λ v, let i := Firewall.pack_entry_intr_info v 0 in
    match guest_uefi_idt_vectoring_reinject i with Some j => j =? i | None => false end && negb (Z.land i (Z.shiftl 1 31) =? 0) && negb (i =? 0))
    ltac:(vm_compute; reflexivity) v Hv) as H. cbv beta zeta in H.
  rewrite !andb_true_iff, !negb_true_iff, !Z.eqb_neq in H. destruct H as [[H1 H2] H3]. split_and!; [|done..].
  destruct (guest_uefi_idt_vectoring_reinject _) as [j|]; [|done]. by apply Z.eqb_eq in H1 as ->.
Qed.

Lemma pic_ready_takes e s : IrqChip.pic_has_deliverable (iso e) s = true →
  ∃ v i, IrqChip.take_pic_vector (iso e) s (hz e) (tsc e) = (i, Some v).
Proof.
  unfold IrqChip.pic_has_deliverable, IrqChip.take_pic_vector, IrqChip.pic_peek, IrqChip.pic_take. destruct (negb _); [done|].
  destruct (IrqChip.pic_pending_irq _ _) as [n|]; [|done]. intros _. destruct (IrqChip.note_take _ _ _ _ _). eauto.
Qed.

Lemma inject_linux e s v : linux e = true → 0 ≤ v < 256 → (inject e s v).2 = Injected v.
Proof.
  intros L Hv. unfold inject, guest_uefi_firmware_skip_pit_inject_oneshot. rewrite L. cbn [orb]. by rewrite pack_info.
Qed.

(** An interruptible Linux guest with a line of the 8259 pair waiting, no timer
    vector pending and the timer pin not programmed, gets an interrupt. *)
Lemma deliver_next_linux e p : inj_wf p → linux e = true → interruptible p = true →
  IrqChip.pic_has_deliverable (iso e) (irq p) = true → IrqChip.LINUX_IOAPIC_GSI2 (irq p) = false →
  Lapic.timer_vector_pending (lapic p) = false → ∃ v, (deliver_next e p).2 = Injected v.
Proof.
  intros W L Hi R G T. unfold deliver_next.
  assert (timer_first e p = false) as F by (unfold timer_first, guest_uefi_linux_timer_before_virtio_pic; by rewrite L, T).
  assert (first_use_pic e p = true) as U.
  { unfold first_use_pic, guest_uefi_pic_before_lapic, guest_uefi_linux_pic_before_lapic, guest_uefi_firmware_ata_over_pic.
    by rewrite F, L, R, G. }
  destruct (accept_moved e p true W) as (_ & _ & _ & A). rewrite F, U, A, L by done. cbn [negb andb]. rewrite Hi. cbn [negb].
  pose proof (take_spec e p false true _ W (ata_vec_lt e p W)) as [_ K].
  destruct (take e p false true _) as [s1 [v|]] eqn:E; cbn [fst snd] in K.
  { exists v. apply inject_linux; [done|]. by eapply taken_range. }
  exfalso. unfold take in E. rewrite L in E. cbn [negb andb] in E. unfold on_lapic at 1 in E.
  destruct (Lapic.take_self_ipi (lapic p)).2; [done|]. cbn [with_lapic irq] in E.
  destruct (pic_ready_takes e (irq p) R) as (v & i & P). by rewrite P in E.
Qed.

(** C23: What a VM entry does with the interrupt controllers. On every path at most one
    vector is acknowledged, by the 8259 pair or by the local APIC, and it is the one
    the entry delivers: none is taken and dropped, but for the firmware guest's
    surplus timer ticks, which are dropped on purpose. Every other path leaves the
    8259 pair and the in-service register alone, except that one ready IOAPIC pin may
    have moved into the request register. A Linux guest gets an interrupt only with
    its interrupt flag set and no blocking; when it could not be interrupted the
    window exit is requested; when it can, a line of the 8259 pair waits and nothing
    stands in the way (no fault or unfinished delivery to be served first, no local
    timer vector pending, the timer pin of the IOAPIC not in use), it does get one. A delivery that the next exit reports as unfinished is delivered again, the
    same vector, before anything new. *)
Theorem try_inject_exact (e : Env) (s : Inj) : inj_wf s → Forall (λ o, IrqChip.op_ok o.2) (polls e) →
  let '(s', o) := try_inject_guest_irq e s in
  entry_ok e s s' o ∧
  (linux e = true → iso e = true → pf_cr2 e = 0 → LINUX_EXC_INJECT s = false → REINJECT_INFO s = 0 →
   interruptible s = true → IrqChip.pic_has_deliverable true (irq (polled e s)) = true →
   IrqChip.LINUX_IOAPIC_GSI2 (irq (polled e s)) = false → Lapic.timer_vector_pending (lapic s) = false →
   ∃ v, o = Injected v) ∧
  (∀ v e2, o = Injected v → pf_cr2 e2 = 0 → LINUX_EXC_INJECT s' = false →
   (try_inject_guest_irq e2 (note_exit s' (entry_info s'))).2 = Reinjected (Firewall.pack_entry_intr_info v 0)).
Proof.
  intros W P. destruct (try_inject_guest_irq e s) as [s' o] eqn:E.
  assert (inj_wf (polled e s) ∧ lapic (polled e s) = lapic s) as [Wp Lp].
  { destruct (setup_wf e (with_reinject (with_exc s false) 0)) as [A B]; [by destruct W; split|done|]. by split. }
  assert (linux e = true → vmcs (polled e s) = vmcs s) as Lv by (intros; unfold polled; by rewrite setup_linux).
  pose proof (deliver_next_ok e s Wp Lv) as D.
  assert (entry_ok e s s' o) as Ok.
  { unfold try_inject_guest_irq in E. destruct (guest_uefi_linux_exc_blocks_irq _ _); [by injection E as <- <-|].
    destruct (Z.eqb_spec (REINJECT_INFO (with_exc s false)) 0); cbn [negb] in E; [|by injection E as <- <-].
    destruct (iso e); cbn [negb] in E; [|by injection E as <- <-]. unfold polled in D. by rewrite E in D. }
  split_and!; [done|..].
  - intros L I C X R Hi Pr G T.
    assert (try_inject_guest_irq e s = deliver_next e (polled e s)) as E'.
    { unfold try_inject_guest_irq, guest_uefi_linux_exc_blocks_irq. rewrite C, X. cbn [Z.eqb negb orb with_exc REINJECT_INFO].
      rewrite R, I. done. }
    rewrite E in E'. destruct (deliver_next_linux e (polled e s)) as [v V]; try done.
    + by rewrite (interruptible_same s) by (by apply Lv).
    + by rewrite I.
    + by rewrite Lp.
    + exists v. by rewrite <-E' in V.
  - intros v e2 -> C2 X. destruct Ok as (I & _ & _ & a & M & T). 
    assert (0 ≤ v < 256) as Hv.
    { eapply (taken_range e a); [|exact T]. destruct M as [[Mi Ml]|(pin & vec & R & Mi & Ml)]; split; rewrite ?Mi, ?Ml; try apply Wp.
      - apply IrqChip.accept_pin_wf, Wp.
      - apply IrqChip.ready_vec_range in R as [R _]. apply Lapic.latch_irr_wf; [apply Wp|lia]. }
    destruct (reinject_info v Hv) as (R1 & R2 & R3). unfold note_exit. rewrite I, R1, (proj2 (Z.eqb_neq _ _)) by done. cbn [negb].
    unfold try_inject_guest_irq, guest_uefi_linux_exc_blocks_irq. cbn [with_reinject LINUX_EXC_INJECT with_exc REINJECT_INFO].
    rewrite C2, X. cbn [Z.eqb negb orb]. by rewrite (proj2 (Z.eqb_neq _ _)).
Qed.

(** ** Witness: a Linux guest, the 8259 pair programmed, a timer tick *)

Definition demo_inj : Inj := mkInj (IrqChip.demo []) Lapic.reset (mkVmcs 0x202 0 1 0 true) false 0 false.

Definition demo_env : Env := mkEnv true true 0 true 1 [(true, IrqChip.RaisePit)] 0 7.

Lemma try_inject_exact_witness :
  let s' := (try_inject_guest_irq demo_env demo_inj).1 in
  (try_inject_guest_irq demo_env demo_inj).2 = Injected 0x30 ∧
  (try_inject_guest_irq demo_env (note_exit s' (entry_info s'))).2 = Reinjected 0x80000030.
Proof.
  cbv zeta. pose proof (try_inject_exact demo_env demo_inj) as H.
  assert ((try_inject_guest_irq demo_env demo_inj).2 = Injected 0x30) as O by (vm_compute; reflexivity).
  assert (LINUX_EXC_INJECT (try_inject_guest_irq demo_env demo_inj).1 = false) as X by (vm_compute; reflexivity).
  destruct (try_inject_guest_irq demo_env demo_inj) as [s' o].
  destruct H as (_ & _ & R); [split; [by apply IrqChip.demo_wf|apply Lapic.reset_wf]|by repeat constructor|].
  split; [exact O|]. exact (R 0x30 demo_env O eq_refl X).
Defined.

End Inject.
