(* ===== verification/GuestRam.v ===== *)
(** * Guest memory as the devices reach it

    The emulated devices work on guest memory through host addresses.
    [guest_uefi_gpa_to_hpa] ([vmx/guest_uefi.rs]) turns a guest address into a host
    address: the low 32 MiB are one slab, the firmware image is another, and the rest
    of the reported memory is backed by 2 MiB pages that are claimed from a pool when
    they are first used. Host memory is a function from addresses to bytes. Whether
    the page-table leaf of a new page can be written is an argument; the counter of
    lazy maps and the log lines are left out. *)

From S2P Require Import Prelude Bytes FrameAllocator EptHw.

Module GuestRam.

(** ** Host memory *)

Definition mem : Type := Z → Z.

Definition peek (m : mem) (a n : Z) : list Z := m <$> seqZ a n.

Definition poke (m : mem) (a : Z) (bs : list Z) : mem :=
  λ x, if (a <=? x) && (x <? a + blen bs) then default 0 (bs !! Z.to_nat (x - a)) else m x.

Definition read16 (m : mem) (a : Z) : Z := from_le (peek m a 2).
Definition read32 (m : mem) (a : Z) : Z := from_le (peek m a 4).
Definition read64 (m : mem) (a : Z) : Z := from_le (peek m a 8).

(** ** The regions *)

Definition GUEST_UEFI_REPORT_RAM_SLOTS : Z := 32.
Definition GUEST_UEFI_REPORT_RAM_PRODUCT_EXTRA : Z := 976.
Definition REPORT_RAM_ARRAY : Z := GUEST_UEFI_REPORT_RAM_SLOTS + GUEST_UEFI_REPORT_RAM_PRODUCT_EXTRA.
Definition GUEST_UEFI_REPORT_RAM_PAGE : Z := 0x200000.
Definition GUEST_UEFI_FLASH_BASE : Z := 0xFFC00000.
Definition GUEST_UEFI_FLASH_WINDOW : Z := 4 * 1024 * 1024.
Definition PLATFORM_RAM_BYTES : Z := 32 * 1024 * 1024.
Definition PLATFORM_REPORT_RAM_BYTES : Z := 0x80000000.

(** The statics. [REPORT_RAM] is the table of slots, [(REPORT_RAM_GPA[i],
    REPORT_RAM_HPA[i])]; a slot whose first part is [U64_MAX] is not claimed. *)
Record Slots := mkSlots {
  RAM_HPA : Z;
  FLASH_HPA : Z;
  FLASH_LEN : Z;
  REPORT_RAM : list (Z * Z);
}.

Definition with_report (h : Slots) (t : list (Z * Z)) : Slots := mkSlots (RAM_HPA h) (FLASH_HPA h) (FLASH_LEN h) t.

(** ** Filling and releasing the pool *)

Definition report_ram_slots_alloc (product : bool) : Z :=
  if product then REPORT_RAM_ARRAY else GUEST_UEFI_REPORT_RAM_SLOTS.

Definition reset_report : list (Z * Z) := replicate (Z.to_nat REPORT_RAM_ARRAY) (U64_MAX, 0).

(** [frames] are the pages the frame allocator and the leftover pool hand out, in
    order, until both are empty. *)
Definition seed_report (product : bool) (frames : list Z) (t : list (Z * Z)) : list (Z * Z) :=
  let got := take (Z.to_nat (report_ram_slots_alloc product)) frames in
  ((λ h, (U64_MAX, h)) <$> got) ++ drop (length got) t.

Definition guest_uefi_report_ram_premap_gpa (slot n : Z) : option Z :=
  if n <=? slot then None
  else
    let gpa := sat_add64 PLATFORM_RAM_BYTES (sat_mul64 slot GUEST_UEFI_REPORT_RAM_PAGE) in
    if gpa <? PLATFORM_REPORT_RAM_BYTES then Some gpa else None.

(** The pre-map loop over the [n] filled slots from slot [i] on; [leaf] is whether the
    page-table leaf of a guest page can be written. *)
Fixpoint premap_report (leaf : Z → bool) (i n : Z) (t : list (Z * Z)) : list (Z * Z) :=
  match t with
  | [] => []
  | (g, h) :: t' =>
      match guest_uefi_report_ram_premap_gpa i n with
      | None => t
      | Some gpa =>
          if h =? 0 then t
          else (if leaf gpa then gpa else U64_MAX, h) :: premap_report leaf (i + 1) n t'
      end
  end.

(** What the firmware may advertise: the pages mapped in order from slot 0. *)
Fixpoint premapped_from (bytes i n : Z) (t : list (Z * Z)) : Z :=
  match t with
  | [] => bytes
  | (g, _) :: t' =>
      match guest_uefi_report_ram_premap_gpa i n with
      | None => bytes
      | Some want =>
          if negb (g =? want) then bytes
          else premapped_from (sat_add64 bytes GUEST_UEFI_REPORT_RAM_PAGE) (i + 1) n t'
      end
  end.

Definition guest_uefi_report_ram_premapped_contiguous_bytes (t : list (Z * Z)) (n : Z) : Z := premapped_from 0 0 n t.

(** [write_bytes(a, 0, n)] *)
Definition zero_fill (m : mem) (a n : Z) : mem := λ x, if (a <=? x) && (x <? a + n) then 0 else m x.

(** The 4 KiB frames of one page go back to the allocator; an error is ignored. *)
Definition free_page (a : Falloc.FrameAllocator) (hpa : Z) : Falloc.FrameAllocator :=
  foldl (λ a i, (Falloc.free_frame a (Falloc.from_phys (hpa ⊞ i * 4096))).1) a (seqZ 0 (GUEST_UEFI_REPORT_RAM_PAGE / 4096)).

(** Every page is zeroed and, on request, returned to the allocator that owns it; the
    table is emptied. Also returns the number of pages. *)
Fixpoint release_report_ram_for_e4 (return_to_e4 : bool) (m : mem) (a : Falloc.FrameAllocator) (t : list (Z * Z))
    : mem * Falloc.FrameAllocator * list (Z * Z) * Z :=
  match t with
  | [] => (m, a, [], 0)
  | (_, hpa) :: t' =>
      if hpa =? 0 then
        let '(m, a, t', n) := release_report_ram_for_e4 return_to_e4 m a t' in (m, a, (U64_MAX, 0) :: t', n)
      else
        let m := zero_fill m hpa GUEST_UEFI_REPORT_RAM_PAGE in
        let a := if return_to_e4 && Falloc.owns_phys_range a hpa GUEST_UEFI_REPORT_RAM_PAGE then free_page a hpa else a in
        let '(m, a, t', n) := release_report_ram_for_e4 return_to_e4 m a t' in
        (m, a, (U64_MAX, 0) :: t', n + 1)
  end.

(** ** Translation *)

Definition guest_uefi_report_ram_should_map (gpa : Z) : bool := (PLATFORM_RAM_BYTES <=? gpa) && (gpa <? PLATFORM_REPORT_RAM_BYTES).

Definition guest_uefi_report_ram_gpa_2m (gpa : Z) : Z := Z.land gpa (bnot64 (GUEST_UEFI_REPORT_RAM_PAGE - 1)).

Definition guest_uefi_report_ram_page_off (gpa : Z) : Z := Z.land gpa (GUEST_UEFI_REPORT_RAM_PAGE - 1).

Definition guest_uefi_flash_off (gpa : Z) : option Z :=
  if (GUEST_UEFI_FLASH_BASE <=? gpa) && (gpa <? GUEST_UEFI_FLASH_BASE + GUEST_UEFI_FLASH_WINDOW)
  then Some (gpa - GUEST_UEFI_FLASH_BASE) else None.

(** The scan for a key. *)
Fixpoint find_key (key : Z) (t : list (Z * Z)) : Z :=
  match t with
  | [] => 0
  | (g, h) :: t' => if g =? key then h else find_key key t'
  end.

Definition report_ram_hpa_lookup (t : list (Z * Z)) (gpa : Z) : Z := find_key (guest_uefi_report_ram_gpa_2m gpa) t.

(** The scan for a free slot, which takes it. *)
Fixpoint claim_slot (key : Z) (t : list (Z * Z)) : list (Z * Z) * Z :=
  match t with
  | [] => ([], 0)
  | (g, h) :: t' =>
      if (g =? U64_MAX) && negb (h =? 0) then ((key, h) :: t', h)
      else let '(t'', r) := claim_slot key t' in ((g, h) :: t'', r)
  end.

Definition report_ram_hpa_for (t : list (Z * Z)) (gpa : Z) : list (Z * Z) * Z :=
  let existing := report_ram_hpa_lookup t gpa in
  if negb (existing =? 0) then (t, existing) else claim_slot (guest_uefi_report_ram_gpa_2m gpa) t.

Definition ept_map_2m_report_ram (leaf : Z → bool) (t : list (Z * Z)) (gpa : Z) : list (Z * Z) * bool :=
  if negb (guest_uefi_report_ram_should_map gpa) then (t, false)
  else
    let g := guest_uefi_report_ram_gpa_2m gpa in
    let '(t, hpa) := report_ram_hpa_for t g in
    if hpa =? 0 then (t, false) else (t, leaf g).

Definition report_ram_hpa_lookup_or_map (leaf : Z → bool) (t : list (Z * Z)) (gpa : Z) : list (Z * Z) * Z :=
  let existing := report_ram_hpa_lookup t gpa in
  if negb (existing =? 0) then (t, existing)
  else
    let '(t, ok) := ept_map_2m_report_ram leaf t gpa in
    if (ok : bool) then
      let hpa := report_ram_hpa_lookup t gpa in
      (t, if negb (hpa =? 0) then hpa else 0)
    else (t, 0).

Definition guest_uefi_gpa_to_hpa (leaf : Z → bool) (s : Slots) (gpa : Z) : Slots * option Z :=
  if gpa <? Hw.GUEST_UEFI_LOW_RAM_BYTES then
    let hpa := RAM_HPA s in
    (s, if hpa =? 0 then None else Some (hpa ⊞ gpa))
  else
    match guest_uefi_flash_off gpa with
    | Some off =>
        let hpa := FLASH_HPA s in
        let len := FLASH_LEN s in
        (s, if (hpa =? 0) || (len <=? off) then None else Some (hpa ⊞ off))
    | None =>
        if guest_uefi_report_ram_should_map gpa then
          let '(t, base) := report_ram_hpa_lookup_or_map leaf (REPORT_RAM s) gpa in
          (with_report s t, if negb (base =? 0) then Some (base ⊞ guest_uefi_report_ram_page_off gpa) else None)
        else (s, None)
    end.

(** A run of translations. *)
Fixpoint translate_all (leaf : Z → bool) (s : Slots) (gs : list Z) : Slots * list (option Z) :=
  match gs with
  | [] => (s, [])
  | g :: gs =>
      let '(s, r) := guest_uefi_gpa_to_hpa leaf s g in
      let '(s, rs) := translate_all leaf s gs in
      (s, r :: rs)
  end.

(** ** Properties *)

Lemma blen_peek m a n : 0 ≤ n → blen (peek m a n) = n.
Proof. intros. unfold blen, peek. rewrite length_fmap, length_seqZ. lia. Qed.

Lemma peek_ext m1 m2 a n : (∀ x, a ≤ x < a + n → m1 x = m2 x) → peek m1 a n = peek m2 a n.
Proof. intros E. unfold peek. apply list_fmap_ext. intros i x Hx. apply lookup_seqZ in Hx as [-> Hi]. apply E. lia. Qed.

Lemma poke_other m a bs x : x < a ∨ a + blen bs ≤ x → poke m a bs x = m x.
Proof. intros D. unfold poke. destruct (Z.leb_spec a x), (Z.ltb_spec x (a + blen bs)); try done. lia. Qed.

Lemma poke_at m a bs k : 0 ≤ k < blen bs → poke m a bs (a + k) = default 0 (bs !! Z.to_nat k).
Proof.
  intros K. unfold poke. rewrite (proj2 (Z.leb_le _ _)), (proj2 (Z.ltb_lt _ _)) by lia. cbn [andb]. by rewrite Z.add_simpl_l.
Qed.

Lemma peek_poke_same m a bs : peek (poke m a bs) a (blen bs) = bs.
Proof.
  apply list_eq. intros i. unfold peek. rewrite list_lookup_fmap. destruct (decide (i < length bs)%nat) as [L|L].
  - rewrite lookup_seqZ_lt by (unfold blen; lia). cbn. rewrite poke_at by (unfold blen; lia). rewrite Nat2Z.id.
    by destruct (lookup_lt_is_Some_2 bs i L) as [b ->].
  - rewrite lookup_seqZ_ge by (unfold blen; lia). cbn. symmetry. apply lookup_ge_None. lia.
Qed.

Lemma peek_poke_other m a bs b n : b + n ≤ a ∨ a + blen bs ≤ b → peek (poke m a bs) b n = peek m b n.
Proof. intros D. apply peek_ext. intros x Hx. apply poke_other. lia. Qed.

Lemma from_le_bound l : Forall is_byte l → 0 ≤ from_le l < 256 ^ blen l.
Proof.
  induction 1 as [|b l B F IH]; [done|]. unfold blen in *. cbn [from_le length]. rewrite Nat2Z.inj_succ, Z.pow_succ_r by lia.
  unfold is_byte in B. lia.
Qed.

(** Two memories that agree on the bytes a guest owns. *)
Section Owned.
Context (owned : Z → Prop).

Definition agree (m1 m2 : mem) : Prop := ∀ x, owned x → m1 x = m2 x.

Lemma peek_agree m1 m2 a n : agree m1 m2 → (∀ k, 0 ≤ k < n → owned (a + k)) → peek m1 a n = peek m2 a n.
Proof.
  intros A O. unfold peek. apply list_fmap_ext. intros i x Hx. apply lookup_seqZ in Hx as [-> Hi]. apply A, O. lia.
Qed.

Lemma poke_agree m1 m2 a bs : agree m1 m2 → agree (poke m1 a bs) (poke m2 a bs).
Proof. intros A x Ox. unfold poke. destruct (_ && _); [done|by apply A]. Qed.

Lemma poke_outside m a bs x : (∀ k, 0 ≤ k < blen bs → owned (a + k)) → ¬ owned x → poke m a bs x = m x.
Proof.
  intros O Nx. unfold poke. destruct (Z.leb_spec a x), (Z.ltb_spec x (a + blen bs)); try done.
  destruct Nx. replace x with (a + (x - a)) by lia. apply O. lia.
Qed.

End Owned.

(** Memory holds bytes. *)
Definition bytes_in (m : mem) : Prop := ∀ x, is_byte (m x).

Lemma poke_bytes m a bs : bytes_in m → Forall is_byte bs → bytes_in (poke m a bs).
Proof.
  intros B F x. unfold poke. destruct (_ && _); [|by apply B]. destruct (bs !! Z.to_nat (x - a)) as [b|] eqn:L; [|done].
  by apply (Forall_lookup_1 _ _ _ _ F L).
Qed.

Lemma read16_ext m1 m2 a : m1 a = m2 a → m1 (a + 1) = m2 (a + 1) → read16 m1 a = read16 m2 a.
Proof.
  intros E1 E2. unfold read16. f_equal. apply peek_ext. intros x Hx.
  assert (x = a ∨ x = a + 1) as [-> | ->] by lia; done.
Qed.

Lemma read16_range m a : bytes_in m → 0 ≤ read16 m a < 65536.
Proof.
  intros B. unfold read16. pose proof (from_le_bound (peek m a 2)) as R. rewrite blen_peek in R by lia.
  apply R. unfold peek. by apply Forall_fmap, Forall_true.
Qed.

(** The regions of host memory that back the guest: base (0 when absent) and length. *)
Definition regions (s : Slots) : list (Z * Z) :=
  (RAM_HPA s, Hw.GUEST_UEFI_LOW_RAM_BYTES) :: (FLASH_HPA s, FLASH_LEN s) ::
  ((λ p, (p.2, GUEST_UEFI_REPORT_RAM_PAGE)) <$> REPORT_RAM s).

Definition apart (a b : Z * Z) : Prop := a.1 = 0 ∨ b.1 = 0 ∨ a.1 + a.2 ≤ b.1 ∨ b.1 + b.2 ≤ a.1.

Definition region_ok (r : Z * Z) : Prop := 0 ≤ r.1 ∧ 0 ≤ r.2 ∧ r.1 + r.2 ≤ W64.

(** The regions are in range and pairwise disjoint, and a claimed slot has a page. *)
Record slots_ok (s : Slots) : Prop := {
  ok_regions : Forall region_ok (regions s);
  ok_apart : ∀ i j a b, regions s !! i = Some a → regions s !! j = Some b → i ≠ j → apart a b;
  ok_claimed : Forall (λ p, p.1 ≠ U64_MAX → p.2 ≠ 0) (REPORT_RAM s);
}.

(** A host byte that belongs to the guest. *)
Definition backed (s : Slots) (x : Z) : Prop := ∃ r, r ∈ regions s ∧ r.1 ≠ 0 ∧ r.1 ≤ x < r.1 + r.2.

(** What is mapped without claiming a page. *)
Definition mapped (s : Slots) (g : Z) : option Z := (guest_uefi_gpa_to_hpa (λ _, false) s g).2.

Definition free_slots (t : list (Z * Z)) : nat := length (filter (λ p, p.1 = U64_MAX ∧ p.2 ≠ 0) t).

(** The guest address whose byte is at offset [off] of region [i]. *)
Definition unplace (s : Slots) (i : nat) (off : Z) : Z :=
  match i with
  | O => off
  | S O => GUEST_UEFI_FLASH_BASE + off
  | S (S k) => default 0 (fst <$> REPORT_RAM s !! k) + off
  end.

Lemma page_split g : u64 g →
  guest_uefi_report_ram_gpa_2m g = g / GUEST_UEFI_REPORT_RAM_PAGE * GUEST_UEFI_REPORT_RAM_PAGE ∧
  guest_uefi_report_ram_page_off g = g mod GUEST_UEFI_REPORT_RAM_PAGE.
Proof.
  intros U. split.
  - unfold guest_uefi_report_ram_gpa_2m. by apply (clear_low g 21).
  - unfold guest_uefi_report_ram_page_off. by rewrite land_pow2_mod.
Qed.

Lemma key_idem g : u64 g → guest_uefi_report_ram_gpa_2m (guest_uefi_report_ram_gpa_2m g) = guest_uefi_report_ram_gpa_2m g.
Proof.
  intros U. assert (u64 (guest_uefi_report_ram_gpa_2m g)) as U'.
  { rewrite (proj1 (page_split g U)). unfold GUEST_UEFI_REPORT_RAM_PAGE. pose proof (Z.mul_div_le g 0x200000). pose proof (Z.div_pos g 0x200000). mlia. }
  rewrite (proj1 (page_split _ U')), (proj1 (page_split _ U)). by rewrite Z.div_mul.
Qed.

Lemma key_max g : u64 g → guest_uefi_report_ram_gpa_2m g ≠ U64_MAX.
Proof. intros U. rewrite (proj1 (page_split g U)). unfold GUEST_UEFI_REPORT_RAM_PAGE, U64_MAX. generalize (g / 0x200000). lia. Qed.

Lemma find_key_at key t : find_key key t ≠ 0 → ∃ k h, t !! k = Some (key, h) ∧ find_key key t = h.
Proof.
  induction t as [|[g h] t IH]; cbn [find_key]; [done|]. destruct (Z.eqb_spec g key) as [->|N].
  - intros _. by exists 0%nat, h.
  - intros F. destruct (IH F) as (k & h' & L & E). by exists (S k), h'.
Qed.

(** Claiming changes a key only, never a page. *)
Lemma claim_pages key t : (claim_slot key t).1.*2 = t.*2.
Proof.
  induction t as [|[g h] t IH]; cbn [claim_slot]; [done|]. destruct (_ && _); [done|].
  destruct (claim_slot key t) as [t' r]. cbn in *. by rewrite IH.
Qed.

(** Other keys are found as before. *)
Lemma claim_other key key' t : key' ≠ key → key' ≠ U64_MAX → find_key key' (claim_slot key t).1 = find_key key' t.
Proof.
  intros N M. induction t as [|[g h] t IH]; cbn [claim_slot find_key]; [done|].
  destruct (Z.eqb_spec g U64_MAX) as [->|G]; cbn [andb].
  - destruct (negb _); cbn [fst find_key].
    + rewrite !(proj2 (Z.eqb_neq _ _)) by done. done.
    + destruct (claim_slot key t) as [t' r]. cbn in *. by rewrite IH.
  - destruct (claim_slot key t) as [t' r]. cbn in *. by rewrite IH.
Qed.

(** The claimed key is found, when there was none and a slot is free. *)
Lemma claim_found key t : key ≠ U64_MAX → Forall (λ p, p.1 ≠ U64_MAX → p.2 ≠ 0) t → find_key key t = 0 →
  find_key key (claim_slot key t).1 = (claim_slot key t).2 ∧ ((claim_slot key t).2 = 0 → free_slots t = 0%nat).
Proof.
  intros K. induction t as [|[g h] t IH]; intros C F; [done|]. apply Forall_cons in C as [Ch C].
  cbn [claim_slot find_key] in *. unfold free_slots. rewrite filter_cons.
  destruct (Z.eqb_spec g key) as [->|N]; [by destruct (Ch K)|].
  destruct (IH C F) as [I1 I2]. destruct (claim_slot key t) as [t' r] eqn:Q. cbn [fst snd] in *.
  destruct (Z.eqb_spec g U64_MAX) as [->|G], (Z.eqb_spec h 0) as [->|H0]; cbn [andb negb find_key fst snd].
  1,3,4: rewrite decide_False by (cbn; tauto); rewrite (proj2 (Z.eqb_neq _ _)) by done; done.
  by rewrite Z.eqb_refl.
Qed.

Lemma claim_free key t : key ≠ U64_MAX → (free_slots t ≤ S (free_slots (claim_slot key t).1))%nat.
Proof.
  intros K. unfold free_slots. induction t as [|[g h] t IH]; cbn [claim_slot]; [cbn; lia|].
  destruct (Z.eqb_spec g U64_MAX) as [->|G], (Z.eqb_spec h 0) as [->|H0]; cbn [andb negb fst];
    try destruct (claim_slot key t) as [t' r]; cbn [fst] in *; rewrite !filter_cons; repeat case_decide; cbn in *; first [lia|tauto].
Qed.

Lemma claim_claimed key t : Forall (λ p, p.1 ≠ U64_MAX → p.2 ≠ 0) t → Forall (λ p, p.1 ≠ U64_MAX → p.2 ≠ 0) (claim_slot key t).1.
Proof.
  induction t as [|[g h] t IH]; cbn [claim_slot]; [done|]. intros [C1 C2]%Forall_cons. specialize (IH C2).
  destruct (Z.eqb_spec h 0) as [->|H0]; rewrite ?andb_false_r, ?andb_true_r; cbn [negb].
  - destruct (claim_slot key t). by constructor.
  - destruct (g =? U64_MAX); cbn [andb]; [by constructor|]. destruct (claim_slot key t). by constructor.
Qed.

Definition claimed (t : list (Z * Z)) : Prop := Forall (λ p, p.1 ≠ U64_MAX → p.2 ≠ 0) t.

(** A table that serves what [t] serves, from the same pages, and perhaps more. *)
Record extends (t t' : list (Z * Z)) : Prop := {
  ext_pages : t'.*2 = t.*2;
  ext_claimed : claimed t → claimed t';
  ext_lookup : ∀ g, u64 g → report_ram_hpa_lookup t g ≠ 0 → report_ram_hpa_lookup t' g = report_ram_hpa_lookup t g;
  ext_free : (free_slots t ≤ S (free_slots t'))%nat;
}.

Lemma extends_refl t : extends t t.
Proof. split; [done..|lia]. Qed.

Lemma hpa_for_extends t g : u64 g → let '(t', r) := report_ram_hpa_for t (guest_uefi_report_ram_gpa_2m g) in
  extends t t' ∧
  (claimed t → report_ram_hpa_lookup t' g = r ∧ (r = 0 → free_slots t = 0%nat)).
Proof.
  intros U. pose proof (key_max g U) as K. unfold report_ram_hpa_for.
  assert (report_ram_hpa_lookup t (guest_uefi_report_ram_gpa_2m g) = report_ram_hpa_lookup t g) as ->.
  { unfold report_ram_hpa_lookup. by rewrite key_idem. }
  destruct (Z.eqb_spec (report_ram_hpa_lookup t g) 0) as [E|E]; cbn [negb].
  2: { split; [apply extends_refl|]. done. }
  rewrite key_idem by done. destruct (claim_slot (guest_uefi_report_ram_gpa_2m g) t) as [t' r] eqn:Q.
  split; [split|].
  - by rewrite <-(claim_pages (guest_uefi_report_ram_gpa_2m g) t), Q.
  - intros C. pose proof (claim_claimed (guest_uefi_report_ram_gpa_2m g) t C) as C'. by rewrite Q in C'.
  - intros g' U' L'. unfold report_ram_hpa_lookup in *.
    rewrite <-(claim_other (guest_uefi_report_ram_gpa_2m g) _ t), Q; [done|congruence|by apply key_max].
  - pose proof (claim_free (guest_uefi_report_ram_gpa_2m g) t K) as F. by rewrite Q in F.
  - intros C. pose proof (claim_found _ t K C E) as F. by rewrite Q in F.
Qed.

Lemma lookup_or_map_extends leaf t g : u64 g → guest_uefi_report_ram_should_map g = true →
  let '(t', base) := report_ram_hpa_lookup_or_map leaf t g in
  extends t t' ∧
  (claimed t → (base ≠ 0 → report_ram_hpa_lookup t' g = base) ∧
     ((∀ k, leaf k = true) → base = 0 → free_slots t = 0%nat)).
Proof.
  intros U M. unfold report_ram_hpa_lookup_or_map, ept_map_2m_report_ram. rewrite M. cbn [negb].
  destruct (Z.eqb_spec (report_ram_hpa_lookup t g) 0) as [E|E]; cbn [negb].
  2: { split; [apply extends_refl|]. done. }
  pose proof (hpa_for_extends t g U) as X. destruct (report_ram_hpa_for t _) as [t' r]. destruct X as [X1 X2].
  destruct (Z.eqb_spec r 0) as [->|R].
  - split; [done|]. intros C. split; [done|]. intros _ _. by apply X2.
  - destruct (leaf _) eqn:Lf; (split; [done|]); intros C; destruct (X2 C) as [L' Fr].
    + rewrite L'. rewrite (proj2 (Z.eqb_neq r 0) R). cbn [negb]. done.
    + split; [done|]. intros A. by rewrite A in Lf.
Qed.

Lemma mapped_low s g : g < Hw.GUEST_UEFI_LOW_RAM_BYTES → mapped s g = if RAM_HPA s =? 0 then None else Some (RAM_HPA s ⊞ g).
Proof. intros L. unfold mapped, guest_uefi_gpa_to_hpa. by rewrite (proj2 (Z.ltb_lt _ _) L). Qed.

Lemma mapped_report s g : u64 g → guest_uefi_report_ram_should_map g = true →
  mapped s g = if report_ram_hpa_lookup (REPORT_RAM s) g =? 0 then None
               else Some (report_ram_hpa_lookup (REPORT_RAM s) g ⊞ guest_uefi_report_ram_page_off g).
Proof.
  intros U M. unfold mapped, guest_uefi_gpa_to_hpa, guest_uefi_flash_off. pose proof M as M'.
  unfold guest_uefi_report_ram_should_map in M'. apply andb_true_iff in M' as [M1%Z.leb_le M2%Z.ltb_lt].
  rewrite (proj2 (Z.ltb_ge _ _)) by exact M1.
  rewrite (proj2 (Z.leb_gt GUEST_UEFI_FLASH_BASE g)) by (unfold PLATFORM_REPORT_RAM_BYTES, GUEST_UEFI_FLASH_BASE in *; lia).
  cbn [andb]. rewrite M. unfold report_ram_hpa_lookup_or_map, ept_map_2m_report_ram. rewrite M. cbn [negb].
  destruct (Z.eqb_spec (report_ram_hpa_lookup (REPORT_RAM s) g) 0) as [E|E]; cbn [negb].
  - destruct (report_ram_hpa_for _ _) as [t r]. by destruct (r =? 0).
  - by rewrite (proj2 (Z.eqb_neq _ _) E).
Qed.

Lemma regions_pages s t : t.*2 = (REPORT_RAM s).*2 → regions (with_report s t) = regions s.
Proof.
  intros E. unfold regions. cbn [RAM_HPA FLASH_HPA FLASH_LEN REPORT_RAM with_report]. do 2 f_equal.
  transitivity ((λ h, (h, GUEST_UEFI_REPORT_RAM_PAGE)) <$> t.*2); [by rewrite <-list_fmap_compose|].
  by rewrite E, <-list_fmap_compose.
Qed.

(** The state after translations: same regions, and what was mapped stays. *)
Record grows (s s' : Slots) : Prop := {
  gr_ok : slots_ok s → slots_ok s';
  gr_regions : regions s' = regions s;
  gr_mapped : ∀ g, u64 g → mapped s g ≠ None → mapped s' g = mapped s g;
}.

Lemma grows_refl s : grows s s.
Proof. done. Qed.

Lemma grows_trans s1 s2 s3 : grows s1 s2 → grows s2 s3 → grows s1 s3.
Proof.
  intros [A1 A2 A3] [B1 B2 B3]. split; [tauto|congruence|].
  intros g U M. rewrite <-(A3 g U M). apply B3; [done|]. by rewrite A3.
Qed.

Lemma grows_extends s t : extends (REPORT_RAM s) t → grows s (with_report s t).
Proof.
  intros X. pose proof (regions_pages s t (ext_pages _ _ X)) as R. split; [|done|].
  - intros [O1 O2 O3]. split; rewrite ?R; [done..|]. by apply (ext_claimed _ _ X).
  - intros g U M. destruct (guest_uefi_report_ram_should_map g) eqn:Q.
    + rewrite !mapped_report in * by done. cbn [REPORT_RAM with_report].
      destruct (Z.eqb_spec (report_ram_hpa_lookup (REPORT_RAM s) g) 0) as [E|E]; [done|].
      rewrite (ext_lookup _ _ X g U E). by rewrite (proj2 (Z.eqb_neq _ _) E).
    + unfold mapped, guest_uefi_gpa_to_hpa. rewrite Q. destruct (_ <? _); [done|]. by destruct (guest_uefi_flash_off g).
Qed.

Lemma gpa_to_hpa_grows leaf s g : u64 g → let '(s', r) := guest_uefi_gpa_to_hpa leaf s g in
  grows s s' ∧ (free_slots (REPORT_RAM s) ≤ S (free_slots (REPORT_RAM s')))%nat ∧
  (slots_ok s → (r ≠ None → mapped s' g = r) ∧
   ((∀ k, leaf k = true) → RAM_HPA s ≠ 0 → g < PLATFORM_REPORT_RAM_BYTES → r = None → free_slots (REPORT_RAM s) = 0%nat)).
Proof.
  intros U. destruct (guest_uefi_report_ram_should_map g) eqn:M.
  - pose proof (lookup_or_map_extends leaf (REPORT_RAM s) g U M) as X.
    pose proof (λ t, mapped_report (with_report s t) g U M) as MR.
    unfold guest_uefi_gpa_to_hpa, guest_uefi_flash_off. pose proof M as M'.
    unfold guest_uefi_report_ram_should_map in M'. apply andb_true_iff in M' as [M1%Z.leb_le M2%Z.ltb_lt].
    rewrite (proj2 (Z.ltb_ge _ _)) by exact M1.
    rewrite (proj2 (Z.leb_gt GUEST_UEFI_FLASH_BASE g)) by (unfold PLATFORM_REPORT_RAM_BYTES, GUEST_UEFI_FLASH_BASE in *; lia).
    cbn [andb]. rewrite M. destruct (report_ram_hpa_lookup_or_map leaf (REPORT_RAM s) g) as [t base]. destruct X as [X Y].
    split_and!; [by apply grows_extends|by apply X|]. intros O. destruct (Y (ok_claimed _ O)) as [Y1 Y2].
    destruct (Z.eqb_spec base 0) as [->|B]; cbn [negb].
    + split; [done|]. auto.
    + split; [|done]. intros _. rewrite MR. cbn [REPORT_RAM with_report]. rewrite Y1 by done.
      by rewrite (proj2 (Z.eqb_neq _ _) B).
  - assert (∀ l, guest_uefi_gpa_to_hpa l s g = (s, mapped s g)) as E.
    { intros l. unfold mapped, guest_uefi_gpa_to_hpa. rewrite M. destruct (_ <? _); [done|]. by destruct (guest_uefi_flash_off g). }
    rewrite E. split_and!; [apply grows_refl|lia|]. intros O. split; [done|]. intros _ R B N. exfalso.
    unfold guest_uefi_report_ram_should_map in M. rewrite (proj2 (Z.ltb_lt _ _) B), andb_true_r in M. apply Z.leb_gt in M.
    rewrite mapped_low in N by exact M. by rewrite (proj2 (Z.eqb_neq _ _) R) in N.
Qed.

(** A mapped address is in one region, and region and offset give it back. *)
Lemma mapped_at s g x : slots_ok s → u64 g → mapped s g = Some x →
  ∃ i r, regions s !! i = Some r ∧ r.1 ≠ 0 ∧ r.1 ≤ x < r.1 + r.2 ∧ g = unplace s i (x - r.1).
Proof.
  intros O U. pose proof (ok_regions _ O) as F. destruct (guest_uefi_report_ram_should_map g) eqn:M.
  - rewrite mapped_report by done. destruct (Z.eqb_spec (report_ram_hpa_lookup (REPORT_RAM s) g) 0) as [E|E]; [done|].
    destruct (find_key_at _ _ E) as (k & h & L & Eh). unfold report_ram_hpa_lookup in *. rewrite Eh in *. intros [= <-].
    assert (regions s !! S (S k) = Some (h, GUEST_UEFI_REPORT_RAM_PAGE)) as R.
    { change (((λ p, (p.2, GUEST_UEFI_REPORT_RAM_PAGE)) <$> REPORT_RAM s) !! k = Some (h, GUEST_UEFI_REPORT_RAM_PAGE)).
      by rewrite list_lookup_fmap, L. }
    pose proof (Forall_lookup_1 _ _ _ _ F R) as (H1 & _ & H3). cbn [fst snd] in *.
    destruct (page_split g U) as [P1 P2]. rewrite P1 in L. rewrite P2. unfold GUEST_UEFI_REPORT_RAM_PAGE in *.
    pose proof (Z.mod_pos_bound g 0x200000 eq_refl). rewrite add64_small by mlia.
    exists (S (S k)), (h, 0x200000). cbn [fst snd]. split_and!; [done|done|lia|lia|].
    cbn [unplace]. rewrite L. cbn. pose proof (Z.div_mod g 0x200000). lia.
  - unfold mapped, guest_uefi_gpa_to_hpa. rewrite M. destruct (Z.ltb_spec g Hw.GUEST_UEFI_LOW_RAM_BYTES) as [L|L].
    + destruct (Z.eqb_spec (RAM_HPA s) 0) as [E|E]; [done|]. intros [= <-].
      pose proof (Forall_lookup_1 _ _ 0%nat _ F eq_refl) as (H1 & _ & H3). cbn [fst snd] in *.
      rewrite add64_small by mlia. exists 0%nat. eexists. split; [done|]. cbn [fst snd unplace]. unfold u64 in U. split_and!; try done; lia.
    + unfold guest_uefi_flash_off. destruct (_ && _) eqn:B; [|done]. cbn [snd].
      apply andb_true_iff in B as [B1%Z.leb_le B2%Z.ltb_lt].
      destruct (Z.eqb_spec (FLASH_HPA s) 0) as [E|E]; [done|]. cbn [orb].
      destruct (Z.leb_spec (FLASH_LEN s) (g - GUEST_UEFI_FLASH_BASE)) as [G|G]; [done|]. intros [= <-].
      pose proof (Forall_lookup_1 _ _ 1%nat _ F eq_refl) as (H1 & _ & H3). cbn [fst snd] in *.
      rewrite add64_small by mlia. exists 1%nat. eexists. split; [done|]. cbn [fst snd unplace]. split_and!; try done; lia.
Qed.

Lemma mapped_inj s g g' x : slots_ok s → u64 g → u64 g' → mapped s g = Some x → mapped s g' = Some x → g = g'.
Proof.
  intros O U U' M M'. destruct (mapped_at s g x O U M) as (i & r & R & N & B & ->).
  destruct (mapped_at s g' x O U' M') as (j & q & Q & N' & B' & ->).
  destruct (decide (i = j)) as [<-|D]; [congruence|]. destruct (ok_apart _ O i j r q R Q D) as [?|[?|[?|?]]]; lia.
Qed.

Lemma mapped_ram h g : slots_ok h → RAM_HPA h ≠ 0 → 0 ≤ g < Hw.GUEST_UEFI_LOW_RAM_BYTES → mapped h g = Some (RAM_HPA h + g).
Proof.
  intros O R G. rewrite mapped_low by lia. rewrite (proj2 (Z.eqb_neq _ _) R).
  pose proof (Forall_lookup_1 _ _ 0%nat _ (ok_regions _ O) eq_refl) as (H1 & _ & H3). cbn [fst snd] in *.
  by rewrite add64_small by lia.
Qed.

Lemma translate_all_grows leaf gs : ∀ s, Forall u64 gs → let '(s', rs) := translate_all leaf s gs in
  grows s s' ∧ length rs = length gs ∧
  (slots_ok s → (∀ i g x, gs !! i = Some g → rs !! i = Some (Some x) → mapped s' g = Some x) ∧
   ((∀ k, leaf k = true) → RAM_HPA s ≠ 0 → (length gs ≤ free_slots (REPORT_RAM s))%nat →
    Forall (λ g, g < PLATFORM_REPORT_RAM_BYTES) gs → Forall is_Some rs)).
Proof.
  induction gs as [|g gs IH]; intros s Us; [split_and!; done|].
  apply Forall_cons in Us as [U Us]. cbn [translate_all]. pose proof (gpa_to_hpa_grows leaf s g U) as X.
  destruct (guest_uefi_gpa_to_hpa leaf s g) as [s1 r] eqn:Q. destruct X as (G1 & Fr & X).
  specialize (IH s1 Us). destruct (translate_all leaf s1 gs) as [s2 rs]. destruct IH as (G2 & Len & Y).
  split_and!; [by eapply grows_trans|cbn; lia|]. intros O. destruct (X O) as [X1 X2]. destruct (Y (gr_ok _ _ G1 O)) as [Y1 Y2]. split.
  - intros [|i] g0 x L R; cbn in L, R; [|by eapply Y1]. simplify_eq. rewrite <-(X1 ltac:(done)).
    apply (gr_mapped _ _ G2); [done|]. by rewrite X1.
  - intros Lf R Le [B Bs]%Forall_cons. cbn in Le. constructor.
    + destruct r; [done|]. specialize (X2 Lf R B eq_refl). lia.
    + apply Y2; [done| |lia|done]. pose proof (gr_regions _ _ G1) as E. injection E as E _. by rewrite E.
Qed.

(** C26: Translation is sound over any run of requests, with pages claimed as they are
    first used. Every host address it returns is a byte of the guest's regions, equal
    guest addresses get equal host addresses and different ones different host
    addresses, also when pages were claimed in between; the regions never change. While
    the pool has a free page per request, and leaves can be written, no request for
    reported memory is turned down. *)
Theorem translation_sound leaf s gs : slots_ok s → Forall u64 gs →
  let '(s', rs) := translate_all leaf s gs in
  slots_ok s' ∧ regions s' = regions s ∧ length rs = length gs ∧
  (∀ i j g g' x x', gs !! i = Some g → rs !! i = Some (Some x) → gs !! j = Some g' → rs !! j = Some (Some x') →
     backed s x ∧ (g = g' ↔ x = x')) ∧
  ((∀ k, leaf k = true) → RAM_HPA s ≠ 0 → (length gs ≤ free_slots (REPORT_RAM s))%nat →
   Forall (λ g, g < PLATFORM_REPORT_RAM_BYTES) gs → Forall is_Some rs).
Proof.
  intros O Us. pose proof (translate_all_grows leaf gs s Us) as X. destruct (translate_all leaf s gs) as [s' rs].
  destruct X as (G & Len & X). destruct (X O) as [X1 X2]. pose proof (gr_ok _ _ G O) as O'.
  split_and!; [done|apply G|done| |done]. intros i j g g' x x' Gi Ri Gj Rj.
  pose proof (X1 _ _ _ Gi Ri) as M. pose proof (X1 _ _ _ Gj Rj) as M'.
  pose proof (Forall_lookup_1 _ _ _ _ Us Gi) as U. pose proof (Forall_lookup_1 _ _ _ _ Us Gj) as U'. split.
  - destruct (mapped_at s' g x O' U M) as (k & r & R & N & B & _). exists r. rewrite <-(gr_regions _ _ G).
    split_and!; try done; [by eapply list_elem_of_lookup_2|lia..].
  - split; [intros ->; congruence|]. intros ->. by eapply mapped_inj.
Qed.

(** ** Mapping the pool in advance *)

Lemma premap_extends leaf n t : ∀ i, claimed t →
  (premap_report leaf i n t).*2 = t.*2 ∧ claimed (premap_report leaf i n t).
Proof.
  induction t as [|[g h] t IH]; intros i C; [done|]. cbn [premap_report]. destruct (guest_uefi_report_ram_premap_gpa i n) as [gpa|]; [|done].
  destruct (Z.eqb_spec h 0) as [->|H]; [done|]. apply Forall_cons in C as [_ C]. destruct (IH (i + 1) C) as [I1 I2].
  split; [cbn; by rewrite I1|by constructor].
Qed.

Lemma premap_consts : PLATFORM_RAM_BYTES = 0x2000000 ∧ GUEST_UEFI_REPORT_RAM_PAGE = 0x200000 ∧
  PLATFORM_REPORT_RAM_BYTES = 0x80000000 ∧ REPORT_RAM_ARRAY = 1008 ∧ U64_MAX = 18446744073709551615.
Proof. done. Qed.

Lemma premap_gpa_Some i n gpa : 0 ≤ i → guest_uefi_report_ram_premap_gpa i n = Some gpa →
  gpa = PLATFORM_RAM_BYTES + i * GUEST_UEFI_REPORT_RAM_PAGE ∧ i < n ∧ i < REPORT_RAM_ARRAY.
Proof.
  intros I. unfold guest_uefi_report_ram_premap_gpa, sat_add64, sat_mul64. destruct premap_consts as (-> & -> & -> & -> & ->).
  destruct (Z.leb_spec n i) as [|N]; [done|]. destruct (Z.ltb_spec (Z.min (0x2000000 + Z.min (i * 0x200000) 18446744073709551615)
    18446744073709551615) 0x80000000) as [L|]; [|done].
  intros [= <-]. lia.
Qed.

Lemma premap_gpa_is i n : 0 ≤ i < n → i < REPORT_RAM_ARRAY →
  guest_uefi_report_ram_premap_gpa i n = Some (PLATFORM_RAM_BYTES + i * GUEST_UEFI_REPORT_RAM_PAGE).
Proof.
  intros I. unfold guest_uefi_report_ram_premap_gpa, sat_add64, sat_mul64. destruct premap_consts as (-> & -> & -> & -> & ->).
  intros A. rewrite (proj2 (Z.leb_gt _ _)) by lia. rewrite !Z.min_l by lia. by rewrite (proj2 (Z.ltb_lt _ _)) by lia.
Qed.

Lemma next_page i : 0 ≤ i → i < REPORT_RAM_ARRAY →
  sat_add64 (i * GUEST_UEFI_REPORT_RAM_PAGE) GUEST_UEFI_REPORT_RAM_PAGE = (i + 1) * GUEST_UEFI_REPORT_RAM_PAGE.
Proof. unfold sat_add64. destruct premap_consts as (_ & -> & _ & -> & ->). intros. rewrite Z.min_l; lia. Qed.

(** The advertised bytes are whole pages, each of which is in the table. *)
Lemma premapped_pages n t : ∀ i, 0 ≤ i → ∃ k, 0 ≤ k ∧
  premapped_from (i * GUEST_UEFI_REPORT_RAM_PAGE) i n t = (i + k) * GUEST_UEFI_REPORT_RAM_PAGE ∧
  ∀ j, 0 ≤ j < k → PLATFORM_RAM_BYTES + (i + j) * GUEST_UEFI_REPORT_RAM_PAGE ∈ t.*1 ∧ i + j < REPORT_RAM_ARRAY.
Proof.
  induction t as [|[g h] t IH]; intros i I; cbn [premapped_from]; [exists 0; split_and!; [lia|f_equal; lia|lia]|].
  destruct (guest_uefi_report_ram_premap_gpa i n) as [want|] eqn:W; [|exists 0; split_and!; [lia|f_equal; lia|lia]].
  destruct (premap_gpa_Some i n want I W) as (-> & N & A).
  destruct (Z.eqb_spec g (PLATFORM_RAM_BYTES + i * GUEST_UEFI_REPORT_RAM_PAGE)) as [->|G]; cbn [negb];
    [|exists 0; split_and!; [lia|f_equal; lia|lia]].
  rewrite next_page by lia.
  destruct (IH (i + 1) ltac:(lia)) as (k & K & E & P). exists (k + 1). split_and!; [lia|rewrite E; f_equal; lia|].
  intros j Hj. rewrite fmap_cons. destruct (decide (j = 0)) as [->|J]; [rewrite Z.add_0_r; split; [by constructor|done]|].
  destruct (P (j - 1) ltac:(lia)) as [P1 P2]. replace (i + 1 + (j - 1)) with (i + j) in * by lia.
  split; [by constructor|done].
Qed.

Lemma find_key_claimed key t : claimed t → key ≠ U64_MAX → key ∈ t.*1 → find_key key t ≠ 0.
Proof.
  intros C K. induction C as [|[g h] t H C IH]; intros M; [by apply elem_of_nil in M|]. cbn [find_key].
  destruct (Z.eqb_spec g key) as [->|N]; [by apply H|]. rewrite fmap_cons in M. apply elem_of_cons in M as [?|M]; [done|auto].
Qed.

(** All of the filled slots are mapped in order when every leaf can be written. *)
Lemma premap_all n frames rest : ∀ i, 0 ≤ i → i + blen frames = n → n ≤ REPORT_RAM_ARRAY → Forall (λ h, h ≠ 0) frames →
  premapped_from (i * GUEST_UEFI_REPORT_RAM_PAGE) i n
    (premap_report (λ _, true) i n (((λ h, (U64_MAX, h)) <$> frames) ++ rest)) = n * GUEST_UEFI_REPORT_RAM_PAGE.
Proof.
  induction frames as [|h frames IH]; intros i I L A N.
  - unfold blen in L. cbn in L. assert (∀ b, guest_uefi_report_ram_premap_gpa i n = None ∧ premapped_from b i n rest = b ∧ premap_report (λ _, true) i n rest = rest) as E.
    { intros b. assert (guest_uefi_report_ram_premap_gpa i n = None) as X
        by (unfold guest_uefi_report_ram_premap_gpa; by rewrite (proj2 (Z.leb_le _ _)) by lia).
      destruct rest as [|[g h] rest]; cbn; by rewrite ?X. }
    cbn [fmap list_fmap app]. destruct (E (i * GUEST_UEFI_REPORT_RAM_PAGE)) as (_ & E2 & E3). rewrite E3, E2. f_equal. lia.
  - apply Forall_cons in N as [H N]. unfold blen in L. cbn [length] in L. cbn [fmap list_fmap app premap_report].
    rewrite (premap_gpa_is i n) by lia. rewrite (proj2 (Z.eqb_neq _ _) H). cbn [premapped_from].
    rewrite (premap_gpa_is i n) by lia. rewrite Z.eqb_refl. cbn [negb].
    rewrite next_page by lia.
    apply IH; [lia|unfold blen; lia|done|done].
Qed.

Lemma premapped_mapped s n g : slots_ok s →
  PLATFORM_RAM_BYTES ≤ g < PLATFORM_RAM_BYTES + guest_uefi_report_ram_premapped_contiguous_bytes (REPORT_RAM s) n →
  is_Some (mapped s g).
Proof.
  intros O G. unfold guest_uefi_report_ram_premapped_contiguous_bytes in G.
  destruct (premapped_pages n (REPORT_RAM s) 0 ltac:(lia)) as (k & K & E & P). rewrite Z.mul_0_l, Z.add_0_l in E. rewrite E in G.
  set (j := (g - PLATFORM_RAM_BYTES) / GUEST_UEFI_REPORT_RAM_PAGE).
  assert (0 ≤ j < k) as J.
  { unfold j. unfold GUEST_UEFI_REPORT_RAM_PAGE in *. split; [apply Z.div_pos; lia|apply Z.div_lt_upper_bound; lia]. }
  destruct (P j J) as [P1 P2]. rewrite Z.add_0_l in P1, P2.
  assert (j * GUEST_UEFI_REPORT_RAM_PAGE ≤ g - PLATFORM_RAM_BYTES < j * GUEST_UEFI_REPORT_RAM_PAGE + GUEST_UEFI_REPORT_RAM_PAGE) as D.
  { unfold j, GUEST_UEFI_REPORT_RAM_PAGE. pose proof (Z.div_mod (g - PLATFORM_RAM_BYTES) 0x200000). pose proof (Z.mod_pos_bound (g - PLATFORM_RAM_BYTES) 0x200000). lia. }
  unfold GUEST_UEFI_REPORT_RAM_PAGE, REPORT_RAM_ARRAY, GUEST_UEFI_REPORT_RAM_SLOTS, GUEST_UEFI_REPORT_RAM_PRODUCT_EXTRA, PLATFORM_RAM_BYTES in *.
  assert (u64 g) as U by mlia.
  rewrite mapped_report; [|done|unfold guest_uefi_report_ram_should_map, PLATFORM_RAM_BYTES, PLATFORM_REPORT_RAM_BYTES;
    rewrite (proj2 (Z.leb_le _ _)), (proj2 (Z.ltb_lt _ _)) by lia; done].
  assert (guest_uefi_report_ram_gpa_2m g = 32 * 1024 * 1024 + j * 0x200000) as Kg.
  { rewrite (proj1 (page_split g U)). unfold GUEST_UEFI_REPORT_RAM_PAGE. rewrite <-(Z.div_unique_pos g 0x200000 (j + 16) (g - (j + 16) * 0x200000)) by lia. lia. }
  destruct (Z.eqb_spec (report_ram_hpa_lookup (REPORT_RAM s) g) 0) as [E0|]; [|done]. exfalso.
  unfold report_ram_hpa_lookup in E0. rewrite Kg in E0. revert E0. apply find_key_claimed; [apply O|unfold U64_MAX; lia|done].
Qed.

(** What the firmware may advertise is backed. For every table of slots, each guest
    address of the advertised range is mapped already, without claiming a page; a pool
    filled from [frames] and mapped with every leaf written advertises all its pages. *)
Theorem advertised_mapped (s : Slots) (n : Z) : slots_ok s →
  (∀ g, PLATFORM_RAM_BYTES ≤ g < PLATFORM_RAM_BYTES + guest_uefi_report_ram_premapped_contiguous_bytes (REPORT_RAM s) n →
     is_Some (mapped s g)) ∧
  (∀ product frames, Forall (λ h, h ≠ 0) frames →
     let k := Z.min (report_ram_slots_alloc product) (blen frames) in
     guest_uefi_report_ram_premapped_contiguous_bytes
       (premap_report (λ _, true) 0 k (seed_report product frames reset_report)) k = k * GUEST_UEFI_REPORT_RAM_PAGE) ∧
  (∀ leaf, slots_ok (with_report s (premap_report leaf 0 n (REPORT_RAM s)))).
Proof.
  intros O. split_and!.
  - intros g. by apply premapped_mapped.
  - intros product frames N k. unfold guest_uefi_report_ram_premapped_contiguous_bytes, seed_report.
    rewrite <-(Z.mul_0_l GUEST_UEFI_REPORT_RAM_PAGE) at 1.
    assert (0 ≤ report_ram_slots_alloc product ≤ REPORT_RAM_ARRAY) as R by (by destruct product).
    apply premap_all; [lia|unfold blen; rewrite length_take; unfold k, blen; lia|unfold k; lia|by apply Forall_take].
  - intros leaf. destruct (premap_extends leaf n (REPORT_RAM s) 0 (ok_claimed _ O)) as [E C].
    pose proof (regions_pages s _ E) as R.
    destruct O as [O1 O2 O3]. split; rewrite ?R; done.
Qed.

(** ** Giving the pool back *)

Lemma free_one a f : Falloc.wf a → let a' := (Falloc.free_frame a f).1 in
  Falloc.wf a' ∧ Falloc.pool a' = Falloc.pool a ∧ Falloc.allocated a' = Falloc.allocated a ∖ {[f]}.
Proof.
  intros W a'. unfold a'. destruct (Falloc.free_frame a f) as [b r] eqn:E. cbn [fst].
  apply Falloc.free_frame_spec in E as (W' & G & S); [|done]. split; [done|].
  assert (Falloc.pool b = Falloc.pool a) as P by (unfold Falloc.pool; by destruct G as (-> & -> & _)). split; [done|].
  pose proof (Falloc.allocated_pool a) as Sub.
  destruct r as [u|[]]; try done; [by destruct S as (_ & S & _)|destruct S as [? ->]; set_solver|destruct S as (_ & ? & ->); set_solver].
Qed.

Lemma free_list a (fs : list Z) : Falloc.wf a →
  let a' := foldl (λ a f, (Falloc.free_frame a f).1) a fs in
  Falloc.wf a' ∧ Falloc.pool a' = Falloc.pool a ∧ Falloc.allocated a' = Falloc.allocated a ∖ list_to_set fs.
Proof.
  revert a. induction fs as [|f fs IH]; intros a W; cbn [foldl]; [split_and!; [done|done|set_solver]|].
  destruct (free_one a f W) as (W1 & P1 & A1). destruct (IH _ W1) as (W2 & P2 & A2).
  cbv zeta in *. rewrite P2, A2, P1, A1. split_and!; [done|done|set_solver].
Qed.

(** The frames of a page. *)
Definition page_frames (hpa : Z) : list Z := seqZ (hpa / 4096) (GUEST_UEFI_REPORT_RAM_PAGE / 4096).

Lemma free_page_spec a hpa : Falloc.wf a → 0 ≤ hpa → hpa + GUEST_UEFI_REPORT_RAM_PAGE < W64 → hpa mod 4096 = 0 →
  Falloc.wf (free_page a hpa) ∧ Falloc.pool (free_page a hpa) = Falloc.pool a ∧
  Falloc.allocated (free_page a hpa) = Falloc.allocated a ∖ list_to_set (page_frames hpa).
Proof.
  intros W H0 H1 H2. replace (free_page a hpa) with (foldl (λ a f, (Falloc.free_frame a f).1) a (page_frames hpa)); [by apply free_list|].
  unfold free_page, page_frames, GUEST_UEFI_REPORT_RAM_PAGE in *. change (0x200000 / 4096) with 512.
  transitivity (foldl (λ a i, (Falloc.free_frame a (hpa / 4096 + i)).1) a (seqZ 0 512)).
  - rewrite <-(Z.add_0_r (hpa / 4096)) at 1. rewrite <-fmap_add_seqZ. symmetry.
    generalize (seqZ 0 512) as l. intros l. revert a W. induction l as [|i l IH]; intros b W; [done|].
    rewrite fmap_cons. cbn [foldl]. apply IH. by apply free_one.
  - apply foldl_seqZ_ext. intros b i Hi. unfold Falloc.from_phys. rewrite add64_small by mlia.
    rewrite Z.shiftr_div_pow2 by lia. change (2 ^ 12) with 4096. by rewrite Z.div_add by lia.
Qed.

Lemma released_page return_to_e4 a hpa : Falloc.wf a → 0 ≤ hpa → hpa + GUEST_UEFI_REPORT_RAM_PAGE < W64 → hpa mod 4096 = 0 →
  let a1 := if return_to_e4 && Falloc.owns_phys_range a hpa GUEST_UEFI_REPORT_RAM_PAGE then free_page a hpa else a in
  Falloc.wf a1 ∧ Falloc.pool a1 = Falloc.pool a ∧ ∀ f, f ∈ Falloc.allocated a1 ↔ f ∈ Falloc.allocated a ∧
    ¬ (return_to_e4 = true ∧ hpa ≤ f * 4096 < hpa + GUEST_UEFI_REPORT_RAM_PAGE).
Proof.
  intros W H0 H1 H2. destruct return_to_e4; cbn [andb]; [|split_and!; [done|done|]; intros f; split; [intros; split; [done|by intros []]|by intros []]].
  assert (∀ f, f ∈ page_frames hpa ↔ hpa ≤ f * 4096 < hpa + GUEST_UEFI_REPORT_RAM_PAGE) as Pf.
  { intros f. unfold page_frames. rewrite elem_of_seqZ. unfold GUEST_UEFI_REPORT_RAM_PAGE. change (0x200000 / 4096) with 512.
    Z.to_euclidean_division_equations. lia. }
  destruct (Falloc.owns_phys_range a hpa GUEST_UEFI_REPORT_RAM_PAGE) eqn:O.
  - destruct (free_page_spec a hpa W H0 H1 H2) as (W' & P' & A'). split_and!; [done|done|]. intros f.
    rewrite A', elem_of_difference, elem_of_list_to_set, Pf. tauto.
  - split_and!; [done|done|]. intros f. split; [|tauto]. intros Hf. split; [done|]. intros [_ B].
    apply not_true_iff_false in O. apply O, Falloc.owns_phys_range_spec; [done|mlia|done|mlia|].
    exists (f * 4096). split; [done|]. unfold Falloc.from_phys. rewrite Z.shiftr_div_pow2 by lia.
    change (2 ^ 12) with 4096. rewrite Z.div_mul by lia. by apply Falloc.allocated_pool.
Qed.

Definition on_page (t : list (Z * Z)) (x : Z) : Prop := ∃ p, p ∈ t ∧ p.2 ≠ 0 ∧ p.2 ≤ x < p.2 + GUEST_UEFI_REPORT_RAM_PAGE.

(** The pool is scrubbed before it is given back: after the release every byte of its
    pages is zero and no other byte has changed, the table is empty, and the allocator
    has lost exactly the frames of the pages, none of them if they are withheld. *)
Theorem release_scrubs return_to_e4 t : ∀ m a, Falloc.wf a →
  Forall (λ p, 0 ≤ p.2 ∧ p.2 + GUEST_UEFI_REPORT_RAM_PAGE < W64 ∧ p.2 mod 4096 = 0) t →
  let '(m', a', t', n) := release_report_ram_for_e4 return_to_e4 m a t in
  (∀ x, (on_page t x → m' x = 0) ∧ (¬ on_page t x → m' x = m x)) ∧
  t' = replicate (length t) (U64_MAX, 0) ∧
  Falloc.wf a' ∧ Falloc.pool a' = Falloc.pool a ∧
  ∀ f, f ∈ Falloc.allocated a' ↔ f ∈ Falloc.allocated a ∧ ¬ (return_to_e4 = true ∧ on_page t (f * 4096)).
Proof.
  induction t as [|[g hpa] t IH]; intros m a W F.
  { assert (∀ x, ¬ on_page [] x) as N by (intros x (p & []%elem_of_nil & _)). cbn.
    split_and!; try done; [intros x; split; [by intros ?%N|done]|]. intros f. split; [|by intros []]. intros H. split; [done|]. intros [_ ?%N]. done. }
  apply Forall_cons in F as [(F1 & F2 & F3) F]. cbn [snd] in *. cbn [release_report_ram_for_e4].
  assert (∀ x, on_page ((g, hpa) :: t) x ↔ (hpa ≠ 0 ∧ hpa ≤ x < hpa + GUEST_UEFI_REPORT_RAM_PAGE) ∨ on_page t x) as Op.
  { intros x. unfold on_page. split.
    - intros (p & [->|M]%elem_of_cons & P); [by left|]. right. by exists p.
    - intros [P|(p & M & P)]; [exists (g, hpa)|exists p]; (split; [apply elem_of_cons; tauto|done]). }
  destruct (Z.eqb_spec hpa 0) as [->|H].
  { specialize (IH m a W F). destruct (release_report_ram_for_e4 return_to_e4 m a t) as [[[m' a'] t'] n].
    destruct IH as (I1 & -> & I3 & I4 & I5). setoid_rewrite Op. split_and!; try done; [|intros f; rewrite I5; tauto].
    intros x. destruct (I1 x) as [J1 J2]. split; intros N; [apply J1|apply J2]; tauto. }
  set (m1 := zero_fill m hpa _).
  set (a1 := if return_to_e4 && Falloc.owns_phys_range a hpa GUEST_UEFI_REPORT_RAM_PAGE then free_page a hpa else a).
  assert (Falloc.wf a1 ∧ Falloc.pool a1 = Falloc.pool a ∧ ∀ f, f ∈ Falloc.allocated a1 ↔ f ∈ Falloc.allocated a ∧
    ¬ (return_to_e4 = true ∧ hpa ≤ f * 4096 < hpa + GUEST_UEFI_REPORT_RAM_PAGE)) as (W1 & P1 & A1) by by apply released_page.
  specialize (IH m1 a1 W1 F). destruct (release_report_ram_for_e4 return_to_e4 m1 a1 t) as [[[m' a'] t'] n].
  destruct IH as (I1 & -> & I3 & I4 & I5). setoid_rewrite Op. split_and!; [|done|done|congruence|].
  - intros x. destruct (I1 x) as [J1 J2]. destruct (decide (hpa ≤ x < hpa + GUEST_UEFI_REPORT_RAM_PAGE)) as [D|D].
    + split; [|tauto]. intros _. destruct (decide (Exists (λ p, p.2 ≠ 0 ∧ p.2 ≤ x < p.2 + GUEST_UEFI_REPORT_RAM_PAGE) t)) as [X|X]; rewrite Exists_exists in X.
      * by apply J1.
      * rewrite J2 by done. unfold m1, zero_fill. rewrite (proj2 (Z.leb_le _ _)), (proj2 (Z.ltb_lt _ _)) by lia. done.
    + split; [intros [[_ ?]|?]; [done|auto]|]. intros N. rewrite J2 by tauto. unfold m1, zero_fill.
      destruct (Z.leb_spec hpa x), (Z.ltb_spec x (hpa + GUEST_UEFI_REPORT_RAM_PAGE)); try done. lia.
  - intros f. rewrite I5, A1. tauto.
Qed.

Definition demo : Slots :=
  mkSlots 0x10000000 0x20000000 0x100000 [(U64_MAX, 0x30000000); (0x2000000, 0x30200000); (U64_MAX, 0x30400000)].

Lemma demo_ok : slots_ok demo.
Proof.
  split.
  - repeat (constructor; [unfold region_ok; by vm_compute|]). constructor.
  - intros i j a b Ha Hb N. do 5 try destruct i as [|i]; do 5 try destruct j as [|j]; try done;
      cbn in Ha, Hb; simplify_eq; unfold apart, GUEST_UEFI_REPORT_RAM_PAGE, Hw.GUEST_UEFI_LOW_RAM_BYTES; cbn; lia.
  - by repeat (constructor; [done|]).
Qed.

Lemma translation_sound_witness :
  (translate_all (λ _, true) demo [0x7bddd123; 0x2000010; 0x7bc00000]).2 = [Some 0x301dd123; Some 0x30200010; Some 0x30000000] ∧
  backed demo 0x301dd123.
Proof.
  assert ((translate_all (λ _, true) demo [0x7bddd123; 0x2000010; 0x7bc00000]).2 =
    [Some 0x301dd123; Some 0x30200010; Some 0x30000000]) as E by (vm_compute; reflexivity).
  split; [exact E|].
  pose proof (translation_sound (λ _, true) demo [0x7bddd123; 0x2000010; 0x7bc00000] demo_ok) as H.
  destruct (translate_all _ _ _) as [s' rs]. cbn [snd] in E. subst rs.
  destruct H as (_ & _ & _ & H & _); [by repeat (constructor; [done|])|].
  by eapply (H 0%nat 0%nat).
Defined.

Lemma advertised_mapped_witness :
  is_Some (mapped (with_report demo (premap_report (λ _, true) 0 3 (REPORT_RAM demo))) 0x25fffff).
Proof.
  destruct (advertised_mapped demo 3 demo_ok) as (_ & _ & O).
  destruct (advertised_mapped _ 3 (O (λ _, true))) as (M & _ & _). apply M. vm_compute. split; congruence.
Defined.

Lemma release_scrubs_witness :
  let '(m', a', t', n) := release_report_ram_for_e4 true (λ _, 7) (Falloc.allocate_frame Falloc.demo).1 [(0x2000000, 0x100000)] in
  m' 0x2fffff = 0 ∧ m' 0x300000 = 7 ∧ t' = [(U64_MAX, 0)] ∧ 256 ∉ Falloc.allocated a'.
Proof.
  assert (Falloc.wf (Falloc.allocate_frame Falloc.demo).1) as W.
  { apply Falloc.reachable_inv, (Falloc.reach_step Falloc.demo); [apply Falloc.demo_reachable|].
    apply (Falloc.step_alloc _ _ (Falloc.allocate_frame Falloc.demo).2). reflexivity. }
  pose proof (release_scrubs true [(0x2000000, 0x100000)] (λ _, 7) _ W) as H.
  destruct (release_report_ram_for_e4 _ _ _ _) as [[[m' a'] t'] n].
  destruct H as (H1 & H2 & _ & _ & H3); [by repeat constructor|].
  assert (∀ x, 0x100000 ≤ x < 0x300000 → on_page [(0x2000000, 0x100000)] x) as On.
  { intros x X. exists (0x2000000, 0x100000). split; [by constructor|done]. }
  split_and!; [apply H1, On; lia|apply H1|exact H2|intros M; apply H3 in M as [_ M]; apply M; split; [done|apply On; lia]].
  intros (p & [->|[]%elem_of_nil]%elem_of_cons & _ & X). cbn in X. unfold GUEST_UEFI_REPORT_RAM_PAGE in X. lia.
Defined.

End GuestRam.
