(* ===== verification/VirtioNet.v ===== *)
(** * The guest network card

    [devices/guest_virtio_net.rs]: the PCI function, the virtio register window, the
    transmit and the receive queue of the guest's virtio network device. The rings and
    buffers are in guest memory, which the device reaches through host addresses:
    [translate] turns a guest address into a host address ([GuestRam]). What the
    physical port answers to a frame, the frames it has received, whether a start is
    armed (with its MAC) and the carrier are arguments. Log lines are left out. *)

From S2P Require Import Prelude Bytes EptHw IrqChip GuestRam.

Module VirtioNet.

Import GuestRam.

(** ** Constants and state *)

Definition GUEST_NET_PCI_DEV : Z := 5.
Definition GUEST_NET_PCI_FN : Z := 0.
Definition GUEST_NET_VENDOR : Z := 0x1AF4.
Definition GUEST_NET_DEVICE : Z := 0x1041.
Definition GUEST_NET_BAR : Z := 0xFE003000.
Definition BAR_MASK : Z := 0xFFFFF000.
Definition QSIZE : Z := 256.
Definition CHAIN_MAX : nat := 32.
Definition OFF_NOTIFY : Z := 0x300.
Definition OFF_DEVICE : Z := 0x200.
Definition VIRTIO_F_VERSION_1 : Z := Z.shiftl 1 32.
Definition VIRTIO_NET_F_MAC : Z := Z.shiftl 1 5.
Definition VIRTIO_NET_F_STATUS : Z := Z.shiftl 1 16.
Definition FEATURES : Z := Z.lor (Z.lor VIRTIO_F_VERSION_1 VIRTIO_NET_F_MAC) VIRTIO_NET_F_STATUS.
Definition VIRTIO_NET_S_LINK_UP : Z := 1.
Definition DEVCFG_STATUS_OFF : Z := 6.
Definition ISR_CONFIG : Z := 0x2.
Definition STATUS_DRIVER_OK : Z := 4.
Definition VNET_HDR_LEN : Z := 12.

(** The frame buffer [[0u8; VNET_HDR_LEN + 1514]]. *)
Definition FRAME_MAX : Z := VNET_HDR_LEN + 1514.

Record Queue := mkQueue { enable : Z; desc : Z; avail : Z; used : Z; last_avail : Z; used_idx : Z }.

Definition queue_zero : Queue := mkQueue 0 0 0 0 0 0.

Record Net := mkNet {
  bar : Z;
  sizing : bool;
  cmd : Z;
  feat_sel : Z;
  drv_sel : Z;
  drv_feat : Z;
  status : Z;
  isr : Z;
  cfg_gen : Z;
  qsel : Z;
  q : list Queue;
  notify : bool;
  logged : bool;
}.

(** The device with the statics beside it. *)
Record Dev := mkDev {
  net : Net;
  TX_IRQ_ARM : Z;
  CFG_IRQ_ARM : Z;
  TX_DONE_N : Z;
  TX_SENT_N : Z;
  TX_HELD_N : Z;
  RX_POSTED_N : Z;
}.

Definition NET : Net := mkNet GUEST_NET_BAR false 0 0 0 0 0 0 0 0 [queue_zero; queue_zero] false false.

Definition dev_boot : Dev := mkDev NET 0 0 0 0 0 0.

Definition with_net (s : Dev) (n : Net) : Dev :=
  mkDev n (TX_IRQ_ARM s) (CFG_IRQ_ARM s) (TX_DONE_N s) (TX_SENT_N s) (TX_HELD_N s) (RX_POSTED_N s).

Definition queue (n : Net) (i : nat) : Queue := default queue_zero (q n !! i).

Definition with_q (n : Net) (l : list Queue) : Net :=
  mkNet (bar n) (sizing n) (cmd n) (feat_sel n) (drv_sel n) (drv_feat n) (status n) (isr n) (cfg_gen n) (qsel n) l (notify n) (logged n).
Definition with_isr (n : Net) (v : Z) : Net :=
  mkNet (bar n) (sizing n) (cmd n) (feat_sel n) (drv_sel n) (drv_feat n) (status n) v (cfg_gen n) (qsel n) (q n) (notify n) (logged n).
Definition with_notify (n : Net) (b : bool) : Net :=
  mkNet (bar n) (sizing n) (cmd n) (feat_sel n) (drv_sel n) (drv_feat n) (status n) (isr n) (cfg_gen n) (qsel n) (q n) b (logged n).
Definition with_qsel (n : Net) (v : Z) : Net :=
  mkNet (bar n) (sizing n) (cmd n) (feat_sel n) (drv_sel n) (drv_feat n) (status n) (isr n) (cfg_gen n) v (q n) (notify n) (logged n).

Definition inc16 (x : Z) : Z := (x + 1) mod 65536.
Definition inc32 (x : Z) : Z := (x + 1) mod 2 ^ 32.

Definition set_tx_arm (s : Dev) : Dev :=
  mkDev (net s) 1 (CFG_IRQ_ARM s) (TX_DONE_N s) (TX_SENT_N s) (TX_HELD_N s) (RX_POSTED_N s).

(** ** PCI configuration space *)

Definition pci_bdf (addr : Z) : Z * Z * Z * Z :=
  (Z.land (Z.shiftr addr 16) 0xFF, Z.land (Z.shiftr addr 11) 0x1F, Z.land (Z.shiftr addr 8) 7, Z.land addr 0xFC).

Definition pci_cfg_offset (addr port : Z) : Z := Z.land (Z.lor addr (Z.land ((port - 0xCFC) mod 65536) 3)) 0xFF.

Definition pci_selects (armed hidden : bool) (addr : Z) : bool :=
  if (Z.land addr 0x80000000 =? 0) || negb armed then false
  else if hidden then false
  else
    let '(bus, dev, fun_, _) := pci_bdf addr in
    (bus =? 0) && (dev =? GUEST_NET_PCI_DEV) && (fun_ =? GUEST_NET_PCI_FN).

Definition cfg_dword (n : Net) (off : Z) : Z :=
  if off =? 0x00 then Z.lor GUEST_NET_VENDOR (Z.shiftl GUEST_NET_DEVICE 16)
  else if off =? 0x04 then Z.lor (cmd n) 0x00100000
  else if off =? 0x08 then 0x02000001
  else if off =? 0x10 then if sizing n then BAR_MASK else bar n
  else if off =? 0x2C then Z.lor GUEST_NET_VENDOR (Z.shiftl 1 16)
  else if off =? 0x34 then 0x40
  else if off =? 0x3C then Z.lor IrqChip.VIRTIO_PIC_IRQ 0x00000100
  else if off =? 0x40 then 0x01105009
  else if off =? 0x4C then 0x38
  else if off =? 0x50 then 0x02146409
  else if off =? 0x58 then OFF_NOTIFY
  else if off =? 0x5C then 4
  else if off =? 0x64 then 0x03107409
  else if off =? 0x6C then 0x100
  else if off =? 0x70 then 4
  else if off =? 0x74 then 0x04100009
  else if off =? 0x7C then OFF_DEVICE
  else if off =? 0x80 then 12
  else 0.

Definition shift (dword off size : Z) : Z :=
  let shifted := Z.shiftr dword (Z.land off 3 * 8) in
  if size =? 1 then Z.land shifted 0xFF else if size =? 2 then Z.land shifted 0xFFFF else shifted.

(** [addr] is the last value of the configuration address port. *)
Definition pci_read_data (armed hidden : bool) (addr : Z) (s : Dev) (port size : Z) : Z :=
  if negb (pci_selects armed hidden addr) then 0xFFFFFFFF
  else let off := pci_cfg_offset addr port in shift (cfg_dword (net s) (Z.land off 0xFC)) off size.

Definition pci_write_data (armed hidden : bool) (addr : Z) (s : Dev) (port size val : Z) : Dev :=
  if negb (pci_selects armed hidden addr) then s
  else
    let off := pci_cfg_offset addr port in
    let n := net s in
    with_net s
      (if off =? 0x04 then
         mkNet (bar n) (sizing n) (Z.land val 0xFFFF) (feat_sel n) (drv_sel n) (drv_feat n) (status n) (isr n) (cfg_gen n)
           (qsel n) (q n) (notify n) (logged n)
       else if off =? 0x10 then
         if val =? 0xFFFFFFFF then
           mkNet (bar n) true (cmd n) (feat_sel n) (drv_sel n) (drv_feat n) (status n) (isr n) (cfg_gen n)
             (qsel n) (q n) (notify n) (logged n)
         else
           let next := Z.land val BAR_MASK in
           mkNet (if next =? 0 then GUEST_NET_BAR else next) false (cmd n) (feat_sel n) (drv_sel n) (drv_feat n) (status n)
             (isr n) (cfg_gen n) (qsel n) (q n) (notify n) (logged n)
       else n).

Definition covers (armed : bool) (s : Dev) (gpa : Z) : bool :=
  if negb armed then false
  else let b := Z.land (bar (net s)) BAR_MASK in (b <=? gpa) && (gpa <? b + 0x1000).

Definition bar_gpa (armed : bool) (s : Dev) : option Z := if negb armed then None else Some (Z.land (bar (net s)) BAR_MASK).

(** Parsed, posted, accepted by the port, held back. *)
Definition net_counts (s : Dev) : Z * Z * Z * Z := (TX_DONE_N s, RX_POSTED_N s, TX_SENT_N s, TX_HELD_N s).

Definition irq_state (s : Dev) : Z * bool := (isr (net s), TX_IRQ_ARM s =? 1).

(** ** The register window *)

(** [(x & !(0xff << 8k)) | (val << 8k)] *)
Definition set_byte (x k val : Z) : Z := Z.lor (Z.ldiff x (Z.shiftl 0xFF (8 * k))) (Z.shiftl val (8 * k)).
Definition get_byte (x k : Z) : Z := Z.land (Z.shiftr x (8 * k)) 0xFF.

Definition write_common (n : Net) (off val : Z) : Net :=
  let i := Z.to_nat (Z.min (qsel n) 1) in
  let qu := queue n i in
  let set_q (x : Queue) := with_q n (<[i := x]> (q n)) in
  if off <=? 0x03 then
    mkNet (bar n) (sizing n) (cmd n) (set_byte (feat_sel n) (Z.land off 3) val) (drv_sel n) (drv_feat n) (status n) (isr n)
      (cfg_gen n) (qsel n) (q n) (notify n) (logged n)
  else if off <=? 0x07 then n
  else if off <=? 0x0B then
    mkNet (bar n) (sizing n) (cmd n) (feat_sel n) (set_byte (drv_sel n) (Z.land off 3) val) (drv_feat n) (status n) (isr n)
      (cfg_gen n) (qsel n) (q n) (notify n) (logged n)
  else if off <=? 0x0F then
    mkNet (bar n) (sizing n) (cmd n) (feat_sel n) (drv_sel n) (set_byte (drv_feat n) (off - 0x0C) val) (status n) (isr n)
      (cfg_gen n) (qsel n) (q n) (notify n) (logged n)
  else if off =? 0x14 then
    if val =? 0 then
      mkNet (bar n) (sizing n) (cmd n) (feat_sel n) (drv_sel n) (drv_feat n) val 0
        (cfg_gen n) 0 [queue_zero; queue_zero] false (logged n)
    else
      mkNet (bar n) (sizing n) (cmd n) (feat_sel n) (drv_sel n) (drv_feat n) val (isr n)
        (cfg_gen n) (qsel n) (q n) (notify n) (if negb (Z.land val STATUS_DRIVER_OK =? 0) then true else logged n)
  else if off =? 0x16 then with_qsel n val
  else if off =? 0x17 then with_qsel n (Z.lor (Z.land (qsel n) 0xFF) (Z.shiftl val 8))
  else if off =? 0x1C then set_q (mkQueue val (desc qu) (avail qu) (used qu) (last_avail qu) (used_idx qu))
  else if off =? 0x1D then
    set_q (mkQueue (Z.lor (Z.land (enable qu) 0xFF) (Z.shiftl val 8)) (desc qu) (avail qu) (used qu) (last_avail qu) (used_idx qu))
  else if (0x20 <=? off) && (off <=? 0x27) then
    set_q (mkQueue (enable qu) (set_byte (desc qu) (off - 0x20) val) (avail qu) (used qu) (last_avail qu) (used_idx qu))
  else if (0x28 <=? off) && (off <=? 0x2F) then
    set_q (mkQueue (enable qu) (desc qu) (set_byte (avail qu) (off - 0x28) val) (used qu) (last_avail qu) (used_idx qu))
  else if (0x30 <=? off) && (off <=? 0x37) then
    set_q (mkQueue (enable qu) (desc qu) (avail qu) (set_byte (used qu) (off - 0x30) val) (last_avail qu) (used_idx qu))
  else n.

Definition write_byte (s : Dev) (off val : Z) : Dev :=
  if off <? 0x38 then with_net s (write_common (net s) off val)
  else if (off =? OFF_NOTIFY) || (off =? OFF_NOTIFY + 1) then with_net s (with_notify (net s) true)
  else s.

Definition access_bytes (size : Z) : Z := if (size =? 1) || (size =? 2) || (size =? 4) || (size =? 8) then size else 4.

Definition mmio_off (s : Dev) (gpa : Z) : Z := (gpa ⊟ Z.land (bar (net s)) BAR_MASK) mod 65536.

Definition mmio_write (s : Dev) (gpa size val : Z) : Dev :=
  let off := mmio_off s gpa in
  foldl (λ s i, write_byte s ((off + i) mod 65536) (get_byte val i)) s (seqZ 0 (access_bytes size)).

Definition common_byte (n : Net) (off : Z) : Z :=
  let qu := queue n (Z.to_nat (Z.min (qsel n) 1)) in
  let feat :=
    if feat_sel n =? 0 then Z.land FEATURES 0xFFFFFFFF
    else if feat_sel n =? 1 then Z.shiftr FEATURES 32 else 0 in
  if off <=? 0x03 then get_byte (feat_sel n) off
  else if off <=? 0x07 then get_byte feat (off - 0x04)
  else if off <=? 0x0B then get_byte (drv_sel n) (off - 0x08)
  else if off <=? 0x0F then get_byte (drv_feat n) (off - 0x0C)
  else if off <=? 0x11 then 0xFF
  else if off =? 0x12 then 2
  else if off =? 0x13 then 0
  else if off =? 0x14 then status n
  else if off =? 0x15 then cfg_gen n
  else if off =? 0x16 then Z.land (qsel n) 0xFF
  else if off =? 0x17 then get_byte (qsel n) 1
  else if off =? 0x18 then Z.land QSIZE 0xFF
  else if off =? 0x19 then get_byte QSIZE 1
  else if off <=? 0x1B then 0xFF
  else if off =? 0x1C then Z.land (enable qu) 0xFF
  else if off =? 0x1D then get_byte (enable qu) 1
  else if (0x20 <=? off) && (off <=? 0x27) then get_byte (desc qu) (off - 0x20)
  else if (0x28 <=? off) && (off <=? 0x2F) then get_byte (avail qu) (off - 0x28)
  else if (0x30 <=? off) && (off <=? 0x37) then get_byte (used qu) (off - 0x30)
  else 0.

Definition common_read (n : Net) (off size : Z) : Z :=
  foldl (λ val i, Z.lor val (Z.shiftl (common_byte n ((off + i) mod 65536)) (8 * i))) 0 (seqZ 0 (access_bytes size)).

Definition link_status_word (carrier : bool) : Z := if carrier then VIRTIO_NET_S_LINK_UP else 0.

(** Reading the interrupt status acknowledges the interrupt and lowers the line. *)
Definition mmio_read (mac : option (list Z)) (carrier : bool) (chips : IrqChip.Irq) (s : Dev) (gpa size : Z)
    : IrqChip.Irq * Dev * Z :=
  let off := mmio_off s gpa in
  if off <? 0x38 then (chips, s, common_read (net s) off size)
  else if off =? 0x100 then
    let v := isr (net s) in
    (if negb (v =? 0) then IrqChip.lower_virtio chips else chips, with_net s (with_isr (net s) 0), v)
  else if (OFF_DEVICE <=? off) && (off <? OFF_DEVICE + 6) then
    (chips, s, default 0 (default (replicate 6 0) mac !! Z.to_nat (off - OFF_DEVICE)))
  else if off =? OFF_DEVICE + DEVCFG_STATUS_OFF then
    (chips, s, Z.land (link_status_word carrier) (if size =? 1 then 0xFF else 0xFFFF))
  else if off =? OFF_DEVICE + DEVCFG_STATUS_OFF + 1 then (chips, s, Z.shiftr (link_status_word carrier) 8)
  else (chips, s, 0).

Definition note_carrier_change (armed : bool) (s : Dev) : Dev :=
  if negb armed then s
  else
    let n := net s in
    let up := negb (Z.land (status n) STATUS_DRIVER_OK =? 0) in
    let n := mkNet (bar n) (sizing n) (cmd n) (feat_sel n) (drv_sel n) (drv_feat n) (status n)
               (if up then Z.lor (isr n) ISR_CONFIG else isr n) ((cfg_gen n + 1) mod 256) (qsel n) (q n) (notify n) (logged n) in
    mkDev n (TX_IRQ_ARM s) (if up then 1 else CFG_IRQ_ARM s) (TX_DONE_N s) (TX_SENT_N s) (TX_HELD_N s) (RX_POSTED_N s).

Definition raise_deferred_tx_irq (iso : bool) (chips : IrqChip.Irq) (s : Dev) : IrqChip.Irq * Dev :=
  let tx := TX_IRQ_ARM s =? 1 in
  let cfg := CFG_IRQ_ARM s =? 1 in
  (if tx || cfg then IrqChip.raise_virtio iso chips else chips,
   mkDev (net s) 0 0 (TX_DONE_N s) (TX_SENT_N s) (TX_HELD_N s) (RX_POSTED_N s)).

(** ** The queues *)

Section Queues.
Context (translate : Z → option Z).

(** One descriptor: address, length, flags, next. *)
Definition read_desc (m : mem) (d_hpa : Z) : Z * Z * Z * Z :=
  (read64 m d_hpa, read32 m (d_hpa + 8), read16 m (d_hpa + 12), read16 m (d_hpa + 14)).

(** The descriptor loop of [drain_one]: the bytes gathered, and whether a part was
    not mapped. *)
Fixpoint tx_chain (fuel : nat) (m : mem) (dtab di : Z) (frame : list Z) : list Z * bool :=
  match fuel with
  | O => (frame, false)
  | S fuel =>
      match translate (dtab ⊞ di * 16) with
      | None => (frame, true)
      | Some d_hpa =>
          let '(addr, len, flags, next) := read_desc m d_hpa in
          let step (frame : list Z) :=
            if Z.land flags 1 =? 0 then (frame, false) else tx_chain fuel m dtab (next mod QSIZE) frame in
          if (Z.land flags 2 =? 0) && (0 <? len) then
            match translate addr with
            | None => (frame, true)
            | Some hpa => step (frame ++ peek m hpa (Z.min len (FRAME_MAX - blen frame)))
            end
          else step frame
      end
  end.

(** The used-ring element and index. *)
Definition write_used (m : mem) (used_base used_slot used_idx head len : Z) : mem :=
  if used_base =? 0 then m
  else
    let m :=
      match translate (used_base ⊞ (4 + used_slot * 8)) with
      | Some hpa => poke (poke m hpa (to_le 4 head)) (hpa + 4) (to_le 4 len)
      | None => m
      end in
    match translate (used_base ⊞ 2) with
    | Some hpa => poke m hpa (to_le 2 used_idx)
    | None => m
    end.

(** Both indices advance; the element goes to the slot of the old used index. *)
Definition advance (s : Dev) (i : nat) (last : Z) : Dev * Z * Z * Z :=
  let n := net s in
  let qu := queue n i in
  let slot := used_idx qu mod QSIZE in
  let idx := inc16 (used_idx qu) in
  let qu' := mkQueue (enable qu) (desc qu) (avail qu) (used qu) (inc16 last) idx in
  (with_net s (with_isr (with_q n (<[i := qu']> (q n))) 1), used qu, slot, idx).

Definition ethernet_from_virtio (buf : list Z) : option (list Z) :=
  if blen buf <? VNET_HDR_LEN then None
  else
    let eth := drop (Z.to_nat VNET_HDR_LEN) buf in
    if blen eth <? 14 then None else Some eth.

Definition count_send (sent : bool) (s : Dev) : Dev :=
  mkDev (net s) (TX_IRQ_ARM s) (CFG_IRQ_ARM s) (inc32 (TX_DONE_N s))
    (if sent then inc32 (TX_SENT_N s) else TX_SENT_N s) (if sent then TX_HELD_N s else inc32 (TX_HELD_N s)) (RX_POSTED_N s).

(** The frame handed to [egress_send], if any; [send] is whether the port takes it. *)
Definition drain_one (send : list Z → bool) (m : mem) (s : Dev) : mem * Dev * option (list Z) * bool :=
  let qu := queue (net s) 1 in
  if (enable qu =? 0) || (desc qu =? 0) || (avail qu =? 0) then (m, with_net s (with_notify (net s) false), None, false)
  else
    match translate (avail qu) with
    | None => (m, s, None, false)
    | Some avail_hpa =>
        let idx := read16 m (avail_hpa + 2) in
        let last := last_avail qu in
        if idx =? last then (m, with_net s (with_notify (net s) false), None, false)
        else
          match translate (avail qu ⊞ (4 + last mod QSIZE * 2)) with
          | None => (m, s, None, false)
          | Some ent_hpa =>
              let head := read16 m ent_hpa in
              let '(frame, unmapped) := tx_chain CHAIN_MAX m (desc qu) (head mod QSIZE) [] in
              let '(s, used_base, used_slot, used_idx) := advance s 1 last in
              let s := with_net s (with_notify (net s) false) in
              let m := write_used m used_base used_slot used_idx head (blen frame) in
              let s := set_tx_arm s in
              if (unmapped : bool) then (m, s, None, true)
              else
                match ethernet_from_virtio frame with
                | None => (m, s, None, true)
                | Some eth => (m, count_send (send eth) s, Some eth, true)
                end
          end
    end.

(** At most [fuel] buffers; the frames handed over, in order. *)
Fixpoint drain_loop (fuel : nat) (send : list Z → bool) (m : mem) (s : Dev) : mem * Dev * list (list Z) :=
  match fuel with
  | O => (m, s, [])
  | S fuel =>
      let '(m, s, f, more) := drain_one send m s in
      if (more : bool) then
        let '(m, s, fs) := drain_loop fuel send m s in
        (m, s, match f with Some f => f :: fs | None => fs end)
      else (m, s, [])
  end.

Definition drain (armed : bool) (send : list Z → bool) (m : mem) (s : Dev) : mem * Dev * list (list Z) :=
  if negb armed then (m, s, []) else drain_loop (Z.to_nat QSIZE) send m s.

(** The descriptor loop of [post_rx]: [None] when a part is not mapped, otherwise how
    much of the packet is written. *)
Fixpoint rx_chain (fuel : nat) (m : mem) (dtab di : Z) (pkt : list Z) (off : Z) : mem * option Z :=
  match fuel with
  | O => (m, Some off)
  | S fuel =>
      if off =? blen pkt then (m, Some off)
      else
        match translate (dtab ⊞ di * 16) with
        | None => (m, None)
        | Some d_hpa =>
            let '(addr, len, flags, next) := read_desc m d_hpa in
            let step (m : mem) (off : Z) :=
              if Z.land flags 1 =? 0 then (m, Some off) else rx_chain fuel m dtab (next mod QSIZE) pkt off in
            if negb (Z.land flags 2 =? 0) && (0 <? len) then
              match translate addr with
              | None => (m, None)
              | Some hpa =>
                  let take := Z.min len (blen pkt - off) in
                  step (poke m hpa (slice off take pkt)) (off + take)
              end
            else step m off
        end
  end.

Definition rx_packet (eth : list Z) : list Z := replicate (Z.to_nat VNET_HDR_LEN) 0 ++ eth.

Definition count_posted (s : Dev) : Dev :=
  mkDev (net s) (TX_IRQ_ARM s) (CFG_IRQ_ARM s) (TX_DONE_N s) (TX_SENT_N s) (TX_HELD_N s) (inc32 (RX_POSTED_N s)).

Definition post_rx (eth : list Z) (m : mem) (s : Dev) : mem * Dev * bool :=
  if (blen eth <? 14) || (1514 <? blen eth) then (m, s, false)
  else
    let qu := queue (net s) 0 in
    if (enable qu =? 0) || (desc qu =? 0) || (avail qu =? 0) then (m, s, false)
    else
      match translate (avail qu) with
      | None => (m, s, false)
      | Some avail_hpa =>
          let idx := read16 m (avail_hpa + 2) in
          let last := last_avail qu in
          if idx =? last then (m, s, false)
          else
            match translate (avail qu ⊞ (4 + last mod QSIZE * 2)) with
            | None => (m, s, false)
            | Some ent_hpa =>
                let head := read16 m ent_hpa in
                let pkt := rx_packet eth in
                match rx_chain CHAIN_MAX m (desc qu) (head mod QSIZE) pkt 0 with
                | (m, None) => (m, s, false)
                | (m, Some off) =>
                    if negb (off =? blen pkt) then (m, s, false)
                    else
                      let '(s, used_base, used_slot, used_idx) := advance s 0 last in
                      let m := write_used m used_base used_slot used_idx head (blen pkt) in
                      (m, count_posted (set_tx_arm s), true)
                end
            end
      end.

(** [frames] is what the port has received, oldest first. *)
Fixpoint poll_loop (fuel : nat) (frames : list (list Z)) (m : mem) (s : Dev) : mem * Dev * list (list Z) :=
  match fuel, frames with
  | O, _ => (m, s, frames)
  | _, [] => (m, s, [])
  | S fuel, eth :: frames =>
      if blen eth <? 14 then poll_loop fuel frames m s
      else
        let '(m, s, ok) := post_rx eth m s in
        if (ok : bool) then poll_loop fuel frames m s else (m, s, frames)
  end.

Definition poll_rx (armed : bool) (frames : list (list Z)) (m : mem) (s : Dev) : mem * Dev * list (list Z) :=
  if negb armed then (m, s, frames) else poll_loop 4 frames m s.

End Queues.

(** ** Confinement *)

Section Confined.
Context (translate : Z → option Z) (owned : Z → Prop).

(** What the device may touch: [FRAME_MAX] bytes from a translated address on. *)
Definition spans : Prop := ∀ g h k, translate g = Some h → 0 ≤ k < FRAME_MAX → owned (h + k).

Local Notation agree := (GuestRam.agree owned).
Local Notation peek_agree := (GuestRam.peek_agree owned).
Local Notation poke_agree := (GuestRam.poke_agree owned).
Local Notation poke_outside := (GuestRam.poke_outside owned).

(** A step on memory reads and writes owned bytes only. *)
Definition confined {A} (f : mem → mem * A) : Prop :=
  ∀ m1 m2, agree m1 m2 →
    (f m1).2 = (f m2).2 ∧ agree (f m1).1 (f m2).1 ∧ ∀ x, ¬ owned x → (f m1).1 x = m1 x.

Context (Span : spans).

Lemma span_at g h i n : translate g = Some h → 0 ≤ i → i + n ≤ FRAME_MAX → ∀ k, 0 ≤ k < n → owned (h + i + k).
Proof. intros T Hi Hn k Hk. rewrite <-Z.add_assoc. eapply Span; [done|lia]. Qed.

Lemma read16_agree m1 m2 g h i : agree m1 m2 → translate g = Some h → 0 ≤ i → i + 2 ≤ FRAME_MAX →
  read16 m1 (h + i) = read16 m2 (h + i).
Proof. intros. unfold read16. f_equal. apply peek_agree; [done|by eapply span_at]. Qed.

Lemma desc_agree m1 m2 g h : agree m1 m2 → translate g = Some h → read_desc m1 h = read_desc m2 h.
Proof.
  intros A T. unfold read_desc. rewrite !(read16_agree m1 m2 g h) by (done || by vm_compute).
  unfold read64, read32. rewrite !(peek_agree m1 m2); [done|done| |done|].
  - eapply span_at; [done|lia|by vm_compute].
  - intros k Hk. rewrite <-(Z.add_0_r h). by eapply (span_at g h 0 8); [done|lia|by vm_compute|].
Qed.

Lemma tx_chain_agree fuel m1 m2 dtab : agree m1 m2 → ∀ di frame,
  tx_chain translate fuel m1 dtab di frame = tx_chain translate fuel m2 dtab di frame.
Proof.
  intros A. induction fuel as [|fuel IH]; intros di frame; [done|]. cbn [tx_chain].
  destruct (translate (dtab ⊞ di * 16)) as [d|] eqn:T; [|done]. rewrite (desc_agree m1 m2 _ _ A T).
  destruct (read_desc m2 d) as [[[addr len] flags] next]. destruct (_ && _).
  - destruct (translate addr) as [h|] eqn:T2; [|done].
    rewrite (peek_agree m1 m2); [by rewrite IH|done|].
    intros k Hk. rewrite <-(Z.add_0_r h). eapply (span_at addr h 0); [done|lia| |exact Hk].
    unfold blen. lia.
  - by rewrite IH.
Qed.

Lemma write_used_confined base slot idx head len :
  confined (λ m, (write_used translate m base slot idx head len, tt)).
Proof.
  intros m1 m2 A. unfold write_used. cbn [fst snd]. split; [done|]. destruct (base =? 0); [done|].
  assert (∀ m g h i n z x, translate g = Some h → 0 ≤ i → i + Z.of_nat n ≤ FRAME_MAX → ¬ owned x →
    poke m (h + i) (to_le n z) x = m x) as O.
  { intros m g h i n z x T Hi Hn Nx. apply poke_outside; [|done]. rewrite blen_to_le. by eapply span_at. }
  assert (∀ m g h n z x, translate g = Some h → Z.of_nat n ≤ FRAME_MAX → ¬ owned x → poke m h (to_le n z) x = m x) as O0.
  { intros m g h n z x T Hn Nx. rewrite <-(Z.add_0_r h). by eapply O. }
  destruct (translate (base ⊞ (4 + slot * 8))) as [h|] eqn:T1; destruct (translate (base ⊞ 2)) as [h2|] eqn:T2;
    (split; [repeat apply poke_agree; exact A|]); intros x Nx;
    rewrite ?(O0 _ _ h2 2%nat _ _ T2), ?(O _ _ h 4 4%nat _ _ T1), ?(O0 _ _ h 4%nat _ _ T1) by (done || by vm_compute); done.
Qed.

Lemma rx_chain_confined fuel dtab pkt : blen pkt ≤ FRAME_MAX → ∀ di off, 0 ≤ off ≤ blen pkt →
  confined (λ m, rx_chain translate fuel m dtab di pkt off).
Proof.
  intros Hp. induction fuel as [|fuel IH]; intros di off Ho m1 m2 A; [done|]. cbn [rx_chain].
  destruct (off =? blen pkt); [done|]. destruct (translate (dtab ⊞ di * 16)) as [d|] eqn:T; [|done].
  rewrite (desc_agree m1 m2 _ _ A T). destruct (read_desc m2 d) as [[[addr len] flags] next].
  assert (∀ off' m1' m2', 0 ≤ off' ≤ blen pkt → agree m1' m2' →
    let f m := if Z.land flags 1 =? 0 then (m, Some off') else rx_chain translate fuel m dtab (next mod QSIZE) pkt off' in
    (f m1').2 = (f m2').2 ∧ agree (f m1').1 (f m2').1 ∧ ∀ x, ¬ owned x → (f m1').1 x = m1' x) as Step.
  { intros off' m1' m2' Ho' A'. cbv zeta. destruct (Z.land flags 1 =? 0); [done|]. by apply IH. }
  destruct (negb _ && _) eqn:F; [|by apply Step].
  destruct (translate addr) as [h|] eqn:T2; [|done]. apply andb_true_iff in F as [_ F%Z.ltb_lt].
  set (n := Z.min len (blen pkt - off)) in *.
  assert (blen (slice off n pkt) ≤ FRAME_MAX) as Hs.
  { unfold blen, slice. rewrite length_take, length_drop. unfold blen in Hp. lia. }
  destruct (Step (off + n) (poke m1 h (slice off n pkt)) (poke m2 h (slice off n pkt))) as (R & Ag & Out);
    [unfold n; lia|by apply poke_agree|]. split_and!; [exact R|exact Ag|]. intros x Nx. rewrite Out by done.
  apply poke_outside; [|done]. intros k Hk. eapply Span; [done|]. lia.
Qed.

Lemma blen_packet eth : blen (rx_packet eth) = VNET_HDR_LEN + blen eth.
Proof. unfold blen, rx_packet. rewrite length_app, length_replicate. unfold VNET_HDR_LEN. lia. Qed.

Lemma drain_one_confined send s :
  confined (λ m, let '(m', s', f, more) := drain_one translate send m s in (m', (s', f, more))).
Proof.
  intros m1 m2 A. unfold drain_one. destruct (_ || _); [done|]. destruct (translate (avail _)) as [ha|] eqn:Ta; [|done].
  rewrite (read16_agree m1 m2 _ ha 2 A Ta) by (done || by vm_compute). destruct (_ =? _); [done|].
  destruct (translate (_ ⊞ (4 + _))) as [he|] eqn:Te; [|done].
  assert (read16 m1 he = read16 m2 he) as ->.
  { rewrite <-(Z.add_0_r he). eapply read16_agree; [done|done|lia|by vm_compute]. }
  rewrite (tx_chain_agree CHAIN_MAX m1 m2 _ A). destruct (tx_chain translate CHAIN_MAX m2 _ _ _) as [frame un].
  destruct (advance s 1 _) as [[[s1 ub] us] ui].
  destruct (write_used_confined ub us ui (read16 m2 he) (blen frame) m1 m2 A) as (_ & Ag & Out).
  destruct un; [done|]. destruct (ethernet_from_virtio frame); done.
Qed.

Lemma post_rx_confined eth s : confined (λ m, let '(m', s', ok) := post_rx translate eth m s in (m', (s', ok))).
Proof.
  intros m1 m2 A. unfold post_rx. destruct (Z.ltb_spec (blen eth) 14); [done|]. destruct (Z.ltb_spec 1514 (blen eth)); [done|]. cbn [orb].
  destruct (_ || _); [done|]. destruct (translate (avail _)) as [ha|] eqn:Ta; [|done].
  rewrite (read16_agree m1 m2 _ ha 2 A Ta) by (done || by vm_compute). destruct (_ =? _); [done|].
  destruct (translate (_ ⊞ (4 + _))) as [he|] eqn:Te; [|done].
  assert (read16 m1 he = read16 m2 he) as ->.
  { rewrite <-(Z.add_0_r he). eapply read16_agree; [done|done|lia|by vm_compute]. }
  pose proof (blen_packet eth) as Lp.
  destruct (rx_chain_confined CHAIN_MAX (desc (queue (net s) 0)) (rx_packet eth) ltac:(unfold FRAME_MAX; lia)
    (read16 m2 he mod QSIZE) 0 ltac:(unfold VNET_HDR_LEN in *; lia) m1 m2 A) as (R & Ag & Out).
  destruct (rx_chain translate CHAIN_MAX m1 _ _ _ _) as [m1' r1], (rx_chain translate CHAIN_MAX m2 _ _ _ _) as [m2' r2].
  cbn [fst snd] in R, Ag, Out. subst r2. destruct r1 as [off|]; [|done]. destruct (negb _); [done|].
  destruct (advance s 0 _) as [[[s1 ub] us] ui].
  destruct (write_used_confined ub us ui (read16 m2 he) (blen (rx_packet eth)) m1' m2' Ag) as (_ & Ag' & Out').
  split_and!; [done|done|]. intros x Nx. cbn [fst] in *. rewrite Out' by done. by apply Out.
Qed.

Lemma drain_loop_confined fuel send : ∀ s,
  confined (λ m, let '(m', s', fs) := drain_loop translate fuel send m s in (m', (s', fs))).
Proof.
  induction fuel as [|fuel IH]; intros s m1 m2 Ag; [done|]. cbn [drain_loop].
  destruct (drain_one_confined send s m1 m2 Ag) as (R & Ag' & Out).
  destruct (drain_one translate send m1 s) as [[[m1' s1] f1] b1], (drain_one translate send m2 s) as [[[m2' s2] f2] b2].
  cbn [fst snd] in R, Ag', Out. injection R as -> -> ->. destruct b2; [|done].
  destruct (IH s2 m1' m2' Ag') as (R2 & Ag2 & Out2).
  destruct (drain_loop translate fuel send m1' s2) as [[m1'' s1''] fs1], (drain_loop translate fuel send m2' s2) as [[m2'' s2''] fs2].
  cbn [fst snd] in *. injection R2 as -> ->. split_and!; [done|done|]. intros x Nx. rewrite Out2 by done. by apply Out.
Qed.

Lemma poll_loop_confined fuel : ∀ frames s,
  confined (λ m, let '(m', s', fs) := poll_loop translate fuel frames m s in (m', (s', fs))).
Proof.
  induction fuel as [|fuel IH]; intros frames s m1 m2 Ag; [by destruct frames|]. destruct frames as [|eth frames]; [done|].
  cbn [poll_loop]. destruct (blen eth <? 14); [by apply IH|].
  destruct (post_rx_confined eth s m1 m2 Ag) as (R & Ag' & Out).
  destruct (post_rx translate eth m1 s) as [[m1' s1] b1], (post_rx translate eth m2 s) as [[m2' s2] b2].
  cbn [fst snd] in R, Ag', Out. injection R as -> ->. destruct b2; [|done].
  destruct (IH frames s2 m1' m2' Ag') as (R2 & Ag2 & Out2). split_and!; [done|done|]. intros x Nx. rewrite Out2 by done. by apply Out.
Qed.

End Confined.

(** The hypervisor's own translation, on the 64-bit value of an address. *)
Definition gpa_to_hpa (h : Slots) (g : Z) : option Z := mapped h (g mod W64).

(** A host byte of the guest's regions, or less than a frame behind one. *)
Definition near (h : Slots) (x : Z) : Prop := ∃ k, 0 ≤ k < FRAME_MAX ∧ backed h (x - k).

Lemma gpa_to_hpa_spans h : slots_ok h → spans (gpa_to_hpa h) (near h).
Proof.
  intros O g x k T K. unfold gpa_to_hpa in T. exists k. split; [done|]. replace (x + k - k) with x by lia.
  destruct (mapped_at h (g mod W64) x O (Z.mod_pos_bound g W64 eq_refl) T) as (i & r & R & N & B & _).
  exists r. split; [by eapply list_elem_of_lookup_2|done].
Qed.

(** C27: How far the card gets. Over the hypervisor's own translation a transmit run and a
    receive poll, whatever rings and descriptors the guest writes, change no byte that
    is not the guest's or within a frame (1526 bytes) behind one of its regions, and
    what they do (the frames sent, the new state of the device and of that memory) does
    not depend on any other byte. The margin is needed: [rx_escapes]. *)
Theorem net_confined (h : Slots) (armed : bool) (send : list Z → bool) (frames : list (list Z)) (s : Dev) :
  slots_ok h →
  confined (near h) (λ m, let '(m', s', fs) := drain (gpa_to_hpa h) armed send m s in (m', (s', fs))) ∧
  confined (near h) (λ m, let '(m', s', fs) := poll_rx (gpa_to_hpa h) armed frames m s in (m', (s', fs))).
Proof.
  intros O. pose proof (gpa_to_hpa_spans h O) as Sp. unfold drain, poll_rx. destruct armed; cbn [negb]; [|done].
  split; [by apply drain_loop_confined|by apply poll_loop_confined].
Qed.

(** ** What a transmit run completes *)

Section Drain.
Context (translate : Z → option Z).

(** The rings of a queue are mapped contiguously and apart, as a driver lays them out. *)
Record rings (qu : Queue) (ha hu : Z) : Prop := {
  rg_enable : enable qu ≠ 0;
  rg_desc : desc qu ≠ 0;
  rg_base : avail qu ≠ 0 ∧ used qu ≠ 0;
  rg_head : translate (avail qu) = Some ha;
  rg_avail : ∀ k, 0 ≤ k < 4 + 2 * QSIZE → translate (avail qu ⊞ k) = Some (ha + k);
  rg_used : ∀ k, 0 ≤ k < 4 + 8 * QSIZE → translate (used qu ⊞ k) = Some (hu + k);
  rg_apart : ha + 4 + 2 * QSIZE ≤ hu ∨ hu + 4 + 8 * QSIZE ≤ ha;
  rg_last : 0 ≤ last_avail qu < 65536;
  rg_idx : 0 ≤ used_idx qu < 65536;
}.

(** Both indices have moved on by [n]. *)
Definition moved (qu : Queue) (n : Z) : Queue :=
  mkQueue (enable qu) (desc qu) (avail qu) (used qu) ((last_avail qu + n) mod 65536) ((used_idx qu + n) mod 65536).

Definition published (m : mem) (ha : Z) (qu : Queue) : Z := (read16 m (ha + 2) - last_avail qu) mod 65536.

(** The bytes of the used ring written while [n] buffers are completed. *)
Definition touched (hu u n x : Z) : Prop :=
  (0 < n ∧ hu + 2 ≤ x < hu + 4) ∨ ∃ j, 0 ≤ j < n ∧ hu + 4 + 8 * ((u + j) mod QSIZE) ≤ x < hu + 12 + 8 * ((u + j) mod QSIZE).

Lemma moved_rings qu ha hu n : rings qu ha hu → rings (moved qu n) ha hu.
Proof. intros []. split; try done; apply Z.mod_pos_bound; done. Qed.

Lemma moved_0 qu ha hu : rings qu ha hu → moved qu 0 = qu.
Proof. intros []. unfold moved. rewrite !Z.add_0_r, !Z.mod_small by done. by destruct qu. Qed.

Lemma moved_moved qu a b : moved (moved qu a) b = moved qu (a + b).
Proof. unfold moved. cbn [enable desc avail used last_avail used_idx]. by rewrite !Zplus_mod_idemp_l, !Z.add_assoc. Qed.

Lemma write_used_mem m qu ha hu idx head len : rings qu ha hu →
  write_used translate m (used qu) (used_idx qu mod QSIZE) idx head len =
  poke (poke (poke m (hu + (4 + used_idx qu mod QSIZE * 8)) (to_le 4 head))
    (hu + (4 + used_idx qu mod QSIZE * 8) + 4) (to_le 4 len)) (hu + 2) (to_le 2 idx).
Proof.
  intros R. unfold write_used. rewrite (proj2 (Z.eqb_neq _ _)) by apply (rg_base _ _ _ R).
  pose proof (Z.mod_pos_bound (used_idx qu) QSIZE eq_refl). rewrite !(rg_used _ _ _ R); [done|..]; unfold QSIZE in *; lia.
Qed.

Lemma drain_one_step send m s ha hu :
  let qu := queue (net s) 1 in
  rings qu ha hu → length (q (net s)) = 2%nat →
  let '(m', s', f, more) := drain_one translate send m s in
  notify (net s') = false ∧ length (q (net s')) = 2%nat ∧ ∃ len,
  if read16 m (ha + 2) =? last_avail qu then more = false ∧ m' = m ∧ queue (net s') 1 = qu
  else more = true ∧ queue (net s') 1 = moved qu 1 ∧
    m' = poke (poke (poke m (hu + (4 + used_idx qu mod QSIZE * 8))
           (to_le 4 (read16 m (ha + (4 + last_avail qu mod QSIZE * 2)))))
           (hu + (4 + used_idx qu mod QSIZE * 8) + 4) (to_le 4 len)) (hu + 2) (to_le 2 ((used_idx qu + 1) mod 65536)).
Proof.
  intros qu R L. pose proof R as [R1 R2 [R3 R3'] R4 R5 _ _ R6 R7]. unfold drain_one. fold qu.
  rewrite !(proj2 (Z.eqb_neq _ 0)) by done. cbn [orb]. rewrite R4.
  destruct (Z.eqb_spec (read16 m (ha + 2)) (last_avail qu)) as [E|E].
  { split_and!; [done|done|]. exists 0. done. }
  pose proof (Z.mod_pos_bound (last_avail qu) QSIZE eq_refl). rewrite R5 by (unfold QSIZE in *; lia).
  set (head := read16 m (ha + (4 + last_avail qu mod QSIZE * 2))).
  destruct (tx_chain translate CHAIN_MAX m (desc qu) (head mod QSIZE) []) as [frame un].
  unfold advance. fold qu. rewrite (write_used_mem m qu ha hu) by done.
  set (s1 := set_tx_arm _).
  assert (notify (net s1) = false ∧ length (q (net s1)) = 2%nat ∧ queue (net s1) 1 = moved qu 1) as (N1 & N2 & N3).
  { unfold s1. cbn [net set_tx_arm with_net notify with_notify q with_isr with_q]. split_and!; [done|by rewrite length_insert|].
    unfold queue. cbn [q with_notify with_isr with_q]. by rewrite list_lookup_insert_eq by lia. }
  destruct un; [by split_and!; [..|exists (blen frame)]|].
  destruct (ethernet_from_virtio frame) as [eth|]; [|by split_and!; [..|exists (blen frame)]].
  cbn [net count_send]. by split_and!; [..|exists (blen frame)].
Qed.

(** One element: the head is where it belongs, the index is published, the rest stays. *)
Lemma element_written m hu slot head len idx :
  0 ≤ slot < QSIZE → 0 ≤ head < 65536 → 0 ≤ idx < 65536 →
  let m' := poke (poke (poke m (hu + (4 + slot * 8)) (to_le 4 head)) (hu + (4 + slot * 8) + 4) (to_le 4 len)) (hu + 2) (to_le 2 idx) in
  read32 m' (hu + 4 + 8 * slot) = head ∧ read16 m' (hu + 2) = idx ∧
  ∀ x, ¬ (hu + 2 ≤ x < hu + 4 ∨ hu + 4 + 8 * slot ≤ x < hu + 12 + 8 * slot) → m' x = m x.
Proof.
  intros S H I m'. unfold m', read32, read16. split_and!.
  - rewrite !peek_poke_other by (rewrite blen_to_le; lia). replace (hu + (4 + slot * 8)) with (hu + 4 + 8 * slot) by lia.
    rewrite <-(from_to_le 4 head) at 2 by (cbn; lia). f_equal. apply peek_poke_same.
  - rewrite <-(from_to_le 2 idx) at 2 by (cbn; lia). f_equal. apply peek_poke_same.
  - intros x N. rewrite !poke_other by (rewrite blen_to_le; lia). done.
Qed.

Lemma slot_distinct u j : 1 ≤ j < QSIZE → (u + j) mod QSIZE ≠ u mod QSIZE.
Proof. unfold QSIZE. intros J E. Z.to_euclidean_division_equations. lia. Qed.

Lemma slot_wrap u j : ((u + 1) mod 65536 + j) mod QSIZE = (u + (j + 1)) mod QSIZE.
Proof. unfold QSIZE. Z.to_euclidean_division_equations. lia. Qed.

(** What the rest of a run touches, counted from its start. *)
Lemma touched_next hu u n x : touched hu ((u + 1) mod 65536) n x ↔
  (0 < n ∧ hu + 2 ≤ x < hu + 4) ∨ ∃ j, 1 ≤ j < n + 1 ∧ hu + 4 + 8 * ((u + j) mod QSIZE) ≤ x < hu + 12 + 8 * ((u + j) mod QSIZE).
Proof.
  unfold touched. apply or_iff_compat_l. split; intros (j & J & K).
  - exists (j + 1). rewrite slot_wrap in K. split; [lia|done].
  - exists (j - 1). rewrite slot_wrap, Z.sub_add. split; [lia|done].
Qed.

Lemma published_next m m1 ha qu : 0 ≤ read16 m (ha + 2) < 65536 → 0 ≤ last_avail qu < 65536 →
  read16 m1 (ha + 2) = read16 m (ha + 2) → read16 m (ha + 2) ≠ last_avail qu →
  published m1 ha (moved qu 1) = published m ha qu - 1 ∧ 0 < published m ha qu.
Proof.
  intros R L E N. unfold published. rewrite E. cbn [last_avail moved]. rewrite Zminus_mod_idemp_r.
  split; Z.to_euclidean_division_equations; lia.
Qed.

Lemma drain_loop_exact send ha hu : ∀ fuel m s,
  let qu := queue (net s) 1 in
  rings qu ha hu → length (q (net s)) = 2%nat → bytes_in m → (fuel ≤ Z.to_nat QSIZE)%nat →
  let n := Z.min (Z.of_nat fuel) (published m ha qu) in
  let '(m', s', fs) := drain_loop translate fuel send m s in
  queue (net s') 1 = moved qu n ∧ Z.of_nat (length fs) ≤ n ∧ (0 < Z.of_nat fuel → notify (net s') = false) ∧
  (0 < n → read16 m' (hu + 2) = used_idx (moved qu n)) ∧
  (∀ j, 0 ≤ j < n → read32 m' (hu + 4 + 8 * ((used_idx qu + j) mod QSIZE)) = read16 m (ha + (4 + (last_avail qu + j) mod QSIZE * 2))) ∧
  (∀ x, ¬ touched hu (used_idx qu) n x → m' x = m x).
Proof.
  induction fuel as [|fuel IH]; intros m s qu R L B F n.
  { unfold published in n. pose proof (Z.mod_pos_bound (read16 m (ha + 2) - last_avail qu) 65536 eq_refl).
    assert (n = 0) as N0 by (unfold n; lia). clearbody n. subst n. cbn [drain_loop]. rewrite (moved_0 qu ha hu R).
    split_and!; try done; intros; cbn in *; lia. }
  cbn [drain_loop]. pose proof (drain_one_step send m s ha hu R L) as X. fold qu in X.
  destruct (drain_one translate send m s) as [[[m1 s1] f] more]. destruct X as (N1 & L1 & len & X).
  pose proof (read16_range m (ha + 2) B) as RI. pose proof (rg_last _ _ _ R) as RL.
  destruct (Z.eqb_spec (read16 m (ha + 2)) (last_avail qu)) as [E|E].
  { destruct X as (-> & -> & Q). assert (n = 0) as N0 by (unfold n, published; rewrite E, Z.sub_diag; change (0 mod 65536) with 0; lia).
    clearbody n. subst n. rewrite Q, (moved_0 qu ha hu R). split_and!; try done; intros; lia. }
  destruct X as (-> & Q & M).
  set (head := read16 m (ha + (4 + last_avail qu mod QSIZE * 2))) in *.
  set (slot := used_idx qu mod QSIZE) in *.
  pose proof (Z.mod_pos_bound (used_idx qu) QSIZE eq_refl) as Sl. fold slot in Sl.
  destruct (element_written m hu slot head len ((used_idx qu + 1) mod 65536)) as (W1 & W2 & W3);
    [done|by apply read16_range|by apply Z.mod_pos_bound|]. cbv zeta in W1, W2, W3. rewrite <-M in W1, W2, W3.
  assert (bytes_in m1) as B1 by (rewrite M; repeat apply poke_bytes; [done|apply to_le_bytes..]).
  assert (∀ k, 0 ≤ k → k + 2 ≤ 4 + 2 * QSIZE → read16 m1 (ha + k) = read16 m (ha + k)) as Av.
  { intros k K1 K2. pose proof (rg_apart _ _ _ R). unfold QSIZE in *. apply read16_ext; apply W3; lia. }
  destruct (published_next m m1 ha qu) as [P Pp]; [done|done|apply Av; unfold QSIZE; lia|done|].
  specialize (IH m1 s1). cbv zeta in IH. rewrite Q in IH. rewrite P in IH.
  assert (n = Z.min (Z.of_nat fuel) (published m ha qu - 1) + 1) as Nn.
  { unfold n. lia. }
  set (n1 := Z.min (Z.of_nat fuel) (published m ha qu - 1)) in *. clearbody n. subst n.
  assert (0 ≤ n1 < QSIZE) as Hn1 by (unfold n1, QSIZE in *; lia).
  destruct (drain_loop translate fuel send m1 s1) as [[m2 s2] fs] eqn:DL.
  destruct IH as (I1 & I2 & I3 & I4 & I5 & I6); [by apply moved_rings|done|done|lia|].
  rewrite moved_moved in I1, I4. cbn [used_idx last_avail moved] in I4, I5, I6. rewrite (Z.add_comm 1 n1) in I1, I4.
  split_and!; [exact I1|destruct f; cbn [length]; lia| | | |].
  - intros _. destruct fuel; [|by apply I3; lia]. by injection DL as <- <- <-.
  - intros _. destruct (decide (n1 = 0)) as [Z0|Z0]; [|by apply I4; lia]. rewrite Z0. cbn [used_idx moved]. rewrite Z.add_0_l, <-W2.
    apply read16_ext; apply I6; rewrite touched_next; rewrite Z0; intros [?|(j & ? & _)]; lia.
  - intros j J. destruct (decide (j = 0)) as [->|J0].
    + rewrite !Z.add_0_r. fold slot head. rewrite <-W1. unfold read32. f_equal. apply peek_ext. intros x Hx.
      apply I6. rewrite touched_next. intros [?|(j & Hj & K)]; [lia|].
      pose proof (slot_distinct (used_idx qu) j ltac:(lia)) as D. fold slot in D. lia.
    + specialize (I5 (j - 1) ltac:(lia)). rewrite !slot_wrap, Z.sub_add in I5. rewrite I5. apply Av.
      all: pose proof (Z.mod_pos_bound (last_avail qu + j) QSIZE eq_refl); unfold QSIZE in *; lia.
  - intros x N. unfold touched in N. rewrite I6.
    + apply W3. intros [K|K]; apply N; [left; lia|right; exists 0; rewrite Z.add_0_r; fold slot; lia].
    + rewrite touched_next. intros [K|(j & Hj & K)]; apply N; [left; lia|right; exists j; split; [lia|done]].
Qed.

(** A transmit run completes exactly what the guest has published. With the rings
    mapped and apart, [drain] takes the buffers from its last index up to the guest's,
    256 at most; each of them, in order, is returned in the used ring under its own head,
    the used index the guest reads is the device's, both indices have moved by that
    number, at most one frame per buffer is sent, and no other byte of memory changes. *)
Theorem drain_exact send ha hu m s :
  let qu := queue (net s) 1 in
  rings qu ha hu → length (q (net s)) = 2%nat → bytes_in m →
  let n := Z.min QSIZE (published m ha qu) in
  let '(m', s', fs) := drain translate true send m s in
  queue (net s') 1 = moved qu n ∧ Z.of_nat (length fs) ≤ n ∧ notify (net s') = false ∧
  (0 < n → read16 m' (hu + 2) = used_idx (moved qu n)) ∧
  (∀ j, 0 ≤ j < n → read32 m' (hu + 4 + 8 * ((used_idx qu + j) mod QSIZE)) = read16 m (ha + (4 + (last_avail qu + j) mod QSIZE * 2))) ∧
  (∀ x, ¬ touched hu (used_idx qu) n x → m' x = m x).
Proof.
  intros qu R L B n. pose proof (drain_loop_exact send ha hu (Z.to_nat QSIZE) m s R L B ltac:(lia)) as X. fold qu in X.
  unfold drain. cbn [negb]. destruct (drain_loop translate (Z.to_nat QSIZE) send m s) as [[m' s'] fs].
  rewrite Z2Nat.id in X by done. fold n in X. destruct X as (X1 & X2 & X3 & X4). split_and!; try done; [by apply X3|apply X4..].
Qed.

End Drain.

(** ** A frame past the end of guest memory *)

(** A receive queue in low memory whose next buffer starts at the last byte of it. *)
Record edge_buffer (h : Slots) (m : mem) (qu : Queue) (size : Z) : Prop := {
  eb_enable : enable qu ≠ 0;
  eb_desc : 0 < desc qu ∧ desc qu + 16 * QSIZE ≤ Hw.GUEST_UEFI_LOW_RAM_BYTES;
  eb_avail : 0 < avail qu ∧ avail qu + 4 + 2 * QSIZE ≤ Hw.GUEST_UEFI_LOW_RAM_BYTES;
  eb_used : 0 < used qu ∧ used qu + 4 + 8 * QSIZE < Hw.GUEST_UEFI_LOW_RAM_BYTES;
  eb_published : read16 m (RAM_HPA h + avail qu + 2) ≠ last_avail qu;
  eb_buffer : ∃ len next,
    let head := read16 m (RAM_HPA h + (avail qu + (4 + last_avail qu mod QSIZE * 2))) in
    read_desc m (RAM_HPA h + (desc qu + head mod QSIZE * 16)) = (Hw.GUEST_UEFI_LOW_RAM_BYTES - 1, len, 2, next) ∧ size ≤ len;
}.

Lemma write_used_below h m base slot idx head len x : slots_ok h → RAM_HPA h ≠ 0 → 0 ≤ slot < QSIZE →
  0 < base ∧ base + 4 + 8 * QSIZE < Hw.GUEST_UEFI_LOW_RAM_BYTES → RAM_HPA h + Hw.GUEST_UEFI_LOW_RAM_BYTES ≤ x →
  write_used (mapped h) m base slot idx head len x = m x.
Proof.
  intros O R S B X. unfold write_used, QSIZE, Hw.GUEST_UEFI_LOW_RAM_BYTES in *. rewrite (proj2 (Z.eqb_neq _ _)) by lia.
  rewrite !add64_small by mlia. rewrite !mapped_ram by (unfold Hw.GUEST_UEFI_LOW_RAM_BYTES; done || lia).
  rewrite !poke_other by (rewrite blen_to_le; lia). done.
Qed.

(** C28: A received frame can leave the guest's memory. [translate] is asked for the
    first byte of a buffer only: when the guest publishes a receive buffer at the last
    byte of its low memory, the frame is accepted and all of it but the first header
    byte is written to the host memory that follows the slab. *)
Theorem rx_escapes (h : Slots) (m : mem) (s : Dev) (eth : list Z) :
  slots_ok h → RAM_HPA h ≠ 0 → 14 ≤ blen eth ≤ 1514 →
  edge_buffer h m (queue (net s) 0) (VNET_HDR_LEN + blen eth) →
  let '(m', s', ok) := post_rx (mapped h) eth m s in
  ok = true ∧
  ∀ k, 0 ≤ k < VNET_HDR_LEN + blen eth - 1 →
    m' (RAM_HPA h + Hw.GUEST_UEFI_LOW_RAM_BYTES + k) = default 0 (rx_packet eth !! Z.to_nat (k + 1)).
Proof.
  intros O R L [E1 E2 E3 E4 E5 (len & next & E6 & E7)]. unfold post_rx. set (qu := queue (net s) 0) in *.
  rewrite (proj2 (Z.ltb_ge (blen eth) 14)), (proj2 (Z.ltb_ge 1514 (blen eth))) by lia.
  rewrite !(proj2 (Z.eqb_neq _ 0)) by (done || lia). cbn [orb].
  assert (∀ g, 0 ≤ g < Hw.GUEST_UEFI_LOW_RAM_BYTES → mapped h g = Some (RAM_HPA h + g)) as T by (intros; by apply mapped_ram).
  pose proof (Z.mod_pos_bound (last_avail qu) QSIZE eq_refl) as Sl. unfold Hw.GUEST_UEFI_LOW_RAM_BYTES, QSIZE in E2, E3, E4.
  rewrite T by (unfold Hw.GUEST_UEFI_LOW_RAM_BYTES; lia). rewrite (proj2 (Z.eqb_neq _ _) E5).
  rewrite add64_small by (unfold QSIZE in *; mlia). rewrite T by (unfold Hw.GUEST_UEFI_LOW_RAM_BYTES, QSIZE in *; lia).
  set (head := read16 m (RAM_HPA h + (avail qu + (4 + last_avail qu mod QSIZE * 2)))) in *. pose proof (blen_packet eth) as Lp. unfold VNET_HDR_LEN in *.
  pose proof (Z.mod_pos_bound head QSIZE eq_refl) as Hd.
  assert (rx_chain (mapped h) CHAIN_MAX m (desc qu) (head mod QSIZE) (rx_packet eth) 0 =
          (poke m (RAM_HPA h + (Hw.GUEST_UEFI_LOW_RAM_BYTES - 1)) (rx_packet eth), Some (blen (rx_packet eth)))) as ->.
  { unfold CHAIN_MAX. generalize 31%nat as fuel. intros fuel. cbn [rx_chain]. rewrite (proj2 (Z.eqb_neq _ _)) by lia. rewrite add64_small by (unfold QSIZE in *; mlia).
    rewrite T by (unfold Hw.GUEST_UEFI_LOW_RAM_BYTES, QSIZE in *; lia). rewrite E6. cbn [Z.land Pos.land Z.eqb negb andb].
    rewrite (proj2 (Z.ltb_lt 0 len)) by lia. rewrite T by (by vm_compute). cbn [Z.land].
    rewrite Z.sub_0_r, Z.min_r by lia. f_equal; f_equal.
    unfold slice. rewrite drop_0. apply take_ge. unfold blen. lia. }
  rewrite Z.eqb_refl. cbn [negb]. unfold advance. fold qu. split; [done|]. intros k K.
  rewrite write_used_below; [|done|done|by apply Z.mod_pos_bound|done|lia].
  replace (RAM_HPA h + Hw.GUEST_UEFI_LOW_RAM_BYTES + k) with (RAM_HPA h + (Hw.GUEST_UEFI_LOW_RAM_BYTES - 1) + (k + 1)) by lia.
  by apply poke_at; lia.
Qed.

(** A link change the guest has not read yet is lost when a buffer completes: a
    completion stores 1 in the interrupt status, over the configuration bit that
    [note_carrier_change] had set, so the read that serves the interrupt shows a queue
    interrupt only. *)
Theorem carrier_change_lost mac carrier chips gpa translate send m s : Z.land (status (net s)) STATUS_DRIVER_OK ≠ 0 →
  mmio_off s gpa = 0x100 →
  let s1 := note_carrier_change true s in
  let '(_, s2, _, more) := drain_one translate send m s1 in
  more = true →
  Z.land (mmio_read mac carrier chips s1 gpa 1).2 ISR_CONFIG = ISR_CONFIG ∧ (mmio_read mac carrier chips s2 gpa 1).2 = 1.
Proof.
  intros D O s1. assert (isr (net s1) = Z.lor (isr (net s)) ISR_CONFIG ∧ mmio_off s1 gpa = 0x100) as [I1 O1].
  { unfold s1, note_carrier_change. cbn [negb]. rewrite (proj2 (Z.eqb_neq _ _) D). done. }
  assert (∀ s', mmio_off s' gpa = 0x100 → (mmio_read mac carrier chips s' gpa 1).2 = isr (net s')) as Rd.
  { intros s' O'. unfold mmio_read. rewrite O'. done. }
  destruct (drain_one translate send m s1) as [[[m2 s2] f] more] eqn:E. intros ->. rewrite Rd by done. split.
  { rewrite I1, Z.land_lor_distr_l, Z.land_diag, Z.lor_comm. apply Z.bits_inj'. intros n _.
    rewrite Z.lor_spec, Z.land_spec. by destruct (Z.testbit ISR_CONFIG n), (Z.testbit (isr (net s)) n). }
  assert (bar (net s2) = bar (net s1) ∧ isr (net s2) = 1) as [B2 I2].
  { unfold drain_one in E. destruct (_ || _); [done|]. destruct (translate _); [|done]. destruct (_ =? _); [done|].
    destruct (translate _); [|done]. destruct (tx_chain _ _ _ _ _ _) as [fr []]; [by injection E as <- <- <-|].
    destruct (ethernet_from_virtio fr); by injection E as <- <- <-. }
  rewrite Rd; [done|]. unfold mmio_off in *. by rewrite B2.
Qed.

(** ** Concrete runs *)

Definition demo_queue (last idx : Z) : Queue := mkQueue 1 0x1000 0x2000 0x4000 last idx.

Definition demo_dev : Dev :=
  with_net dev_boot (with_notify (with_q NET [demo_queue 0 0; demo_queue 65535 65535]) true).

(** Two transmit buffers published, across the wrap of the index. *)
Definition demo_tx : mem :=
  poke (poke (poke (poke (poke (λ _, 0) 0x10002002 (to_le 2 1)) 0x10002202 (to_le 2 3)) 0x10002004 (to_le 2 7))
    0x10001030 (to_le 8 0x5000 ++ to_le 4 40)) 0x10001070 (to_le 8 0x6000 ++ to_le 4 20).

Lemma demo_rings : rings (mapped demo) (queue (net demo_dev) 1) 0x10002000 0x10004000.
Proof.
  split; try done.
  - intros k K. rewrite add64_small by (cbn; unfold QSIZE in K; mlia). cbn [avail demo_queue queue net].
    rewrite mapped_ram; [|apply demo_ok|done|unfold Hw.GUEST_UEFI_LOW_RAM_BYTES, QSIZE in *; cbn; lia]. f_equal. cbn. lia.
  - intros k K. rewrite add64_small by (cbn; unfold QSIZE in K; mlia). cbn [used demo_queue queue net].
    rewrite mapped_ram; [|apply demo_ok|done|unfold Hw.GUEST_UEFI_LOW_RAM_BYTES, QSIZE in *; cbn; lia]. f_equal. cbn. lia.
  - left. by vm_compute.
Qed.

Lemma demo_tx_bytes : bytes_in demo_tx.
Proof. unfold demo_tx. repeat apply poke_bytes; try apply Forall_app_2; try apply to_le_bytes. done. Qed.

Lemma drain_exact_witness :
  let '(m', s', fs) := drain (mapped demo) true (λ _, true) demo_tx demo_dev in
  queue (net s') 1 = demo_queue 1 1 ∧ (length fs ≤ 2)%nat ∧ read32 m' 0x100047fc = 3 ∧ read32 m' 0x10004004 = 7.
Proof.
  pose proof (drain_exact (mapped demo) (λ _, true) 0x10002000 0x10004000 demo_tx demo_dev demo_rings eq_refl demo_tx_bytes) as H.
  destruct (drain _ _ _ _ _) as [[m' s'] fs].
  replace (Z.min QSIZE (published demo_tx 0x10002000 (queue (net demo_dev) 1))) with 2 in H by (vm_compute; reflexivity).
  destruct H as (H1 & H2 & _ & _ & H3 & _). split_and!; [exact H1|lia|apply (H3 0)|apply (H3 1)]; lia.
Defined.

Lemma far_not_near : ¬ near demo 0x40000001.
Proof.
  intros (k & K & r & M & _ & B). unfold regions in M. cbn in M. unfold FRAME_MAX, VNET_HDR_LEN in K.
  unfold Hw.GUEST_UEFI_LOW_RAM_BYTES, GUEST_UEFI_REPORT_RAM_PAGE in M.
  repeat (apply elem_of_cons in M as [->|M]; [cbn in B; lia|]). by apply elem_of_nil in M.
Qed.

Lemma demo_frames : (drain (gpa_to_hpa demo) true (λ _, true) demo_tx demo_dev).2 = [replicate 28 0].
Proof. vm_compute. reflexivity. Qed.

(** The run of [demo_tx] sends its frame whatever a byte at 1 GiB holds, and leaves it. *)
Lemma net_confined_witness :
  let '(m', _, fs) := drain (gpa_to_hpa demo) true (λ _, true) (poke demo_tx 0x40000001 [2]) demo_dev in
  fs = [replicate 28 0] ∧ m' 0x40000001 = 2.
Proof.
  destruct (net_confined demo true (λ _, true) [] demo_dev demo_ok) as [H _].
  assert (agree (near demo) (poke demo_tx 0x40000001 [2]) demo_tx) as A.
  { intros x X. apply poke_other. destruct (decide (x = 0x40000001)) as [->|]; [by destruct (far_not_near X)|].
    unfold blen. cbn [length]. lia. }
  destruct (H _ _ A) as (R & _ & O). specialize (O 0x40000001 far_not_near). pose proof demo_frames as F.
  destruct (drain _ _ _ demo_tx demo_dev) as [[m1 s1] f1], (drain _ _ _ (poke _ _ _) demo_dev) as [[m2 s2] f2].
  cbn [fst snd] in *. injection R as _ ->. split; [exact F|]. rewrite O. vm_compute. reflexivity.
Defined.

(** A receive buffer at the last byte of low memory. *)
Definition demo_rx : mem :=
  poke (poke (λ _, 0) 0x10002002 (to_le 2 1)) 0x10001000 (to_le 8 (Hw.GUEST_UEFI_LOW_RAM_BYTES - 1) ++ to_le 4 2000 ++ to_le 2 2).

Lemma rx_escapes_witness :
  let '(m', _, ok) := post_rx (mapped demo) (replicate 14 0xAA) demo_rx demo_dev in
  ok = true ∧ m' 0x1200000b = 0xAA ∧ ¬ backed demo 0x1200000b.
Proof.
  pose proof (rx_escapes demo demo_rx demo_dev (replicate 14 0xAA) demo_ok ltac:(done) ltac:(by vm_compute)) as H.
  destruct (post_rx _ _ _ _) as [[m' s'] ok]. destruct H as [H1 H2].
  { split; try done; [by vm_compute..|]. exists 2000, 0. by vm_compute. }
  split_and!; [exact H1|etransitivity; [apply (H2 11); by vm_compute|vm_compute; reflexivity]|].
  intros (r & M & _ & B). unfold regions in M. cbn in M.
  unfold Hw.GUEST_UEFI_LOW_RAM_BYTES, GUEST_UEFI_REPORT_RAM_PAGE in M.
  repeat (apply elem_of_cons in M as [->|M]; [cbn in B; lia|]).
  by apply elem_of_nil in M.
Defined.

End VirtioNet.
