(* ===== verification/VirtioBlk.v ===== *)
(** * The guest's virtio disks

    The queue side of [devices/guest_virtio_blk.rs]: guest memory page by page, the
    request chain, the sector transfer and the three devices (install disk, read-only
    ISO, read-only spare). The rings and buffers are in guest memory ([GuestRam]); a
    disk image in memory is a list of bytes. The other backings (controller image,
    spare, logical unit, ISO library) are drivers for hardware outside this model:
    operations on an abstract state [X], which are given the buffer and return it with
    the new state and whether they worked. The registers are in [VirtioDisk]. *)

From S2P Require Import Prelude Bytes EptHw GuestRam.

Module VirtioBlk.

Import GuestRam.

(** ** Constants *)

Definition VIRTIO_BLK_T_IN : Z := 0.
Definition VIRTIO_BLK_T_OUT : Z := 1.
Definition VIRTIO_BLK_T_FLUSH : Z := 4.
Definition VIRTIO_BLK_T_GET_ID : Z := 8.
Definition VIRTIO_BLK_S_OK : Z := 0.
Definition VIRTIO_BLK_S_IOERR : Z := 1.
Definition QUEUE_MAX : Z := 128.
Definition SECTOR : Z := 512.
Definition VIRTIO_XFER_CHUNK : Z := 64 * 1024.
Definition VRING_DESC_F_NEXT : Z := 1.
Definition VRING_DESC_F_WRITE : Z := 2.
Definition DATA_SEGS : Z := QUEUE_MAX.

(** ** State *)

(** [LastReq] *)
Record LastReq := mkLast { head : Z; status_gpa : Z; ty : Z; sector : Z; any : bool }.

Definition last_default : LastReq := mkLast 0 0 0 0 false.

(** The backings other than a disk image in memory. *)
Record Env (X : Type) := mkEnv {
  PERC_XFER : bool;
  present_as_cd : bool;
  perc_image_boot_latched : bool;
  lun_serving : bool;
  library_read_at : X → Z → list Z → X * list Z * bool;
  perc_spare_read : X → Z → list Z → X * list Z * bool;
  perc_image_read : X → Z → list Z → X * list Z * bool;
  perc_image_write : X → Z → list Z → X * bool;
  durable_lun_rw : X → Z → list Z → bool → X * list Z * bool;
  perc_image_flush : X → X * bool;
}.
Arguments PERC_XFER {X}.
Arguments present_as_cd {X}.
Arguments perc_image_boot_latched {X}.
Arguments lun_serving {X}.
Arguments library_read_at {X}.
Arguments perc_spare_read {X}.
Arguments perc_image_read {X}.
Arguments perc_image_write {X}.
Arguments durable_lun_rw {X}.
Arguments perc_image_flush {X}.

(** Host memory, the disk image, the other backings, the bounce buffer and the count of
    failed translations. *)
Record World (X : Type) := mkWorld { mm : mem; disk : list Z; ext : X; bounce : list Z; XLATE_FAIL : Z }.
Arguments mkWorld {X}.
Arguments mm {X}.
Arguments disk {X}.
Arguments ext {X}.
Arguments bounce {X}.
Arguments XLATE_FAIL {X}.

Definition with_mm {X} (s : World X) (m : mem) : World X := mkWorld m (disk s) (ext s) (bounce s) (XLATE_FAIL s).
Definition with_bounce {X} (s : World X) (b : list Z) : World X := mkWorld (mm s) (disk s) (ext s) b (XLATE_FAIL s).
Definition with_ext {X} (s : World X) (x : X) : World X := mkWorld (mm s) (disk s) x (bounce s) (XLATE_FAIL s).
Definition with_disk {X} (s : World X) (d : list Z) : World X := mkWorld (mm s) d (ext s) (bounce s) (XLATE_FAIL s).
Definition xlate_fail {X} (s : World X) : World X := mkWorld (mm s) (disk s) (ext s) (bounce s) ((XLATE_FAIL s + 1) mod 2 ^ 32).

(** Saturating addition of [u32]. *)
Definition sat32 (a b : Z) : Z := Z.min (a + b) 0xFFFFFFFF.

(** The first bytes of a buffer replaced. *)
Definition fill (bs buf : list Z) : list Z := bs ++ drop (length bs) buf.

(** ** Guest memory, page by page *)

Definition page_left (gpa : Z) : Z := 0x1000 - Z.land gpa 0xFFF.

Section Translate.
Context (translate : Z → option Z).

(** The bytes read before the first failure, and whether there was none. *)
Fixpoint read_loop (fuel : nat) (m : mem) (gpa n done : Z) : list Z * bool :=
  match fuel with
  | O => ([], true)
  | S fuel =>
      if n <=? done then ([], true)
      else
        let g := gpa ⊞ done in
        match translate g with
        | None => ([], false)
        | Some hpa =>
            let take := Z.min (n - done) (page_left g) in
            if take =? 0 then ([], false)
            else let '(bs, ok) := read_loop fuel m gpa n (done + take) in (peek m hpa take ++ bs, ok)
        end
  end.

Definition read_bytes (m : mem) (gpa n : Z) : list Z * bool := read_loop (Z.to_nat n) m gpa n 0.

Fixpoint write_loop (fuel : nat) (m : mem) (gpa : Z) (src : list Z) (done : Z) : mem * bool :=
  match fuel with
  | O => (m, true)
  | S fuel =>
      if blen src <=? done then (m, true)
      else
        let g := gpa ⊞ done in
        match translate g with
        | None => (m, false)
        | Some hpa =>
            let take := Z.min (blen src - done) (page_left g) in
            if take =? 0 then (m, false)
            else write_loop fuel (poke m hpa (slice done take src)) gpa src (done + take)
        end
  end.

Definition write_bytes (m : mem) (gpa : Z) (src : list Z) : mem * bool := write_loop (length src) m gpa src 0.

Definition read_u16 (m : mem) (gpa : Z) : option Z :=
  let '(b, ok) := read_bytes m gpa 2 in if (ok : bool) then Some (from_le b) else None.

Definition write_u16 (m : mem) (gpa val : Z) : mem * bool := write_bytes m gpa (to_le 2 val).

(** ** One transfer *)

Context {X : Type} (e : Env X).

Definition flush_status (readonly backend_ok : bool) : Z := if readonly || backend_ok then VIRTIO_BLK_S_OK else VIRTIO_BLK_S_IOERR.

Definition virtio_flush_status (readonly : bool) (x : X) : X * Z :=
  let '(x, backend_ok) :=
    if readonly then (x, true)
    else if perc_image_boot_latched e then perc_image_flush e x
    else (x, true) in
  (x, flush_status readonly backend_ok).

(** [buf] is the part of the bounce buffer in use; a read leaves it filled. *)
Definition blk_sector_rw_with (s : World X) (ty sector : Z) (buf : list Z) (allow_lun : bool) : World X * list Z * Z :=
  let st (ok : bool) := if ok then VIRTIO_BLK_S_OK else VIRTIO_BLK_S_IOERR in
  if ty =? VIRTIO_BLK_T_FLUSH then
    let '(x, r) := virtio_flush_status (negb allow_lun || PERC_XFER e) (ext s) in (with_ext s x, buf, r)
  else if negb allow_lun && present_as_cd e then
    if negb (ty =? VIRTIO_BLK_T_IN) || (blen buf =? 0) || negb (blen buf mod SECTOR =? 0) then (s, buf, VIRTIO_BLK_S_IOERR)
    else
      match checked_mul64 sector SECTOR with
      | None => (s, buf, VIRTIO_BLK_S_IOERR)
      | Some off => let '(x, buf, ok) := library_read_at e (ext s) off buf in (with_ext s x, buf, st ok)
      end
  else if PERC_XFER e then
    if negb (ty =? VIRTIO_BLK_T_IN) || (blen buf =? 0) || negb (blen buf mod SECTOR =? 0) then (s, buf, VIRTIO_BLK_S_IOERR)
    else let '(x, buf, ok) := perc_spare_read e (ext s) sector buf in (with_ext s x, buf, st ok)
  else if allow_lun && perc_image_boot_latched e then
    match checked_mul64 sector SECTOR with
    | None => (s, buf, VIRTIO_BLK_S_IOERR)
    | Some off =>
        if blen buf =? 0 then (s, buf, VIRTIO_BLK_S_IOERR)
        else if ty =? VIRTIO_BLK_T_OUT then
          let '(x, ok) := perc_image_write e (ext s) off buf in (with_ext s x, buf, st ok)
        else if ty =? VIRTIO_BLK_T_IN then
          let '(x, buf, ok) := perc_image_read e (ext s) off buf in (with_ext s x, buf, st ok)
        else (s, buf, VIRTIO_BLK_S_IOERR)
    end
  else if allow_lun && lun_serving e then
    match checked_mul64 sector SECTOR with
    | None => (s, buf, VIRTIO_BLK_S_IOERR)
    | Some off =>
        if blen buf =? 0 then (s, buf, VIRTIO_BLK_S_IOERR)
        else
          let '(x, buf, ok) := durable_lun_rw e (ext s) off buf (ty =? VIRTIO_BLK_T_OUT) in
          (with_ext s x, buf, st ok)
    end
  else
    match checked_mul64 sector SECTOR with
    | None => (s, buf, VIRTIO_BLK_S_IOERR)
    | Some off =>
        if (blen buf =? 0) || (blen (disk s) <=? off) then (s, buf, VIRTIO_BLK_S_IOERR)
        else
          let n := Z.min (blen buf) (blen (disk s) - off) in
          if ty =? VIRTIO_BLK_T_IN then (s, fill (slice off n (disk s)) buf, VIRTIO_BLK_S_OK)
          else if ty =? VIRTIO_BLK_T_OUT then
            (with_disk s (splice off (take (Z.to_nat n) buf) (disk s)), buf, VIRTIO_BLK_S_OK)
          else (s, buf, VIRTIO_BLK_S_IOERR)
    end.

(** A transfer through the first [take] bytes of the bounce buffer. *)
Definition bounced (s : World X) (ty sec take : Z) (allow_lun : bool) : World X * Z :=
  let '(s, buf, status) := blk_sector_rw_with s ty sec (slice 0 take (bounce s)) allow_lun in
  (with_bounce s (fill buf (bounce s)), status).

Fixpoint xfer_loop (fuel : nat) (s : World X) (ty sector byte_off gpa n : Z) (device_write allow_lun : bool) (done wrote : Z)
    : World X * Z * Z :=
  match fuel with
  | O => (s, VIRTIO_BLK_S_OK, wrote)
  | S fuel =>
      if n <=? done then (s, VIRTIO_BLK_S_OK, wrote)
      else
        let take := Z.min (n - done) VIRTIO_XFER_CHUNK in
        let sec := sat_add64 sector ((byte_off + done) / SECTOR) in
        if device_write then
          let '(s, status) := bounced s ty sec take allow_lun in
          if negb (status =? VIRTIO_BLK_S_OK) then (s, status, wrote)
          else
            let '(m, ok) := write_bytes (mm s) (gpa ⊞ done) (slice 0 take (bounce s)) in
            let s := with_mm s m in
            if negb ok then (s, VIRTIO_BLK_S_IOERR, wrote)
            else xfer_loop fuel s ty sector byte_off gpa n device_write allow_lun (done + take) wrote
        else
          let '(bs, ok) := read_bytes (mm s) (gpa ⊞ done) take in
          let s := with_bounce s (fill bs (bounce s)) in
          if negb ok then (s, VIRTIO_BLK_S_IOERR, wrote)
          else
            let '(s, status) := bounced s ty sec take allow_lun in
            if negb (status =? VIRTIO_BLK_S_OK) then (s, status, wrote)
            else
              let wrote := if ty =? VIRTIO_BLK_T_OUT then sat32 wrote take else wrote in
              xfer_loop fuel s ty sector byte_off gpa n device_write allow_lun (done + take) wrote
  end.

Definition xfer_data_seg (s : World X) (ty sector byte_off gpa len : Z) (device_write allow_lun : bool) : World X * Z * Z :=
  xfer_loop (S (Z.to_nat (len / VIRTIO_XFER_CHUNK))) s ty sector byte_off gpa len device_write allow_lun 0 0.

(** ** The request chain *)

(** A data segment: address, length, whether the device writes it. *)
Definition Seg : Type := Z * Z * bool.

(** What the descriptor loop has gathered. *)
Record Chain := mkChain { c_hdr : list Z; c_segs : list Seg; c_status : Z; c_got_hdr : bool }.

Definition chain_empty : Chain := mkChain (replicate 16 0) [] 0 false.

(** [chain] counts the descriptors. *)
Fixpoint chain_loop (fuel : nat) (s : World X) (qsize desc_gpa desc chain : Z) (c : Chain) : World X * Chain :=
  match fuel with
  | O => (s, c)
  | S fuel =>
      if qsize <? chain then (s, c)
      else
        let '(raw, ok) := read_bytes (mm s) (desc_gpa ⊞ desc * 16) 16 in
        if negb ok then (xlate_fail s, c)
        else
          let addr := from_le (slice 0 8 raw) in
          let len := from_le (slice 8 4 raw) in
          let flags := from_le (slice 12 2 raw) in
          let next := from_le (slice 14 2 raw) in
          let writable := negb (Z.land flags VRING_DESC_F_WRITE =? 0) in
          let go (c : Chain) :=
            if Z.land flags VRING_DESC_F_NEXT =? 0 then (s, c) else chain_loop fuel s qsize desc_gpa next (chain + 1) c in
          if negb (c_got_hdr c) && (16 <=? len) then
            let '(h, ok) := read_bytes (mm s) addr 16 in
            let c := mkChain (fill h (c_hdr c)) (c_segs c) (c_status c) (ok : bool) in
            if negb ok then (xlate_fail s, c) else go c
          else if writable && (len =? 1) && (c_status c =? 0) then
            go (mkChain (c_hdr c) (c_segs c) addr (c_got_hdr c))
          else if (0 <? len) && (Z.of_nat (length (c_segs c)) <? DATA_SEGS) then
            go (mkChain (c_hdr c) (c_segs c ++ [(addr, len, writable)]) (c_status c) (c_got_hdr c))
          else go c
  end.

(** ** Serving a request *)

(** Zeros for a segment, 64 bytes at a time. *)
Fixpoint id_loop (fuel : nat) (m : mem) (gpa len off in_len : Z) : mem * bool * Z :=
  match fuel with
  | O => (m, true, in_len)
  | S fuel =>
      if len <=? off then (m, true, in_len)
      else
        let n := Z.min (len - off) 64 in
        let '(m, ok) := write_bytes m (gpa ⊞ off) (replicate (Z.to_nat n) 0) in
        if negb ok then (m, false, in_len)
        else id_loop fuel m gpa len (sat32 off n) (sat32 in_len n)
  end.

(** [GET_ID]: an empty serial number. *)
Fixpoint get_id (m : mem) (segs : list Seg) (in_len : Z) : mem * Z * Z :=
  match segs with
  | [] => (m, VIRTIO_BLK_S_OK, in_len)
  | (gpa, len, device_write) :: segs =>
      if negb device_write || (len =? 0) then get_id m segs in_len
      else
        let '(m, ok, in_len) := id_loop (S (Z.to_nat (len / 64))) m gpa len 0 in_len in
        if negb ok then (m, VIRTIO_BLK_S_IOERR, in_len) else get_id m segs in_len
  end.

(** The segments of a read or write: status, bytes written to the disk, bytes for the
    guest and the offset reached. *)
Fixpoint transfer (s : World X) (ty sector : Z) (allow_lun : bool) (segs : list Seg) (byte_off req_bytes in_len : Z)
    : World X * Z * Z * Z * Z :=
  match segs with
  | [] => (s, VIRTIO_BLK_S_OK, byte_off, req_bytes, in_len)
  | (gpa, len, device_write) :: segs =>
      let '(s, status, w) := xfer_data_seg s ty sector byte_off gpa len device_write allow_lun in
      let req_bytes := sat32 req_bytes w in
      if negb (status =? VIRTIO_BLK_S_OK) then (s, status, byte_off, req_bytes, in_len)
      else transfer s ty sector allow_lun segs (byte_off + len) req_bytes (if device_write then sat32 in_len len else in_len)
  end.

(** Status, bytes for the guest, and the new count of bytes moved. *)
Definition serve (s : World X) (readonly : bool) (ty sector : Z) (segs : list Seg) (written : Z) : World X * Z * Z * Z :=
  if ty =? VIRTIO_BLK_T_FLUSH then
    let '(x, status) := virtio_flush_status readonly (ext s) in (with_ext s x, status, 0, written)
  else if ty =? VIRTIO_BLK_T_GET_ID then
    let '(m, status, in_len) := get_id (mm s) segs 0 in (with_mm s m, status, in_len, written)
  else if readonly && (ty =? VIRTIO_BLK_T_OUT) then (s, VIRTIO_BLK_S_IOERR, 0, written)
  else
    match segs with
    | [] => (s, VIRTIO_BLK_S_IOERR, 0, written)
    | _ =>
        let '(s, status, byte_off, req_bytes, in_len) := transfer s ty sector (negb readonly) segs 0 0 0 in
        let written :=
          if readonly && (ty =? VIRTIO_BLK_T_IN) && (status =? VIRTIO_BLK_S_OK) then sat32 written (byte_off mod 2 ^ 32)
          else sat32 written req_bytes in
        (s, status, in_len, written)
    end.

(** ** The queue *)

(** The indices, the counts and the last request, as [process_blk_queue] updates them. *)
Record Run := mkRun { r_last : Z; r_used : Z; r_written : Z; r_nreq : Z; r_req : LastReq }.

(** One request: [false] when the queue stops. *)
Definition process_one (s : World X) (r : Run) (qsize desc_gpa avail_gpa used_gpa : Z) (readonly : bool) : World X * Run * bool :=
  let slot := r_last r mod qsize in
  match read_u16 (mm s) (avail_gpa ⊞ 4 ⊞ slot * 2) with
  | None => (xlate_fail s, r, false)
  | Some head =>
      let '(s, c) := chain_loop (S (S (Z.to_nat qsize))) s qsize desc_gpa head 0 chain_empty in
      let ty := from_le (slice 0 4 (c_hdr c)) in
      let sector := from_le (slice 8 8 (c_hdr c)) in
      let '(s, status, in_len, written) := serve s readonly ty sector (c_segs c) (r_written r) in
      let r := mkRun (r_last r) (r_used r) written (r_nreq r) (r_req r) in
      let '(m, ok) := if c_status c =? 0 then (mm s, true) else write_bytes (mm s) (c_status c) [status] in
      let s := with_mm s m in
      if negb ok then (xlate_fail s, r, false)
      else
        let in_len := if c_status c =? 0 then in_len else sat32 in_len 1 in
        let uslot := r_used r mod qsize in
        let '(m, ok) := write_bytes (mm s) (used_gpa ⊞ 4 ⊞ uslot * 8) (to_le 4 head ++ to_le 4 in_len) in
        let s := with_mm s m in
        if negb ok then (xlate_fail s, r, false)
        else
          let used' := (r_used r + 1) mod 65536 in
          let '(m, ok) := write_u16 (mm s) (used_gpa ⊞ 2) used' in
          let s := with_mm s m in
          if negb ok then (xlate_fail s, r, false)
          else
            (s, mkRun ((r_last r + 1) mod 65536) used' written (Z.min (r_nreq r + 1) 65535)
                  (mkLast head (c_status c) ty sector true), true)
  end.

Fixpoint process_loop (fuel : nat) (s : World X) (r : Run) (avail_idx qsize desc_gpa avail_gpa used_gpa : Z) (readonly : bool)
    : World X * Run :=
  match fuel with
  | O => (s, r)
  | S fuel =>
      if r_last r =? avail_idx then (s, r)
      else
        let '(s, r, more) := process_one s r qsize desc_gpa avail_gpa used_gpa readonly in
        if (more : bool) then process_loop fuel s r avail_idx qsize desc_gpa avail_gpa used_gpa readonly else (s, r)
  end.

(** Also returns the guest's index, 0 when nothing was looked at. *)
Definition process_blk_queue (s : World X) (qsize last_avail used_idx desc_gpa avail_gpa used_gpa : Z) (readonly : bool)
    : World X * Run * Z :=
  let r := mkRun last_avail used_idx 0 0 last_default in
  if qsize =? 0 then (s, r, 0)
  else
    match read_u16 (mm s) (avail_gpa ⊞ 2) with
    | None => (xlate_fail s, r, 0)
    | Some avail_idx =>
        let '(s, r) := process_loop (Z.to_nat ((avail_idx - last_avail) mod 65536)) s r avail_idx qsize desc_gpa avail_gpa used_gpa readonly in
        (s, r, avail_idx)
    end.

End Translate.

(** ** Guest memory as the guest sees it *)

(** What [guest_uefi_gpa_to_hpa] promises its callers: a translated address reaches to
    the end of its page, and no two guest addresses share a host byte. *)
Class GuestMap (translate : Z → option Z) : Prop := {
  gm_page : ∀ g h k, u64 g → translate g = Some h → 0 ≤ k < page_left g → translate (g + k) = Some (h + k);
  gm_inj : ∀ g g' h, u64 g → u64 g' → translate g = Some h → translate g' = Some h → g = g';
}.

(** The contents of guest memory by guest address. *)
Definition View : Type := Z → option Z.

Definition view (translate : Z → option Z) (m : mem) : View := λ g, m <$> translate g.

#[export] Instance view_equiv : Equiv View := λ v w, ∀ g, u64 g → v g = w g.

#[export] Instance view_equivalence : Equivalence (≡@{View}).
Proof.
  split; [done| |].
  - intros v w E g U. symmetry. by apply E.
  - intros v w x E F g U. rewrite E by done. by apply F.
Qed.

Definition vread (v : View) (g n : Z) : option (list Z) := mapM (λ k, v (g ⊞ k)) (seqZ 0 n).

(** [n] bytes from [g] on are mapped. *)
Definition vmapped (v : View) (g n : Z) : Prop := ∀ k, 0 ≤ k < n → is_Some (v (g ⊞ k)).

Definition vwrite (v : View) (g : Z) (bs : list Z) : View := λ x, if x ⊟ g <? blen bs then bs !! Z.to_nat (x ⊟ g) else v x.

#[export] Instance vread_proper : Proper ((≡) ==> (=) ==> (=) ==> (=)) vread.
Proof.
  intros v w E g ? <- n ? <-. unfold vread. apply Forall2_mapM_ext. apply Forall_Forall2_diag, Forall_true.
  intros k. apply E, add64_u64.
Qed.

#[export] Instance vmapped_proper : Proper ((≡) ==> (=) ==> (=) ==> iff) vmapped.
Proof. intros v w E g ? <- n ? <-. unfold vmapped. by split; intros M k K; specialize (M k K); rewrite (E _ (add64_u64 g k)) in *. Qed.

#[export] Instance vwrite_proper : Proper ((≡) ==> (=) ==> (=) ==> (≡)) vwrite.
Proof. intros v w E g ? <- bs ? <- x U. unfold vwrite. destruct (_ <? _); [done|by apply E]. Qed.

Lemma add_sub64 g k : 0 ≤ k < W64 → g ⊞ k ⊟ g = k.
Proof.
  intros K. unfold add64, sub64, wrap64. rewrite Zminus_mod_idemp_l. replace (g + k - g) with k by lia. by apply Z.mod_small.
Qed.

Lemma sub_add64 g x : u64 x → g ⊞ (x ⊟ g) = x.
Proof.
  intros U. unfold add64, sub64, wrap64. rewrite Zplus_mod_idemp_r. replace (g + (x - g)) with x by lia. by apply Z.mod_small.
Qed.

Lemma sub64_range x g : 0 ≤ x ⊟ g < W64.
Proof. by apply Z.mod_pos_bound. Qed.

Lemma add64_assoc g a b : g ⊞ a ⊞ b = g ⊞ (a + b).
Proof. unfold add64, wrap64. rewrite Zplus_mod_idemp_l. f_equal. lia. Qed.

Lemma add64_0 g : u64 g → g ⊞ 0 = g.
Proof. intros [? ?]. rewrite add64_small; lia. Qed.

Lemma vwrite_nil v g : vwrite v g [] ≡ v.
Proof. intros x U. unfold vwrite. pose proof (sub64_range x g). change (blen []) with 0. by rewrite (proj2 (Z.ltb_ge _ _)) by lia. Qed.

(** Two writes in a row are one write. *)
Lemma vwrite_app v g a b : blen a + blen b ≤ W64 → vwrite (vwrite v g a) (g ⊞ blen a) b ≡ vwrite v g (a ++ b).
Proof.
  intros L x U. unfold vwrite. pose proof (sub64_range x g) as R. unfold blen in *. rewrite length_app, Nat2Z.inj_add.
  assert (x ⊟ (g ⊞ Z.of_nat (length a)) = (x ⊟ g - Z.of_nat (length a)) mod W64) as ->.
  { unfold add64, sub64, wrap64. rewrite Zminus_mod_idemp_r, Zminus_mod_idemp_l. f_equal. lia. }
  destruct (Z.ltb_spec (x ⊟ g) (Z.of_nat (length a))) as [A|A].
  - rewrite <-(Z_mod_plus_full _ 1), Z.mod_small by lia. rewrite (proj2 (Z.ltb_ge _ _)) by lia.
    rewrite (proj2 (Z.ltb_lt _ _)) by lia. by rewrite lookup_app_l by lia.
  - rewrite Z.mod_small by lia. destruct (Z.ltb_spec (x ⊟ g) (Z.of_nat (length a) + Z.of_nat (length b))) as [B|B].
    + rewrite (proj2 (Z.ltb_lt _ _)) by lia. rewrite lookup_app_r by lia. f_equal. lia.
    + by rewrite (proj2 (Z.ltb_ge _ _)) by lia.
Qed.

Lemma vmapped_vwrite v g bs a n : vmapped v a n → vmapped (vwrite v g bs) a n.
Proof.
  intros M k K. unfold vwrite. pose proof (sub64_range (a ⊞ k) g). destruct (Z.ltb_spec (a ⊞ k ⊟ g) (blen bs)); [|by apply M].
  apply lookup_lt_is_Some. unfold blen in *. lia.
Qed.

Lemma vread_iff v g n bs : 0 ≤ n → vread v g n = Some bs ↔ blen bs = n ∧ ∀ k, 0 ≤ k < n → v (g ⊞ k) = bs !! Z.to_nat k.
Proof.
  intros N. unfold vread, blen. rewrite mapM_Some. split.
  - intros E. pose proof (Forall2_length _ _ _ E) as L. rewrite length_seqZ in L. split; [lia|]. intros k K.
    destruct (Forall2_lookup_l _ _ _ (Z.to_nat k) k E) as (b & -> & B); [apply lookup_seqZ; lia|done].
  - intros [L E]. apply Forall2_same_length_lookup_2; [rewrite length_seqZ; lia|].
    intros i k b K B. apply lookup_seqZ in K as [-> K]. rewrite E by lia. by rewrite Z.add_0_l, Nat2Z.id.
Qed.

(** The first part of what was read, and the rest. *)
Lemma vread_split v g n t bs : 0 ≤ t ≤ n → vread v g n = Some bs →
  vread v g t = Some (take (Z.to_nat t) bs) ∧ vread v (g ⊞ t) (n - t) = Some (drop (Z.to_nat t) bs).
Proof.
  intros T. rewrite !vread_iff by lia. unfold blen. rewrite length_take, length_drop. intros [L E]. split; (split; [lia|]); intros k K.
  - rewrite lookup_take_lt by lia. by apply E; lia.
  - rewrite add64_assoc, lookup_drop, E by lia. f_equal. lia.
Qed.

Lemma vread_total v g n : vmapped v g n → is_Some (vread v g n).
Proof.
  intros M. unfold vread. apply mapM_is_Some. apply Forall_lookup_2. intros i k K. apply lookup_seqZ in K as [-> K].
  apply M. lia.
Qed.

Lemma page_left_range g : u64 g → 1 ≤ page_left g ≤ 4096 ∧ g + page_left g ≤ W64.
Proof. intros U. unfold page_left. change 0xFFF with 4095. rewrite land_page. unfold u64, W64 in *. split; dlia. Qed.

Section View.
Context (translate : Z → option Z) `{!GuestMap translate}.

Local Notation view := (view translate).

Lemma in_page g h k : u64 g → translate g = Some h → 0 ≤ k < page_left g → g ⊞ k = g + k ∧ translate (g ⊞ k) = Some (h + k).
Proof.
  intros U T K. pose proof (page_left_range g U) as [? ?]. pose proof U as [? ?].
  rewrite add64_small by lia. split; [done|by apply gm_page].
Qed.

(** One page of a write. *)
Lemma poke_view m g h bs : u64 g → translate g = Some h → blen bs ≤ page_left g → view (poke m h bs) ≡ vwrite (view m) g bs.
Proof.
  intros U T L x Ux. pose proof (page_left_range g U) as [? ?]. unfold vwrite, VirtioBlk.view. pose proof (sub64_range x g) as R.
  destruct (Z.ltb_spec (x ⊟ g) (blen bs)) as [A|A].
  - destruct (in_page g h (x ⊟ g) U T ltac:(lia)) as [_ E]. rewrite sub_add64 in E by done. rewrite E. cbn.
    rewrite poke_at by lia. unfold blen in *. destruct (lookup_lt_is_Some_2 bs (Z.to_nat (x ⊟ g))) as [b ->]; [lia|done].
  - destruct (translate x) as [y|] eqn:Y; [|done]. cbn. f_equal. apply poke_other.
    destruct (Z.lt_ge_cases y h); [by left|]. destruct (Z.le_gt_cases (h + blen bs) y); [by right|]. exfalso.
    destruct (in_page g h (y - h) U T ltac:(lia)) as [E1 E2]. replace (h + (y - h)) with y in E2 by lia.
    pose proof (gm_inj x (g ⊞ (y - h)) y Ux (add64_u64 _ _) Y E2) as ->. rewrite add_sub64 in A by lia. lia.
Qed.

Lemma peek_view m g h n : u64 g → translate g = Some h → 0 ≤ n ≤ page_left g → vread (view m) g n = Some (peek m h n).
Proof.
  intros U T N. unfold vread, peek. apply mapM_Some. apply Forall2_same_length_lookup_2; [by rewrite length_fmap, !length_seqZ|].
  intros i k b K B. apply lookup_seqZ in K as [-> K]. rewrite list_lookup_fmap in B.
  destruct (seqZ h n !! i) as [y|] eqn:Y; [|done]. apply lookup_seqZ in Y as [-> _]. cbn in B. injection B as <-.
  unfold VirtioBlk.view. rewrite (proj2 (in_page g h (0 + Z.of_nat i) U T ltac:(lia))). done.
Qed.

(** Reading mapped bytes works and gives what the guest sees. *)
Lemma read_loop_view m gpa n fuel : ∀ done bs, 0 ≤ done ≤ n → (Z.to_nat (n - done) ≤ fuel)%nat →
  vread (view m) (gpa ⊞ done) (n - done) = Some bs → read_loop translate fuel m gpa n done = (bs, true).
Proof.
  induction fuel as [|fuel IH]; intros done bs D F R; pose proof R as L; apply vread_iff in L as [L M]; try lia.
  - assert (bs = []) as -> by (apply nil_length_inv; unfold blen in L; lia). done.
  - cbn [read_loop]. destruct (Z.leb_spec n done) as [E|E].
    { assert (bs = []) as -> by (apply nil_length_inv; unfold blen in L; lia). done. }
    pose proof (M 0 ltac:(lia)) as M0. rewrite add64_assoc, Z.add_0_r in M0. unfold VirtioBlk.view in M0.
    destruct (translate (gpa ⊞ done)) as [h|] eqn:T.
    2: { symmetry in M0. apply lookup_ge_None in M0. unfold blen in L. lia. }
    pose proof (page_left_range _ (add64_u64 gpa done)) as [P _]. set (t := Z.min (n - done) (page_left (gpa ⊞ done))).
    assert (1 ≤ t ≤ n - done ∧ t ≤ page_left (gpa ⊞ done)) as Ht by (unfold t; lia). clearbody t.
    rewrite (proj2 (Z.eqb_neq t 0)) by lia. destruct (vread_split _ _ (n - done) t bs ltac:(lia) R) as [R1 R2].
    rewrite add64_assoc in R2. rewrite (IH (done + t) (drop (Z.to_nat t) bs)); [|lia|lia|by rewrite Z.sub_add_distr].
    rewrite (peek_view m _ h t (add64_u64 _ _) T) in R1 by lia. injection R1 as ->. by rewrite take_drop.
Qed.

Lemma read_bytes_view m gpa n bs : 0 ≤ n → u64 gpa → vread (view m) gpa n = Some bs → read_bytes translate m gpa n = (bs, true).
Proof.
  intros N U R. unfold read_bytes. apply read_loop_view; [lia|lia|].
  by rewrite Z.sub_0_r, add64_0.
Qed.

(** Writing mapped bytes works, and writes just them. *)
Lemma write_loop_view gpa src fuel : blen src ≤ W64 → ∀ m done, 0 ≤ done ≤ blen src → (Z.to_nat (blen src - done) ≤ fuel)%nat →
  vmapped (view m) (gpa ⊞ done) (blen src - done) →
  ∃ m', write_loop translate fuel m gpa src done = (m', true) ∧
        view m' ≡ vwrite (view m) (gpa ⊞ done) (drop (Z.to_nat done) src).
Proof.
  intros W. induction fuel as [|fuel IH]; intros m done D F M.
  - exists m. split; [done|]. rewrite drop_ge by (unfold blen in *; lia). symmetry. apply vwrite_nil.
  - cbn [write_loop]. destruct (Z.leb_spec (blen src) done) as [E|E].
    { exists m. split; [done|]. rewrite drop_ge by (unfold blen in *; lia). symmetry. apply vwrite_nil. }
    destruct (M 0 ltac:(lia)) as [b M0]. rewrite add64_assoc, Z.add_0_r in M0. unfold VirtioBlk.view in M0.
    destruct (translate (gpa ⊞ done)) as [h|] eqn:T; [|done].
    pose proof (page_left_range _ (add64_u64 gpa done)) as [P _]. set (t := Z.min (blen src - done) (page_left (gpa ⊞ done))).
    assert (1 ≤ t ≤ blen src - done ∧ t ≤ page_left (gpa ⊞ done)) as Ht by (unfold t; lia). clearbody t.
    rewrite (proj2 (Z.eqb_neq t 0)) by lia.
    assert (blen (slice done t src) = t) as Lt by (unfold slice, blen in *; rewrite length_take, length_drop; lia).
    pose proof (poke_view m _ h (slice done t src) (add64_u64 _ _) T ltac:(lia)) as V.
    destruct (IH (poke m h (slice done t src)) (done + t)) as (m' & -> & V'); [lia|lia| |].
    { rewrite V. apply vmapped_vwrite. intros k K. replace (gpa ⊞ (done + t) ⊞ k) with (gpa ⊞ done ⊞ (t + k)) by (rewrite !add64_assoc; f_equal; lia).
      apply M. lia. }
    exists m'. split; [done|]. rewrite V', V.
    assert (gpa ⊞ (done + t) = gpa ⊞ done ⊞ blen (slice done t src)) as -> by (by rewrite Lt, add64_assoc).
    rewrite vwrite_app; [|rewrite Lt; unfold blen in *; rewrite length_drop; lia].
    replace (slice done t src ++ drop (Z.to_nat (done + t)) src) with (drop (Z.to_nat done) src); [done|].
    unfold slice. rewrite <-(take_drop (Z.to_nat t) (drop (Z.to_nat done) src)) at 1. by rewrite drop_drop, Z2Nat.inj_add by lia.
Qed.

Lemma write_bytes_view m gpa src : blen src ≤ W64 → u64 gpa → vmapped (view m) gpa (blen src) →
  ∃ m', write_bytes translate m gpa src = (m', true) ∧ view m' ≡ vwrite (view m) gpa src.
Proof.
  intros W U M. pose proof (add64_0 gpa U) as E.
  destruct (write_loop_view gpa src (length src) W m 0) as (m' & R & V); [unfold blen; lia|unfold blen; lia|by rewrite E, Z.sub_0_r|].
  exists m'. split; [done|]. by rewrite V, E, drop_0.
Qed.

End View.

(** ** Sectors and segments *)

Lemma fill_whole bs buf : blen bs = blen buf → fill bs buf = bs.
Proof. intros E. unfold fill, blen in *. rewrite drop_ge by lia. apply app_nil_r. Qed.

Lemma blen_fill bs buf : blen bs ≤ blen buf → blen (fill bs buf) = blen buf.
Proof. unfold fill, blen. rewrite length_app, length_drop. lia. Qed.

Lemma slice_fill bs buf : slice 0 (blen bs) (fill bs buf) = bs.
Proof. unfold slice, fill, blen. rewrite drop_0, Nat2Z.id. apply take_app_length. Qed.

Lemma sat32_sat32 a b c : 0 ≤ b → 0 ≤ c → sat32 (sat32 a b) c = sat32 a (b + c).
Proof. unfold sat32. lia. Qed.

(** The device is served from the image in memory. *)
Definition plain {X} (e : Env X) (allow_lun : bool) : Prop :=
  PERC_XFER e = false ∧
  if allow_lun then perc_image_boot_latched e = false ∧ lun_serving e = false else present_as_cd e = false.

(** What a run keeps. *)
Record kept {X} (s s' : World X) : Prop := {
  kp_ext : ext s' = ext s;
  kp_fail : XLATE_FAIL s' = XLATE_FAIL s;
  kp_bounce : blen (bounce s') = blen (bounce s);
}.

Lemma kept_trans {X} (s1 s2 s3 : World X) : kept s1 s2 → kept s2 s3 → kept s1 s3.
Proof. intros [] []. split; congruence. Qed.

(** A segment of whole sectors in mapped memory, for the device to fill or to read. *)
Record seg_ok (v : View) (ty : Z) (g : Seg) : Prop := {
  so_len : 0 < g.1.2 < 2 ^ 32;
  so_sectors : g.1.2 mod SECTOR = 0;
  so_gpa : u64 g.1.1;
  so_mapped : vmapped v g.1.1 g.1.2;
  so_dir : g.2 = (ty =? VIRTIO_BLK_T_IN);
}.

Definition total (segs : list Seg) : Z := foldr (λ g n, g.1.2 + n) 0 segs.

(** A read: the segments are filled in turn from offset [off] of the disk. *)
Fixpoint fill_segs (v : View) (off : Z) (segs : list Seg) (d : list Z) : View :=
  match segs with
  | [] => v
  | (gpa, len, _) :: segs => fill_segs (vwrite v gpa (slice off len d)) (off + len) segs d
  end.

(** A write: the disk from [off] on takes the bytes of the segments. *)
Fixpoint store_segs (v : View) (off : Z) (segs : list Seg) (d : list Z) : list Z :=
  match segs with
  | [] => d
  | (gpa, len, _) :: segs => store_segs v (off + len) segs (splice off (default [] (vread v gpa len)) d)
  end.

#[export] Instance fill_segs_proper : Proper ((≡) ==> (=) ==> (=) ==> (=) ==> (≡)) fill_segs.
Proof.
  intros v w E off ? <- segs ? <- d ? <-. revert v w E off. induction segs as [|[[gpa len] b] segs IH]; intros v w E off; [done|].
  cbn [fill_segs]. apply IH. by rewrite E.
Qed.

#[export] Instance seg_ok_proper : Proper ((≡) ==> (=) ==> (=) ==> iff) seg_ok.
Proof. intros v w E ty ? <- g ? <-. split; intros []; split; try done; [by rewrite <-E|by rewrite E]. Qed.

Lemma seg_ok_vwrite v ty a bs g : seg_ok v ty g → seg_ok (vwrite v a bs) ty g.
Proof. intros []. split; try done. by apply vmapped_vwrite. Qed.

Section Transfer.
Context {X : Type} (e : Env X) (allow_lun : bool) (Plain : plain e allow_lun).

Lemma checked_sector sector d n : 0 ≤ sector → 0 < n → sector * SECTOR + n ≤ blen d → blen d < W64 →
  checked_mul64 sector SECTOR = Some (sector * SECTOR) ∧ (blen d <=? sector * SECTOR) = false.
Proof. intros. unfold checked_mul64. rewrite (proj2 (Z.ltb_lt _ _)) by lia. split; [done|]. apply Z.leb_gt. lia. Qed.

(** Sectors inside the image, in each direction. *)
Lemma sectors_in (s : World X) sector buf : 0 ≤ sector → 0 < blen buf → sector * SECTOR + blen buf ≤ blen (disk s) →
  blen (disk s) < W64 →
  blk_sector_rw_with e s VIRTIO_BLK_T_IN sector buf allow_lun = (s, slice (sector * SECTOR) (blen buf) (disk s), VIRTIO_BLK_S_OK).
Proof.
  intros S B D W. destruct Plain as [P1 P2]. destruct (checked_sector sector (disk s) (blen buf) S B D W) as [C1 C2].
  unfold blk_sector_rw_with. rewrite C1, C2, P1. rewrite (proj2 (Z.eqb_neq (blen buf) 0)) by lia.
  rewrite Z.min_l by lia. rewrite fill_whole by (apply blen_slice; unfold SECTOR in *; lia).
  destruct allow_lun; [destruct P2 as [-> ->]|rewrite P2]; done.
Qed.

Lemma sectors_out (s : World X) sector buf : 0 ≤ sector → 0 < blen buf → sector * SECTOR + blen buf ≤ blen (disk s) →
  blen (disk s) < W64 →
  blk_sector_rw_with e s VIRTIO_BLK_T_OUT sector buf allow_lun =
    (with_disk s (splice (sector * SECTOR) buf (disk s)), buf, VIRTIO_BLK_S_OK).
Proof.
  intros S B D W. destruct Plain as [P1 P2]. destruct (checked_sector sector (disk s) (blen buf) S B D W) as [C1 C2].
  unfold blk_sector_rw_with. rewrite C1, C2, P1. rewrite (proj2 (Z.eqb_neq (blen buf) 0)) by lia.
  rewrite Z.min_l by lia. rewrite (take_ge buf) by (unfold blen in *; lia).
  destruct allow_lun; [destruct P2 as [-> ->]|rewrite P2]; done.
Qed.

(** The sector a chunk starts at. *)
Lemma chunk_sector sector off done (d : list Z) : 0 ≤ sector → 0 ≤ off → 0 ≤ done → (off + done) mod SECTOR = 0 →
  sector * SECTOR + off + done ≤ blen d → blen d < W64 →
  0 ≤ sat_add64 sector ((off + done) / SECTOR) ∧
  sat_add64 sector ((off + done) / SECTOR) * SECTOR = sector * SECTOR + off + done.
Proof.
  intros S O D A L W. unfold sat_add64. pose proof (Z.div_mod (off + done) SECTOR ltac:(done)) as E. rewrite A in E.
  assert (0 ≤ (off + done) / SECTOR) by (apply Z.div_pos; [lia|done]). unfold SECTOR in *.
  rewrite Z.min_l by (unfold U64_MAX, W64 in *; lia). split; lia.
Qed.

End Transfer.

(** ** A transfer is exact *)

Section Exact.
Context (translate : Z → option Z) `{!GuestMap translate} {X : Type} (e : Env X) (allow_lun : bool) (Plain : plain e allow_lun).

Local Notation view := (view translate).

(** The transfer of [n] bytes of a segment from [done] on stays on the disk. *)
Record chunk_ok (s : World X) (sector off n done : Z) : Prop := {
  ck_sector : 0 ≤ sector;
  ck_off : 0 ≤ off ∧ off mod SECTOR = 0;
  ck_done : 0 ≤ done ≤ n ∧ done mod SECTOR = 0;
  ck_len : n < 2 ^ 32;
  ck_disk : sector * SECTOR + off + n ≤ blen (disk s) < W64;
  ck_bounce : blen (bounce s) = VIRTIO_XFER_CHUNK;
}.

Lemma chunk_next (s s' : World X) sector off n done t : chunk_ok s sector off n done → kept s s' → blen (disk s') = blen (disk s) →
  0 ≤ t ≤ n - done → t mod SECTOR = 0 → chunk_ok s' sector off n (done + t).
Proof.
  intros [C1 C2 [C3 C4] C5 C6 C7] K D T A. split; rewrite ?D; try done; [|by rewrite (kp_bounce _ _ K)].
  split; [lia|]. by rewrite Z.add_mod, C4, A.
Qed.

(** The next chunk: its size and the sector it starts at. *)
Lemma chunk_at (s : World X) sector off n done : chunk_ok s sector off n done → done < n → n mod SECTOR = 0 →
  let t := Z.min (n - done) VIRTIO_XFER_CHUNK in
  let sec := sat_add64 sector ((off + done) / SECTOR) in
  0 < t ≤ n - done ∧ t mod SECTOR = 0 ∧ t ≤ blen (bounce s) ∧ 0 ≤ sec ∧ sec * SECTOR = sector * SECTOR + off + done.
Proof.
  intros [C1 [C2 C2'] [C3 C4] C5 C6 C7] N A t sec. rewrite C7.
  assert ((off + done) mod SECTOR = 0) as M by (by rewrite Z.add_mod, C2', C4).
  destruct (chunk_sector sector off done (disk s)) as [S1 S2]; [done|done|lia|done|lia|lia|].
  split_and!; [unfold t, VIRTIO_XFER_CHUNK; lia|unfold t, VIRTIO_XFER_CHUNK; lia| |unfold t; lia|done|done].
  unfold t. destruct (Z.min_spec (n - done) VIRTIO_XFER_CHUNK) as [[_ ->]|[_ ->]]; [|done].
  by rewrite Zminus_mod, A, C4.
Qed.

Lemma xfer_in fuel : ∀ (s : World X) sector off gpa n done wrote,
  chunk_ok s sector off n done → n mod SECTOR = 0 → (Z.to_nat (n - done) ≤ Z.to_nat VIRTIO_XFER_CHUNK * fuel)%nat →
  vmapped (view (mm s)) (gpa ⊞ done) (n - done) →
  ∃ s', xfer_loop translate e fuel s VIRTIO_BLK_T_IN sector off gpa n true allow_lun done wrote = (s', VIRTIO_BLK_S_OK, wrote) ∧
    kept s s' ∧ disk s' = disk s ∧
    view (mm s') ≡ vwrite (view (mm s)) (gpa ⊞ done) (slice (sector * SECTOR + off + done) (n - done) (disk s)).
Proof.
  assert (∀ (s : World X) g o, view (mm s) ≡ vwrite (view (mm s)) g (slice o 0 (disk s))) as Nil.
  { intros. unfold slice. change (Z.to_nat 0) with 0%nat. rewrite take_0. symmetry. apply vwrite_nil. }
  induction fuel as [|fuel IH]; intros s sector off gpa n done wrote C A F M.
  { destruct C as [_ _ [C3 _] _ _ _]. replace (n - done) with 0 by lia. exists s. split_and!; done || apply Nil. }
  cbn [xfer_loop]. destruct (Z.leb_spec n done) as [E|E].
  { destruct C as [_ _ [C3 _] _ _ _]. replace (n - done) with 0 by lia. exists s. split_and!; done || apply Nil. }
  destruct (chunk_at s sector off n done C E A) as (T1 & T2 & T3 & S1 & S2).
  set (t := Z.min (n - done) VIRTIO_XFER_CHUNK) in *. set (sec := sat_add64 sector ((off + done) / SECTOR)) in *.
  pose proof C as [C1 C2 C3 C4 C5 C6].
  assert (blen (slice 0 t (bounce s)) = t) as Lb by (apply blen_slice; lia).
  unfold bounced. rewrite sectors_in; rewrite ?Lb, ?S2; [|done|done|lia|lia|lia].
  cbn [Z.eqb negb]. set (bs := slice (sector * SECTOR + off + done) t (disk s)).
  assert (blen bs = t) as Ls by (apply blen_slice; unfold SECTOR in *; lia).
  set (s1 := with_bounce s (fill bs (bounce s))). change (mm s1) with (mm s). change (bounce s1) with (fill bs (bounce s)).
  replace (slice 0 t (fill bs (bounce s))) with bs by (rewrite <-Ls; by rewrite slice_fill).
  destruct (write_bytes_view translate (mm s) (gpa ⊞ done) bs) as (m' & -> & V); [unfold W64; lia|apply add64_u64|intros k K; apply M; lia|].
  cbn [negb].
  assert (kept s (with_mm s1 m')) as K by (split; try done; apply blen_fill; lia).
  destruct (IH (with_mm s1 m') sector off gpa n (done + t) wrote) as (s' & -> & K' & D' & V').
  - apply (chunk_next s); [exact C|exact K|done|lia|done].
  - done.
  - unfold t, VIRTIO_XFER_CHUNK in *. lia.
  - change (mm (with_mm s1 m')) with m'. rewrite V. apply vmapped_vwrite. intros k Hk.
    replace (gpa ⊞ (done + t) ⊞ k) with (gpa ⊞ done ⊞ (t + k)) by (rewrite !add64_assoc; f_equal; lia). apply M. lia.
  - exists s'. split_and!; [done|by eapply kept_trans|by rewrite D'|].
    rewrite V'. change (mm (with_mm s1 m')) with m'. change (disk (with_mm s1 m')) with (disk s). rewrite V.
    assert (gpa ⊞ (done + t) = gpa ⊞ done ⊞ blen bs) as -> by (by rewrite Ls, add64_assoc).
    rewrite vwrite_app.
    + unfold bs. rewrite Z.add_assoc, slice_split by (unfold SECTOR in *; lia). by replace (t + (n - (done + t))) with (n - done) by lia.
    + rewrite Ls, blen_slice by (unfold SECTOR in *; lia). unfold W64. lia.
Qed.

Lemma xfer_out fuel : ∀ (s : World X) sector off gpa n done wrote bs,
  chunk_ok s sector off n done → n mod SECTOR = 0 → (Z.to_nat (n - done) ≤ Z.to_nat VIRTIO_XFER_CHUNK * fuel)%nat →
  vread (view (mm s)) (gpa ⊞ done) (n - done) = Some bs → 0 ≤ wrote ≤ 0xFFFFFFFF →
  ∃ s', xfer_loop translate e fuel s VIRTIO_BLK_T_OUT sector off gpa n false allow_lun done wrote =
          (s', VIRTIO_BLK_S_OK, sat32 wrote (n - done)) ∧
    kept s s' ∧ mm s' = mm s ∧ disk s' = splice (sector * SECTOR + off + done) bs (disk s).
Proof.
  assert (∀ (s : World X) o, disk s = splice o [] (disk s)) as Nil.
  { intros. unfold splice. cbn. rewrite Nat.add_0_r. by rewrite take_drop. }
  assert (∀ w, 0 ≤ w ≤ 0xFFFFFFFF → w = sat32 w 0) as Sat by (unfold sat32; lia).
  induction fuel as [|fuel IH]; intros s sector off gpa n done wrote bs C A F R W;
    pose proof C as [C1 C2 C3 C4 C5 C6]; pose proof R as L; apply vread_iff in L as [L _]; try lia.
  { replace (n - done) with 0 in * by lia. exists s. rewrite <-Sat by done.
    assert (bs = []) as -> by (apply nil_length_inv; unfold blen in L; lia). split_and!; done || apply Nil. }
  cbn [xfer_loop]. destruct (Z.leb_spec n done) as [E|E].
  { replace (n - done) with 0 in * by lia. exists s. rewrite <-Sat by done.
    assert (bs = []) as -> by (apply nil_length_inv; unfold blen in L; lia). split_and!; done || apply Nil. }
  destruct (chunk_at s sector off n done C E A) as (T1 & T2 & T3 & S1 & S2).
  set (t := Z.min (n - done) VIRTIO_XFER_CHUNK) in *. set (sec := sat_add64 sector ((off + done) / SECTOR)) in *.
  destruct (vread_split _ _ (n - done) t bs ltac:(lia) R) as [R1 R2].
  rewrite (read_bytes_view translate _ _ t _ ltac:(lia) (add64_u64 _ _) R1). cbn [negb].
  set (b1 := take (Z.to_nat t) bs) in *. set (b2 := drop (Z.to_nat t) bs) in *.
  assert (blen b1 = t) as L1 by (unfold b1, blen in *; rewrite length_take; lia).
  assert (blen b2 = n - done - t) as L2 by (unfold b2, blen in *; rewrite length_drop; lia).
  set (s1 := with_bounce s (fill b1 (bounce s))). change (bounce s1) with (fill b1 (bounce s)).
  unfold bounced. change (bounce s1) with (fill b1 (bounce s)).
  replace (slice 0 t (fill b1 (bounce s))) with b1 by (rewrite <-L1; by rewrite slice_fill).
  rewrite sectors_out; rewrite ?L1, ?S2; [|done|done|lia|change (disk s1) with (disk s); lia|change (disk s1) with (disk s); lia].
  cbn [Z.eqb negb]. change (VIRTIO_BLK_S_OK =? VIRTIO_BLK_S_OK) with true. change (VIRTIO_BLK_T_OUT =? VIRTIO_BLK_T_OUT) with true. cbn [negb].
  set (s2 := with_bounce _ _).
  assert (kept s s2) as K.
  { split; try done. unfold s2, s1. cbn [bounce with_bounce with_disk]. rewrite !blen_fill; rewrite ?blen_fill; lia. }
  assert (blen (disk s2) = blen (disk s)) as D2 by (apply blen_splice; rewrite ?L1; unfold SECTOR in *; cbn; lia).
  destruct (IH s2 sector off gpa n (done + t) (sat32 wrote t) b2) as (s' & -> & K' & M' & D').
  - apply (chunk_next s); [exact C|exact K|done|lia|done].
  - done.
  - unfold t, VIRTIO_XFER_CHUNK in *. lia.
  - change (mm s2) with (mm s). rewrite <-add64_assoc. by rewrite Z.sub_add_distr.
  - unfold sat32. lia.
  - exists s'. split_and!; [|by eapply kept_trans|done|].
    + rewrite sat32_sat32 by lia. do 2 f_equal. lia.
    + rewrite D'. change (disk s2) with (splice (sector * SECTOR + off + done) b1 (disk s)).
      rewrite Z.add_assoc, <-L1, splice_split by (unfold SECTOR in *; lia). unfold b1, b2. by rewrite take_drop.
Qed.

(** A request of whole sectors on the disk. *)
Record range_ok (s : World X) (sector off n : Z) : Prop := {
  rk_sector : 0 ≤ sector;
  rk_off : 0 ≤ off ∧ off mod SECTOR = 0;
  rk_disk : sector * SECTOR + off + n ≤ blen (disk s) < W64;
  rk_bounce : blen (bounce s) = VIRTIO_XFER_CHUNK;
}.

Lemma range_seg s sector off len n : range_ok s sector off (len + n) → 0 ≤ n → 0 < len < 2 ^ 32 → chunk_ok s sector off len 0.
Proof. intros [R1 R2 R3 R4] N L. split; try done; [split; [lia|done]|lia|lia]. Qed.

Lemma range_next s s' sector off len n : range_ok s sector off (len + n) → kept s s' → blen (disk s') = blen (disk s) →
  0 ≤ len → len mod SECTOR = 0 → range_ok s' sector (off + len) n.
Proof.
  intros [R1 [R2 R2'] R3 R4] K D L A. split; rewrite ?D; [done| |lia|by rewrite (kp_bounce _ _ K)].
  split; [lia|]. by rewrite Z.add_mod, R2', A.
Qed.

Lemma total_nonneg v ty segs : Forall (seg_ok v ty) segs → 0 ≤ total segs.
Proof. induction 1 as [|g segs [] _ IH]; [done|]. change (total (g :: segs)) with (g.1.2 + total segs). lia. Qed.

Lemma fuel_enough len : 0 ≤ len → (Z.to_nat (len - 0) ≤ Z.to_nat VIRTIO_XFER_CHUNK * S (Z.to_nat (len / VIRTIO_XFER_CHUNK)))%nat.
Proof. intros L. unfold VIRTIO_XFER_CHUNK. rewrite <-Z2Nat.inj_succ, <-Z2Nat.inj_mul by dlia. apply Z2Nat.inj_le; dlia. Qed.

Lemma transfer_in sector segs : ∀ (s : World X) off req in_len, range_ok s sector off (total segs) →
  Forall (seg_ok (view (mm s)) VIRTIO_BLK_T_IN) segs → 0 ≤ req ≤ 0xFFFFFFFF → 0 ≤ in_len ≤ 0xFFFFFFFF →
  ∃ s', transfer translate e s VIRTIO_BLK_T_IN sector allow_lun segs off req in_len =
          (s', VIRTIO_BLK_S_OK, off + total segs, req, sat32 in_len (total segs)) ∧
    kept s s' ∧ disk s' = disk s ∧ view (mm s') ≡ fill_segs (view (mm s)) (sector * SECTOR + off) segs (disk s).
Proof.
  induction segs as [|[[gpa len] w] segs IH]; intros s off req in_len R F Hr Hi.
  { exists s. cbn [transfer total foldr]. rewrite Z.add_0_r. split_and!; try done. do 2 f_equal. unfold sat32. lia. }
  apply Forall_cons in F as [[F1 F2 F3 F4 F5] F]. cbn [fst snd] in *. subst w. pose proof (total_nonneg _ _ _ F) as T.
  change (total ((gpa, len, VIRTIO_BLK_T_IN =? VIRTIO_BLK_T_IN) :: segs)) with (len + total segs) in *.
  change (VIRTIO_BLK_T_IN =? VIRTIO_BLK_T_IN) with true.
  cbn [transfer]. unfold xfer_data_seg.
  destruct (xfer_in (S (Z.to_nat (len / VIRTIO_XFER_CHUNK))) s sector off gpa len 0 0) as (s1 & -> & K & D & V);
    [by eapply range_seg|done|by apply fuel_enough; lia|by rewrite add64_0, Z.sub_0_r|].
  rewrite add64_0, Z.sub_0_r, Z.add_0_r in V by done. change (VIRTIO_BLK_S_OK =? VIRTIO_BLK_S_OK) with true. cbn [negb].
  replace (sat32 req 0) with req by (unfold sat32; lia).
  destruct (IH s1 (off + len) req (sat32 in_len len)) as (s' & -> & K' & D' & V').
  - apply (range_next s); [done|done|by rewrite D|lia|done].
  - eapply Forall_impl; [exact F|]. intros g G. rewrite V. by apply seg_ok_vwrite.
  - done.
  - unfold sat32. lia.
  - exists s'. split_and!; [|by eapply kept_trans|by rewrite D'|].
    + rewrite sat32_sat32 by lia. do 3 f_equal. lia.
    + cbn [fill_segs]. by rewrite V', D, V, Z.add_assoc.
Qed.

Lemma transfer_out sector segs : ∀ (s : World X) off req in_len, range_ok s sector off (total segs) →
  Forall (seg_ok (view (mm s)) VIRTIO_BLK_T_OUT) segs → 0 ≤ req ≤ 0xFFFFFFFF →
  ∃ s', transfer translate e s VIRTIO_BLK_T_OUT sector allow_lun segs off req in_len =
          (s', VIRTIO_BLK_S_OK, off + total segs, sat32 req (total segs), in_len) ∧
    kept s s' ∧ mm s' = mm s ∧ disk s' = store_segs (view (mm s)) (sector * SECTOR + off) segs (disk s).
Proof.
  induction segs as [|[[gpa len] w] segs IH]; intros s off req in_len R F Hr.
  { exists s. cbn [transfer total foldr]. rewrite Z.add_0_r. split_and!; try done. do 2 f_equal. unfold sat32. lia. }
  apply Forall_cons in F as [[F1 F2 F3 F4 F5] F]. cbn [fst snd] in *. subst w. pose proof (total_nonneg _ _ _ F) as T.
  change (total ((gpa, len, VIRTIO_BLK_T_OUT =? VIRTIO_BLK_T_IN) :: segs)) with (len + total segs) in *.
  change (VIRTIO_BLK_T_OUT =? VIRTIO_BLK_T_IN) with false.
  cbn [transfer]. unfold xfer_data_seg. destruct (vread_total _ _ _ F4) as [bs B].
  destruct (xfer_out (S (Z.to_nat (len / VIRTIO_XFER_CHUNK))) s sector off gpa len 0 0 bs) as (s1 & -> & K & M & D);
    [by eapply range_seg|done|by apply fuel_enough; lia|by rewrite add64_0, Z.sub_0_r|done|].
  rewrite Z.add_0_r in D. change (VIRTIO_BLK_S_OK =? VIRTIO_BLK_S_OK) with true. cbn [negb].
  replace (sat32 0 (len - 0)) with len by (unfold sat32; lia).
  assert (blen (disk s1) = blen (disk s)) as D1.
  { rewrite D. apply vread_iff in B as [B _]; [|lia]. destruct R as [? ? ? ?]. apply blen_splice; rewrite ?B; unfold SECTOR in *; lia. }
  destruct (IH s1 (off + len) (sat32 req len) in_len) as (s' & -> & K' & M' & D').
  - by apply (range_next s); [| |done|lia|].
  - by rewrite M.
  - unfold sat32. lia.
  - exists s'. split_and!; [|by eapply kept_trans|by rewrite M'|].
    + rewrite sat32_sat32 by lia. do 3 f_equal. lia.
    + cbn [store_segs]. by rewrite D', D, M, B, Z.add_assoc.
Qed.

End Exact.

(** ** A request is served exactly *)

(** Address, length, flags and successor of a descriptor. *)
Definition desc_at (v : View) (dt i : Z) : option (Z * Z * Z * Z) :=
  raw ← vread v (dt ⊞ i * 16) 16;
  Some (from_le (slice 0 8 raw), from_le (slice 8 4 raw), from_le (slice 12 2 raw), from_le (slice 14 2 raw)).

Definition writable (flags : Z) : bool := negb (Z.land flags VRING_DESC_F_WRITE =? 0).

(** The buffers of the chain that starts at descriptor [i]. *)
Inductive chain_at (v : View) (dt : Z) : Z → list Seg → Prop :=
  | chain_last i a l fl nx : desc_at v dt i = Some (a, l, fl, nx) → Z.land fl VRING_DESC_F_NEXT = 0 →
      chain_at v dt i [(a, l, writable fl)]
  | chain_more i a l fl nx ds : desc_at v dt i = Some (a, l, fl, nx) → Z.land fl VRING_DESC_F_NEXT ≠ 0 →
      chain_at v dt nx ds → chain_at v dt i ((a, l, writable fl) :: ds).

(** A read or write request as a driver lays it out: header, data, status byte. *)
Record request (v : View) (qsize dt head ty sector st : Z) (segs : list Seg) : Prop := {
  rq_chain : ∃ ha hl hw h, chain_at v dt head ((ha, hl, hw) :: segs ++ [(st, 1, true)]) ∧ 16 ≤ hl ∧ u64 ha ∧
    vread v ha 16 = Some h ∧ from_le (slice 0 4 h) = ty ∧ from_le (slice 8 8 h) = sector;
  rq_kind : ty = VIRTIO_BLK_T_IN ∨ ty = VIRTIO_BLK_T_OUT;
  rq_segs : Forall (seg_ok v ty) segs;
  rq_some : segs ≠ [];
  rq_size : Z.of_nat (length segs) + 2 ≤ qsize ≤ QUEUE_MAX;
  rq_status : st ≠ 0 ∧ u64 st ∧ vmapped v st 1;
}.

(** What serving it means: the guest's memory, the disk, and the bytes the guest got. *)
Definition served (v : View) (d : list Z) (ty sector : Z) (segs : list Seg) : View * list Z * Z :=
  if ty =? VIRTIO_BLK_T_IN then (fill_segs v (sector * SECTOR) segs d, d, total segs)
  else (v, store_segs v (sector * SECTOR) segs d, 0).

(** Its completion: the status byte, the used element, the used index. *)
Definition completed (v : View) (qsize us st head used n : Z) : View :=
  vwrite (vwrite (vwrite v st [VIRTIO_BLK_S_OK]) (us ⊞ 4 ⊞ used mod qsize * 8) (to_le 4 head ++ to_le 4 (sat32 n 1)))
    (us ⊞ 2) (to_le 2 ((used + 1) mod 65536)).

Definition counted (readonly : bool) (ty n : Z) : Z :=
  if readonly && (ty =? VIRTIO_BLK_T_IN) then n mod 2 ^ 32 else if ty =? VIRTIO_BLK_T_OUT then sat32 0 n else 0.

Section Request.
Context (translate : Z → option Z) `{!GuestMap translate} {X : Type} (e : Env X).

Local Notation view := (view translate).

Lemma desc_read (m : mem) dt i a l fl nx : desc_at (view m) dt i = Some (a, l, fl, nx) → ∃ raw,
  read_bytes translate m (dt ⊞ i * 16) 16 = (raw, true) ∧ from_le (slice 0 8 raw) = a ∧ from_le (slice 8 4 raw) = l ∧
  from_le (slice 12 2 raw) = fl ∧ from_le (slice 14 2 raw) = nx.
Proof.
  unfold desc_at. destruct (vread _ _ 16) as [raw|] eqn:R; [|done]. cbn. intros [= <- <- <- <-]. exists raw.
  split; [|done]. apply (read_bytes_view translate m _ 16); [lia|apply add64_u64|done].
Qed.

(** The walk of the data and status descriptors. *)
Lemma chain_walk (s : World X) qsize dt st segs : st ≠ 0 → Forall (λ g : Seg, 1 < g.1.2) segs → ∀ fuel i chain c,
  chain_at (view (mm s)) dt i (segs ++ [(st, 1, true)]) →
  (length segs < fuel)%nat → chain + Z.of_nat (length segs) ≤ qsize →
  c_got_hdr c = true → c_status c = 0 → Z.of_nat (length (c_segs c) + length segs) ≤ DATA_SEGS →
  chain_loop translate fuel s qsize dt i chain c = (s, mkChain (c_hdr c) (c_segs c ++ segs) st true).
Proof.
  intros St. induction segs as [|g segs IH]; intros L fuel i chain c C F Q G S0 D; destruct fuel as [|fuel]; try (cbn in F; lia).
  - inversion C as [? a l fl nx De N|? a l fl nx ds De N C']; subst; [|by inversion C'].
    destruct (desc_read _ _ _ _ _ _ _ De) as (raw & R & R1 & R2 & R3 & R4). cbn [chain_loop length] in *.
    rewrite (proj2 (Z.ltb_ge _ _)) by lia. rewrite R, R1, R2, R3, R4, G, S0, N. cbn [negb andb].
    unfold writable in *. match goal with H : negb _ = true |- _ => rewrite H end. by rewrite app_nil_r.
  - apply Forall_cons in L as [L1 L]. inversion C as [? a l fl nx De N E|? a l fl nx ds De N C']; subst; [by destruct segs|].
    destruct (desc_read _ _ _ _ _ _ _ De) as (raw & R & R1 & R2 & R3 & R4). cbn [chain_loop length fst snd] in *.
    rewrite (proj2 (Z.ltb_ge qsize chain)) by lia. rewrite R, R1, R2, R3, R4, G, S0. cbn [negb andb].
    rewrite (proj2 (Z.eqb_neq l 1)), andb_false_r by lia. cbn [andb]. rewrite (proj2 (Z.ltb_lt 0 l)), (proj2 (Z.ltb_lt _ DATA_SEGS)) by lia.
    cbn [andb]. rewrite (proj2 (Z.eqb_neq _ 0)) by done.
    rewrite (IH L fuel nx (chain + 1)); cbn [c_hdr c_segs c_status c_got_hdr]; rewrite ?length_app; cbn [length]; try done; try lia.
    by rewrite <-app_assoc.
Qed.

Lemma chain_request (s : World X) qsize dt head ty sector st segs : request (view (mm s)) qsize dt head ty sector st segs →
  ∃ hdr, chain_loop translate (S (S (Z.to_nat qsize))) s qsize dt head 0 chain_empty = (s, mkChain hdr segs st true) ∧
    from_le (slice 0 4 hdr) = ty ∧ from_le (slice 8 8 hdr) = sector.
Proof.
  intros [(ha & hl & hw & h & C & Hl & U & R & T & Sc) K Sg _ Q (St & _ & _)].
  inversion C as [? a l fl nx De N E|? a l fl nx ds De N C']; subst; [by destruct segs|].
  destruct (desc_read _ _ _ _ _ _ _ De) as (raw & Rd & R1 & R2 & R3 & R4). exists h. split; [|done].
  pose proof R as Lh. apply vread_iff in Lh as [Lh _]; [|done].
  set (fuel := S (Z.to_nat qsize)). cbn [chain_loop]. rewrite (proj2 (Z.ltb_ge qsize 0)) by lia. rewrite Rd, R1, R2, R3, R4.
  cbn [chain_empty c_got_hdr negb andb]. rewrite (proj2 (Z.leb_le 16 hl)) by lia.
  rewrite (read_bytes_view translate _ _ 16 h) by done. cbn [negb]. rewrite (proj2 (Z.eqb_neq _ 0)) by done.
  rewrite (chain_walk s qsize dt st segs); cbn [c_hdr c_segs c_status c_got_hdr]; try done.
  - rewrite fill_whole; [done|]. by rewrite Lh.
  - eapply Forall_impl; [exact Sg|]. intros g [G1 G2 _ _ _]. unfold SECTOR in *. dlia.
  - unfold fuel. lia.
  - lia.
  - change (c_segs chain_empty) with (@nil Seg). cbn [length]. unfold DATA_SEGS. lia.
Qed.

(** The data part. *)
Lemma serve_request (s : World X) readonly qsize dt head ty sector st segs written :
  plain e (negb readonly) → (readonly = true → ty = VIRTIO_BLK_T_IN) →
  request (view (mm s)) qsize dt head ty sector st segs → range_ok s sector 0 (total segs) → 0 ≤ written ≤ 0xFFFFFFFF →
  let '(v1, d1, n) := served (view (mm s)) (disk s) ty sector segs in
  ∃ s', serve translate e s readonly ty sector segs written =
      (s', VIRTIO_BLK_S_OK, sat32 0 n, sat32 written (counted readonly ty (total segs))) ∧
    kept s s' ∧ view (mm s') ≡ v1 ∧ disk s' = d1.
Proof.
  intros P RO [_ K Sg Ne _ _] R W. unfold served, serve, counted. pose proof (total_nonneg _ _ _ Sg) as T.
  destruct segs as [|g segs]; [done|]. set (gs := g :: segs) in *.
  destruct K as [-> | ->].
  - destruct (transfer_in translate e (negb readonly) P sector gs s 0 0 0 R Sg) as (s' & E & K & D & V); [done|done|].
    exists s'. cbn [Z.eqb]. rewrite andb_false_r. change (VIRTIO_BLK_T_IN =? VIRTIO_BLK_T_FLUSH) with false.
    change (VIRTIO_BLK_T_IN =? VIRTIO_BLK_T_GET_ID) with false. rewrite E. rewrite Z.add_0_r in V.
    split_and!; try done. rewrite andb_true_r. by destruct readonly.
  - destruct readonly; [by discriminate RO|].
    destruct (transfer_out translate e true P sector gs s 0 0 0 R Sg) as (s' & E & K & M & D); [done|].
    exists s'. change (VIRTIO_BLK_T_OUT =? VIRTIO_BLK_T_IN) with false. change (VIRTIO_BLK_T_OUT =? VIRTIO_BLK_T_FLUSH) with false.
    change (VIRTIO_BLK_T_OUT =? VIRTIO_BLK_T_GET_ID) with false. cbn [andb negb]. rewrite E. rewrite Z.add_0_r in D.
    rewrite M. split_and!; done.
Qed.

(** Its completion. *)
Lemma complete_request (m : mem) qsize us st head used n status : u64 st → vmapped (view m) st 1 →
  vmapped (view m) (us ⊞ 4 ⊞ used mod qsize * 8) 8 → vmapped (view m) (us ⊞ 2) 2 → status = VIRTIO_BLK_S_OK →
  ∃ m1 m2 m3, write_bytes translate m st [status] = (m1, true) ∧
    write_bytes translate m1 (us ⊞ 4 ⊞ used mod qsize * 8) (to_le 4 head ++ to_le 4 (sat32 n 1)) = (m2, true) ∧
    write_u16 translate m2 (us ⊞ 2) ((used + 1) mod 65536) = (m3, true) ∧
    view m3 ≡ completed (view m) qsize us st head used n.
Proof.
  intros U M1 M2 M3 ->. destruct (write_bytes_view translate m st [VIRTIO_BLK_S_OK]) as (m1 & E1 & V1); [done..|].
  set (el := to_le 4 head ++ to_le 4 (sat32 n 1)). assert (blen el = 8) as Le by (unfold blen, el; by rewrite length_app, !length_to_le).
  destruct (write_bytes_view translate m1 (us ⊞ 4 ⊞ used mod qsize * 8) el) as (m2 & E2 & V2);
    [by rewrite Le|apply add64_u64|rewrite Le, V1; by apply vmapped_vwrite|].
  destruct (write_bytes_view translate m2 (us ⊞ 2) (to_le 2 ((used + 1) mod 65536))) as (m3 & E3 & V3);
    [by rewrite blen_to_le|apply add64_u64|rewrite blen_to_le, V2, V1; by repeat apply vmapped_vwrite|].
  exists m1, m2, m3. split_and!; [done..|]. unfold completed. by rewrite V3, V2, V1.
Qed.

(** The rings are mapped where the next request needs them, and [head] is published. *)
Record ring_ok (v : View) (r : Run) (qsize av us head : Z) : Prop := {
  rg_head : ∃ b, vread v (av ⊞ 4 ⊞ r_last r mod qsize * 2) 2 = Some b ∧ from_le b = head;
  rg_elem : vmapped v (us ⊞ 4 ⊞ r_used r mod qsize * 8) 8;
  rg_idx : vmapped v (us ⊞ 2) 2;
  rg_written : 0 ≤ r_written r ≤ 0xFFFFFFFF;
}.

Lemma vmapped_served v d ty sector segs a n : vmapped v a n → vmapped (served v d ty sector segs).1.1 a n.
Proof.
  unfold served. destruct (_ =? _); [|done]. cbn [fst]. generalize (sector * SECTOR) as off. revert v.
  induction segs as [|[[g l] w] segs IH]; intros v off M; [done|]. cbn [fill_segs]. apply IH. by apply vmapped_vwrite.
Qed.

(** C31: A read or write request is served exactly. When the next published request is
    laid out as a driver lays it out (header, data segments of whole sectors in mapped
    memory, a status byte), its sectors are on the disk, and the image in memory serves
    the device, then the queue takes it and: for a read the segments hold the disk's
    bytes in turn, and the disk is unchanged; for a write the disk holds the segments'
    bytes and nothing else of it changes; then the status byte is OK, the used ring has
    the request's head with the number of bytes the guest got, and the used index is
    one up. Nothing else of the guest's memory changes. *)
Theorem request_served (s : World X) (r : Run) (qsize dt av us head ty sector st : Z) (segs : list Seg) (readonly : bool) :
  plain e (negb readonly) → (readonly = true → ty = VIRTIO_BLK_T_IN) →
  ring_ok (view (mm s)) r qsize av us head →
  request (view (mm s)) qsize dt head ty sector st segs → range_ok s sector 0 (total segs) →
  let '(v1, d1, n) := served (view (mm s)) (disk s) ty sector segs in
  ∃ s' r', process_one translate e s r qsize dt av us readonly = (s', r', true) ∧
    r' = mkRun ((r_last r + 1) mod 65536) ((r_used r + 1) mod 65536) (sat32 (r_written r) (counted readonly ty (total segs)))
           (Z.min (r_nreq r + 1) 65535) (mkLast head st ty sector true) ∧
    view (mm s') ≡ completed v1 qsize us st head (r_used r) (sat32 0 n) ∧ disk s' = d1 ∧ kept s s'.
Proof.
  intros P RO [(hb & Hb & <-) El Ix W] Rq R. pose proof (serve_request s readonly _ _ _ _ _ _ _ (r_written r) P RO Rq R W) as S.
  pose proof (vmapped_served (view (mm s)) (disk s) ty sector segs) as Ms.
  destruct (served _ _ _ _ _) as [[v1 d1] n]. destruct S as (s1 & Es & K & V & D). cbn [fst] in Ms.
  destruct (chain_request s _ _ _ _ _ _ _ Rq) as (hdr & Ec & Et & Ew). destruct Rq as [_ _ _ _ _ (St & Us & M)].
  destruct (complete_request (mm s1) qsize us st (from_le hb) (r_used r) (sat32 0 n) VIRTIO_BLK_S_OK) as (m1 & m2 & m3 & E1 & E2 & E3 & V3);
    [done|by rewrite V; apply Ms..|done|].
  unfold process_one, read_u16. rewrite (read_bytes_view translate _ _ 2 hb) by (done || apply add64_u64). rewrite Ec.
  cbn [c_hdr c_segs c_status]. rewrite Et, Ew, Es, (proj2 (Z.eqb_neq st 0) St), E1. cbn [negb r_used mm with_mm]. rewrite E2. cbn [negb mm with_mm].
  rewrite E3. cbn [negb]. eexists _, _. split_and!; [done|done| |done|by destruct K].
  etrans; [exact V3|]. unfold completed. by rewrite V.
Qed.

End Request.

(** ** The guest's memory is such a map *)

(** Memory and firmware of whole pages. *)
Definition whole_pages (h : Slots) : Prop := FLASH_LEN h mod 4096 = 0.

Lemma in_page_mod g k : u64 g → 0 ≤ k < page_left g → g / 4096 = (g + k) / 4096 ∧ u64 (g + k).
Proof.
  intros U K. pose proof (page_left_range g U) as [_ ?]. split; [|unfold u64 in *; lia].
  unfold page_left in K. change 0xFFF with 4095 in K. rewrite land_page in K. unfold u64 in U. dlia.
Qed.

Lemma mapped_page h g x k : slots_ok h → whole_pages h → u64 g → mapped h g = Some x → 0 ≤ k < page_left g → mapped h (g + k) = Some (x + k).
Proof.
  intros O Wp U M K. destruct (in_page_mod g k U K) as [P U']. destruct (guest_uefi_report_ram_should_map g) eqn:Sm.
  - assert (guest_uefi_report_ram_should_map (g + k) = true) as Sm'.
    { unfold guest_uefi_report_ram_should_map, PLATFORM_RAM_BYTES, PLATFORM_REPORT_RAM_BYTES in *.
      apply andb_true_iff in Sm as [S1%Z.leb_le S2%Z.ltb_lt]. apply andb_true_iff. split; [apply Z.leb_le; lia|apply Z.ltb_lt]. dlia. }
    destruct (mapped_at h g x O U M) as (i & r & Ri & N & B & _).
    rewrite mapped_report in M |- * by done. destruct (page_split g U) as [Q1 Q2]. destruct (page_split (g + k) U') as [Q1' Q2'].
    assert (report_ram_hpa_lookup (REPORT_RAM h) (g + k) = report_ram_hpa_lookup (REPORT_RAM h) g) as ->.
    { unfold report_ram_hpa_lookup. f_equal. rewrite Q1, Q1'. unfold GUEST_UEFI_REPORT_RAM_PAGE. dlia. }
    destruct (Z.eqb_spec (report_ram_hpa_lookup (REPORT_RAM h) g) 0) as [E|E]; [done|]. injection M as <-. f_equal. rewrite Q2, Q2'.
    destruct (find_key_at _ _ E) as (j & y & L & Ey). unfold report_ram_hpa_lookup in *. rewrite Ey in *.
    assert (regions h !! S (S j) = Some (y, GUEST_UEFI_REPORT_RAM_PAGE)) as R.
    { change (((λ p, (p.2, GUEST_UEFI_REPORT_RAM_PAGE)) <$> REPORT_RAM h) !! j = Some (y, GUEST_UEFI_REPORT_RAM_PAGE)).
      by rewrite list_lookup_fmap, L. }
    pose proof (Forall_lookup_1 _ _ _ _ (ok_regions _ O) R) as (H1 & _ & H3). cbn [fst snd] in *. unfold GUEST_UEFI_REPORT_RAM_PAGE in *.
    rewrite !add64_small; dlia.
  - unfold mapped, guest_uefi_gpa_to_hpa in *. rewrite Sm in M. pose proof (ok_regions _ O) as F. unfold u64 in U.
    pose proof (Forall_lookup_1 _ _ 0%nat _ F eq_refl) as (A1 & _ & A3). pose proof (Forall_lookup_1 _ _ 1%nat _ F eq_refl) as (B1 & _ & B3).
    cbn [fst snd] in *. unfold whole_pages, guest_uefi_flash_off, GUEST_UEFI_FLASH_BASE, GUEST_UEFI_FLASH_WINDOW in *.
    destruct (Z.ltb_spec g Hw.GUEST_UEFI_LOW_RAM_BYTES) as [L|L].
    + assert (g + k < Hw.GUEST_UEFI_LOW_RAM_BYTES) as L' by (unfold Hw.GUEST_UEFI_LOW_RAM_BYTES in *; dlia).
      rewrite (proj2 (Z.ltb_lt _ _) L'). destruct (_ =? 0); [done|]. injection M as <-. cbn [snd]. f_equal. rewrite !add64_small by lia. lia.
    + destruct (Z.ltb_spec (g + k) Hw.GUEST_UEFI_LOW_RAM_BYTES) as [L'|_]; [lia|].
      destruct (_ && _) eqn:Fl; [|done]. apply andb_true_iff in Fl as [F1%Z.leb_le F2%Z.ltb_lt].
      rewrite (proj2 (Z.leb_le _ (g + k))), (proj2 (Z.ltb_lt (g + k) _)) by dlia. cbn [andb snd] in *.
      destruct (Z.eqb_spec (FLASH_HPA h) 0); [done|]. cbn [orb] in *. destruct (Z.leb_spec (FLASH_LEN h) (g - 0xFFC00000)); [done|].
      rewrite (proj2 (Z.leb_gt _ _)) by dlia. injection M as <-. f_equal. rewrite !add64_small by dlia. lia.
Qed.

#[export] Instance mapped_guest_map h : slots_ok h → whole_pages h → GuestMap (mapped h).
Proof.
  intros O W. split.
  - intros. by eapply mapped_page.
  - intros. by eapply mapped_inj.
Qed.


(** ** Disks keep to the guest's memory *)

Section Confined.
Context (translate : Z → option Z) `{!GuestMap translate} {X : Type} (e : Env X).

(** A host byte that some guest address is translated to. *)
Definition reachable (x : Z) : Prop := ∃ g, u64 g ∧ translate g = Some x.

Local Notation agree := (GuestRam.agree reachable).

Record agree_w (s1 s2 : World X) : Prop := {
  ag_mm : agree (mm s1) (mm s2);
  ag_disk : disk s1 = disk s2;
  ag_ext : ext s1 = ext s2;
  ag_bounce : bounce s1 = bounce s2;
  ag_fail : XLATE_FAIL s1 = XLATE_FAIL s2;
}.

(** A step reads and writes reachable bytes only. *)
Definition confined {A} (f : World X → World X * A) : Prop :=
  ∀ s1 s2, agree_w s1 s2 → (f s1).2 = (f s2).2 ∧ agree_w (f s1).1 (f s2).1 ∧ ∀ x, ¬ reachable x → mm (f s1).1 x = mm s1 x.

(** The same for a step on memory alone. *)
Definition confined_mem {A} (f : mem → mem * A) : Prop :=
  ∀ m1 m2, agree m1 m2 → (f m1).2 = (f m2).2 ∧ agree (f m1).1 (f m2).1 ∧ ∀ x, ¬ reachable x → (f m1).1 x = m1 x.

Lemma reach_page g h k : u64 g → translate g = Some h → 0 ≤ k < page_left g → reachable (h + k).
Proof. intros U T K. destruct (in_page translate g h k U T K) as [_ E]. exists (g ⊞ k). split; [apply add64_u64|done]. Qed.

Lemma confined_mm {A} (f : mem → mem * A) s1 s2 : confined_mem f → agree_w s1 s2 →
  (f (mm s1)).2 = (f (mm s2)).2 ∧ agree_w (with_mm s1 (f (mm s1)).1) (with_mm s2 (f (mm s2)).1) ∧
  ∀ x, ¬ reachable x → (f (mm s1)).1 x = mm s1 x.
Proof. intros F [? ? ? ? ?]. destruct (F (mm s1) (mm s2)) as (R & Ag & Out); [done|]. split_and!; [done|by split|done]. Qed.

Lemma read_loop_agree m1 m2 gpa n fuel : agree m1 m2 → ∀ done, read_loop translate fuel m1 gpa n done = read_loop translate fuel m2 gpa n done.
Proof.
  intros A. induction fuel as [|fuel IH]; intros dn; [done|]. cbn [read_loop]. destruct (_ <=? _); [done|].
  destruct (translate _) as [h|] eqn:T; [|done]. destruct (_ =? 0); [done|]. rewrite IH.
  rewrite (peek_agree reachable m1 m2); [done|done|]. intros k K. eapply reach_page; [apply add64_u64|exact T|lia].
Qed.

Lemma read_bytes_agree s1 s2 gpa n : agree_w s1 s2 → read_bytes translate (mm s1) gpa n = read_bytes translate (mm s2) gpa n.
Proof. intros []. by apply read_loop_agree. Qed.

Lemma write_loop_confined gpa src fuel : ∀ done, 0 ≤ done → confined_mem (λ m, write_loop translate fuel m gpa src done).
Proof.
  induction fuel as [|fuel IH]; intros dn D m1 m2 A; [done|]. cbn [write_loop]. destruct (Z.leb_spec (blen src) dn); [done|].
  destruct (translate _) as [h|] eqn:T; [|done]. pose proof (page_left_range _ (add64_u64 gpa dn)) as [P _].
  set (t := Z.min _ _). assert (0 < t ≤ page_left (gpa ⊞ dn)) as Ht by (unfold t; lia). destruct (Z.eqb_spec t 0); [done|].
  destruct (IH (dn + t) ltac:(lia) (poke m1 h (slice dn t src)) (poke m2 h (slice dn t src))) as (R & Ag & Out);
    [by apply poke_agree|]. split_and!; [done|done|]. intros x Nx. rewrite Out by done. apply (poke_outside reachable); [|done].
  intros k K. eapply reach_page; [apply add64_u64|exact T|]. unfold slice, blen in K. rewrite length_take in K. lia.
Qed.

Lemma write_bytes_confined gpa src : confined_mem (λ m, write_bytes translate m gpa src).
Proof. apply write_loop_confined. lia. Qed.

Lemma sector_confined ty sec buf al : confined (λ s, let '(s, b, st) := blk_sector_rw_with e s ty sec buf al in (s, (b, st))).
Proof.
  intros [m1 d1 x1 b1 f1] [m2 d2 x2 b2 f2] [Am Ad Ax Ab Af]. cbn [mm disk ext bounce XLATE_FAIL] in *. subst d2 x2 b2 f2.
  unfold blk_sector_rw_with. cbn [mm disk ext bounce XLATE_FAIL]. repeat case_match; simplify_eq; done.
Qed.

Lemma bounced_confined ty sec t al : confined (λ s, bounced e s ty sec t al).
Proof.
  intros s1 s2 A. unfold bounced. rewrite (ag_bounce _ _ A). destruct (sector_confined ty sec (slice 0 t (bounce s2)) al s1 s2 A) as (R & Ag & Out).
  destruct (blk_sector_rw_with e s1 _ _ _ _) as [[s1' c1] st1], (blk_sector_rw_with e s2 _ _ _ _) as [[s2' c2] st2].
  cbn [fst snd] in *. injection R as -> ->. split_and!; [done| |done]. destruct Ag as [? ? ? B ?]. split; try done. cbn. by rewrite B.
Qed.

Lemma with_bounce_agree s1 s2 b : agree_w s1 s2 → agree_w (with_bounce s1 b) (with_bounce s2 b).
Proof. intros []. by split. Qed.

Lemma xlate_fail_agree s1 s2 : agree_w s1 s2 → agree_w (xlate_fail s1) (xlate_fail s2).
Proof. intros [? ? ? ? F]. split; try done. cbn. by rewrite F. Qed.

Lemma xfer_loop_confined ty sector off gpa n dw al fuel : ∀ dn wrote,
  confined (λ s, let '(s, st, w) := xfer_loop translate e fuel s ty sector off gpa n dw al dn wrote in (s, (st, w))).
Proof.
  induction fuel as [|fuel IH]; intros dn wrote s1 s2 A; [done|]. cbn [xfer_loop]. destruct (_ <=? _); [done|].
  set (t := Z.min _ _). set (sec := sat_add64 _ _). destruct dw.
  - destruct (bounced_confined ty sec t al s1 s2 A) as (R & Ag & Out).
    destruct (bounced e s1 _ _ _ _) as [s1' st], (bounced e s2 _ _ _ _) as [s2' st2]. cbn [fst snd] in *. subst st2.
    destruct (negb _); [done|]. rewrite (ag_bounce _ _ Ag). set (bs := slice 0 t (bounce s2')).
    destruct (confined_mm _ _ _ (write_bytes_confined (gpa ⊞ dn) bs) Ag) as (R & Ag' & Out').
    destruct (write_bytes translate (mm s1') _ _) as [m1 ok], (write_bytes translate (mm s2') _ _) as [m2 ok2]. cbn [fst snd] in *. subst ok2.
    assert (∀ x, ¬ reachable x → m1 x = mm s1 x) as Out1 by (intros x Nx; rewrite Out' by done; by apply Out).
    destruct ok; cbn [negb]; [|done]. destruct (IH (dn + t) wrote _ _ Ag') as (R & Ag2 & Out2). split_and!; [done|done|].
    intros x Nx. rewrite Out2 by done. by apply Out1.
  - rewrite (read_bytes_agree s1 s2 _ _ A). destruct (read_bytes translate (mm s2) _ _) as [bs ok]. rewrite (ag_bounce _ _ A).
    pose proof (with_bounce_agree _ _ (fill bs (bounce s2)) A) as A1. destruct ok; cbn [negb]; [|done].
    destruct (bounced_confined ty sec t al _ _ A1) as (R & Ag & Out).
    destruct (bounced e (with_bounce s1 _) _ _ _ _) as [s1' st], (bounced e (with_bounce s2 _) _ _ _ _) as [s2' st2].
    cbn [fst snd] in *. subst st2. destruct (negb _); [done|].
    set (w' := if ty =? VIRTIO_BLK_T_OUT then _ else _). destruct (IH (dn + t) w' _ _ Ag) as (R & Ag2 & Out2).
    split_and!; [done|done|]. intros x Nx. rewrite Out2 by done. by apply Out.
Qed.

Lemma transfer_confined ty sector al segs : ∀ off req in_len,
  confined (λ s, let '(s, st, o, w, n) := transfer translate e s ty sector al segs off req in_len in (s, (st, o, w, n))).
Proof.
  induction segs as [|[[gpa len] dw] segs IH]; intros off req in_len s1 s2 A; [done|]. cbn [transfer]. unfold xfer_data_seg.
  set (fuel := S _). destruct (xfer_loop_confined ty sector off gpa len dw al fuel 0 0 s1 s2 A) as (R & Ag & Out).
  destruct (xfer_loop translate e fuel s1 _ _ _ _ _ _ _ _ _) as [[s1' st] w], (xfer_loop translate e fuel s2 _ _ _ _ _ _ _ _ _) as [[s2' st2] w2].
  cbn [fst snd] in *. injection R as -> ->. destruct (negb _); [done|].
  destruct (IH (off + len) (sat32 req w2) (if dw then sat32 in_len len else in_len) _ _ Ag) as (R & Ag2 & Out2).
  split_and!; [done|done|]. intros x Nx. rewrite Out2 by done. by apply Out.
Qed.

Lemma id_loop_confined gpa len fuel : ∀ off n, confined_mem (λ m, let '(m, ok, n) := id_loop translate fuel m gpa len off n in (m, (ok, n))).
Proof.
  induction fuel as [|fuel IH]; intros off n m1 m2 A; [done|]. cbn [id_loop]. destruct (_ <=? _); [done|].
  set (k := Z.min _ _). destruct (write_bytes_confined (gpa ⊞ off) (replicate (Z.to_nat k) 0) m1 m2 A) as (R & Ag & Out).
  destruct (write_bytes translate m1 _ _) as [m1' ok], (write_bytes translate m2 _ _) as [m2' ok2]. cbn [fst snd] in *. subst ok2.
  destruct ok; cbn [negb]; [|done]. destruct (IH (sat32 off k) (sat32 n k) _ _ Ag) as (R & Ag2 & Out2).
  split_and!; [done|done|]. intros x Nx. rewrite Out2 by done. by apply Out.
Qed.

Lemma get_id_confined segs : ∀ n, confined_mem (λ m, let '(m, st, n) := get_id translate m segs n in (m, (st, n))).
Proof.
  induction segs as [|[[gpa len] dw] segs IH]; intros n m1 m2 A; [done|]. cbn [get_id]. destruct (_ || _); [by apply IH|].
  set (fuel := S _). destruct (id_loop_confined gpa len fuel 0 n m1 m2 A) as (R & Ag & Out).
  destruct (id_loop translate fuel m1 _ _ _ _) as [[m1' ok] n1], (id_loop translate fuel m2 _ _ _ _) as [[m2' ok2] n2].
  cbn [fst snd] in *. injection R as -> ->. destruct ok2; cbn [negb]; [|done]. destruct (IH n2 _ _ Ag) as (R & Ag2 & Out2).
  split_and!; [done|done|]. intros x Nx. rewrite Out2 by done. by apply Out.
Qed.

Lemma serve_confined readonly ty sector segs written :
  confined (λ s, let '(s, st, n, w) := serve translate e s readonly ty sector segs written in (s, (st, n, w))).
Proof.
  intros s1 s2 A. unfold serve. destruct (ty =? VIRTIO_BLK_T_FLUSH).
  { rewrite (ag_ext _ _ A). destruct (virtio_flush_status e readonly (ext s2)). destruct A. by split_and!. }
  destruct (ty =? VIRTIO_BLK_T_GET_ID).
  { destruct (confined_mm _ _ _ (get_id_confined segs 0) A) as (R & Ag & Out).
    destruct (get_id translate (mm s1) segs 0) as [[m1 st] n], (get_id translate (mm s2) segs 0) as [[m2 st2] n2].
    cbn [fst snd] in *. injection R as -> ->. done. }
  destruct (_ && _); [done|]. destruct segs as [|g segs]; [done|].
  destruct (transfer_confined ty sector (negb readonly) (g :: segs) 0 0 0 s1 s2 A) as (R & Ag & Out).
  destruct (transfer translate e s1 _ _ _ _ _ _ _) as [[[[s1' st] o] w] n], (transfer translate e s2 _ _ _ _ _ _ _) as [[[[s2' st2] o2] w2] n2].
  cbn [fst snd] in *. injection R as -> -> -> ->. done.
Qed.

(** The descriptor walk only reads. *)
Lemma chain_loop_confined qsize dt fuel : ∀ d n c, confined (λ s, chain_loop translate fuel s qsize dt d n c).
Proof.
  induction fuel as [|fuel IH]; intros d n c s1 s2 A; [done|]. cbn [chain_loop]. destruct (_ <? _); [done|].
  rewrite (read_bytes_agree s1 s2 _ _ A). destruct (read_bytes translate (mm s2) _ 16) as [raw ok].
  pose proof (xlate_fail_agree _ _ A) as Af. destruct ok; cbn [negb]; [|done].
  assert (∀ c, let go (s : World X) := if Z.land (from_le (slice 12 2 raw)) VRING_DESC_F_NEXT =? 0 then (s, c)
      else chain_loop translate fuel s qsize dt (from_le (slice 14 2 raw)) (n + 1) c in
    (go s1).2 = (go s2).2 ∧ agree_w (go s1).1 (go s2).1 ∧ ∀ x, ¬ reachable x → mm (go s1).1 x = mm s1 x) as Go.
  { intros c'. cbv zeta. destruct (Z.land _ _ =? 0); [done|]. by apply IH. }
  destruct (_ && (16 <=? _)); [|destruct (_ && _ && _); [apply Go|destruct (_ && _); apply Go]].
  rewrite (read_bytes_agree s1 s2 _ _ A). destruct (read_bytes translate (mm s2) _ 16) as [h ok]. destruct ok; cbn [negb]; [apply Go|done].
Qed.

(** One write of the completion, after the bytes outside were kept so far. *)
Lemma write_step (m0 : mem) (s1 s2 : World X) gpa bs : agree_w s1 s2 → (∀ x, ¬ reachable x → mm s1 x = m0 x) → ∃ m1 m2 ok,
  write_bytes translate (mm s1) gpa bs = (m1, ok) ∧ write_bytes translate (mm s2) gpa bs = (m2, ok) ∧
  agree_w (with_mm s1 m1) (with_mm s2 m2) ∧ ∀ x, ¬ reachable x → m1 x = m0 x.
Proof.
  intros Ag Out. destruct (confined_mm _ _ _ (write_bytes_confined gpa bs) Ag) as (R & Ag' & Out').
  destruct (write_bytes translate (mm s1) gpa bs) as [m1 ok], (write_bytes translate (mm s2) gpa bs) as [m2 ok2]. cbn [fst snd] in *. subst ok2.
  exists m1, m2, ok. split_and!; [done..|]. intros x Nx. rewrite Out' by done. by apply Out.
Qed.

Lemma process_one_confined r qsize dt av us readonly :
  confined (λ s, let '(s, r, more) := process_one translate e s r qsize dt av us readonly in (s, (r, more))).
Proof.
  intros s1 s2 A. unfold process_one, read_u16. rewrite (read_bytes_agree s1 s2 _ _ A).
  destruct (read_bytes translate (mm s2) _ 2) as [b ok]. pose proof (xlate_fail_agree _ _ A) as Af. destruct ok; [|done].
  set (fuel := S (S _)). destruct (chain_loop_confined qsize dt fuel (from_le b) 0 chain_empty s1 s2 A) as (R & Ag & Out).
  destruct (chain_loop translate fuel s1 _ _ _ _ _) as [t1 c], (chain_loop translate fuel s2 _ _ _ _ _) as [t2 c2]. cbn [fst snd] in *. subst c2.
  set (ty := from_le (slice 0 4 _)). set (sector := from_le (slice 8 8 _)).
  destruct (serve_confined readonly ty sector (c_segs c) (r_written r) t1 t2 Ag) as (R & Ag1 & Out1).
  destruct (serve translate e t1 _ _ _ _ _) as [[[u1 st] n] w], (serve translate e t2 _ _ _ _ _) as [[[u2 st2] n2] w2].
  cbn [fst snd] in *. injection R as -> -> ->.
  assert (∀ x, ¬ reachable x → mm u1 x = mm s1 x) as Out2 by (intros x Nx; rewrite Out1 by done; by apply Out).
  set (r1 := mkRun _ _ _ _ _). assert (∃ m1 m2 ok,
    (if c_status c =? 0 then (mm u1, true) else write_bytes translate (mm u1) (c_status c) [st2]) = (m1, ok) ∧
    (if c_status c =? 0 then (mm u2, true) else write_bytes translate (mm u2) (c_status c) [st2]) = (m2, ok) ∧
    agree_w (with_mm u1 m1) (with_mm u2 m2) ∧ ∀ x, ¬ reachable x → m1 x = mm s1 x) as (m1 & m2 & ok & -> & -> & Ag2 & Out3).
  { destruct (c_status c =? 0); [|by apply write_step]. exists (mm u1), (mm u2), true. split_and!; [done..| |done]. by destruct Ag1. }
  destruct ok; cbn [negb]; [|split_and!; [done|by apply xlate_fail_agree|done]].
  cbn [r_used r1]. set (el := to_le 4 _ ++ to_le 4 _).
  destruct (write_step (mm s1) _ _ (us ⊞ 4 ⊞ r_used r mod qsize * 8) el Ag2 Out3) as (m1' & m2' & ok & E1 & E2 & Ag3 & Out4).
  rewrite E1, E2. destruct ok; cbn [negb]; [|split_and!; [done|by apply xlate_fail_agree|done]]. unfold write_u16.
  destruct (write_step (mm s1) _ _ (us ⊞ 2) (to_le 2 ((r_used r + 1) mod 65536)) Ag3 Out4) as (m1'' & m2'' & ok & F1 & F2 & Ag4 & Out5).
  rewrite F1, F2. destruct ok; cbn [negb]; [|split_and!; [done|by apply xlate_fail_agree|done]]. by split_and!.
Qed.

Lemma process_loop_confined avail qsize dt av us readonly fuel : ∀ r,
  confined (λ s, process_loop translate e fuel s r avail qsize dt av us readonly).
Proof.
  induction fuel as [|fuel IH]; intros r s1 s2 A; [done|]. cbn [process_loop]. destruct (_ =? _); [done|].
  destruct (process_one_confined r qsize dt av us readonly s1 s2 A) as (R & Ag & Out).
  destruct (process_one translate e s1 _ _ _ _ _ _) as [[t1 r1] b1], (process_one translate e s2 _ _ _ _ _ _) as [[t2 r2] b2].
  cbn [fst snd] in *. injection R as -> ->. destruct b2; [|done]. destruct (IH r2 _ _ Ag) as (R & Ag2 & Out2).
  split_and!; [done|done|]. intros x Nx. rewrite Out2 by done. by apply Out.
Qed.

(** C32: A disk keeps to the guest's memory. Whatever the guest puts in the rings and
    descriptors (any addresses, lengths and links), a run of the queue changes no host
    byte that no guest address translates to, and what it does (the disk, the answers,
    the new contents of guest memory) does not depend on any such byte. Copies are
    split at page ends, so only the first byte of each page needs a translation. *)
Theorem queue_confined (qsize last used dt av us : Z) (readonly : bool) :
  confined (λ s, let '(s, r, avail) := process_blk_queue translate e s qsize last used dt av us readonly in (s, (r, avail))).
Proof.
  intros s1 s2 A. unfold process_blk_queue, read_u16. destruct (_ =? 0); [done|]. rewrite (read_bytes_agree s1 s2 _ _ A).
  destruct (read_bytes translate (mm s2) _ 2) as [b ok]. destruct ok; [|split_and!; [done|by apply xlate_fail_agree|done]].
  set (fuel := Z.to_nat _). set (r := mkRun _ _ _ _ _).
  destruct (process_loop_confined (from_le b) qsize dt av us readonly fuel r s1 s2 A) as (R & Ag & Out).
  destruct (process_loop translate e fuel s1 _ _ _ _ _ _ _), (process_loop translate e fuel s2 _ _ _ _ _ _ _). cbn [fst snd] in *. by subst.
Qed.

End Confined.

Lemma reachable_backed h x : slots_ok h → reachable (mapped h) x → backed h x.
Proof.
  intros O (g & U & M). destruct (mapped_at h g x O U M) as (i & r & R & N & B & _). exists r. split_and!; [|done|lia..].
  by eapply list_elem_of_lookup_2.
Qed.

(** ** A read-only device writes nothing *)

Section ReadOnly.
Context (translate : Z → option Z) {X : Type} (e : Env X) (P : X → Prop).

(** What the other backings keep when they are read. *)
Record reads_keep : Prop := {
  rk_library : ∀ x off buf, P x → P (library_read_at e x off buf).1.1;
  rk_spare : ∀ x off buf, P x → P (perc_spare_read e x off buf).1.1;
}.

Context (Keep : reads_keep).

Definition unwritten (s s' : World X) : Prop := disk s' = disk s ∧ (P (ext s) → P (ext s')).

#[local] Instance unwritten_preorder : PreOrder unwritten.
Proof. split; [done|]. intros s1 s2 s3 [D1 P1] [D2 P2]. split; [congruence|auto]. Qed.

Lemma sector_unwritten s ty sec buf : ty ≠ VIRTIO_BLK_T_OUT → unwritten s (blk_sector_rw_with e s ty sec buf false).1.1.
Proof.
  intros T. pose proof (rk_library Keep (ext s)) as K1. pose proof (rk_spare Keep (ext s)) as K2. apply Z.eqb_neq in T.
  unfold blk_sector_rw_with, virtio_flush_status. rewrite T. cbn [negb andb orb]. destruct (ty =? VIRTIO_BLK_T_FLUSH); [done|].
  destruct (present_as_cd e).
  { destruct (_ || _); [done|]. destruct (checked_mul64 sec SECTOR) as [off|]; [|done]. specialize (K1 off buf).
    by destruct (library_read_at e (ext s) off buf) as [[x b] ok]. }
  destruct (PERC_XFER e).
  { destruct (_ || _); [done|]. specialize (K2 sec buf). by destruct (perc_spare_read e (ext s) sec buf) as [[x b] ok]. }
  destruct (checked_mul64 sec SECTOR); [|done]. destruct (_ || _); [done|]. by destruct (ty =? VIRTIO_BLK_T_IN).
Qed.

Lemma bounced_unwritten s ty sec t : ty ≠ VIRTIO_BLK_T_OUT → unwritten s (bounced e s ty sec t false).1.
Proof.
  intros T. pose proof (sector_unwritten s ty sec (slice 0 t (bounce s)) T) as U. unfold bounced.
  by destruct (blk_sector_rw_with e s ty sec _ false) as [[s' b] st].
Qed.

Lemma xfer_unwritten ty sector off gpa n dw fuel : ty ≠ VIRTIO_BLK_T_OUT → ∀ dn wrote s,
  unwritten s (xfer_loop translate e fuel s ty sector off gpa n dw false dn wrote).1.1.
Proof.
  intros T. induction fuel as [|fuel IH]; intros dn wrote s; [done|]. cbn [xfer_loop]. destruct (_ <=? _); [done|].
  set (t := Z.min _ _). set (sec := sat_add64 _ _). destruct dw.
  - pose proof (bounced_unwritten s ty sec t T) as U. destruct (bounced e s ty sec t false) as [s1 st]. cbn [fst] in U.
    destruct (negb _); [done|]. destruct (write_bytes _ _ _ _) as [m ok]. destruct (negb ok); [done|].
    etrans; [exact U|]. exact (IH _ _ (with_mm s1 m)).
  - destruct (read_bytes _ _ _ _) as [bs ok]. destruct (negb ok); [done|].
    pose proof (bounced_unwritten (with_bounce s (fill bs (bounce s))) ty sec t T) as U. destruct (bounced e _ ty sec t false) as [s1 st].
    destruct (negb _); [exact U|]. etrans; [exact U|apply IH].
Qed.

Lemma transfer_unwritten ty sector segs : ty ≠ VIRTIO_BLK_T_OUT → ∀ off req n s,
  unwritten s (transfer translate e s ty sector false segs off req n).1.1.1.1.
Proof.
  intros T. induction segs as [|[[gpa len] dw] segs IH]; intros off req n s; [done|]. cbn [transfer]. unfold xfer_data_seg.
  set (fuel := S _). pose proof (xfer_unwritten ty sector off gpa len dw fuel T 0 0 s) as U.
  destruct (xfer_loop _ _ _ _ _ _ _ _ _ _ _ _ _) as [[s1 st] w]. destruct (negb _); [done|]. etrans; [exact U|apply IH].
Qed.

Lemma serve_unwritten s ty sector segs w : unwritten s (serve translate e s true ty sector segs w).1.1.1.
Proof.
  unfold serve. destruct (ty =? VIRTIO_BLK_T_FLUSH); [done|]. destruct (ty =? VIRTIO_BLK_T_GET_ID).
  { by destruct (get_id translate (mm s) segs 0) as [[m st] n]. }
  destruct (Z.eqb_spec ty VIRTIO_BLK_T_OUT) as [->|T]; [done|]. cbn [andb]. destruct segs as [|g segs]; [done|].
  pose proof (transfer_unwritten ty sector (g :: segs) T 0 0 0 s) as U. cbn [negb].
  by destruct (transfer _ _ _ _ _ _ _ _ _ _) as [[[[s1 st] o] q] n].
Qed.

Lemma chain_unwritten qsize dt fuel : ∀ d n c s, unwritten s (chain_loop translate fuel s qsize dt d n c).1.
Proof.
  induction fuel as [|fuel IH]; intros d n c s; [done|]. cbn [chain_loop]. destruct (_ <? _); [done|].
  destruct (read_bytes _ _ _ 16) as [raw ok]. destruct (negb ok); [done|].
  assert (∀ c, unwritten s (if Z.land (from_le (slice 12 2 raw)) VRING_DESC_F_NEXT =? 0 then (s, c)
      else chain_loop translate fuel s qsize dt (from_le (slice 14 2 raw)) (n + 1) c).1) as Go by (intros c'; destruct (_ =? 0); [done|apply IH]).
  destruct (_ && (16 <=? _)); [|destruct (_ && _ && _); [apply Go|destruct (_ && _); apply Go]].
  destruct (read_bytes _ _ _ 16) as [h ok']. destruct (negb ok'); [done|apply Go].
Qed.

Lemma process_one_unwritten s r qsize dt av us : unwritten s (process_one translate e s r qsize dt av us true).1.1.
Proof.
  unfold process_one. destruct (read_u16 _ _ _) as [head|]; [|done]. set (fuel := S (S _)).
  pose proof (chain_unwritten qsize dt fuel head 0 chain_empty s) as U.
  destruct (chain_loop _ _ _ _ _ _ _ _) as [s1 c]. set (ty := from_le (slice 0 4 _)). set (sector := from_le (slice 8 8 _)).
  pose proof (serve_unwritten s1 ty sector (c_segs c) (r_written r)) as U1.
  destruct (serve _ _ _ _ _ _ _ _) as [[[s2 st] n] w]. cbn [fst] in *. assert (unwritten s s2) as U2 by (by etrans). clear U U1.
  destruct (if _ =? 0 then _ else _) as [m1 ok1]. destruct (negb ok1); [exact U2|].
  destruct (write_bytes _ _ _ _) as [m2 ok2]. destruct (negb ok2); [exact U2|].
  destruct (write_u16 _ _ _ _) as [m3 ok3]. destruct (negb ok3); exact U2.
Qed.

Lemma queue_unwritten s qsize last used dt av us : unwritten s (process_blk_queue translate e s qsize last used dt av us true).1.1.
Proof.
  unfold process_blk_queue. destruct (_ =? 0); [done|]. destruct (read_u16 _ _ _) as [avail|]; [|done].
  assert (∀ fuel s r, unwritten s (process_loop translate e fuel s r avail qsize dt av us true).1) as L.
  { induction fuel as [|fuel IH]; intros s0 r; [done|]. cbn [process_loop]. destruct (_ =? _); [done|].
    pose proof (process_one_unwritten s0 r qsize dt av us) as U. destruct (process_one _ _ _ _ _ _ _ _ _) as [[s1 r1] more].
    destruct more; [|exact U]. etrans; [exact U|apply IH]. }
  set (fuel := Z.to_nat _). set (r := mkRun _ _ _ _ _). specialize (L fuel s r).
  by destruct (process_loop _ _ _ _ _ _ _ _ _ _ _) as [s' r'].
Qed.

(** A read-only device never writes. Whatever requests the guest publishes to the
    ISO or the spare, the image is unchanged after the run, and of the other backings
    only the two reads (ISO library, spare) were used: what those keep is kept, and no
    write, no logical-unit transfer and no flush reached the backend. *)
Theorem readonly_never_writes (s : World X) (qsize last used dt av us : Z) :
  let '(s', _, _) := process_blk_queue translate e s qsize last used dt av us true in
  disk s' = disk s ∧ (P (ext s) → P (ext s')).
Proof.
  pose proof (queue_unwritten s qsize last used dt av us) as U. by destruct (process_blk_queue _ _ _ _ _ _ _ _ _ _) as [[s' r] avail].
Qed.

End ReadOnly.

(** ** The queue indices *)

Section Indices.
Context (translate : Z → option Z) {X : Type} (e : Env X).

Definition unmapped : Prop := ∃ g, u64 g ∧ translate g = None.

Lemma read_fails m gpa n fuel : ∀ dn, 0 ≤ dn → (read_loop translate fuel m gpa n dn).2 = false → unmapped.
Proof.
  induction fuel as [|fuel IH]; intros dn D; [done|]. cbn [read_loop]. destruct (Z.leb_spec n dn); [done|].
  destruct (translate _) eqn:T; [|exists (gpa ⊞ dn); split; [apply add64_u64|done]].
  pose proof (page_left_range _ (add64_u64 gpa dn)) as [? _]. set (t := Z.min _ _). assert (0 < t) by (unfold t; lia).
  destruct (Z.eqb_spec t 0); [lia|]. specialize (IH (dn + t) ltac:(lia)). by destruct (read_loop _ _ _ _ _ _) as [bs ok].
Qed.

Lemma write_fails gpa src fuel : ∀ m dn, 0 ≤ dn → (write_loop translate fuel m gpa src dn).2 = false → unmapped.
Proof.
  induction fuel as [|fuel IH]; intros m dn D; [done|]. cbn [write_loop]. destruct (Z.leb_spec (blen src) dn); [done|].
  destruct (translate _) eqn:T; [|exists (gpa ⊞ dn); split; [apply add64_u64|done]].
  pose proof (page_left_range _ (add64_u64 gpa dn)) as [? _]. set (t := Z.min _ _). assert (0 < t) by (unfold t; lia).
  destruct (Z.eqb_spec t 0); [lia|]. apply IH. lia.
Qed.

Lemma write_bytes_fails m gpa src : (write_bytes translate m gpa src).2 = false → unmapped.
Proof. apply write_fails. lia. Qed.

(** One request moves both indices by one, or a translation failed. *)
Lemma process_one_step s r qsize dt av us readonly :
  let '(_, r', more) := process_one translate e s r qsize dt av us readonly in
  if more then r_last r' = (r_last r + 1) mod 65536 ∧ r_used r' = (r_used r + 1) mod 65536 ∧ r_nreq r' = Z.min (r_nreq r + 1) 65535
  else r_last r' = r_last r ∧ r_used r' = r_used r ∧ r_nreq r' = r_nreq r ∧ unmapped.
Proof.
  unfold process_one, read_u16. pose proof (read_fails (mm s) (av ⊞ 4 ⊞ r_last r mod qsize * 2) 2 (Z.to_nat 2) 0 ltac:(lia)) as Rf.
  unfold read_bytes. destruct (read_loop _ _ _ _ _ _) as [b ok]. destruct ok; [|by auto].
  set (fuel := S (S _)). destruct (chain_loop _ _ _ _ _ _ _ _) as [s1 c]. destruct (serve _ _ _ _ _ _ _ _) as [[[s2 st] n] w].
  destruct (if c_status c =? 0 then _ else _) as [m1 ok1] eqn:E1. destruct ok1; cbn [negb].
  2: { split_and!; [done..|]. destruct (c_status c =? 0); [done|]. apply (write_bytes_fails (mm s2) (c_status c) [st]). by rewrite E1. }
  destruct (write_bytes translate (mm (with_mm s2 m1)) _ _) as [m2 ok2] eqn:E2. destruct ok2; cbn [negb].
  2: { split_and!; [done..|]. eapply write_bytes_fails. by rewrite E2. }
  destruct (write_u16 _ _ _ _) as [m3 ok3] eqn:E3. destruct ok3; cbn [negb]; [done|].
  split_and!; [done..|]. eapply write_bytes_fails. unfold write_u16 in E3. by rewrite E3.
Qed.

(** The indices stay in their width. *)
Lemma process_indices s qsize last used dt av us readonly : 0 ≤ last < 65536 → 0 ≤ used < 65536 →
  let r := (process_blk_queue translate e s qsize last used dt av us readonly).1.2 in
  0 ≤ r_last r < 65536 ∧ 0 ≤ r_used r < 65536.
Proof.
  intros L U. unfold process_blk_queue. destruct (_ =? 0); [done|]. destruct (read_u16 _ _ _) as [avail|]; [|done].
  assert (∀ fuel s r, 0 ≤ r_last r < 65536 ∧ 0 ≤ r_used r < 65536 →
    let r' := (process_loop translate e fuel s r avail qsize dt av us readonly).2 in 0 ≤ r_last r' < 65536 ∧ 0 ≤ r_used r' < 65536) as P.
  { induction fuel as [|fuel IH]; intros s0 r R; [done|]. cbn [process_loop]. destruct (_ =? _); [done|].
    pose proof (process_one_step s0 r qsize dt av us readonly) as S. destruct (process_one _ _ _ _ _ _ _ _ _) as [[s1 r1] more]. destruct more.
    - apply IH. destruct S as (-> & -> & _). split; by apply Z.mod_pos_bound.
    - destruct S as (S1 & S2 & _). cbn [snd]. by rewrite S1, S2. }
  set (fuel := Z.to_nat _). set (r := mkRun _ _ _ _ _). specialize (P fuel s r ltac:(done)).
  by destruct (process_loop _ _ _ _ _ _ _ _ _ _ _) as [s' r'].
Qed.

Lemma read_loop_bytes m gpa n fuel : bytes_in m → ∀ dn, 0 ≤ dn ≤ n → (Z.to_nat (n - dn) ≤ fuel)%nat →
  let '(bs, ok) := read_loop translate fuel m gpa n dn in Forall is_byte bs ∧ (ok = true → blen bs = n - dn).
Proof.
  intros B. induction fuel as [|fuel IH]; intros dn D F.
  { split; [done|]. intros _. change (blen []) with 0. lia. }
  cbn [read_loop]. destruct (Z.leb_spec n dn). { split; [done|]. intros _. change (blen []) with 0. lia. }
  destruct (translate _) as [h|]; [|done]. pose proof (page_left_range _ (add64_u64 gpa dn)) as [? _]. set (t := Z.min _ _).
  assert (0 < t ≤ n - dn) by (unfold t; lia). destruct (Z.eqb_spec t 0); [lia|]. specialize (IH (dn + t) ltac:(lia) ltac:(lia)).
  destruct (read_loop _ _ _ _ _ _) as [bs ok]. destruct IH as [I1 I2]. split.
  - apply Forall_app_2; [|done]. unfold peek. apply Forall_fmap, Forall_true. intros x. apply B.
  - intros O. specialize (I2 O). unfold blen in *. rewrite length_app. pose proof (blen_peek m h t ltac:(lia)). unfold blen in *. lia.
Qed.

(** The loop, after [k] of [p] published requests. *)
Lemma loop_step avail qsize dt av us readonly last used p fuel : ∀ s r k,
  r_last r = (last + k) mod 65536 → r_used r = (used + k) mod 65536 → r_nreq r = k → 0 ≤ k → k + Z.of_nat fuel = p → p < 65536 →
  avail = (last + p) mod 65536 →
  let r' := (process_loop translate e fuel s r avail qsize dt av us readonly).2 in
  ∃ n, 0 ≤ n ≤ p ∧ r_last r' = (last + n) mod 65536 ∧ r_used r' = (used + n) mod 65536 ∧ r_nreq r' = n ∧ (r_last r' = avail ∨ unmapped).
Proof.
  induction fuel as [|fuel IH]; intros s r k Hl Hu Hn K P Pw Av; cbv zeta.
  { exists k. replace k with p in * by lia. split_and!; try done; [lia..|]. left. cbn [process_loop snd]. congruence. }
  cbn [process_loop]. destruct (Z.eqb_spec (r_last r) avail) as [E|E]; [exists k; split_and!; try done; [lia|by left]|].
  pose proof (process_one_step s r qsize dt av us readonly) as St. destruct (process_one _ _ _ _ _ _ _ _ _) as [[s1 r1] more]. destruct more.
  - destruct St as (S1 & S2 & S3). apply (IH s1 r1 (k + 1)); try done; try lia.
    + rewrite S1, Hl, Zplus_mod_idemp_l. f_equal. lia.
    + rewrite S2, Hu, Zplus_mod_idemp_l. f_equal. lia.
  - destruct St as (S1 & S2 & S3 & S4). exists k. cbn [snd]. split_and!; try lia; try congruence. by right.
Qed.

(** The queue indices move in step, to the guest's index. Whatever the guest
    published, a run takes some number of requests from the next one on, at most the
    published ones; both indices have moved by that number (modulo 65536), it is the
    count returned, and it is short of the published ones only when an address of the
    last request was not mapped. In particular the run ends. *)
Theorem indices_in_step (s : World X) (qsize last used dt av us : Z) (readonly : bool) :
  0 < qsize → 0 ≤ last < 65536 → 0 ≤ used < 65536 → bytes_in (mm s) →
  let '(_, r, avail) := process_blk_queue translate e s qsize last used dt av us readonly in
  (avail = 0 ∧ r = mkRun last used 0 0 last_default ∧ unmapped) ∨
  ∃ n, 0 ≤ n ≤ (avail - last) mod 65536 ∧ r_last r = (last + n) mod 65536 ∧ r_used r = (used + n) mod 65536 ∧ r_nreq r = n ∧
       (r_last r = avail ∨ unmapped).
Proof.
  intros Q L U B. unfold process_blk_queue. rewrite (proj2 (Z.eqb_neq qsize 0)) by lia.
  pose proof (read_fails (mm s) (av ⊞ 2) 2 (Z.to_nat 2) 0 ltac:(lia)) as Rf.
  pose proof (read_loop_bytes (mm s) (av ⊞ 2) 2 (Z.to_nat 2) B 0 ltac:(lia) ltac:(lia)) as Rb.
  unfold read_u16, read_bytes. destruct (read_loop _ _ _ _ _ _) as [b ok]. destruct Rb as [Rb Rl]. destruct ok.
  2: { left. split_and!; [done..|]. by apply Rf. }
  assert (0 ≤ from_le b < 65536) as A by (pose proof (from_le_bound b Rb) as Bd; by rewrite Rl in Bd).
  set (avail := from_le b) in *. set (p := (avail - last) mod 65536).
  assert (0 ≤ p < 65536) as Hp by (by apply Z.mod_pos_bound).
  destruct (loop_step avail qsize dt av us readonly last used p (Z.to_nat p) s (mkRun last used 0 0 last_default) 0) as (n & N);
    cbn [r_last r_used r_nreq]; rewrite ?Z.add_0_r, ?Z.mod_small by done; [done|done|done|done|lia|lia| |].
  { unfold p. dlia. }
  destruct (process_loop _ _ _ _ _ _ _ _ _ _ _) as [s' r']. right. by exists n.
Qed.

End Indices.

(** ** Requests that are not whole sectors on the disk *)

Section Edge.
Context (translate : Z → option Z) `{!GuestMap translate} {X : Type} (e : Env X) (allow_lun : bool) (Plain : plain e allow_lun).

Local Notation view := (view translate).

(** A read or write of up to one chunk, wherever it ends. *)
Lemma sectors_edge (s : World X) ty sector buf : ty = VIRTIO_BLK_T_IN ∨ ty = VIRTIO_BLK_T_OUT → 0 ≤ sector → 0 < blen buf →
  sector * SECTOR < blen (disk s) < W64 →
  let n := Z.min (blen buf) (blen (disk s) - sector * SECTOR) in
  blk_sector_rw_with e s ty sector buf allow_lun =
    (if ty =? VIRTIO_BLK_T_IN then (s, fill (slice (sector * SECTOR) n (disk s)) buf, VIRTIO_BLK_S_OK)
     else (with_disk s (splice (sector * SECTOR) (take (Z.to_nat n) buf) (disk s)), buf, VIRTIO_BLK_S_OK)).
Proof.
  intros T S B D n. destruct Plain as [P1 P2]. destruct (checked_sector sector (disk s) 1) as [C1 C2]; [lia..|].
  unfold blk_sector_rw_with. rewrite C1, C2, P1. rewrite (proj2 (Z.eqb_neq (blen buf) 0)) by lia. fold n.
  destruct T as [-> | ->]; destruct allow_lun; [destruct P2 as [-> ->]|rewrite P2|destruct P2 as [-> ->]|rewrite P2]; done.
Qed.

(** A segment of one chunk whose first byte is on the disk. *)
Record one_chunk (s : World X) (sector off gpa len : Z) : Prop := {
  oc_sector : 0 ≤ sector;
  oc_off : 0 ≤ off;
  oc_len : 0 < len ≤ VIRTIO_XFER_CHUNK;
  oc_disk : (sector + off / SECTOR) * SECTOR < blen (disk s) < W64;
  oc_gpa : u64 gpa;
  oc_mapped : vmapped (view (mm s)) gpa len;
  oc_bounce : blen (bounce s) = VIRTIO_XFER_CHUNK;
}.

Lemma chunk_sat (s : World X) sector off gpa len : one_chunk s sector off gpa len →
  Z.min (len - 0) VIRTIO_XFER_CHUNK = len ∧ sat_add64 sector ((off + 0) / SECTOR) = sector + off / SECTOR ∧ 0 ≤ sector + off / SECTOR.
Proof.
  intros [O1 O2 O3 O4 _ _ _]. rewrite Z.add_0_r. assert (0 ≤ off / SECTOR) by (by apply Z.div_pos). unfold sat_add64, SECTOR, U64_MAX, W64 in *. lia.
Qed.

Lemma xfer_done fuel (s : World X) ty sector off gpa n dw wrote :
  xfer_loop translate e fuel s ty sector off gpa n dw allow_lun n wrote = (s, VIRTIO_BLK_S_OK, wrote).
Proof. destruct fuel; [done|]. cbn [xfer_loop]. by rewrite Z.leb_refl. Qed.

(** One chunk read: what the disk has from that sector on, then what was in the bounce buffer. *)
Lemma chunk_in (s : World X) sector off gpa len : one_chunk s sector off gpa len →
  let o := (sector + off / SECTOR) * SECTOR in
  let n := Z.min len (blen (disk s) - o) in
  let bs := slice o n (disk s) ++ slice n (len - n) (bounce s) in
  ∃ s', xfer_data_seg translate e s VIRTIO_BLK_T_IN sector off gpa len true allow_lun = (s', VIRTIO_BLK_S_OK, 0) ∧
    disk s' = disk s ∧ bounce s' = fill bs (bounce s) ∧ blen bs = len ∧ view (mm s') ≡ vwrite (view (mm s)) gpa bs.
Proof.
  intros O o n bs. destruct (chunk_sat s sector off gpa len O) as (E1 & E2 & E3). destruct O as [O1 O2 O3 O4 O5 O6 O7].
  assert (0 < n ≤ len ∧ n ≤ blen (disk s) - o) as Hn by (unfold n, o; lia).
  assert (0 ≤ o) as Ho by (by apply Z.mul_nonneg_nonneg).
  assert (blen (slice o n (disk s)) = n) as L1 by (apply blen_slice; lia).
  assert (blen bs = len) as Lb.
  { pose proof (blen_slice n (len - n) (bounce s) ltac:(lia) ltac:(lia) ltac:(lia)) as L2. unfold bs, blen in *. rewrite length_app. lia. }
  unfold xfer_data_seg. generalize (Z.to_nat (len / VIRTIO_XFER_CHUNK)) as fuel. intros fuel. cbn [xfer_loop].
  rewrite (proj2 (Z.leb_gt len 0)) by lia. rewrite E1, E2. unfold bounced.
  assert (blen (slice 0 len (bounce s)) = len) as L0 by (apply blen_slice; lia).
  rewrite sectors_edge by (auto || lia). rewrite L0. fold o n. cbn [Z.eqb]. change (VIRTIO_BLK_T_IN =? VIRTIO_BLK_T_IN) with true. cbv iota.
  assert (fill (slice o n (disk s)) (slice 0 len (bounce s)) = bs) as ->.
  { unfold fill, bs. f_equal. replace (length (slice o n (disk s))) with (Z.to_nat n) by (unfold blen in L1; lia).
    unfold slice. rewrite drop_0, skipn_firstn_comm. f_equal. lia. }
  change (VIRTIO_BLK_S_OK =? VIRTIO_BLK_S_OK) with true. cbn [negb bounce with_bounce mm].
  replace (slice 0 len (fill bs (bounce s))) with bs by (rewrite <-Lb; by rewrite slice_fill).
  rewrite add64_0 by done. destruct (write_bytes_view translate (mm s) gpa bs) as (m' & -> & V); [unfold W64, VIRTIO_XFER_CHUNK in *; lia|done|by rewrite Lb|].
  cbn [negb]. rewrite Z.add_0_l, xfer_done. eexists. split_and!; done.
Qed.

(** One chunk written: the disk from that sector on takes what fits. *)
Lemma chunk_out (s : World X) sector off gpa len bs : one_chunk s sector off gpa len → vread (view (mm s)) gpa len = Some bs →
  let o := (sector + off / SECTOR) * SECTOR in
  let n := Z.min len (blen (disk s) - o) in
  ∃ s', xfer_data_seg translate e s VIRTIO_BLK_T_OUT sector off gpa len false allow_lun = (s', VIRTIO_BLK_S_OK, len) ∧
    mm s' = mm s ∧ disk s' = splice o (take (Z.to_nat n) bs) (disk s) ∧ blen (bounce s') = blen (bounce s).
Proof.
  intros O R o n. destruct (chunk_sat s sector off gpa len O) as (E1 & E2 & E3). destruct O as [O1 O2 O3 O4 O5 O6 O7].
  pose proof R as L. apply vread_iff in L as [L _]; [|lia].
  unfold xfer_data_seg. generalize (Z.to_nat (len / VIRTIO_XFER_CHUNK)) as fuel. intros fuel. cbn [xfer_loop].
  rewrite (proj2 (Z.leb_gt len 0)) by lia. rewrite E1, E2, add64_0 by done. rewrite (read_bytes_view translate _ _ len bs) by (done || lia).
  cbn [negb]. unfold bounced. cbn [bounce with_bounce].
  replace (slice 0 len (fill bs (bounce s))) with bs by (rewrite <-L; by rewrite slice_fill).
  rewrite sectors_edge by (auto || (cbn; lia)). cbn [disk with_bounce]. rewrite L. fold o n.
  change (VIRTIO_BLK_T_OUT =? VIRTIO_BLK_T_IN) with false. cbv iota.
  change (VIRTIO_BLK_S_OK =? VIRTIO_BLK_S_OK) with true. change (VIRTIO_BLK_T_OUT =? VIRTIO_BLK_T_OUT) with true. cbn [negb].
  replace (sat32 0 len) with len by (unfold sat32, VIRTIO_XFER_CHUNK in *; lia).
  rewrite Z.add_0_l, xfer_done. eexists. split_and!; [done..|]. cbn [bounce with_bounce with_disk]. rewrite !blen_fill; rewrite ?blen_fill; lia.
Qed.

(** A transfer past the end of the disk is answered with success. A write of a
    segment that starts on the disk and ends behind it stores what fits, drops the rest
    and reports every byte written; a read fills the segment with the disk's last bytes
    and then with what the bounce buffer held from earlier transfers, and reports OK. *)
Theorem past_end_is_ok (s : World X) (sector gpa len : Z) (bs : list Z) :
  one_chunk s sector 0 gpa len → vread (view (mm s)) gpa len = Some bs →
  let left := blen (disk s) - sector * SECTOR in
  left < len →
  (∃ s', transfer translate e s VIRTIO_BLK_T_OUT sector allow_lun [(gpa, len, false)] 0 0 0 = (s', VIRTIO_BLK_S_OK, len, len, 0) ∧
     disk s' = splice (sector * SECTOR) (take (Z.to_nat left) bs) (disk s)) ∧
  (∃ s', transfer translate e s VIRTIO_BLK_T_IN sector allow_lun [(gpa, len, true)] 0 0 0 = (s', VIRTIO_BLK_S_OK, len, 0, len) ∧
     view (mm s') ≡ vwrite (view (mm s)) gpa (slice (sector * SECTOR) left (disk s) ++ slice left (len - left) (bounce s))).
Proof.
  intros O R left Lt. assert (0 < len ≤ 0xFFFFFFFF) as Hl by (destruct O as [_ _ O3 _ _ _ _]; unfold VIRTIO_XFER_CHUNK in O3; lia).
  assert (sat32 0 len = len) as Sl by (unfold sat32; lia). split.
  - destruct (chunk_out s sector 0 gpa len bs O R) as (s' & E & _ & D & _). exists s'. cbn [transfer]. rewrite E.
    change (VIRTIO_BLK_S_OK =? VIRTIO_BLK_S_OK) with true. cbn [negb]. rewrite Sl. split; [done|].
    rewrite D. change (0 / SECTOR) with 0. by rewrite Z.add_0_r, Z.min_r by (fold left; lia).
  - destruct (chunk_in s sector 0 gpa len O) as (s' & E & _ & _ & _ & V). exists s'. cbn [transfer]. rewrite E.
    change (VIRTIO_BLK_S_OK =? VIRTIO_BLK_S_OK) with true. cbn [negb]. rewrite Sl. split; [done|].
    rewrite V. change (0 / SECTOR) with 0. by rewrite Z.add_0_r, Z.min_r by (fold left; lia).
Qed.

(** A sector split over two segments is transferred wrongly. The second segment
    starts again at the sector the first one began, because the offset reached is
    rounded down to a sector: a read gives the guest the start of the sector twice, and
    a write stores the second segment over the first one. *)
Theorem split_sector_restarts (s : World X) (sector g1 g2 a b : Z) (b1 b2 : list Z) :
  0 < a < SECTOR → one_chunk s sector 0 g1 a → one_chunk s sector 0 g2 b →
  sector * SECTOR + a ≤ blen (disk s) → sector * SECTOR + b ≤ blen (disk s) →
  vread (view (mm s)) g1 a = Some b1 → vread (view (mm s)) g2 b = Some b2 →
  let o := sector * SECTOR in
  (∃ s' n, transfer translate e s VIRTIO_BLK_T_IN sector allow_lun [(g1, a, true); (g2, b, true)] 0 0 0 = (s', VIRTIO_BLK_S_OK, a + b, 0, n) ∧
     view (mm s') ≡ vwrite (vwrite (view (mm s)) g1 (slice o a (disk s))) g2 (slice o b (disk s))) ∧
  (∃ s' n, transfer translate e s VIRTIO_BLK_T_OUT sector allow_lun [(g1, a, false); (g2, b, false)] 0 0 0 = (s', VIRTIO_BLK_S_OK, a + b, n, 0) ∧
     disk s' = splice o b2 (splice o b1 (disk s))).
Proof.
  intros A O1 O2 L1 L2 R1 R2 o. fold o in L1, L2. assert (a / SECTOR = 0) as Da by (apply Z.div_small; lia).
  assert (∀ s' : World X, disk s' = disk s ∨ blen (disk s') = blen (disk s) → blen (bounce s') = blen (bounce s) →
    vmapped (view (mm s')) g2 b → one_chunk s' sector a g2 b) as Next.
  { intros s' D B M. assert (blen (disk s') = blen (disk s)) as D' by (destruct D as [->|]; done).
    destruct O2 as [? ? ? P ? ? ?]. split; try done; [lia| |by rewrite B]. rewrite D', Da. exact P. }
  split.
  - destruct (chunk_in s sector 0 g1 a O1) as (s1 & E1 & D1 & B1 & Lb & V1). change (0 / SECTOR) with 0 in V1, Lb, B1. rewrite Z.add_0_r in V1, Lb, B1.
    fold o in V1, Lb, B1. rewrite Z.min_l, Z.sub_diag in V1, Lb, B1 by lia. change (slice a 0 (bounce s)) with (@nil Z) in V1, Lb, B1. rewrite app_nil_r in V1, Lb, B1.
    destruct (chunk_in s1 sector a g2 b) as (s2 & E2 & D2 & B2 & _ & V2).
    { apply Next; [by left| |rewrite V1; apply vmapped_vwrite; by destruct O2].
      rewrite B1. apply blen_fill. rewrite Lb. destruct O1 as [_ _ ? _ _ _ Bo]. rewrite Bo. lia. }
    rewrite Da, Z.add_0_r in V2. fold o in V2. rewrite D1, Z.min_l, Z.sub_diag in V2 by lia. change (slice b 0 (bounce s1)) with (@nil Z) in V2. rewrite app_nil_r in V2.
    eexists s2, _. cbn [transfer]. rewrite E1. change (VIRTIO_BLK_S_OK =? VIRTIO_BLK_S_OK) with true. cbn [negb]. rewrite Z.add_0_l, E2.
    change (VIRTIO_BLK_S_OK =? VIRTIO_BLK_S_OK) with true. cbn [negb]. split; [done|]. by rewrite V2, V1.
  - destruct (chunk_out s sector 0 g1 a b1 O1 R1) as (s1 & E1 & M1 & D1 & B1). change (0 / SECTOR) with 0 in D1. rewrite Z.add_0_r in D1.
    fold o in D1. pose proof R1 as Lb1. apply vread_iff in Lb1 as [Lb1 _]; [|lia]. rewrite Z.min_l, take_ge in D1 by (unfold blen in *; lia).
    assert (blen (disk s1) = blen (disk s)) as Ld.
    { rewrite D1. apply blen_splice; [|lia]. destruct O1 as [? _ _ _ _ _ _]. unfold o, SECTOR. lia. }
    destruct (chunk_out s1 sector a g2 b b2) as (s2 & E2 & _ & D2 & _); [apply Next; [by right|done|rewrite M1; by destruct O2]|by rewrite M1|].
    rewrite Da, Z.add_0_r in D2. fold o in D2. pose proof R2 as Lb2. apply vread_iff in Lb2 as [Lb2 _]; [|destruct O2; lia].
    rewrite Ld, Z.min_l, take_ge, D1 in D2 by (unfold blen in *; lia).
    eexists s2, _. cbn [transfer]. rewrite E1. change (VIRTIO_BLK_S_OK =? VIRTIO_BLK_S_OK) with true. cbn [negb]. rewrite Z.add_0_l, E2.
    change (VIRTIO_BLK_S_OK =? VIRTIO_BLK_S_OK) with true. cbn [negb]. done.
Qed.

End Edge.

(** ** Concrete runs *)

Lemma vmapped_low h m g n : slots_ok h → RAM_HPA h ≠ 0 → 0 ≤ g → g + n ≤ Hw.GUEST_UEFI_LOW_RAM_BYTES → vmapped (view (mapped h) m) g n.
Proof.
  intros O R G N k K. unfold view. rewrite add64_small by (unfold Hw.GUEST_UEFI_LOW_RAM_BYTES in *; mlia).
  rewrite mapped_ram by (done || lia). by eexists.
Qed.

(** No backing but the image. *)
Definition demo_env : Env unit :=
  mkEnv unit false false false false (λ x _ b, (x, b, false)) (λ x _ b, (x, b, false)) (λ x _ b, (x, b, false)) (λ x _ _, (x, false))
    (λ x _ b _, (x, b, false)) (λ x, (x, true)).

(** Four sectors: 0, 1, 2, 3. *)
Definition demo_disk : list Z := replicate 512 0 ++ replicate 512 1 ++ replicate 512 2 ++ replicate 512 3.

(** A read of sector 1 into the buffer at 0x4000: table 0x1000, rings 0x2000 and 0x6000,
    header 0x3000, status 0x5000. *)
Definition demo_read : mem :=
  poke (poke (poke (poke (poke (poke (λ _, 0)
    0x10001000 (to_le 8 0x3000 ++ to_le 4 16 ++ to_le 2 1 ++ to_le 2 1))
    0x10001010 (to_le 8 0x4000 ++ to_le 4 512 ++ to_le 2 3 ++ to_le 2 2))
    0x10001020 (to_le 8 0x5000 ++ to_le 4 1 ++ to_le 2 2 ++ to_le 2 0))
    0x10002002 (to_le 2 1))
    0x10003000 (to_le 4 0 ++ to_le 4 0 ++ to_le 8 1))
    0x10005000 [255].

Definition demo_world : World unit := mkWorld demo_read demo_disk tt (replicate (Z.to_nat VIRTIO_XFER_CHUNK) 7) 0.

Definition demo_run : Run := mkRun 0 0 0 0 last_default.

#[local] Instance demo_map : GuestMap (mapped demo) := mapped_guest_map demo demo_ok eq_refl.

Lemma demo_low m g n : 0 ≤ g → g + n ≤ Hw.GUEST_UEFI_LOW_RAM_BYTES → vmapped (view (mapped demo) m) g n.
Proof. intros. by apply vmapped_low; [apply demo_ok|..]. Qed.

Lemma demo_plain al : plain demo_env al.
Proof. by destruct al. Qed.

Lemma demo_request : request (view (mapped demo) demo_read) 128 0x1000 0 VIRTIO_BLK_T_IN 1 0x5000 [(0x4000, 512, true)].
Proof.
  split; try done; [|by left| | ].
  - exists 0x3000, 16, false, (to_le 4 0 ++ to_le 4 0 ++ to_le 8 1). split_and!; try done; [|by vm_compute..].
    eapply (chain_more _ _ 0 0x3000 16 1 1); [by vm_compute|by vm_compute|]. 
    eapply (chain_more _ _ 1 0x4000 512 3 2); [by vm_compute|by vm_compute|].
    eapply (chain_last _ _ 2 0x5000 1 2 0); by vm_compute.
  - repeat constructor; try done. by apply demo_low; vm_compute.
  - split_and!; try done. by apply demo_low; vm_compute.
Qed.

Lemma demo_ring : ring_ok (view (mapped demo) demo_read) demo_run 128 0x2000 0x6000 0.
Proof. split; try done; [|by apply demo_low; vm_compute..]. exists [0; 0]. split; by vm_compute. Qed.

Lemma blen_bounce : blen (bounce demo_world) = VIRTIO_XFER_CHUNK.
Proof. unfold blen, demo_world, bounce. rewrite length_replicate. by apply Z2Nat.id. Qed.

Lemma demo_range : range_ok demo_world 1 0 (total [(0x4000, 512, true)]).
Proof. split; [done|done|by vm_compute|apply blen_bounce]. Qed.

Lemma request_served_witness :
  ∃ s' r', process_one (mapped demo) demo_env demo_world demo_run 128 0x1000 0x2000 0x6000 false = (s', r', true) ∧
    r_used r' = 1 ∧ disk s' = demo_disk ∧ view (mapped demo) (mm s') 0x4000 = Some 1 ∧ view (mapped demo) (mm s') 0x5000 = Some 0.
Proof.
  pose proof (request_served (mapped demo) demo_env demo_world demo_run 128 0x1000 0x2000 0x6000 0 VIRTIO_BLK_T_IN 1 0x5000
    [(0x4000, 512, true)] false (demo_plain true) ltac:(done) demo_ring demo_request demo_range) as H.
  unfold served in H. cbn [Z.eqb] in H. change (VIRTIO_BLK_T_IN =? VIRTIO_BLK_T_IN) with true in H. cbv iota in H.
  destruct H as (s' & r' & E & -> & V & D & _). exists s'. eexists. split_and!; [exact E|done|exact D| |].
  - etrans; [exact (V 0x4000 ltac:(unfold u64; mlia))|]. vm_compute. reflexivity.
  - etrans; [exact (V 0x5000 ltac:(unfold u64; mlia))|]. vm_compute. reflexivity.
Defined.

Lemma queue_confined_witness :
  confined (mapped demo) (λ s : World unit, let '(s, r, avail) := process_blk_queue (mapped demo) demo_env s 128 0 0 0x1000 0x2000 0x6000 false in
    (s, (r, avail))) ∧ ∀ x, reachable (mapped demo) x → backed demo x.
Proof. split; [apply queue_confined; apply demo_map|]. intros x. apply reachable_backed, demo_ok. Defined.

Lemma readonly_never_writes_witness :
  disk (process_blk_queue (mapped demo) demo_env demo_world 128 0 0 0x1000 0x2000 0x6000 true).1.1 = demo_disk.
Proof.
  pose proof (readonly_never_writes (mapped demo) demo_env (λ _, True) (Build_reads_keep demo_env (λ _, True) (λ _ _ _ _, I) (λ _ _ _ _, I))
    demo_world 128 0 0 0x1000 0x2000 0x6000) as H.
  destruct (process_blk_queue _ _ _ _ _ _ _ _ _ _) as [[s' r'] a]. exact (proj1 H).
Defined.

Lemma demo_bytes : bytes_in demo_read.
Proof. unfold demo_read. repeat apply poke_bytes; repeat apply Forall_app_2; try apply to_le_bytes; [done|by repeat constructor]. Qed.

Lemma indices_in_step_witness :
  let '(_, r, avail) := process_blk_queue (mapped demo) demo_env demo_world 128 0 0 0x1000 0x2000 0x6000 false in
  (avail = 0 ∧ r = mkRun 0 0 0 0 last_default ∧ unmapped (mapped demo)) ∨
  ∃ n, 0 ≤ n ≤ (avail - 0) mod 65536 ∧ r_last r = (0 + n) mod 65536 ∧ r_used r = (0 + n) mod 65536 ∧ r_nreq r = n ∧
       (r_last r = avail ∨ unmapped (mapped demo)).
Proof. apply (indices_in_step (mapped demo) demo_env demo_world); [done..|apply demo_bytes]. Defined.

Lemma demo_chunk sector g len : 0 ≤ sector < 4 → 0 < len ≤ 4096 → 0 ≤ g → g + len ≤ Hw.GUEST_UEFI_LOW_RAM_BYTES →
  one_chunk (mapped demo) demo_world sector 0 g len.
Proof.
  intros S L G M. split; [lia|done|unfold VIRTIO_XFER_CHUNK; lia| |unfold Hw.GUEST_UEFI_LOW_RAM_BYTES in M; mlia|by apply demo_low|apply blen_bounce].
  change (blen (disk demo_world)) with 2048. change (0 / SECTOR) with 0. unfold SECTOR, W64. lia.
Qed.

(** The stale byte 7 of the bounce buffer reaches the guest. *)
Lemma past_end_is_ok_witness : ∃ s',
  transfer (mapped demo) demo_env demo_world VIRTIO_BLK_T_IN 3 true [(0x4000, 1024, true)] 0 0 0 = (s', VIRTIO_BLK_S_OK, 1024, 0, 1024) ∧
  view (mapped demo) (mm s') 0x4200 = Some 7.
Proof.
  destruct (vread_total (view (mapped demo) (mm demo_world)) 0x4000 1024) as [bs B]; [by apply demo_low; vm_compute|].
  destruct (past_end_is_ok (mapped demo) demo_env true (demo_plain true) demo_world 3 0x4000 1024 bs
    (demo_chunk 3 0x4000 1024 ltac:(lia) ltac:(lia) ltac:(lia) ltac:(by vm_compute)) B ltac:(by vm_compute)) as [_ (s' & E & V)]. exists s'. split; [exact E|]. etrans; [exact (V 0x4200 ltac:(unfold u64; mlia))|]. vm_compute. reflexivity.
Defined.

Lemma split_sector_restarts_witness : ∃ s' n,
  transfer (mapped demo) demo_env demo_world VIRTIO_BLK_T_IN 1 true [(0x4000, 256, true); (0x5000, 512, true)] 0 0 0 =
    (s', VIRTIO_BLK_S_OK, 768, 0, n) ∧ view (mapped demo) (mm s') 0x5100 = Some 1.
Proof.
  destruct (vread_total (view (mapped demo) (mm demo_world)) 0x4000 256) as [b1 B1]; [by apply demo_low; vm_compute|].
  destruct (vread_total (view (mapped demo) (mm demo_world)) 0x5000 512) as [b2 B2]; [by apply demo_low; vm_compute|].
  destruct (split_sector_restarts (mapped demo) demo_env true (demo_plain true) demo_world 1 0x4000 0x5000 256 512 b1 b2
    ltac:(done) (demo_chunk 1 0x4000 256 ltac:(lia) ltac:(lia) ltac:(lia) ltac:(by vm_compute))
    (demo_chunk 1 0x5000 512 ltac:(lia) ltac:(lia) ltac:(lia) ltac:(by vm_compute)) ltac:(by vm_compute) ltac:(by vm_compute) B1 B2)
    as [(s' & n & E & V) _]. exists s', n. split; [exact E|].
  etrans; [exact (V 0x5100 ltac:(unfold u64; mlia))|]. vm_compute. reflexivity.
Defined.

End VirtioBlk.
