(* ===== verification/VirtioDisk.v ===== *)
(** * The guest's virtio disks: functions, registers, draining

    The PCI side of [devices/guest_virtio_blk.rs]: the three functions (install disk,
    ISO, spare), their configuration space, windows and registers, the shared interrupt
    line, attaching and presenting the disks, and the drain that runs their queues
    ([VirtioBlk]) and the network card's ([VirtioNet]). The interrupt line is the chip's
    ([IrqChip]). Log lines and the stall dump are left out. *)

From S2P Require Import Prelude Bytes EptHw IrqChip GuestRam VirtioNet VirtioBlk.

Module VirtioDisk.

Import GuestRam.

(** ** Constants *)

Definition GUEST_VIRTIO_PCI_BUS : Z := 0.
Definition GUEST_VIRTIO_PCI_DEV : Z := 2.
Definition GUEST_VIRTIO_PCI_FN : Z := 0.
Definition GUEST_VIRTIO_ISO_PCI_DEV : Z := 3.
Definition GUEST_VIRTIO_ISO_PCI_FN : Z := 0.
Definition GUEST_VIRTIO_SPARE_PCI_DEV : Z := 4.
Definition GUEST_VIRTIO_SPARE_PCI_FN : Z := 0.
Definition GUEST_SLOT0_PCI_DEV : Z := 0.
Definition GUEST_SLOT0_PCI_FN : Z := 0.
Definition GUEST_VIRTIO_PCI_VENDOR : Z := 0x1AF4.
Definition GUEST_VIRTIO_PCI_DEVICE : Z := 0x1042.
Definition GUEST_VIRTIO_PCI_SUBSYS : Z := 0x0002.
Definition GUEST_VIRTIO_BAR0_DEFAULT : Z := 0xFE000000.
Definition GUEST_VIRTIO_ISO_BAR0_DEFAULT : Z := 0xFE001000.
Definition GUEST_VIRTIO_SPARE_BAR0_DEFAULT : Z := 0xFE002000.
Definition GUEST_VIRTIO_BAR0_SIZE : Z := 0x1000.
Definition GUEST_VIRTIO_BAR0_SIZE_MASK : Z := 0xFFFFF000.
Definition VIRTIO_BLK_F_FLUSH : Z := Z.shiftl 1 9.
Definition VIRTIO_BLK_F_RO : Z := Z.shiftl 1 5.
Definition VIRTIO_BLK_DEVICE_FEATURES : Z := Z.lor VirtioNet.VIRTIO_F_VERSION_1 VIRTIO_BLK_F_FLUSH.
Definition VIRTIO_BLK_ISO_FEATURES : Z := Z.lor (Z.lor VirtioNet.VIRTIO_F_VERSION_1 VIRTIO_BLK_F_FLUSH) VIRTIO_BLK_F_RO.
Definition OFF_COMMON : Z := 0x00.
Definition OFF_ISR : Z := 0x100.
Definition OFF_DEVICE : Z := 0x200.
Definition OFF_NOTIFY : Z := 0x300.
Definition VIRTIO_STATUS_DRIVER_OK : Z := 4.
Definition HOST_BRIDGE_VENDOR : Z := 0x8086.
Definition HOST_BRIDGE_DEVICE : Z := 0x1237.
Definition PCI_HEADER_MULTIFUNCTION : Z := 0x00800000.
Definition ISO_INSTALL_OK_MIN_OUT : Z := 512.

(** ** State *)

(** [VirtioPci] *)
Record VirtioPci := mkPci {
  p_visible : bool;
  p_pci_enum : bool;
  p_dev_pci_addr : Z;
  p_pci_cmd : Z;
  p_bar0 : Z;
  p_bar_sizing : bool;
  p_queues_armed : bool;
  p_feat_sel : Z;
  p_drv_feat_sel : Z;
  p_drv_feat : Z;
  p_status : Z;
  p_queue_sel : Z;
  p_queue_size : Z;
  p_queue_enable : Z;
  p_queue_desc : Z;
  p_queue_driver : Z;
  p_queue_device : Z;
  p_last_avail : Z;
  p_used_idx : Z;
  p_isr : Z;
  p_notify_pending : bool;
  p_seen_avail : Z;
  p_readonly : bool;
  p_cap_kind : Z;
  p_default_bar : Z;
  p_last_head : Z;
  p_last_status_gpa : Z;
  p_last_ty : Z;
  p_last_sector : Z;
}.


Definition pci_empty : VirtioPci :=
  mkPci false false 0 0 0 false false 0 0 0 0 0 VirtioBlk.QUEUE_MAX 0 0 0 0 0 0 0 false 0 false 0 0 0 0 0 0.


Definition set_pci_enum (v : VirtioPci) (x : bool) : VirtioPci :=
  mkPci (p_visible v) x (p_dev_pci_addr v) (p_pci_cmd v) (p_bar0 v) (p_bar_sizing v) (p_queues_armed v) (p_feat_sel v)
       (p_drv_feat_sel v) (p_drv_feat v) (p_status v) (p_queue_sel v) (p_queue_size v) (p_queue_enable v)
       (p_queue_desc v) (p_queue_driver v) (p_queue_device v) (p_last_avail v) (p_used_idx v) (p_isr v)
       (p_notify_pending v) (p_seen_avail v) (p_readonly v) (p_cap_kind v) (p_default_bar v) (p_last_head v)
       (p_last_status_gpa v) (p_last_ty v) (p_last_sector v).

Definition set_pci_cmd (v : VirtioPci) (x : Z) : VirtioPci :=
  mkPci (p_visible v) (p_pci_enum v) (p_dev_pci_addr v) x (p_bar0 v) (p_bar_sizing v) (p_queues_armed v) (p_feat_sel v)
       (p_drv_feat_sel v) (p_drv_feat v) (p_status v) (p_queue_sel v) (p_queue_size v) (p_queue_enable v)
       (p_queue_desc v) (p_queue_driver v) (p_queue_device v) (p_last_avail v) (p_used_idx v) (p_isr v)
       (p_notify_pending v) (p_seen_avail v) (p_readonly v) (p_cap_kind v) (p_default_bar v) (p_last_head v)
       (p_last_status_gpa v) (p_last_ty v) (p_last_sector v).

Definition set_bar_sizing (v : VirtioPci) (x : bool) : VirtioPci :=
  mkPci (p_visible v) (p_pci_enum v) (p_dev_pci_addr v) (p_pci_cmd v) (p_bar0 v) x (p_queues_armed v) (p_feat_sel v)
       (p_drv_feat_sel v) (p_drv_feat v) (p_status v) (p_queue_sel v) (p_queue_size v) (p_queue_enable v)
       (p_queue_desc v) (p_queue_driver v) (p_queue_device v) (p_last_avail v) (p_used_idx v) (p_isr v)
       (p_notify_pending v) (p_seen_avail v) (p_readonly v) (p_cap_kind v) (p_default_bar v) (p_last_head v)
       (p_last_status_gpa v) (p_last_ty v) (p_last_sector v).

Definition set_feat_sel (v : VirtioPci) (x : Z) : VirtioPci :=
  mkPci (p_visible v) (p_pci_enum v) (p_dev_pci_addr v) (p_pci_cmd v) (p_bar0 v) (p_bar_sizing v) (p_queues_armed v) x
       (p_drv_feat_sel v) (p_drv_feat v) (p_status v) (p_queue_sel v) (p_queue_size v) (p_queue_enable v)
       (p_queue_desc v) (p_queue_driver v) (p_queue_device v) (p_last_avail v) (p_used_idx v) (p_isr v)
       (p_notify_pending v) (p_seen_avail v) (p_readonly v) (p_cap_kind v) (p_default_bar v) (p_last_head v)
       (p_last_status_gpa v) (p_last_ty v) (p_last_sector v).

Definition set_drv_feat_sel (v : VirtioPci) (x : Z) : VirtioPci :=
  mkPci (p_visible v) (p_pci_enum v) (p_dev_pci_addr v) (p_pci_cmd v) (p_bar0 v) (p_bar_sizing v) (p_queues_armed v)
       (p_feat_sel v) x (p_drv_feat v) (p_status v) (p_queue_sel v) (p_queue_size v) (p_queue_enable v) (p_queue_desc v)
       (p_queue_driver v) (p_queue_device v) (p_last_avail v) (p_used_idx v) (p_isr v) (p_notify_pending v)
       (p_seen_avail v) (p_readonly v) (p_cap_kind v) (p_default_bar v) (p_last_head v) (p_last_status_gpa v)
       (p_last_ty v) (p_last_sector v).

Definition set_drv_feat (v : VirtioPci) (x : Z) : VirtioPci :=
  mkPci (p_visible v) (p_pci_enum v) (p_dev_pci_addr v) (p_pci_cmd v) (p_bar0 v) (p_bar_sizing v) (p_queues_armed v)
       (p_feat_sel v) (p_drv_feat_sel v) x (p_status v) (p_queue_sel v) (p_queue_size v) (p_queue_enable v)
       (p_queue_desc v) (p_queue_driver v) (p_queue_device v) (p_last_avail v) (p_used_idx v) (p_isr v)
       (p_notify_pending v) (p_seen_avail v) (p_readonly v) (p_cap_kind v) (p_default_bar v) (p_last_head v)
       (p_last_status_gpa v) (p_last_ty v) (p_last_sector v).

Definition set_queue_sel (v : VirtioPci) (x : Z) : VirtioPci :=
  mkPci (p_visible v) (p_pci_enum v) (p_dev_pci_addr v) (p_pci_cmd v) (p_bar0 v) (p_bar_sizing v) (p_queues_armed v)
       (p_feat_sel v) (p_drv_feat_sel v) (p_drv_feat v) (p_status v) x (p_queue_size v) (p_queue_enable v)
       (p_queue_desc v) (p_queue_driver v) (p_queue_device v) (p_last_avail v) (p_used_idx v) (p_isr v)
       (p_notify_pending v) (p_seen_avail v) (p_readonly v) (p_cap_kind v) (p_default_bar v) (p_last_head v)
       (p_last_status_gpa v) (p_last_ty v) (p_last_sector v).

Definition set_queue_size (v : VirtioPci) (x : Z) : VirtioPci :=
  mkPci (p_visible v) (p_pci_enum v) (p_dev_pci_addr v) (p_pci_cmd v) (p_bar0 v) (p_bar_sizing v) (p_queues_armed v)
       (p_feat_sel v) (p_drv_feat_sel v) (p_drv_feat v) (p_status v) (p_queue_sel v) x (p_queue_enable v)
       (p_queue_desc v) (p_queue_driver v) (p_queue_device v) (p_last_avail v) (p_used_idx v) (p_isr v)
       (p_notify_pending v) (p_seen_avail v) (p_readonly v) (p_cap_kind v) (p_default_bar v) (p_last_head v)
       (p_last_status_gpa v) (p_last_ty v) (p_last_sector v).

Definition set_queue_enable (v : VirtioPci) (x : Z) : VirtioPci :=
  mkPci (p_visible v) (p_pci_enum v) (p_dev_pci_addr v) (p_pci_cmd v) (p_bar0 v) (p_bar_sizing v) (p_queues_armed v)
       (p_feat_sel v) (p_drv_feat_sel v) (p_drv_feat v) (p_status v) (p_queue_sel v) (p_queue_size v) x (p_queue_desc v)
       (p_queue_driver v) (p_queue_device v) (p_last_avail v) (p_used_idx v) (p_isr v) (p_notify_pending v)
       (p_seen_avail v) (p_readonly v) (p_cap_kind v) (p_default_bar v) (p_last_head v) (p_last_status_gpa v)
       (p_last_ty v) (p_last_sector v).

Definition set_queue_desc (v : VirtioPci) (x : Z) : VirtioPci :=
  mkPci (p_visible v) (p_pci_enum v) (p_dev_pci_addr v) (p_pci_cmd v) (p_bar0 v) (p_bar_sizing v) (p_queues_armed v)
       (p_feat_sel v) (p_drv_feat_sel v) (p_drv_feat v) (p_status v) (p_queue_sel v) (p_queue_size v) (p_queue_enable v)
       x (p_queue_driver v) (p_queue_device v) (p_last_avail v) (p_used_idx v) (p_isr v) (p_notify_pending v)
       (p_seen_avail v) (p_readonly v) (p_cap_kind v) (p_default_bar v) (p_last_head v) (p_last_status_gpa v)
       (p_last_ty v) (p_last_sector v).

Definition set_queue_driver (v : VirtioPci) (x : Z) : VirtioPci :=
  mkPci (p_visible v) (p_pci_enum v) (p_dev_pci_addr v) (p_pci_cmd v) (p_bar0 v) (p_bar_sizing v) (p_queues_armed v)
       (p_feat_sel v) (p_drv_feat_sel v) (p_drv_feat v) (p_status v) (p_queue_sel v) (p_queue_size v) (p_queue_enable v)
       (p_queue_desc v) x (p_queue_device v) (p_last_avail v) (p_used_idx v) (p_isr v) (p_notify_pending v)
       (p_seen_avail v) (p_readonly v) (p_cap_kind v) (p_default_bar v) (p_last_head v) (p_last_status_gpa v)
       (p_last_ty v) (p_last_sector v).

Definition set_queue_device (v : VirtioPci) (x : Z) : VirtioPci :=
  mkPci (p_visible v) (p_pci_enum v) (p_dev_pci_addr v) (p_pci_cmd v) (p_bar0 v) (p_bar_sizing v) (p_queues_armed v)
       (p_feat_sel v) (p_drv_feat_sel v) (p_drv_feat v) (p_status v) (p_queue_sel v) (p_queue_size v) (p_queue_enable v)
       (p_queue_desc v) (p_queue_driver v) x (p_last_avail v) (p_used_idx v) (p_isr v) (p_notify_pending v)
       (p_seen_avail v) (p_readonly v) (p_cap_kind v) (p_default_bar v) (p_last_head v) (p_last_status_gpa v)
       (p_last_ty v) (p_last_sector v).

Definition set_isr (v : VirtioPci) (x : Z) : VirtioPci :=
  mkPci (p_visible v) (p_pci_enum v) (p_dev_pci_addr v) (p_pci_cmd v) (p_bar0 v) (p_bar_sizing v) (p_queues_armed v)
       (p_feat_sel v) (p_drv_feat_sel v) (p_drv_feat v) (p_status v) (p_queue_sel v) (p_queue_size v) (p_queue_enable v)
       (p_queue_desc v) (p_queue_driver v) (p_queue_device v) (p_last_avail v) (p_used_idx v) x (p_notify_pending v)
       (p_seen_avail v) (p_readonly v) (p_cap_kind v) (p_default_bar v) (p_last_head v) (p_last_status_gpa v)
       (p_last_ty v) (p_last_sector v).

Definition set_notify_pending (v : VirtioPci) (x : bool) : VirtioPci :=
  mkPci (p_visible v) (p_pci_enum v) (p_dev_pci_addr v) (p_pci_cmd v) (p_bar0 v) (p_bar_sizing v) (p_queues_armed v)
       (p_feat_sel v) (p_drv_feat_sel v) (p_drv_feat v) (p_status v) (p_queue_sel v) (p_queue_size v) (p_queue_enable v)
       (p_queue_desc v) (p_queue_driver v) (p_queue_device v) (p_last_avail v) (p_used_idx v) (p_isr v) x
       (p_seen_avail v) (p_readonly v) (p_cap_kind v) (p_default_bar v) (p_last_head v) (p_last_status_gpa v)
       (p_last_ty v) (p_last_sector v).

Definition set_bar (v : VirtioPci) (x : Z) : VirtioPci :=
  mkPci (p_visible v) (p_pci_enum v) (p_dev_pci_addr v) (p_pci_cmd v) x false (p_queues_armed v) (p_feat_sel v)
       (p_drv_feat_sel v) (p_drv_feat v) (p_status v) (p_queue_sel v) (p_queue_size v) (p_queue_enable v)
       (p_queue_desc v) (p_queue_driver v) (p_queue_device v) (p_last_avail v) (p_used_idx v) (p_isr v)
       (p_notify_pending v) (p_seen_avail v) (p_readonly v) (p_cap_kind v) (p_default_bar v) (p_last_head v)
       (p_last_status_gpa v) (p_last_ty v) (p_last_sector v).

(** Status 0 resets the queue. *)
Definition set_status (v : VirtioPci) (x : Z) : VirtioPci :=
  mkPci (p_visible v) (p_pci_enum v) (p_dev_pci_addr v) (p_pci_cmd v) (p_bar0 v) (p_bar_sizing v) (p_queues_armed v)
       (p_feat_sel v) (p_drv_feat_sel v) (p_drv_feat v) x (p_queue_sel v) (p_queue_size v) (p_queue_enable v)
       (p_queue_desc v) (p_queue_driver v) (p_queue_device v) (p_last_avail v) (p_used_idx v) (p_isr v)
       (p_notify_pending v) (p_seen_avail v) (p_readonly v) (p_cap_kind v) (p_default_bar v) (p_last_head v)
       (p_last_status_gpa v) (p_last_ty v) (p_last_sector v).

Definition reset_queue (v : VirtioPci)  : VirtioPci :=
  mkPci (p_visible v) (p_pci_enum v) (p_dev_pci_addr v) (p_pci_cmd v) (p_bar0 v) (p_bar_sizing v) (p_queues_armed v)
       (p_feat_sel v) (p_drv_feat_sel v) (p_drv_feat v) (p_status v) (p_queue_sel v) (p_queue_size v) 0 (p_queue_desc v)
       (p_queue_driver v) (p_queue_device v) 0 0 0 false 0 (p_readonly v) (p_cap_kind v) (p_default_bar v)
       (p_last_head v) (p_last_status_gpa v) (p_last_ty v) (p_last_sector v).

Definition set_indices (v : VirtioPci) (last : Z) (used : Z) (seen : Z) : VirtioPci :=
  mkPci (p_visible v) (p_pci_enum v) (p_dev_pci_addr v) (p_pci_cmd v) (p_bar0 v) (p_bar_sizing v) (p_queues_armed v)
       (p_feat_sel v) (p_drv_feat_sel v) (p_drv_feat v) (p_status v) (p_queue_sel v) (p_queue_size v) (p_queue_enable v)
       (p_queue_desc v) (p_queue_driver v) (p_queue_device v) last used (p_isr v) (p_notify_pending v) seen
       (p_readonly v) (p_cap_kind v) (p_default_bar v) (p_last_head v) (p_last_status_gpa v) (p_last_ty v)
       (p_last_sector v).

Definition set_last (v : VirtioPci) (r : VirtioBlk.LastReq) : VirtioPci :=
  mkPci (p_visible v) (p_pci_enum v) (p_dev_pci_addr v) (p_pci_cmd v) (p_bar0 v) (p_bar_sizing v) (p_queues_armed v)
       (p_feat_sel v) (p_drv_feat_sel v) (p_drv_feat v) (p_status v) (p_queue_sel v) (p_queue_size v) (p_queue_enable v)
       (p_queue_desc v) (p_queue_driver v) (p_queue_device v) (p_last_avail v) (p_used_idx v) (p_isr v)
       (p_notify_pending v) (p_seen_avail v) (p_readonly v) (p_cap_kind v) (p_default_bar v) (VirtioBlk.head r)
       (VirtioBlk.status_gpa r) (VirtioBlk.ty r) (VirtioBlk.sector r).

(** A device of [present]: where its window is, what it reports, whether it serves. *)
Definition show (v : VirtioPci) (bar : Z) (kind : Z) (armed : bool) (ro : bool) : VirtioPci :=
  mkPci true (p_pci_enum v) (p_dev_pci_addr v) (p_pci_cmd v) bar (p_bar_sizing v) armed (p_feat_sel v) (p_drv_feat_sel v)
       (p_drv_feat v) (p_status v) (p_queue_sel v) VirtioBlk.QUEUE_MAX (p_queue_enable v) (p_queue_desc v)
       (p_queue_driver v) (p_queue_device v) (p_last_avail v) (p_used_idx v) (p_isr v) (p_notify_pending v)
       (p_seen_avail v) ro kind bar (p_last_head v) (p_last_status_gpa v) (p_last_ty v) (p_last_sector v).

(** [VirtioFn] *)
Inductive VirtioFn := Disk | Iso | Spare.

(** [VirtioBox] with the statics beside it. *)
Record Dev := mkDev {
  pci_addr : Z;
  disk : VirtioPci;
  iso : VirtioPci;
  spare : VirtioPci;
  VISIBLE : bool;
  PCI_ENUM : bool;
  MARKER : bool;
  QUEUES : bool;
  DISK_HPA : Z;
  DISK_LEN : Z;
  LUN_ATTACHED : bool;
  DISK_ATTACHED_KEEP : bool;
  BYTES_WRITTEN : Z;
  ISO_PTR : Z;
  ISO_LEN : Z;
  ISO_READ : Z;
  ISO_VISIBLE : bool;
  ISO_OK : bool;
  PEI_I440FX_DID : bool;
}.

Definition fn_of (s : Dev) (which : VirtioFn) : VirtioPci := match which with Disk => disk s | Iso => iso s | Spare => spare s end.

(** The box replaced. *)
Definition with_box (s : Dev) (addr : Z) (d i p : VirtioPci) : Dev :=
  mkDev addr d i p (VISIBLE s) (PCI_ENUM s) (MARKER s) (QUEUES s) (DISK_HPA s) (DISK_LEN s) (LUN_ATTACHED s)
    (DISK_ATTACHED_KEEP s) (BYTES_WRITTEN s) (ISO_PTR s) (ISO_LEN s) (ISO_READ s) (ISO_VISIBLE s) (ISO_OK s) (PEI_I440FX_DID s).

(** [with_virtio], [with_iso], [with_spare] *)
Definition with_fn (s : Dev) (which : VirtioFn) (v : VirtioPci) : Dev :=
  match which with
  | Disk => with_box s (pci_addr s) v (iso s) (spare s)
  | Iso => with_box s (pci_addr s) (disk s) v (spare s)
  | Spare => with_box s (pci_addr s) (disk s) (iso s) v
  end.

Definition with_enum (s : Dev) : Dev :=
  mkDev (pci_addr s) (disk s) (iso s) (spare s) (VISIBLE s) true (MARKER s) (QUEUES s) (DISK_HPA s) (DISK_LEN s) (LUN_ATTACHED s)
    (DISK_ATTACHED_KEEP s) (BYTES_WRITTEN s) (ISO_PTR s) (ISO_LEN s) (ISO_READ s) (ISO_VISIBLE s) (ISO_OK s) (PEI_I440FX_DID s).

(** The backing of the install disk, and what was written to it. *)
Definition with_disk (s : Dev) (hpa len : Z) (lun keep : bool) (written : Z) : Dev :=
  mkDev (pci_addr s) (disk s) (iso s) (spare s) (VISIBLE s) (PCI_ENUM s) (MARKER s) (QUEUES s) hpa len lun
    keep written (ISO_PTR s) (ISO_LEN s) (ISO_READ s) (ISO_VISIBLE s) (ISO_OK s) (PEI_I440FX_DID s).

Definition with_iso_read (s : Dev) (n : Z) : Dev :=
  mkDev (pci_addr s) (disk s) (iso s) (spare s) (VISIBLE s) (PCI_ENUM s) (MARKER s) (QUEUES s) (DISK_HPA s) (DISK_LEN s) (LUN_ATTACHED s)
    (DISK_ATTACHED_KEEP s) (BYTES_WRITTEN s) (ISO_PTR s) (ISO_LEN s) n (ISO_VISIBLE s) (ISO_OK s) (PEI_I440FX_DID s).

Definition with_flags (s : Dev) (marker iso_ok pei : bool) : Dev :=
  mkDev (pci_addr s) (disk s) (iso s) (spare s) (VISIBLE s) (PCI_ENUM s) marker (QUEUES s) (DISK_HPA s) (DISK_LEN s) (LUN_ATTACHED s)
    (DISK_ATTACHED_KEEP s) (BYTES_WRITTEN s) (ISO_PTR s) (ISO_LEN s) (ISO_READ s) (ISO_VISIBLE s) iso_ok pei.

(** What the rest of the system tells the disks: the product ISO window, the ISO
    library, the controller, the logical unit, and the backings as [VirtioBlk] uses
    them. *)
Record Host (X : Type) := mkHost {
  product_iso_window_armed : bool;
  product_iso_window : option (Z * Z);
  held_bytes : Z;
  perc_spare_bytes : Z;
  durable_lun_serving : bool;
  backing : VirtioBlk.Env X;
}.
Arguments mkHost {X}.
Arguments product_iso_window_armed {X}.
Arguments product_iso_window {X}.
Arguments held_bytes {X}.
Arguments perc_spare_bytes {X}.
Arguments durable_lun_serving {X}.
Arguments backing {X}.

(** ** PCI addresses *)

Definition selects (addr dev fn : Z) : bool :=
  if Z.land addr 0x80000000 =? 0 then false
  else let '(bus, d, f, _) := VirtioNet.pci_bdf addr in (bus =? GUEST_VIRTIO_PCI_BUS) && (d =? dev) && (f =? fn).

Definition pci_addr_selects_slot0 (addr : Z) : bool := selects addr GUEST_SLOT0_PCI_DEV GUEST_SLOT0_PCI_FN.
Definition pci_addr_selects_virtio (addr : Z) : bool := selects addr GUEST_VIRTIO_PCI_DEV GUEST_VIRTIO_PCI_FN.
Definition pci_addr_selects_virtio_iso (addr : Z) : bool := selects addr GUEST_VIRTIO_ISO_PCI_DEV GUEST_VIRTIO_ISO_PCI_FN.
Definition pci_addr_selects_virtio_spare (addr : Z) : bool := selects addr GUEST_VIRTIO_SPARE_PCI_DEV GUEST_VIRTIO_SPARE_PCI_FN.
Definition pci_addr_selects_owned (addr : Z) : bool :=
  pci_addr_selects_slot0 addr || pci_addr_selects_virtio addr || pci_addr_selects_virtio_iso addr || pci_addr_selects_virtio_spare addr.

Definition config_addr (dev fn : Z) : Z :=
  Z.lor (Z.lor (Z.lor 0x80000000 (Z.shiftl GUEST_VIRTIO_PCI_BUS 16)) (Z.shiftl dev 11)) (Z.shiftl fn 8).
Definition pci_config_addr : Z := config_addr GUEST_VIRTIO_PCI_DEV GUEST_VIRTIO_PCI_FN.
Definition pci_config_addr_iso : Z := config_addr GUEST_VIRTIO_ISO_PCI_DEV GUEST_VIRTIO_ISO_PCI_FN.
Definition pci_config_addr_spare : Z := config_addr GUEST_VIRTIO_SPARE_PCI_DEV GUEST_VIRTIO_SPARE_PCI_FN.
Definition pci_config_addr_slot0 : Z := config_addr GUEST_SLOT0_PCI_DEV GUEST_SLOT0_PCI_FN.

(** ** What the timer arbitration asks *)

Definition virtio_disk_evidence (visible pci_enum boot_cd_disk : bool) : bool := visible && pci_enum && boot_cd_disk.

Definition driver_ok (v : VirtioPci) : bool := negb (Z.land (p_status v) VIRTIO_STATUS_DRIVER_OK =? 0).

Definition virtio_needs_pit_over_uart (s : Dev) : bool :=
  let pending (v : VirtioPci) := p_queues_armed v && negb (driver_ok v) in
  pending (disk s) || pending (iso s).

Definition virtio_linux_probe_started (s : Dev) : bool := negb (p_status (disk s) =? 0) || negb (p_status (iso s) =? 0).
Definition virtio_both_driver_ok (s : Dev) : bool := driver_ok (disk s) && driver_ok (iso s).

(** ** Presenting and attaching *)

Definition latch_dxe_virtio_did (s : Dev) : Dev * bool := (with_flags s (MARKER s) (ISO_OK s) false, PEI_I440FX_DID s).

Definition reset (s : Dev) : Dev :=
  mkDev 0 pci_empty pci_empty pci_empty false false false false 0 0 false false 0 0 0 0 false false true.

Definition spare_virtio_offered (spare_bytes : Z) (image_latched : bool) : bool := (512 <=? spare_bytes) && negb image_latched.

(** [x & !(SECTOR - 1)] *)
Definition whole_sectors (x : Z) : Z := Z.land x (bnot64 (VirtioBlk.SECTOR - 1)).

(** The ISO window that [present] finds: pointer and length. *)
Definition iso_window {X} (h : Host X) : option (Z * Z) :=
  if negb (product_iso_window_armed h) then None
  else if VirtioBlk.present_as_cd (backing h) then
    let n := whole_sectors (held_bytes h) in if VirtioBlk.SECTOR <=? n then Some (1, n) else None
  else
    match product_iso_window h with
    | Some (ptr, len) => let n := whole_sectors len in if (VirtioBlk.SECTOR <=? n) && negb (ptr =? 0) then Some (ptr, n) else None
    | None => None
    end.

Definition present {X} (h : Host X) (s : Dev) : Dev * bool :=
  let queues := product_iso_window_armed h in
  let d := show pci_empty GUEST_VIRTIO_BAR0_DEFAULT 0 queues false in
  let '(i, ptr, len) :=
    match iso_window h with
    | Some (ptr, n) => (show pci_empty GUEST_VIRTIO_ISO_BAR0_DEFAULT 1 true true, ptr, n)
    | None => (pci_empty, ISO_PTR s, ISO_LEN s)
    end in
  let p :=
    if queues && spare_virtio_offered (perc_spare_bytes h) (VirtioBlk.perc_image_boot_latched (backing h))
    then show pci_empty GUEST_VIRTIO_SPARE_BAR0_DEFAULT 2 true true else pci_empty in
  (mkDev 0 d i p true false false queues (DISK_HPA s) (DISK_LEN s) (LUN_ATTACHED s) (DISK_ATTACHED_KEEP s) (BYTES_WRITTEN s)
     ptr len (ISO_READ s) (p_visible i) (ISO_OK s) true, true).

Definition reset_keep_disk {X} (h : Host X) (s : Dev) : Dev :=
  (present h
     (mkDev 0 pci_empty pci_empty pci_empty false false false false (DISK_HPA s) (DISK_LEN s) (LUN_ATTACHED s) (DISK_ATTACHED_KEEP s)
        (BYTES_WRITTEN s) (ISO_PTR s) (ISO_LEN s) 0 false (ISO_OK s) true)).1.

(** [image] is the host memory at [hpa]; [zero] asks to clear it. *)
Definition attach_disk_inner (s : Dev) (image : list Z) (hpa bytes : Z) (zero : bool) : Dev * list Z * bool :=
  if (bytes =? 0) || negb (bytes mod VirtioBlk.SECTOR =? 0) || (hpa =? 0) then (s, image, false)
  else (with_disk s hpa bytes false (negb zero) 0, if zero then replicate (Z.to_nat bytes) 0 else image, true).

Definition attach_disk (s : Dev) (image : list Z) (hpa bytes : Z) : Dev * list Z * bool := attach_disk_inner s image hpa bytes true.
Definition attach_disk_keep (s : Dev) (image : list Z) (hpa bytes : Z) : Dev * list Z * bool := attach_disk_inner s image hpa bytes false.

Definition attach_lun {X} (h : Host X) (s : Dev) (bytes : Z) (zero : bool) : Dev * bool :=
  if (bytes =? 0) || negb (bytes mod VirtioBlk.SECTOR =? 0) then (s, false)
  else if negb (durable_lun_serving h) then (s, false)
  else (with_disk s 0 bytes true (negb zero) 0, true).

(** ** PCI configuration space *)

Definition pci_write_addr (s : Dev) (addr : Z) : Dev := with_box s addr (disk s) (iso s) (spare s).

Definition slot0_dword (off : Z) : Z :=
  if off =? 0x00 then Z.lor HOST_BRIDGE_VENDOR (Z.shiftl HOST_BRIDGE_DEVICE 16)
  else if off =? 0x04 then 0x00000006
  else if off =? 0x08 then 0x06000000
  else if off =? 0x0C then PCI_HEADER_MULTIFUNCTION
  else 0.

Definition bar0_read (v : VirtioPci) : Z := if p_queues_armed v && p_bar_sizing v then GUEST_VIRTIO_BAR0_SIZE_MASK else p_bar0 v.

Definition modern_cap_dword (off : Z) : Z :=
  if off =? 0x40 then 0x01105009
  else if off =? 0x48 then OFF_COMMON
  else if off =? 0x4C then 0x38
  else if off =? 0x50 then 0x02146409
  else if off =? 0x58 then OFF_NOTIFY
  else if off =? 0x5C then 0x4
  else if off =? 0x64 then 0x03107409
  else if off =? 0x6C then OFF_ISR
  else if off =? 0x70 then 0x4
  else if off =? 0x74 then 0x04100009
  else if off =? 0x7C then OFF_DEVICE
  else if off =? 0x80 then 0x8
  else 0.

Definition virtio_dword (v : VirtioPci) (off : Z) : Z :=
  if off =? 0x00 then Z.lor GUEST_VIRTIO_PCI_VENDOR (Z.shiftl GUEST_VIRTIO_PCI_DEVICE 16)
  else if off =? 0x04 then Z.lor (p_pci_cmd v) 0x00100000
  else if off =? 0x08 then 0x01000001
  else if off =? 0x0C then PCI_HEADER_MULTIFUNCTION
  else if off =? 0x10 then bar0_read v
  else if off =? 0x2C then Z.lor GUEST_VIRTIO_PCI_VENDOR (Z.shiftl GUEST_VIRTIO_PCI_SUBSYS 16)
  else if off =? 0x34 then 0x40
  else if off =? 0x3C then Z.lor IrqChip.VIRTIO_PIC_IRQ 0x00000100
  else if p_queues_armed v then modern_cap_dword off
  else if off =? 0x40 then 0x00010010
  else 0.

Definition shift_cfg (dword off size : Z) : Z :=
  let shifted := Z.shiftr dword (Z.land off 3 * 8) in
  if size =? 1 then Z.land shifted 0xFF else if size =? 2 then Z.land shifted 0xFFFF else shifted.

Definition pci_read_data (s : Dev) (port size : Z) : Dev * Z :=
  if negb (p_visible (disk s)) then (s, 0xFFFFFFFF)
  else
    let addr := pci_addr s in
    let off := VirtioNet.pci_cfg_offset addr port in
    let aligned := Z.land off 0xFC in
    if pci_addr_selects_slot0 addr then (s, shift_cfg (slot0_dword aligned) off size)
    else if pci_addr_selects_virtio_iso addr then
      (s, if negb (p_visible (iso s)) || PEI_I440FX_DID s then 0xFFFFFFFF else shift_cfg (virtio_dword (iso s) aligned) off size)
    else if pci_addr_selects_virtio_spare addr then
      (s, if negb (p_visible (spare s)) || PEI_I440FX_DID s then 0xFFFFFFFF else shift_cfg (virtio_dword (spare s) aligned) off size)
    else if negb (pci_addr_selects_virtio addr) then (s, 0xFFFFFFFF)
    else if PEI_I440FX_DID s then (s, 0xFFFFFFFF)
    else
      let s := if aligned =? 0 then with_enum (with_fn s Disk (set_pci_enum (disk s) true)) else s in
      (s, shift_cfg (virtio_dword (disk s) aligned) off size).

Definition apply_bar_write (v : VirtioPci) (default_bar size val : Z) : VirtioPci :=
  if p_queues_armed v && (val =? 0xFFFFFFFF) then set_bar_sizing v true
  else
    let next := Z.land val (if 4 <=? size then 0xFFFFF000 else 0xFFFF) in
    set_bar v (if next =? 0 then default_bar else next).

Definition cfg_write (v : VirtioPci) (default_bar off size val : Z) : VirtioPci :=
  if off =? 0x04 then set_pci_cmd v (Z.lor (Z.land val 0xFFFF) 0x0002)
  else if off =? 0x10 then apply_bar_write v default_bar size val
  else v.

Definition pci_write_data (s : Dev) (port size val : Z) : Dev :=
  if negb (p_visible (disk s)) || PEI_I440FX_DID s then s
  else
    let addr := pci_addr s in
    let off := VirtioNet.pci_cfg_offset addr port in
    if pci_addr_selects_virtio addr then with_fn s Disk (cfg_write (disk s) GUEST_VIRTIO_BAR0_DEFAULT off size val)
    else if pci_addr_selects_virtio_iso addr && p_visible (iso s) then
      with_fn s Iso (cfg_write (iso s) GUEST_VIRTIO_ISO_BAR0_DEFAULT off size val)
    else if pci_addr_selects_virtio_spare addr && p_visible (spare s) then
      with_fn s Spare (cfg_write (spare s) GUEST_VIRTIO_SPARE_BAR0_DEFAULT off size val)
    else s.

Definition take_marker (boot_order_cd_then_disk : bool) (s : Dev) : Dev * bool :=
  if negb (virtio_disk_evidence (VISIBLE s) (PCI_ENUM s) boot_order_cd_then_disk) then (s, false)
  else (with_flags s true (ISO_OK s) (PEI_I440FX_DID s), negb (MARKER s)).

(** ** Windows *)

Definition mmio_bar_base_locked (v : VirtioPci) : Z :=
  if negb (p_queues_armed v) then 0
  else
    let dflt :=
      if negb (p_default_bar v =? 0) then p_default_bar v
      else if p_readonly v then GUEST_VIRTIO_ISO_BAR0_DEFAULT else GUEST_VIRTIO_BAR0_DEFAULT in
    let b := Z.land (p_bar0 v) GUEST_VIRTIO_BAR0_SIZE_MASK in
    if p_bar_sizing v || (b =? 0) || (b =? GUEST_VIRTIO_BAR0_SIZE_MASK) then dflt else b.

Definition mmio_programmed_bar_gpas (s : Dev) : list Z :=
  [mmio_bar_base_locked (disk s); mmio_bar_base_locked (iso s); mmio_bar_base_locked (spare s)].

Definition bar_covers (bar gpa : Z) : bool := negb (bar =? 0) && (bar <=? gpa) && (gpa <? bar + GUEST_VIRTIO_BAR0_SIZE).

(** [net] is the network card and whether it is armed. *)
Definition mmio_bar_base_for_gpa (net : bool * VirtioNet.Dev) (s : Dev) (gpa : Z) : option Z :=
  if VirtioNet.covers net.1 net.2 gpa then VirtioNet.bar_gpa net.1 net.2
  else if bar_covers (mmio_bar_base_locked (disk s)) gpa then Some (mmio_bar_base_locked (disk s))
  else if bar_covers (mmio_bar_base_locked (iso s)) gpa then Some (mmio_bar_base_locked (iso s))
  else if bar_covers (mmio_bar_base_locked (spare s)) gpa then Some (mmio_bar_base_locked (spare s))
  else None.

Definition is_virtio_iso_bar_gpa (s : Dev) (gpa : Z) : bool := bar_covers (mmio_bar_base_locked (iso s)) gpa.
Definition is_virtio_spare_bar_gpa (s : Dev) (gpa : Z) : bool := bar_covers (mmio_bar_base_locked (spare s)) gpa.

Definition is_virtio_bar_gpa (net : bool * VirtioNet.Dev) (s : Dev) (gpa : Z) : bool :=
  VirtioNet.covers net.1 net.2 gpa || match mmio_bar_base_for_gpa net s gpa with Some _ => true | None => false end.

Definition page_2m (gpa : Z) : Z := Z.land gpa (bnot64 0x1FFFFF).

Definition is_virtio_bar_2m_gpa (net : bool * VirtioNet.Dev) (s : Dev) (gpa : Z) : bool :=
  let page := page_2m gpa in
  let hits (bar : Z) := negb (bar =? 0) && (page =? page_2m bar) in
  if match VirtioNet.bar_gpa net.1 net.2 with Some bar => page =? page_2m bar | None => false end then true
  else if negb (QUEUES s) then false
  else hits (mmio_bar_base_locked (disk s)) || hits (mmio_bar_base_locked (iso s)) || hits (mmio_bar_base_locked (spare s)).

(** ** Registers *)

Definition features_for (v : VirtioPci) (sel : Z) : Z :=
  let feat := if p_readonly v then VIRTIO_BLK_ISO_FEATURES else VIRTIO_BLK_DEVICE_FEATURES in
  if sel =? 0 then Z.land feat 0xFFFFFFFF else if sel =? 1 then Z.land (Z.shiftr feat 32) 0xFFFFFFFF else 0.

Definition capacity_sectors_for {X} (h : Host X) (s : Dev) (v : VirtioPci) : Z :=
  let bytes :=
    if p_cap_kind v =? 2 then perc_spare_bytes h
    else if p_cap_kind v =? 1 then ISO_LEN s
    else if p_readonly v then ISO_LEN s
    else DISK_LEN s in
  bytes / VirtioBlk.SECTOR.

Definition common_cfg_byte (v : VirtioPci) (off : Z) : Z :=
  let qsize := if p_queue_sel v =? 0 then p_queue_size v else 0 in
  let feat := features_for v (p_feat_sel v) in
  let drv :=
    if p_drv_feat_sel v =? 0 then Z.land (p_drv_feat v) 0xFFFFFFFF
    else Z.land (Z.shiftr (p_drv_feat v) 32) 0xFFFFFFFF in
  let byte := VirtioNet.get_byte in
  if off <=? 0x03 then byte (p_feat_sel v) off
  else if off <=? 0x07 then byte feat (off - 0x04)
  else if off <=? 0x0B then byte (p_drv_feat_sel v) (off - 0x08)
  else if off <=? 0x0F then byte drv (off - 0x0C)
  else if off <=? 0x11 then 0xFF
  else if off =? 0x12 then 1
  else if off =? 0x13 then 0
  else if off =? 0x14 then p_status v
  else if off =? 0x15 then 0
  else if off =? 0x16 then byte (p_queue_sel v) 0
  else if off =? 0x17 then byte (p_queue_sel v) 1
  else if off =? 0x18 then byte qsize 0
  else if off =? 0x19 then byte qsize 1
  else if off <=? 0x1B then 0xFF
  else if off =? 0x1C then byte (p_queue_enable v) 0
  else if off =? 0x1D then byte (p_queue_enable v) 1
  else if off <=? 0x1F then 0
  else if off <=? 0x27 then byte (p_queue_desc v) (off - 0x20)
  else if off <=? 0x2F then byte (p_queue_driver v) (off - 0x28)
  else if off <=? 0x37 then byte (p_queue_device v) (off - 0x30)
  else 0.

Definition common_cfg_read (v : VirtioPci) (off size : Z) : Z :=
  foldl (λ val i, Z.lor val (Z.shiftl (common_cfg_byte v ((off + i) mod 65536)) (8 * i))) 0 (seqZ 0 (VirtioNet.access_bytes size)).

Definition mmio_read_locked {X} (h : Host X) (s : Dev) (v : VirtioPci) (off size : Z) : VirtioPci * Z :=
  if negb (p_queues_armed v) then (v, 0)
  else
    let cap := capacity_sectors_for h s v in
    if off <? 0x38 then (v, common_cfg_read v off size)
    else
      let '(v, val) :=
        if off =? OFF_ISR then (set_isr v 0, p_isr v)
        else if off =? OFF_DEVICE then (v, cap)
        else if off =? OFF_DEVICE + 4 then (v, Z.shiftr cap 32)
        else (v, 0) in
      (v, if size =? 1 then Z.land val 0xFF else if size =? 2 then Z.land val 0xFFFF else if size =? 4 then Z.land val 0xFFFFFFFF else val).

Definition virtio_isr_latched (s : Dev) : bool := negb (p_isr (disk s) =? 0) || negb (p_isr (iso s) =? 0) || negb (p_isr (spare s) =? 0).

Definition virtio_stall_pulse_intx (live : bool) (s : Dev) (irq : IrqChip.Irq) : Dev * IrqChip.Irq :=
  (with_box s (pci_addr s) (set_isr (disk s) 1) (set_isr (iso s) 1) (set_isr (spare s) 1),
   IrqChip.raise_virtio_iso live (IrqChip.raise_virtio live irq)).

Definition reassert_virtio_shared_intx (live : bool) (s : Dev) (irq : IrqChip.Irq) : IrqChip.Irq :=
  let irq := if negb (p_isr (disk s) =? 0) || negb (p_isr (spare s) =? 0) then IrqChip.raise_virtio live irq else irq in
  if negb (p_isr (iso s) =? 0) then IrqChip.raise_virtio_iso live irq else irq.

Definition virtio_shared_intx_hold (sibling_isr : bool) : bool := sibling_isr.

Definition mmio_read_dev {X} (h : Host X) (s : Dev) (irq : IrqChip.Irq) (which : VirtioFn) (off size : Z) : Dev * IrqChip.Irq * Z :=
  let '(v, val) := mmio_read_locked h s (fn_of s which) off size in
  let s := with_fn s which v in
  let irq :=
    if off =? OFF_ISR then
      if virtio_shared_intx_hold (virtio_isr_latched s) then reassert_virtio_shared_intx (product_iso_window_armed h) s irq
      else match which with Iso => IrqChip.lower_virtio_iso irq | _ => IrqChip.lower_virtio irq end
    else irq in
  (s, irq, val).

(** The function a window address belongs to. *)
Definition which_fn (s : Dev) (gpa : Z) : VirtioFn :=
  if is_virtio_spare_bar_gpa s gpa then Spare else if is_virtio_iso_bar_gpa s gpa then Iso else Disk.

(** Also for the network card, whose state is in [net]. *)
Definition mmio_read_at {X} (h : Host X) (mac : option (list Z)) (carrier : bool) (net : bool * VirtioNet.Dev) (s : Dev)
    (irq : IrqChip.Irq) (gpa size : Z) : VirtioNet.Dev * Dev * IrqChip.Irq * Z :=
  if VirtioNet.covers net.1 net.2 gpa then
    let '(irq, n, val) := VirtioNet.mmio_read mac carrier irq net.2 gpa size in (n, s, irq, val)
  else
    match mmio_bar_base_for_gpa net s gpa with
    | None => (net.2, s, irq, 0)
    | Some bar =>
        let '(s, irq, val) := mmio_read_dev h s irq (which_fn s gpa) ((gpa ⊟ bar) mod 65536) size in (net.2, s, irq, val)
    end.

(** One byte of a store to the common configuration. *)
Definition common_cfg_write_byte (v : VirtioPci) (off b : Z) : VirtioPci :=
  let put := VirtioNet.set_byte in
  if off <=? 0x03 then set_feat_sel v (put (p_feat_sel v) off b)
  else if off <=? 0x07 then v
  else if off <=? 0x0B then set_drv_feat_sel v (put (p_drv_feat_sel v) (off - 0x08) b)
  else if off <=? 0x0F then
    set_drv_feat v
      (if p_drv_feat_sel v =? 0 then
         let lo := put (Z.land (p_drv_feat v) 0xFFFFFFFF) (off - 0x0C) b in
         Z.lor (Z.ldiff (p_drv_feat v) 0xFFFFFFFF) lo
       else
         let hi := put (Z.land (Z.shiftr (p_drv_feat v) 32) 0xFFFFFFFF) (off - 0x0C) b in
         Z.lor (Z.land (p_drv_feat v) 0xFFFFFFFF) (Z.shiftl hi 32))
  else if off =? 0x14 then let v := set_status v b in if p_status v =? 0 then reset_queue v else v
  else if (off =? 0x16) || (off =? 0x17) then set_queue_sel v (put (p_queue_sel v) (off - 0x16) b)
  else if (off =? 0x18) || (off =? 0x19) then
    if p_queue_sel v =? 0 then
      let n := put (p_queue_size v) (off - 0x18) b in
      if (0 <? n) && (n <=? VirtioBlk.QUEUE_MAX) then set_queue_size v n else v
    else v
  else if (off =? 0x1C) || (off =? 0x1D) then set_queue_enable v (put (p_queue_enable v) (off - 0x1C) b)
  else if (0x20 <=? off) && (off <=? 0x27) then set_queue_desc v (put (p_queue_desc v) (off - 0x20) b)
  else if (0x28 <=? off) && (off <=? 0x2F) then set_queue_driver v (put (p_queue_driver v) (off - 0x28) b)
  else if (0x30 <=? off) && (off <=? 0x37) then set_queue_device v (put (p_queue_device v) (off - 0x30) b)
  else v.

Definition mmio_write_locked (v : VirtioPci) (off size val : Z) : VirtioPci :=
  if negb (p_queues_armed v) then v
  else if off <? 0x38 then
    foldl (λ v i, common_cfg_write_byte v ((off + i) mod 65536) (VirtioNet.get_byte val i)) v (seqZ 0 (VirtioNet.access_bytes size))
  else if off =? OFF_NOTIFY then set_notify_pending v true
  else v.

Definition mmio_write_dev (s : Dev) (which : VirtioFn) (off size val : Z) : Dev :=
  with_fn s which (mmio_write_locked (fn_of s which) off size val).

Definition mmio_write_at (net : bool * VirtioNet.Dev) (s : Dev) (gpa size val : Z) : VirtioNet.Dev * Dev :=
  if VirtioNet.covers net.1 net.2 gpa then (VirtioNet.mmio_write net.2 gpa size val, s)
  else
    match mmio_bar_base_for_gpa net s gpa with
    | None => (net.2, s)
    | Some bar => (net.2, mmio_write_dev s (which_fn s gpa) ((gpa ⊟ bar) mod 65536) size val)
    end.

(** ** Draining the queues *)

(** The devices with the memory, the images, the other backings and the interrupt chip. *)
Record Sys (X : Type) := mkSys {
  dev : Dev;
  irq : IrqChip.Irq;
  mm : mem;
  disk_image : list Z;
  iso_image : list Z;
  ext : X;
  bounce : list Z;
  XLATE_FAIL : Z;
}.
Arguments mkSys {X}.
Arguments dev {X}.
Arguments irq {X}.
Arguments mm {X}.
Arguments disk_image {X}.
Arguments iso_image {X}.
Arguments ext {X}.
Arguments bounce {X}.
Arguments XLATE_FAIL {X}.

Definition with_dev {X} (s : Sys X) (d : Dev) : Sys X := mkSys d (irq s) (mm s) (disk_image s) (iso_image s) (ext s) (bounce s) (XLATE_FAIL s).
Definition with_irq {X} (s : Sys X) (i : IrqChip.Irq) : Sys X := mkSys (dev s) i (mm s) (disk_image s) (iso_image s) (ext s) (bounce s) (XLATE_FAIL s).

Definition note_last_req (v : VirtioPci) (r : VirtioBlk.LastReq) : VirtioPci := if VirtioBlk.any r then set_last v r else v.

(** Whether the guest notified, and the device with the notification taken. *)
Definition take_queue (v : VirtioPci) : VirtioPci * bool :=
  let p := p_notify_pending v in
  let v := set_notify_pending v false in
  (if p then set_isr v 1 else v, p).

(** The line of a function. *)
Definition raise_fn (live : bool) (which : VirtioFn) (i : IrqChip.Irq) : IrqChip.Irq :=
  match which with Iso => IrqChip.raise_virtio_iso live i | _ => IrqChip.raise_virtio live i end.

(** The backings as a transfer sees them. *)
Definition env_for {X} (h : Host X) (d : Dev) (perc_xfer : bool) : VirtioBlk.Env X :=
  let e := backing h in
  VirtioBlk.mkEnv X perc_xfer (VirtioBlk.present_as_cd e) (VirtioBlk.perc_image_boot_latched e) (durable_lun_serving h && LUN_ATTACHED d)
    (VirtioBlk.library_read_at e) (VirtioBlk.perc_spare_read e) (VirtioBlk.perc_image_read e) (VirtioBlk.perc_image_write e)
    (VirtioBlk.durable_lun_rw e) (VirtioBlk.perc_image_flush e).

Section Drain.
Context {X : Type} (h : Host X) (translate : Z → option Z).

(** A queue run of one function over [image]: the state, the new image and the bytes. *)
Definition run_queue (s : Sys X) (which : VirtioFn) (notified : bool) (image : list Z) (perc_xfer : bool) (readonly : bool)
    : Sys X * list Z * Z :=
  let v := fn_of (dev s) which in
  let '(w, r, avail) :=
    VirtioBlk.process_blk_queue translate (env_for h (dev s) perc_xfer)
      (VirtioBlk.mkWorld (mm s) image (ext s) (bounce s) (XLATE_FAIL s))
      (p_queue_size v) (p_last_avail v) (p_used_idx v) (p_queue_desc v) (p_queue_driver v) (p_queue_device v) readonly in
  let v := note_last_req (set_indices v (VirtioBlk.r_last r) (VirtioBlk.r_used r) avail) (VirtioBlk.r_req r) in
  let v := if 0 <? VirtioBlk.r_nreq r then set_isr v 1 else v in
  let i := if notified || (0 <? VirtioBlk.r_nreq r) then raise_fn (product_iso_window_armed h) which (irq s) else irq s in
  (mkSys (with_fn (dev s) which v) i (VirtioBlk.mm w) (disk_image s) (iso_image s) (VirtioBlk.ext w) (VirtioBlk.bounce w)
     (VirtioBlk.XLATE_FAIL w), VirtioBlk.disk w, VirtioBlk.r_written r).

(** The notification taken: nothing else to do but the interrupt. *)
Definition only_notify (s : Sys X) (which : VirtioFn) (notified : bool) : Sys X :=
  if notified then with_irq s (raise_fn (product_iso_window_armed h) which (irq s)) else s.

Definition begin_drain (s : Sys X) (which : VirtioFn) : Sys X * bool :=
  let '(v, notified) := take_queue (fn_of (dev s) which) in (with_dev s (with_fn (dev s) which v), notified).

Definition enabled (s : Sys X) (which : VirtioFn) : bool := negb (p_queue_enable (fn_of (dev s) which) =? 0).

Definition drain_disk (s : Sys X) : Sys X * Z :=
  let '(s, notified) := begin_drain s Disk in
  if negb (enabled s Disk) then (only_notify s Disk notified, 0)
  else
    let lun := LUN_ATTACHED (dev s) && durable_lun_serving h in
    if negb lun && ((DISK_HPA (dev s) =? 0) || (DISK_LEN (dev s) =? 0)) then (only_notify s Disk notified, 0)
    else
      let '(s, image, n) := run_queue s Disk notified (if lun then [0] else disk_image s) false false in
      let d := dev s in
      let d := if 0 <? n then with_disk d (DISK_HPA d) (DISK_LEN d) (LUN_ATTACHED d) (DISK_ATTACHED_KEEP d) (BYTES_WRITTEN d ⊞ n) else d in
      (mkSys d (irq s) (mm s) (if lun then disk_image s else image) (iso_image s) (ext s) (bounce s) (XLATE_FAIL s), n).

Definition drain_iso (s : Sys X) : Sys X :=
  let '(s, notified) := begin_drain s Iso in
  if negb (enabled s Iso) then only_notify s Iso notified
  else
    let count (s : Sys X) (n : Z) := if 0 <? n then with_dev s (with_iso_read (dev s) (ISO_READ (dev s) ⊞ n)) else s in
    if VirtioBlk.present_as_cd (backing h) then
      let '(s, _, n) := run_queue s Iso notified [] false true in count s n
    else if (ISO_PTR (dev s) =? 0) || (ISO_LEN (dev s) =? 0) then only_notify s Iso notified
    else
      let '(s, image, n) := run_queue s Iso notified (iso_image s) false true in
      count (mkSys (dev s) (irq s) (mm s) (disk_image s) image (ext s) (bounce s) (XLATE_FAIL s)) n.

Definition drain_spare (s : Sys X) : Sys X :=
  let '(s, notified) := begin_drain s Spare in
  if negb (enabled s Spare) || (perc_spare_bytes h <? VirtioBlk.SECTOR) then only_notify s Spare notified
  else let '(s, _, _) := run_queue s Spare notified [0] true true in s.

(** The three disks, then the network card: also the frames it sent. *)
Definition drain_queue (armed : bool) (send : list Z → bool) (s : Sys X) (net : VirtioNet.Dev)
    : Sys X * VirtioNet.Dev * list (list Z) * Z :=
  let '(s, disk_n) := drain_disk s in
  let s := drain_iso s in
  let s := drain_spare s in
  let '(m, net, frames) := VirtioNet.drain translate armed send (mm s) net in
  (mkSys (dev s) (irq s) m (disk_image s) (iso_image s) (ext s) (bounce s) (XLATE_FAIL s), net, frames, disk_n).

End Drain.

Definition take_iso_read_note (s : Dev) : Dev * option Z :=
  (with_iso_read s 0, if ISO_READ s =? 0 then None else Some (ISO_READ s)).

(** ** The install check *)

Definition GPT_ESP_TYPE : list Z := [0x28; 0x73; 0x2A; 0xC1; 0x1F; 0xF8; 0xD2; 0x11; 0xBA; 0x4B; 0x00; 0xA0; 0xC9; 0x3E; 0xC9; 0x3B].
Definition GPT_LINUX_FS_TYPE : list Z := [0xAF; 0x3D; 0xC6; 0x0F; 0x83; 0x84; 0x72; 0x47; 0x8E; 0x79; 0x3D; 0x69; 0xD8; 0x47; 0x7D; 0xE4].

(** ["EFI PART"]: with that signature the entries make no difference. *)
Definition EFI_PART : list Z := [69; 70; 73; 32; 80; 65; 82; 84].

(** The scan of the first four entries. *)
Definition gpt_entry (disk : list Z) (i : Z) : bool :=
  let off := 1024 + i * 128 in
  if blen disk <? off + 16 then false
  else
    let ty := slice off 16 disk in
    bool_decide (ty = GPT_ESP_TYPE) || bool_decide (ty = GPT_LINUX_FS_TYPE).

Definition install_disk_has_partition_table (disk : list Z) : bool :=
  if blen disk <? 512 then false
  else
    let mbr := (default 0 (disk !! 510%nat) =? 0x55) && (default 0 (disk !! 511%nat) =? 0xAA) in
    if (1024 <=? blen disk) && bool_decide (slice 512 8 disk = EFI_PART) then
      if (1024 + 128 <=? blen disk) && existsb (gpt_entry disk) (seqZ 0 4) then true else true
    else mbr && negb (default 0 (disk !! 450%nat) =? 0).

Definition take_iso_install_ok {X} (h : Host X) (image : list Z) (x : X) (s : Dev) : Dev * X * bool :=
  if DISK_ATTACHED_KEEP s || ISO_OK s then (s, x, false)
  else if negb (QUEUES s) || (BYTES_WRITTEN s <? ISO_INSTALL_OK_MIN_OUT) then (s, x, false)
  else
    let '(x, has_table) :=
      if LUN_ATTACHED s && durable_lun_serving h then
        if DISK_LEN s <? 512 then (x, false)
        else
          let '(x, peek, ok) := VirtioBlk.durable_lun_rw (backing h) x 0 (replicate (Z.to_nat (Z.min 2048 (DISK_LEN s))) 0) false in
          (x, ok && install_disk_has_partition_table peek)
      else if (DISK_HPA s =? 0) || (DISK_LEN s <? 512) then (x, false)
      else (x, install_disk_has_partition_table image) in
    if negb has_table then (s, x, false)
    else (with_flags s (MARKER s) true (PEI_I440FX_DID s), x, negb (ISO_OK s)).

(** ** Any use of the disks *)

(** What one step may see of the outside: the backings, the translation, the card. *)
Record Ctx (X : Type) := mkCtx {
  c_host : Host X;
  c_translate : Z → option Z;
  c_armed : bool;
  c_send : list Z → bool;
  c_mac : option (list Z);
  c_carrier : bool;
}.
Arguments c_host {X}.
Arguments c_translate {X}.
Arguments c_armed {X}.
Arguments c_send {X}.
Arguments c_mac {X}.
Arguments c_carrier {X}.

(** What the guest and the hypervisor can do with them. *)
Inductive op :=
  | OReset
  | OPresent
  | OResetKeep
  | OAttach (image : list Z) (hpa bytes : Z) (zero : bool)
  | OAttachLun (bytes : Z) (zero : bool)
  | OLatch
  | OAddr (addr : Z)
  | OCfgRead (port size : Z)
  | OCfgWrite (port size val : Z)
  | ORead (gpa size : Z)
  | OWrite (gpa size val : Z)
  | OPulse
  | ODrain.

Definition apply {X} (c : Ctx X) (o : op) (m : Sys X * VirtioNet.Dev) : Sys X * VirtioNet.Dev :=
  let '(s, net) := m in
  let h := c_host c in
  match o with
  | OReset => (with_dev s (reset (dev s)), net)
  | OPresent => (with_dev s (present h (dev s)).1, net)
  | OResetKeep => (with_dev s (reset_keep_disk h (dev s)), net)
  | OAttach image hpa bytes zero =>
      let '(d, image', ok) := attach_disk_inner (dev s) image hpa bytes zero in
      (mkSys d (irq s) (mm s) (if (ok : bool) then image' else disk_image s) (iso_image s) (ext s) (bounce s) (XLATE_FAIL s), net)
  | OAttachLun bytes zero => (with_dev s (attach_lun h (dev s) bytes zero).1, net)
  | OLatch => (with_dev s (latch_dxe_virtio_did (dev s)).1, net)
  | OAddr addr => (with_dev s (pci_write_addr (dev s) addr), net)
  | OCfgRead port size => (with_dev s (pci_read_data (dev s) port size).1, net)
  | OCfgWrite port size val => (with_dev s (pci_write_data (dev s) port size val), net)
  | ORead gpa size =>
      let '(n, d, i, _) := mmio_read_at h (c_mac c) (c_carrier c) (c_armed c, net) (dev s) (irq s) gpa size in (with_irq (with_dev s d) i, n)
  | OWrite gpa size val => let '(n, d) := mmio_write_at (c_armed c, net) (dev s) gpa size val in (with_dev s d, n)
  | OPulse => let '(d, i) := virtio_stall_pulse_intx (product_iso_window_armed h) (dev s) (irq s) in (with_irq (with_dev s d) i, net)
  | ODrain => let '(s, n, _, _) := drain_queue h (c_translate c) (c_armed c) (c_send c) s net in (s, n)
  end.

Definition run {X} (steps : list (Ctx X * op)) (m : Sys X * VirtioNet.Dev) : Sys X * VirtioNet.Dev :=
  foldl (λ m st, apply st.1 st.2 m) m steps.

(** Registers in their width, the queue size in the range that the drain relies on. *)
Record regs_ok (v : VirtioPci) : Prop := {
  ro_size : 0 < p_queue_size v ≤ VirtioBlk.QUEUE_MAX;
  ro_last : 0 ≤ p_last_avail v < 65536;
  ro_used : 0 ≤ p_used_idx v < 65536;
  ro_isr : p_isr v = 0 ∨ p_isr v = 1;
  ro_status : below 8 (p_status v);
  ro_feat_sel : below 32 (p_feat_sel v);
  ro_drv_sel : below 32 (p_drv_feat_sel v);
  ro_drv_feat : below 64 (p_drv_feat v);
  ro_sel : below 16 (p_queue_sel v);
  ro_enable : below 16 (p_queue_enable v);
  ro_desc : below 64 (p_queue_desc v);
  ro_driver : below 64 (p_queue_driver v);
  ro_device : below 64 (p_queue_device v);
}.

(** The install disk is writable; a served ISO or spare is read-only. *)
Definition role_ok (which : VirtioFn) (v : VirtioPci) : Prop :=
  match which with Disk => p_readonly v = false | _ => p_queues_armed v = true → p_readonly v = true end.

Definition fn_ok (which : VirtioFn) (v : VirtioPci) : Prop := regs_ok v ∧ role_ok which v.

Definition dev_ok (s : Dev) : Prop := ∀ which, fn_ok which (fn_of s which).

Lemma get_byte_below x k : below 8 (VirtioNet.get_byte x k).
Proof. unfold VirtioNet.get_byte. by apply below_land. Qed.

Lemma set_byte_below n x k b : 0 ≤ k → 8 * k + 8 ≤ n → below n x → below 8 b → below n (VirtioNet.set_byte x k b).
Proof.
  intros K N X B. unfold VirtioNet.set_byte. apply below_lor; [lia|by apply below_ldiff; [lia|]|].
  apply (below_mono (8 * k + 8)); [lia|]. unfold below in *. rewrite Z.shiftl_mul_pow2, Z.pow_add_r by lia.
  pose proof (Z.pow_pos_nonneg 2 (8 * k)). nia.
Qed.

Ltac regs := match goal with R : regs_ok _ |- _ => destruct R; split; cbn in *; try assumption end.

Lemma low32_below x : below 32 (Z.land x 0xFFFFFFFF).
Proof. by apply below_land. Qed.

Lemma drv_lo_below x k b : 0 ≤ k → k ≤ 3 → below 64 x → below 8 b →
  below 64 (Z.lor (Z.ldiff x 0xFFFFFFFF) (VirtioNet.set_byte (Z.land x 0xFFFFFFFF) k b)).
Proof.
  intros. apply below_lor; [lia|by apply below_ldiff|]. apply (below_mono 32); [lia|].
  apply set_byte_below; [lia|lia|apply low32_below|done].
Qed.

Lemma drv_hi_below x k b : 0 ≤ k → k ≤ 3 → below 8 b →
  below 64 (Z.lor (Z.land x 0xFFFFFFFF) (Z.shiftl (VirtioNet.set_byte (Z.land (Z.shiftr x 32) 0xFFFFFFFF) k b) 32)).
Proof.
  intros. apply below_lor; [lia|apply (below_mono 32); [lia|apply low32_below]|].
  assert (below 32 (VirtioNet.set_byte (Z.land (Z.shiftr x 32) 0xFFFFFFFF) k b)) as B by (apply set_byte_below; [lia|lia|apply low32_below|done]).
  unfold below in *. rewrite Z.shiftl_mul_pow2 by lia. change (2 ^ 64) with (2 ^ 32 * 2 ^ 32). nia.
Qed.

Lemma write_byte_ok which v off b : fn_ok which v → 0 ≤ off → below 8 b → fn_ok which (common_cfg_write_byte v off b).
Proof.
  intros [R Ro] O B. unfold common_cfg_write_byte.
  repeat match goal with |- context [if ?c then _ else _] => destruct c eqn:? end; try (by split);
    repeat match goal with H : (_ <=? _) = _ |- _ => first [apply Z.leb_le in H|apply Z.leb_gt in H] | H : (_ <? _) = _ |- _ => apply Z.ltb_lt in H
      | H : (_ || _) = _ |- _ => apply orb_true_iff in H | H : (_ && _) = true |- _ => apply andb_true_iff in H as [? ?] end.
  all: split; [|exact Ro].
  all: regs.
  all: first [done|by left|apply set_byte_below; try assumption; lia|apply drv_lo_below; try assumption; lia|apply drv_hi_below; try assumption; lia|lia].
Qed.

Lemma with_fn_ok s which v : dev_ok s → fn_ok which v → dev_ok (with_fn s which v).
Proof. intros D V w. specialize (D w). by destruct which, w. Qed.

Lemma write_locked_ok which v off size val : fn_ok which v → fn_ok which (mmio_write_locked v off size val).
Proof.
  intros V. unfold mmio_write_locked. destruct (negb _); [done|]. destruct (_ <? _).
  - generalize (seqZ 0 (VirtioNet.access_bytes size)) as l. intros l. revert v V. induction l as [|i l IH]; intros v V; [done|].
    cbn [foldl]. apply IH, write_byte_ok; [done|by apply Z.mod_pos_bound|apply get_byte_below].
  - destruct (_ =? _); [|done]. destruct V as [R Ro]. split; [|exact Ro]. regs.
Qed.

Lemma set_isr_ok which v x : fn_ok which v → x = 0 ∨ x = 1 → fn_ok which (set_isr v x).
Proof. intros [R Ro] B. split; [|exact Ro]. regs. Qed.

Lemma read_locked_ok {X} (h : Host X) s which v off size : fn_ok which v → fn_ok which (mmio_read_locked h s v off size).1.
Proof.
  intros V. unfold mmio_read_locked. destruct (negb _); [done|]. destruct (_ <? _); [done|]. destruct (_ =? OFF_ISR).
  - apply set_isr_ok; [done|by left].
  - destruct (_ =? _); [done|]. by destruct (_ =? _).
Qed.

Lemma cfg_write_ok which v dflt off size val : fn_ok which v → fn_ok which (cfg_write v dflt off size val).
Proof.
  intros [R Ro]. unfold cfg_write, apply_bar_write. destruct (_ =? 4); [|destruct (_ =? 16); [destruct (_ && _)|]]; (split; [|exact Ro]); regs.
Qed.

Lemma empty_ok which : fn_ok which pci_empty.
Proof. split; [|by destruct which]. split; try done; by left. Qed.

Lemma show_ok which bar kind armed ro : (if which is Disk then ro = false else ro = true) → fn_ok which (show pci_empty bar kind armed ro).
Proof. intros E. split; [split; try done; by left|]. destruct which; cbn in *; by intros. Qed.

Lemma present_ok {X} (h : Host X) s : dev_ok (present h s).1.
Proof.
  unfold present. destruct (iso_window h) as [[ptr n]|]; intros []; cbn [fst fn_of disk iso spare]; try apply empty_ok; try by apply show_ok.
  all: destruct (_ && _); [by apply show_ok|apply empty_ok].
Qed.

(** Only the three functions matter. *)
Lemma dev_ok_same s s' : disk s' = disk s → iso s' = iso s → spare s' = spare s → dev_ok s → dev_ok s'.
Proof. intros E1 E2 E3 D which. specialize (D which). destruct which; cbn [fn_of] in *; by rewrite ?E1, ?E2, ?E3. Qed.

Lemma pci_read_ok s port size : dev_ok s → dev_ok (pci_read_data s port size).1.
Proof.
  intros D. unfold pci_read_data. destruct (negb _); [done|]. destruct (pci_addr_selects_slot0 _); [done|].
  destruct (pci_addr_selects_virtio_iso _); [done|]. destruct (pci_addr_selects_virtio_spare _); [done|]. destruct (negb _); [done|].
  destruct (PEI_I440FX_DID s); [done|]. destruct (_ =? 0); [|done]. cbn [fst].
  apply (dev_ok_same (with_fn s Disk (set_pci_enum (disk s) true))); [done..|]. apply with_fn_ok; [done|].
  destruct (D Disk) as [R Ro]. split; [|exact Ro]. cbn [fn_of] in R. regs.
Qed.

Lemma pci_write_ok s port size val : dev_ok s → dev_ok (pci_write_data s port size val).
Proof.
  intros D. unfold pci_write_data. destruct (_ || _); [done|]. destruct (pci_addr_selects_virtio _).
  { apply with_fn_ok; [done|]. apply cfg_write_ok, (D Disk). }
  destruct (_ && _). { apply with_fn_ok; [done|]. apply cfg_write_ok, (D Iso). }
  destruct (_ && _); [|done]. apply with_fn_ok; [done|]. apply cfg_write_ok, (D Spare).
Qed.

Lemma read_dev_ok {X} (h : Host X) s i which off size : dev_ok s → dev_ok (mmio_read_dev h s i which off size).1.1.
Proof.
  intros D. unfold mmio_read_dev. pose proof (read_locked_ok h s which (fn_of s which) off size (D which)) as R.
  destruct (mmio_read_locked h s (fn_of s which) off size) as [v val]. by apply with_fn_ok.
Qed.

Section Draining.
Context {X : Type} (h : Host X) (translate : Z → option Z).

(** The functions stay well-formed and the ISO stays as it was. *)
Definition sound (s s' : Sys X) : Prop := (dev_ok (dev s) → dev_ok (dev s')) ∧ iso_image s' = iso_image s.

#[export] Instance sound_preorder : PreOrder sound.
Proof. split; [done|]. intros s1 s2 s3 [A1 B1] [A2 B2]. split; [auto|congruence]. Qed.

Lemma run_queue_sound s which notified image px ro : sound s (run_queue h translate s which notified image px ro).1.1.
Proof.
  unfold run_queue. set (v := fn_of (dev s) which). set (w := VirtioBlk.mkWorld _ _ _ _ _). set (e := env_for _ _ _).
  pose proof (VirtioBlk.process_indices translate e w (p_queue_size v) (p_last_avail v) (p_used_idx v) (p_queue_desc v) (p_queue_driver v) (p_queue_device v) ro) as P.
  destruct (VirtioBlk.process_blk_queue _ _ _ _ _ _ _ _ _ _) as [[w' r] avail]. cbn [fst snd] in *. split; [|done].
  intros D. destruct (D which) as [R Ro]. fold v in R, Ro. specialize (P (ro_last _ R) (ro_used _ R)) as [P1 P2].
  cbn [dev]. apply with_fn_ok; [done|].
  assert (fn_ok which (note_last_req (set_indices v (VirtioBlk.r_last r) (VirtioBlk.r_used r) avail) (VirtioBlk.r_req r))) as V.
  { unfold note_last_req. destruct (VirtioBlk.any _); (split; [|exact Ro]); regs. }
  destruct (0 <? _); [|done]. apply set_isr_ok; [done|by right].
Qed.

Lemma begin_sound s which : sound s (begin_drain s which).1.
Proof.
  unfold begin_drain, take_queue. split; [|done]. intros D. apply with_fn_ok; [done|].
  assert (fn_ok which (set_notify_pending (fn_of (dev s) which) false)) as V by (destruct (D which) as [R Ro]; (split; [|exact Ro]); regs).
  cbn [fst]. destruct (p_notify_pending _); [|done]. apply set_isr_ok; [done|by right].
Qed.

Lemma notify_sound s which b : sound s (only_notify h s which b).
Proof. by destruct b. Qed.

Lemma drain_disk_sound s : sound s (drain_disk h translate s).1.
Proof.
  unfold drain_disk. pose proof (begin_sound s Disk) as B. destruct (begin_drain s Disk) as [s1 nt]. cbn [fst] in B.
  destruct (negb _); [etrans; [exact B|apply notify_sound]|]. destruct (negb _ && _); [etrans; [exact B|apply notify_sound]|].
  set (img := if LUN_ATTACHED (dev s1) && durable_lun_serving h then [0] else disk_image s1). pose proof (run_queue_sound s1 Disk nt img false false) as R.
  destruct (run_queue _ _ _ _ _ _ _ _) as [[s2 image] n]. cbn [fst] in R. etrans; [exact B|]. etrans; [exact R|]. split; [|done].
  cbn [dev fst]. intros D. by destruct (0 <? n).
Qed.

(** The ISO is written back as the queue left it, which is as it was. *)
Lemma run_iso_image s notified image : (run_queue h translate s Iso notified image false true).1.2 = image.
Proof.
  unfold run_queue. set (v := fn_of (dev s) Iso). set (w := VirtioBlk.mkWorld _ _ _ _ _). set (e := env_for _ _ _).
  pose proof (VirtioBlk.queue_unwritten translate e (λ _, True) (VirtioBlk.Build_reads_keep e (λ _, True) (λ _ _ _ _, I) (λ _ _ _ _, I))
    w (p_queue_size v) (p_last_avail v) (p_used_idx v) (p_queue_desc v) (p_queue_driver v) (p_queue_device v)) as [U _].
  destruct (VirtioBlk.process_blk_queue _ _ _ _ _ _ _ _ _ _) as [[w' r] avail]. exact U.
Qed.

Lemma count_sound s n : sound s (if 0 <? n then with_dev s (with_iso_read (dev s) (ISO_READ (dev s) ⊞ n)) else s).
Proof. by destruct (0 <? n). Qed.

Lemma drain_iso_sound s : sound s (drain_iso h translate s).
Proof.
  unfold drain_iso. pose proof (begin_sound s Iso) as B. destruct (begin_drain s Iso) as [s1 nt]. cbn [fst] in B.
  destruct (negb _); [etrans; [exact B|apply notify_sound]|]. destruct (VirtioBlk.present_as_cd _).
  - pose proof (run_queue_sound s1 Iso nt [] false true) as R. destruct (run_queue _ _ _ _ _ _ _ _) as [[s2 image] n].
    etrans; [exact B|]. etrans; [exact R|]. apply count_sound.
  - destruct (_ || _); [etrans; [exact B|apply notify_sound]|].
    pose proof (run_queue_sound s1 Iso nt (iso_image s1) false true) as R. pose proof (run_iso_image s1 nt (iso_image s1)) as Im.
    destruct (run_queue _ _ _ _ _ _ _ _) as [[s2 image] n]. cbn [fst snd] in *. subst image.
    etrans; [exact B|]. etrans; [|apply count_sound]. destruct R as [R1 R2]. split; [exact R1|done].
Qed.

Lemma drain_spare_sound s : sound s (drain_spare h translate s).
Proof.
  unfold drain_spare. pose proof (begin_sound s Spare) as B. destruct (begin_drain s Spare) as [s1 nt]. cbn [fst] in B.
  destruct (_ || _); [etrans; [exact B|apply notify_sound]|]. pose proof (run_queue_sound s1 Spare nt [0] true true) as R.
  destruct (run_queue _ _ _ _ _ _ _ _) as [[s2 image] n]. etrans; [exact B|exact R].
Qed.

Lemma drain_queue_sound armed send s net : sound s (drain_queue h translate armed send s net).1.1.1.
Proof.
  unfold drain_queue. pose proof (drain_disk_sound s) as D. destruct (drain_disk h translate s) as [s1 n]. cbn [fst] in D.
  pose proof (drain_spare_sound (drain_iso h translate s1)) as S. destruct (VirtioNet.drain _ _ _ _ _) as [[m net'] fs].
  etrans; [exact D|]. etrans; [apply drain_iso_sound|]. etrans; [exact S|]. by split.
Qed.

End Draining.

Lemma apply_sound {X} (c : Ctx X) o m : sound m.1 (apply c o m).1.
Proof.
  destruct m as [s net]. split.
  - intros D. destruct o; cbn [apply].
    + intros which. cbn. destruct which; apply empty_ok.
    + apply present_ok.
    + apply present_ok.
    + unfold attach_disk_inner. by destruct (_ || _).
    + unfold attach_lun. destruct (_ || _); [done|]. by destruct (negb _).
    + done.
    + done.
    + by apply pci_read_ok.
    + by apply pci_write_ok.
    + unfold mmio_read_at. destruct (VirtioNet.covers _ _ _); [by destruct (VirtioNet.mmio_read _ _ _ _ _ _) as [[i n] v]|].
      destruct (mmio_bar_base_for_gpa _ _ _) as [bar|]; [|done]. pose proof (read_dev_ok (c_host c) (dev s) (irq s) (which_fn (dev s) gpa)) as R.
      specialize (R ((gpa ⊟ bar) mod 65536) size D). by destruct (mmio_read_dev _ _ _ _ _ _) as [[d i] v].
    + unfold mmio_write_at. destruct (VirtioNet.covers _ _ _); [done|]. destruct (mmio_bar_base_for_gpa _ _ _) as [bar|]; [|done].
      apply with_fn_ok; [done|]. by apply write_locked_ok.
    + intros []; (apply set_isr_ok; [apply (D Disk) || apply (D Iso) || apply (D Spare)|by right]).
    + pose proof (drain_queue_sound (c_host c) (c_translate c) (c_armed c) (c_send c) s net) as [S _].
      destruct (drain_queue _ _ _ _ _ _) as [[[s' n] fs] k]. by apply S.
  - destruct o; try done; cbn [apply].
    + unfold attach_disk_inner. by destruct (_ || _).
    + unfold mmio_read_at. destruct (VirtioNet.covers _ _ _); [by destruct (VirtioNet.mmio_read _ _ _ _ _ _) as [[i n] v]|].
      destruct (mmio_bar_base_for_gpa _ _ _) as [bar|]; [|done]. by destruct (mmio_read_dev _ _ _ _ _ _) as [[d i] v].
    + unfold mmio_write_at. destruct (VirtioNet.covers _ _ _); [done|]. by destruct (mmio_bar_base_for_gpa _ _ _).
    + pose proof (drain_queue_sound (c_host c) (c_translate c) (c_armed c) (c_send c) s net) as [_ S].
      by destruct (drain_queue _ _ _ _ _ _) as [[[s' n] fs] k].
Qed.

(** C33: The disks stay well-formed, and the ISO intact, whatever the guest does. From
    reset, over any sequence of presenting, attaching, configuration accesses, register
    accesses of any address, size and value, interrupt pulses and drains (with any
    backings, translation and network card at each step): every register of the three
    functions stays in its width, the queue size between 1 and 128, the indices in 16
    bits; the install disk is writable and a served ISO or spare is read-only; and the
    ISO image is what it was. *)
Theorem disks_stay_sound {X} (steps : list (Ctx X * op)) (s : Sys X) (net : VirtioNet.Dev) (d : Dev) :
  let s' := (run steps (with_dev s (reset d), net)).1 in
  dev_ok (dev s') ∧ iso_image s' = iso_image s.
Proof.
  assert (∀ m, sound m.1 (run steps m).1) as R.
  { induction steps as [|[c o] steps IH]; intros m; [done|]. cbn [run foldl fst snd]. etrans; [apply apply_sound|apply IH]. }
  destruct (R (with_dev s (reset d), net)) as [R1 R2]. split; [|exact R2]. apply R1. intros []; apply empty_ok.
Qed.

(** ** The shared interrupt line *)

(** Line 11 is requested at the slave 8259. *)
Definition line (i : IrqChip.Irq) : bool := Z.testbit (IrqChip.irr (IrqChip.slave (IrqChip.chip i))) 3.

Lemma raise_gsi_live live i g : IrqChip.product_live live (IrqChip.raise_gsi live i g) = IrqChip.product_live live i.
Proof. unfold IrqChip.raise_gsi. by destruct (negb _). Qed.

Lemma raise_line live i : IrqChip.product_live live i = true → line (IrqChip.raise_gsi live i IrqChip.VIRTIO_PIC_IRQ) = true.
Proof.
  intros L. unfold line, IrqChip.raise_gsi. rewrite L. cbn -[Z.lor Z.testbit IrqChip.bit]. rewrite Z.lor_spec. by rewrite orb_comm.
Qed.

Lemma raise_fn_line live i : IrqChip.product_live live i = true →
  line (IrqChip.raise_virtio live i) = true ∧ line (IrqChip.raise_virtio_iso live i) = true ∧
  IrqChip.product_live live (IrqChip.raise_virtio live i) = true.
Proof. intros L. unfold IrqChip.raise_virtio, IrqChip.raise_virtio_iso. rewrite !raise_gsi_live, L. split_and!; [apply raise_line; by rewrite raise_gsi_live..|done]. Qed.

Lemma lower_line i : line (IrqChip.lower_gsi i IrqChip.VIRTIO_PIC_IRQ) = false.
Proof.
  unfold line, IrqChip.lower_gsi, IrqChip.lower_pic_locked, IrqChip.drop_cascade. 
  cbn -[Z.ldiff Z.testbit IrqChip.bit]. destruct (_ =? 0); cbn -[Z.ldiff Z.testbit IrqChip.bit]; rewrite Z.ldiff_spec; by rewrite andb_comm.
Qed.

(** The input of an IOAPIC pin. *)
Definition pin (i : IrqChip.Irq) (g : Z) : bool := Z.testbit (IrqChip.io_irr (IrqChip.ioapic (IrqChip.chip i))) g.

(** Raising and lowering line 11 does not touch the pin of another interrupt. *)
Lemma raise_gsi_pin live i g p : 0 ≤ g → p ≠ g → 0 ≤ p → pin (IrqChip.raise_gsi live i g) p = pin i p.
Proof.
  intros G N P. unfold pin, IrqChip.raise_gsi. destruct (negb _); [done|]. unfold IrqChip.raise_pic_locked, IrqChip.unmask_pic_locked.
  destruct (g <? IrqChip.IOAPIC_PINS), (g <? 16), (g <? 8), (IrqChip.pic_level_intx g);
    cbn -[Z.lor Z.testbit IrqChip.bit]; rewrite ?Z.lor_spec; try done; unfold IrqChip.bit; rewrite one_bit by done;
    by rewrite (proj2 (Z.eqb_neq p g) N), orb_false_r.
Qed.

Lemma lower_pic_ioapic c g : IrqChip.ioapic (IrqChip.lower_pic_locked c g) = IrqChip.ioapic c.
Proof. unfold IrqChip.lower_pic_locked, IrqChip.drop_cascade. destruct (g <? 8); [done|]. by destruct (_ =? 0). Qed.

Lemma lower_gsi_pin i g p : 0 ≤ g → p ≠ g → 0 ≤ p → pin (IrqChip.lower_gsi i g) p = pin i p.
Proof.
  intros G N P. unfold pin, IrqChip.lower_gsi. cbn [IrqChip.on_chip IrqChip.chip]. set (c := if _ <? IrqChip.IOAPIC_PINS then _ else _).
  assert (IrqChip.ioapic (if g <? 16 then IrqChip.lower_pic_locked c g else c) = IrqChip.ioapic c) as -> by (destruct (g <? 16); [apply lower_pic_ioapic|done]).
  unfold c. destruct (_ <? _); [|done]. cbn -[Z.ldiff Z.testbit IrqChip.bit]. rewrite Z.ldiff_spec. unfold IrqChip.bit. rewrite one_bit by done.
  by rewrite (proj2 (Z.eqb_neq p g) N), andb_true_r.
Qed.

(** The device after its interrupt status was read. *)
Lemma read_isr {X} (h : Host X) s i which size : p_queues_armed (fn_of s which) = true → fn_ok which (fn_of s which) →
  let s' := with_fn s which (set_isr (fn_of s which) 0) in
  mmio_read_dev h s i which OFF_ISR size =
    (s', if virtio_isr_latched s' then reassert_virtio_shared_intx (product_iso_window_armed h) s' i
         else match which with Iso => IrqChip.lower_virtio_iso i | _ => IrqChip.lower_virtio i end, p_isr (fn_of s which)).
Proof.
  intros A [[_ _ _ Hi _ _ _ _ _ _ _ _ _] _] s'. unfold mmio_read_dev, mmio_read_locked. rewrite A. cbn [negb].
  change (OFF_ISR <? 0x38) with false. rewrite Z.eqb_refl. cbv iota. fold s'. f_equal.
  destruct Hi as [-> | ->]; repeat (destruct (_ =? _); [done|]); done.
Qed.

Lemma reassert_line live s i : IrqChip.product_live live i = true → virtio_isr_latched s = true → line (reassert_virtio_shared_intx live s i) = true.
Proof.
  intros L V. unfold virtio_isr_latched, reassert_virtio_shared_intx in *.
  destruct (raise_fn_line live i L) as (R1 & R2 & R3). destruct (raise_fn_line live (IrqChip.raise_virtio live i) R3) as (_ & R4 & _).
  destruct (p_isr (disk s) =? 0), (p_isr (iso s) =? 0), (p_isr (spare s) =? 0); cbn in *; done.
Qed.

(** The three disks share their interrupt line as a level line must be shared.
    When the guest reads the interrupt status of one of them, it gets that status and
    clears it, the other two keep theirs, and line 11 of the 8259 pair is requested
    afterwards exactly when one of the three still has an interrupt pending. *)
Theorem shared_line {X} (h : Host X) (s : Dev) (i : IrqChip.Irq) (which : VirtioFn) (size : Z) :
  dev_ok s → p_queues_armed (fn_of s which) = true → IrqChip.product_live (product_iso_window_armed h) i = true →
  let '(s', i', val) := mmio_read_dev h s i which OFF_ISR size in
  val = p_isr (fn_of s which) ∧ p_isr (fn_of s' which) = 0 ∧ (∀ w, w ≠ which → fn_of s' w = fn_of s w) ∧
  line i' = negb (p_isr (disk s') =? 0) || negb (p_isr (iso s') =? 0) || negb (p_isr (spare s') =? 0).
Proof.
  intros D A L. rewrite read_isr by (done || apply D). set (s' := with_fn s which _).
  split_and!; [done|by destruct which|intros w W; by destruct which, w|].
  destruct (virtio_isr_latched s') eqn:V; [rewrite reassert_line by done|]; symmetry; fold (virtio_isr_latched s'); rewrite V; [done|].
  destruct which; symmetry; apply lower_line.
Qed.

(** The network card is left out of the shared line. The card's interrupt is raised
    on the same line 11, but an interrupt status read of the card lowers the line while
    a disk's interrupt is pending, and one of the install disk lowers it while the
    card's is: in both cases the pending interrupt is no longer requested. *)
Theorem net_left_out {X} (h : Host X) (mac : option (list Z)) (carrier : bool) (net : VirtioNet.Dev) (s : Dev) (i : IrqChip.Irq) (gpa gpa' size : Z) :
  dev_ok s → VirtioNet.covers true net gpa = true → VirtioNet.mmio_off net gpa = OFF_ISR → VirtioNet.isr (VirtioNet.net net) ≠ 0 →
  VirtioNet.covers true net gpa' = false → p_queues_armed (disk s) = true → which_fn s gpa' = Disk →
  mmio_bar_base_for_gpa (true, net) s gpa' = Some (gpa' ⊟ OFF_ISR) → u64 gpa' → p_isr (iso s) = 0 → p_isr (spare s) = 0 →
  (let '(net', s', i', _) := mmio_read_at h mac carrier (true, net) s i gpa size in s' = s ∧ line i' = false) ∧
  (let '(net', s', i', _) := mmio_read_at h mac carrier (true, net) s i gpa' size in net' = net ∧ line i' = false).
Proof.
  intros D C1 O1 N C2 A W Bar U I1 I2. unfold mmio_read_at. cbn [fst snd]. rewrite C1, C2, Bar, W. split.
  - unfold VirtioNet.mmio_read. rewrite O1. change (OFF_ISR <? 0x38) with false. change (OFF_ISR =? 0x100) with true. cbv iota.
    rewrite (proj2 (Z.eqb_neq _ 0) N). cbn [negb]. split; [done|]. apply lower_line.
  - replace ((gpa' ⊟ (gpa' ⊟ OFF_ISR)) mod 65536) with OFF_ISR.
    2: { unfold sub64, wrap64. rewrite Zminus_mod_idemp_r. replace (gpa' - (gpa' - OFF_ISR)) with OFF_ISR by lia. done. }
    rewrite read_isr by (done || apply (D Disk)). set (s' := with_fn s Disk _).
    assert (virtio_isr_latched s' = false) as -> by (unfold virtio_isr_latched; cbn; by rewrite I1, I2).
    split; [done|]. apply lower_line.
Qed.

(** A pending ISO interrupt acknowledged before the disk's leaves its IOAPIC pin
    requested for good. The ISO has its own pin, 18, which only its own status read
    lowers, and only when no disk is pending: when the guest acknowledges the ISO first
    and the install disk next, no function is pending any more and line 11 is down, but
    pin 18 is still up. *)
Theorem iso_pin_stuck {X} (h : Host X) (s : Dev) (i : IrqChip.Irq) (size : Z) :
  dev_ok s → p_queues_armed (disk s) = true → p_queues_armed (iso s) = true →
  p_isr (disk s) ≠ 0 → p_isr (spare s) = 0 → pin i IrqChip.VIRTIO_ISO_GSI = true →
  let '(s1, i1, _) := mmio_read_dev h s i Iso OFF_ISR size in
  let '(s2, i2, _) := mmio_read_dev h s1 i1 Disk OFF_ISR size in
  virtio_isr_latched s2 = false ∧ line i2 = false ∧ pin i2 IrqChip.VIRTIO_ISO_GSI = true.
Proof.
  intros D A1 A2 Nd Sp P. rewrite read_isr by (done || apply (D Iso)). set (s1 := with_fn s Iso _).
  assert (virtio_isr_latched s1 = true) as -> by (unfold virtio_isr_latched; cbn; by rewrite (proj2 (Z.eqb_neq _ 0) Nd)).
  set (i1 := reassert_virtio_shared_intx _ _ _).
  assert (pin i1 IrqChip.VIRTIO_ISO_GSI = true) as P1.
  { unfold i1, reassert_virtio_shared_intx. cbn -[IrqChip.raise_virtio IrqChip.raise_virtio_iso pin IrqChip.VIRTIO_ISO_GSI Z.eqb].
    rewrite (proj2 (Z.eqb_neq _ 0) Nd). cbn [negb orb Z.eqb]. unfold IrqChip.raise_virtio. by rewrite !raise_gsi_pin. }
  rewrite read_isr; [|done|apply (D Disk)]. set (s2 := with_fn s1 Disk _).
  assert (virtio_isr_latched s2 = false) as -> by (unfold virtio_isr_latched; cbn; by rewrite Sp).
  split_and!; [done|apply lower_line|]. unfold IrqChip.lower_virtio. by rewrite !lower_gsi_pin.
Qed.

(** ** Register stores and loads *)

Lemma testbit_set_byte x k b j : 0 ≤ k → 0 ≤ j → below 8 b →
  Z.testbit (VirtioNet.set_byte x k b) j = if (8 * k <=? j) && (j <? 8 * k + 8) then Z.testbit b (j - 8 * k) else Z.testbit x j.
Proof.
  intros K J B. unfold VirtioNet.set_byte. rewrite Z.lor_spec, Z.ldiff_spec, !Z.shiftl_spec by done.
  destruct (Z.leb_spec (8 * k) j) as [L|L]; cbn [andb].
  - destruct (Z.ltb_spec j (8 * k + 8)) as [H|H].
    + change 0xFF with (Z.ones 8). rewrite (proj2 (Z.ones_spec_iff 8 (j - 8 * k) ltac:(lia))) by lia. by rewrite andb_false_r.
    + change 0xFF with (Z.ones 8). rewrite Z.ones_spec_high, (below_high 8 b) by (done || lia). by rewrite andb_true_r, orb_false_r.
  - rewrite !(Z.testbit_neg_r _ (j - 8 * k)) by lia. by rewrite andb_true_r, orb_false_r.
Qed.

Lemma testbit_get_byte x k j : 0 ≤ k → 0 ≤ j → Z.testbit (VirtioNet.get_byte x k) j = (j <? 8) && Z.testbit x (j + 8 * k).
Proof.
  intros K J. unfold VirtioNet.get_byte. rewrite Z.land_spec, Z.shiftr_spec by lia. change 0xFF with (Z.ones 8). rewrite andb_comm. f_equal.
  destruct (Z.ltb_spec j 8); [apply Z.ones_spec_low; lia|apply Z.ones_spec_high; lia].
Qed.

(** [n] bytes of [val] stored over [x]. *)
Definition put_bytes (n : nat) (x val : Z) : Z := foldl (λ x i, VirtioNet.set_byte x i (VirtioNet.get_byte val i)) x (seqZ 0 (Z.of_nat n)).

Lemma testbit_put_bytes n x val j : 0 ≤ j → Z.testbit (put_bytes n x val) j = if j <? 8 * Z.of_nat n then Z.testbit val j else Z.testbit x j.
Proof.
  intros J. unfold put_bytes. induction n as [|n IH]; [by rewrite (proj2 (Z.ltb_ge j (8 * Z.of_nat 0))) by lia|].
  rewrite stdpp.list_numbers.list.seqZ_S, foldl_app. cbn [foldl]. rewrite testbit_set_byte by (lia || apply get_byte_below).
  rewrite IH. destruct (Z.leb_spec (8 * (0 + Z.of_nat n)) j), (Z.ltb_spec j (8 * (0 + Z.of_nat n) + 8)); cbn [andb];
    destruct (Z.ltb_spec j (8 * Z.of_nat n)), (Z.ltb_spec j (8 * Z.of_nat (S n))); try lia; try done.
  rewrite testbit_get_byte by lia. rewrite (proj2 (Z.ltb_lt _ 8)) by lia. cbn [andb]. f_equal. lia.
Qed.

(** [n] bytes of [x] loaded. *)
Definition get_bytes (n : nat) (x : Z) : Z := foldl (λ val i, Z.lor val (Z.shiftl (VirtioNet.get_byte x i) (8 * i))) 0 (seqZ 0 (Z.of_nat n)).

Lemma testbit_get_bytes n x j : 0 ≤ j → Z.testbit (get_bytes n x) j = (j <? 8 * Z.of_nat n) && Z.testbit x j.
Proof.
  intros J. unfold get_bytes. induction n as [|n IH]; [rewrite (proj2 (Z.ltb_ge j (8 * Z.of_nat 0))) by lia; apply Z.bits_0|].
  rewrite stdpp.list_numbers.list.seqZ_S, foldl_app. cbn [foldl]. rewrite Z.lor_spec, Z.shiftl_spec, IH by done.
  destruct (Z.lt_ge_cases j (8 * Z.of_nat n)) as [L|L].
  - rewrite (Z.testbit_neg_r _ (j - _)), orb_false_r by lia. by rewrite !(proj2 (Z.ltb_lt j _)) by lia.
  - rewrite (proj2 (Z.ltb_ge j (8 * Z.of_nat n))) by lia. cbn [andb orb]. rewrite testbit_get_byte by lia.
    replace (j - 8 * (0 + Z.of_nat n) + 8 * (0 + Z.of_nat n)) with j by lia. f_equal.
    destruct (Z.ltb_spec (j - 8 * (0 + Z.of_nat n)) 8), (Z.ltb_spec j (8 * Z.of_nat (S n))); try done; lia.
Qed.

Lemma bytes_8 x val : below 64 x → below 64 val → put_bytes 8 x val = val ∧ get_bytes 8 val = val.
Proof.
  intros X V. split; apply Z.bits_inj'; intros j J; rewrite ?testbit_put_bytes, ?testbit_get_bytes by done; change (8 * Z.of_nat 8) with 64;
    (destruct (Z.ltb_spec j 64); [done|]); by rewrite ?(below_high 64 x), (below_high 64 val) by done.
Qed.

(** One of the three address registers. *)
Section Address.
Context (base : Z) (set : VirtioPci → Z → VirtioPci) (get : VirtioPci → Z).

Record address : Prop := {
  ad_base : 0 ≤ base ∧ base + 8 ≤ 0x38;
  ad_write : ∀ v k b, 0 ≤ k < 8 → common_cfg_write_byte v (base + k) b = set v (VirtioNet.set_byte (get v) k b);
  ad_read : ∀ v k, 0 ≤ k < 8 → common_cfg_byte v (base + k) = VirtioNet.get_byte (get v) k;
  ad_get : ∀ v x, get (set v x) = x;
  ad_set : ∀ v x y, set (set v x) y = set v y;
  ad_same : ∀ v, set v (get v) = v;
  ad_armed : ∀ v x, p_queues_armed (set v x) = p_queues_armed v;
}.

Context (Ad : address).

Lemma store_bytes b d l : 0 ≤ d → Forall (λ i, 0 ≤ i ∧ d + i < 8) l → ∀ v,
  foldl (λ v i, common_cfg_write_byte v ((base + d + i) mod 65536) (VirtioNet.get_byte b i)) v l =
  set v (foldl (λ x i, VirtioNet.set_byte x (d + i) (VirtioNet.get_byte b i)) (get v) l).
Proof.
  intros D. pose proof (ad_base Ad) as [B1 B2]. induction l as [|i l IH]; intros F v; [symmetry; apply (ad_same Ad)|].
  apply Forall_cons in F as [[F1 F2] F]. cbn [foldl]. rewrite Z.mod_small, <-Z.add_assoc by lia. rewrite (ad_write Ad), IH by (done || lia).
  by rewrite (ad_set Ad), (ad_get Ad).
Qed.

Lemma store_8 v a : p_queues_armed v = true → mmio_write_locked v base 8 a = set v (put_bytes 8 (get v) a).
Proof.
  intros Ar. pose proof (ad_base Ad) as [B1 B2]. unfold mmio_write_locked. rewrite Ar, (proj2 (Z.ltb_lt base 0x38)) by lia. cbn [negb].
  change (seqZ 0 (VirtioNet.access_bytes 8)) with [0; 1; 2; 3; 4; 5; 6; 7].
  pose proof (store_bytes a 0 [0; 1; 2; 3; 4; 5; 6; 7] ltac:(lia) ltac:(by repeat constructor) v) as E.
  rewrite Z.add_0_r in E. unfold put_bytes. change (seqZ 0 (Z.of_nat 8)) with [0; 1; 2; 3; 4; 5; 6; 7]. exact E.
Qed.

Lemma store_4_4 v a : p_queues_armed v = true →
  mmio_write_locked (mmio_write_locked v base 4 a) (base + 4) 4 (Z.shiftr a 32) = set v (put_bytes 8 (get v) a).
Proof.
  intros Ar. pose proof (ad_base Ad) as [B1 B2].
  assert (mmio_write_locked v base 4 a = set v (put_bytes 4 (get v) a)) as ->.
  { unfold mmio_write_locked. rewrite Ar, (proj2 (Z.ltb_lt base 0x38)) by lia. cbn [negb].
    pose proof (store_bytes a 0 [0; 1; 2; 3] ltac:(lia) ltac:(by repeat constructor) v) as E.
    rewrite Z.add_0_r in E. unfold put_bytes. change (seqZ 0 (Z.of_nat 4)) with [0; 1; 2; 3].
    change (seqZ 0 (VirtioNet.access_bytes 4)) with [0; 1; 2; 3]. exact E. }
  unfold mmio_write_locked. rewrite (ad_armed Ad), Ar, (proj2 (Z.ltb_lt (base + 4) 0x38)) by lia. cbn [negb].
  change (seqZ 0 (VirtioNet.access_bytes 4)) with [0; 1; 2; 3].
  rewrite (store_bytes (Z.shiftr a 32) 4 [0; 1; 2; 3] ltac:(lia) ltac:(by repeat constructor)). rewrite (ad_set Ad), (ad_get Ad). refine (f_equal (set v) _).
  assert (∀ i, 0 ≤ i → VirtioNet.get_byte (Z.shiftr a 32) i = VirtioNet.get_byte a (4 + i)) as E.
  { intros i I. unfold VirtioNet.get_byte. rewrite Z.shiftr_shiftr by lia. do 2 f_equal. lia. }
  unfold put_bytes. change (seqZ 0 (Z.of_nat 8)) with ([0; 1; 2; 3] ++ [4; 5; 6; 7]). rewrite foldl_app. change (seqZ 0 (Z.of_nat 4)) with [0; 1; 2; 3].
  generalize (foldl (λ x i, VirtioNet.set_byte x i (VirtioNet.get_byte a i)) (get v) [0; 1; 2; 3]). intros y. cbn [foldl].
  by rewrite !E by lia.
Qed.

Lemma load_8 v : common_cfg_read v base 8 = get_bytes 8 (get v).
Proof.
  pose proof (ad_base Ad) as [B1 B2]. unfold common_cfg_read, get_bytes. apply foldl_seqZ_ext. intros a i I.
  change (VirtioNet.access_bytes 8) with 8 in I. rewrite Z.mod_small by lia. by rewrite (ad_read Ad) by lia.
Qed.

End Address.

Ltac address := split; [done| |  |done|done|by intros []|done]; intros v k; intros; 
  (assert (k = 0 ∨ k = 1 ∨ k = 2 ∨ k = 3 ∨ k = 4 ∨ k = 5 ∨ k = 6 ∨ k = 7) as K by lia; repeat destruct K as [-> | K]; subst; done).

Lemma desc_address : address 0x20 set_queue_desc p_queue_desc.
Proof. address. Qed.

Lemma driver_address : address 0x28 set_queue_driver p_queue_driver.
Proof. address. Qed.

Lemma device_address : address 0x30 set_queue_device p_queue_device.
Proof. address. Qed.

(** A queue address stored in one access of eight bytes, or in two of four bytes with the
    low half first, is the address the queue then uses; reading it back gives it, and
    no other register changes. *)
Theorem queue_address_roundtrip base set get (v : VirtioPci) (a : Z) :
  In (base, set, get) [(0x20, set_queue_desc, p_queue_desc); (0x28, set_queue_driver, p_queue_driver); (0x30, set_queue_device, p_queue_device)] →
  p_queues_armed v = true → regs_ok v → below 64 a →
  mmio_write_locked v base 8 a = set v a ∧
  mmio_write_locked (mmio_write_locked v base 4 a) (base + 4) 4 (Z.shiftr a 32) = set v a ∧
  common_cfg_read (set v a) base 8 = a.
Proof.
  intros I Ar R A. assert (address base set get ∧ below 64 (get v)) as [Ad B].
  { destruct R. destruct I as [[= <- <- <-]|[[= <- <- <-]|[[= <- <- <-]|[]]]]; split; try done;
      [apply desc_address|apply driver_address|apply device_address]. }
  destruct (bytes_8 (get v) a B A) as [P G]. rewrite (store_8 _ _ _ Ad), (store_4_4 _ _ _ Ad), (load_8 _ _ _ Ad), (ad_get _ _ _ Ad), P by done. done.
Qed.

(** ** Concrete devices *)

Definition demo_host : Host unit := mkHost true (Some (0x50000000, 4096)) 0 0 false VirtioBlk.demo_env.

(** The ISO window is armed; install disk and ISO have an interrupt pending. *)
Definition demo_dev : Dev :=
  let s := (present demo_host (reset (mkDev 0 pci_empty pci_empty pci_empty false false false false 0 0 false false 0 0 0 0 false false true))).1 in
  with_fn (with_fn s Disk (set_isr (disk s) 1)) Iso (set_isr (iso s) 1).

Definition demo_irq : IrqChip.Irq := IrqChip.raise_virtio_iso true (IrqChip.raise_virtio true IrqChip.boot).

Lemma demo_dev_ok : dev_ok demo_dev.
Proof.
  unfold demo_dev. set (s := (present _ _).1). assert (dev_ok s) as D by apply present_ok.
  apply with_fn_ok; [apply with_fn_ok; [done|]|]; (apply set_isr_ok; [|by right]); [apply (D Disk)|apply (D Iso)].
Qed.

Lemma shared_line_witness : let '(s', i', val) := mmio_read_dev demo_host demo_dev demo_irq Iso OFF_ISR 1 in
  val = 1 ∧ line i' = true ∧ p_isr (disk s') = 1.
Proof.
  pose proof (shared_line demo_host demo_dev demo_irq Iso 1 demo_dev_ok eq_refl eq_refl) as H.
  destruct (mmio_read_dev demo_host demo_dev demo_irq Iso OFF_ISR 1) as [[s' i'] val]. destruct H as (-> & H1 & H2 & H3).
  pose proof (H2 Disk ltac:(done)) as Hd. cbn [fn_of] in Hd. rewrite H3, Hd. done.
Defined.

(** The card with a pending interrupt as well. *)
Definition demo_net : VirtioNet.Dev := VirtioNet.with_net VirtioNet.dev_boot (VirtioNet.with_isr VirtioNet.NET 1).

Lemma net_left_out_witness :
  let '(_, s', i', _) := mmio_read_at demo_host None true (true, demo_net) (with_fn demo_dev Iso (set_isr (iso demo_dev) 0)) demo_irq 0xFE003100 1 in
  line i' = false ∧ virtio_isr_latched s' = true.
Proof.
  pose (s := with_fn demo_dev Iso (set_isr (iso demo_dev) 0)).
  assert (dev_ok s) as D by (apply with_fn_ok; [apply demo_dev_ok|]; apply set_isr_ok; [apply (demo_dev_ok Iso)|by left]).
  pose proof (net_left_out demo_host None true demo_net s demo_irq 0xFE003100 0xFE000100 1 D eq_refl eq_refl ltac:(done) eq_refl eq_refl eq_refl
    eq_refl ltac:(split; by vm_compute) eq_refl eq_refl) as [H _]. fold s.
  destruct (mmio_read_at _ _ _ _ _ _ _ _) as [[[n' s'] i'] val]. destruct H as [-> ->]. done.
Defined.

Lemma iso_pin_stuck_witness :
  let '(s1, i1, _) := mmio_read_dev demo_host demo_dev demo_irq Iso OFF_ISR 1 in
  let '(s2, i2, _) := mmio_read_dev demo_host s1 i1 Disk OFF_ISR 1 in
  virtio_isr_latched s2 = false ∧ line i2 = false ∧ pin i2 IrqChip.VIRTIO_ISO_GSI = true.
Proof. apply (iso_pin_stuck demo_host demo_dev demo_irq 1 demo_dev_ok); by vm_compute. Defined.

Lemma queue_address_roundtrip_witness : mmio_write_locked (disk demo_dev) 0x28 8 0x123456789 = set_queue_driver (disk demo_dev) 0x123456789.
Proof.
  exact (proj1 (queue_address_roundtrip 0x28 set_queue_driver p_queue_driver (disk demo_dev) 0x123456789 ltac:(right; by left) eq_refl
    (proj1 (demo_dev_ok Disk)) ltac:(split; by vm_compute))).
Defined.

End VirtioDisk.
