(* ===== verification/MmioAlu.v ===== *)
(** * The arithmetic of emulated instructions

    When a guest instruction touches an emulated page the hypervisor carries it out
    itself. This file models the arithmetic of [devices/guest_virtio_blk.rs] (results
    and RFLAGS of the ALU, shift, bit, count, multiply and divide operations) and the
    part of [vmx/guest_uefi.rs] that applies a decoded operation to the general
    registers, RFLAGS and the value read from the page. Operand sizes are in bytes.
    The decoded operation is an argument; VMCS accesses succeed. *)

From S2P Require Import Prelude.

Module Alu.

(** ** Decoded operations *)

Record MmioInsn := mkInsn {
  is_write : bool;
  size : Z;
  reg : Z;
  has_imm : bool;
  imm : Z;
  zero_ext : bool;
  sign_ext : bool;
  xchg : bool;
  alu : Z;
  rex : bool;
  test : bool;
  cmp : bool;
  cmp_reg_left : bool;
  alu_reg_left : bool;
  bt : Z;
  atomic : Z;
  cc : Z;
}.

Definition MMIO_CMPXCHG : Z := 1.
Definition MMIO_XADD : Z := 2.
Definition MMIO_CMPXCHG8B : Z := 3.
Definition MMIO_BT : Z := 1.
Definition MMIO_BTS : Z := 2.
Definition MMIO_BTR : Z := 3.
Definition MMIO_BTC : Z := 4.
Definition MMIO_ALU_AND : Z := 1.
Definition MMIO_ALU_OR : Z := 2.
Definition MMIO_ALU_XOR : Z := 3.
Definition MMIO_ALU_ADD : Z := 4.
Definition MMIO_ALU_SUB : Z := 5.
Definition MMIO_ALU_NOT : Z := 6.
Definition MMIO_ALU_NEG : Z := 7.
Definition MMIO_ALU_ADC : Z := 8.
Definition MMIO_ALU_SBB : Z := 9.
Definition MMIO_ALU_ROL : Z := 10.
Definition MMIO_ALU_ROR : Z := 11.
Definition MMIO_ALU_RCL : Z := 12.
Definition MMIO_ALU_RCR : Z := 13.
Definition MMIO_ALU_SHL : Z := 14.
Definition MMIO_ALU_SHR : Z := 15.
Definition MMIO_ALU_SAR : Z := 16.
Definition MMIO_ALU_BSF : Z := 17.
Definition MMIO_ALU_BSR : Z := 18.
Definition MMIO_ALU_IMUL : Z := 20.
Definition MMIO_ALU_MUL : Z := 21.
Definition MMIO_ALU_IMUL1 : Z := 22.
Definition MMIO_ALU_DIV : Z := 23.
Definition MMIO_ALU_IDIV : Z := 24.
Definition MMIO_ALU_SHLD : Z := 25.
Definition MMIO_ALU_SHRD : Z := 26.
Definition MMIO_ALU_TZCNT : Z := 27.
Definition MMIO_ALU_LZCNT : Z := 28.
Definition MMIO_ALU_POPCNT : Z := 29.

Definition mmio_alu_is_shift (alu : Z) : bool := (MMIO_ALU_ROL <=? alu) && (alu <=? MMIO_ALU_SAR).
Definition mmio_alu_is_double_shift (alu : Z) : bool := (alu =? MMIO_ALU_SHLD) || (alu =? MMIO_ALU_SHRD).
Definition mmio_alu_is_scan (alu : Z) : bool := (alu =? MMIO_ALU_BSF) || (alu =? MMIO_ALU_BSR).
Definition mmio_alu_is_count_zero (alu : Z) : bool := (alu =? MMIO_ALU_TZCNT) || (alu =? MMIO_ALU_LZCNT).
Definition mmio_alu_is_popcnt (alu : Z) : bool := alu =? MMIO_ALU_POPCNT.
Definition mmio_alu_is_imul (alu : Z) : bool := alu =? MMIO_ALU_IMUL.
Definition mmio_alu_is_mul_pair (alu : Z) : bool := (alu =? MMIO_ALU_MUL) || (alu =? MMIO_ALU_IMUL1).
Definition mmio_alu_is_div_pair (alu : Z) : bool := (alu =? MMIO_ALU_DIV) || (alu =? MMIO_ALU_IDIV).

(** ** Integers of the language *)

(** [x as iN], and the value of a signed integer as an unsigned one. *)
Definition sint (w x : Z) : Z :=
  let x := x mod 2 ^ w in if x <? 2 ^ (w - 1) then x else x - 2 ^ w.

Definition shl64 (a n : Z) : Z := wrap64 (Z.shiftl a n).
Definition shl128 (a n : Z) : Z := Z.shiftl a n mod 2 ^ 128.

Fixpoint trailing_zeros_pos (p : positive) : Z :=
  match p with
  | xO p => 1 + trailing_zeros_pos p
  | _ => 0
  end.

Fixpoint count_ones_pos (p : positive) : Z :=
  match p with
  | xH => 1
  | xO p => count_ones_pos p
  | xI p => 1 + count_ones_pos p
  end.

(** [u64::trailing_zeros], [leading_zeros], [count_ones]. *)
Definition trailing_zeros (x : Z) : Z := match x with Zpos p => trailing_zeros_pos p | _ => 64 end.
Definition leading_zeros (x : Z) : Z := match x with Zpos p => 63 - Z.log2 (Zpos p) | _ => 64 end.
Definition count_ones (x : Z) : Z := match x with Zpos p => count_ones_pos p | _ => 0 end.

(** [b as u64] and setting or clearing a flag. *)
Definition put (f bit : Z) (b : bool) : Z := if b then Z.lor f bit else f.

(** ** Arithmetic and logic *)

Definition mmio_size_mask (size : Z) : Z :=
  if size =? 1 then 0xFF else if size =? 2 then 0xFFFF else if size =? 4 then 0xFFFFFFFF else U64_MAX.

Definition mmio_sign_bit (size : Z) : Z :=
  if size =? 1 then 0x80 else if size =? 2 then 0x8000 else if size =? 4 then 0x80000000 else Z.shiftl 1 63.

Definition mmio_alu_apply_cf (cur rhs alu : Z) (cf : bool) : Z :=
  let c := if cf then 1 else 0 in
  if alu =? MMIO_ALU_AND then Z.land cur rhs
  else if alu =? MMIO_ALU_OR then Z.lor cur rhs
  else if alu =? MMIO_ALU_XOR then Z.lxor cur rhs
  else if alu =? MMIO_ALU_ADD then cur ⊞ rhs
  else if alu =? MMIO_ALU_ADC then cur ⊞ rhs ⊞ c
  else if alu =? MMIO_ALU_SUB then cur ⊟ rhs
  else if alu =? MMIO_ALU_SBB then cur ⊟ rhs ⊟ c
  else if alu =? MMIO_ALU_NOT then bnot64 cur
  else if alu =? MMIO_ALU_NEG then 0 ⊟ cur
  else rhs.

Definition mmio_alu_apply (cur rhs alu : Z) : Z := mmio_alu_apply_cf cur rhs alu false.

Definition mmio_eq (a b size : Z) : bool :=
  let m := mmio_size_mask size in Z.land a m =? Z.land b m.

Definition mmio_cc_taken (cc flags : Z) : bool :=
  if (cc =? 0) || (16 <? cc) then false
  else
    let n := cc - 1 in
    let cf := negb (Z.land flags 1 =? 0) in
    let pf := negb (Z.land flags (Z.shiftl 1 2) =? 0) in
    let zf := negb (Z.land flags (Z.shiftl 1 6) =? 0) in
    let sf := negb (Z.land flags (Z.shiftl 1 7) =? 0) in
    let ovf := negb (Z.land flags (Z.shiftl 1 11) =? 0) in
    if n =? 0 then ovf
    else if n =? 1 then negb ovf
    else if n =? 2 then cf
    else if n =? 3 then negb cf
    else if n =? 4 then zf
    else if n =? 5 then negb zf
    else if n =? 6 then cf || zf
    else if n =? 7 then negb cf && negb zf
    else if n =? 8 then sf
    else if n =? 9 then negb sf
    else if n =? 10 then pf
    else if n =? 11 then negb pf
    else if n =? 12 then xorb sf ovf
    else if n =? 13 then eqb sf ovf
    else if n =? 14 then zf || xorb sf ovf
    else negb zf && eqb sf ovf.

(** The status flags, [CF | PF | AF | ZF | SF | OF]. *)
Definition STATUS : Z := 0x8D5.

Definition mmio_test_rflags (old result size : Z) : Z :=
  let r := Z.land result (mmio_size_mask size) in
  let f := Z.land (Z.lor old 2) (bnot64 STATUS) in
  let f := put f (Z.shiftl 1 6) (r =? 0) in
  let f := put f (Z.shiftl 1 7) (negb (Z.land r (mmio_sign_bit size) =? 0)) in
  put f (Z.shiftl 1 2) (count_ones (r mod 256) mod 2 =? 0).

Definition mmio_cmp_rflags (old left right size : Z) : Z :=
  let mask := mmio_size_mask size in
  let a := Z.land left mask in
  let b := Z.land right mask in
  let r := Z.land (a ⊟ b) mask in
  let f := mmio_test_rflags old r size in
  let f := put f 1 (a <? b) in
  let s := mmio_sign_bit size in
  let sa := negb (Z.land a s =? 0) in
  let sb := negb (Z.land b s =? 0) in
  let sr := negb (Z.land r s =? 0) in
  put f (Z.shiftl 1 11) (xorb sa sb && xorb sr sa).

Definition mmio_add_rflags (old left right size : Z) : Z :=
  let mask := mmio_size_mask size in
  let a := Z.land left mask in
  let b := Z.land right mask in
  let r := Z.land (a ⊞ b) mask in
  let f := mmio_test_rflags old r size in
  let carry := if size =? 8 then W64 <=? a + b else mask <? a ⊞ b in
  let f := put f 1 carry in
  let s := mmio_sign_bit size in
  let sa := negb (Z.land a s =? 0) in
  let sb := negb (Z.land b s =? 0) in
  let sr := negb (Z.land r s =? 0) in
  put f (Z.shiftl 1 11) (eqb sa sb && xorb sr sa).

Definition mmio_as_signed (v size : Z) : Z :=
  if size =? 1 then sint 8 v else if size =? 2 then sint 16 v else if size =? 4 then sint 32 v else sint 64 v.

Definition mmio_adc_rflags (old left right size : Z) : Z :=
  let mask := mmio_size_mask size in
  let a := Z.land left mask in
  let b := Z.land right mask in
  let c := Z.land old 1 in
  let sum := a + b + c in
  let r := Z.land (wrap64 sum) mask in
  let f := mmio_test_rflags old r size in
  let f := put f 1 (mask <? sum) in
  put f (Z.shiftl 1 11) (negb (mmio_as_signed a size + mmio_as_signed b size + c =? mmio_as_signed r size)).

Definition mmio_sbb_rflags (old left right size : Z) : Z :=
  let mask := mmio_size_mask size in
  let a := Z.land left mask in
  let b := Z.land right mask in
  let c := Z.land old 1 in
  let r := Z.land (a ⊟ b ⊟ c) mask in
  let f := mmio_test_rflags old r size in
  let f := put f 1 (a <? b + c) in
  put f (Z.shiftl 1 11) (negb (mmio_as_signed a size - mmio_as_signed b size - c =? mmio_as_signed r size)).

(** ** Shifts and rotates *)

Definition mmio_bit_width (size : Z) : Z :=
  if size =? 1 then 8 else if size =? 2 then 16 else if size =? 4 then 32 else 64.

Definition mmio_shift_amt (count size : Z) : Z :=
  let m := if size =? 8 then 0x3F else 0x1F in Z.land (count mod 2 ^ 32) m.

(** The rotate through carry: carry and operand as one register of [m] bits. *)
Definition with_carry (a w : Z) (cf : bool) : Z := Z.lor a (shl128 (if cf then 1 else 0) w).
Definition rot_left (val k m : Z) : Z := Z.lor (shl128 val k) (Z.shiftr val (m - k)).
Definition rot_right (val k m : Z) : Z := Z.lor (Z.shiftr val k) (shl128 val (m - k)).

Definition mmio_shift_apply (cur count alu size : Z) (cf : bool) : Z :=
  let mask := mmio_size_mask size in
  let a := Z.land cur mask in
  let n := mmio_shift_amt count size in
  if n =? 0 then a
  else
    let w := mmio_bit_width size in
    if alu =? MMIO_ALU_SHL then if w <=? n then 0 else Z.land (shl64 a n) mask
    else if alu =? MMIO_ALU_SHR then if w <=? n then 0 else Z.shiftr a n
    else if alu =? MMIO_ALU_SAR then
      let s := mmio_as_signed a size in Z.land (wrap64 (Z.shiftr s (Z.min n 127))) mask
    else if alu =? MMIO_ALU_ROL then
      let k := n mod w in
      if k =? 0 then a else Z.land (Z.lor (shl64 a k) (Z.shiftr a (w - k))) mask
    else if alu =? MMIO_ALU_ROR then
      let k := n mod w in
      if k =? 0 then a else Z.land (Z.lor (Z.shiftr a k) (shl64 a (w - k))) mask
    else if alu =? MMIO_ALU_RCL then
      let m := w + 1 in
      let k := n mod m in
      if k =? 0 then a else Z.land (wrap64 (rot_left (with_carry a w cf) k m)) mask
    else if alu =? MMIO_ALU_RCR then
      let m := w + 1 in
      let k := n mod m in
      if k =? 0 then a else Z.land (wrap64 (rot_right (with_carry a w cf) k m)) mask
    else a.

(** The carry flag after a shift by [n > 0]. *)
Definition shift_cf (old a r n alu size : Z) : bool :=
  let w := mmio_bit_width size in
  let old_cf := negb (Z.land old 1 =? 0) in
  if alu =? MMIO_ALU_SHL then
    if w <? n then false
    else if n =? w then negb (Z.land a 1 =? 0)
    else negb (Z.land (Z.shiftr a (w - n)) 1 =? 0)
  else if (alu =? MMIO_ALU_SHR) || (alu =? MMIO_ALU_SAR) then
    if w <? n then (alu =? MMIO_ALU_SAR) && negb (Z.land a (mmio_sign_bit size) =? 0)
    else negb (Z.land (Z.shiftr a (n - 1)) 1 =? 0)
  else if alu =? MMIO_ALU_ROL then
    let k := n mod w in if k =? 0 then negb (Z.land a 1 =? 0) else negb (Z.land r 1 =? 0)
  else if alu =? MMIO_ALU_ROR then
    let k := n mod w in
    if k =? 0 then negb (Z.land a (mmio_sign_bit size) =? 0) else negb (Z.land r (mmio_sign_bit size) =? 0)
  else if alu =? MMIO_ALU_RCL then
    let m := w + 1 in
    let k := n mod m in
    if k =? 0 then old_cf else negb (Z.land (Z.shiftr (rot_left (with_carry a w old_cf) k m) w) 1 =? 0)
  else if alu =? MMIO_ALU_RCR then
    let m := w + 1 in
    let k := n mod m in
    if k =? 0 then old_cf else negb (Z.land (Z.shiftr (rot_right (with_carry a w old_cf) k m) w) 1 =? 0)
  else old_cf.

(** The overflow flag after a shift by 1. *)
Definition shift_of (a r alu size : Z) (cf : bool) : bool :=
  let s := mmio_sign_bit size in
  if (alu =? MMIO_ALU_SHL) || (alu =? MMIO_ALU_ROL) || (alu =? MMIO_ALU_RCL) then xorb (negb (Z.land r s =? 0)) cf
  else if alu =? MMIO_ALU_SHR then negb (Z.land a s =? 0)
  else if alu =? MMIO_ALU_SAR then false
  else if (alu =? MMIO_ALU_ROR) || (alu =? MMIO_ALU_RCR) then
    xorb (negb (Z.land r s =? 0)) (negb (Z.land r (Z.shiftr s 1) =? 0))
  else false.

Definition mmio_shift_rflags (old cur count result alu size : Z) : Z :=
  let n := mmio_shift_amt count size in
  if n =? 0 then old
  else
    let mask := mmio_size_mask size in
    let a := Z.land cur mask in
    let r := Z.land result mask in
    let cf := shift_cf old a r n alu size in
    let f :=
      if (alu =? MMIO_ALU_SHL) || (alu =? MMIO_ALU_SHR) || (alu =? MMIO_ALU_SAR) then mmio_test_rflags old r size
      else Z.land (Z.lor old 2) (bnot64 1) in
    let f := if cf then Z.lor f 1 else Z.land f (bnot64 1) in
    if n =? 1 then put (Z.land f (bnot64 (Z.shiftl 1 11))) (Z.shiftl 1 11) (shift_of a r alu size cf) else f.

Definition concat (a s w alu : Z) : Z :=
  if alu =? MMIO_ALU_SHLD then Z.lor (shl128 a w) s else Z.lor (shl128 s w) a.

Definition mmio_double_shift_apply (dest src count alu size : Z) : Z :=
  let mask := mmio_size_mask size in
  let a := Z.land dest mask in
  let s := Z.land src mask in
  let n := mmio_shift_amt count size in
  if n =? 0 then a
  else
    let w := mmio_bit_width size in
    let c := concat a s w alu in
    let shifted := if alu =? MMIO_ALU_SHLD then shl128 c n else Z.shiftr c n in
    let result := if alu =? MMIO_ALU_SHLD then wrap64 (Z.shiftr shifted w) else wrap64 shifted in
    Z.land result mask.

Definition mmio_double_shift_rflags (old dest src count result alu size : Z) : Z :=
  let n := mmio_shift_amt count size in
  if n =? 0 then old
  else
    let mask := mmio_size_mask size in
    let a := Z.land dest mask in
    let s := Z.land src mask in
    let r := Z.land result mask in
    let w := mmio_bit_width size in
    let c := concat a s w alu in
    let cf :=
      if alu =? MMIO_ALU_SHLD then negb (Z.land (Z.shiftr c (2 * w - n)) 1 =? 0)
      else negb (Z.land (Z.shiftr c (n - 1)) 1 =? 0) in
    let f := mmio_test_rflags old r size in
    let f := if cf then Z.lor f 1 else Z.land f (bnot64 1) in
    if n =? 1 then
      let sign := mmio_sign_bit size in
      let ovf :=
        if alu =? MMIO_ALU_SHLD then xorb (negb (Z.land r sign =? 0)) cf
        else xorb (negb (Z.land a sign =? 0)) (negb (Z.land r sign =? 0)) in
      put (Z.land f (bnot64 (Z.shiftl 1 11))) (Z.shiftl 1 11) ovf
    else f.

Definition mmio_alu_rflags (old left right result alu size : Z) : Z :=
  if alu =? MMIO_ALU_NOT then old
  else if (alu =? MMIO_ALU_AND) || (alu =? MMIO_ALU_OR) || (alu =? MMIO_ALU_XOR) then mmio_test_rflags old result size
  else if alu =? MMIO_ALU_ADD then mmio_add_rflags old left right size
  else if alu =? MMIO_ALU_ADC then mmio_adc_rflags old left right size
  else if alu =? MMIO_ALU_SUB then mmio_cmp_rflags old left right size
  else if alu =? MMIO_ALU_SBB then mmio_sbb_rflags old left right size
  else if alu =? MMIO_ALU_NEG then mmio_cmp_rflags old 0 left size
  else if mmio_alu_is_shift alu then mmio_shift_rflags old left right result alu size
  else old.

(** ** Bits, counts, products and quotients *)

Definition mmio_cmpxchg8b_apply (mem edx_eax ecx_ebx : Z) : Z * bool :=
  if mem =? edx_eax then (ecx_ebx, true) else (mem, false).

Definition mmio_bt_apply (cur bit size bt : Z) : Z * bool :=
  let width := size * 8 in
  if width =? 0 then (cur, false)
  else
    let b := bit mod width in
    let bitv := shl64 1 b in
    let was := negb (Z.land cur bitv =? 0) in
    (if bt =? MMIO_BTS then Z.lor cur bitv
     else if bt =? MMIO_BTR then Z.land cur (bnot64 bitv)
     else if bt =? MMIO_BTC then Z.lxor cur bitv
     else cur, was).

Definition mmio_bt_rflags (old : Z) (was_set : bool) : Z := if was_set then Z.lor old 1 else Z.land old (bnot64 1).

Definition mmio_scan_apply (src size : Z) (bsr : bool) : Z * bool :=
  let v := Z.land src (mmio_size_mask size) in
  if v =? 0 then (0, true)
  else (if bsr then Z.max (63 - leading_zeros v) 0 else trailing_zeros v, false).

Definition mmio_tzcnt_apply (src size : Z) : Z * bool :=
  let w := mmio_bit_width size in
  let v := Z.land src (mmio_size_mask size) in
  if v =? 0 then (w, true) else (trailing_zeros v, false).

Definition mmio_lzcnt_apply (src size : Z) : Z * bool :=
  let w := mmio_bit_width size in
  let v := Z.land src (mmio_size_mask size) in
  if v =? 0 then (w, true) else (leading_zeros v - (64 - w), false).

Definition mmio_tzcnt_rflags (old result : Z) (src_zero : bool) : Z :=
  let f := Z.land (Z.lor old 2) (bnot64 (Z.lor 1 (Z.shiftl 1 6))) in
  put (put f 1 src_zero) (Z.shiftl 1 6) (result =? 0).

Definition mmio_popcnt_apply (src size : Z) : Z := count_ones (Z.land src (mmio_size_mask size)).

Definition mmio_popcnt_rflags (old : Z) (src_zero : bool) : Z :=
  if src_zero then Z.lor old (Z.shiftl 1 6) else Z.land old (bnot64 (Z.shiftl 1 6)).

Definition mmio_scan_rflags (old : Z) (src_zero : bool) : Z :=
  if src_zero then Z.lor old (Z.shiftl 1 6) else Z.land old (bnot64 (Z.shiftl 1 6)).

Definition mmio_imul_apply (a b size : Z) : Z * bool :=
  let prod := mmio_as_signed a size * mmio_as_signed b size in
  let result := Z.land (wrap64 prod) (mmio_size_mask size) in
  (result, negb (mmio_as_signed result size =? prod)).

Definition mmio_imul_rflags (old : Z) (overflow : bool) : Z :=
  put (Z.land (Z.lor old 2) (bnot64 (Z.lor 1 (Z.shiftl 1 11)))) (Z.lor 1 (Z.shiftl 1 11)) overflow.

Definition mmio_mul_pair_apply (ax mem size : Z) (signed : bool) : Z * Z * bool :=
  let mask := mmio_size_mask size in
  let a := Z.land ax mask in
  let b := Z.land mem mask in
  if size =? 1 then
    if signed then
      let prod := sint 16 (sint 8 a * sint 8 b) in
      let lo := prod mod 65536 in
      let ah := Z.land (Z.shiftr lo 8) 0xFF in
      let sign := if negb (Z.land lo 0x80 =? 0) then 0xFF else 0 in
      (lo, 0, negb (ah =? sign))
    else
      let prod := a ⊠ b in
      (Z.land prod 0xFFFF, 0, 0xFF <? prod)
  else
    let width := size * 8 in
    if signed then
      let prod := mmio_as_signed a size * mmio_as_signed b size in
      let raw := prod mod 2 ^ 128 in
      let lo := Z.land (wrap64 raw) mask in
      let hi := Z.land (wrap64 (Z.shiftr raw width)) mask in
      (lo, hi, negb (mmio_as_signed lo size =? prod))
    else
      let prod := a * b in
      let lo := Z.land (wrap64 prod) mask in
      let hi := Z.land (wrap64 (Z.shiftr prod width)) mask in
      (lo, hi, negb (hi =? 0)).

(** The signed branch of one width: [n] and [d] at [2w] bits; the minimum by -1 is
    turned down first, [Z.quot] and [Z.rem] are the truncating [/] and [%]. *)
Definition idiv (w n d : Z) : option (Z * Z) :=
  if (d =? -1) && (n =? - 2 ^ (2 * w - 1)) then None
  else
    let q := Z.quot n d in
    let r := Z.rem n d in
    if (q <? - 2 ^ (w - 1)) || (2 ^ (w - 1) - 1 <? q) then None else Some (q mod 2 ^ w, r mod 2 ^ w).

Definition udiv (max n d : Z) : option (Z * Z) :=
  let q := n / d in
  let r := n mod d in
  if max <? q then None else Some (q, r).

Definition mmio_div_apply (ax dx mem size : Z) (signed : bool) : option (Z * Z) :=
  if size =? 1 then
    let dividend := Z.land ax 0xFFFF in
    let divisor := Z.land mem 0xFF in
    if divisor =? 0 then None
    else
      '(q, r) ← (if signed then idiv 8 (sint 16 dividend) (sint 8 divisor) else udiv 0xFF dividend divisor);
      Some (Z.lor q (shl64 r 8), 0)
  else if size =? 2 then
    let dividend := Z.lor (shl64 (Z.land dx 0xFFFF) 16) (Z.land ax 0xFFFF) in
    let divisor := Z.land mem 0xFFFF in
    if divisor =? 0 then None
    else if signed then idiv 16 (sint 32 dividend) (sint 16 divisor) else udiv 0xFFFF dividend divisor
  else if size =? 4 then
    let dividend := Z.lor (shl64 (Z.land dx 0xFFFFFFFF) 32) (Z.land ax 0xFFFFFFFF) in
    let divisor := Z.land mem 0xFFFFFFFF in
    if divisor =? 0 then None
    else if signed then idiv 32 (sint 64 dividend) (sint 32 divisor) else udiv 0xFFFFFFFF dividend divisor
  else if size =? 8 then
    if mem =? 0 then None
    else if signed then
      idiv 64 (Z.lor (Z.shiftl (sint 64 dx) 64) ax) (sint 64 mem)
    else udiv U64_MAX (Z.lor (shl128 dx 64) ax) mem
  else None.

Definition MMIO_DIV_DE_INTR_INFO : Z := Z.lor (Z.shiftl 3 8) (Z.shiftl 1 31).

(** ** Applying an operation *)

(** The saved registers, [RSP] among them, and [GUEST_RFLAGS]. *)
Record Cpu := mkCpu { gprs : list Z; rflags : Z }.

Definition cr_gpr (c : Cpu) (idx : Z) : Z := if idx <? 16 then default 0 (gprs c !! Z.to_nat idx) else 0.

Definition set_cr_gpr (c : Cpu) (idx val : Z) : Cpu :=
  if idx <? 16 then mkCpu (<[Z.to_nat idx := val]> (gprs c)) (rflags c) else c.

Definition set_rflags (c : Cpu) (f : Z) : Cpu := mkCpu (gprs c) f.

(** [val as iN as i64 as u64] *)
Definition sext (w val : Z) : Z := wrap64 (sint w val).

Definition merge_mmio_gpr (old val size : Z) (zero_ext sign_ext : bool) : Z :=
  if sign_ext then
    if size =? 1 then sext 8 val else if size =? 2 then sext 16 val else if size =? 4 then sext 32 val else val
  else if zero_ext then
    if size =? 1 then Z.land val 0xFF else if size =? 2 then Z.land val 0xFFFF
    else if size =? 4 then Z.land val 0xFFFFFFFF else val
  else
    if size =? 1 then Z.lor (Z.land old (bnot64 0xFF)) (Z.land val 0xFF)
    else if size =? 2 then Z.lor (Z.land old (bnot64 0xFFFF)) (Z.land val 0xFFFF)
    else if size =? 4 then Z.land val 0xFFFFFFFF else val.

Definition high_byte (op : MmioInsn) : bool := (size op =? 1) && negb (rex op) && ((4 <=? reg op) && (reg op <? 8)).

Definition mmio_gpr_in (c : Cpu) (op : MmioInsn) : Z :=
  if high_byte op then Z.land (Z.shiftr (cr_gpr c (reg op - 4)) 8) 0xFF else cr_gpr c (reg op).

Definition mmio_gpr_out (c : Cpu) (op : MmioInsn) (val : Z) : Cpu :=
  if high_byte op then
    let g := reg op - 4 in
    let old := cr_gpr c g in
    set_cr_gpr c g (Z.lor (Z.land old (bnot64 0xFF00)) (shl64 (Z.land val 0xFF) 8))
  else set_cr_gpr c (reg op) (merge_mmio_gpr (cr_gpr c (reg op)) val (size op) (zero_ext op) (sign_ext op)).

(** [op] with other register, size, zero extension and REX. *)
Definition retarget (op : MmioInsn) (r sz : Z) (zx rx : bool) : MmioInsn :=
  mkInsn (is_write op) sz r (has_imm op) (imm op) zx (sign_ext op) (xchg op) (alu op) rx (test op) (cmp op)
    (cmp_reg_left op) (alu_reg_left op) (bt op) (atomic op) (cc op).

Definition with_reg (op : MmioInsn) (r : Z) : MmioInsn := retarget op r (size op) (zero_ext op) (rex op).

(** [None] when the operation is not a test or compare. *)
Definition mmio_apply_test_cmp (c : Cpu) (op : MmioInsn) (cur : Z) : option Cpu :=
  if negb (test op) && negb (cmp op) then None
  else
    let rhs := if has_imm op then imm op else mmio_gpr_in c op in
    let oldf := rflags c in
    let newf :=
      if cmp op then
        let '(l, r) := if cmp_reg_left op then (rhs, cur) else (cur, rhs) in
        mmio_cmp_rflags oldf l r (size op)
      else mmio_test_rflags oldf (Z.land cur rhs) (size op) in
    Some (set_rflags c newf).

(** Where a product or a quotient pair goes. *)
Definition pair_out (c : Cpu) (op : MmioInsn) (lo hi : Z) : Cpu :=
  let sz := if size op =? 1 then 2 else size op in
  let dest r := retarget op r sz (sz =? 4) true in
  let c := mmio_gpr_out c (dest 0) lo in
  if 1 <? size op then mmio_gpr_out c (dest 2) hi else c.

Definition mmio_alu_result (c : Cpu) (op : MmioInsn) (mem : Z) : Cpu * Z :=
  let oldf := rflags c in
  let cf := negb (Z.land oldf 1 =? 0) in
  let count := if has_imm op then imm op else Z.land (cr_gpr c 1) 0xFF in
  if mmio_alu_is_scan (alu op) then
    let '(idx, src_zero) := mmio_scan_apply mem (size op) (alu op =? MMIO_ALU_BSR) in
    (set_rflags c (mmio_scan_rflags oldf src_zero), if (src_zero : bool) then mmio_gpr_in c op else idx)
  else if mmio_alu_is_count_zero (alu op) then
    let '(idx, src_zero) :=
      if alu op =? MMIO_ALU_TZCNT then mmio_tzcnt_apply mem (size op) else mmio_lzcnt_apply mem (size op) in
    (set_rflags c (mmio_tzcnt_rflags oldf idx src_zero), idx)
  else if mmio_alu_is_popcnt (alu op) then
    (set_rflags c (mmio_popcnt_rflags oldf (mmio_eq mem 0 (size op))), mmio_popcnt_apply mem (size op))
  else if mmio_alu_is_shift (alu op) then
    let result := mmio_shift_apply mem count (alu op) (size op) cf in
    (set_rflags c (mmio_shift_rflags oldf mem count result (alu op) (size op)), result)
  else if mmio_alu_is_double_shift (alu op) then
    let src := mmio_gpr_in c op in
    let result := mmio_double_shift_apply mem src count (alu op) (size op) in
    (set_rflags c (mmio_double_shift_rflags oldf mem src count result (alu op) (size op)), result)
  else if mmio_alu_is_mul_pair (alu op) then
    let ax := mmio_gpr_in c (with_reg op 0) in
    let '(lo, hi, overflow) := mmio_mul_pair_apply ax mem (size op) (alu op =? MMIO_ALU_IMUL1) in
    (pair_out (set_rflags c (mmio_imul_rflags oldf overflow)) op lo hi, lo)
  else if mmio_alu_is_imul (alu op) then
    let gpr := mmio_gpr_in c op in
    let '(l, r) := if has_imm op then (mem, imm op) else (gpr, mem) in
    let '(result, overflow) := mmio_imul_apply l r (size op) in
    (set_rflags c (mmio_imul_rflags oldf overflow), result)
  else
    let other := if has_imm op then imm op else mmio_gpr_in c op in
    let '(l, r) := if alu_reg_left op then (other, mem) else (mem, other) in
    let result := mmio_alu_apply_cf l r (alu op) cf in
    (set_rflags c (mmio_alu_rflags oldf l r result (alu op) (size op)), result).

(** [None]: the guest takes a divide error. *)
Definition mmio_div_pair_commit (c : Cpu) (op : MmioInsn) (mem : Z) : option Cpu :=
  let ax := mmio_gpr_in c (with_reg op 0) in
  let dx := if 1 <? size op then mmio_gpr_in c (with_reg op 2) else 0 in
  '(lo, hi) ← mmio_div_apply ax dx mem (size op) (alu op =? MMIO_ALU_IDIV);
  Some (pair_out c op lo hi).

Definition mmio_apply_bt (c : Cpu) (op : MmioInsn) (cur : Z) : Cpu * Z :=
  let bit := if has_imm op then imm op else mmio_gpr_in c op in
  let '(new, was) := mmio_bt_apply cur bit (size op) (bt op) in
  (set_rflags c (mmio_bt_rflags (rflags c) was), new).

(** The value to store, if any. *)
Definition mmio_apply_atomic (c : Cpu) (op : MmioInsn) (cur : Z) : Cpu * option Z :=
  let oldf := rflags c in
  if atomic op =? MMIO_CMPXCHG then
    let acc := retarget op 0 (size op) (size op =? 4) (rex op) in
    let a := mmio_gpr_in c acc in
    let c := set_rflags c (mmio_cmp_rflags oldf a cur (size op)) in
    if mmio_eq a cur (size op) then (c, Some (mmio_gpr_in c op)) else (mmio_gpr_out c acc cur, None)
  else if atomic op =? MMIO_XADD then
    let r := mmio_gpr_in c op in
    let sum := mmio_alu_apply cur r MMIO_ALU_ADD in
    let c := set_rflags c (mmio_alu_rflags oldf cur r sum MMIO_ALU_ADD (size op)) in
    (mmio_gpr_out c op cur, Some sum)
  else if atomic op =? MMIO_CMPXCHG8B then
    let half r := retarget op r 4 true true in
    let eax := Z.land (mmio_gpr_in c (half 0)) 0xFFFFFFFF in
    let edx := Z.land (mmio_gpr_in c (half 2)) 0xFFFFFFFF in
    let ebx := Z.land (mmio_gpr_in c (half 3)) 0xFFFFFFFF in
    let ecx := Z.land (mmio_gpr_in c (half 1)) 0xFFFFFFFF in
    let acc := Z.lor (shl64 edx 32) eax in
    let desired := Z.lor (shl64 ecx 32) ebx in
    let '(out, matched) := mmio_cmpxchg8b_apply cur acc desired in
    let c := set_rflags c (mmio_cmp_rflags oldf acc cur 8) in
    if (matched : bool) then (c, Some out)
    else (mmio_gpr_out (mmio_gpr_out c (half 0) cur) (half 2) (Z.shiftr cur 32), None)
  else (c, None).

Definition mmio_apply_cc (c : Cpu) (op : MmioInsn) (cur : Z) : Cpu * option Z :=
  let taken := mmio_cc_taken (cc op) (rflags c) in
  if is_write op then (c, Some (if taken then 1 else 0))
  else (if taken then mmio_gpr_out c op cur else c, None).

(** ** Properties: words *)

(** Decides which operation is meant, once it is a constant. *)
Ltac alu_eval :=
  unfold mmio_alu_is_shift, MMIO_ALU_AND, MMIO_ALU_OR, MMIO_ALU_XOR, MMIO_ALU_ADD, MMIO_ALU_SUB, MMIO_ALU_NOT, MMIO_ALU_NEG, MMIO_ALU_ADC, MMIO_ALU_SBB, MMIO_ALU_ROL, MMIO_ALU_ROR, MMIO_ALU_RCL, MMIO_ALU_RCR, MMIO_ALU_SHL, MMIO_ALU_SHR, MMIO_ALU_SAR, MMIO_ALU_BSF, MMIO_ALU_BSR, MMIO_ALU_IMUL, MMIO_ALU_MUL, MMIO_ALU_IMUL1, MMIO_ALU_DIV, MMIO_ALU_IDIV, MMIO_ALU_SHLD, MMIO_ALU_SHRD, MMIO_ALU_TZCNT, MMIO_ALU_LZCNT, MMIO_ALU_POPCNT;
  cbn [Z.eqb Z.leb Z.compare Pos.eqb Pos.compare Pos.compare_cont orb andb]; cbv zeta.

Definition sized (size : Z) : Prop := size = 1 ∨ size = 2 ∨ size = 4 ∨ size = 8.

Lemma sized_width size : sized size → mmio_bit_width size = 8 ∨ mmio_bit_width size = 16 ∨ mmio_bit_width size = 32 ∨ mmio_bit_width size = 64.
Proof. intros [-> | [-> | [-> | ->]]]; cbn; tauto. Qed.

Lemma width_pos size : sized size → 8 ≤ mmio_bit_width size ≤ 64.
Proof. intros [-> | [-> | [-> | ->]]]; cbn; lia. Qed.

Lemma mask_ones size : sized size → mmio_size_mask size = Z.ones (mmio_bit_width size).
Proof. intros [-> | [-> | [-> | ->]]]; reflexivity. Qed.

Lemma mask_mod size x : sized size → Z.land x (mmio_size_mask size) = x mod 2 ^ mmio_bit_width size.
Proof. intros S. pose proof (width_pos size S). rewrite mask_ones by done. apply Z.land_ones. lia. Qed.

Lemma sign_bit_pow size : sized size → mmio_sign_bit size = Z.shiftl 1 (mmio_bit_width size - 1).
Proof. intros [-> | [-> | [-> | ->]]]; reflexivity. Qed.

Lemma as_signed_sint size v : sized size → mmio_as_signed v size = sint (mmio_bit_width size) v.
Proof. intros [-> | [-> | [-> | ->]]]; reflexivity. Qed.

(** A test of one bit. *)
Lemma bit_tested x k : 0 ≤ k → negb (Z.land x (Z.shiftl 1 k) =? 0) = Z.testbit x k.
Proof.
  intros K. destruct (Z.eqb_spec (Z.land x (Z.shiftl 1 k)) 0) as [E|N]; cbn [negb].
  - symmetry. assert (Z.testbit (Z.land x (Z.shiftl 1 k)) k = false) as B by (rewrite E; apply Z.bits_0).
    rewrite Z.land_spec, one_bit, Z.eqb_refl, andb_true_r in B by done. done.
  - symmetry. apply not_false_iff_true. intros B. apply N. apply Z.bits_inj'. intros i Hi.
    rewrite Z.land_spec, one_bit, Z.bits_0 by done. destruct (Z.eqb_spec i k) as [->|]; [by rewrite B|apply andb_false_r].
Qed.

Lemma bit_of_1 i : Z.testbit 1 i = (i =? 0).
Proof. by apply (one_bit 0 i). Qed.

Lemma bit_of_2 i : Z.testbit 2 i = (i =? 1).
Proof. by apply (one_bit 1 i). Qed.

Lemma bit0_test x : negb (Z.land x 1 =? 0) = Z.testbit x 0.
Proof. by apply (bit_tested x 0). Qed.

Lemma sign_test size x : sized size → negb (Z.land x (mmio_sign_bit size) =? 0) = Z.testbit x (mmio_bit_width size - 1).
Proof. intros S. pose proof (width_pos size S). rewrite sign_bit_pow by done. apply bit_tested. lia. Qed.

Lemma top_bit w x : 0 < w → 0 ≤ x < 2 ^ w → Z.testbit x (w - 1) = (2 ^ (w - 1) <=? x).
Proof.
  intros W X.
  destruct (Z.leb_spec (2 ^ (w - 1)) x) as [L|L].
  - apply Z.testbit_true; [lia|]. replace (2 ^ w) with (2 * 2 ^ (w - 1)) in X by (rewrite <-Z.pow_succ_r by lia; f_equal; lia).
    rewrite <-(Z.div_unique_pos x (2 ^ (w - 1)) 1 (x - 2 ^ (w - 1))); [done|lia|lia].
  - apply Z.testbit_false; [lia|]. by rewrite Z.div_small by lia.
Qed.

Lemma wrap_mod w x : 0 ≤ w ≤ 64 → wrap64 x mod 2 ^ w = x mod 2 ^ w.
Proof.
  intros W. unfold wrap64. change W64 with (2 ^ 64). rewrite <-(Z.mod_mod_divide x (2 ^ 64) (2 ^ w)); [done|].
  exists (2 ^ (64 - w)). rewrite <-Z.pow_add_r by lia. f_equal. lia.
Qed.

Lemma put_bit f k b i : 0 ≤ k → Z.testbit (put f (Z.shiftl 1 k) b) i = Z.testbit f i || (b && (i =? k)).
Proof. intros K. unfold put. destruct b; cbn [andb]; [by rewrite Z.lor_spec, one_bit|by rewrite orb_false_r]. Qed.

Lemma put_bit0 f b i : Z.testbit (put f 1 b) i = Z.testbit f i || (b && (i =? 0)).
Proof. by apply (put_bit f 0 b i). Qed.

(** ** The status flags *)

(** Parity of the low byte, as the exclusive or of its bits. *)
Definition even_parity (r : Z) : bool := negb (foldl xorb false (Z.testbit r <$> seqZ 0 8)).

(** The flags after an operation with result [r] of [w] bits. The auxiliary carry is
    not kept. *)
Definition status_of (old w : Z) (cf ovf : bool) (r i : Z) : bool :=
  if i =? 0 then cf
  else if i =? 1 then true
  else if i =? 2 then even_parity r
  else if i =? 4 then false
  else if i =? 6 then r =? 0
  else if i =? 7 then Z.testbit r (w - 1)
  else if i =? 11 then ovf
  else Z.testbit old i.

Definition status (f old w : Z) (cf ovf : bool) (r : Z) : Prop := ∀ i, 0 ≤ i → Z.testbit f i = status_of old w cf ovf r i.

Lemma parity_low r : (count_ones (r mod 256) mod 2 =? 0) = even_parity r.
Proof.
  assert (even_parity r = even_parity (r mod 256)) as ->.
  { unfold even_parity. do 2 f_equal. apply list_fmap_ext. intros i x Hx. apply lookup_seqZ in Hx as [-> Hi].
    change 256 with (2 ^ 8). by rewrite Z.mod_pow2_bits_low by lia. }
  pose proof (Z.mod_pos_bound r 256 eq_refl). apply eqb_prop.
  apply (byte_forall (λ b, eqb (count_ones b mod 2 =? 0) (even_parity b))); [vm_compute; reflexivity|done].
Qed.

Lemma status_bits i : 0 ≤ i → Z.testbit STATUS i = (i =? 0) || (i =? 2) || (i =? 4) || (i =? 6) || (i =? 7) || (i =? 11).
Proof.
  intros I. destruct (Z.ltb_spec i 12).
  - assert (i = 0 ∨ i = 1 ∨ i = 2 ∨ i = 3 ∨ i = 4 ∨ i = 5 ∨ i = 6 ∨ i = 7 ∨ i = 8 ∨ i = 9 ∨ i = 10 ∨ i = 11) as D by lia.
    by destruct D as [-> | [-> | [-> | [-> | [-> | [-> | [-> | [-> | [-> | [-> | [-> | ->]]]]]]]]]]].
  - rewrite (below_high 12) by done. rewrite !(proj2 (Z.eqb_neq _ _)) by lia. done.
Qed.

Lemma u64_lor2 x : u64 x → u64 (Z.lor x 2).
Proof. intros. by apply u64_lor. Qed.

Lemma test_status old result size : sized size → u64 old →
  status (mmio_test_rflags old result size) old (mmio_bit_width size) false false (result mod 2 ^ mmio_bit_width size).
Proof.
  intros S U i I. unfold mmio_test_rflags. rewrite mask_mod, sign_test, parity_low by done.
  set (r := result mod _). rewrite !put_bit by done. rewrite land_bnot64 by by apply u64_lor2.
  rewrite Z.ldiff_spec, Z.lor_spec, status_bits by done. unfold status_of.
  rewrite bit_of_2.
  destruct (Z.eqb_spec i 0) as [->|]; [by rewrite !andb_false_r|]. destruct (Z.eqb_spec i 1) as [->|]; [by rewrite orb_true_r|].
  destruct (Z.eqb_spec i 2) as [->|]; [cbn; by rewrite !andb_false_r, andb_true_r|].
  destruct (Z.eqb_spec i 4) as [->|]; [cbn; by rewrite !andb_false_r|].
  destruct (Z.eqb_spec i 6) as [->|]; [cbn; by rewrite !andb_false_r, andb_true_r, !orb_false_r|].
  destruct (Z.eqb_spec i 7) as [->|]; [cbn; by rewrite !andb_false_r, andb_true_r, !orb_false_r|].
  destruct (Z.eqb_spec i 11) as [->|]; [cbn; by rewrite !andb_false_r|].
  cbn. by rewrite !andb_false_r, andb_true_r, !orb_false_r.
Qed.

(** Adding carry and overflow to the flags of a test. *)
Lemma status_put f old w r cf ovf : status f old w false false r →
  status (put (put f 1 cf) (Z.shiftl 1 11) ovf) old w cf ovf r.
Proof.
  intros S i I. rewrite put_bit, put_bit0, S by done. unfold status_of.
  destruct (Z.eqb_spec i 0) as [->|]; [cbn; by rewrite andb_true_r, andb_false_r, orb_false_r|].
  rewrite andb_false_r, orb_false_r.
  destruct (Z.eqb_spec i 11) as [->|]; [cbn; by rewrite andb_true_r|]. by rewrite andb_false_r, orb_false_r.
Qed.

(** ** Arithmetic and logic, against exact integers *)

(** The result of an operation on [w]-bit operands as an exact integer: of the
    unsigned and of the signed reading of the operands. *)
Definition exact (alu w a b c : Z) : Z * Z :=
  let sa := sint w a in
  let sb := sint w b in
  if alu =? MMIO_ALU_ADD then (a + b, sa + sb)
  else if alu =? MMIO_ALU_ADC then (a + b + c, sa + sb + c)
  else if alu =? MMIO_ALU_SUB then (a - b, sa - sb)
  else if alu =? MMIO_ALU_SBB then (a - b - c, sa - sb - c)
  else if alu =? MMIO_ALU_NEG then (- a, - sa)
  else
    let r := if alu =? MMIO_ALU_AND then Z.land a b else if alu =? MMIO_ALU_OR then Z.lor a b else Z.lxor a b in
    (r, sint w r).

Definition arith (alu : Z) : Prop :=
  alu ∈ [MMIO_ALU_AND; MMIO_ALU_OR; MMIO_ALU_XOR; MMIO_ALU_ADD; MMIO_ALU_SUB; MMIO_ALU_NEG; MMIO_ALU_ADC; MMIO_ALU_SBB].

(** Not representable in [w] bits, unsigned and signed. *)
Definition carries (w u : Z) : bool := negb ((0 <=? u) && (u <? 2 ^ w)).
Definition overflows (w s : Z) : bool := negb ((- 2 ^ (w - 1) <=? s) && (s <? 2 ^ (w - 1))).

Lemma sint_small w a : 0 ≤ a < 2 ^ w → sint w a = if a <? 2 ^ (w - 1) then a else a - 2 ^ w.
Proof. intros A. unfold sint. by rewrite Z.mod_small by done. Qed.

Lemma sint_range w x : 0 < w → - 2 ^ (w - 1) ≤ sint w x < 2 ^ (w - 1) ∧ sint w x mod 2 ^ w = x mod 2 ^ w.
Proof.
  intros W. unfold sint. pose proof (Z.mod_pos_bound x (2 ^ w) ltac:(lia)).
  assert (2 ^ w = 2 * 2 ^ (w - 1)) as E by (rewrite <-Z.pow_succ_r by lia; f_equal; lia).
  destruct (Z.ltb_spec (x mod 2 ^ w) (2 ^ (w - 1))); (split; [lia|]).
  - by rewrite Z.mod_mod by lia.
  - rewrite <-(Z.mod_add (x mod 2 ^ w - 2 ^ w) 1 (2 ^ w)) by lia. rewrite Z.mul_1_l, Z.sub_add. by rewrite Z.mod_mod by lia.
Qed.

(** The comparison of sign bits finds the signed overflow. *)
Lemma sub_overflow w a b : 0 < w → 0 ≤ a < 2 ^ w → 0 ≤ b < 2 ^ w →
  let r := (a - b) mod 2 ^ w in
  xorb (Z.testbit a (w - 1)) (Z.testbit b (w - 1)) && xorb (Z.testbit r (w - 1)) (Z.testbit a (w - 1)) =
  overflows w (sint w a - sint w b).
Proof.
  intros W A B r. pose proof (Z.mod_pos_bound (a - b) (2 ^ w) ltac:(lia)) as R. fold r in R.
  rewrite !top_bit by done. rewrite !sint_small by done. unfold overflows.
  assert (2 ^ w = 2 * 2 ^ (w - 1)) as E by (rewrite <-Z.pow_succ_r by lia; f_equal; lia).
  assert (r = a - b ∨ r = a - b + 2 ^ w) as D.
  { destruct (Z.le_gt_cases b a); [left; unfold r; apply Z.mod_small; lia|right].
    unfold r. rewrite <-(Z.mod_add _ 1) by lia. rewrite Z.mul_1_l. apply Z.mod_small. lia. }
  clearbody r. set (p := 2 ^ (w - 1)) in *. clearbody p. rewrite E in *.
  destruct (Z.leb_spec p a), (Z.leb_spec p b), (Z.leb_spec p r), (Z.ltb_spec a p), (Z.ltb_spec b p); try lia; cbn [xorb andb];
    symmetry; apply negb_true_iff || apply negb_false_iff; lia.
Qed.

Lemma add_overflow w a b : 0 < w → 0 ≤ a < 2 ^ w → 0 ≤ b < 2 ^ w →
  let r := (a + b) mod 2 ^ w in
  eqb (Z.testbit a (w - 1)) (Z.testbit b (w - 1)) && xorb (Z.testbit r (w - 1)) (Z.testbit a (w - 1)) =
  overflows w (sint w a + sint w b).
Proof.
  intros W A B r. pose proof (Z.mod_pos_bound (a + b) (2 ^ w) ltac:(lia)) as R. fold r in R.
  rewrite !top_bit by done. rewrite !sint_small by done. unfold overflows.
  assert (2 ^ w = 2 * 2 ^ (w - 1)) as E by (rewrite <-Z.pow_succ_r by lia; f_equal; lia).
  assert (r = a + b ∨ r = a + b - 2 ^ w) as D.
  { destruct (Z.le_gt_cases (2 ^ w) (a + b)); [right|left; unfold r; apply Z.mod_small; lia].
    unfold r. rewrite <-(Z.mod_add _ (-1)) by lia. rewrite <-(Z.mod_small (a + b - 2 ^ w) (2 ^ w)) by lia. f_equal; lia. }
  clearbody r. set (p := 2 ^ (w - 1)) in *. clearbody p. rewrite E in *.
  destruct (Z.leb_spec p a), (Z.leb_spec p b), (Z.leb_spec p r), (Z.ltb_spec a p), (Z.ltb_spec b p); try lia; cbn [xorb eqb andb];
    symmetry; apply negb_true_iff || apply negb_false_iff; lia.
Qed.

(** Comparing the wrapped result with the exact one finds it too. *)
Lemma wrapped_overflow w s u : 0 < w → (s - u) mod 2 ^ w = 0 → negb (s =? sint w (u mod 2 ^ w)) = overflows w s.
Proof.
  intros W E. destruct (sint_range w (u mod 2 ^ w) W) as [R M]. rewrite Z.mod_mod in M by lia. unfold overflows.
  set (t := sint w (u mod 2 ^ w)) in *. clearbody t.
  assert (2 ^ w = 2 * 2 ^ (w - 1)) as P by (rewrite <-Z.pow_succ_r by lia; f_equal; lia).
  assert ((s - t) mod 2 ^ w = 0) as D.
  { rewrite Zminus_mod, M, <-Zminus_mod. done. }
  apply Z.mod_divide in D as [k D]; [|lia]. f_equal. set (p := 2 ^ (w - 1)) in *. clearbody p.
  destruct (Z.eqb_spec s t) as [->|N]; [symmetry; apply andb_true_iff; lia|]. symmetry. apply andb_false_iff.
  assert (k ≠ 0) by (intros ->; lia). destruct (Z.leb_spec (- p) s), (Z.ltb_spec s p); auto. nia.
Qed.

Lemma sint_cong w x : 0 < w → (sint w x - x) mod 2 ^ w = 0.
Proof. intros W. destruct (sint_range w x W) as [_ M]. rewrite Zminus_mod, M, Z.sub_diag. apply Z.mod_0_l. lia. Qed.

Lemma cmp_status old a b size : sized size → u64 old → 0 ≤ a < 2 ^ mmio_bit_width size → 0 ≤ b < 2 ^ mmio_bit_width size →
  let w := mmio_bit_width size in
  status (mmio_cmp_rflags old a b size) old w (carries w (a - b)) (overflows w (sint w a - sint w b)) ((a - b) mod 2 ^ w).
Proof.
  intros S U A B w. pose proof (width_pos size S) as W. fold w in W, A, B. unfold mmio_cmp_rflags.
  rewrite !mask_mod, !sign_test by done. fold w. rewrite (Z.mod_small a), (Z.mod_small b) by done.
  unfold sub64. rewrite wrap_mod by lia. rewrite sub_overflow by (done || lia).
  replace (a <? b) with (carries w (a - b)) by (unfold carries; destruct (Z.ltb_spec a b), (Z.leb_spec 0 (a - b)), (Z.ltb_spec (a - b) (2 ^ w)); try done; lia).
  apply status_put. pose proof (test_status old ((a - b) mod 2 ^ w) size S U) as T. fold w in T. by rewrite Z.mod_mod in T by lia.
Qed.

Lemma cmp_mod old left right size : sized size →
  mmio_cmp_rflags old left right size =
  mmio_cmp_rflags old (left mod 2 ^ mmio_bit_width size) (right mod 2 ^ mmio_bit_width size) size.
Proof. intros S. pose proof (width_pos size S). unfold mmio_cmp_rflags. rewrite !mask_mod by done. by rewrite !Z.mod_mod by lia. Qed.

Lemma add_status old left right size : sized size → u64 old →
  let w := mmio_bit_width size in
  let a := left mod 2 ^ w in
  let b := right mod 2 ^ w in
  status (mmio_add_rflags old left right size) old w (carries w (a + b)) (overflows w (sint w a + sint w b)) ((a + b) mod 2 ^ w).
Proof.
  intros S U w a b. pose proof (width_pos size S) as W. fold w in W. unfold mmio_add_rflags.
  assert (0 ≤ a < 2 ^ w ∧ 0 ≤ b < 2 ^ w) as [A B] by (split; apply Z.mod_pos_bound; lia).
  rewrite !mask_mod, !sign_test by done. fold w a b. unfold add64. rewrite wrap_mod by lia. rewrite add_overflow by (done || lia).
  assert ((if size =? 8 then W64 <=? a + b else mmio_size_mask size <? wrap64 (a + b)) = carries w (a + b)) as ->.
  { unfold carries. rewrite (proj2 (Z.leb_le 0 (a + b))) by lia. cbn [andb].
    destruct S as [-> | [-> | [-> | ->]]]; cbn [Z.eqb Pos.eqb mmio_size_mask];
      change (2 ^ w) with (2 ^ w) in *; unfold w in *; cbn [mmio_bit_width Z.eqb Pos.eqb] in *; rewrite ?wrap64_small by mlia;
      unfold W64; rewrite <-?Z.leb_antisym; try reflexivity; cbn -[Z.leb Z.ltb Z.add];
      match goal with |- (?x <? ?y) = (?z <=? ?y) => destruct (Z.ltb_spec x y), (Z.leb_spec z y); lia end. }
  apply status_put. pose proof (test_status old ((a + b) mod 2 ^ w) size S U) as T. fold w in T. by rewrite Z.mod_mod in T by lia.
Qed.

Lemma bit0_mod x : Z.land x 1 = Z.b2z (Z.testbit x 0).
Proof. change (Z.land x (Z.ones 1) = Z.b2z (Z.testbit x 0)). rewrite Z.land_ones by done. by rewrite Z.bit0_mod. Qed.

Lemma adc_status old left right size : sized size → u64 old →
  let w := mmio_bit_width size in
  let a := left mod 2 ^ w in
  let b := right mod 2 ^ w in
  let c := Z.b2z (Z.testbit old 0) in
  status (mmio_adc_rflags old left right size) old w (carries w (a + b + c)) (overflows w (sint w a + sint w b + c))
    ((a + b + c) mod 2 ^ w).
Proof.
  intros S U w a b c. pose proof (width_pos size S) as W. fold w in W. unfold mmio_adc_rflags.
  assert (0 ≤ a < 2 ^ w ∧ 0 ≤ b < 2 ^ w) as [A B] by (split; apply Z.mod_pos_bound; lia).
  assert (0 ≤ c ≤ 1) as C by (unfold c; destruct (Z.testbit old 0); cbn; lia).
  rewrite !mask_mod, !as_signed_sint, bit0_mod by done. fold w a b c. rewrite wrap_mod by lia.
  rewrite wrapped_overflow by (try lia; replace (sint w a + sint w b + c - (a + b + c)) with ((sint w a - a) + (sint w b - b)) by lia;
    rewrite Z.add_mod, !sint_cong by lia; apply Z.mod_0_l; lia).
  replace (mmio_size_mask size <? a + b + c) with (carries w (a + b + c)).
  2: { rewrite mask_ones, Z.ones_equiv by done. fold w. unfold carries.
       destruct (Z.leb_spec 0 (a + b + c)), (Z.ltb_spec (a + b + c) (2 ^ w)), (Z.ltb_spec (Z.pred (2 ^ w)) (a + b + c)); try done; lia. }
  apply status_put. pose proof (test_status old ((a + b + c) mod 2 ^ w) size S U) as T. fold w in T. by rewrite Z.mod_mod in T by lia.
Qed.

Lemma sbb_status old left right size : sized size → u64 old →
  let w := mmio_bit_width size in
  let a := left mod 2 ^ w in
  let b := right mod 2 ^ w in
  let c := Z.b2z (Z.testbit old 0) in
  status (mmio_sbb_rflags old left right size) old w (carries w (a - b - c)) (overflows w (sint w a - sint w b - c))
    ((a - b - c) mod 2 ^ w).
Proof.
  intros S U w a b c. pose proof (width_pos size S) as W. fold w in W. unfold mmio_sbb_rflags.
  assert (0 ≤ a < 2 ^ w ∧ 0 ≤ b < 2 ^ w) as [A B] by (split; apply Z.mod_pos_bound; lia).
  assert (0 ≤ c ≤ 1) as C by (unfold c; destruct (Z.testbit old 0); cbn; lia).
  rewrite !mask_mod, !as_signed_sint, bit0_mod by done. fold w a b c. unfold sub64.
  assert (wrap64 (wrap64 (a - b) - c) mod 2 ^ w = (a - b - c) mod 2 ^ w) as ->.
  { rewrite wrap_mod by lia. by rewrite Zminus_mod, wrap_mod, <-Zminus_mod by lia. }
  rewrite wrapped_overflow by (try lia; replace (sint w a - sint w b - c - (a - b - c)) with ((sint w a - a) - (sint w b - b)) by lia;
    rewrite Zminus_mod, !sint_cong by lia; apply Z.mod_0_l; lia).
  replace (a <? b + c) with (carries w (a - b - c)).
  2: { unfold carries. destruct (Z.leb_spec 0 (a - b - c)), (Z.ltb_spec (a - b - c) (2 ^ w)), (Z.ltb_spec a (b + c)); try done; lia. }
  apply status_put. pose proof (test_status old ((a - b - c) mod 2 ^ w) size S U) as T. fold w in T. by rewrite Z.mod_mod in T by lia.
Qed.

(** A logical operation commutes with truncation, and never carries. *)
Lemma land_mod a b w : 0 ≤ w → Z.land a b mod 2 ^ w = Z.land (a mod 2 ^ w) (b mod 2 ^ w).
Proof. intros. rewrite <-!Z.land_ones by done. apply Z.bits_inj'. intros i I. rewrite !Z.land_spec. by destruct (Z.testbit a i), (Z.testbit b i), (Z.testbit (Z.ones w) i). Qed.

Lemma lor_mod a b w : 0 ≤ w → Z.lor a b mod 2 ^ w = Z.lor (a mod 2 ^ w) (b mod 2 ^ w).
Proof. intros. rewrite <-!Z.land_ones by done. by rewrite Z.land_lor_distr_l. Qed.

Lemma lxor_mod a b w : 0 ≤ w → Z.lxor a b mod 2 ^ w = Z.lxor (a mod 2 ^ w) (b mod 2 ^ w).
Proof.
  intros. rewrite <-!Z.land_ones by done. apply Z.bits_inj'. intros i I. rewrite !Z.land_spec, !Z.lxor_spec, !Z.land_spec.
  by destruct (Z.testbit a i), (Z.testbit b i), (Z.testbit (Z.ones w) i).
Qed.

Lemma in_range w r : 0 < w → 0 ≤ r < 2 ^ w → carries w r = false ∧ overflows w (sint w r) = false ∧ r mod 2 ^ w = r.
Proof.
  intros W R. destruct (sint_range w r W) as [S _]. unfold carries, overflows.
  rewrite !(proj2 (Z.leb_le _ _)), !(proj2 (Z.ltb_lt _ _)) by lia. split_and!; [done|done|by apply Z.mod_small].
Qed.

(** C30: The emulated arithmetic is that of the processor. For every operand size, old
    flags and operands, AND, OR, XOR, ADD, SUB, NEG, ADC and SBB give the exact result
    truncated to the operand, carry and overflow say whether the unsigned and the signed
    result fits, zero, sign and parity describe the result, and no other flag but the
    auxiliary carry changes. *)
Theorem alu_exact (alu size old left right : Z) : sized size → arith alu → u64 old →
  let w := mmio_bit_width size in
  let '(u, s) := exact alu w (left mod 2 ^ w) (right mod 2 ^ w) (Z.b2z (Z.testbit old 0)) in
  let r := mmio_alu_apply_cf left right alu (Z.testbit old 0) in
  r mod 2 ^ w = u mod 2 ^ w ∧
  status (mmio_alu_rflags old left right r alu size) old w (carries w u) (overflows w s) (u mod 2 ^ w).
Proof.
  intros S L U w. pose proof (width_pos size S) as W. fold w in W.
  set (a := left mod 2 ^ w). set (b := right mod 2 ^ w).
  assert (0 ≤ a < 2 ^ w ∧ 0 ≤ b < 2 ^ w) as [A B] by (split; apply Z.mod_pos_bound; lia).
  set (c := Z.b2z (Z.testbit old 0)).
  assert ((if Z.testbit old 0 then 1 else 0) = c) as Ec by (unfold c; by destruct (Z.testbit old 0)).
  assert (∀ r0 r, r0 mod 2 ^ w = r → 0 ≤ r < 2 ^ w →
    r0 mod 2 ^ w = r mod 2 ^ w ∧ status (mmio_test_rflags old r0 size) old w (carries w r) (overflows w (sint w r)) (r mod 2 ^ w)) as Log.
  { intros r0 r E R. destruct (in_range w r ltac:(lia) R) as (-> & -> & Em). rewrite Em, E. split; [done|].
    rewrite <-E. by apply test_status. }
  unfold arith in L. repeat (apply elem_of_cons in L as [->|L]);
    [..|by apply elem_of_nil in L]; unfold exact, mmio_alu_apply_cf, mmio_alu_rflags; alu_eval; rewrite ?Ec.
  - apply Log; [apply land_mod; lia|]. unfold a, b. rewrite <-land_mod by lia. apply Z.mod_pos_bound. lia.
  - apply Log; [apply lor_mod; lia|]. unfold a, b. rewrite <-lor_mod by lia. apply Z.mod_pos_bound. lia.
  - apply Log; [apply lxor_mod; lia|]. unfold a, b. rewrite <-lxor_mod by lia. apply Z.mod_pos_bound. lia.
  - split; [|by apply add_status]. unfold add64. rewrite wrap_mod by lia. unfold a, b. by rewrite <-Zplus_mod.
  - split; [|rewrite cmp_mod by done; by apply cmp_status]. unfold sub64. rewrite wrap_mod by lia. unfold a, b. by rewrite <-Zminus_mod.
  - split; [unfold sub64; rewrite wrap_mod by lia; unfold a; by rewrite (Zminus_mod_idemp_r 0 left)|].
    rewrite cmp_mod by done. rewrite Z.mod_0_l by lia. fold w a.
    pose proof (cmp_status old 0 a size S U ltac:(lia) A) as T. cbv zeta in T. fold w in T.
    replace (sint w 0) with 0 in T by (unfold sint; rewrite Z.mod_0_l by lia; by rewrite (proj2 (Z.ltb_lt _ _)) by lia). exact T.
  - split; [|by apply adc_status]. unfold add64. rewrite wrap_mod by lia. rewrite Zplus_mod, wrap_mod, <-Zplus_mod by lia.
    unfold a, b. by rewrite <-(Zplus_mod_idemp_l (left + right)), (Zplus_mod left right), Zplus_mod_idemp_l.
  - split; [|by apply sbb_status]. unfold sub64. rewrite wrap_mod by lia. rewrite Zminus_mod, wrap_mod, <-Zminus_mod by lia.
    unfold a, b. by rewrite <-(Zminus_mod_idemp_l (left - right)), (Zminus_mod left right), Zminus_mod_idemp_l.
Qed.

(** ** Conditions *)

(** What condition [cc] (1 to 16) says after a comparison of [a] and [b], by the names
    of the conditional instructions: O, NO, B, AE, E, NE, BE, A, S, NS, P, NP, L, GE, LE, G. *)
Definition condition (cc w a b : Z) : bool :=
  let sa := sint w a in
  let sb := sint w b in
  let d := (a - b) mod 2 ^ w in
  let n := cc - 1 in
  if n =? 0 then overflows w (sa - sb)
  else if n =? 1 then negb (overflows w (sa - sb))
  else if n =? 2 then a <? b
  else if n =? 3 then b <=? a
  else if n =? 4 then a =? b
  else if n =? 5 then negb (a =? b)
  else if n =? 6 then a <=? b
  else if n =? 7 then b <? a
  else if n =? 8 then Z.testbit d (w - 1)
  else if n =? 9 then negb (Z.testbit d (w - 1))
  else if n =? 10 then even_parity d
  else if n =? 11 then negb (even_parity d)
  else if n =? 12 then sa <? sb
  else if n =? 13 then sb <=? sa
  else if n =? 14 then sa <=? sb
  else sb <? sa.

Lemma xorb_negb_eqb x y : xorb x y = negb (eqb x y).
Proof. by destruct x, y. Qed.

Lemma less_or_equal x y : (x <? y) || (x =? y) = (x <=? y).
Proof. destruct (Z.ltb_spec x y), (Z.eqb_spec x y), (Z.leb_spec x y); try done; lia. Qed.

Lemma greater x y : negb (x <? y) && negb (x =? y) = (y <? x).
Proof. destruct (Z.ltb_spec x y), (Z.eqb_spec x y), (Z.ltb_spec y x); try done; lia. Qed.

Lemma signed_less w a b : 0 < w → 0 ≤ a < 2 ^ w → 0 ≤ b < 2 ^ w →
  xorb (Z.testbit ((a - b) mod 2 ^ w) (w - 1)) (overflows w (sint w a - sint w b)) = (sint w a <? sint w b).
Proof.
  intros W A B. set (r := (a - b) mod 2 ^ w). pose proof (Z.mod_pos_bound (a - b) (2 ^ w) ltac:(lia)) as R. fold r in R.
  rewrite top_bit by done. rewrite !sint_small by done. unfold overflows.
  assert (2 ^ w = 2 * 2 ^ (w - 1)) as E by (rewrite <-Z.pow_succ_r by lia; f_equal; lia).
  assert (r = a - b ∨ r = a - b + 2 ^ w) as D.
  { destruct (Z.le_gt_cases b a); [left; unfold r; apply Z.mod_small; lia|right].
    unfold r. rewrite <-(Z.mod_add _ 1) by lia. rewrite Z.mul_1_l. apply Z.mod_small. lia. }
  clearbody r. set (p := 2 ^ (w - 1)) in *. clearbody p. rewrite E in *.
  repeat match goal with |- context [?x <? ?y] => destruct (Z.ltb_spec x y) | |- context [?x <=? ?y] => destruct (Z.leb_spec x y) end;
    cbn [negb xorb andb]; try done; lia.
Qed.

Lemma zero_difference w a b : 0 < w → 0 ≤ a < 2 ^ w → 0 ≤ b < 2 ^ w → ((a - b) mod 2 ^ w =? 0) = (a =? b).
Proof.
  intros W A B. destruct (Z.eqb_spec a b) as [->|N]; [by rewrite Z.sub_diag, Z.mod_0_l by lia|]. apply Z.eqb_neq.
  intros E. apply Z.mod_divide in E as [k E]; [|lia]. assert (k = 0) by nia. lia.
Qed.

(** Conditional instructions decide what the comparison decided. After an emulated
    comparison of any two operands of any size, each of the sixteen conditions holds
    exactly when the unsigned or signed relation it is named after does. *)
Theorem condition_after_cmp (cc size old left right : Z) : sized size → u64 old → 1 ≤ cc ≤ 16 →
  let w := mmio_bit_width size in
  mmio_cc_taken cc (mmio_cmp_rflags old left right size) = condition cc w (left mod 2 ^ w) (right mod 2 ^ w).
Proof.
  intros S U C w. pose proof (width_pos size S) as W. fold w in W. rewrite cmp_mod by done. fold w.
  set (a := left mod 2 ^ w). set (b := right mod 2 ^ w).
  assert (0 ≤ a < 2 ^ w ∧ 0 ≤ b < 2 ^ w) as [A B] by (split; apply Z.mod_pos_bound; lia).
  pose proof (cmp_status old a b size S U A B) as T. cbv zeta in T. fold w in T.
  set (f := mmio_cmp_rflags old a b size) in *. clearbody f.
  pose proof (T 0 ltac:(lia)) as T0. pose proof (T 2 ltac:(lia)) as T2. pose proof (T 6 ltac:(lia)) as T6.
  pose proof (T 7 ltac:(lia)) as T7. pose proof (T 11 ltac:(lia)) as T11. clear T.
  unfold status_of in T0, T2, T6, T7, T11. cbn [Z.eqb Pos.eqb] in T0, T2, T6, T7, T11.
  rewrite zero_difference in T6 by (done || lia). pose proof (signed_less w a b ltac:(lia) A B) as L.
  assert (carries w (a - b) = (a <? b)) as Cr.
  { unfold carries. destruct (Z.ltb_spec a b), (Z.leb_spec 0 (a - b)), (Z.ltb_spec (a - b) (2 ^ w)); try done; lia. }
  rewrite Cr in T0. unfold mmio_cc_taken, condition. cbv zeta. rewrite !bit_tested, bit0_test by done. rewrite T0, T2, T6, T7, T11.
  rewrite (proj2 (Z.eqb_neq cc 0)), (proj2 (Z.ltb_ge 16 cc)) by lia. cbn [orb].
  assert ((a =? b) = (sint w a =? sint w b)) as Eq.
  { destruct (Z.eqb_spec a b) as [->|N]; [by rewrite Z.eqb_refl|]. symmetry. apply Z.eqb_neq. intros X.
    destruct (sint_range w a ltac:(lia)) as [_ Ma], (sint_range w b ltac:(lia)) as [_ Mb]. rewrite X in Ma. rewrite Ma in Mb.
    rewrite !Z.mod_small in Mb by done. done. }
  assert (eqb (Z.testbit ((a - b) mod 2 ^ w) (w - 1)) (overflows w (sint w a - sint w b)) = (sint w b <=? sint w a)) as Ge.
  { rewrite xorb_negb_eqb in L. rewrite Z.leb_antisym, <-L. by rewrite negb_involutive. }
  rewrite L, Ge. clear T0 T2 T6 T7 T11 L Ge Cr.
  destruct (cc - 1 =? 0); [done|]. destruct (cc - 1 =? 1); [done|]. destruct (cc - 1 =? 2); [done|].
  destruct (cc - 1 =? 3); [symmetry; apply Z.leb_antisym|]. destruct (cc - 1 =? 4); [done|]. destruct (cc - 1 =? 5); [done|].
  destruct (cc - 1 =? 6); [apply less_or_equal|]. destruct (cc - 1 =? 7); [apply greater|].
  destruct (cc - 1 =? 8); [done|]. destruct (cc - 1 =? 9); [done|]. destruct (cc - 1 =? 10); [done|]. destruct (cc - 1 =? 11); [done|].
  destruct (cc - 1 =? 12); [done|]. destruct (cc - 1 =? 13); [done|]. rewrite Eq. destruct (cc - 1 =? 14); [by rewrite orb_comm, less_or_equal|].
  rewrite (Z.leb_antisym (sint w a)), andb_comm. apply greater.
Qed.

(** ** Shifts and rotates, one bit at a time *)

(** A register of [w] bits moved by one, with [x] coming in. *)
Definition in_left (w a : Z) (x : bool) : Z := Z.lor (Z.shiftl a 1 mod 2 ^ w) (Z.b2z x).
Definition in_right (w a : Z) (x : bool) : Z := Z.lor (Z.shiftr a 1) (Z.shiftl (Z.b2z x) (w - 1)).

(** One step of a shift or rotate on operand and carry. *)
Definition shift_step (alu w : Z) (s : Z * bool) : Z * bool :=
  let '(a, cf) := s in
  let top := Z.testbit a (w - 1) in
  let low := Z.testbit a 0 in
  if alu =? MMIO_ALU_SHL then (in_left w a false, top)
  else if alu =? MMIO_ALU_SHR then (in_right w a false, low)
  else if alu =? MMIO_ALU_SAR then (in_right w a top, low)
  else if alu =? MMIO_ALU_ROL then (in_left w a top, top)
  else if alu =? MMIO_ALU_ROR then (in_right w a low, low)
  else if alu =? MMIO_ALU_RCL then (in_left w a cf, top)
  else (in_right w a cf, low).

Definition shift_ref (alu w n a : Z) (cf : bool) : Z * bool := Nat.iter (Z.to_nat n) (shift_step alu w) (a, cf).

(** State [s] has the bits [f] and the carry [c]. *)
Definition has_bits (w : Z) (s : Z * bool) (f : Z → bool) (c : bool) : Prop :=
  below w s.1 ∧ (∀ i, 0 ≤ i < w → Z.testbit s.1 i = f i) ∧ s.2 = c.

Lemma b2z_bit x i : Z.testbit (Z.b2z x) i = x && (i =? 0).
Proof.
  destruct x; cbn [Z.b2z andb]; [by apply (one_bit 0 i)|apply Z.bits_0].
Qed.

Lemma below_b2z w x : 0 < w → below w (Z.b2z x).
Proof. intros W. apply (below_mono 1); [lia|]. by destruct x. Qed.

Lemma in_left_bits w a x : 0 < w → below w a →
  below w (in_left w a x) ∧ ∀ i, 0 ≤ i < w → Z.testbit (in_left w a x) i = if i =? 0 then x else Z.testbit a (i - 1).
Proof.
  intros W A. split.
  - apply below_lor; [lia| |by apply below_b2z]. apply Z.mod_pos_bound. lia.
  - intros i I. unfold in_left. rewrite Z.lor_spec, b2z_bit, Z.mod_pow2_bits_low, Z.shiftl_spec by lia.
    destruct (Z.eqb_spec i 0) as [->|N]; [rewrite Z.testbit_neg_r by lia; by rewrite andb_true_r|]. by rewrite andb_false_r, orb_false_r.
Qed.

Lemma in_right_bits w a x : 0 < w → below w a →
  below w (in_right w a x) ∧ ∀ i, 0 ≤ i < w → Z.testbit (in_right w a x) i = if i =? w - 1 then x else Z.testbit a (i + 1).
Proof.
  intros W A. split.
  - apply below_lor; [lia| |].
    + destruct A as [A1 A2]. unfold below. rewrite Z.shiftr_div_pow2 by lia. change (2 ^ 1) with 2. Z.to_euclidean_division_equations; lia.
    + destruct x; cbn [Z.b2z]; [apply below_one_bit; lia|rewrite Z.shiftl_0_l; split; lia].
  - intros i I. unfold in_right. rewrite Z.lor_spec, Z.shiftr_spec, Z.shiftl_spec, b2z_bit by lia.
    destruct (Z.eqb_spec i (w - 1)) as [->|N].
    + rewrite Z.sub_diag, Z.eqb_refl, andb_true_r. rewrite (below_high w) by (done || lia). done.
    + rewrite (proj2 (Z.eqb_neq (i - (w - 1)) 0)) by lia. by rewrite andb_false_r, orb_false_r.
Qed.

Lemma mod_pred i n w : 0 < w → ((i - 1) mod w - n) mod w = (i - (n + 1)) mod w.
Proof. intros. rewrite Zminus_mod_idemp_l. f_equal. lia. Qed.

Lemma mod_succ i n w : 0 < w → ((i + 1) mod w + n) mod w = (i + (n + 1)) mod w.
Proof. intros. rewrite Zplus_mod_idemp_l. f_equal. lia. Qed.

Section Closed.
Context (w a : Z) (cf : bool) (W : 0 < w) (A : below w a).

(** Carry above operand. *)
Definition reg_bit (i : Z) : bool := if i =? w then cf else Z.testbit a i.

Lemma shl_closed n : has_bits w (Nat.iter n (shift_step MMIO_ALU_SHL w) (a, cf)) (λ i, Z.testbit a (i - Z.of_nat n)) (reg_bit (w - Z.of_nat n)).
Proof.
  induction n as [|n IH]; [unfold has_bits, reg_bit; cbn [Nat.iter fst snd]; rewrite Z.sub_0_r, Z.eqb_refl; split_and!; [done|intros; by rewrite Z.sub_0_r|done]|].
  rewrite Nat.iter_succ. destruct (Nat.iter n _ _) as [b c]. destruct IH as (B & F & _). cbn [fst snd] in *.
  unfold shift_step; alu_eval. destruct (in_left_bits w b false W B) as [B' F']. split_and!; [done| |].
  - intros i I. cbn [fst]. rewrite F' by done. destruct (Z.eqb_spec i 0) as [->|N]; [by rewrite Z.testbit_neg_r by lia|].
    rewrite F by lia. f_equal. lia.
  - cbn [snd]. rewrite F by lia. unfold reg_bit. rewrite (proj2 (Z.eqb_neq _ _)) by lia. f_equal. lia.
Qed.

Lemma shr_closed n : has_bits w (Nat.iter n (shift_step MMIO_ALU_SHR w) (a, cf)) (λ i, Z.testbit a (i + Z.of_nat n))
  (if (n =? 0)%nat then cf else Z.testbit a (Z.of_nat n - 1)).
Proof.
  induction n as [|n IH]; [split_and!; [done|intros; by rewrite Z.add_0_r|done]|].
  rewrite Nat.iter_succ. destruct (Nat.iter n _ _) as [b c]. destruct IH as (B & F & _). cbn [fst snd] in *.
  unfold shift_step; alu_eval. destruct (in_right_bits w b false W B) as [B' F']. split_and!; [done| |].
  - intros i I. cbn [fst]. rewrite F' by done. destruct (Z.eqb_spec i (w - 1)) as [->|N]; [by rewrite (below_high w) by (done || lia)|].
    rewrite F by lia. f_equal. lia.
  - cbn [snd Nat.eqb]. rewrite F by lia. f_equal. lia.
Qed.

Lemma sar_closed n : has_bits w (Nat.iter n (shift_step MMIO_ALU_SAR w) (a, cf)) (λ i, Z.testbit a (Z.min (i + Z.of_nat n) (w - 1)))
  (if (n =? 0)%nat then cf else Z.testbit a (Z.min (Z.of_nat n - 1) (w - 1))).
Proof.
  induction n as [|n IH]; [split_and!; [done|intros; by rewrite Z.add_0_r, Z.min_l by lia|done]|].
  rewrite Nat.iter_succ. destruct (Nat.iter n _ _) as [b c]. destruct IH as (B & F & _). cbn [fst snd] in *.
  unfold shift_step; alu_eval. destruct (in_right_bits w b (Z.testbit b (w - 1)) W B) as [B' F']. split_and!; [done| |].
  - intros i I. cbn [fst]. rewrite F' by done. destruct (Z.eqb_spec i (w - 1)) as [->|N]; rewrite F by lia; f_equal; lia.
  - cbn [snd Nat.eqb]. rewrite F by lia. f_equal. lia.
Qed.

Lemma rol_closed n : has_bits w (Nat.iter n (shift_step MMIO_ALU_ROL w) (a, cf)) (λ i, Z.testbit a ((i - Z.of_nat n) mod w))
  (if (n =? 0)%nat then cf else Z.testbit a ((- Z.of_nat n) mod w)).
Proof.
  induction n as [|n IH]; [split_and!; [done|intros; by rewrite Z.sub_0_r, Z.mod_small by lia|done]|].
  rewrite Nat.iter_succ. destruct (Nat.iter n _ _) as [b c]. destruct IH as (B & F & _). cbn [fst snd] in *.
  unfold shift_step; alu_eval. destruct (in_left_bits w b (Z.testbit b (w - 1)) W B) as [B' F'].
  assert (Z.testbit b (w - 1) = Z.testbit a ((- Z.of_nat (S n)) mod w)) as T.
  { rewrite F by lia. f_equal. rewrite <-(Z.mod_add (- Z.of_nat (S n)) 1 w) by lia. f_equal. lia. }
  split_and!; [done| |exact T].
  intros i I. cbn [fst]. rewrite F' by done. destruct (Z.eqb_spec i 0) as [->|N]; [rewrite T; do 2 f_equal; lia|].
  rewrite F by lia. do 2 f_equal. lia.
Qed.

Lemma ror_closed n : has_bits w (Nat.iter n (shift_step MMIO_ALU_ROR w) (a, cf)) (λ i, Z.testbit a ((i + Z.of_nat n) mod w))
  (if (n =? 0)%nat then cf else Z.testbit a ((Z.of_nat n - 1) mod w)).
Proof.
  induction n as [|n IH]; [split_and!; [done|intros; by rewrite Z.add_0_r, Z.mod_small by lia|done]|].
  rewrite Nat.iter_succ. destruct (Nat.iter n _ _) as [b c]. destruct IH as (B & F & _). cbn [fst snd] in *.
  unfold shift_step; alu_eval. destruct (in_right_bits w b (Z.testbit b 0) W B) as [B' F']. split_and!; [done| |].
  - intros i I. cbn [fst]. rewrite F' by done. destruct (Z.eqb_spec i (w - 1)) as [->|N]; rewrite F by lia; f_equal; [|f_equal; lia].
    rewrite <-(Z.mod_add (0 + Z.of_nat n) 1 w) by lia. f_equal. lia.
  - cbn [snd Nat.eqb]. rewrite F by lia. do 2 f_equal. lia.
Qed.

Lemma rcl_closed n : has_bits w (Nat.iter n (shift_step MMIO_ALU_RCL w) (a, cf)) (λ i, reg_bit ((i - Z.of_nat n) mod (w + 1)))
  (reg_bit ((w - Z.of_nat n) mod (w + 1))).
Proof.
  induction n as [|n IH].
  { unfold has_bits, reg_bit. cbn [Nat.iter fst snd]. rewrite Z.sub_0_r, Z.mod_small, Z.eqb_refl by lia. split_and!; [done| |done].
    intros i I. rewrite Z.sub_0_r, Z.mod_small by lia. by rewrite (proj2 (Z.eqb_neq _ _)) by lia. }
  rewrite Nat.iter_succ. destruct (Nat.iter n _ _) as [b c]. destruct IH as (B & F & C). cbn [fst snd] in *.
  unfold shift_step; alu_eval. destruct (in_left_bits w b c W B) as [B' F']. split_and!; [done| |].
  - intros i I. cbn [fst]. rewrite F' by done. destruct (Z.eqb_spec i 0) as [->|N].
    + rewrite C. f_equal. rewrite <-(Z.mod_add (0 - Z.of_nat (S n)) 1 (w + 1)) by lia. f_equal. lia.
    + rewrite F by lia. do 2 f_equal. lia.
  - cbn [snd]. rewrite F by lia. do 2 f_equal. lia.
Qed.

Lemma rcr_closed n : has_bits w (Nat.iter n (shift_step MMIO_ALU_RCR w) (a, cf)) (λ i, reg_bit ((i + Z.of_nat n) mod (w + 1)))
  (reg_bit ((w + Z.of_nat n) mod (w + 1))).
Proof.
  induction n as [|n IH].
  { unfold has_bits, reg_bit. cbn [Nat.iter fst snd]. rewrite Z.add_0_r, Z.mod_small, Z.eqb_refl by lia. split_and!; [done| |done].
    intros i I. rewrite Z.add_0_r, Z.mod_small by lia. by rewrite (proj2 (Z.eqb_neq _ _)) by lia. }
  rewrite Nat.iter_succ. destruct (Nat.iter n _ _) as [b c]. destruct IH as (B & F & C). cbn [fst snd] in *.
  unfold shift_step; alu_eval. destruct (in_right_bits w b c W B) as [B' F']. split_and!; [done| |].
  - intros i I. cbn [fst]. rewrite F' by done. destruct (Z.eqb_spec i (w - 1)) as [->|N].
    + rewrite C. do 2 f_equal. lia.
    + rewrite F by lia. do 2 f_equal. lia.
  - cbn [snd]. rewrite F by lia. f_equal. rewrite <-(Z.mod_add (0 + Z.of_nat n) 1 (w + 1)) by lia. f_equal. lia.
Qed.

End Closed.

Lemma amt_range count size : 0 ≤ mmio_shift_amt count size < 64.
Proof.
  unfold mmio_shift_amt. destruct (size =? 8).
  - change 0x3F with (Z.ones 6). rewrite Z.land_ones by done. by apply Z.mod_pos_bound.
  - change 0x1F with (Z.ones 5). rewrite Z.land_ones by done. pose proof (Z.mod_pos_bound (count mod 2 ^ 32) (2 ^ 5) eq_refl). lia.
Qed.

Lemma has_bits_eq w s f c x : has_bits w s f c → below w x → (∀ i, 0 ≤ i < w → Z.testbit x i = f i) → x = s.1.
Proof.
  intros (B & F & _) X E. apply Z.bits_inj'. intros i I. destruct (Z.lt_ge_cases i w); [by rewrite E, F by lia|].
  by rewrite !(below_high w) by done.
Qed.

Lemma below_mod w x : 0 ≤ w → below w (x mod 2 ^ w).
Proof. intros. apply Z.mod_pos_bound. lia. Qed.

Lemma mask_bit size x i : sized size → 0 ≤ i < mmio_bit_width size → Z.testbit (Z.land x (mmio_size_mask size)) i = Z.testbit x i.
Proof. intros S I. rewrite mask_mod by done. by rewrite Z.mod_pow2_bits_low by lia. Qed.

Lemma shl64_bit a n i : 0 ≤ i < 64 → Z.testbit (shl64 a n) i = Z.testbit a (i - n).
Proof. intros I. unfold shl64, wrap64. change W64 with (2 ^ 64). by rewrite Z.mod_pow2_bits_low, Z.shiftl_spec by lia. Qed.

Lemma shl128_bit a n i : 0 ≤ i < 128 → Z.testbit (shl128 a n) i = Z.testbit a (i - n).
Proof. intros I. unfold shl128. by rewrite Z.mod_pow2_bits_low, Z.shiftl_spec by lia. Qed.

Lemma wrap_bit x i : 0 ≤ i < 64 → Z.testbit (wrap64 x) i = Z.testbit x i.
Proof. intros I. unfold wrap64. change W64 with (2 ^ 64). by rewrite Z.mod_pow2_bits_low by lia. Qed.

Lemma sint_bit w a j : 0 < w → below w a → 0 ≤ j → Z.testbit (sint w a) j = Z.testbit a (Z.min j (w - 1)).
Proof.
  intros W A J. rewrite sint_small by done. pose proof (top_bit w a W A) as T.
  destruct (Z.ltb_spec a (2 ^ (w - 1))) as [L|L].
  - rewrite (proj2 (Z.leb_gt _ _)) in T by lia. destruct (Z.le_gt_cases j (w - 1)); [by rewrite Z.min_l by lia|].
    rewrite Z.min_r, T by lia. apply (below_high w); [done|lia].
  - rewrite (proj2 (Z.leb_le _ _)) in T by lia. destruct (Z.lt_ge_cases j w).
    + rewrite Z.min_l by lia. rewrite <-(Z.mod_pow2_bits_low (a - 2 ^ w) w) by lia.
      rewrite <-(Z.mod_add (a - 2 ^ w) 1) by lia. rewrite Z.mul_1_l, Z.sub_add. by rewrite Z.mod_small by done.
    + rewrite Z.min_r, T by lia. replace j with (j - w + w) by lia. rewrite <-Z.div_pow2_bits by lia.
      replace ((a - 2 ^ w) / 2 ^ w) with (-1); [apply Z.bits_m1; lia|].
      destruct A as [A1 A2]. apply (Z.div_unique_pos _ _ _ a); lia.
Qed.

(** Where a bit comes from in a register of [m] bits rotated by [k = n mod m]. *)
Lemma left_origin i n m : 0 ≤ i < m → 0 < n mod m →
  (i - n) mod m = if i <? n mod m then i + m - n mod m else i - n mod m.
Proof.
  intros I K. pose proof (Z.mod_pos_bound n m ltac:(lia)) as B. rewrite <-Zminus_mod_idemp_r.
  destruct (Z.ltb_spec i (n mod m)); [|by rewrite Z.mod_small by lia].
  rewrite <-(Z.mod_add _ 1) by lia. rewrite Z.mod_small by lia. lia.
Qed.

Lemma right_origin i n m : 0 ≤ i < m → 0 < n mod m →
  (i + n) mod m = if i + n mod m <? m then i + n mod m else i + n mod m - m.
Proof.
  intros I K. pose proof (Z.mod_pos_bound n m ltac:(lia)) as B. rewrite <-Zplus_mod_idemp_r.
  destruct (Z.ltb_spec (i + n mod m) m); [by rewrite Z.mod_small by lia|].
  rewrite <-(Z.mod_add _ (-1)) by lia. rewrite Z.mod_small by lia. lia.
Qed.

(** A left part moved up by [k] joined with the rest moved down, as a rotate. *)
Lemma rotl_bit v hi n m i : below m v → 0 ≤ i < m → 0 < n mod m → Z.testbit hi i = Z.testbit v (i - n mod m) →
  Z.testbit (Z.lor hi (Z.shiftr v (m - n mod m))) i = Z.testbit v ((i - n) mod m).
Proof.
  intros V I K H. pose proof (Z.mod_pos_bound n m ltac:(lia)) as B. rewrite Z.lor_spec, H, Z.shiftr_spec, left_origin by (done || lia).
  destruct (Z.ltb_spec i (n mod m)).
  - rewrite Z.testbit_neg_r by lia. cbn [orb]. f_equal. lia.
  - rewrite (below_high m v (i + (m - n mod m))) by (done || lia). by rewrite orb_false_r.
Qed.

Lemma rotr_bit v hi n m i : below m v → 0 ≤ i < m → 0 < n mod m → Z.testbit hi i = Z.testbit v (i - (m - n mod m)) →
  Z.testbit (Z.lor (Z.shiftr v (n mod m)) hi) i = Z.testbit v ((i + n) mod m).
Proof.
  intros V I K H. pose proof (Z.mod_pos_bound n m ltac:(lia)) as B. rewrite Z.lor_spec, H, Z.shiftr_spec, right_origin by (done || lia).
  destruct (Z.ltb_spec (i + n mod m) m).
  - rewrite (Z.testbit_neg_r v (i - _)) by lia. by rewrite orb_false_r.
  - rewrite (below_high m v (i + n mod m)) by (done || lia). cbn [orb]. f_equal. lia.
Qed.

Lemma with_carry_bits a w cf : 0 < w ≤ 64 → below w a →
  below (w + 1) (with_carry a w cf) ∧ ∀ i, 0 ≤ i ≤ w → Z.testbit (with_carry a w cf) i = reg_bit w a cf i.
Proof.
  intros W A. assert (shl128 (if cf then 1 else 0) w = Z.shiftl (Z.b2z cf) w) as E.
  { unfold shl128. destruct cf; cbn [Z.b2z]; [|by rewrite Z.shiftl_0_l]. apply Z.mod_small. rewrite Z.shiftl_1_l. split; [lia|].
    apply Z.pow_lt_mono_r; lia. }
  unfold with_carry. rewrite E. split.
  - apply below_lor; [lia|by apply (below_mono w); [lia|]|]. destruct cf; cbn [Z.b2z]; [apply below_one_bit; lia|rewrite Z.shiftl_0_l; split; lia].
  - intros i I. rewrite Z.lor_spec, Z.shiftl_spec, b2z_bit by lia. unfold reg_bit. destruct (Z.eqb_spec i w) as [->|N].
    + rewrite (below_high w) by (done || lia). by rewrite Z.sub_diag, andb_true_r.
    + rewrite (proj2 (Z.eqb_neq (i - w) 0)) by lia. by rewrite andb_false_r, orb_false_r.
Qed.

Lemma rot_left_bit a w cf n i : 0 < w ≤ 64 → below w a → 0 ≤ i ≤ w → 0 < n mod (w + 1) →
  Z.testbit (rot_left (with_carry a w cf) (n mod (w + 1)) (w + 1)) i = reg_bit w a cf ((i - n) mod (w + 1)).
Proof.
  intros W A I K. destruct (with_carry_bits a w cf W A) as [B F]. unfold rot_left. rewrite (rotl_bit _ _ n) by (try done; try lia; apply shl128_bit; lia).
  pose proof (Z.mod_pos_bound (i - n) (w + 1)). rewrite F by lia. done.
Qed.

Lemma rot_right_bit a w cf n i : 0 < w ≤ 64 → below w a → 0 ≤ i ≤ w → 0 < n mod (w + 1) →
  Z.testbit (rot_right (with_carry a w cf) (n mod (w + 1)) (w + 1)) i = reg_bit w a cf ((i + n) mod (w + 1)).
Proof.
  intros W A I K. destruct (with_carry_bits a w cf W A) as [B F]. unfold rot_right. rewrite (rotr_bit _ _ n) by (try done; try lia; apply shl128_bit; lia).
  pose proof (Z.mod_pos_bound (i + n) (w + 1)). rewrite F by lia. done.
Qed.

Definition shifts : list Z :=
  [MMIO_ALU_ROL; MMIO_ALU_ROR; MMIO_ALU_RCL; MMIO_ALU_RCR; MMIO_ALU_SHL; MMIO_ALU_SHR; MMIO_ALU_SAR].

(** The bits and the carry after [n] steps. *)
Definition shifted (alu w n a : Z) (cf : bool) (i : Z) : bool :=
  if alu =? MMIO_ALU_SHL then Z.testbit a (i - n)
  else if alu =? MMIO_ALU_SHR then Z.testbit a (i + n)
  else if alu =? MMIO_ALU_SAR then Z.testbit a (Z.min (i + n) (w - 1))
  else if alu =? MMIO_ALU_ROL then Z.testbit a ((i - n) mod w)
  else if alu =? MMIO_ALU_ROR then Z.testbit a ((i + n) mod w)
  else if alu =? MMIO_ALU_RCL then reg_bit w a cf ((i - n) mod (w + 1))
  else reg_bit w a cf ((i + n) mod (w + 1)).

Definition carried (alu w n a : Z) (cf : bool) : bool :=
  if alu =? MMIO_ALU_SHL then Z.testbit a (w - n)
  else if alu =? MMIO_ALU_SHR then Z.testbit a (n - 1)
  else if alu =? MMIO_ALU_SAR then Z.testbit a (Z.min (n - 1) (w - 1))
  else if alu =? MMIO_ALU_ROL then Z.testbit a ((- n) mod w)
  else if alu =? MMIO_ALU_ROR then Z.testbit a ((n - 1) mod w)
  else if alu =? MMIO_ALU_RCL then reg_bit w a cf ((w - n) mod (w + 1))
  else reg_bit w a cf ((w + n) mod (w + 1)).

Lemma ref_bits alu w n a cf : alu ∈ shifts → 0 < w → below w a → 0 ≤ n →
  has_bits w (shift_ref alu w n a cf) (shifted alu w n a cf) (if n =? 0 then cf else carried alu w n a cf).
Proof.
  intros L W A N. unfold shift_ref. assert (n = Z.of_nat (Z.to_nat n)) as En by lia. revert En. generalize (Z.to_nat n) as k. intros k ->.
  assert ((Z.of_nat k =? 0) = (k =? 0)%nat) as Ek by (by destruct k).
  repeat (apply elem_of_cons in L as [->|L]); [..|by apply elem_of_nil in L]; unfold shifted, carried; alu_eval; rewrite ?Ek.
  - by apply rol_closed.
  - by apply ror_closed.
  - destruct (rcl_closed w a cf W A k) as (B & F & C). split_and!; [done|done|]. etransitivity; [exact C|]. destruct k; [|done].
    cbn [Nat.eqb]. rewrite Z.sub_0_r, Z.mod_small by lia. unfold reg_bit. by rewrite Z.eqb_refl.
  - destruct (rcr_closed w a cf W A k) as (B & F & C). split_and!; [done|done|]. etransitivity; [exact C|]. destruct k; [|done].
    cbn [Nat.eqb]. rewrite Z.add_0_r, Z.mod_small by lia. unfold reg_bit. by rewrite Z.eqb_refl.
  - destruct (shl_closed w a cf W A k) as (B & F & C). split_and!; [done|done|]. etransitivity; [exact C|]. unfold reg_bit.
    destruct k; [cbn; by rewrite Z.sub_0_r, Z.eqb_refl|]. by rewrite (proj2 (Z.eqb_neq _ _)) by lia.
  - by apply shr_closed.
  - by apply sar_closed.
Qed.

Lemma rotate_none w n a cf alu i : 0 < w → 0 ≤ i < w → n mod w = 0 → alu = MMIO_ALU_ROL ∨ alu = MMIO_ALU_ROR →
  shifted alu w n a cf i = Z.testbit a i.
Proof.
  intros W I K [-> | ->]; unfold shifted; alu_eval; [rewrite <-Zminus_mod_idemp_r|rewrite <-Zplus_mod_idemp_r]; rewrite K;
    [rewrite Z.sub_0_r|rewrite Z.add_0_r]; by rewrite Z.mod_small by lia.
Qed.

Lemma carry_rotate_none w n a cf alu i : 0 < w → 0 ≤ i ≤ w → n mod (w + 1) = 0 → alu = MMIO_ALU_RCL ∨ alu = MMIO_ALU_RCR →
  shifted alu w n a cf i = reg_bit w a cf i.
Proof.
  intros W I K [-> | ->]; unfold shifted; alu_eval; [rewrite <-Zminus_mod_idemp_r|rewrite <-Zplus_mod_idemp_r]; rewrite K;
    [rewrite Z.sub_0_r|rewrite Z.add_0_r]; by rewrite Z.mod_small by lia.
Qed.

Lemma reg_bit_low w a cf i : i < w → reg_bit w a cf i = Z.testbit a i.
Proof. intros. unfold reg_bit. by rewrite (proj2 (Z.eqb_neq _ _)) by lia. Qed.

(** The bits of the emulated result. *)
Lemma apply_bits alu size cur count cf : sized size → alu ∈ shifts →
  let w := mmio_bit_width size in
  let n := mmio_shift_amt count size in
  let a := cur mod 2 ^ w in
  below w (mmio_shift_apply cur count alu size cf) ∧
  (0 < n → ∀ i, 0 ≤ i < w → Z.testbit (mmio_shift_apply cur count alu size cf) i = shifted alu w n a cf i).
Proof.
  intros S L w n a. pose proof (width_pos size S) as W. fold w in W. pose proof (amt_range count size) as N. fold n in N.
  assert (below w a) as A by (apply below_mod; lia). unfold mmio_shift_apply. fold n w.
  rewrite mask_mod by done. fold w a. destruct (Z.eqb_spec n 0) as [E|E]; [split; [done|lia]|].
  assert (∀ x, below w (Z.land x (mmio_size_mask size))) as Bm by (intros x; rewrite mask_mod by done; apply below_mod; lia).
  assert (∀ x i, 0 ≤ i < w → Z.testbit (Z.land x (mmio_size_mask size)) i = Z.testbit x i) as Mb by (intros; by apply mask_bit).
  assert (below w 0) as B0 by (split; lia).
  repeat (apply elem_of_cons in L as [->|L]); [..|by apply elem_of_nil in L]; alu_eval.
  - destruct (Z.eqb_spec (n mod w) 0) as [K|K]; [split; [done|]; intros _ i I; symmetry; apply rotate_none; auto; lia|].
    split; [done|]. intros _ i I. pose proof (Z.mod_pos_bound n w ltac:(lia)). rewrite Mb by done. unfold shifted; alu_eval. apply rotl_bit; [done|done|lia|]. apply shl64_bit. lia.
  - destruct (Z.eqb_spec (n mod w) 0) as [K|K]; [split; [done|]; intros _ i I; symmetry; apply rotate_none; auto; lia|].
    split; [done|]. intros _ i I. pose proof (Z.mod_pos_bound n w ltac:(lia)). rewrite Mb by done. unfold shifted; alu_eval. apply rotr_bit; [done|done|lia|]. apply shl64_bit. lia.
  - destruct (Z.eqb_spec (n mod (w + 1)) 0) as [K|K].
    { split; [done|]. intros _ i I. rewrite carry_rotate_none by (auto; lia). symmetry. apply reg_bit_low. lia. }
    split; [done|]. intros _ i I. pose proof (Z.mod_pos_bound n (w + 1) ltac:(lia)). rewrite Mb, wrap_bit by lia. apply rot_left_bit; [lia|done|lia|lia].
  - destruct (Z.eqb_spec (n mod (w + 1)) 0) as [K|K].
    { split; [done|]. intros _ i I. rewrite carry_rotate_none by (auto; lia). symmetry. apply reg_bit_low. lia. }
    split; [done|]. intros _ i I. pose proof (Z.mod_pos_bound n (w + 1) ltac:(lia)). rewrite Mb, wrap_bit by lia. apply rot_right_bit; [lia|done|lia|lia].
  - unfold shifted; alu_eval. destruct (Z.leb_spec w n); [split; [done|]; intros _ i I; rewrite Z.bits_0; by rewrite Z.testbit_neg_r by lia|].
    split; [done|]. intros _ i I. rewrite Mb by done. apply shl64_bit. lia.
  - unfold shifted; alu_eval. destruct (Z.leb_spec w n); [split; [done|]; intros _ i I; rewrite Z.bits_0; by rewrite (below_high w) by (done || lia)|].
    split; [|intros _ i I; apply Z.shiftr_spec; lia]. destruct A as [A1 A2]. split; [by apply Z.shiftr_nonneg|].
    rewrite Z.shiftr_div_pow2 by lia. apply Z.le_lt_trans with a; [|done]. apply Z.div_le_upper_bound; nia.
  - unfold shifted; alu_eval. split; [done|]. intros _ i I. rewrite as_signed_sint by done. fold w.
    rewrite Mb, wrap_bit, Z.shiftr_spec, Z.min_l, sint_bit by (done || lia). done.
Qed.

Lemma apply_ref alu size cur count cf : sized size → alu ∈ shifts →
  let w := mmio_bit_width size in
  mmio_shift_apply cur count alu size cf = (shift_ref alu w (mmio_shift_amt count size) (cur mod 2 ^ w) cf).1.
Proof.
  intros S L w. pose proof (width_pos size S) as W. fold w in W. pose proof (amt_range count size) as N.
  destruct (apply_bits alu size cur count cf S L) as [B F]. fold w in B, F.
  destruct (Z.eqb_spec (mmio_shift_amt count size) 0) as [E|E].
  - unfold mmio_shift_apply. rewrite E. cbn [Z.eqb shift_ref Z.to_nat Nat.iter fst]. by rewrite mask_mod.
  - eapply has_bits_eq; [apply ref_bits; try done; [lia|apply below_mod; lia|lia]|done|]. by apply F; lia.
Qed.

Lemma shiftr_bit a k : Z.testbit (Z.shiftr a k) 0 = Z.testbit a k.
Proof. by rewrite Z.shiftr_spec, Z.add_0_l by lia. Qed.

Lemma top_shifted alu w n a cf : alu = MMIO_ALU_ROR → 0 < w → carried alu w n a cf = shifted alu w n a cf (w - 1).
Proof.
  intros -> W. unfold carried, shifted; alu_eval. f_equal. rewrite <-(Z.mod_add (n - 1) 1 w) by lia. f_equal. lia.
Qed.

Lemma cf_ref alu size cur count old : sized size → alu ∈ shifts →
  let w := mmio_bit_width size in
  let n := mmio_shift_amt count size in
  let a := cur mod 2 ^ w in
  let s := shift_ref alu w n a (Z.testbit old 0) in
  0 < n → shift_cf old a s.1 n alu size = s.2.
Proof.
  intros S L w n a s N. pose proof (width_pos size S) as W. fold w in W.
  assert (below w a) as A by (apply below_mod; lia).
  destruct (ref_bits alu w n a (Z.testbit old 0) L ltac:(lia) A ltac:(lia)) as (B & F & C). fold s in B, F, C.
  rewrite (proj2 (Z.eqb_neq n 0)) in C by lia. rewrite C. unfold shift_cf. fold w. rewrite !bit0_test, !sign_test by done. fold w.
  assert (n mod w = 0 ∨ 0 < n mod w) as Dw by (pose proof (Z.mod_pos_bound n w); lia).
  repeat (apply elem_of_cons in L as [->|L]); [..|by apply elem_of_nil in L].
  - alu_eval. destruct (Z.eqb_spec (n mod w) 0) as [K|K]; [|rewrite F by lia]; unfold carried, shifted; alu_eval; [|done].
    f_equal. rewrite <-Z.sub_0_l, <-Zminus_mod_idemp_r, K, Z.sub_0_r. by rewrite Z.mod_small by lia.
  - rewrite top_shifted by (done || lia). rewrite <-F by lia. alu_eval. destruct (Z.eqb_spec (n mod w) 0) as [K|K]; [|done].
    rewrite F by lia. symmetry. apply rotate_none; auto; lia.
  - unfold carried; alu_eval. destruct (Z.eqb_spec (n mod (w + 1)) 0) as [K|K].
    + rewrite <-Zminus_mod_idemp_r, K, Z.sub_0_r, Z.mod_small by lia. unfold reg_bit. by rewrite Z.eqb_refl.
    + rewrite shiftr_bit. pose proof (Z.mod_pos_bound n (w + 1)). apply rot_left_bit; [lia|done|lia|lia].
  - unfold carried; alu_eval. destruct (Z.eqb_spec (n mod (w + 1)) 0) as [K|K].
    + rewrite <-Zplus_mod_idemp_r, K, Z.add_0_r, Z.mod_small by lia. unfold reg_bit. by rewrite Z.eqb_refl.
    + rewrite shiftr_bit. pose proof (Z.mod_pos_bound n (w + 1)). apply rot_right_bit; [lia|done|lia|lia].
  - unfold carried; alu_eval. destruct (Z.ltb_spec w n); [by rewrite Z.testbit_neg_r by lia|].
    destruct (Z.eqb_spec n w) as [->|]; [by rewrite Z.sub_diag|apply shiftr_bit].
  - unfold carried; alu_eval. destruct (Z.ltb_spec w n); [by rewrite (below_high w) by (done || lia)|apply shiftr_bit].
  - unfold carried; alu_eval. destruct (Z.ltb_spec w n); [by rewrite Z.min_r by lia|rewrite Z.min_l by lia; apply shiftr_bit].
Qed.

(** The overflow flag of a shift by one is the change of the sign. *)
Lemma of_ref alu size cur count old : sized size → alu ∈ shifts →
  let w := mmio_bit_width size in
  let a := cur mod 2 ^ w in
  let s := shift_ref alu w 1 a (Z.testbit old 0) in
  mmio_shift_amt count size = 1 →
  shift_of a s.1 alu size s.2 = xorb (Z.testbit a (w - 1)) (Z.testbit s.1 (w - 1)).
Proof.
  intros S L w a s N. pose proof (width_pos size S) as W. fold w in W. assert (below w a) as A by (apply below_mod; lia).
  destruct (ref_bits alu w 1 a (Z.testbit old 0) L ltac:(lia) A ltac:(lia)) as (B & F & C). fold s in B, F, C. cbn [Z.eqb] in C.
  assert (Z.shiftr (mmio_sign_bit size) 1 = Z.shiftl 1 (w - 2)) as Sh.
  { rewrite sign_bit_pow by done. fold w. rewrite Z.shiftr_shiftl_l by lia. f_equal. lia. }
  unfold shift_of. rewrite !sign_test, Sh, bit_tested by (done || lia). fold w.
  pose proof (F (w - 1) ltac:(lia)) as Ft. pose proof (F (w - 2) ltac:(lia)) as Fn. unfold shifted, carried in *.
  repeat (apply elem_of_cons in L as [->|L]); [..|by apply elem_of_nil in L]; revert C Ft Fn; alu_eval; intros C Ft Fn.
  - rewrite C, xorb_comm. f_equal. f_equal. rewrite <-(Z.mod_add (-(1)) 1 w) by lia. rewrite Z.mod_small; lia.
  - rewrite xorb_comm. f_equal. rewrite Fn. f_equal. rewrite Z.mod_small; lia.
  - rewrite C, xorb_comm. f_equal. rewrite Z.mod_small by lia. apply reg_bit_low. lia.
  - rewrite xorb_comm. f_equal. rewrite Fn, Z.mod_small by lia. rewrite reg_bit_low by lia. f_equal. lia.
  - rewrite C. apply xorb_comm.
  - rewrite Ft. rewrite (below_high w a (w - 1 + 1)) by (done || lia). by rewrite xorb_false_r.
  - rewrite Ft, Z.min_r by lia. by rewrite xorb_nilpotent.
Qed.

(** The flags after a shift by [n > 0] from [a] to [r] with carry [c]: a shift sets the
    flags of the result, a rotate only carry and overflow. *)
Definition shift_status (alu old w n a r : Z) (c : bool) (i : Z) : bool :=
  let plain := (alu =? MMIO_ALU_SHL) || (alu =? MMIO_ALU_SHR) || (alu =? MMIO_ALU_SAR) in
  let ovf := if n =? 1 then xorb (Z.testbit a (w - 1)) (Z.testbit r (w - 1)) else negb plain && Z.testbit old 11 in
  if plain then status_of old w c ovf r i
  else if i =? 0 then c
  else if i =? 1 then true
  else if i =? 11 then ovf
  else Z.testbit old i.

Lemma clear_bit f k i : u64 f → 0 ≤ k → Z.testbit (Z.land f (bnot64 (Z.shiftl 1 k))) i = Z.testbit f i && negb (i =? k).
Proof. intros U K. rewrite land_bnot64 by done. by rewrite Z.ldiff_spec, one_bit. Qed.

Lemma clear_bit0 f i : u64 f → Z.testbit (Z.land f (bnot64 1)) i = Z.testbit f i && negb (i =? 0).
Proof. intros U. by apply (clear_bit f 0 i). Qed.

Lemma carry_bit f (c : bool) i : u64 f →
  Z.testbit (if c then Z.lor f 1 else Z.land f (bnot64 1)) i = if i =? 0 then c else Z.testbit f i.
Proof.
  intros U. destruct c.
  - rewrite Z.lor_spec, bit_of_1. destruct (i =? 0); [apply orb_true_r|apply orb_false_r].
  - rewrite clear_bit0 by done. destruct (i =? 0); [apply andb_false_r|apply andb_true_r].
Qed.

Lemma carry_u64 f (c : bool) : u64 f → u64 (if c then Z.lor f 1 else Z.land f (bnot64 1)).
Proof. intros U. destruct c; [by apply u64_lor|by apply u64_land]. Qed.

Lemma put_u64 f k b : u64 f → 0 ≤ k < 64 → u64 (put f (Z.shiftl 1 k) b).
Proof. intros U K. unfold put. destruct b; [|done]. apply u64_lor; [done|]. rewrite Z.shiftl_1_l. by apply u64_pow2. Qed.

Lemma test_u64 old r size : u64 old → u64 (mmio_test_rflags old r size).
Proof. intros U. unfold mmio_test_rflags. repeat (apply put_u64; [|lia]). by apply u64_land, u64_lor2. Qed.

(** Shifts and rotates are repeated one-bit steps. For every operand size, count and
    old flags, SHL, SHR, SAR, ROL, ROR, RCL and RCR give the operand and the carry that
    as many single steps as the masked count says give; a count of zero leaves the flags,
    a shift by one sets overflow when the sign changes, shifts set zero, sign and parity
    from the result, and nothing else changes. *)
Theorem shift_exact (alu size cur count old : Z) : sized size → alu ∈ shifts → u64 old →
  let w := mmio_bit_width size in
  let n := mmio_shift_amt count size in
  let a := cur mod 2 ^ w in
  let '(r, c) := shift_ref alu w n a (Z.testbit old 0) in
  mmio_shift_apply cur count alu size (Z.testbit old 0) = r ∧
  let f := mmio_shift_rflags old cur count r alu size in
  if n =? 0 then f = old else ∀ i, 0 ≤ i → Z.testbit f i = shift_status alu old w n a r c i.
Proof.
  intros S L U w n a. pose proof (width_pos size S) as W. fold w in W. pose proof (amt_range count size) as N. fold n in N.
  assert (below w a) as A by (apply below_mod; lia).
  pose proof (apply_ref alu size cur count (Z.testbit old 0) S L) as Ap. cbv zeta in Ap. fold w n a in Ap.
  pose proof (cf_ref alu size cur count old S L) as Cf. cbv zeta in Cf. fold w n a in Cf.
  pose proof (of_ref alu size cur count old S L) as Of. cbv zeta in Of. fold w n a in Of.
  pose proof (proj1 (ref_bits alu w n a (Z.testbit old 0) L ltac:(lia) A ltac:(lia))) as B.
  destruct (shift_ref alu w n a (Z.testbit old 0)) as [r c] eqn:R. cbn [fst snd] in *. split; [done|].
  unfold mmio_shift_rflags. fold n. destruct (Z.eqb_spec n 0) as [E|E]; [done|]. intros i I.
  rewrite !mask_mod by done. fold w a. rewrite (Z.mod_small r) by done. rewrite Cf by lia.
  set (plain := (alu =? MMIO_ALU_SHL) || (alu =? MMIO_ALU_SHR) || (alu =? MMIO_ALU_SAR)).
  set (f0 := if plain then _ else _).
  assert (u64 f0 ∧ ∀ i, 0 ≤ i → i ≠ 0 → Z.testbit f0 i = if plain then status_of old w c false r i else if i =? 1 then true else Z.testbit old i) as [U0 F0].
  { unfold f0. destruct plain.
    - split; [by apply test_u64|]. intros j J J0. pose proof (test_status old r size S U j J) as T. fold w in T. rewrite Z.mod_small in T by done.
      rewrite T. unfold status_of. by rewrite (proj2 (Z.eqb_neq j 0)) by done.
    - split; [by apply u64_land, u64_lor2|]. intros j J J0. rewrite clear_bit0 by by apply u64_lor2.
      rewrite (proj2 (Z.eqb_neq j 0)), andb_true_r by done. rewrite Z.lor_spec, bit_of_2. destruct (j =? 1); [apply orb_true_r|apply orb_false_r]. }
  clearbody f0. unfold shift_status. fold plain. destruct (Z.eqb_spec n 1) as [E1|E1].
  - rewrite put_bit, clear_bit, carry_bit by (try apply carry_u64; done). rewrite E1 in R. rewrite R in Of. cbn [fst snd] in Of. rewrite (Of E1).
    unfold status_of. destruct (Z.eqb_spec i 11) as [->|N11]; [cbn; by rewrite andb_false_r, andb_true_r; destruct plain|].
    cbn [negb]. rewrite andb_true_r, andb_false_r, orb_false_r. destruct (Z.eqb_spec i 0) as [->|I0]; [by destruct plain|].
    rewrite F0 by done. unfold status_of. rewrite (proj2 (Z.eqb_neq i 0)), (proj2 (Z.eqb_neq i 11)) by done. done.
  - rewrite carry_bit by done. destruct (Z.eqb_spec i 0) as [->|I0]; [by destruct plain|]. rewrite F0 by done. unfold status_of.
    rewrite (proj2 (Z.eqb_neq i 0)) by done. destruct plain; [done|]. cbn [negb andb]. destruct (Z.eqb_spec i 1), (Z.eqb_spec i 11); subst; done.
Qed.

(** ** Products and quotients *)

Lemma sint_mod w x : 0 < w → sint w (x mod 2 ^ w) = sint w x.
Proof. intros. unfold sint. by rewrite Z.mod_mod by lia. Qed.

Lemma sint_bound w x : 0 < w → Z.abs (sint w x) ≤ 2 ^ (w - 1).
Proof. intros W. destruct (sint_range w x W) as [R _]. lia. Qed.

(** The quotient and remainder of the processor's divide, as exact integers: [None] is
    the divide error. *)
Definition div_ref (w N D : Z) (signed : bool) : option (Z * Z) :=
  if D =? 0 then None
  else if signed then
    let n := sint (2 * w) N in
    let d := sint w D in
    if overflows w (Z.quot n d) then None else Some (Z.quot n d, Z.rem n d)
  else if carries w (N / D) then None else Some (N / D, N mod D).

Lemma idiv_ref w n d : 0 < w → d ≠ 0 → - 2 ^ (2 * w - 1) ≤ n →
  idiv w n d = if overflows w (Z.quot n d) then None else Some (Z.quot n d mod 2 ^ w, Z.rem n d mod 2 ^ w).
Proof.
  intros W D N. unfold idiv, overflows.
  assert ((Z.quot n d <? - 2 ^ (w - 1)) || (2 ^ (w - 1) - 1 <? Z.quot n d) =
          negb ((- 2 ^ (w - 1) <=? Z.quot n d) && (Z.quot n d <? 2 ^ (w - 1)))) as ->.
  { destruct (Z.ltb_spec (Z.quot n d) (- 2 ^ (w - 1))), (Z.leb_spec (- 2 ^ (w - 1)) (Z.quot n d)),
      (Z.ltb_spec (Z.quot n d) (2 ^ (w - 1))), (Z.ltb_spec (2 ^ (w - 1) - 1) (Z.quot n d)); try done; lia. }
  destruct (Z.eqb_spec d (-1)) as [->|]; [|done]. destruct (Z.eqb_spec n (- 2 ^ (2 * w - 1))) as [->|]; [|done]. cbn [andb].
  assert (Z.quot (- 2 ^ (2 * w - 1)) (-1) = 2 ^ (2 * w - 1)) as ->.
  { change (-1) with (- (1)). rewrite Z.quot_opp_opp by done. apply Z.quot_1_r. }
  assert (2 ^ (w - 1) ≤ 2 ^ (2 * w - 1)) by (apply Z.pow_le_mono_r; lia).
  by rewrite (proj2 (Z.ltb_ge (2 ^ (2 * w - 1)) (2 ^ (w - 1)))), andb_false_r by lia.
Qed.

Lemma udiv_ref w n d : 0 < w → 0 < d → 0 ≤ n →
  udiv (2 ^ w - 1) n d = if carries w (n / d) then None else Some (n / d, n mod d).
Proof.
  intros W D N. unfold udiv, carries. pose proof (Z.div_pos n d N D).
  rewrite (proj2 (Z.leb_le 0 (n / d))) by lia. cbn [andb].
  destruct (Z.ltb_spec (2 ^ w - 1) (n / d)), (Z.ltb_spec (n / d) (2 ^ w)); try done; lia.
Qed.

Lemma join_words w hi lo : 0 ≤ w → 0 ≤ lo < 2 ^ w → Z.lor (Z.shiftl hi w) lo = hi * 2 ^ w + lo.
Proof. intros. rewrite Z.shiftl_mul_pow2 by done. by rewrite lor_mul_pow2. Qed.

Lemma sint_zero w D : 0 < w → 0 ≤ D < 2 ^ w → D ≠ 0 → sint w D ≠ 0.
Proof. intros W B N E. destruct (sint_range w D W) as [_ M]. rewrite E, Z.mod_0_l, Z.mod_small in M by lia. lia. Qed.

Lemma mul_div_small w a b : 0 < w → 0 ≤ a < 2 ^ w → 0 ≤ b < 2 ^ w → 0 ≤ a * 2 ^ w + b < 2 ^ (2 * w).
Proof. intros W A B. replace (2 * w) with (w + w) by lia. rewrite Z.pow_add_r by lia. nia. Qed.

(** A dividend of two words, as the signed integer it stands for. *)
Lemma sint_pair w dx ax : 0 < w → 0 ≤ ax < 2 ^ w →
  sint w dx * 2 ^ w + ax = sint (2 * w) (dx mod 2 ^ w * 2 ^ w + ax).
Proof.
  intros W A. pose proof (Z.mod_pos_bound dx (2 ^ w) ltac:(lia)) as D.
  pose proof (mul_div_small w (dx mod 2 ^ w) ax W D A) as R. rewrite (sint_small (2 * w)) by done. rewrite <-(sint_mod w dx), sint_small by done.
  assert (2 ^ (2 * w) = 2 ^ w * 2 ^ w) as E by (replace (2 * w) with (w + w) by lia; by rewrite Z.pow_add_r by lia).
  assert (2 ^ (2 * w - 1) = 2 ^ (w - 1) * 2 ^ w) as E1 by (replace (2 * w - 1) with (w - 1 + w) by lia; by rewrite Z.pow_add_r by lia).
  rewrite E, E1. set (p := 2 ^ (w - 1)) in *. set (P := 2 ^ w) in *. assert (0 < P) by (unfold P; lia).
  destruct (Z.ltb_spec (dx mod P) p), (Z.ltb_spec (dx mod P * P + ax) (p * P)); try nia.
Qed.

Lemma div_core w N D (signed : bool) : 0 < w → 0 ≤ N < 2 ^ (2 * w) → 0 ≤ D < 2 ^ w →
  (if D =? 0 then None else if signed then idiv w (sint (2 * w) N) (sint w D) else udiv (2 ^ w - 1) N D) =
  '(q, r) ← div_ref w N D signed; Some (q mod 2 ^ w, r mod 2 ^ w).
Proof.
  intros W HN HD. unfold div_ref. destruct (Z.eqb_spec D 0) as [|N0]; [done|]. destruct signed.
  - rewrite idiv_ref; [by destruct (overflows w _)|done|by apply sint_zero|]. destruct (sint_range (2 * w) N ltac:(lia)) as [R _]. lia.
  - rewrite udiv_ref; [|done|lia|lia]. destruct (carries w (N / D)) eqn:C; [done|]. cbn. unfold carries in C.
    apply negb_false_iff, andb_true_iff in C as [C1%Z.leb_le C2%Z.ltb_lt]. pose proof (Z.mod_pos_bound N D ltac:(lia)).
    by rewrite (Z.mod_small (N / D)), (Z.mod_small (N mod D)) by lia.
Qed.

(** Division is that of the processor. For every operand size and sign, the emulated
    DIV and IDIV report a divide error exactly when the divisor is zero or the quotient
    does not fit, and otherwise leave the truncated quotient and the remainder in the
    registers the processor uses. *)
Theorem div_exact (ax dx mem size : Z) (signed : bool) : sized size → u64 ax → u64 dx → u64 mem →
  let w := mmio_bit_width size in
  let N := if size =? 1 then ax mod 2 ^ 16 else dx mod 2 ^ w * 2 ^ w + ax mod 2 ^ w in
  mmio_div_apply ax dx mem size signed =
    '(q, r) ← div_ref w N (mem mod 2 ^ w) signed;
    Some (if size =? 1 then (q mod 2 ^ 8 + r mod 2 ^ 8 * 2 ^ 8, 0) else (q mod 2 ^ w, r mod 2 ^ w)).
Proof.
  intros S Ua Ud Um w N. assert (0 < w) as W by (unfold w; pose proof (width_pos size S); lia).
  assert (0 ≤ mem mod 2 ^ w < 2 ^ w) as Dm by (apply Z.mod_pos_bound; lia).
  assert (∀ hi k, 0 < k ≤ 32 → shl64 (hi mod 2 ^ k) k = hi mod 2 ^ k * 2 ^ k) as Sh.
  { intros hi k K. unfold shl64. rewrite Z.shiftl_mul_pow2 by lia. apply wrap64_small. split; [apply Z.mul_nonneg_nonneg; [apply Z.mod_pos_bound|]; lia|].
    apply Z.lt_le_trans with (2 ^ k * 2 ^ k); [apply Z.mul_lt_mono_pos_r; [lia|apply Z.mod_pos_bound; lia]|].
    rewrite <-Z.pow_add_r by lia. change W64 with (2 ^ 64). apply Z.pow_le_mono_r; lia. }
  assert (0 ≤ ax mod 2 ^ w < 2 ^ w ∧ 0 ≤ dx mod 2 ^ w < 2 ^ w) as [Am Xm] by (split; apply Z.mod_pos_bound; lia).
  unfold mmio_div_apply. change 0xFFFFFFFF with (Z.ones 32). change 0xFFFF with (Z.ones 16). change 0xFF with (Z.ones 8). rewrite !Z.land_ones by done.
  destruct S as [-> | [-> | [-> | ->]]]; cbn [Z.eqb Pos.eqb] in *; unfold w in *; cbn [mmio_bit_width Z.eqb Pos.eqb] in *.
  - pose proof (div_core 8 (ax mod 2 ^ 16) (mem mod 2 ^ 8) signed eq_refl ltac:(apply Z.mod_pos_bound; lia) Dm) as C.
    change (2 * 8) with 16 in C. change (2 ^ 8 - 1) with (Z.ones 8) in C. unfold N. destruct (mem mod 2 ^ 8 =? 0).
    + destruct (div_ref _ _ _ _) as [[q r]|]; [done|]. done.
    + rewrite C. destruct (div_ref 8 (ax mod 2 ^ 16) (mem mod 2 ^ 8) signed) as [[q r]|]; [|done]. cbn. do 2 f_equal.
      rewrite (Sh r 8), Z.lor_comm, lor_mul_pow2 by (lia || apply Z.mod_pos_bound; lia). lia.
  - pose proof (div_core 16 N (mem mod 2 ^ 16) signed eq_refl (mul_div_small 16 _ _ eq_refl Xm Am) Dm) as C.
    rewrite (Sh dx 16), lor_mul_pow2 by lia. exact C.
  - pose proof (div_core 32 N (mem mod 2 ^ 32) signed eq_refl (mul_div_small 32 _ _ eq_refl Xm Am) Dm) as C.
    rewrite (Sh dx 32), lor_mul_pow2 by lia. exact C.
  - pose proof (div_core 64 N (mem mod 2 ^ 64) signed eq_refl (mul_div_small 64 _ _ eq_refl Xm Am) Dm) as C.
    rewrite <-C. rewrite (Z.mod_small mem) in * by done. destruct (mem =? 0); [done|]. destruct signed.
    + rewrite join_words by done. rewrite sint_pair by done. unfold N. by rewrite !(Z.mod_small ax) by done.
    + f_equal. unfold N, shl128. rewrite Z.mod_small, join_words, !Z.mod_small by (try done; rewrite Z.shiftl_mul_pow2 by done; unfold u64, W64 in *; lia). done.
Qed.

Lemma mul_byte_signed P : - 2 ^ 14 ≤ P ≤ 2 ^ 14 →
  let lo := sint 16 P mod 65536 in
  lo = P mod 2 ^ 16 ∧
  negb (Z.land (Z.shiftr lo 8) 0xFF =? (if negb (Z.land lo 0x80 =? 0) then 0xFF else 0)) = overflows 8 P.
Proof.
  intros R lo. assert (lo = P mod 2 ^ 16) as E by (apply (sint_range 16 P); lia). split; [done|].
  change 0x80 with (Z.shiftl 1 7). rewrite bit_tested by done. change 0xFF with (Z.ones 8). rewrite Z.land_ones, Z.shiftr_div_pow2 by done.
  assert (Z.testbit lo 7 = (128 <=? lo mod 256)) as ->.
  { rewrite <-(Z.mod_pow2_bits_low lo 8) by lia. apply (top_bit 8); [done|]. by apply Z.mod_pos_bound. }
  rewrite E. unfold overflows. change (2 ^ (8 - 1)) with 128. change (2 ^ 8) with 256. change (2 ^ 16) with 65536. change (2 ^ 14) with 16384 in R.
  change (Z.ones 8) with 255. clear E lo.
  assert (P mod 65536 = if P <? 0 then P + 65536 else P) as ->.
  { destruct (Z.ltb_spec P 0); [|apply Z.mod_small; lia]. rewrite <-(Z.mod_add _ 1) by lia. apply Z.mod_small. lia. }
  set (l := if P <? 0 then P + 65536 else P). assert (l mod 256 = l - 256 * (l / 256)) as -> by (pose proof (Z.div_mod l 256); lia).
  assert ((l / 256) mod 256 = l / 256) as ->.
  { apply Z.mod_small. split; [apply Z.div_pos; unfold l; destruct (Z.ltb_spec P 0); lia|].
    apply Z.div_lt_upper_bound; unfold l; destruct (Z.ltb_spec P 0); lia. }
  assert (256 * (l / 256) ≤ l < 256 * (l / 256) + 256) as Q by (pose proof (Z.div_mod l 256); pose proof (Z.mod_pos_bound l 256); lia).
  revert Q. generalize (l / 256) as q. unfold l. intros q Q.
  destruct (Z.ltb_spec P 0), (Z.leb_spec (-128) P), (Z.ltb_spec P 128); cbn [andb negb]; try lia;
    match goal with |- context [128 <=? ?y] => destruct (Z.leb_spec 128 y) end;
    match goal with |- context [?x =? ?y] => destruct (Z.eqb_spec x y) end; try done; lia.
Qed.

Lemma high_word P w : 0 < w → w ≤ 64 → wrap64 (Z.shiftr (P mod 2 ^ 128) w) mod 2 ^ w = (P / 2 ^ w) mod 2 ^ w.
Proof.
  intros W1 W2. rewrite wrap_mod by lia. rewrite <-(Z.shiftr_div_pow2 P) by lia. apply Z.bits_inj'. intros i I.
  destruct (Z.lt_ge_cases i w); [|by rewrite !Z.mod_pow2_bits_high by lia].
  rewrite !Z.mod_pow2_bits_low, !Z.shiftr_spec by lia. by rewrite Z.mod_pow2_bits_low by lia.
Qed.

(** Multiplication: the low and the high word of the exact product (the byte form
    leaves both in the low result), with the overflow flag when it takes more than the
    low word. *)
Theorem mul_exact (ax mem size : Z) (signed : bool) : sized size →
  let w := mmio_bit_width size in
  let P := if signed then sint w ax * sint w mem else ax mod 2 ^ w * (mem mod 2 ^ w) in
  mmio_mul_pair_apply ax mem size signed =
  (if size =? 1 then P mod 2 ^ 16 else P mod 2 ^ w, if size =? 1 then 0 else (P / 2 ^ w) mod 2 ^ w,
   if signed then overflows w P else carries w P).
Proof.
  intros S w P. pose proof (width_pos size S) as W. fold w in W. unfold mmio_mul_pair_apply. rewrite !mask_mod by done. fold w.
  set (a := ax mod 2 ^ w) in *. set (b := mem mod 2 ^ w) in *.
  assert (0 ≤ a < 2 ^ w ∧ 0 ≤ b < 2 ^ w) as [A B] by (split; apply Z.mod_pos_bound; lia).
  destruct (Z.eqb_spec size 1) as [->|N1].
  - change w with 8 in *. destruct signed.
    + assert (sint 8 a * sint 8 b = P) as -> by (unfold P, a, b; by rewrite !(sint_mod 8)).
      destruct (mul_byte_signed P) as [M1 M2].
      { unfold P. pose proof (sint_bound 8 ax eq_refl). pose proof (sint_bound 8 mem eq_refl). change (2 ^ (8 - 1)) with 128 in *. nia. }
      cbv zeta in M1, M2. by rewrite M2, M1.
    + unfold mul64. fold P. change (2 ^ 8) with 256 in *. assert (0 ≤ P < 65536) by (unfold P; nia).
      rewrite wrap64_small by mlia. change 0xFFFF with (Z.ones 16). rewrite Z.land_ones by done. do 2 f_equal.
      unfold carries. change (2 ^ 8) with 256. rewrite (proj2 (Z.leb_le 0 P)) by lia. cbn [andb]. by rewrite <-Z.leb_antisym; destruct (Z.ltb_spec 255 P), (Z.leb_spec 256 P); try done; lia.
  - assert (size * 8 = w) as -> by (unfold w; destruct S as [-> | [-> | [-> | ->]]]; done).
    destruct signed.
    + rewrite !as_signed_sint by done. fold w. assert (sint w a * sint w b = P) as -> by (unfold P, a, b; rewrite !(sint_mod w) by lia; done).
      rewrite high_word, wrap_mod by lia. assert (P mod 2 ^ 128 mod 2 ^ w = P mod 2 ^ w) as ->.
      { apply Z.mod_mod_divide. exists (2 ^ (128 - w)). rewrite <-Z.pow_add_r by lia. f_equal. lia. }
      f_equal. rewrite Z.eqb_sym. apply wrapped_overflow; [lia|]. rewrite Z.sub_diag. apply Z.mod_0_l. lia.
    + fold P. assert (0 ≤ P < 2 ^ w * 2 ^ w) as R by (unfold P; nia).
      rewrite !wrap_mod by lia. rewrite Z.shiftr_div_pow2 by lia. f_equal. rewrite Z.mod_small by (split; [apply Z.div_pos; lia|apply Z.div_lt_upper_bound; lia]).
      unfold carries. rewrite (proj2 (Z.leb_le 0 P)) by lia. cbn [andb]. f_equal.
      destruct (Z.ltb_spec P (2 ^ w)); [by rewrite Z.div_small by lia|]. apply Z.eqb_neq. intros D. apply Z.div_small_iff in D; lia.
Qed.

(** Dividing a product by its factor gives the other factor back. *)
Theorem mul_div_roundtrip (ax mem size : Z) : sized size → u64 mem → mem mod 2 ^ mmio_bit_width size ≠ 0 →
  let w := mmio_bit_width size in
  let '(lo, hi, _) := mmio_mul_pair_apply ax mem size false in
  mmio_div_apply lo hi mem size false = Some (ax mod 2 ^ w, 0).
Proof.
  intros S U D w. pose proof (width_pos size S) as W. fold w in W, D. rewrite mul_exact by done. fold w.
  set (a := ax mod 2 ^ w) in *. set (b := mem mod 2 ^ w) in *.
  assert (0 ≤ a < 2 ^ w ∧ 0 ≤ b < 2 ^ w) as [A B] by (split; apply Z.mod_pos_bound; lia).
  assert (0 ≤ a * b < 2 ^ w * 2 ^ w) as R by nia.
  assert (2 ^ w ≤ 2 ^ 64) as P64 by (apply Z.pow_le_mono_r; lia).
  rewrite div_exact; [|done|destruct (size =? 1); [apply (below_mono 16 64 _ ltac:(lia)), below_mod; lia|apply (below_mono w 64 _ ltac:(lia)), below_mod; lia]
    |destruct (size =? 1); [done|apply (below_mono w 64 _ ltac:(lia)), below_mod; lia]|done].
  fold w b. set (N := if size =? 1 then _ else _).
  assert (N = a * b) as ->.
  { unfold N. destruct (Z.eqb_spec size 1) as [->|].
    - change w with 8 in *. rewrite Z.mod_mod, Z.mod_small by (change (2 ^ 8) with 256 in *; change (2 ^ 16) with 65536; lia). done.
    - rewrite !Z.mod_mod by lia. rewrite (Z.mod_small (a * b / 2 ^ w)) by (split; [apply Z.div_pos; lia|apply Z.div_lt_upper_bound; lia]).
      pose proof (Z.div_mod (a * b) (2 ^ w) ltac:(lia)). lia. }
  unfold div_ref. rewrite (proj2 (Z.eqb_neq b 0)) by done. rewrite Z.div_mul, Z.mod_mul by done.
  destruct (in_range w a ltac:(lia) A) as (-> & _ & Em). cbn. destruct (Z.eqb_spec size 1) as [->|]; [|by rewrite Em].
  change w with 8 in *. rewrite Z.mod_0_l, Z.mul_0_l, Z.add_0_r by done. by f_equal; f_equal.
Qed.

(** ** Bit scans *)

Lemma trailing_zeros_spec p : let k := trailing_zeros_pos p in
  0 ≤ k ∧ Z.testbit (Zpos p) k = true ∧ ∀ j, 0 ≤ j < k → Z.testbit (Zpos p) j = false.
Proof.
  induction p as [p IH|p IH|]; cbn [trailing_zeros_pos]; [split_and!; [done|done|lia]| |split_and!; [done|done|lia]].
  destruct IH as (I1 & I2 & I3). change (Zpos p~0) with (2 * Zpos p). split_and!; [lia| |].
  - replace (1 + trailing_zeros_pos p) with (Z.succ (trailing_zeros_pos p)) by lia. by rewrite Z.double_bits_succ.
  - intros j J. destruct (decide (j = 0)) as [->|J0]; [apply Z.testbit_even_0|].
    replace j with (Z.succ (j - 1)) by lia. rewrite Z.double_bits_succ. apply I3. lia.
Qed.

(** The scans find the lowest and the highest set bit of the operand, the counts say how
    many zeros are below and above them, and an operand of zero is reported as such. *)
Theorem scan_exact (src size : Z) : sized size →
  let w := mmio_bit_width size in
  let v := src mod 2 ^ w in
  let low := (mmio_scan_apply src size false).1 in
  let high := (mmio_scan_apply src size true).1 in
  if v =? 0 then
    (mmio_scan_apply src size false).2 = true ∧ (mmio_scan_apply src size true).2 = true ∧
    mmio_tzcnt_apply src size = (w, true) ∧ mmio_lzcnt_apply src size = (w, true)
  else
    (0 ≤ low ≤ high ∧ high < w) ∧ Z.testbit v low = true ∧ Z.testbit v high = true ∧
    (∀ j, 0 ≤ j < low ∨ high < j → Z.testbit v j = false) ∧
    mmio_tzcnt_apply src size = (low, false) ∧ mmio_lzcnt_apply src size = (w - 1 - high, false).
Proof.
  intros S w v. pose proof (width_pos size S) as W. fold w in W. assert (below w v) as B by (apply below_mod; lia).
  unfold mmio_scan_apply, mmio_tzcnt_apply, mmio_lzcnt_apply. rewrite !mask_mod by done. fold w v.
  destruct (Z.eqb_spec v 0) as [E|E]; [done|]. cbn [fst snd].
  assert (0 < v) as V by (destruct B; lia). destruct v as [|p|p] eqn:Ev; [done| |done]. rewrite <-Ev in *. clear E.
  assert (trailing_zeros v = trailing_zeros_pos p ∧ leading_zeros v = 63 - Z.log2 v) as [-> ->] by (by rewrite Ev).
  destruct (trailing_zeros_spec p) as (T1 & T2 & T3). rewrite <-Ev in T2, T3. cbv zeta in *.
  pose proof (Z.log2_nonneg v) as Ln. assert (Z.log2 v < w) as Lw by (apply Z.log2_lt_pow2; [done|apply B]).
  replace (Z.max (63 - (63 - Z.log2 v)) 0) with (Z.log2 v) by lia.
  assert (trailing_zeros_pos p ≤ Z.log2 v) as Le.
  { destruct (Z.le_gt_cases (trailing_zeros_pos p) (Z.log2 v)); [done|]. by rewrite Z.bits_above_log2 in T2 by lia. }
  split_and!; try done; [by apply Z.bit_log2| |f_equal; lia].
  intros j [J|J]; [by apply T3|apply Z.bits_above_log2; lia].
Qed.

(** ** What the emulation of single instructions gets wrong *)

(** The decoder turns INC (and DEC) into an addition (subtraction) of 1, which replaces
    the carry flag; the processor keeps it. *)
Theorem inc_replaces_carry (c : Cpu) (op : MmioInsn) (mem : Z) :
  sized (size op) → u64 (rflags c) → alu op = MMIO_ALU_ADD → has_imm op = true → imm op = 1 → alu_reg_left op = false →
  let w := mmio_bit_width (size op) in
  Z.testbit (rflags (mmio_alu_result c op mem).1) 0 = (mem mod 2 ^ w =? 2 ^ w - 1).
Proof.
  intros S U A I E R w. pose proof (width_pos _ S) as W. fold w in W.
  unfold mmio_alu_result. rewrite A, I, E, R.
  unfold mmio_alu_is_double_shift, mmio_alu_is_scan, mmio_alu_is_count_zero, mmio_alu_is_popcnt, mmio_alu_is_mul_pair, mmio_alu_is_imul; alu_eval.
  cbn [fst rflags set_rflags]. unfold mmio_alu_rflags; alu_eval. rewrite (add_status (rflags c) mem 1 (size op) S U 0) by done.
  fold w. cbn [status_of Z.eqb]. pose proof (Z.mod_pos_bound mem (2 ^ w) ltac:(lia)).
  rewrite (Z.mod_small 1) by (split; [lia|]; apply (Z.pow_gt_1 2 w); lia). unfold carries.
  destruct (Z.eqb_spec (mem mod 2 ^ w) (2 ^ w - 1)), (Z.leb_spec 0 (mem mod 2 ^ w + 1)), (Z.ltb_spec (mem mod 2 ^ w + 1) (2 ^ w)); try done; lia.
Qed.

(** A sign-extending load fills the whole register, also when its destination is the
    32-bit register, whose upper half the processor clears. *)
Theorem movsx_fills_register (old val : Z) : Z.testbit val 7 = true → Z.testbit (merge_mmio_gpr old val 1 false true) 63 = true.
Proof.
  intros B. unfold merge_mmio_gpr. cbn [Z.eqb Pos.eqb]. unfold sext. rewrite wrap_bit by lia. rewrite <-(sint_mod 8) by done.
  rewrite sint_bit by (done || apply below_mod; done). rewrite Z.min_r by lia. change (8 - 1) with 7.
  by rewrite Z.mod_pow2_bits_low by lia.
Qed.

(** ** Concrete runs *)

Lemma alu_exact_witness :
  mmio_alu_apply_cf 0x80 0 MMIO_ALU_SBB true mod 2 ^ 8 = 0x7F ∧
  Z.testbit (mmio_alu_rflags 3 0x80 0 (mmio_alu_apply_cf 0x80 0 MMIO_ALU_SBB true) MMIO_ALU_SBB 1) 11 = true.
Proof.
  pose proof (alu_exact MMIO_ALU_SBB 1 3 0x80 0 ltac:(by left) ltac:(by repeat constructor) ltac:(done)) as [H1 H2].
  split; [exact H1|]. exact (H2 11 ltac:(done)).
Defined.

Lemma condition_after_cmp_witness :
  mmio_cc_taken 13 (mmio_cmp_rflags 2 0x80000000 1 4) = true ∧ mmio_cc_taken 3 (mmio_cmp_rflags 2 0x80000000 1 4) = false.
Proof.
  split; rewrite (condition_after_cmp _ 4 2 0x80000000 1); try (vm_compute; reflexivity); try done; right; right; by left.
Defined.

Lemma shift_exact_witness :
  mmio_shift_apply 0x81 9 MMIO_ALU_RCL 1 true = 0x81 ∧ Z.testbit (mmio_shift_rflags 3 0x81 9 0x81 MMIO_ALU_RCL 1) 0 = true.
Proof.
  pose proof (shift_exact MMIO_ALU_RCL 1 0x81 9 3 ltac:(by left) ltac:(by repeat constructor) ltac:(done)) as [H1 H2].
  split; [exact H1|]. exact (H2 0 ltac:(done)).
Defined.

Lemma div_exact_witness :
  mmio_div_apply 0xFFF9 0 2 1 true = Some (0xFFFD, 0) ∧ mmio_div_apply 0 0x8000000000000000 U64_MAX 8 true = None.
Proof.
  split.
  - rewrite (div_exact 0xFFF9 0 2 1 true); [vm_compute; reflexivity|by left|done|done|done].
  - rewrite (div_exact 0 0x8000000000000000 U64_MAX 8 true); [vm_compute; reflexivity|by do 3 right|done|done|done].
Defined.

End Alu.
