(* ===== verification/Volume.v ===== *)
(** * Volumes, the partition table and block requests

    The storage side of the guest firmware below the file system
    (src/raynu_f/gpt.rs, src/raynu_f/blockio.rs, the checksum of
    src/raynu_f/tables.rs and the readers of src/mgmt/disk_persist.rs and
    src/vmx/guest_uefi.rs).

    [VolumeRead] is the trait of src/raynu_f/fat.rs: a reader either fills the whole
    buffer or refuses. A buffer that is read into is its length and, on success, its
    bytes. Fields are taken from buffers whose length the code has checked, so an
    index is never out of range. *)

From S2P Require Import Prelude Bytes.

Module Volume.

(** ** The trait and its readers *)

Class VolumeRead (R : Type) := read_at : R → Z → Z → option (list Z).

(** What the code relies on: as many bytes as were asked for. *)
Class Served {R} `{VolumeRead R} (r : R) : Prop := {
  served_len off n bs : 0 ≤ off → 0 ≤ n → read_at r off n = Some bs → blen bs = n;
  served_bytes off n bs : read_at r off n = Some bs → Forall is_byte bs }.

(** The reader sees the bytes of [img]. *)
Class Backed {R} `{VolumeRead R} (r : R) (img : list Z) : Prop :=
  backed off n : 0 ≤ off → 0 ≤ n → off + n ≤ blen img → read_at r off n = Some (slice off n img).

Record SliceDisk := mkSliceDisk { sd_bytes : list Z }.

#[global] Instance slice_disk_read : VolumeRead SliceDisk := λ d off n,
  e ← checked_add64 off n;
  if blen (sd_bytes d) <? e then None else Some (slice off n (sd_bytes d)).

Record OffsetVol (R : Type) := mkOffsetVol { inner : R; ov_base : Z }.
Arguments mkOffsetVol {R}.
Arguments inner {R}.
Arguments ov_base {R}.

#[global] Instance offset_vol_read `{VolumeRead R} : VolumeRead (OffsetVol R) := λ v off n,
  read_at (inner v) (sat_add64 (ov_base v) off) n.

(** The retained ISO from the start of its boot image on. *)
Record IsoFatVol := mkIsoFatVol { ifv_iso : list Z; ifv_base : Z }.

#[global] Instance iso_fat_vol_read : VolumeRead IsoFatVol := λ v off n,
  let start := sat_add64 (ifv_base v) off in
  e ← checked_add64 start n;
  if blen (ifv_iso v) <? e then None else Some (slice start n (ifv_iso v)).

(** ** Words of a buffer *)

Definition byte_at (b : list Z) (off : Z) : Z := from_le (slice off 1 b).
Definition u16_le (b : list Z) (off : Z) : Z := from_le (slice off 2 b).
Definition u32_le (b : list Z) (off : Z) : Z := from_le (slice off 4 b).
Definition u64_le (b : list Z) (off : Z) : Z := from_le (slice off 8 b).

(** ** CRC-32 *)

Definition crc32_start : Z := 0xFFFFFFFF.

Definition crc32_bit (crc : Z) : Z :=
  let mask := (- Z.land crc 1) mod 2 ^ 32 in
  Z.lxor (Z.shiftr crc 1) (Z.land 0xEDB88320 mask).

Definition crc32_byte (crc b : Z) : Z := Nat.iter 8 crc32_bit (Z.lxor crc b).

Definition crc32_feed (crc : Z) (data : list Z) : Z := foldl crc32_byte crc data.

Definition crc32_finish (crc : Z) : Z := bnot32 crc.

Definition crc32 (data : list Z) : Z := crc32_finish (crc32_feed crc32_start data).

(** ** The partition table *)

Definition MBR_TYPE_GPT : Z := 0xEE.
Definition GPT_SIGNATURE : list Z := [69; 70; 73; 32; 80; 65; 82; 84].
Definition GPT_REVISION_1_0 : Z := 0x10000.
Definition GPT_HEADER_SIZE_MIN : Z := 92.
Definition GPT_LBA_SIZE : Z := 512.
Definition GPT_ENTRY_SIZE_DEFAULT : Z := 128.
Definition GPT_MAX_ENTRIES : Z := 128.
Definition ESP_TYPE_GUID : list Z :=
  [0x28; 0x73; 0x2A; 0xC1; 0x1F; 0xF8; 0xD2; 0x11; 0xBA; 0x4B; 0x00; 0xA0; 0xC9; 0x3E; 0xC9; 0x3B].

Inductive GptError :=
| ShortRead | NoProtectiveMbr | BadSignature | BadRevision | BadHeaderSize | BadHeaderCrc
| BadEntryArrayCrc | BadEntrySize | NoEsp.

#[global] Instance GptError_eq_dec : EqDecision GptError.
Proof. solve_decision. Defined.

Definition code (e : GptError) : Z :=
  match e with
  | ShortRead => 1 | NoProtectiveMbr => 2 | BadSignature => 3 | BadRevision => 4
  | BadHeaderSize => 5 | BadHeaderCrc => 6 | BadEntryArrayCrc => 7 | BadEntrySize => 8
  | NoEsp => 9
  end.

Record GptHeader := mkGptHeader {
  revision : Z;
  header_size : Z;
  my_lba : Z;
  partition_entry_lba : Z;
  number_of_entries : Z;
  size_of_entry : Z }.

Record EspPartition := mkEspPartition {
  partition_number : Z;
  start_lba : Z;
  end_lba : Z;
  unique_guid : list Z }.

#[global] Instance EspPartition_eq_dec : EqDecision EspPartition.
Proof. solve_decision. Defined.

Definition size_lba (e : EspPartition) : Z := sat_add64 (sat_sub64 (end_lba e) (start_lba e)) 1.

Inductive BootSource := Disk | Iso.

Definition raynu_f_boot_source (disk_has_gpt_esp : bool) : BootSource :=
  if disk_has_gpt_esp then Disk else Iso.

Definition parse_protective_mbr (lba0 : list Z) : result unit GptError :=
  if blen lba0 <? GPT_LBA_SIZE then Err ShortRead
  else if negb (byte_at lba0 510 =? 0x55) || negb (byte_at lba0 511 =? 0xAA) then Err NoProtectiveMbr
  else if existsb (λ i, byte_at lba0 (0x1BE + i * 16 + 4) =? MBR_TYPE_GPT) (seqZ 0 4) then Ok tt
  else Err NoProtectiveMbr.

(** The first [hs] bytes of the header with the checksum field cleared, in the
    512-byte scratch array. *)
Definition crc_blob (lba1 : list Z) (hs : Z) : list Z :=
  slice 0 hs (splice 16 [0; 0; 0; 0] (splice 0 (slice 0 hs lba1) (replicate 512 0))).

Definition parse_gpt_header (lba1 : list Z) : result GptHeader GptError :=
  if blen lba1 <? GPT_LBA_SIZE then Err ShortRead
  else if negb (bool_decide (slice 0 8 lba1 = GPT_SIGNATURE)) then Err BadSignature
  else
    let revision := u32_le lba1 8 in
    if negb (revision =? GPT_REVISION_1_0) then Err BadRevision
    else
      let hs := u32_le lba1 12 in
      if (hs <? GPT_HEADER_SIZE_MIN) || (blen lba1 <? hs) then Err BadHeaderSize
      else
        let stored := u32_le lba1 16 in
        if negb (crc32 (crc_blob lba1 hs) =? stored) then Err BadHeaderCrc
        else
          let es := u32_le lba1 84 in
          if (es <? GPT_ENTRY_SIZE_DEFAULT) || (4096 <? es) || negb (es mod 8 =? 0)
          then Err BadEntrySize
          else Ok (mkGptHeader revision hs (u64_le lba1 24) (u64_le lba1 72) (u32_le lba1 80) es).

Definition gpt_entry_array_crc (lba1 : list Z) : Z := u32_le lba1 88.

Definition gpt_disk_bytes_from_header (lba1 : list Z) : option Z :=
  if (blen lba1 <? 40) || negb (bool_decide (slice 0 8 lba1 = GPT_SIGNATURE)) then None
  else
    n ← checked_add64 (u64_le lba1 32) 1;
    checked_mul64 n GPT_LBA_SIZE.

Definition gpt_fits_guest_bytes (lba1 : list Z) (guest_bytes : Z) : bool :=
  match gpt_disk_bytes_from_header lba1 with
  | Some n => (0 <? n) && (n <=? guest_bytes)
  | None => false
  end.

Section Gpt.
Context `{VolumeRead R} (r : R).

Definition read_lba (lba : Z) : option (list Z) := read_at r (sat_mul64 lba GPT_LBA_SIZE) 512.

(** [while left > 0]: [k] is the number of 512-byte pieces that are left. *)
Fixpoint array_crc_loop (k : nat) (off left crc_state : Z) : result Z GptError :=
  match k with
  | O => Ok crc_state
  | S k' =>
      let take := Z.min left 512 in
      match read_at r off take with
      | None => Err ShortRead
      | Some chunk =>
          array_crc_loop k' (sat_add64 off take) (left - take) (crc32_feed crc_state chunk)
      end
  end.

Definition array_off (hdr : GptHeader) : Z := sat_mul64 (partition_entry_lba hdr) GPT_LBA_SIZE.

Definition partition_array_crc (hdr : GptHeader) : result Z GptError :=
  let n := Z.min (number_of_entries hdr) GPT_MAX_ENTRIES in
  let total := Z.min (n * size_of_entry hdr) 0xFFFFFFFF in
  let? crc := array_crc_loop (Z.to_nat ((total + 511) / 512)) (array_off hdr) total crc32_start in
  Ok (crc32_finish crc).

(** One entry of the array: [None] when the loop goes on. *)
Definition esp_entry (i : Z) (entry : list Z) : option EspPartition :=
  if negb (bool_decide (slice 0 16 entry = ESP_TYPE_GUID)) then None
  else
    let start := u64_le entry 32 in
    let end_ := u64_le entry 40 in
    if (start =? 0) || (end_ <? start) then None
    else Some (mkEspPartition (i + 1) start end_ (slice 16 16 entry)).

Definition entry_off (hdr : GptHeader) (i : Z) : Z := sat_add64 (array_off hdr) (i * size_of_entry hdr).

Fixpoint esp_loop (hdr : GptHeader) (idxs : list Z) : result EspPartition GptError :=
  match idxs with
  | [] => Err NoEsp
  | i :: rest =>
      match read_at r (entry_off hdr i) (size_of_entry hdr) with
      | None => Err ShortRead
      | Some entry =>
          match esp_entry i entry with
          | Some e => Ok e
          | None => esp_loop hdr rest
          end
      end
  end.

Definition find_esp_opts (verify_array_crc : bool) : result EspPartition GptError :=
  let? lba0 := ok_or (read_lba 0) ShortRead in
  let? _ := parse_protective_mbr lba0 in
  let? lba1 := ok_or (read_lba 1) ShortRead in
  let? hdr := parse_gpt_header lba1 in
  let? crc_ok :=
    (if verify_array_crc
     then let? c := partition_array_crc hdr in Ok (c =? gpt_entry_array_crc lba1)
     else Ok true) in
  if negb crc_ok then Err BadEntryArrayCrc
  else if 256 <? size_of_entry hdr then Err BadEntrySize
  else esp_loop hdr (seqZ 0 (Z.min (number_of_entries hdr) GPT_MAX_ENTRIES)).

Definition find_esp : result EspPartition GptError := find_esp_opts true.
Definition find_esp_skip_array_crc : result EspPartition GptError := find_esp_opts false.
Definition disk_has_gpt_esp : bool := is_ok find_esp_skip_array_crc.

End Gpt.

(** ** Block requests *)

Definition MEDIA_ID_CD : Z := 1.
Definition MEDIA_ID_DISK : Z := 2.
Definition CD_BLOCK_SIZE : Z := 2048.
Definition DISK_BLOCK_SIZE : Z := 512.
Definition MAX_TRANSFER_BYTES : Z := 128 * 1024 * 1024.
Definition MEDIA_SIZE : Z := 0x30.

Definition EFI_SUCCESS : Z := 0.
Definition EFI_INVALID_PARAMETER : Z := 0x8000000000000002.
Definition EFI_BAD_BUFFER_SIZE : Z := 0x8000000000000004.
Definition EFI_WRITE_PROTECTED : Z := 0x8000000000000008.
Definition EFI_NO_MEDIA : Z := 0x800000000000000C.
Definition EFI_MEDIA_CHANGED : Z := 0x800000000000000D.

Record BlockMedia := mkBlockMedia {
  media_id : Z;
  removable : bool;
  present : bool;
  read_only : bool;
  block_size : Z;
  last_block : Z;
  logical_partition : bool }.

Definition cd (bytes : Z) : BlockMedia :=
  let blocks := bytes / CD_BLOCK_SIZE in
  mkBlockMedia MEDIA_ID_CD true (0 <? blocks) true CD_BLOCK_SIZE
    (if 0 <? blocks then blocks - 1 else 0) false.

Definition disk (bytes : Z) : BlockMedia :=
  let blocks := bytes / DISK_BLOCK_SIZE in
  mkBlockMedia MEDIA_ID_DISK false (0 <? blocks) false DISK_BLOCK_SIZE
    (if 0 <? blocks then blocks - 1 else 0) false.

Definition esp (sectors : Z) : BlockMedia :=
  mkBlockMedia MEDIA_ID_DISK false (0 <? sectors) false DISK_BLOCK_SIZE
    (if 0 <? sectors then sectors - 1 else 0) true.

(** The stores of [encode], in order, into a cleared structure. *)
Definition encode_stores (m : BlockMedia) : list (Z * list Z) :=
  [ (0x00, to_le 4 (media_id m));
    (0x04, [Z.b2z (removable m)]);
    (0x05, [Z.b2z (present m)]);
    (0x06, [Z.b2z (logical_partition m)]);
    (0x07, [Z.b2z (read_only m)]);
    (0x08, [0]);
    (0x0C, to_le 4 (block_size m));
    (0x10, to_le 4 1);
    (0x18, to_le 8 (last_block m));
    (0x20, to_le 8 0);
    (0x28, to_le 4 1);
    (0x2C, to_le 4 0) ].

Definition encode (m : BlockMedia) : list Z :=
  foldl (λ out s, splice s.1 s.2 out) (replicate (Z.to_nat MEDIA_SIZE) 0) (encode_stores m).

Definition validate_transfer (m : BlockMedia) (id lba buffer_size buffer : Z) (write : bool) : Z :=
  if negb (present m) then EFI_NO_MEDIA
  else if negb (id =? media_id m) then EFI_MEDIA_CHANGED
  else if write && read_only m then EFI_WRITE_PROTECTED
  else if buffer_size =? 0 then EFI_SUCCESS
  else if buffer =? 0 then EFI_INVALID_PARAMETER
  else if negb (buffer_size mod block_size m =? 0) then EFI_BAD_BUFFER_SIZE
  else if MAX_TRANSFER_BYTES <? buffer_size then EFI_INVALID_PARAMETER
  else
    match checked_add64 lba (buffer_size / block_size m) with
    | None => EFI_INVALID_PARAMETER
    | Some e => if (last_block m ⊞ 1) <? e then EFI_INVALID_PARAMETER else EFI_SUCCESS
    end.

Definition lba_offset (m : BlockMedia) (lba : Z) : Z := sat_mul64 lba (block_size m).

(** The byte offset of a request on the partition handle, as [block_transfer] forms it
    from the offset that the publication of the partition stored. *)
Definition esp_byte_off (e : EspPartition) : Z := sat_mul64 (start_lba e) 512.

Definition esp_offset (e : EspPartition) (lba : Z) : Z :=
  sat_add64 (esp_byte_off e) (lba_offset (esp (size_lba e)) lba).

(** ** Readers *)

Lemma slice_read_Some l off n bs : 0 ≤ off → read_at (mkSliceDisk l) off n = Some bs →
  off + n ≤ blen l ∧ bs = slice off n l.
Proof.
  unfold read_at, slice_disk_read. simpl. intros O E. destruct (checked_add64 off n) as [e|] eqn:C; simpl in E; [|done].
  apply checked_add64_Some in C as [-> C]. case_match eqn:Q; [done|]. simplify_eq. split; [by apply Z.ltb_ge|done].
Qed.

#[global] Instance slice_disk_served l : Forall is_byte l → Served (mkSliceDisk l).
Proof.
  intros L. split; intros off n bs.
  - intros O N E. apply slice_read_Some in E as [? ->]; [|done]. by apply blen_slice.
  - unfold read_at, slice_disk_read. simpl. intros E.
    destruct (checked_add64 off n); simpl in E; [|done]. case_match; [done|]. simplify_eq. by apply Forall_slice.
Qed.

#[global] Instance slice_disk_backed l : blen l < W64 → Backed (mkSliceDisk l) l.
Proof.
  intros L off n O N E. unfold read_at, slice_disk_read. simpl. unfold checked_add64.
  rewrite (proj2 (Z.ltb_lt _ _)) by lia. simpl. by rewrite (proj2 (Z.ltb_ge _ _)) by lia.
Qed.

(** A window into a volume shows the part of the image behind its base. *)
Lemma offset_vol_backed `{VolumeRead R} (r : R) img base n : Backed r img → 0 ≤ base → 0 ≤ n →
  base + n ≤ blen img → blen img < W64 → Backed (mkOffsetVol r base) (slice base n img).
Proof.
  intros B Hb Hn Hl Hw off m O M E. rewrite blen_slice in E by lia. unfold read_at, offset_vol_read. simpl.
  replace (sat_add64 base off) with (base + off) by mlia. rewrite backed by lia. by rewrite slice_slice.
Qed.

Lemma iso_fat_vol_backed iso base n : 0 ≤ base → 0 ≤ n → base + n ≤ blen iso → blen iso < W64 →
  Backed (mkIsoFatVol iso base) (slice base n iso).
Proof.
  intros Hb Hn Hl Hw off m O M E. rewrite blen_slice in E by lia. unfold read_at, iso_fat_vol_read. simpl.
  replace (sat_add64 base off) with (base + off) by mlia. unfold checked_add64.
  rewrite (proj2 (Z.ltb_lt _ _)) by lia. simpl. rewrite (proj2 (Z.ltb_ge _ _)) by lia. by rewrite slice_slice.
Qed.

(** ** Fields *)

Lemma from_le_range l : Forall is_byte l → 0 ≤ from_le l < 256 ^ blen l.
Proof.
  unfold blen. induction 1 as [|b l Hb F IH]; [done|]. simpl length. rewrite Nat2Z.inj_succ, Z.pow_succ_r by lia.
  simpl. unfold is_byte in Hb. lia.
Qed.

Lemma field_range l off n : Forall is_byte l → 0 ≤ n → 0 ≤ from_le (slice off n l) < 256 ^ n.
Proof.
  intros F N. pose proof (from_le_range _ (Forall_slice _ off n _ F)) as [L U]. split; [done|].
  eapply Z.lt_le_trans; [exact U|]. apply Z.pow_le_mono_r; [lia|]. unfold blen, slice. rewrite length_take. lia.
Qed.

(** ** The checksum in pieces *)

Lemma crc32_feed_app a b crc : crc32_feed crc (a ++ b) = crc32_feed (crc32_feed crc a) b.
Proof. apply foldl_app. Qed.

Lemma array_crc_backed `{VolumeRead R} (r : R) img : Backed r img → blen img < W64 →
  ∀ k off left crc, 0 ≤ off → 0 ≤ left → off + left ≤ blen img → Z.of_nat k = (left + 511) / 512 →
  array_crc_loop r k off left crc = Ok (crc32_feed crc (slice off left img)).
Proof.
  intros B W k. induction k as [|k IH]; intros off left crc Ho Hl Hi Hk; simpl.
  - assert (left = 0) as -> by (clear -Hk Hl; dlia). by rewrite slice_none.
  - assert (0 < left) by (clear -Hk Hl; dlia). rewrite backed by lia.
    replace (sat_add64 off (Z.min left 512)) with (off + Z.min left 512) by mlia.
    rewrite IH by (try lia; clear -Hk Hl; dlia). rewrite <-crc32_feed_app, slice_split by lia. do 3 f_equal. lia.
Qed.

(** The span of the entries that the code looks at. *)
Definition array_bytes (hdr : GptHeader) : Z :=
  Z.min (number_of_entries hdr) GPT_MAX_ENTRIES * size_of_entry hdr.

Definition hdr_ok (hdr : GptHeader) : Prop :=
  0 ≤ partition_entry_lba hdr ∧ 0 ≤ number_of_entries hdr ∧ 128 ≤ size_of_entry hdr ≤ 4096.

(** The checksum that is computed through the 512-byte buffer, piece by piece, is the
    checksum of the whole array as it stands on the disk. *)
Theorem array_crc_whole `{VolumeRead R} (r : R) img hdr : Backed r img → hdr_ok hdr → blen img < W64 →
  partition_entry_lba hdr * 512 + array_bytes hdr ≤ blen img →
  partition_array_crc r hdr = Ok (crc32 (slice (partition_entry_lba hdr * 512) (array_bytes hdr) img)).
Proof.
  intros B (L & N & S) W E. unfold partition_array_crc, array_bytes, GPT_MAX_ENTRIES in *.
  set (n := Z.min (number_of_entries hdr) 128) in *. assert (0 ≤ n * size_of_entry hdr ≤ 524288) as T by nia.
  replace (Z.min (n * size_of_entry hdr) 4294967295) with (n * size_of_entry hdr) by lia.
  unfold array_off, GPT_LBA_SIZE. replace (sat_mul64 (partition_entry_lba hdr) 512) with (partition_entry_lba hdr * 512) by mlia.
  rewrite (array_crc_backed r img) by (try lia; try done; rewrite Z2Nat.id by (apply Z.div_pos; lia); done). done.
Qed.

(** ** The first system partition *)

Section Search.
Context `{VolumeRead R} (r : R).

(** What the entry at index [i] amounts to. *)
Definition esp_at (hdr : GptHeader) (i : Z) : result (option EspPartition) GptError :=
  match read_at r (entry_off hdr i) (size_of_entry hdr) with
  | None => Err ShortRead
  | Some entry => Ok (esp_entry i entry)
  end.

Lemma esp_loop_Ok hdr e : ∀ idxs, esp_loop r hdr idxs = Ok e ↔
  ∃ l1 i l2, idxs = l1 ++ i :: l2 ∧ esp_at hdr i = Ok (Some e) ∧ Forall (λ j, esp_at hdr j = Ok None) l1.
Proof.
  unfold esp_at. induction idxs as [|i rest IH]; simpl.
  { split; [done|]. by intros ([] & ? & ? & ? & _). }
  destruct (read_at r (entry_off hdr i) (size_of_entry hdr)) as [entry|] eqn:Er.
  2:{ split; [done|]. intros ([|? l1] & j & l2 & Q & Qj & F); simplify_eq/=; [by rewrite Er in Qj|].
      inversion_clear F as [|? ? Fi]. by rewrite Er in Fi. }
  destruct (esp_entry i entry) as [e'|] eqn:Ee.
  - split.
    + intros [= ->]. exists [], i, rest. by rewrite Er, Ee.
    + intros ([|? l1] & j & l2 & Q & Qj & F); simplify_eq/=; [rewrite Er, Ee in Qj; congruence|].
      inversion_clear F as [|? ? Fi]. rewrite Er, Ee in Fi. done.
  - rewrite IH. split.
    + intros (l1 & j & l2 & -> & Qj & F). exists (i :: l1), j, l2. split_and!; [done..|]. constructor; [by rewrite Er, Ee|done].
    + intros ([|? l1] & j & l2 & Q & Qj & F); simplify_eq/=; [by rewrite Er, Ee in Qj|].
      inversion_clear F. by exists l1, j, l2.
Qed.

Lemma seqZ_split n l1 i l2 : seqZ 0 n = l1 ++ i :: l2 → 0 ≤ i < n ∧ l1 = seqZ 0 i.
Proof.
  intros E. assert (seqZ 0 n !! length l1 = Some i) as Q by (rewrite E; by apply list_lookup_middle).
  apply lookup_seqZ in Q as [-> Q]. rewrite Z.add_0_l. split; [lia|]. apply (f_equal (take (length l1))) in E.
  rewrite take_app_length' in E by done. etrans; [symmetry; exact E|]. apply list_eq. intros k.
  destruct (decide (k < length l1)%nat).
  - rewrite lookup_take_lt by done. rewrite !lookup_seqZ_lt by lia. done.
  - rewrite lookup_take_ge by lia. symmetry. apply lookup_seqZ_ge. lia.
Qed.

(** Headers the parser lets through. *)
Lemma parse_gpt_header_ok lba1 hdr : Forall is_byte lba1 → parse_gpt_header lba1 = Ok hdr → hdr_ok hdr.
Proof.
  intros F. unfold parse_gpt_header, hdr_ok, GPT_ENTRY_SIZE_DEFAULT. do 6 (case_match; [done|]). intros [= <-]. simpl.
  rewrite !orb_false_iff, !Z.ltb_ge in *. destruct_and?.
  unfold u64_le, u32_le in *. split_and!; try (by apply field_range); lia.
Qed.

Definition crc_accepted (lba1 : list Z) (hdr : GptHeader) (verify : bool) : Prop :=
  verify = true → partition_array_crc r hdr = Ok (gpt_entry_array_crc lba1).

Lemma find_esp_opts_Ok verify e : find_esp_opts r verify = Ok e ↔
  ∃ lba0 lba1 hdr, read_lba r 0 = Some lba0 ∧ parse_protective_mbr lba0 = Ok tt ∧
    read_lba r 1 = Some lba1 ∧ parse_gpt_header lba1 = Ok hdr ∧ crc_accepted lba1 hdr verify ∧
    size_of_entry hdr ≤ 256 ∧ esp_loop r hdr (seqZ 0 (Z.min (number_of_entries hdr) GPT_MAX_ENTRIES)) = Ok e.
Proof.
  unfold find_esp_opts. split.
  - intros E. destruct (read_lba r 0) as [lba0|]; simpl in E; [|done].
    destruct (parse_protective_mbr lba0) as [[]|] eqn:M; simpl in E; [|done].
    destruct (read_lba r 1) as [lba1|]; simpl in E; [|done].
    destruct (parse_gpt_header lba1) as [hdr|] eqn:P; simpl in E; [|done].
    assert (crc_accepted lba1 hdr verify ∧ (if 256 <? size_of_entry hdr then Err BadEntrySize
        else esp_loop r hdr (seqZ 0 (Z.min (number_of_entries hdr) GPT_MAX_ENTRIES))) = Ok e) as [C Q].
    { unfold crc_accepted. destruct verify; simpl in E; [|done].
      destruct (partition_array_crc r hdr) as [c|]; simpl in E; [|done].
      destruct (c =? _) eqn:C; simpl in E; [|done]. apply Z.eqb_eq in C. by subst. }
    destruct (256 <? size_of_entry hdr) eqn:S; [done|]. apply Z.ltb_ge in S. by exists lba0, lba1, hdr.
  - intros (lba0 & lba1 & hdr & -> & M & -> & P & C & S & L). simpl. rewrite M. simpl. rewrite P. simpl.
    rewrite (proj2 (Z.ltb_ge 256 _)) by lia.
    destruct verify; simpl; [|done]. rewrite C by done. simpl. by rewrite Z.eqb_refl.
Qed.

(** A search of the partition table succeeds exactly when the disk has a protective
    boot record, a header that passes its own checksum, a matching checksum over the
    entries (where it is asked for) and among the first 128 entries a usable system
    partition; the answer is the first one, and every entry before it was read and is
    none. *)
Theorem find_esp_first verify e : find_esp_opts r verify = Ok e ↔
  ∃ lba0 lba1 hdr i, read_lba r 0 = Some lba0 ∧ parse_protective_mbr lba0 = Ok tt ∧
    read_lba r 1 = Some lba1 ∧ parse_gpt_header lba1 = Ok hdr ∧ crc_accepted lba1 hdr verify ∧
    size_of_entry hdr ≤ 256 ∧ 0 ≤ i < Z.min (number_of_entries hdr) 128 ∧
    esp_at hdr i = Ok (Some e) ∧ ∀ j, 0 ≤ j < i → esp_at hdr j = Ok None.
Proof.
  rewrite find_esp_opts_Ok. split.
  - intros (lba0 & lba1 & hdr & ? & ? & ? & ? & ? & ? & L). apply esp_loop_Ok in L as (l1 & i & l2 & E & Hi & F).
    apply seqZ_split in E as [I ->]. exists lba0, lba1, hdr, i. split_and!; try done; try apply I.
    intros j J. rewrite Forall_forall in F. apply F, elem_of_seqZ. lia.
  - intros (lba0 & lba1 & hdr & i & ? & ? & ? & ? & ? & ? & I & Hi & F). exists lba0, lba1, hdr. split_and!; try done.
    apply esp_loop_Ok. exists (seqZ 0 i), i, (seqZ (i + 1) (Z.min (number_of_entries hdr) 128 - (i + 1))). split_and!; [|done|].
    + unfold GPT_MAX_ENTRIES. set (n := Z.min _ 128) in *. replace n with (i + (n - i)) at 1 by lia.
      rewrite seqZ_app by lia. f_equal. rewrite Z.add_0_l, seqZ_cons by lia. do 2 f_equal; lia.
    + apply Forall_forall. intros j J%elem_of_seqZ. apply F. lia.
Qed.

(** Skipping the checksum over the array never changes a partition that was found. *)
Lemma skip_finds_same e : find_esp r = Ok e → find_esp_skip_array_crc r = Ok e.
Proof.
  unfold find_esp, find_esp_skip_array_crc. rewrite !find_esp_opts_Ok.
  intros (lba0 & lba1 & hdr & ? & ? & ? & ? & ? & ?). by exists lba0, lba1, hdr.
Qed.

End Search.

(** ** Tables of more than 128 entries *)

(** The checksum in the header covers every entry of the table, but the code reads
    at most 128 entries and compares the stored value with a checksum over those: a
    sound table with more entries is refused as damaged whenever the two differ. *)
Theorem long_table_refused `{VolumeRead R} (r : R) img lba0 lba1 hdr :
  Backed r img → blen img < W64 →
  read_lba r 0 = Some lba0 → parse_protective_mbr lba0 = Ok tt →
  read_lba r 1 = Some lba1 → Forall is_byte lba1 → parse_gpt_header lba1 = Ok hdr →
  128 < number_of_entries hdr →
  partition_entry_lba hdr * 512 + number_of_entries hdr * size_of_entry hdr ≤ blen img →
  gpt_entry_array_crc lba1 =
    crc32 (slice (partition_entry_lba hdr * 512) (number_of_entries hdr * size_of_entry hdr) img) →
  crc32 (slice (partition_entry_lba hdr * 512) (128 * size_of_entry hdr) img) ≠ gpt_entry_array_crc lba1 →
  find_esp r = Err BadEntryArrayCrc.
Proof.
  intros B W E0 P0 E1 F P1 N L S D. pose proof (parse_gpt_header_ok _ _ F P1) as K.
  assert (array_bytes hdr = 128 * size_of_entry hdr) as A by (unfold array_bytes, GPT_MAX_ENTRIES; lia).
  unfold find_esp, find_esp_opts. rewrite E0. simpl. rewrite P0. simpl. rewrite E1. simpl. rewrite P1. simpl.
  rewrite (array_crc_whole r img hdr) by (try done; rewrite A; destruct K as (? & ? & ?); nia).
  simpl. rewrite A, (proj2 (Z.eqb_neq _ _) D). done.
Qed.

(** ** Block requests *)

Definition media_wf (m : BlockMedia) : Prop :=
  0 < block_size m ∧ 0 ≤ last_block m ∧ (last_block m + 1) * block_size m < W64.

Lemma validate_transfer_ok m id lba size buffer write :
  media_wf m → 0 ≤ lba → 0 < size → validate_transfer m id lba size buffer write = EFI_SUCCESS →
  present m = true ∧ id = media_id m ∧ (write = true → read_only m = false) ∧
  size mod block_size m = 0 ∧ size ≤ MAX_TRANSFER_BYTES ∧
  lba_offset m lba = lba * block_size m ∧ lba * block_size m + size ≤ (last_block m + 1) * block_size m.
Proof.
  intros (B & L & W) O S. unfold validate_transfer.
  destruct (present m) eqn:P; simpl; [|done]. destruct (id =? media_id m) eqn:I; simpl; [|done]. apply Z.eqb_eq in I.
  destruct (write && read_only m) eqn:WR; [done|]. rewrite (proj2 (Z.eqb_neq size 0)) by lia.
  destruct (buffer =? 0); [done|]. destruct (size mod block_size m =? 0) eqn:M; simpl; [|done]. apply Z.eqb_eq in M.
  destruct (MAX_TRANSFER_BYTES <? size) eqn:X; [done|]. apply Z.ltb_ge in X.
  destruct (checked_add64 lba (size / block_size m)) as [e|] eqn:C; [|done]. apply checked_add64_Some in C as [-> C].
  rewrite add64_small by (mach_unfold; nia). destruct (_ <? _) eqn:Q; [done|]. apply Z.ltb_ge in Q. intros _.
  assert (size = size / block_size m * block_size m) as D by (rewrite (Z.div_mod size (block_size m)) at 1 by lia; rewrite M; lia).
  assert (lba * block_size m + size ≤ (last_block m + 1) * block_size m) as R by (clear -D Q B; nia).
  split_and!; try done.
  - intros ->. destruct (read_only m); done.
  - clear -R W S O B. unfold lba_offset. mach_unfold. nia.
Qed.

Lemma disk_wf bytes : 0 ≤ bytes → bytes < W64 → 512 ≤ bytes →
  media_wf (disk bytes) ∧ (last_block (disk bytes) + 1) * 512 ≤ bytes.
Proof.
  intros H W L. unfold media_wf, disk, DISK_BLOCK_SIZE. simpl.
  rewrite (proj2 (Z.ltb_lt 0 (bytes / 512))) by (clear -L; dlia). clear -H W L. dlia.
Qed.

Lemma cd_wf bytes : 0 ≤ bytes → bytes < W64 → 2048 ≤ bytes →
  media_wf (cd bytes) ∧ (last_block (cd bytes) + 1) * 2048 ≤ bytes.
Proof.
  intros H W L. unfold media_wf, cd, CD_BLOCK_SIZE. simpl.
  rewrite (proj2 (Z.ltb_lt 0 (bytes / 2048))) by (clear -L; dlia). clear -H W L. dlia.
Qed.

Definition media_kind (is_cd : bool) (bytes : Z) : BlockMedia := if is_cd then cd bytes else disk bytes.

(** A non-empty block request that is let through names a device that is there, does
    not write to the CD, is a whole number of blocks, and lies inside the store: its
    first byte is at [lba * block_size] exactly and its last below the size of the
    store. *)
Theorem transfer_in_store is_cd bytes id lba size buffer write :
  u64 bytes → u64 lba → 0 < size →
  validate_transfer (media_kind is_cd bytes) id lba size buffer write = EFI_SUCCESS →
  (is_cd = true → write = false) ∧ size mod block_size (media_kind is_cd bytes) = 0 ∧
  lba_offset (media_kind is_cd bytes) lba = lba * block_size (media_kind is_cd bytes) ∧
  lba_offset (media_kind is_cd bytes) lba + size ≤ bytes.
Proof.
  intros [B W] [O _] S V.
  assert (present (media_kind is_cd bytes) = true) as P.
  { unfold validate_transfer in V. by destruct (present _). }
  assert (media_wf (media_kind is_cd bytes) ∧
    (last_block (media_kind is_cd bytes) + 1) * block_size (media_kind is_cd bytes) ≤ bytes) as [M T].
  { destruct is_cd; simpl in P; apply Z.ltb_lt in P; [apply cd_wf|apply disk_wf]; try done;
      unfold CD_BLOCK_SIZE, DISK_BLOCK_SIZE in P; clear -P; dlia. }
  apply validate_transfer_ok in V as (_ & _ & R & Hm & _ & E & L); [|done..]. split_and!; [|done..|lia].
  intros ->. destruct write; [|done]. by specialize (R eq_refl).
Qed.

(** A block request on the partition handle that is let through stays inside the
    partition that the table describes: it can reach neither the boot record and the
    table in front of it nor anything behind its last block. *)
Theorem esp_transfer_in_partition e id lba size buffer write :
  0 < start_lba e → start_lba e ≤ end_lba e → (end_lba e + 1) * 512 ≤ U64_MAX → u64 lba → 0 < size →
  validate_transfer (esp (size_lba e)) id lba size buffer write = EFI_SUCCESS →
  esp_offset e lba = (start_lba e + lba) * 512 ∧ start_lba e * 512 ≤ esp_offset e lba ∧
  esp_offset e lba + size ≤ (end_lba e + 1) * 512.
Proof.
  intros Hs He Hm [O _] S V. assert (size_lba e = end_lba e - start_lba e + 1) as Z by (unfold size_lba; mlia).
  assert (media_wf (esp (size_lba e)) ∧ last_block (esp (size_lba e)) = end_lba e - start_lba e) as [M L].
  { unfold media_wf, esp, DISK_BLOCK_SIZE. simpl. rewrite (proj2 (Z.ltb_lt 0 (size_lba e))) by lia. mlia. }
  apply validate_transfer_ok in V as (_ & _ & _ & _ & _ & E & R); [|done..]. rewrite L in R. simpl in E, R.
  unfold esp_offset, esp_byte_off. rewrite E. unfold DISK_BLOCK_SIZE in *. clear -Hs He Hm O S R. mlia.
Qed.

(** A decoder of the structure, as a loader that follows its layout reads it. *)
Definition decode (b : list Z) : BlockMedia :=
  mkBlockMedia (u32_le b 0) (byte_at b 4 =? 1) (byte_at b 5 =? 1) (byte_at b 7 =? 1)
    (u32_le b 0x0C) (u64_le b 0x18) (byte_at b 6 =? 1).

(** The media description that a loader reads back is the one that was published. *)
Theorem media_roundtrip m : below 32 (media_id m) → below 32 (block_size m) → u64 (last_block m) →
  blen (encode m) = MEDIA_SIZE ∧ decode (encode m) = m.
Proof.
  intros I B L. split; [reflexivity|].
  assert (u32_le (encode m) 0 = from_le (to_le 4 (media_id m))) as E1 by reflexivity.
  assert (u32_le (encode m) 12 = from_le (to_le 4 (block_size m))) as E2 by reflexivity.
  assert (u64_le (encode m) 24 = from_le (to_le 8 (last_block m))) as E3 by reflexivity.
  assert (byte_at (encode m) 4 = from_le [Z.b2z (removable m)]) as E4 by reflexivity.
  assert (byte_at (encode m) 5 = from_le [Z.b2z (present m)]) as E5 by reflexivity.
  assert (byte_at (encode m) 6 = from_le [Z.b2z (logical_partition m)]) as E6 by reflexivity.
  assert (byte_at (encode m) 7 = from_le [Z.b2z (read_only m)]) as E7 by reflexivity.
  unfold decode. rewrite E1, E2, E3, E4, E5, E6, E7, from_to_le_u64 by done.
  rewrite !(from_to_le 4) by (change (256 ^ Z.of_nat 4) with (2 ^ 32); done).
  destruct m as [? [] [] [] ? ? []]; reflexivity.
Qed.

(** ** A table of one and of many entries *)

Definition demo_entry (guid : list Z) (first last : Z) : list Z :=
  guid ++ replicate 16 7 ++ to_le 8 first ++ to_le 8 last ++ replicate 80 0.

Definition demo_mbr : list Z :=
  replicate 446 0 ++ [0; 0; 0; 0; 0xEE] ++ replicate 59 0 ++ [0x55; 0xAA].

Definition demo_header (n array_crc : Z) : list Z :=
  let blank := GPT_SIGNATURE ++ to_le 4 GPT_REVISION_1_0 ++ to_le 4 92 ++ to_le 4 0 ++ to_le 4 0 ++
    to_le 8 1 ++ to_le 8 2047 ++ to_le 8 34 ++ to_le 8 2014 ++ replicate 16 9 ++
    to_le 8 2 ++ to_le 4 n ++ to_le 4 128 ++ to_le 4 array_crc in
  splice 16 (to_le 4 (crc32 blank)) blank ++ replicate 420 0.

Definition demo_disk (array_crc : Z) (entries : list (list Z)) : list Z :=
  demo_mbr ++ demo_header (Z.of_nat (length entries)) array_crc ++ concat entries.

Definition demo_entries : list (list Z) :=
  [ demo_entry (replicate 16 1) 34 40; demo_entry ESP_TYPE_GUID 50 40;
    demo_entry ESP_TYPE_GUID 41 90; demo_entry ESP_TYPE_GUID 100 120 ].

Definition many_entries : list (list Z) := demo_entries ++ replicate 125 (demo_entry (replicate 16 1) 200 300).

Example demo_found : find_esp (mkSliceDisk (demo_disk 3114086663 demo_entries)) = Ok (mkEspPartition 3 41 90 (replicate 16 7)).
Proof. vm_compute. reflexivity. Qed.

Example demo_fits : gpt_fits_guest_bytes (demo_header 4 3114086663) (2048 * 512) = true ∧
  gpt_fits_guest_bytes (demo_header 4 3114086663) (2048 * 512 - 1) = false.
Proof. vm_compute. done. Qed.

Definition demo_hdr (n : Z) : GptHeader := mkGptHeader GPT_REVISION_1_0 92 1 2 n 128.

Lemma array_crc_whole_witness :
  partition_array_crc (mkSliceDisk (demo_disk 3114086663 demo_entries)) (demo_hdr 4) = Ok (crc32 (concat demo_entries)).
Proof.
  rewrite (array_crc_whole _ (demo_disk 3114086663 demo_entries)).
  - by vm_compute.
  - apply slice_disk_backed. by vm_compute.
  - by vm_compute.
  - by vm_compute.
  - by vm_compute.
Defined.

Lemma long_table_refused_witness :
  find_esp (mkSliceDisk (demo_disk 1282567989 many_entries)) = Err BadEntryArrayCrc ∧
  find_esp_skip_array_crc (mkSliceDisk (demo_disk 1282567989 many_entries)) = Ok (mkEspPartition 3 41 90 (replicate 16 7)).
Proof.
  split; [|by vm_compute].
  apply (long_table_refused _ (demo_disk 1282567989 many_entries) demo_mbr (demo_header 129 1282567989) (demo_hdr 129)).
  - apply slice_disk_backed. by vm_compute.
  - by vm_compute.
  - by vm_compute.
  - by vm_compute.
  - by vm_compute.
  - apply (bool_decide_unpack _). by vm_compute.
  - by vm_compute.
  - by vm_compute.
  - by vm_compute.
  - by vm_compute.
  - vm_compute. discriminate.
Defined.

Lemma transfer_in_store_witness :
  lba_offset (disk 1048576) 2040 = 2040 * 512 ∧ lba_offset (disk 1048576) 2040 + 4096 ≤ 1048576.
Proof.
  pose proof (transfer_in_store false 1048576 2 2040 4096 0x1000 true) as H.
  destruct H as (_ & _ & H & I); [by vm_compute..|]. by split.
Defined.

Lemma esp_transfer_in_partition_witness :
  esp_offset (mkEspPartition 1 41 90 []) 49 = 90 * 512 ∧ esp_offset (mkEspPartition 1 41 90 []) 49 + 512 ≤ 91 * 512.
Proof.
  pose proof (esp_transfer_in_partition (mkEspPartition 1 41 90 []) 2 49 512 0x1000 true) as H.
  destruct H as (H & _ & I); [by vm_compute..|]. by split.
Defined.

Lemma media_roundtrip_witness : decode (encode (esp 50)) = esp 50.
Proof. apply media_roundtrip; by vm_compute. Defined.

End Volume.
