(* ===== verification/Fat.v ===== *)
(** * The FAT reader

    src/raynu_f/fat.rs: the boot parameter block and the geometry that follows from it,
    cluster chains in the three widths, directories with short names, paths, and the
    choice of the boot loader and its menu.

    Sizes and sector numbers are 32-bit words: [wrap32] marks the sums and products that
    can leave them. A buffer that is filled is the number of bytes asked for; the bytes
    that are returned are those at its front. *)

From Stdlib Require String Ascii.
From S2P Require Import Prelude Bytes Volume.
Import String.StringSyntax.
#[local] Delimit Scope string_scope with string.

Module Fat.
Import Volume.

(** ** Constants and data *)

Definition DIR_ENTRY_SIZE : Z := 32.
Definition ATTR_READ_ONLY : Z := 0x01.
Definition ATTR_HIDDEN : Z := 0x02.
Definition ATTR_SYSTEM : Z := 0x04.
Definition ATTR_VOLUME_ID : Z := 0x08.
Definition ATTR_DIRECTORY : Z := 0x10.
Definition ATTR_ARCHIVE : Z := 0x20.
Definition ATTR_LONG_NAME : Z := 0x0F.
Definition DIR_ENTRY_FREE : Z := 0xE5.
Definition DIR_ENTRY_END : Z := 0x00.
Definition MAX_CHAIN_HOPS : Z := 1048576.
Definition MAX_PATH_COMPONENTS : Z := 8.

Inductive FatKind := Fat12 | Fat16 | Fat32.

#[global] Instance FatKind_eq_dec : EqDecision FatKind.
Proof. solve_decision. Defined.

Inductive FatError :=
| ShortRead | BadBpb | NotFound | NotADirectory | IsADirectory | BadChain | PathTooLong.

#[global] Instance FatError_eq_dec : EqDecision FatError.
Proof. solve_decision. Defined.

Record FatVolume := mkFatVolume {
  kind : FatKind;
  bytes_per_sector : Z;
  sectors_per_cluster : Z;
  reserved_sectors : Z;
  num_fats : Z;
  root_entries : Z;
  total_sectors : Z;
  fat_sectors : Z;
  fat_start : Z;
  root_start : Z;
  root_sectors : Z;
  data_start : Z;
  cluster_count : Z;
  root_cluster : Z }.

Record FatEntry := mkFatEntry {
  name : list Z;
  name_len : Z;
  attr : Z;
  first_cluster : Z;
  size : Z }.

#[global] Instance FatEntry_eq_dec : EqDecision FatEntry.
Proof. solve_decision. Defined.

Definition wrap32 (z : Z) : Z := z mod 2 ^ 32.

(** ** The parameter block *)

Definition is_power_of_two (x : Z) : bool := (0 <? x) && (Z.land x (x - 1) =? 0).

Definition fat_kind (cluster_count : Z) : FatKind :=
  if cluster_count <? 4085 then Fat12 else if cluster_count <? 65525 then Fat16 else Fat32.

Definition parse_bpb (boot : list Z) : result FatVolume FatError :=
  if blen boot <? 512 then Err ShortRead
  else
    let bps := u16_le boot 11 in
    let spc := byte_at boot 13 in
    let reserved := u16_le boot 14 in
    let fats := byte_at boot 16 in
    let root_ents := u16_le boot 17 in
    let total16 := u16_le boot 19 in
    let fat16_sectors := u16_le boot 22 in
    let total32 := u32_le boot 32 in
    let fat32_sectors := u32_le boot 36 in
    let root_clus := u32_le boot 44 in
    if negb ((bps =? 512) || (bps =? 1024) || (bps =? 2048) || (bps =? 4096)) ||
       negb (is_power_of_two spc) || (spc =? 0) || (128 <? spc) || (reserved =? 0) ||
       negb ((1 <=? fats) && (fats <=? 2))
    then Err BadBpb
    else
      let total := if negb (total16 =? 0) then total16 else total32 in
      let fat_secs := if negb (fat16_sectors =? 0) then fat16_sectors else fat32_sectors in
      if (total =? 0) || (fat_secs =? 0) then Err BadBpb
      else
        let root_secs := (root_ents * DIR_ENTRY_SIZE + bps - 1) / bps in
        let rstart := wrap32 (reserved + wrap32 (fats * fat_secs)) in
        let dstart := wrap32 (rstart + root_secs) in
        if total <=? dstart then Err BadBpb
        else
          let count := (total - dstart) / spc in
          let k := fat_kind count in
          if bool_decide (k = Fat32) && (negb (root_ents =? 0) || (root_clus <? 2)) then Err BadBpb
          else if bool_decide (k ≠ Fat32) && (root_ents =? 0) then Err BadBpb
          else Ok (mkFatVolume k bps spc reserved fats root_ents total fat_secs reserved rstart
                     root_secs dstart count root_clus).

(** ** Clusters *)

Definition cluster_bytes (vol : FatVolume) : Z := bytes_per_sector vol * sectors_per_cluster vol.

Definition cluster_offset (vol : FatVolume) (cluster : Z) : Z :=
  let sector := wrap32 (data_start vol + wrap32 (wrap32 (cluster - 2) * sectors_per_cluster vol)) in
  sector * bytes_per_sector vol.

Definition is_end_of_chain (vol : FatVolume) (entry : Z) : bool :=
  match kind vol with
  | Fat12 => 0xFF8 <=? entry
  | Fat16 => 0xFFF8 <=? entry
  | Fat32 => 0x0FFFFFF8 <=? Z.land entry 0x0FFFFFFF
  end.

Definition cluster_is_valid (vol : FatVolume) (cluster : Z) : bool :=
  (2 <=? cluster) && (cluster <? wrap32 (cluster_count vol + 2)).

(** ** Directory entries *)

Definition is_dir (e : FatEntry) : bool := negb (Z.land (attr e) ATTR_DIRECTORY =? 0).
Definition name_bytes (e : FatEntry) : list Z := slice 0 (name_len e) (name e).

Definition to_ascii_uppercase (c : Z) : Z := if (97 <=? c) && (c <=? 122) then c - 32 else c.

Fixpoint take_while (f : Z → bool) (l : list Z) : list Z :=
  match l with [] => [] | c :: rest => if f c then c :: take_while f rest else [] end.

Fixpoint drop_while (f : Z → bool) (l : list Z) : list Z :=
  match l with [] => [] | c :: rest => if f c then drop_while f rest else c :: rest end.

Definition not_space (c : Z) : bool := negb (c =? 32).

(** The bytes that [short_name] puts at the front of its array. *)
Definition short_bytes (raw : list Z) : list Z :=
  let base := map to_ascii_uppercase (take_while not_space (slice 0 8 raw)) in
  if existsb not_space (slice 8 3 raw)
  then base ++ 46 :: map to_ascii_uppercase (take_while not_space (slice 8 3 raw))
  else base.

Definition short_name (raw : list Z) : list Z * Z :=
  let n := short_bytes raw in (n ++ replicate (12 - length n) 0, blen n).

Definition parse_dir_entry (e : list Z) : option FatEntry :=
  if (blen e <? DIR_ENTRY_SIZE) || (byte_at e 0 =? DIR_ENTRY_END) || (byte_at e 0 =? DIR_ENTRY_FREE) then None
  else
    let a := byte_at e 11 in
    if Z.land a ATTR_LONG_NAME =? ATTR_LONG_NAME then None
    else if negb (Z.land a ATTR_VOLUME_ID =? 0) then None
    else
      let '(n, n_len) := short_name (slice 0 11 e) in
      let hi := u16_le e 20 in
      let lo := u16_le e 26 in
      Some (mkFatEntry n n_len a (Z.lor (Z.shiftl hi 16) lo) (u32_le e 28)).

Definition eq_ignore_ascii_case (a b : list Z) : bool :=
  bool_decide (map to_ascii_uppercase a = map to_ascii_uppercase b).

(** ** Chains and directories *)

Section Reader.
Context `{VolumeRead R} (vol : FatVolume) (r : R).

Definition fat_base : Z := fat_start vol * bytes_per_sector vol.

Definition next_cluster (cluster : Z) : result Z FatError :=
  match kind vol with
  | Fat32 =>
      let? b := ok_or (read_at r (fat_base + cluster * 4) 4) ShortRead in
      Ok (Z.land (from_le b) 0x0FFFFFFF)
  | Fat16 =>
      let? b := ok_or (read_at r (fat_base + cluster * 2) 2) ShortRead in
      Ok (from_le b)
  | Fat12 =>
      let? b := ok_or (read_at r (fat_base + cluster * 3 / 2) 2) ShortRead in
      let raw := from_le b in
      Ok (if Z.land cluster 1 =? 0 then Z.land raw 0x0FFF else Z.shiftr raw 4)
  end.

(** The walk to the cluster that holds the offset, [k] clusters on: [None] when the
    chain ends before it. *)
Fixpoint walk (k : nat) (hops cluster : Z) : result (option (Z * Z)) FatError :=
  match k with
  | O => Ok (Some (hops, cluster))
  | S k' =>
      if negb (cluster_is_valid vol cluster) then Err BadChain
      else
        let? c := next_cluster cluster in
        if is_end_of_chain vol c then Ok None
        else if MAX_CHAIN_HOPS <? hops + 1 then Err BadChain
        else walk k' (hops + 1) c
  end.

(** [while done < buf.len()]: [left] bytes are still to be filled. *)
Fixpoint copy_loop (k : nat) (hops cluster within left : Z) : result (list Z) FatError :=
  match k with
  | O => Err BadChain
  | S k' =>
      if negb (cluster_is_valid vol cluster) then Err BadChain
      else
        let take := Z.min (cluster_bytes vol - within) left in
        let? bs := ok_or (read_at r (cluster_offset vol cluster + within) take) ShortRead in
        if left - take =? 0 then Ok bs
        else
          let? c := next_cluster cluster in
          if is_end_of_chain vol c then Ok bs
          else if MAX_CHAIN_HOPS <? hops + 1 then Err BadChain
          else
            let? rest := copy_loop k' (hops + 1) c 0 (left - take) in
            Ok (bs ++ rest)
  end.

Definition read_chain (first offset len : Z) : result (list Z) FatError :=
  if len =? 0 then Ok []
  else
    let cbytes := cluster_bytes vol in
    if cbytes =? 0 then Err BadBpb
    else
      let skip := offset / cbytes in
      let? at_ := walk (Z.to_nat (Z.min skip (MAX_CHAIN_HOPS + 1))) 0 first in
      match at_ with
      | None => Ok []
      | Some (hops, cluster) =>
          copy_loop (Z.to_nat (len / cbytes + 2)) hops cluster (offset mod cbytes) len
      end.

(** The entries of one extent of a directory. *)
Inductive Scan := Found (e : FatEntry) | EndMark | More | ScanShort.

Definition matching (nm : list Z) (e : list Z) : option FatEntry :=
  match parse_dir_entry e with
  | Some ent => if eq_ignore_ascii_case (name_bytes ent) nm then Some ent else None
  | None => None
  end.

Fixpoint scan (base : Z) (nm : list Z) (idxs : list Z) : Scan :=
  match idxs with
  | [] => More
  | i :: rest =>
      match read_at r (base + i * DIR_ENTRY_SIZE) DIR_ENTRY_SIZE with
      | None => ScanShort
      | Some e =>
          if byte_at e 0 =? DIR_ENTRY_END then EndMark
          else match matching nm e with
               | Some ent => Found ent
               | None => scan base nm rest
               end
      end
  end.

Definition per_cluster : Z := cluster_bytes vol / DIR_ENTRY_SIZE.

Fixpoint dir_loop (k : nat) (hops cluster : Z) (nm : list Z) : result FatEntry FatError :=
  match k with
  | O => Err BadChain
  | S k' =>
      if negb (cluster_is_valid vol cluster) then Err BadChain
      else
        match scan (cluster_offset vol cluster) nm (seqZ 0 per_cluster) with
        | Found ent => Ok ent
        | EndMark => Err NotFound
        | ScanShort => Err ShortRead
        | More =>
            let? c := next_cluster cluster in
            if is_end_of_chain vol c then Err NotFound
            else if MAX_CHAIN_HOPS <? hops + 1 then Err BadChain
            else dir_loop k' (hops + 1) c nm
        end
  end.

Definition root_base : Z := root_start vol * bytes_per_sector vol.

Definition dir_fuel : nat := Z.to_nat (MAX_CHAIN_HOPS + 1).

Definition find_in_dir (dir_cluster : Z) (nm : list Z) : result FatEntry FatError :=
  if (dir_cluster =? 0) && bool_decide (kind vol ≠ Fat32)
  then
    match scan root_base nm (seqZ 0 (root_entries vol)) with
    | Found ent => Ok ent
    | EndMark | More => Err NotFound
    | ScanShort => Err ShortRead
    end
  else
    let start := if dir_cluster =? 0 then root_cluster vol else dir_cluster in
    dir_loop dir_fuel 0 start nm.

(** ** Paths *)

Definition is_sep (c : Z) : bool := (c =? 92) || (c =? 47).
Definition not_sep (c : Z) : bool := negb (is_sep c).

(** [while i < path.len()] over what is left of the path. *)
Fixpoint resolve_loop (k : nat) (dir_cluster : Z) (last : option FatEntry) (comps : Z) (path : list Z)
    : result FatEntry FatError :=
  match k with
  | O => ok_or last NotFound
  | S k' =>
      match path with
      | [] => ok_or last NotFound
      | _ =>
          let p := drop_while is_sep path in
          let nm := take_while not_sep p in
          let rest := drop_while not_sep p in
          if bool_decide (nm = []) then resolve_loop k' dir_cluster last comps rest
          else if MAX_PATH_COMPONENTS <? comps + 1 then Err PathTooLong
          else
            let? dir :=
              match last with
              | Some prev => if negb (is_dir prev) then Err NotADirectory else Ok (first_cluster prev)
              | None => Ok dir_cluster
              end in
            let? ent := find_in_dir dir nm in
            resolve_loop k' dir (Some ent) (comps + 1) rest
      end
  end.

Definition resolve_in (start_dir : Z) (path : list Z) : result FatEntry FatError :=
  resolve_loop (length path) start_dir None 0 path.

Definition resolve_path (path : list Z) : result FatEntry FatError := resolve_in 0 path.

End Reader.

(** ** The boot loader and its menu *)

Definition of_ascii (s : String.string) : list Z := map (λ a, Z.of_N (Ascii.N_of_ascii a)) (String.list_ascii_of_string s).

Definition GRUB_CFG_PATH_BOOT : list Z := of_ascii "\EFI\BOOT\grub.cfg"%string.
Definition GRUB_CFG_PATH_ALPINE : list Z := of_ascii "\EFI\alpine\grub.cfg"%string.
Definition GRUB_CFG_PATH_UBUNTU : list Z := of_ascii "\EFI\ubuntu\grub.cfg"%string.

Definition pick_grub_cfg (boot alpine : option FatEntry) : option (list Z * Z) :=
  let alpine_pick :=
    match alpine with
    | Some e => if negb (is_dir e) then Some (GRUB_CFG_PATH_ALPINE, size e) else None
    | None => None
    end in
  match boot with
  | Some e => if negb (is_dir e) then Some (GRUB_CFG_PATH_BOOT, size e) else alpine_pick
  | None => alpine_pick
  end.

Definition DISK_BOOT_UBUNTU_SHIM : list Z := of_ascii "\EFI\ubuntu\shimx64.efi"%string.
Definition DISK_BOOT_UBUNTU_GRUB : list Z := of_ascii "\EFI\ubuntu\grubx64.efi"%string.
Definition DISK_BOOT_REMOVABLE : list Z := of_ascii "\EFI\BOOT\BOOTX64.EFI"%string.
Definition DISK_BOOT_ALPINE_GRUB : list Z := of_ascii "\EFI\alpine\grubx64.efi"%string.

Record DiskBootCandidate := mkDiskBootCandidate { dbc_path : list Z; publish_file_path : bool }.

Definition DISK_BOOT_CANDIDATES : list DiskBootCandidate :=
  [ mkDiskBootCandidate DISK_BOOT_UBUNTU_GRUB true;
    mkDiskBootCandidate DISK_BOOT_UBUNTU_SHIM true;
    mkDiskBootCandidate DISK_BOOT_REMOVABLE false;
    mkDiskBootCandidate DISK_BOOT_ALPINE_GRUB false ].

Definition pick_disk_bootloader (present : list Z → bool) : option DiskBootCandidate :=
  List.find (λ c, present (dbc_path c)) DISK_BOOT_CANDIDATES.

Definition starts_with (l p : list Z) : bool := bool_decide (take (length p) l = p).

Definition pick_grub_cfg_for_loader (loader : list Z) (ubuntu boot alpine : option FatEntry) : option (list Z * Z) :=
  if starts_with loader (of_ascii "\EFI\ubuntu\"%string) || starts_with loader (of_ascii "\efi\ubuntu\"%string)
  then
    match ubuntu with
    | Some e => if negb (is_dir e) then Some (GRUB_CFG_PATH_UBUNTU, size e) else pick_grub_cfg boot alpine
    | None => pick_grub_cfg boot alpine
    end
  else pick_grub_cfg boot alpine.

Lemma dir_fuel_bound : Z.of_nat dir_fuel = MAX_CHAIN_HOPS + 1.
Proof. apply Z2Nat.id. by compute. Qed.

#[global] Opaque dir_fuel.

(** ** Geometry *)

(** The regions of a volume in order, and none larger than the volume. *)
Record vol_ok (vol : FatVolume) : Prop := {
  ok_bps : bytes_per_sector vol = 512 ∨ bytes_per_sector vol = 1024 ∨ bytes_per_sector vol = 2048 ∨ bytes_per_sector vol = 4096;
  ok_spc : 1 ≤ sectors_per_cluster vol ≤ 128;
  ok_fat : 1 ≤ fat_start vol ∧ fat_start vol + num_fats vol * fat_sectors vol = root_start vol ∧ 1 ≤ num_fats vol * fat_sectors vol;
  ok_root : root_start vol + root_sectors vol = data_start vol ∧ 0 ≤ root_entries vol ∧
    root_entries vol * 32 ≤ root_sectors vol * bytes_per_sector vol;
  ok_data : 0 ≤ cluster_count vol ∧ data_start vol + cluster_count vol * sectors_per_cluster vol ≤ total_sectors vol;
  ok_total : total_sectors vol < 2 ^ 32 }.

(** The FAT copies, as the block declares them, fit 32 bits together with what
    surrounds them. *)
Definition fats_fit (vol : FatVolume) : Prop :=
  reserved_sectors vol + num_fats vol * fat_sectors vol + root_sectors vol < 2 ^ 32.

Lemma bps_cases b : negb ((b =? 512) || (b =? 1024) || (b =? 2048) || (b =? 4096)) = false →
  b = 512 ∨ b = 1024 ∨ b = 2048 ∨ b = 4096.
Proof. rewrite negb_false_iff, !orb_true_iff, !Z.eqb_eq. tauto. Qed.

Lemma parse_bpb_ok boot vol : Forall is_byte boot → parse_bpb boot = Ok vol → fats_fit vol → vol_ok vol.
Proof.
  intros F. unfold parse_bpb, byte_at, u16_le, u32_le. case_match; [done|].
  destruct (_ || _) eqn:C in |- *; [done|]. rewrite !orb_false_iff in C. destruct C as (((((Cb & Cp) & C0) & C1) & C2) & C3).
  apply bps_cases in Cb. apply Z.eqb_neq in C0, C2. apply Z.ltb_ge in C1.
  rewrite negb_false_iff, andb_true_iff, !Z.leb_le in C3.
  pose proof (field_range _ 13 1 F ltac:(lia)) as R1. pose proof (field_range _ 14 2 F ltac:(lia)) as R2.
  pose proof (field_range _ 16 1 F ltac:(lia)) as R3. pose proof (field_range _ 17 2 F ltac:(lia)) as R4.
  pose proof (field_range _ 19 2 F ltac:(lia)) as R5. pose proof (field_range _ 22 2 F ltac:(lia)) as R6.
  pose proof (field_range _ 32 4 F ltac:(lia)) as R7. pose proof (field_range _ 36 4 F ltac:(lia)) as R8.
  simpl Z.pow in *. set (bps := from_le (slice 11 2 boot)) in *. set (spc := from_le (slice 13 1 boot)) in *.
  set (rs := from_le (slice 14 2 boot)) in *. set (nf := from_le (slice 16 1 boot)) in *.
  set (re := from_le (slice 17 2 boot)) in *. set (tot := if negb _ then _ else _).
  set (fs := if negb (from_le (slice 22 2 boot) =? 0) then _ else _).
  assert (0 ≤ tot < 2 ^ 32) as T by (unfold tot; case_match; lia). assert (0 ≤ fs < 2 ^ 32) as S by (unfold fs; case_match; lia).
  clearbody tot fs. destruct (_ || _) eqn:Z0 in |- *; [done|]. rewrite orb_false_iff, !Z.eqb_neq in Z0.
  set (rsec := (re * DIR_ENTRY_SIZE + bps - 1) / bps).
  assert (0 ≤ rsec ∧ re * 32 ≤ rsec * bps) as Q.
  { unfold rsec, DIR_ENTRY_SIZE. clear -R4 Cb. destruct Cb as [-> | [-> | [-> | ->]]]; dlia. }
  clearbody rsec. destruct (tot <=? _) eqn:D; [done|]. apply Z.leb_gt in D. do 2 (case_match; [done|]). intros [= <-] W.
  unfold fats_fit in W. simpl in W. unfold wrap32 in *.
  rewrite (Z.mod_small (nf * fs)), (Z.mod_small (rs + _)), (Z.mod_small (_ + rsec)) in * by (clear -W Q R2 C3 S; nia).
  split; simpl; try done; try lia.
  clear -D R1 C0. split; [apply Z.div_pos; lia|]. pose proof (Z.mul_div_le (tot - (rs + nf * fs + rsec)) spc ltac:(lia)). lia.
Qed.

Section Walks.
Context `{VolumeRead R} (vol : FatVolume) (r : R) (V : vol_ok vol).

Lemma bps_pos : 512 ≤ bytes_per_sector vol ≤ 4096.
Proof. pose proof (ok_bps _ V). lia. Qed.

Lemma count_small : cluster_count vol + 2 < 2 ^ 32.
Proof.
  pose proof (ok_data _ V) as [C D]. pose proof (ok_fat _ V) as (? & ? & ?). pose proof (ok_root _ V) as (? & ? & ?).
  pose proof (ok_total _ V). pose proof (ok_spc _ V). pose proof bps_pos.
  assert (0 ≤ root_sectors vol) by nia. nia.
Qed.

Lemma valid_iff c : cluster_is_valid vol c = true ↔ 2 ≤ c < cluster_count vol + 2.
Proof.
  pose proof count_small. pose proof (ok_data _ V) as [? _]. unfold cluster_is_valid, wrap32.
  rewrite Z.mod_small by lia. rewrite andb_true_iff, Z.leb_le, Z.ltb_lt. lia.
Qed.

Lemma cluster_place c : cluster_is_valid vol c = true →
  cluster_offset vol c = (data_start vol + (c - 2) * sectors_per_cluster vol) * bytes_per_sector vol ∧
  data_start vol * bytes_per_sector vol ≤ cluster_offset vol c ∧
  cluster_offset vol c + cluster_bytes vol ≤ total_sectors vol * bytes_per_sector vol.
Proof.
  intros C%valid_iff. pose proof (ok_data _ V) as [? D]. pose proof (ok_fat _ V) as (? & ? & ?). pose proof (ok_root _ V) as (? & ? & ?).
  pose proof (ok_total _ V). pose proof (ok_spc _ V) as S. pose proof bps_pos as B. assert (0 ≤ root_sectors vol) by nia.
  assert ((c - 2 + 1) * sectors_per_cluster vol ≤ cluster_count vol * sectors_per_cluster vol) as M by (apply Z.mul_le_mono_nonneg_r; lia).
  assert (0 ≤ (c - 2) * sectors_per_cluster vol) as P by (apply Z.mul_nonneg_nonneg; lia).
  assert (cluster_offset vol c = (data_start vol + (c - 2) * sectors_per_cluster vol) * bytes_per_sector vol) as E.
  { pose proof count_small. unfold cluster_offset, wrap32. rewrite (Z.mod_small (c - 2)), (Z.mod_small (_ * _)), Z.mod_small; lia. }
  unfold cluster_bytes. rewrite E. split; [done|]. split; [apply Z.mul_le_mono_nonneg_r; lia|].
  rewrite (Z.mul_comm (bytes_per_sector vol) (sectors_per_cluster vol)), <-Z.mul_add_distr_r. apply Z.mul_le_mono_nonneg_r; lia.
Qed.

(** *** Chains as the table links them *)

Inductive chain : Z → list Z → Prop :=
| chain_end c e : cluster_is_valid vol c = true → next_cluster vol r c = Ok e → is_end_of_chain vol e = true → chain c [c]
| chain_link c e cs : cluster_is_valid vol c = true → next_cluster vol r c = Ok e → is_end_of_chain vol e = false →
    chain e cs → chain c (c :: cs).

Lemma chain_hd c cs : chain c cs → ∃ tl, cs = c :: tl.
Proof. destruct 1; eauto. Qed.

Lemma walk_chain k : ∀ c cs hops, chain c cs → hops + Z.of_nat (length cs) ≤ MAX_CHAIN_HOPS + 1 →
  walk vol r k hops c = Ok (match drop k cs with [] => None | c' :: _ => Some (hops + Z.of_nat k, c') end).
Proof.
  induction k as [|k IH]; intros c cs hops C L.
  - destruct (chain_hd _ _ C) as [tl ->]. simpl. by rewrite Z.add_0_r.
  - destruct C as [c e Vc N E|c e cs Vc N E C]; simpl; rewrite Vc, N; simpl; rewrite E; [by rewrite drop_nil|].
    destruct (chain_hd _ _ C) as [tl Q]. simpl length in L. rewrite Q in L. simpl length in L.
    rewrite (proj2 (Z.ltb_ge _ _)) by lia. rewrite (IH _ _ _ C) by (rewrite Q; simpl length; lia).
    by replace (hops + 1 + Z.of_nat k) with (hops + Z.of_nat (S k)) by lia.
Qed.

Lemma chain_drop k : ∀ c cs c' tl, chain c cs → drop k cs = c' :: tl → chain c' (c' :: tl).
Proof.
  induction k as [|k IH]; intros c cs c' tl C E.
  - rewrite drop_0 in E. subst. destruct (chain_hd _ _ C) as [? Q]. by simplify_eq.
  - destruct C as [|? ? ? ? ? ? C]; simpl in E; [by rewrite drop_nil in E|]. by eapply IH.
Qed.

Lemma chain_valid c cs : chain c cs → Forall (λ c, cluster_is_valid vol c = true) cs.
Proof. induction 1; by constructor. Qed.

(** *** The bytes behind a chain *)

Context (img : list Z) (B : Backed r img) (W : total_sectors vol * bytes_per_sector vol ≤ blen img).

Definition cluster_data (c : Z) : list Z := slice (cluster_offset vol c) (cluster_bytes vol) img.
Definition chain_bytes (cs : list Z) : list Z := concat (map cluster_data cs).

Lemma cbytes_pos : 512 ≤ cluster_bytes vol ≤ 524288 ∧ cluster_bytes vol mod 32 = 0.
Proof.
  pose proof (ok_spc _ V). unfold cluster_bytes. split; [pose proof bps_pos; nia|].
  assert (bytes_per_sector vol = bytes_per_sector vol / 32 * 32) as ->.
  { by destruct (ok_bps _ V) as [-> | [-> | [-> | ->]]]. }
  rewrite Z.mul_shuffle0. apply Z.mod_mul. lia.
Qed.

Lemma data_nonneg : 0 ≤ data_start vol * bytes_per_sector vol.
Proof.
  pose proof (ok_fat _ V) as (? & ? & ?). pose proof (ok_root _ V) as (? & ? & ?). pose proof bps_pos.
  assert (0 ≤ root_sectors vol) by nia. apply Z.mul_nonneg_nonneg; lia.
Qed.

Lemma cluster_range c : cluster_is_valid vol c = true →
  0 ≤ cluster_offset vol c ∧ cluster_offset vol c + cluster_bytes vol ≤ blen img.
Proof. intros Vc. destruct (cluster_place c Vc) as (_ & D & E). pose proof data_nonneg. lia. Qed.

Lemma read_cluster c within n : cluster_is_valid vol c = true → 0 ≤ within → 0 ≤ n → within + n ≤ cluster_bytes vol →
  read_at r (cluster_offset vol c + within) n = Some (slice within n (cluster_data c)).
Proof.
  intros Vc O N L. destruct (cluster_range c Vc). unfold cluster_data. rewrite slice_slice by lia. apply backed; lia.
Qed.

Lemma blen_cluster c : cluster_is_valid vol c = true → blen (cluster_data c) = cluster_bytes vol.
Proof. intros Vc. pose proof cbytes_pos as [? _]. destruct (cluster_range c Vc). apply blen_slice; lia. Qed.

Lemma copy_chain k : ∀ c cs hops within left, chain c cs → hops + Z.of_nat (length cs) ≤ MAX_CHAIN_HOPS + 1 →
  0 ≤ within < cluster_bytes vol → 0 < left → within + left ≤ cluster_bytes vol * Z.of_nat k →
  copy_loop vol r k hops c within left = Ok (slice within left (chain_bytes cs)).
Proof.
  induction k as [|k IH]; intros c cs hops within left C L I P K; [lia|].
  assert (cluster_is_valid vol c = true) as Vc by (by destruct C).
  simpl. rewrite Vc. simpl. rewrite read_cluster by (done || lia). simpl.
  pose proof (blen_cluster c Vc) as Lc. set (take := Z.min _ left). fold take.
  destruct (decide (left ≤ cluster_bytes vol - within)).
  - replace take with left by lia. rewrite Z.sub_diag. simpl. destruct (chain_hd _ _ C) as [tl ->].
    unfold chain_bytes. simpl. by rewrite slice_app_left by lia.
  - replace take with (cluster_bytes vol - within) by lia. rewrite (proj2 (Z.eqb_neq _ 0)) by lia.
    destruct C as [c e _ N E|c e cs _ N E C]; rewrite N; simpl; rewrite E; unfold chain_bytes; simpl.
    + rewrite app_nil_r. f_equal. unfold slice, blen in *. rewrite !take_ge; [done|..]; rewrite length_drop; lia.
    + destruct (chain_hd _ _ C) as [tl Q]. rewrite length_cons in L. pose proof L as L'. rewrite Q, length_cons in L'.
      rewrite (proj2 (Z.ltb_ge _ _)) by lia. rewrite (IH e cs) by (done || lia). simpl.
      rewrite slice_app_over by lia. by rewrite Lc.
Qed.

Lemma blen_chain cs : Forall (λ c, cluster_is_valid vol c = true) cs →
  blen (chain_bytes cs) = cluster_bytes vol * Z.of_nat (length cs).
Proof.
  unfold chain_bytes. induction 1 as [|c cs Vc F IH]; [by rewrite Z.mul_0_r|]. simpl map. simpl concat.
  unfold blen in *. rewrite length_app, length_cons, Nat2Z.inj_add, IH. pose proof (blen_cluster c Vc). unfold blen in *. lia.
Qed.

Lemma read_chain_slice c cs offset len : chain c cs → Z.of_nat (length cs) ≤ MAX_CHAIN_HOPS + 1 → 0 ≤ offset → 0 ≤ len →
  read_chain vol r c offset len = Ok (slice offset len (chain_bytes cs)).
Proof.
  intros C L O N. pose proof cbytes_pos as [P _]. unfold read_chain. destruct (len =? 0) eqn:Z.
  { apply Z.eqb_eq in Z. by subst. }
  apply Z.eqb_neq in Z. rewrite (proj2 (Z.eqb_neq (cluster_bytes vol) 0)) by lia.
  set (skip := offset / cluster_bytes vol). assert (0 ≤ skip) as S by (apply Z.div_pos; lia).
  pose proof (Z.div_mod offset (cluster_bytes vol) ltac:(lia)) as D. fold skip in D.
  pose proof (Z.mod_pos_bound offset (cluster_bytes vol) ltac:(lia)) as M.
  rewrite (walk_chain _ c cs) by (done || lia). set (k := Z.to_nat _). simpl.
  pose proof (blen_chain _ (chain_valid _ _ C)) as T. destruct (drop k cs) as [|c' tl] eqn:E.
  - rewrite slice_past; [done|]. rewrite T. apply (f_equal length) in E. rewrite length_drop in E. simpl in E. nia.
  - pose proof (f_equal length E) as E'. rewrite length_drop in E'. simpl in E'. assert (Z.of_nat k = skip) as K by lia.
    pose proof (chain_drop _ _ _ _ _ C E) as C'.
    rewrite (copy_chain _ c' (c' :: tl)); [|done|simpl length; lia|lia|lia|].
    + rewrite <-(take_drop k cs) at 1. unfold chain_bytes. rewrite map_app, concat_app. rewrite E.
      pose proof (blen_chain (take k cs) (Forall_take _ _ _ (chain_valid _ _ C))) as U. unfold chain_bytes in U.
      rewrite slice_app_right; rewrite U, length_take; [|nia]. do 2 f_equal. nia.
    + pose proof (Z.div_mod len (cluster_bytes vol) ltac:(lia)). pose proof (Z.mod_pos_bound len (cluster_bytes vol) ltac:(lia)).
      rewrite Z2Nat.id by (pose proof (Z.div_pos len (cluster_bytes vol)); lia). nia.
Qed.

(** *** Directories as lists of slots *)

Definition is_end (s : list Z) : bool := byte_at s 0 =? DIR_ENTRY_END.

Fixpoint before_end (slots : list (list Z)) : list (list Z) :=
  match slots with [] => [] | s :: rest => if is_end s then [] else s :: before_end rest end.

Definition dir_slots (bs : list Z) : list (list Z) := (λ i, slice (i * 32) 32 bs) <$> seqZ 0 (blen bs / 32).

(** The reference: the first entry of that name in front of the end mark. *)
Definition lookup_dir (nm bs : list Z) : option FatEntry := find_map (matching nm) (before_end (dir_slots bs)).

Lemma scan_slots base nm idxs slots :
  Forall2 (λ i s, read_at r (base + i * DIR_ENTRY_SIZE) DIR_ENTRY_SIZE = Some s) idxs slots →
  scan r base nm idxs =
    match find_map (matching nm) (before_end slots) with
    | Some e => Found e
    | None => if existsb is_end slots then EndMark else More
    end.
Proof.
  induction 1 as [|i s idxs slots E F IH]; [done|]. simpl. rewrite E. fold (is_end s).
  destruct (is_end s); [done|]. simpl. by destruct (matching nm s).
Qed.

Lemma before_end_app a b : before_end (a ++ b) = if existsb is_end a then before_end a else before_end a ++ before_end b.
Proof. induction a as [|s a IH]; [done|]. simpl. destruct (is_end s); [done|]. simpl. rewrite IH. by case_match. Qed.

Lemma dir_slots_app a b : blen a mod 32 = 0 → dir_slots (a ++ b) = dir_slots a ++ dir_slots b.
Proof.
  intros M. unfold dir_slots. pose proof (Z.div_mod (blen a) 32 ltac:(lia)) as D.
  assert (blen (a ++ b) = blen a + blen b) as -> by (unfold blen; rewrite length_app; lia).
  assert (0 ≤ blen a ∧ 0 ≤ blen b) as [Pa Pb] by (unfold blen; lia).
  assert ((blen a + blen b) / 32 = blen a / 32 + blen b / 32) as ->.
  { rewrite D, M, Z.add_0_r. rewrite (Z.mul_comm 32), Z.div_add_l, Z.div_mul; lia. }
  rewrite seqZ_app, fmap_app, Z.add_0_l by (apply Z.div_pos; lia). f_equal.
  - apply list_fmap_ext. intros ? i [-> I]%lookup_seqZ. apply slice_app_left; lia.
  - rewrite <-(Z.add_0_r (blen a / 32)) at 1. rewrite <-fmap_add_seqZ, <-list_fmap_compose.
    apply list_fmap_ext. intros ? i [-> I]%lookup_seqZ. simpl. rewrite slice_app_right by lia. f_equal. lia.
Qed.

Lemma scan_extent base n nm : 0 ≤ base → 0 ≤ n → base + n * 32 ≤ blen img →
  scan r base nm (seqZ 0 n) =
    match lookup_dir nm (slice base (n * 32) img) with
    | Some e => Found e
    | None => if existsb is_end (dir_slots (slice base (n * 32) img)) then EndMark else More
    end.
Proof.
  intros O N L. unfold lookup_dir. apply scan_slots. unfold dir_slots. rewrite blen_slice, Z.div_mul by lia.
  apply Forall2_fmap_r, Forall_Forall2_diag, Forall_forall. intros i I%elem_of_seqZ.
  simpl. unfold DIR_ENTRY_SIZE. rewrite slice_slice by lia. apply backed; lia.
Qed.

Lemma scan_cluster c nm : cluster_is_valid vol c = true →
  scan r (cluster_offset vol c) nm (seqZ 0 (per_cluster vol)) =
    match lookup_dir nm (cluster_data c) with
    | Some e => Found e
    | None => if existsb is_end (dir_slots (cluster_data c)) then EndMark else More
    end.
Proof.
  intros Vc. pose proof cbytes_pos as [P M]. unfold per_cluster, DIR_ENTRY_SIZE, cluster_data.
  assert (cluster_bytes vol = cluster_bytes vol / 32 * 32) as E by (rewrite (Z.div_mod (cluster_bytes vol) 32) at 1; lia).
  destruct (cluster_range c Vc) as [? ?]. pose proof (scan_extent (cluster_offset vol c) (cluster_bytes vol / 32) nm) as S.
  rewrite <-E in S. apply S; lia.
Qed.

(** *** Looking a name up *)

Lemma lookup_dir_app nm a b : blen a mod 32 = 0 → lookup_dir nm (a ++ b) =
  match lookup_dir nm a with
  | Some e => Some e
  | None => if existsb is_end (dir_slots a) then None else lookup_dir nm b
  end.
Proof.
  intros M. unfold lookup_dir. rewrite dir_slots_app, before_end_app by done. destruct (existsb _ _).
  - by case_match.
  - rewrite find_map_app. by case_match.
Qed.

Lemma dir_loop_chain k : ∀ c cs hops nm, chain c cs → hops + Z.of_nat (length cs) ≤ MAX_CHAIN_HOPS + 1 →
  (length cs ≤ k)%nat →
  dir_loop vol r k hops c nm = ok_or (lookup_dir nm (chain_bytes cs)) NotFound.
Proof.
  induction k as [|k IH]; intros c cs hops nm C L K.
  { destruct (chain_hd _ _ C) as [tl ->]. simpl in K. lia. }
  assert (cluster_is_valid vol c = true) as Vc by (by destruct C). simpl. rewrite Vc. simpl. rewrite scan_cluster by done.
  pose proof cbytes_pos as [_ M]. pose proof (blen_cluster c Vc) as Lc.
  destruct C as [c e _ N E|c e cs _ N E C]; change (chain_bytes (c :: ?cs)) with (cluster_data c ++ chain_bytes cs).
  - unfold chain_bytes. simpl. rewrite app_nil_r. destruct (lookup_dir nm (cluster_data c)); [done|].
    destruct (existsb _ _); [done|]. rewrite N. simpl. by rewrite E.
  - rewrite lookup_dir_app by congruence. destruct (lookup_dir nm (cluster_data c)); [done|].
    destruct (existsb _ _); [done|]. rewrite N. simpl. rewrite E. rewrite length_cons in K, L.
    destruct (chain_hd _ _ C) as [tl Q]. pose proof L as L'. rewrite Q, length_cons in L'.
    rewrite (proj2 (Z.ltb_ge _ _)) by lia. apply IH; [done|lia..].
Qed.

(** The bytes of the directory at a cluster number, 0 for the root. *)
Inductive dir_image : Z → list Z → Prop :=
| dir_root : kind vol ≠ Fat32 → dir_image 0 (slice (root_base vol) (root_entries vol * 32) img)
| dir_root32 cs : kind vol = Fat32 → chain (root_cluster vol) cs → Z.of_nat (length cs) ≤ MAX_CHAIN_HOPS + 1 →
    dir_image 0 (chain_bytes cs)
| dir_sub c cs : c ≠ 0 → chain c cs → Z.of_nat (length cs) ≤ MAX_CHAIN_HOPS + 1 → dir_image c (chain_bytes cs).

Lemma root_range : 0 ≤ root_base vol ∧ root_base vol + root_entries vol * 32 ≤ data_start vol * bytes_per_sector vol.
Proof.
  unfold root_base. pose proof (ok_fat _ V) as (? & ? & ?). pose proof (ok_root _ V) as (? & ? & ?). pose proof bps_pos.
  split; [apply Z.mul_nonneg_nonneg; lia|]. nia.
Qed.

Lemma data_in_image : data_start vol * bytes_per_sector vol ≤ blen img.
Proof.
  pose proof (ok_data _ V) as [? ?]. pose proof (ok_spc _ V). pose proof bps_pos.
  assert (data_start vol ≤ total_sectors vol) by nia. nia.
Qed.

Lemma find_in_dir_lookup d bs nm : dir_image d bs → find_in_dir vol r d nm = ok_or (lookup_dir nm bs) NotFound.
Proof.
  pose proof dir_fuel_bound as K. unfold find_in_dir. destruct 1 as [k|cs k C L|c cs k C L].
  - rewrite bool_decide_true by done. simpl. pose proof root_range as [? ?]. pose proof data_in_image.
    rewrite scan_extent; [|lia|apply (ok_root _ V)|lia].
    destruct (lookup_dir nm _); [done|]. by destruct (existsb _ _).
  - rewrite bool_decide_false by (intros Q; by apply Q). simpl. apply dir_loop_chain; [done|lia|]. lia.
  - rewrite (proj2 (Z.eqb_neq c 0)) by done. simpl. apply dir_loop_chain; [done|lia|]. lia.
Qed.

End Walks.

(** ** Only the volume is read *)

Section Confined.
Context `{VolumeRead R} (vol : FatVolume) (r r' : R) (V : vol_ok vol).

(** Two readers that show the same volume; what lies behind it may differ. *)
Definition same_volume : Prop := ∀ off n, 0 ≤ off → 0 ≤ n →
  off + n ≤ total_sectors vol * bytes_per_sector vol → read_at r off n = read_at r' off n.

Context (A : same_volume).

Lemma entry_range c : cluster_is_valid vol c = true →
  0 ≤ fat_base vol ∧ fat_base vol + c * 4 + 4 ≤ total_sectors vol * bytes_per_sector vol.
Proof.
  intros C%(valid_iff vol V). pose proof (ok_data _ V) as [? D]. pose proof (ok_fat _ V) as (? & ? & ?). pose proof (ok_root _ V) as (? & ? & ?).
  pose proof (ok_spc _ V). pose proof (bps_pos _ V). assert (0 ≤ root_sectors vol) by nia. unfold fat_base.
  split; [apply Z.mul_nonneg_nonneg; lia|].
  assert (fat_start vol + cluster_count vol ≤ total_sectors vol) as F by nia.
  assert ((fat_start vol + cluster_count vol) * bytes_per_sector vol ≤ total_sectors vol * bytes_per_sector vol) by (apply Z.mul_le_mono_nonneg_r; lia).
  assert (512 * cluster_count vol ≤ cluster_count vol * bytes_per_sector vol) by (rewrite Z.mul_comm; apply Z.mul_le_mono_nonneg_l; lia). lia.
Qed.

Lemma next_agree c : cluster_is_valid vol c = true → next_cluster vol r c = next_cluster vol r' c.
Proof.
  intros C. pose proof (entry_range c C) as [? ?]. apply (valid_iff vol V) in C. unfold next_cluster.
  destruct (kind vol); rewrite A; try done; try lia.
  - clear -C H0. dlia.
  - clear -C H0 H1. dlia.
Qed.

Lemma walk_agree k : ∀ hops c, walk vol r k hops c = walk vol r' k hops c.
Proof.
  induction k as [|k IH]; intros hops c; [done|]. simpl. destruct (cluster_is_valid vol c) eqn:C; [|done]. simpl.
  rewrite next_agree by done. destruct (next_cluster vol r' c); [|done]. simpl. by rewrite IH.
Qed.

Lemma read_agree c within n : cluster_is_valid vol c = true → 0 ≤ within → 0 ≤ n → within + n ≤ cluster_bytes vol →
  read_at r (cluster_offset vol c + within) n = read_at r' (cluster_offset vol c + within) n.
Proof.
  intros C ? ? ?. destruct (cluster_place vol V c C) as (_ & ? & ?). pose proof (data_nonneg vol V). apply A; lia.
Qed.

Lemma copy_agree k : ∀ hops c within left, 0 ≤ within < cluster_bytes vol → 0 ≤ left →
  copy_loop vol r k hops c within left = copy_loop vol r' k hops c within left.
Proof.
  induction k as [|k IH]; intros hops c within left I L; [done|]. simpl. destruct (cluster_is_valid vol c) eqn:C; [|done]. simpl.
  rewrite read_agree, next_agree by (done || lia). destruct (read_at r' _ _); [|done]. simpl.
  destruct (_ =? 0); [done|]. destruct (next_cluster vol r' c); [|done]. simpl. rewrite IH by lia. done.
Qed.

Lemma read_chain_agree c offset len : 0 ≤ offset → 0 ≤ len → read_chain vol r c offset len = read_chain vol r' c offset len.
Proof.
  intros O L. pose proof (cbytes_pos vol V) as [? _]. unfold read_chain. rewrite walk_agree.
  destruct (len =? 0); [done|]. destruct (cluster_bytes vol =? 0); [done|].
  destruct (walk _ _ _ _ _) as [[[hops c']|]|]; [|done..]. apply copy_agree; [|done]. apply Z.mod_pos_bound. lia.
Qed.

Lemma scan_agree base n nm : 0 ≤ base → base + n * 32 ≤ total_sectors vol * bytes_per_sector vol →
  scan r base nm (seqZ 0 n) = scan r' base nm (seqZ 0 n).
Proof.
  intros O L. assert (∀ i, i ∈ seqZ 0 n → 0 ≤ i < n) as F by (intros i I%elem_of_seqZ; lia).
  revert F. generalize (seqZ 0 n). intros l. induction l as [|i l IH]; intros F; [done|].
  assert (0 ≤ i < n) by (apply F; left). simpl. unfold DIR_ENTRY_SIZE. rewrite A by lia. rewrite IH; [done|].
  intros j J. apply F. by right.
Qed.

Lemma dir_agree k : ∀ hops c nm, dir_loop vol r k hops c nm = dir_loop vol r' k hops c nm.
Proof.
  induction k as [|k IH]; intros hops c nm; [done|]. simpl. destruct (cluster_is_valid vol c) eqn:C; [|done]. simpl.
  rewrite next_agree by done. destruct (cluster_place vol V c C) as (_ & ? & ?). pose proof (data_nonneg vol V).
  rewrite scan_agree.
  - destruct (scan _ _ _ _); try done. destruct (next_cluster vol r' c); [|done]. simpl. by rewrite IH.
  - lia.
  - unfold per_cluster, DIR_ENTRY_SIZE. pose proof (Z.mul_div_le (cluster_bytes vol) 32). lia.
Qed.

Lemma find_agree d nm : find_in_dir vol r d nm = find_in_dir vol r' d nm.
Proof.
  unfold find_in_dir. rewrite dir_agree. rewrite scan_agree; [done|apply (root_range vol V)|].
  pose proof (root_range vol V) as [? ?]. pose proof (ok_data _ V) as [? ?]. pose proof (ok_spc _ V). pose proof (bps_pos _ V).
  assert (data_start vol ≤ total_sectors vol) by nia. nia.
Qed.

Lemma resolve_agree k : ∀ d last comps path, resolve_loop vol r k d last comps path = resolve_loop vol r' k d last comps path.
Proof.
  induction k as [|k IH]; intros d last comps path; [done|]. simpl. destruct path as [|x path]; [done|].
  case_match; [apply IH|]. case_match; [done|].
  destruct last as [prev|]; [destruct (is_dir prev); simpl; [|reflexivity]|simpl];
    rewrite find_agree; (destruct (find_in_dir vol r' _ _); simpl; [apply IH|reflexivity]).
Qed.

End Confined.

(** ** Every walk ends *)

Section Ends.
Context `{VolumeRead R} (vol : FatVolume) (r : R).

Lemma walk_stops k : ∀ x hops c, hops ≤ MAX_CHAIN_HOPS → MAX_CHAIN_HOPS + 1 ≤ hops + Z.of_nat k →
  walk vol r (k + x) hops c = walk vol r k hops c.
Proof.
  induction k as [|k IH]; intros x hops c L K; [lia|]. simpl. destruct (cluster_is_valid vol c); [|done]. simpl.
  destruct (next_cluster vol r c); [|done]. simpl. destruct (is_end_of_chain _ _); [done|].
  destruct (MAX_CHAIN_HOPS <? hops + 1) eqn:E; [done|]. apply Z.ltb_ge in E. apply IH; lia.
Qed.

Lemma copy_stops k : ∀ x hops c within left, 0 ≤ within < cluster_bytes vol → 0 < left →
  within + left ≤ cluster_bytes vol * Z.of_nat k → copy_loop vol r (k + x) hops c within left = copy_loop vol r k hops c within left.
Proof.
  induction k as [|k IH]; intros x hops c within left I P K; [lia|]. simpl. destruct (cluster_is_valid vol c); [|done]. simpl.
  destruct (read_at r _ _); [|done]. simpl. destruct (_ =? 0) eqn:Z; [done|]. apply Z.eqb_neq in Z.
  destruct (next_cluster vol r c); [|done]. simpl. destruct (is_end_of_chain _ _); [done|]. destruct (_ <? _); [done|].
  by rewrite IH by lia.
Qed.

Lemma dir_stops k : ∀ x hops c nm, hops ≤ MAX_CHAIN_HOPS → MAX_CHAIN_HOPS + 1 ≤ hops + Z.of_nat k →
  dir_loop vol r (k + x) hops c nm = dir_loop vol r k hops c nm.
Proof.
  induction k as [|k IH]; intros x hops c nm L K; [lia|]. simpl. destruct (cluster_is_valid vol c); [|done]. simpl.
  destruct (scan _ _ _ _); try done. destruct (next_cluster vol r c); [|done]. simpl. destruct (is_end_of_chain _ _); [done|].
  destruct (MAX_CHAIN_HOPS <? hops + 1) eqn:E; [done|]. apply Z.ltb_ge in E. apply IH; lia.
Qed.

End Ends.

(** ** Paths by components *)

Fixpoint split_path (cur path : list Z) : list (list Z) :=
  match path with
  | [] => [cur]
  | c :: rest => if is_sep c then cur :: split_path [] rest else split_path (cur ++ [c]) rest
  end.

Definition components (path : list Z) : list (list Z) := filter (λ nm, nm ≠ []) (split_path [] path).

Lemma split_path_step path : ∀ cur, split_path cur path =
  (cur ++ take_while not_sep path) :: match drop_while not_sep path with [] => [] | _ :: rest => split_path [] rest end.
Proof.
  induction path as [|c path IH]; intros cur; simpl; [by rewrite app_nil_r|]. unfold not_sep at 1 3. destruct (is_sep c); simpl.
  - by rewrite app_nil_r.
  - by rewrite IH, <-app_assoc.
Qed.

Lemma drop_while_head f l : match drop_while f l with [] => True | c :: _ => f c = false end.
Proof. induction l as [|c l IH]; [done|]. simpl. by destruct (f c) eqn:E. Qed.

Lemma length_drop_while f l : (length (drop_while f l) ≤ length l)%nat.
Proof. induction l as [|c l IH]; [done|]. simpl. case_match; simpl; lia. Qed.

Lemma components_skip path : components (drop_while is_sep path) = components path.
Proof.
  induction path as [|c path IH]; [done|]. simpl. destruct (is_sep c) eqn:E; [|done]. rewrite IH.
  unfold components. simpl. by rewrite E.
Qed.

Lemma components_step path : let p := drop_while is_sep path in
  components path = (if bool_decide (take_while not_sep p = []) then [] else [take_while not_sep p]) ++ components (drop_while not_sep p).
Proof.
  simpl. rewrite <-components_skip. set (p := drop_while is_sep path). unfold components at 1. rewrite split_path_step. simpl app.
  assert (components (drop_while not_sep p) =
    filter (λ nm, nm ≠ []) match drop_while not_sep p with [] => [] | _ :: rest => split_path [] rest end) as ->.
  { pose proof (drop_while_head not_sep p) as D. unfold components. destruct (drop_while not_sep p) as [|c rest]; [done|].
    unfold not_sep in D. apply negb_false_iff in D. simpl. by rewrite D. }
  rewrite filter_cons. case_decide as Q; case_bool_decide; by try done.
Qed.

Lemma rest_shorter x path : let p := drop_while is_sep (x :: path) in
  (length (drop_while not_sep p) ≤ length path)%nat.
Proof.
  simpl. destruct (is_sep x) eqn:E.
  - pose proof (length_drop_while not_sep (drop_while is_sep path)). pose proof (length_drop_while is_sep path). lia.
  - simpl. unfold not_sep at 1. rewrite E. simpl. apply length_drop_while.
Qed.

Section Paths.
Context `{VolumeRead R} (vol : FatVolume) (r : R).

(** The reference: look the components up one after the other, each in the directory
    that the one before it names. *)
Fixpoint resolve_names (dir : Z) (last : option FatEntry) (comps : Z) (names : list (list Z)) : result FatEntry FatError :=
  match names with
  | [] => ok_or last NotFound
  | nm :: rest =>
      if MAX_PATH_COMPONENTS <? comps + 1 then Err PathTooLong
      else
        let? d := match last with
                  | Some prev => if negb (is_dir prev) then Err NotADirectory else Ok (first_cluster prev)
                  | None => Ok dir
                  end in
        let? ent := find_in_dir vol r d nm in
        resolve_names d (Some ent) (comps + 1) rest
  end.

Lemma resolve_loop_names k : ∀ dir last comps path, (length path ≤ k)%nat →
  resolve_loop vol r k dir last comps path = resolve_names dir last comps (components path).
Proof.
  induction k as [|k IH]; intros dir last comps path L.
  { by destruct path; [|simpl in L; lia]. }
  destruct path as [|x path]; [done|]. rewrite components_step. pose proof (rest_shorter x path) as Q. simpl in L.
  cbv zeta in Q |- *. change (resolve_loop vol r (S k) dir last comps (x :: path)) with
    (let p := drop_while is_sep (x :: path) in
     let nm := take_while not_sep p in
     let rest := drop_while not_sep p in
     if bool_decide (nm = []) then resolve_loop vol r k dir last comps rest
     else if MAX_PATH_COMPONENTS <? comps + 1 then Err PathTooLong
     else
       let? d := match last with
                 | Some prev => if negb (is_dir prev) then Err NotADirectory else Ok (first_cluster prev)
                 | None => Ok dir
                 end in
       let? ent := find_in_dir vol r d nm in
       resolve_loop vol r k d (Some ent) (comps + 1) rest).
  cbv zeta. set (p := drop_while is_sep (x :: path)) in *. clearbody p. case_bool_decide as N.
  - simpl. apply IH. lia.
  - simpl. destruct (_ <? _); [done|]. destruct (match last with None => _ | _ => _ end) as [d|]; [|done]. simpl.
    destruct (find_in_dir vol r d _); [|done]. simpl. apply IH. lia.
Qed.

End Paths.

(** ** Directory entries *)

Definition pad (n : nat) (l : list Z) : list Z := l ++ replicate (n - length l) 32.

(** An entry as a formatter writes it. *)
Definition dir_entry (base ext : list Z) (a cluster sz : Z) : list Z :=
  (pad 8 base ++ pad 3 ext) ++ [a] ++ replicate 8 0 ++ to_le 2 (cluster / 65536) ++ replicate 4 0 ++
  to_le 2 (cluster mod 65536) ++ to_le 4 sz.

Definition rendered (base ext : list Z) : list Z :=
  map to_ascii_uppercase base ++ match ext with [] => [] | _ => 46 :: map to_ascii_uppercase ext end.

Definition plain (l : list Z) : Prop := Forall (λ c, c ≠ 32) l.

Lemma length_pad n l : (length l ≤ n)%nat → length (pad n l) = n.
Proof. intros. unfold pad. rewrite length_app, length_replicate. lia. Qed.

Lemma take_while_pad n l : plain l → take_while not_space (pad n l) = l.
Proof.
  unfold pad. induction 1 as [|c l Hc F IH]; simpl.
  - by destruct n.
  - unfold not_space at 1. rewrite (proj2 (Z.eqb_neq c 32)) by done. simpl. f_equal.
    replace (n - S (length l))%nat with (n - 1 - length l)%nat by lia. clear -F.
    generalize (n - 1 - length l)%nat. induction F as [|c l Hc F IH]; intros m; simpl; [by destruct m|].
    unfold not_space at 1. rewrite (proj2 (Z.eqb_neq c 32)) by done. simpl. by rewrite IH.
Qed.

Lemma pad_blank n l : plain l → existsb not_space (pad n l) = match l with [] => false | _ => true end.
Proof.
  unfold pad. destruct 1 as [|c l Hc F]; simpl.
  - generalize (n - 0)%nat. intros m. by induction m.
  - unfold not_space at 1. by rewrite (proj2 (Z.eqb_neq c 32)) by done.
Qed.

Lemma slice_length off n l : Z.of_nat (length l) = off + n → 0 ≤ off → 0 ≤ n → slice off n l = drop (Z.to_nat off) l.
Proof. intros. unfold slice. apply take_ge. rewrite length_drop. lia. Qed.

Lemma short_bytes_packed base ext : plain base → plain ext → (length base ≤ 8)%nat → (length ext ≤ 3)%nat →
  short_bytes (pad 8 base ++ pad 3 ext) = rendered base ext.
Proof.
  intros Pb Pe Lb Le. unfold short_bytes.
  assert (slice 0 8 (pad 8 base ++ pad 3 ext) = pad 8 base) as ->.
  { unfold slice. rewrite drop_0. apply take_app_length'. by rewrite length_pad. }
  assert (slice 8 3 (pad 8 base ++ pad 3 ext) = pad 3 ext) as ->.
  { rewrite slice_length by (rewrite ?length_app, ?length_pad by done; lia). apply drop_app_length'. by rewrite length_pad. }
  rewrite pad_blank, !take_while_pad by done. unfold rendered. destruct ext; [by rewrite app_nil_r|done].
Qed.

Definition entry_shown (base ext : list Z) (a cluster sz : Z) : FatEntry :=
  mkFatEntry (rendered base ext ++ replicate (12 - length (rendered base ext)) 0) (blen (rendered base ext)) a cluster sz.

Lemma length_dir_entry base ext a cluster sz : (length base ≤ 8)%nat → (length ext ≤ 3)%nat →
  length (dir_entry base ext a cluster sz) = 32%nat.
Proof.
  intros. unfold dir_entry. rewrite !length_app, !length_pad, !length_to_le by done. done.
Qed.

Lemma dir_entry_fields base ext a cluster sz (e := dir_entry base ext a cluster sz) :
  (1 ≤ length base ≤ 8)%nat → (length ext ≤ 3)%nat → below 32 cluster → below 32 sz →
  slice 0 11 e = pad 8 base ++ pad 3 ext ∧ base !! 0%nat = Some (byte_at e 0) ∧ byte_at e 11 = a ∧
  u16_le e 20 = cluster / 65536 ∧ u16_le e 26 = cluster mod 65536 ∧ u32_le e 28 = sz.
Proof.
  intros Lb Le C S. set (raw := pad 8 base ++ pad 3 ext).
  assert (length raw = 11%nat) as Lr by (unfold raw; rewrite length_app, !length_pad; lia).
  assert (∀ off n, 11 ≤ off → slice off n e =
    slice (off - 11) n ([a] ++ replicate 8 0 ++ to_le 2 (cluster / 65536) ++ replicate 4 0 ++ to_le 2 (cluster mod 65536) ++ to_le 4 sz)) as T.
  { intros off n O. unfold e, dir_entry. fold raw. unfold slice. rewrite drop_app_ge by lia. do 2 f_equal. lia. }
  unfold byte_at at 2, u16_le, u32_le. rewrite (T 11), (T 20), (T 26), (T 28) by lia.
  change (slice (20 - 11) 2 _) with (to_le 2 (cluster / 65536)). change (slice (26 - 11) 2 _) with (to_le 2 (cluster mod 65536)).
  change (slice (28 - 11) 4 _) with (to_le 4 sz). unfold below in *. split_and!.
  - unfold e, dir_entry, slice. fold raw. rewrite drop_0. apply take_app_length'. by rewrite Lr.
  - unfold e, dir_entry, byte_at, slice, pad. destruct base as [|b0 base]; simpl in *; [lia|]. f_equal. lia.
  - unfold slice. simpl. lia.
  - apply from_to_le. clear -C. dlia.
  - apply from_to_le. clear. dlia.
  - by apply from_to_le.
Qed.

Lemma not_long_name a : Z.land a ATTR_VOLUME_ID = 0 → (Z.land a ATTR_LONG_NAME =? ATTR_LONG_NAME) = false.
Proof.
  intros A. apply Z.eqb_neq. intros E. apply (f_equal (λ z, Z.land z ATTR_VOLUME_ID)) in E.
  rewrite <-Z.land_assoc in E. change (Z.land ATTR_LONG_NAME ATTR_VOLUME_ID) with ATTR_VOLUME_ID in E. by rewrite A in E.
Qed.

(** A directory entry as a formatter lays it out is read back: the name with its dot and
    in capitals, both halves of the first cluster, the size; provided the slot is neither
    free nor a label. *)
Theorem dir_entry_roundtrip base ext a cluster sz :
  plain base → plain ext → (1 ≤ length base ≤ 8)%nat → (length ext ≤ 3)%nat →
  base !! 0%nat ≠ Some DIR_ENTRY_END → base !! 0%nat ≠ Some DIR_ENTRY_FREE →
  Z.land a ATTR_VOLUME_ID = 0 → below 32 cluster → below 32 sz →
  parse_dir_entry (dir_entry base ext a cluster sz) = Some (entry_shown base ext a cluster sz) ∧
  name_bytes (entry_shown base ext a cluster sz) = rendered base ext.
Proof.
  intros Pb Pe Lb Le N0 N1 Va C S. destruct (dir_entry_fields base ext a cluster sz) as (R & B0 & B1 & B2 & B3 & B4); try done.
  rewrite B0 in N0, N1. split.
  - unfold parse_dir_entry, short_name. unfold blen at 1. rewrite length_dir_entry, B1, B2, B3, B4, R, Va by lia.
    rewrite !(proj2 (Z.eqb_neq (byte_at _ 0) _)) by congruence. rewrite not_long_name by done. simpl.
    rewrite short_bytes_packed by (done || lia). unfold entry_shown. do 2 f_equal.
    rewrite Z.shiftl_mul_pow2, lor_mul_pow2 by (lia || apply Z.mod_pos_bound; lia). symmetry. rewrite Z.mul_comm. by apply Z.div_mod.
  - unfold name_bytes, entry_shown. simpl. unfold slice, blen. rewrite drop_0, Nat2Z.id. by apply take_app_length'.
Qed.

(** ** What the reader promises *)

(** Every cluster of a parsed volume that counts as valid lies in the data region,
    behind the FATs and the root and inside the volume, at the sector that 32-bit
    arithmetic yields without wrapping; the FATs must fit 32 bits for this. *)
Theorem valid_cluster_in_data boot vol c : Forall is_byte boot → parse_bpb boot = Ok vol → fats_fit vol →
  cluster_is_valid vol c = true →
  cluster_offset vol c = (data_start vol + (c - 2) * sectors_per_cluster vol) * bytes_per_sector vol ∧
  (fat_start vol + num_fats vol * fat_sectors vol + root_sectors vol) * bytes_per_sector vol ≤ cluster_offset vol c ∧
  cluster_offset vol c + cluster_bytes vol ≤ total_sectors vol * bytes_per_sector vol.
Proof.
  intros F P W C. pose proof (parse_bpb_ok _ _ F P W) as V. destruct (cluster_place vol V c C) as (? & ? & ?).
  destruct (ok_fat _ V) as (_ & -> & _). destruct (ok_root _ V) as (-> & _ & _). done.
Qed.

(** *** The volume as the format lays it out

    The allocation table is one little-endian number; the entry of cluster [c] is the
    [entry_bits] bits at bit [entry_stride * c] of it. *)

Definition entry_stride (k : FatKind) : Z := match k with Fat12 => 12 | Fat16 => 16 | Fat32 => 32 end.
Definition entry_bits (k : FatKind) : Z := match k with Fat12 => 12 | Fat16 => 16 | Fat32 => 28 end.

Definition table_entry (vol : FatVolume) (img : list Z) (c : Z) : Z :=
  from_le (drop (Z.to_nat (fat_start vol * bytes_per_sector vol)) img) / 2 ^ (entry_stride (kind vol) * c)
    mod 2 ^ entry_bits (kind vol).

(** The last eight values of an entry end a chain. *)
Inductive linked (vol : FatVolume) (img : list Z) : Z → list Z → Prop :=
| linked_end c : 2 ≤ c < cluster_count vol + 2 → 2 ^ entry_bits (kind vol) - 8 ≤ table_entry vol img c → linked vol img c [c]
| linked_next c cs : 2 ≤ c < cluster_count vol + 2 → table_entry vol img c < 2 ^ entry_bits (kind vol) - 8 →
    linked vol img (table_entry vol img c) cs → linked vol img c (c :: cs).

(** The clusters fill the data region from number 2 on. *)
Definition cluster_at (vol : FatVolume) (img : list Z) (c : Z) : list Z :=
  slice ((data_start vol + (c - 2) * sectors_per_cluster vol) * bytes_per_sector vol)
    (bytes_per_sector vol * sectors_per_cluster vol) img.

Lemma from_le_app l1 l2 : from_le (l1 ++ l2) = from_le l1 + 2 ^ (8 * blen l1) * from_le l2.
Proof.
  induction l1 as [|b l IH]; [change (2 ^ (8 * blen [])) with 1; cbn [app from_le]; lia|]. cbn [app from_le]. rewrite IH.
  replace (8 * blen (b :: l)) with (8 + 8 * blen l) by (unfold blen; cbn [length]; lia).
  rewrite Z.pow_add_r by (unfold blen; lia). change (2 ^ 8) with 256. ring.
Qed.

(** Bytes of a list are bits of its number. *)
Lemma from_le_slice l base k n : Forall is_byte l → 0 ≤ base → 0 ≤ k → 0 ≤ n → base + k + n ≤ blen l →
  from_le (slice (base + k) n l) = from_le (drop (Z.to_nat base) l) / 2 ^ (8 * k) mod 2 ^ (8 * n).
Proof.
  intros F B K N L.
  assert (drop (Z.to_nat base) l = slice base k l ++ slice (base + k) n l ++ drop (Z.to_nat (base + k + n)) l) as ->.
  { rewrite app_assoc, slice_split by lia. unfold slice. replace (Z.to_nat (base + k + n)) with (Z.to_nat base + Z.to_nat (k + n))%nat by lia.
    by rewrite <-drop_drop, take_drop. }
  pose proof (field_range l base k F K) as R1. pose proof (field_range l (base + k) n F N) as R2.
  change 256 with (2 ^ 8) in *. rewrite <-!Z.pow_mul_r in * by lia.
  rewrite !from_le_app, !blen_slice by lia. set (x := from_le (slice base k l)) in *. set (y := from_le (slice (base + k) n l)) in *.
  rewrite Z.mul_comm, Z.div_add, (Z.div_small x) by lia. rewrite Z.add_0_l, Z.mul_comm, Z.mod_add by lia. by rewrite Z.mod_small.
Qed.

Lemma mod_pow_mod x a b : 0 ≤ b ≤ a → (x mod 2 ^ a) mod 2 ^ b = x mod 2 ^ b.
Proof.
  intros H. symmetry. apply Znumtheory.Zmod_div_mod; [lia|lia|]. exists (2 ^ (a - b)).
  rewrite <-Z.pow_add_r by lia. f_equal. lia.
Qed.

(** The high part of a field is the field further up. *)
Lemma mod_pow_div x p a b : 0 ≤ p → 0 ≤ b ≤ a → (x / 2 ^ p mod 2 ^ a) / 2 ^ b = x / 2 ^ (p + b) mod 2 ^ (a - b).
Proof.
  intros P H. rewrite Z.pow_add_r, <-Z.div_div by lia. set (y := x / 2 ^ p).
  rewrite !Z.mod_eq by lia. replace (2 ^ a) with (2 ^ b * 2 ^ (a - b)) by (rewrite <-Z.pow_add_r by lia; f_equal; lia).
  rewrite <-Z.div_div by lia. rewrite <-Z.mul_assoc. replace (y - 2 ^ b * (2 ^ (a - b) * (y / 2 ^ b / 2 ^ (a - b))))
    with (y + (- (2 ^ (a - b) * (y / 2 ^ b / 2 ^ (a - b)))) * 2 ^ b) by ring.
  rewrite Z.div_add by lia. ring.
Qed.

Section Linked.
Context `{VolumeRead R} (vol : FatVolume) (r : R) (V : vol_ok vol) (img : list Z).
Context (F : Forall is_byte img) (B : Backed r img) (W : total_sectors vol * bytes_per_sector vol ≤ blen img).

(** The three decoders read the entry the format defines. *)
Lemma next_cluster_entry c : 2 ≤ c < cluster_count vol + 2 → next_cluster vol r c = Ok (table_entry vol img c).
Proof.
  intros C. pose proof C as C'. apply (valid_iff vol V) in C'. pose proof (entry_range vol V c C') as [P L]. unfold next_cluster, table_entry.
  fold (fat_base vol). destruct (kind vol); cbn [entry_stride entry_bits].
  - pose proof (Z.div_mod (c * 3) 2 ltac:(lia)) as D. pose proof (Z.mod_pos_bound (c * 3) 2 ltac:(lia)) as M.
    rewrite backed by lia. cbn [ok_or result_bind]. rewrite from_le_slice by (done || lia). f_equal. change (8 * 2) with 16.
    change 1 with (Z.ones 1) at 1. rewrite Z.land_ones by lia. change (2 ^ 1) with 2.
    pose proof (Z.div_mod c 2 ltac:(lia)) as D'. pose proof (Z.mod_pos_bound c 2 ltac:(lia)) as M'.
    destruct (Z.eqb_spec (c mod 2) 0) as [E|E].
    + change 0xFFF with (Z.ones 12). rewrite Z.land_ones, mod_pow_mod by lia. do 3 f_equal. lia.
    + rewrite Z.shiftr_div_pow2, mod_pow_div by lia. change (16 - 4) with 12. do 3 f_equal. lia.
  - rewrite backed by lia. cbn [ok_or result_bind]. rewrite from_le_slice by (done || lia). do 4 f_equal. lia.
  - rewrite backed by lia. cbn [ok_or result_bind]. rewrite from_le_slice by (done || lia). f_equal.
    change 0x0FFFFFFF with (Z.ones 28). rewrite Z.land_ones, mod_pow_mod by lia. do 3 f_equal. lia.
Qed.

Lemma end_mark c : is_end_of_chain vol (table_entry vol img c) = (2 ^ entry_bits (kind vol) - 8 <=? table_entry vol img c).
Proof.
  unfold is_end_of_chain, table_entry. destruct (kind vol); cbn [entry_bits entry_stride]; [done..|].
  set (x := _ / _). change 0x0FFFFFFF with (Z.ones 28). by rewrite Z.land_ones, Z.mod_mod by lia.
Qed.

Lemma linked_chain c cs : linked vol img c cs → chain vol r c cs.
Proof.
  induction 1 as [c C E|c cs C E K IH].
  - eapply chain_end; [by apply (valid_iff vol V)|by apply next_cluster_entry|]. rewrite end_mark. by apply Z.leb_le.
  - eapply chain_link; [by apply (valid_iff vol V)|by apply next_cluster_entry| |done]. rewrite end_mark. by apply Z.leb_gt.
Qed.

Lemma linked_bytes c cs : linked vol img c cs → chain_bytes vol img cs = concat (map (cluster_at vol img) cs).
Proof.
  intros K. unfold chain_bytes. f_equal. apply map_ext_in. intros d I%list_elem_of_In.
  assert (cluster_is_valid vol d = true) as Vd.
  { pose proof (chain_valid _ _ _ _ (linked_chain c cs K)) as G. rewrite Forall_forall in G. by apply G. }
  unfold cluster_data, cluster_at, cluster_bytes. by destruct (cluster_place vol V d Vd) as [-> _].
Qed.

End Linked.

(** C35: A file is its clusters laid end to end. The table links them: the entry of a
    cluster is the field of 12, 16 or 28 bits that the format defines at its place in
    the table, seen as one little-endian number, and its last eight values end the
    chain. Whatever the offset and the length, a read returns that part of the clusters,
    across their boundaries; past the end it returns what is there. *)
Theorem read_chain_exact `{VolumeRead R} (r : R) img vol first cs offset len :
  vol_ok vol → Forall is_byte img → Backed r img → total_sectors vol * bytes_per_sector vol ≤ blen img →
  linked vol img first cs → Z.of_nat (length cs) ≤ MAX_CHAIN_HOPS + 1 → 0 ≤ offset → 0 ≤ len →
  read_chain vol r first offset len = Ok (slice offset len (concat (map (cluster_at vol img) cs))).
Proof.
  intros V F B W K L O N. rewrite <-(linked_bytes vol r V img F B W first cs K).
  apply read_chain_slice; try done. by eapply linked_chain.
Qed.

(** C36: Looking a name up in a directory, the fixed root or a chain of clusters, finds the
    first entry of that name in front of the end mark, in the order of the slots and
    across clusters, and reports that there is none otherwise. *)
Theorem find_in_dir_exact `{VolumeRead R} (r : R) img vol d bs nm :
  vol_ok vol → Backed r img → total_sectors vol * bytes_per_sector vol ≤ blen img →
  dir_image vol r img d bs → find_in_dir vol r d nm = ok_or (lookup_dir nm bs) NotFound.
Proof. intros V B W D. by eapply find_in_dir_lookup. Qed.

(** Resolving a path looks its components up one after the other, each in the
    directory that the one before it names; leading, doubled and trailing separators of
    either kind make no difference, and the ninth component is refused. *)
Theorem resolve_by_components `{VolumeRead R} (r : R) vol start path :
  resolve_in vol r start path = resolve_names vol r start None 0 (components path).
Proof. by apply resolve_loop_names. Qed.


(** Every walk ends whatever the table links to, a cycle included: more steps than the
    bound on hops (or, for the copy, than the clusters the buffer spans) change
    nothing. *)
Theorem walks_end `{VolumeRead R} (r : R) vol x first within len nm hops :
  0 ≤ within < cluster_bytes vol → 0 < len →
  walk vol r (dir_fuel + x) 0 first = walk vol r dir_fuel 0 first ∧
  copy_loop vol r (Z.to_nat (len / cluster_bytes vol + 2) + x) hops first within len =
    copy_loop vol r (Z.to_nat (len / cluster_bytes vol + 2)) hops first within len ∧
  dir_loop vol r (dir_fuel + x) 0 first nm = dir_loop vol r dir_fuel 0 first nm.
Proof.
  intros I L. pose proof dir_fuel_bound as K. assert (0 ≤ MAX_CHAIN_HOPS) by done. split_and!.
  - apply walk_stops; lia.
  - pose proof (Z.div_mod len (cluster_bytes vol) ltac:(lia)). pose proof (Z.mod_pos_bound len (cluster_bytes vol) ltac:(lia)).
    apply copy_stops; try lia. rewrite Z2Nat.id by (pose proof (Z.div_pos len (cluster_bytes vol)); lia). nia.
  - apply dir_stops; lia.
Qed.

(** ** A small volume *)

(** Entries of a table of 12 bits, in pairs. *)
Fixpoint pack12 (l : list Z) : list Z :=
  match l with
  | a :: b :: rest => [Z.land a 255; Z.lor (Z.shiftr a 8) (Z.shiftl (Z.land b 15) 4); Z.shiftr b 4] ++ pack12 rest
  | _ => []
  end.

Definition pad0 (n : nat) (l : list Z) : list Z := l ++ replicate (n - length l) 0.

Definition demo_boot (fat16 fat32 : Z) : list Z :=
  pad0 510 (replicate 11 0 ++ to_le 2 512 ++ [1] ++ to_le 2 1 ++ [1] ++ to_le 2 16 ++ to_le 2 12 ++ [0xF8] ++
    to_le 2 fat16 ++ replicate 12 0 ++ to_le 4 fat32 ++ replicate 4 0 ++ to_le 4 0) ++ [0x55; 0xAA].

Definition demo_program : list Z := (λ i, (7 * i + 3) mod 256) <$> seqZ 0 700.

Definition demo_volume : list Z :=
  demo_boot 1 0 ++
  pad0 512 (pack12 [0xFF8; 0xFFF; 0xFFF; 0xFFF; 0x006; 0x000; 0xFFF; 0x000]) ++
  pad0 512 (dir_entry (of_ascii "VOLUME"%string) [] 0x08 0 0 ++ dir_entry (of_ascii "EFI"%string) [] 0x10 2 0) ++
  pad0 512 (dir_entry (of_ascii "BOOT"%string) [] 0x10 3 0) ++
  pad0 512 (replicate 32 0xE5 ++ dir_entry (of_ascii "bootx64"%string) (of_ascii "efi"%string) 0x20 4 700) ++
  slice 0 512 demo_program ++ replicate 512 0 ++ pad0 512 (slice 512 188 demo_program) ++ replicate 2048 0.

Definition demo_vol : FatVolume := mkFatVolume Fat12 512 1 1 1 16 12 1 1 2 1 3 9 0.

Example demo_parsed : parse_bpb (slice 0 512 demo_volume) = Ok demo_vol.
Proof. vm_compute. reflexivity. Qed.

Example demo_opened : resolve_path demo_vol (mkSliceDisk demo_volume) (of_ascii "/efi\\boot\bootx64.EFI"%string) =
  Ok (entry_shown (of_ascii "BOOTX64"%string) (of_ascii "EFI"%string) 0x20 4 700).
Proof. vm_compute. reflexivity. Qed.

(** The sectors of the FATs are multiplied in 32 bits: a block that announces a FAT of
    almost 2^32 sectors is accepted, with the data region in front of the end of its
    FAT. *)
Theorem fat_size_wraps : ∃ vol, parse_bpb (demo_boot 0 0xFFFFFFFF) = Ok vol ∧
  data_start vol < fat_start vol + num_fats vol * fat_sectors vol.
Proof. eexists. split; [vm_compute; reflexivity|]. by vm_compute. Qed.

Lemma demo_vol_ok : vol_ok demo_vol.
Proof. split; simpl; lia. Qed.

Lemma demo_backed : Backed (mkSliceDisk demo_volume) demo_volume.
Proof. apply slice_disk_backed. by vm_compute. Qed.

Lemma demo_entries : table_entry demo_vol demo_volume 4 = 6 ∧ table_entry demo_vol demo_volume 6 = 0xFFF.
Proof. by vm_compute. Qed.

Lemma demo_linked : linked demo_vol demo_volume 4 [4; 6].
Proof.
  destruct demo_entries as [E4 E6]. apply linked_next.
  - split; lia || reflexivity.
  - rewrite E4. reflexivity.
  - rewrite E4. apply linked_end; [split; lia || reflexivity|]. rewrite E6. intros Q. discriminate Q.
Qed.

Lemma demo_volume_bytes : Forall is_byte demo_volume.
Proof. apply (bool_decide_unpack _). by vm_compute. Qed.

Lemma valid_cluster_in_data_witness : cluster_offset demo_vol 10 = 11 * 512 ∧ cluster_offset demo_vol 10 + 512 ≤ 12 * 512.
Proof.
  destruct (valid_cluster_in_data (demo_boot 1 0) demo_vol 10) as (E & _ & L).
  - apply (bool_decide_unpack _). by vm_compute.
  - by vm_compute.
  - by vm_compute.
  - by vm_compute.
  - by split.
Defined.

Lemma read_chain_exact_witness :
  read_chain demo_vol (mkSliceDisk demo_volume) 4 500 150 = Ok (slice 500 150 demo_program).
Proof.
  rewrite (read_chain_exact _ demo_volume _ _ [4; 6]);
    [by vm_compute|exact demo_vol_ok|exact demo_volume_bytes|exact demo_backed|by vm_compute|exact demo_linked|by vm_compute|lia..].
Defined.

Lemma find_in_dir_exact_witness :
  find_in_dir demo_vol (mkSliceDisk demo_volume) 0 (of_ascii "efi"%string) =
    Ok (entry_shown (of_ascii "EFI"%string) [] 0x10 2 0).
Proof.
  rewrite (find_in_dir_exact _ demo_volume _ _ (slice 1024 512 demo_volume));
    [by vm_compute|exact demo_vol_ok|exact demo_backed|by vm_compute|by apply (dir_root demo_vol (mkSliceDisk demo_volume) demo_volume)].
Defined.


Lemma walks_end_witness :
  walk demo_vol (mkSliceDisk demo_volume) (dir_fuel + 5) 0 4 = walk demo_vol (mkSliceDisk demo_volume) dir_fuel 0 4.
Proof. apply (walks_end (mkSliceDisk demo_volume) demo_vol 5 4 0 1 [] 0); [by vm_compute|lia]. Defined.

Lemma dir_entry_roundtrip_witness :
  parse_dir_entry (dir_entry (of_ascii "bootx64"%string) (of_ascii "efi"%string) 0x20 70000 700) =
    Some (entry_shown (of_ascii "bootx64"%string) (of_ascii "efi"%string) 0x20 70000 700).
Proof.
  apply dir_entry_roundtrip; try (by vm_compute); try (simpl; lia).
  - apply (bool_decide_unpack _). by vm_compute.
  - apply (bool_decide_unpack _). by vm_compute.
Defined.

End Fat.
