(* ===== verification/FileSys.v ===== *)
(** * Open files

    src/raynu_f/filesystem.rs: the table of open files over a mounted FAT volume, reading,
    seeking, the file information structure, and the view of a boot menu in which every
    kernel line carries the serial console.

    The view is one static buffer that all handles share ([LibraryGrubCfg]); its scratch
    copy is filled afresh on every use. A buffer that a read fills is its length, and what
    the read returns is the bytes at its front. *)

From Stdlib Require String.
From S2P Require Import Prelude Bytes Volume Fat.
Import String.StringSyntax.
#[local] Delimit Scope string_scope with string.

Module FileSys.
Import Volume Fat.

Definition EFI_FILE_READ_ONLY : Z := 0x01.
Definition EFI_FILE_HIDDEN : Z := 0x02.
Definition EFI_FILE_SYSTEM : Z := 0x04.
Definition EFI_FILE_DIRECTORY : Z := 0x10.
Definition EFI_FILE_ARCHIVE : Z := 0x20.

Definition EFI_FILE_MODE_READ : Z := 1.
Definition EFI_FILE_MODE_WRITE : Z := 2.
Definition EFI_FILE_MODE_CREATE : Z := 0x8000000000000000.

Definition FILE_SLOTS : Z := 16.
Definition FILE_HANDLE_TAG : Z := 0x5246000000002000.
Definition MAX_PATH_BYTES : Z := 256.
Definition FILE_INFO_NAME_OFF : Z := 0x50.

Definition EFI_SUCCESS : Z := 0.
Definition EFI_INVALID_PARAMETER : Z := 0x8000000000000002.
Definition EFI_UNSUPPORTED : Z := 0x8000000000000003.
Definition EFI_BUFFER_TOO_SMALL : Z := 0x8000000000000005.
Definition EFI_DEVICE_ERROR : Z := 0x8000000000000007.
Definition EFI_WRITE_PROTECTED : Z := 0x8000000000000008.
Definition EFI_OUT_OF_RESOURCES : Z := 0x8000000000000009.
Definition EFI_NOT_FOUND : Z := 0x800000000000000E.

(** ** State *)

Record OpenFile := mkOpenFile {
  used : bool;
  is_root : bool;
  entry : FatEntry;
  position : Z;
  view_len : Z }.

Definition NO_ENTRY : FatEntry := mkFatEntry (replicate 12 0) 0 0 0 0.
Definition EMPTY : OpenFile := mkOpenFile false false NO_ENTRY 0 0.

Record FileSystem := mkFileSystem {
  volume : option FatVolume;
  slots : list OpenFile;
  file_reads : Z }.

Definition new : FileSystem := mkFileSystem None (replicate (Z.to_nat FILE_SLOTS) EMPTY) 0.

Definition put_slot (s : Z) (f : OpenFile) (fs : FileSystem) : FileSystem :=
  mkFileSystem (volume fs) (<[Z.to_nat s := f]> (slots fs)) (file_reads fs).

Definition seek (pos : Z) (f : OpenFile) : OpenFile :=
  mkOpenFile (used f) (is_root f) (entry f) pos (view_len f).

Definition count_read (fs : FileSystem) : FileSystem :=
  mkFileSystem (volume fs) (slots fs) (Z.min (file_reads fs + 1) 0xFFFFFFFF).

(** ** Handles *)

Definition handle_for (slot : Z) : Z := Z.lor FILE_HANDLE_TAG slot.

(** The slot of a handle that is in use, with what it holds. *)
Definition slot_of (fs : FileSystem) (handle : Z) : option (Z * OpenFile) :=
  if negb (Z.land handle (bnot64 0xFFF) =? FILE_HANDLE_TAG) then None
  else
    let s := Z.land handle 0xFFF in
    if s <? FILE_SLOTS then
      f ← slots fs !! Z.to_nat s;
      if used f then Some (s, f) else None
    else None.

Definition alloc_slot (fs : FileSystem) : option Z :=
  Z.of_nat <$> find_index (λ f, negb (used f)) (slots fs).

Definition mounted (fs : FileSystem) : bool := bool_decide (is_Some (volume fs)).
Definition open_count (fs : FileSystem) : Z := Z.of_nat (length (filter (λ f, used f = true) (slots fs))).

(** ** Opening and closing *)

Definition open_volume (fs : FileSystem) : FileSystem * Z * Z :=
  match volume fs with
  | None => (fs, EFI_NOT_FOUND, 0)
  | Some _ =>
      match alloc_slot fs with
      | None => (fs, EFI_OUT_OF_RESOURCES, 0)
      | Some s => (put_slot s (mkOpenFile true true NO_ENTRY 0 0) fs, EFI_SUCCESS, handle_for s)
      end
  end.

Definition duplicate (fs : FileSystem) (f : OpenFile) : FileSystem * Z * Z :=
  match alloc_slot fs with
  | None => (fs, EFI_OUT_OF_RESOURCES, 0)
  | Some s => (put_slot s (seek 0 f) fs, EFI_SUCCESS, handle_for s)
  end.

Section Reader.
Context `{VolumeRead R} (r : R).

(** Where the first component of a path is looked up. *)
Definition start_dir (f : OpenFile) (path : list Z) : option Z :=
  if match path with c :: _ => is_sep c | [] => false end then Some 0
  else if is_root f then Some 0
  else if is_dir (entry f) then Some (first_cluster (entry f))
  else None.

Definition open (fs : FileSystem) (this : Z) (path : list Z) (mode : Z) : FileSystem * Z * Z :=
  match volume fs with
  | None => (fs, EFI_NOT_FOUND, 0)
  | Some vol =>
      match slot_of fs this with
      | None => (fs, EFI_INVALID_PARAMETER, 0)
      | Some (_, f) =>
          if negb (Z.land mode (Z.lor EFI_FILE_MODE_WRITE EFI_FILE_MODE_CREATE) =? 0)
          then (fs, EFI_WRITE_PROTECTED, 0)
          else if Z.land mode EFI_FILE_MODE_READ =? 0 then (fs, EFI_INVALID_PARAMETER, 0)
          else if bool_decide (path = []) then duplicate fs f
          else
            match start_dir f path with
            | None => (fs, EFI_INVALID_PARAMETER, 0)
            | Some start =>
                match resolve_in vol r start path with
                | Ok e =>
                    match alloc_slot fs with
                    | None => (fs, EFI_OUT_OF_RESOURCES, 0)
                    | Some s => (put_slot s (mkOpenFile true false e 0 0) fs, EFI_SUCCESS, handle_for s)
                    end
                | Err NotFound | Err NotADirectory => (fs, EFI_NOT_FOUND, 0)
                | Err _ => (fs, EFI_DEVICE_ERROR, 0)
                end
            end
      end
  end.

Definition close (fs : FileSystem) (handle : Z) : FileSystem * Z :=
  match slot_of fs handle with
  | Some (s, _) => (put_slot s EMPTY fs, EFI_SUCCESS)
  | None => (fs, EFI_INVALID_PARAMETER)
  end.

(** ** Size and position *)

Definition logical_size (f : OpenFile) : Z :=
  if is_root f then 0 else if negb (view_len f =? 0) then view_len f else size (entry f).

Definition size_of (fs : FileSystem) (handle : Z) : option Z :=
  '(_, f) ← slot_of fs handle; Some (logical_size f).

Definition is_directory (fs : FileSystem) (handle : Z) : option bool :=
  '(_, f) ← slot_of fs handle; Some (is_root f || is_dir (entry f)).

Definition get_position (fs : FileSystem) (handle : Z) : option Z :=
  '(_, f) ← slot_of fs handle; Some (position f).

Definition set_position (fs : FileSystem) (handle pos : Z) : FileSystem * Z :=
  match slot_of fs handle with
  | None => (fs, EFI_INVALID_PARAMETER)
  | Some (s, f) =>
      if is_root f || is_dir (entry f) then
        if pos =? 0 then (put_slot s (seek 0 f) fs, EFI_SUCCESS) else (fs, EFI_UNSUPPORTED)
      else (put_slot s (seek (if pos =? U64_MAX then logical_size f else pos) f) fs, EFI_SUCCESS)
  end.

(** ** The shared view of a boot menu *)

Definition GRUB_CFG_SERIAL_SLACK : Z := 512.
Definition GRUB_CFG_VIEW_CAP : Z := 16 * 1024.

Record LibraryGrubCfg := mkLibraryGrubCfg { lg_cluster : Z; lg_len : Z; lg_bytes : list Z }.

Definition LIBRARY_GRUB_CFG : LibraryGrubCfg := mkLibraryGrubCfg 0 0 (replicate (Z.to_nat GRUB_CFG_VIEW_CAP) 0).

Definition reset_library_grub_cfg_view (v : LibraryGrubCfg) : LibraryGrubCfg :=
  mkLibraryGrubCfg 0 0 (lg_bytes v).

(** ** Reading *)

Definition read_serial_view (v : LibraryGrubCfg) (fs : FileSystem) (s : Z) (f : OpenFile) (n : Z)
    : FileSystem * Z * list Z :=
  let pos := position f in
  if view_len f <=? pos then (fs, EFI_SUCCESS, [])
  else if negb (lg_cluster v =? first_cluster (entry f)) || negb (lg_len v =? view_len f)
  then (fs, EFI_DEVICE_ERROR, [])
  else
    let want := Z.min n (view_len f - pos) in
    if want =? 0 then (fs, EFI_SUCCESS, [])
    else (count_read (put_slot s (seek (pos + want) f) fs), EFI_SUCCESS, slice pos want (lg_bytes v)).

Definition read (v : LibraryGrubCfg) (fs : FileSystem) (handle n : Z) : FileSystem * Z * list Z :=
  match volume fs with
  | None => (fs, EFI_NOT_FOUND, [])
  | Some vol =>
      match slot_of fs handle with
      | None => (fs, EFI_INVALID_PARAMETER, [])
      | Some (s, f) =>
          if is_root f || is_dir (entry f) then (fs, EFI_UNSUPPORTED, [])
          else if negb (view_len f =? 0) then read_serial_view v fs s f n
          else
            let sz := size (entry f) in
            let pos := position f in
            if sz <=? pos then (fs, EFI_SUCCESS, [])
            else
              let want := Z.min n (sz - pos) in
              if want =? 0 then (fs, EFI_SUCCESS, [])
              else
                match read_chain vol r (first_cluster (entry f)) pos want with
                | Ok bs => (count_read (put_slot s (seek (pos + blen bs) f) fs), EFI_SUCCESS, bs)
                | Err _ => (fs, EFI_DEVICE_ERROR, [])
                end
      end
  end.

End Reader.

(** ** Lines of a boot menu *)

Definition LIBRARY_SERIAL_ARG : list Z := of_ascii "console=ttyS0"%string.
Definition LIBRARY_CLOUD_INIT_ARG : list Z :=
  of_ascii "fsck.mode=skip systemd.mask=casper-md5check.service systemd.mask=snapd.seeded.service cloud-init=disabled"%string.

Definition is_blank (c : Z) : bool := (c =? 32) || (c =? 9).
Definition trim_ascii_start (s : list Z) : list Z := drop_while is_blank s.

Fixpoint bytes_contains (hay needle : list Z) : bool :=
  negb (bool_decide (needle = [])) &&
  (starts_with hay needle || match hay with [] => false | _ :: rest => bytes_contains rest needle end).

Definition has_token (s token : list Z) : bool :=
  starts_with s token &&
  match drop (length token) s with [] => true | c :: _ => is_blank c end.

Definition line_needs_serial (line : list Z) : bool :=
  let s := trim_ascii_start line in
  if negb (has_token s (of_ascii "linuxefi"%string)) && negb (has_token s (of_ascii "linux"%string)) then false
  else negb (bytes_contains s LIBRARY_SERIAL_ARG).

(** One turn of the scanning loops: the line without its line end, which line end it
    had, and the text behind it. *)
Record Line := mkLine { body : list Z; has_cr : bool; has_nl : bool }.

Definition not_nl (c : Z) : bool := negb (c =? 10).

Definition next_line (src : list Z) : Line * list Z :=
  let l := take_while not_nl src in
  let rest := drop_while not_nl src in
  let cr := bool_decide (last l = Some 13) in
  (mkLine (if cr then removelast l else l) cr (negb (bool_decide (rest = []))), tail rest).

Fixpoint needs_loop (k : nat) (src : list Z) : bool :=
  match k, src with
  | S k', _ :: _ =>
      let '(l, rest) := next_line src in
      if line_needs_serial (body l) then true else needs_loop k' rest
  | _, _ => false
  end.

Definition cfg_line_needs_serial (src : list Z) : bool := needs_loop (length src) src.

Definition extra_len : Z := 1 + blen LIBRARY_SERIAL_ARG + 1 + blen LIBRARY_CLOUD_INIT_ARG.

(** The first pass: the length of the result, and whether a line changes. *)
Fixpoint measure_loop (k : nat) (src : list Z) (n : Z) (changed : bool) : Z * bool :=
  match k, src with
  | S k', _ :: _ =>
      let '(l, rest) := next_line src in
      let needs := line_needs_serial (body l) in
      let n := sat_add64 (sat_add64 n (blen (body l))) (if needs then extra_len else 0) in
      let n := if has_cr l then sat_add64 n 1 else n in
      let n := if has_nl l then sat_add64 n 1 else n in
      measure_loop k' rest n (changed || needs)
  | _, _ => (n, changed)
  end.

(** What is written for one line, and the second pass. *)
Definition extra_args : list Z := [32] ++ LIBRARY_SERIAL_ARG ++ [32] ++ LIBRARY_CLOUD_INIT_ARG.

Definition amend_line (b : list Z) : list Z := b ++ (if line_needs_serial b then extra_args else []).

Definition line_text (l : Line) : list Z :=
  body l ++ (if has_cr l then [13] else []) ++ (if has_nl l then [10] else []).

Definition amended (l : Line) : Line := mkLine (amend_line (body l)) (has_cr l) (has_nl l).

Fixpoint write_loop (k : nat) (src : list Z) : list Z :=
  match k, src with
  | S k', _ :: _ => let '(l, rest) := next_line src in line_text (amended l) ++ write_loop k' rest
  | _, _ => []
  end.

(** The bytes that end up at the front of [out], which is [cap] bytes long. *)
Definition amend_grub_cfg_serial (src : list Z) (cap : Z) : option (list Z) :=
  let '(n, changed) := measure_loop (length src) src 0 false in
  if negb changed || (cap <? n) then None else Some (write_loop (length src) src).

Inductive SerialView := Unchanged | Amended | TooBig.

Section Arm.
Context `{VolumeRead R} (r : R).

(** [while filled < orig] in pieces of 4096 bytes, [k] of which are left. *)
Fixpoint fill_loop (vol : FatVolume) (cluster orig : Z) (k : nat) (filled : Z) : option (list Z) :=
  match k with
  | O => Some []
  | S k' =>
      let chunk := Z.min (orig - filled) 4096 in
      match read_chain vol r cluster filled chunk with
      | Ok bs => if blen bs =? chunk then app bs <$> fill_loop vol cluster orig k' (filled + blen bs) else None
      | Err _ => None
      end
  end.

Definition arm_library_serial_view (v : LibraryGrubCfg) (fs : FileSystem) (handle : Z)
    : LibraryGrubCfg * FileSystem * SerialView :=
  match slot_of fs handle with
  | None => (v, fs, Unchanged)
  | Some (s, f) =>
      if is_root f || is_dir (entry f) then (v, fs, Unchanged)
      else
        let orig := size (entry f) in
        if orig =? 0 then (v, fs, Unchanged)
        else if GRUB_CFG_VIEW_CAP - GRUB_CFG_SERIAL_SLACK <? orig then (v, fs, TooBig)
        else
          let cluster := first_cluster (entry f) in
          match volume fs with
          | None => (v, fs, Unchanged)
          | Some vol =>
              match fill_loop vol cluster orig (Z.to_nat ((orig + 4095) / 4096)) 0 with
              | None => (v, fs, Unchanged)
              | Some raw =>
                  match amend_grub_cfg_serial raw (blen (lg_bytes v)) with
                  | None => (v, fs, if cfg_line_needs_serial raw then TooBig else Unchanged)
                  | Some out =>
                      (mkLibraryGrubCfg cluster (blen out) (splice 0 out (lg_bytes v)),
                       put_slot s (mkOpenFile (used f) (is_root f) (entry f) 0 (blen out)) fs, Amended)
                  end
              end
          end
  end.

End Arm.

(** ** File information *)

Definition info_name (f : OpenFile) : list Z :=
  if is_root f then [92] else take 12 (name_bytes (entry f)).

Definition info_attr (f : OpenFile) : Z :=
  let bit m a := if negb (Z.land (attr (entry f)) m =? 0) then a else 0 in
  Z.lor (Z.lor (Z.lor (Z.lor
    (if is_root f || is_dir (entry f) then EFI_FILE_DIRECTORY else 0)
    (bit ATTR_READ_ONLY EFI_FILE_READ_ONLY)) (bit ATTR_HIDDEN EFI_FILE_HIDDEN))
    (bit ATTR_SYSTEM EFI_FILE_SYSTEM)) (bit ATTR_ARCHIVE EFI_FILE_ARCHIVE).

(** The bytes that are stored, and the buffer afterwards. *)
Definition file_info (fs : FileSystem) (handle : Z) (out : list Z) : list Z * Z * Z :=
  match slot_of fs handle with
  | None => (out, EFI_INVALID_PARAMETER, 0)
  | Some (_, f) =>
      let nm := info_name f in
      let need := FILE_INFO_NAME_OFF + (blen nm + 1) * 2 in
      if blen out <? need then (out, EFI_BUFFER_TOO_SMALL, need)
      else
        let out := splice 0 (replicate (Z.to_nat need) 0) out in
        let out := splice 0x00 (to_le 8 need) out in
        let out := splice 0x08 (to_le 8 (logical_size f)) out in
        let out := splice 0x10 (to_le 8 (logical_size f)) out in
        let out := splice 0x48 (to_le 8 (info_attr f)) out in
        let out := foldl (λ o ic, splice (FILE_INFO_NAME_OFF + Z.of_nat ic.1 * 2) (to_le 2 ic.2) o) out (imap pair nm) in
        (out, EFI_SUCCESS, need)
  end.

(** ** Paths from the guest *)

Fixpoint utf16_loop (units : list Z) (n : Z) : option (list Z) :=
  match units with
  | [] => Some []
  | u :: rest =>
      if u =? 0 then Some []
      else if (n =? MAX_PATH_BYTES) || (0x7f <? u) then None
      else cons u <$> utf16_loop rest (n + 1)
  end.

Definition utf16_path_to_ascii (units : list Z) : option (list Z) := utf16_loop units 0.

(** The part behind the last separator. *)
Definition path_tail (path : list Z) : list Z := rev (take_while not_sep (rev path)).

Definition path_is_grub_cfg (path : list Z) : bool := eq_ignore_ascii_case (path_tail path) (of_ascii "grub.cfg"%string).
Definition path_is_grubx64 (path : list Z) : bool := eq_ignore_ascii_case (path_tail path) (of_ascii "grubx64.efi"%string).

(** ** Lines, once and for all *)

Fixpoint lines_loop (k : nat) (src : list Z) : list Line :=
  match k, src with
  | S k', _ :: _ => let '(l, rest) := next_line src in l :: lines_loop k' rest
  | _, _ => []
  end.

(** The lines of a text. *)
Definition lines (src : list Z) : list Line := lines_loop (length src) src.
Definition text (ls : list Line) : list Z := concat (map line_text ls).

Definition line_ok (l : Line) : Prop :=
  Forall (λ c, c ≠ 10) (body l) ∧ (has_cr l = false → last (body l) ≠ Some 13).

(** Only the last line may lack its line feed. *)
Fixpoint lines_ok (ls : list Line) : Prop :=
  match ls with
  | [] => True
  | l :: rest => line_ok l ∧ (has_nl l = true ∨ rest = [] ∧ line_text l ≠ []) ∧ lines_ok rest
  end.

Lemma take_while_all f a b : Forall (λ c, f c = true) a → take_while f (a ++ b) = a ++ take_while f b.
Proof. induction 1 as [|c a E F IH]; [done|]. simpl. by rewrite E, IH. Qed.

Lemma drop_while_all f a b : Forall (λ c, f c = true) a → drop_while f (a ++ b) = drop_while f b.
Proof. induction 1 as [|c a E F IH]; [done|]. simpl. by rewrite E. Qed.

Lemma take_drop_while f l : take_while f l ++ drop_while f l = l.
Proof. induction l as [|c l IH]; [done|]. simpl. case_match; simpl; by f_equal. Qed.

Lemma take_while_Forall f l : Forall (λ c, f c = true) (take_while f l).
Proof. induction l as [|c l IH]; simpl; [constructor|]. destruct (f c) eqn:E; by constructor. Qed.

Lemma removelast_cr l : last l = Some 13 → removelast l ++ [13] = l.
Proof.
  induction l as [|x l _] using rev_ind; [done|]. rewrite last_snoc. intros [= ->]. by rewrite removelast_last.
Qed.

Lemma not_nl_iff l : Forall (λ c, not_nl c = true) l ↔ Forall (λ c, c ≠ 10) l.
Proof. apply Forall_iff. intros c. unfold not_nl. by rewrite negb_true_iff, Z.eqb_neq. Qed.

(** A turn of the loop consumes exactly the text of its line. *)
Lemma next_line_text src : src ≠ [] → let '(l, rest) := next_line src in
  line_text l ++ rest = src ∧ line_ok l ∧ (has_nl l = true ∨ rest = [] ∧ line_text l ≠ []).
Proof.
  intros N. unfold next_line. set (l := take_while not_nl src). set (rest := drop_while not_nl src).
  assert (l ++ rest = src) as E by apply take_drop_while.
  assert (Forall (λ c, c ≠ 10) l) as F by (apply not_nl_iff, take_while_Forall).
  assert ((if bool_decide (last l = Some 13) then removelast l else l) ++ (if bool_decide (last l = Some 13) then [13] else []) = l) as C.
  { case_bool_decide; [by apply removelast_cr|by rewrite app_nil_r]. }
  assert ((if negb (bool_decide (rest = [])) then [10] else []) ++ tail rest = rest) as T.
  { pose proof (drop_while_head not_nl src) as D. fold rest in D. destruct rest as [|c rest']; [done|].
    unfold not_nl in D. apply negb_false_iff, Z.eqb_eq in D. rewrite bool_decide_false by done. simpl. congruence. }
  split_and!.
  - unfold line_text. simpl. rewrite app_assoc, C, <-app_assoc, T. done.
  - split; simpl.
    + rewrite <-C in F. apply Forall_app in F as [F _]. exact F.
    + intros Q. apply bool_decide_eq_false in Q. by rewrite bool_decide_false.
  - simpl. destruct rest as [|c rest']; [|by left]. right. split; [done|]. unfold line_text. simpl. rewrite app_nil_r, C.
    rewrite app_nil_r in E. congruence.
Qed.

Lemma next_line_ok l rest : line_ok l → (has_nl l = true ∨ rest = [] ∧ line_text l ≠ []) → next_line (line_text l ++ rest) = (l, rest).
Proof.
  intros [F C] E. destruct l as [b cr nl]. simpl in *. unfold line_text. simpl. set (b' := b ++ (if cr then [13] else [])).
  assert (Forall (λ c, not_nl c = true) b') as F'.
  { apply Forall_app. split; [by apply not_nl_iff|]. by destruct cr; repeat constructor. }
  assert (bool_decide (last b' = Some 13) = cr) as Hc.
  { unfold b'. destruct cr; [by rewrite last_snoc|]. rewrite app_nil_r. apply bool_decide_eq_false. auto. }
  assert ((if cr then removelast b' else b') = b) as Hb.
  { unfold b'. destruct cr; [apply removelast_last|apply app_nil_r]. }
  rewrite <-!app_assoc, app_assoc. fold b'. unfold next_line.
  rewrite take_while_all, drop_while_all by done.
  assert (nl = true ∨ nl = false ∧ rest = []) as [-> | [-> ->]] by (destruct E as [|[]]; destruct nl; auto);
    simpl; rewrite app_nil_r, Hc, Hb; done.
Qed.

Lemma line_text_pos l (rest : list Z) : (has_nl l = true ∨ rest = [] ∧ line_text l ≠ []) → line_text l ≠ [].
Proof. intros [E|[_ E]]; [|done]. unfold line_text. rewrite E. intros Q. apply app_nil in Q as [_ Q]. by apply app_nil in Q as [_ ?]. Qed.

Lemma lines_text ls : ∀ k, lines_ok ls → (length (text ls) ≤ k)%nat → lines_loop k (text ls) = ls.
Proof.
  unfold text. induction ls as [|l ls IH]; intros k O L; simpl in *; [by destruct k|]. destruct O as (Ol & E & O).
  assert (has_nl l = true ∨ concat (map line_text ls) = [] ∧ line_text l ≠ []) as E' by (destruct E as [|[-> ?]]; auto).
  pose proof (line_text_pos _ _ E') as P. rewrite length_app in L.
  destruct (line_text l) as [|c t] eqn:T; [done|]. simpl in L. destruct k as [|k]; [lia|].
  change (lines_loop (S k) ((c :: t) ++ concat (map line_text ls))) with
    (let '(l', rest) := next_line ((c :: t) ++ concat (map line_text ls)) in l' :: lines_loop k rest).
  rewrite <-T, next_line_ok by (try done; by rewrite T). by rewrite IH by (done || lia).
Qed.

Lemma text_lines k : ∀ src, (length src ≤ k)%nat → lines_ok (lines_loop k src) ∧ text (lines_loop k src) = src.
Proof.
  induction k as [|k IH]; intros [|c src] L; simpl in L; try (simpl; done || lia).
  pose proof (next_line_text (c :: src) ltac:(done)) as N.
  change (lines_loop (S k) (c :: src)) with (let '(l', rest) := next_line (c :: src) in l' :: lines_loop k rest).
  destruct (next_line (c :: src)) as [l rest]. destruct N as (E & O & P).
  pose proof (line_text_pos _ _ P) as Q. pose proof (f_equal length E) as G. rewrite length_app in G. simpl in G.
  destruct (line_text l) as [|? ?] eqn:T; [done|]. simpl in G. destruct (IH rest) as [O' E']; [lia|]. split.
  - simpl. split_and!; [done| |done]. destruct P as [|[-> ?]]; [by left|right]. rewrite T. split; [by destruct k|done].
  - unfold text in *. simpl. rewrite E', T. exact E.
Qed.

Lemma next_line_shorter c src : let '(_, rest) := next_line (c :: src) in (length rest ≤ length src)%nat.
Proof.
  pose proof (next_line_text (c :: src) ltac:(done)) as N. destruct (next_line (c :: src)) as [l rest]. destruct N as (E & O & P).
  pose proof (line_text_pos _ _ P) as Q. apply (f_equal length) in E. rewrite length_app in E. simpl in E. destruct (line_text l); [done|]. simpl in E. lia.
Qed.

(** *** The three passes over the lines *)

#[local] Opaque next_line.

Ltac line_loop IH := simpl; match goal with |- context [next_line ?s] => destruct (next_line s) as [l rest] end; simpl; rewrite IH.

Lemma needs_lines k : ∀ src, needs_loop k src = existsb (λ l, line_needs_serial (body l)) (lines_loop k src).
Proof. induction k as [|k IH]; intros [|c src]; try done. line_loop IH. by destruct (line_needs_serial (body l)). Qed.

Lemma write_lines k : ∀ src, write_loop k src = text (map amended (lines_loop k src)).
Proof. unfold text. induction k as [|k IH]; intros [|c src]; try done. by line_loop IH. Qed.

Lemma sat_sat a b c : 0 ≤ b → 0 ≤ c → sat_add64 (sat_add64 a b) c = sat_add64 a (b + c).
Proof. mlia. Qed.

Lemma blen_amended l : blen (line_text (amended l)) =
  blen (body l) + (if line_needs_serial (body l) then extra_len else 0) + (if has_cr l then 1 else 0) + (if has_nl l then 1 else 0).
Proof.
  unfold line_text, amended, amend_line. cbn [body has_cr has_nl]. rewrite !blen_app.
  assert (blen [] = 0 ∧ blen [13] = 1 ∧ blen [10] = 1) as (? & ? & ?) by done. change extra_len with (blen extra_args).
  destruct (line_needs_serial (body l)), (has_cr l), (has_nl l); lia.
Qed.

Lemma measure_lines k : ∀ src n ch, n ≤ U64_MAX → measure_loop k src n ch =
  (sat_add64 n (blen (write_loop k src)), ch || existsb (λ l, line_needs_serial (body l)) (lines_loop k src)).
Proof.
  assert (∀ n, n ≤ U64_MAX → sat_add64 n (blen []) = n) as Z by (intros; change (blen []) with 0; mlia).
  assert (0 ≤ extra_len) as X by done.
  induction k as [|k IH]; intros [|c src] n ch N; try (simpl; rewrite Z, orb_false_r by done; done).
  simpl. destruct (next_line (c :: src)) as [l rest]. simpl. rewrite IH.
  2:{ repeat case_match; mlia. }
  rewrite blen_app, blen_amended, orb_assoc. f_equal. assert (0 ≤ blen (write_loop k rest) ∧ 0 ≤ blen (body l)) by (unfold blen; lia).
  repeat case_match; rewrite ?sat_sat by lia; f_equal; lia.
Qed.

(** *** What amending does to a line *)

Lemma bytes_contains_app a needle c : needle ≠ [] → bytes_contains (a ++ needle ++ c) needle = true.
Proof.
  assert (∀ h n, bytes_contains h n = negb (bool_decide (n = [])) &&
    (starts_with h n || match h with [] => false | _ :: rest => bytes_contains rest n end)) as E by (by intros []).
  intros N. rewrite E, bool_decide_false by done. induction a as [|x a IH]; simpl.
  - unfold starts_with. rewrite take_app_length, bool_decide_true; done.
  - rewrite E, bool_decide_false by done. simpl in *. rewrite IH. apply orb_true_r.
Qed.

Lemma trim_app b x : trim_ascii_start b ≠ [] → trim_ascii_start (b ++ x) = trim_ascii_start b ++ x.
Proof. unfold trim_ascii_start. induction b as [|c b IH]; [done|]. simpl. by case_match. Qed.

(** A line that was amended needs it no more. *)
Lemma amend_line_done b : line_needs_serial (amend_line b) = false.
Proof.
  unfold amend_line. destruct (line_needs_serial b) eqn:E; [|by rewrite app_nil_r].
  assert (trim_ascii_start b ≠ []) as T.
  { intros Q. unfold line_needs_serial in E. rewrite Q in E. done. }
  unfold line_needs_serial. rewrite trim_app by done. case_match; [done|]. apply negb_false_iff. unfold extra_args.
  rewrite (app_assoc (trim_ascii_start b) [32]). by apply bytes_contains_app.
Qed.

Lemma last_app_ne (a b : list Z) : b ≠ [] → last (a ++ b) = last b.
Proof. intros N. rewrite last_app. destruct (last b) eqn:E; [done|]. by apply last_None in E. Qed.

Lemma amended_ok l : line_ok l → line_ok (amended l).
Proof.
  intros [F C]. unfold amended, amend_line. destruct (line_needs_serial (body l)); [|by rewrite app_nil_r].
  split; simpl.
  - apply Forall_app. split; [done|]. apply (bool_decide_unpack _). by vm_compute.
  - intros _. rewrite last_app_ne by done. by vm_compute.
Qed.

Lemma amended_lines_ok ls : lines_ok ls → lines_ok (map amended ls).
Proof.
  induction ls as [|l ls IH]; [done|]. simpl. intros (O & E & R). split_and!; [by apply amended_ok| |by apply IH].
  destruct E as [|[-> N]]; [by left|right]. split; [done|]. intros Q. apply N. unfold line_text in *. simpl in *.
  apply app_nil in Q as [Q1 ->]. unfold amend_line in Q1. apply app_nil in Q1 as [-> _]. done.
Qed.

Lemma amended_quiet ls : existsb (λ l, line_needs_serial (body l)) (map amended ls) = false.
Proof. induction ls as [|l ls IH]; [done|]. simpl. by rewrite amend_line_done. Qed.

Lemma lines_write src : lines (write_loop (length src) src) = map amended (lines src).
Proof.
  unfold lines at 1. rewrite write_lines. apply lines_text; [|done]. apply amended_lines_ok. by apply text_lines.
Qed.

Lemma amend_result src cap : 0 ≤ cap < U64_MAX →
  amend_grub_cfg_serial src cap =
    if cfg_line_needs_serial src && (blen (write_loop (length src) src) <=? cap) then Some (write_loop (length src) src) else None.
Proof.
  intros C. unfold amend_grub_cfg_serial. rewrite measure_lines by mlia. rewrite orb_false_l, <-needs_lines.
  change (needs_loop (length src) src) with (cfg_line_needs_serial src).
  assert (0 ≤ blen (write_loop (length src) src)) as P by (unfold blen; lia).
  destruct (cfg_line_needs_serial src); [|reflexivity]. rewrite orb_false_l, andb_true_l.
  assert (∀ n, 0 ≤ n → (cap <? sat_add64 0 n) = negb (n <=? cap)) as G by (intros; mlia).
  rewrite G by done. by destruct (_ <=? cap).
Qed.

Lemma amend_some src cap out : 0 ≤ cap < U64_MAX → amend_grub_cfg_serial src cap = Some out →
  blen out ≤ cap ∧ lines out = map amended (lines src) ∧ text (lines src) = src ∧ cfg_line_needs_serial src = true.
Proof.
  intros C. rewrite amend_result by done. destruct (cfg_line_needs_serial src); [|done]. rewrite andb_true_l.
  destruct (_ <=? cap) eqn:G; [|done]. intros [= <-].
  split_and!; [lia|apply lines_write|by apply text_lines|done].
Qed.

(** C38: the amended menu fits the buffer that was measured for it, has the lines of the
    original in their order and with their line ends, each kernel line that lacked the
    serial console with the arguments appended and every other line untouched, and needs
    no further amending. There is a result exactly when a line needs the arguments and
    the result fits. *)
Theorem amend_exact src cap : 0 ≤ cap < U64_MAX →
  match amend_grub_cfg_serial src cap with
  | Some out => blen out ≤ cap ∧ lines out = map amended (lines src) ∧ text (lines src) = src ∧
      cfg_line_needs_serial src = true ∧ cfg_line_needs_serial out = false
  | None => cfg_line_needs_serial src = false ∨ cap < blen (text (map amended (lines src)))
  end.
Proof.
  intros C. destruct (amend_grub_cfg_serial src cap) as [out|] eqn:A.
  - destruct (amend_some _ _ _ C A) as (L & Lx & T & N). split_and!; [done..|].
    unfold cfg_line_needs_serial. rewrite needs_lines. change (lines_loop _ _) with (lines out). rewrite Lx. apply amended_quiet.
  - rewrite amend_result in A by done. destruct (cfg_line_needs_serial src); [right|by left]. rewrite andb_true_l in A.
    destruct (_ <=? cap) eqn:G; [done|]. unfold lines. rewrite <-write_lines. lia.
Qed.

(** ** Handles *)

Definition fs_ok (fs : FileSystem) : Prop := Z.of_nat (length (slots fs)) = FILE_SLOTS.

Definition opened (fs : FileSystem) (h : Z) : option OpenFile := snd <$> slot_of fs h.

Lemma handle_bits s : 0 ≤ s < 4096 → handle_for s = FILE_HANDLE_TAG + s ∧ Z.land (handle_for s) (bnot64 0xFFF) = FILE_HANDLE_TAG ∧
  Z.land (handle_for s) 0xFFF = s.
Proof.
  intros S. assert (handle_for s = FILE_HANDLE_TAG + s) as E.
  { unfold handle_for. rewrite Z.lor_comm. change FILE_HANDLE_TAG with (4096 * (FILE_HANDLE_TAG / 4096)). by apply lor_page. }
  assert (u64 (FILE_HANDLE_TAG + s)) as U by (unfold FILE_HANDLE_TAG; mlia).
  rewrite E. split_and!; [done| |].
  - rewrite page_floor by done. unfold FILE_HANDLE_TAG. clear -S. dlia.
  - rewrite land_page. unfold FILE_HANDLE_TAG. clear -S. dlia.
Qed.

Lemma slot_of_Some fs h s f : u64 h → fs_ok fs → slot_of fs h = Some (s, f) ↔
  h = handle_for s ∧ 0 ≤ s < FILE_SLOTS ∧ slots fs !! Z.to_nat s = Some f ∧ used f = true.
Proof.
  intros U O. unfold slot_of, FILE_SLOTS. split.
  - intros E. destruct (_ =? FILE_HANDLE_TAG) eqn:T; simpl in E; [|done]. apply Z.eqb_eq in T.
    rewrite page_floor in T by done. rewrite land_page in E.
    destruct (_ <? 16) eqn:L; [|done]. apply Z.ltb_lt in L. destruct (slots fs !! _) as [f'|] eqn:Q; simpl in E; [|done].
    destruct (used f') eqn:Us; [|done]. simplify_eq.
    assert (0 ≤ h mod 4096) by (apply Z.mod_pos_bound; lia). split_and!; try done.
    destruct (handle_bits (h mod 4096)) as [-> _]; [lia|]. rewrite <-T. clear. dlia.
  - intros (-> & S & Q & Us). destruct (handle_bits s) as (_ & T & L); [lia|]. rewrite T, L, Z.eqb_refl. simpl.
    rewrite (proj2 (Z.ltb_lt s 16)) by lia. rewrite Q. simpl. by rewrite Us.
Qed.

Lemma handle_inj s t : 0 ≤ s < FILE_SLOTS → 0 ≤ t < FILE_SLOTS → handle_for s = handle_for t → s = t.
Proof. unfold FILE_SLOTS. intros S T. destruct (handle_bits s), (handle_bits t); lia. Qed.

Lemma handle_u64 s : 0 ≤ s < FILE_SLOTS → u64 (handle_for s).
Proof. unfold FILE_SLOTS. intros S. destruct (handle_bits s) as [-> _]; [lia|]. unfold FILE_HANDLE_TAG. mlia. Qed.

(** What a store into a slot means for the table of handles. *)
Lemma opened_put fs s f h : fs_ok fs → 0 ≤ s < FILE_SLOTS → u64 h →
  opened (put_slot s f fs) h = if decide (h = handle_for s) then (if used f then Some f else None) else opened fs h.
Proof.
  intros O S U. assert (fs_ok (put_slot s f fs)) as O' by (unfold fs_ok; simpl; by rewrite length_insert).
  assert (Z.to_nat s < length (slots fs))%nat as L by (unfold fs_ok in O; lia). unfold opened.
  case_decide as E.
  - subst h. destruct (used f) eqn:Us.
    + rewrite (proj2 (slot_of_Some _ _ s f U O')); [done|]. split_and!; try done; try lia. simpl. by apply list_lookup_insert_eq.
    + destruct (slot_of (put_slot s f fs) (handle_for s)) as [[t g]|] eqn:Q; [|done].
      apply slot_of_Some in Q as (Q & T & G & Ug); [|done..]. apply handle_inj in Q; [|done..]. subst t. simpl in G.
      rewrite list_lookup_insert_eq in G by done. congruence.
  - assert (∀ t g, slot_of (put_slot s f fs) h = Some (t, g) ↔ slot_of fs h = Some (t, g)) as K.
    { intros t g. rewrite !slot_of_Some by done. simpl. split; intros (-> & T & G & Ug).
      - rewrite list_lookup_insert_ne in G by (intros Q; apply E; f_equal; lia). done.
      - rewrite list_lookup_insert_ne by (intros Q; apply E; f_equal; lia). done. }
    f_equal. apply option_eq. intros [t g]. apply K.
Qed.

Lemma alloc_slot_Some fs s : fs_ok fs → alloc_slot fs = Some s → 0 ≤ s < FILE_SLOTS ∧ opened fs (handle_for s) = None.
Proof.
  intros O. unfold alloc_slot. destruct (find_index _ _) as [i|] eqn:E; [|done]. intros [= <-].
  apply find_index_Some in E as (f & G & Us & _). apply negb_true_iff in Us. pose proof (lookup_lt_Some _ _ _ G) as L.
  assert (0 ≤ Z.of_nat i < FILE_SLOTS) as S by (unfold fs_ok in O; lia). split; [done|].
  unfold opened. destruct (slot_of _ _) as [[t g]|] eqn:Q; [|done].
  apply slot_of_Some in Q as (Q & T & G' & Ug); [|by apply handle_u64|done]. apply handle_inj in Q; [|done..]. subst t.
  rewrite Nat2Z.id in G'. congruence.
Qed.

Lemma alloc_slot_None fs : fs_ok fs → alloc_slot fs = None → ∀ s, 0 ≤ s < FILE_SLOTS → is_Some (opened fs (handle_for s)).
Proof.
  intros O A s S. unfold alloc_slot in A. destruct (find_index _ _) as [i|] eqn:E; [done|].
  unfold fs_ok in O. destruct (lookup_lt_is_Some_2 (slots fs) (Z.to_nat s)) as [f G]; [lia|].
  assert (used f = true) as Us.
  { apply negb_false_iff. eapply (proj1 (find_index_None _ _) E), list_elem_of_lookup_2, G. }
  exists f. unfold opened. by rewrite (proj2 (slot_of_Some _ _ s f (handle_u64 _ S) O)).
Qed.

(** Everything else about the table stays. *)
Definition others_kept (fs fs' : FileSystem) (h : Z) : Prop :=
  volume fs' = volume fs ∧ ∀ h', u64 h' → h' ≠ h → opened fs' h' = opened fs h'.

Lemma put_slot_ok s f fs : fs_ok fs → fs_ok (put_slot s f fs).
Proof. unfold fs_ok. simpl. by rewrite length_insert. Qed.

Lemma put_slot_kept s f fs : fs_ok fs → 0 ≤ s < FILE_SLOTS → others_kept fs (put_slot s f fs) (handle_for s).
Proof. intros O S. split; [done|]. intros h' U N. rewrite opened_put by done. by rewrite decide_False. Qed.

Lemma take_slot fs s f : fs_ok fs → alloc_slot fs = Some s → used f = true →
  u64 (handle_for s) ∧ fs_ok (put_slot s f fs) ∧ opened fs (handle_for s) = None ∧ opened (put_slot s f fs) (handle_for s) = Some f ∧
  others_kept fs (put_slot s f fs) (handle_for s).
Proof.
  intros O A U. apply alloc_slot_Some in A as [S N]; [|done].
  split_and!; [by apply handle_u64|by apply put_slot_ok|done| |by apply put_slot_kept]. rewrite opened_put by (done || by apply handle_u64).
  by rewrite decide_True, U.
Qed.

Lemma opened_used fs h f : u64 h → fs_ok fs → opened fs h = Some f → used f = true.
Proof.
  intros U O. unfold opened. destruct (slot_of fs h) as [[s g]|] eqn:E; [|done]. intros [= <-].
  by apply slot_of_Some in E as (_ & _ & _ & ?).
Qed.

Section Files.
Context `{VolumeRead R} (r : R).

(** What a path names: the handle itself, or the entry it resolves to. *)
Definition named (vol : FatVolume) (f : OpenFile) (path : list Z) (g : OpenFile) : Prop :=
  if decide (path = []) then g = seek 0 f
  else ∃ start e, start_dir f path = Some start ∧ resolve_in vol r start path = Ok e ∧ g = mkOpenFile true false e 0 0.

(** Opening a file for reading hands out a handle that was not in use, for the entry
    that the path names, at position 0, and touches no other handle; every refusal leaves
    the table as it was, and lack of room is reported only when all sixteen handles are
    in use. *)
Theorem open_exact fs this path mode fs' st h : u64 this → fs_ok fs → open r fs this path mode = (fs', st, h) →
  (st = EFI_SUCCESS → ∃ vol f g, volume fs = Some vol ∧ opened fs this = Some f ∧ named vol f path g ∧
     Z.land mode EFI_FILE_MODE_READ ≠ 0 ∧ Z.land mode (Z.lor EFI_FILE_MODE_WRITE EFI_FILE_MODE_CREATE) = 0 ∧
     u64 h ∧ fs_ok fs' ∧ opened fs h = None ∧ opened fs' h = Some g ∧ others_kept fs fs' h) ∧
  (st ≠ EFI_SUCCESS → fs' = fs ∧ h = 0) ∧
  (st = EFI_OUT_OF_RESOURCES → ∀ s, 0 ≤ s < FILE_SLOTS → is_Some (opened fs (handle_for s))).
Proof.
  intros U O. unfold open, named.
  destruct (volume fs) as [vol|] eqn:V; [|intros [= <- <- <-]; by split_and!].
  destruct (slot_of fs this) as [[s f]|] eqn:S; [|intros [= <- <- <-]; by split_and!].
  assert (opened fs this = Some f) as F by (unfold opened; by rewrite S).
  pose proof (opened_used _ _ _ U O F) as Us.
  destruct (Z.land mode (Z.lor _ _) =? 0) eqn:W; simpl; [|intros [= <- <- <-]; by split_and!]. apply Z.eqb_eq in W.
  destruct (Z.land mode EFI_FILE_MODE_READ =? 0) eqn:M; [intros [= <- <- <-]; by split_and!|]. apply Z.eqb_neq in M.
  case_bool_decide as P.
  - unfold duplicate. destruct (alloc_slot fs) as [t|] eqn:A; intros [= <- <- <-].
    + destruct (take_slot fs t (seek 0 f)) as (? & ? & ? & ? & ?); try done. split_and!; [|done..]. intros _. exists vol, f, (seek 0 f).
      by rewrite decide_True.
    + split_and!; [done..|]. intros _. by apply alloc_slot_None.
  - destruct (start_dir f path) as [start|] eqn:D; [|intros [= <- <- <-]; by split_and!].
    destruct (resolve_in vol r start path) as [e|[]] eqn:Q; try (intros [= <- <- <-]; by split_and!).
    destruct (alloc_slot fs) as [t|] eqn:A; intros [= <- <- <-].
    + destruct (take_slot fs t (mkOpenFile true false e 0 0)) as (? & ? & ? & ? & ?); try done.
      split_and!; [|done..]. intros _. exists vol, f, (mkOpenFile true false e 0 0). rewrite decide_False by done.
      split_and!; try done. by exists start, e.
    + split_and!; [done..|]. intros _. by apply alloc_slot_None.
Qed.

(** Closing frees the handle and nothing else; a handle that is not open is refused. *)
Lemma close_exact fs h fs' st : u64 h → fs_ok fs → close fs h = (fs', st) →
  (is_Some (opened fs h) ∧ st = EFI_SUCCESS ∧ fs_ok fs' ∧ opened fs' h = None ∧ others_kept fs fs' h) ∨
  (opened fs h = None ∧ st = EFI_INVALID_PARAMETER ∧ fs' = fs).
Proof.
  intros U O. unfold close. assert (opened fs h = snd <$> slot_of fs h) as E by done.
  destruct (slot_of fs h) as [[s f]|] eqn:S; intros [= <- <-]; [|by right].
  apply slot_of_Some in S as (-> & S & _ & _); [|done..]. left.
  split_and!; [by rewrite E|done|by apply put_slot_ok| |by apply put_slot_kept]. rewrite opened_put by done. by rewrite decide_True.
Qed.

(** ** Reading a file from front to back *)

Context (img : list Z) (vol : FatVolume) (V : vol_ok vol) (B : Backed r img)
  (W : total_sectors vol * bytes_per_sector vol ≤ blen img).

(** A regular file, its chain long enough for the size in its entry. *)
Record regular (f : OpenFile) (cs : list Z) : Prop := {
  reg_root : is_root f = false;
  reg_dir : is_dir (entry f) = false;
  reg_view : view_len f = 0;
  reg_chain : chain vol r (first_cluster (entry f)) cs;
  reg_short : Z.of_nat (length cs) ≤ MAX_CHAIN_HOPS + 1;
  reg_size : size (entry f) ≤ blen (chain_bytes vol img cs) }.

Definition content (f : OpenFile) (cs : list Z) : list Z := slice 0 (size (entry f)) (chain_bytes vol img cs).

Lemma regular_seek f cs pos : regular f cs → regular (seek pos f) cs.
Proof. by intros []. Qed.

Lemma slice_content f cs pos n : regular f cs → 0 ≤ pos ≤ size (entry f) → 0 ≤ n →
  slice pos n (content f cs) = slice pos (Z.min n (size (entry f) - pos)) (chain_bytes vol img cs).
Proof.
  intros G P N. unfold content, slice. rewrite drop_0, skipn_firstn_comm, take_take. f_equal. lia.
Qed.

Lemma blen_content f cs : regular f cs → 0 ≤ size (entry f) → blen (content f cs) = size (entry f).
Proof. intros G S. apply blen_slice; [lia|done|]. apply (reg_size _ _ G). Qed.

Lemma count_read_opened fs h : opened (count_read fs) h = opened fs h.
Proof. done. Qed.

(** A read returns the next bytes of the file, as many as there are, and moves the
    position past them. *)
Lemma read_next v fs h f cs n : u64 h → fs_ok fs → volume fs = Some vol → opened fs h = Some f → regular f cs →
  0 ≤ position f → 0 ≤ size (entry f) → 0 ≤ n →
  ∃ fs', read r v fs h n = (fs', EFI_SUCCESS, slice (position f) n (content f cs)) ∧ fs_ok fs' ∧
    opened fs' h = Some (seek (position f + blen (slice (position f) n (content f cs))) f) ∧ others_kept fs fs' h.
Proof.
  intros U O Vf F G P Sz N. unfold read. rewrite Vf. pose proof F as F'. unfold opened in F.
  destruct (slot_of fs h) as [[s f']|] eqn:S; simpl in F; [|done]. injection F as ->.
  rewrite (reg_root _ _ G), (reg_dir _ _ G), (reg_view _ _ G). simpl.
  assert (∀ bs, bs = [] → seek (position f + blen bs) f = f) as Z0.
  { intros ? ->. change (blen []) with 0. rewrite Z.add_0_r. by destruct f. }
  assert (others_kept fs fs h) as K by done.
  destruct (size (entry f) <=? position f) eqn:E.
  { apply Z.leb_le in E. rewrite slice_past by (rewrite blen_content; done). exists fs. by rewrite Z0. }
  apply Z.leb_gt in E. destruct (Z.min n _ =? 0) eqn:M.
  { apply Z.eqb_eq in M. assert (n = 0) as -> by lia. exists fs. by rewrite slice_none, Z0. }
  apply Z.eqb_neq in M. rewrite (read_chain_slice vol r V img B W _ cs) by (apply G || lia).
  rewrite <-slice_content by (done || lia). apply slot_of_Some in S as (-> & S & _ & Us); [|done..].
  eexists. split; [reflexivity|]. split; [by apply put_slot_ok|]. split.
  - rewrite count_read_opened, opened_put by done. rewrite decide_True by done. simpl. by rewrite Us.
  - by apply put_slot_kept.
Qed.

(** *** A run of reads *)

Fixpoint reads (v : LibraryGrubCfg) (fs : FileSystem) (h : Z) (ns : list Z) : FileSystem * list Z * bool :=
  match ns with
  | [] => (fs, [], true)
  | n :: rest =>
      let '(fs, st, bs) := read r v fs h n in
      let '(fs, more, ok) := reads v fs h rest in
      (fs, bs ++ more, (st =? EFI_SUCCESS) && ok)
  end.

Definition total (ns : list Z) : Z := foldr Z.add 0 ns.

Lemma total_pos ns : Forall (λ n, 0 ≤ n) ns → 0 ≤ total ns.
Proof. induction 1; simpl; lia. Qed.

Lemma reads_run ns : ∀ v fs h f cs, Forall (λ n, 0 ≤ n) ns → u64 h → fs_ok fs → volume fs = Some vol →
  opened fs h = Some f → regular f cs → 0 ≤ position f → 0 ≤ size (entry f) →
  ∃ fs', reads v fs h ns = (fs', slice (position f) (total ns) (content f cs), true) ∧ others_kept fs fs' h.
Proof.
  induction ns as [|n ns IH]; intros v fs h f cs N U O Vf F G P S; simpl; [by exists fs|].
  inversion_clear N as [|? ? N1 N2]. destruct (read_next v fs h f cs n) as (fs1 & E & O1 & F1 & K1); try done. rewrite E.
  set (bs := slice (position f) n (content f cs)) in *. assert (0 ≤ blen bs) by (unfold blen; lia).
  destruct (IH v fs1 h (seek (position f + blen bs) f) cs) as (fs2 & E2 & K2); try done.
  - destruct K1 as [K1 _]. by rewrite K1.
  - by apply regular_seek.
  - simpl. lia.
  - rewrite E2. exists fs2. split.
    + simpl. unfold bs. change (content (seek _ f) cs) with (content f cs).
      rewrite slice_next by (done || by apply total_pos). done.
    + destruct K1 as [K1 K1'], K2 as [K2 K2']. split; [congruence|]. intros h' U' N'. rewrite K2', K1'; done.
Qed.

(** *** The amended menu *)

Lemma fill_exact cluster cs orig k : ∀ filled, chain vol r cluster cs → Z.of_nat (length cs) ≤ MAX_CHAIN_HOPS + 1 →
  orig ≤ blen (chain_bytes vol img cs) → 0 ≤ filled ≤ orig → Z.of_nat k = (orig - filled + 4095) / 4096 →
  fill_loop r vol cluster orig k filled = Some (slice filled (orig - filled) (chain_bytes vol img cs)).
Proof.
  induction k as [|k IH]; intros filled C L S F K; simpl.
  - assert (orig - filled = 0) as -> by (clear -K F; dlia). by rewrite slice_none.
  - assert (0 < orig - filled) by (clear -K F; dlia). rewrite (read_chain_slice vol r V img B W _ cs) by (done || lia).
    rewrite blen_slice by lia. rewrite Z.eqb_refl. rewrite IH by (try done; try lia; clear -K F; dlia).
    simpl. rewrite slice_split by lia. do 2 f_equal. lia.
Qed.

Definition viewed (f : OpenFile) (n : Z) : OpenFile := mkOpenFile (used f) (is_root f) (entry f) 0 n.

Lemma arm_amends v fs h f cs out : u64 h → fs_ok fs → volume fs = Some vol → opened fs h = Some f → regular f cs →
  0 < size (entry f) ≤ GRUB_CFG_VIEW_CAP - GRUB_CFG_SERIAL_SLACK →
  amend_grub_cfg_serial (content f cs) (blen (lg_bytes v)) = Some out →
  ∃ v' fs', arm_library_serial_view r v fs h = (v', fs', Amended) ∧ v' = mkLibraryGrubCfg (first_cluster (entry f)) (blen out) (splice 0 out (lg_bytes v)) ∧
    fs_ok fs' ∧ opened fs' h = Some (viewed f (blen out)) ∧ others_kept fs fs' h.
Proof.
  intros U O Vf F G S A. unfold arm_library_serial_view. unfold opened in F. destruct (slot_of fs h) as [[s f']|] eqn:E; [|done].
  simpl in F. injection F as ->. assert (is_root f || is_dir (entry f) = false) as -> by (by rewrite (reg_root _ _ G), (reg_dir _ _ G)).
  rewrite (proj2 (Z.eqb_neq _ 0)) by lia. rewrite (proj2 (Z.ltb_ge _ _)) by lia. rewrite Vf.
  rewrite (fill_exact _ cs) by (try apply G; try lia; rewrite Z2Nat.id by (apply Z.div_pos; lia); f_equal; lia).
  rewrite Z.sub_0_r. change (slice 0 (size (entry f)) _) with (content f cs). rewrite A.
  apply slot_of_Some in E as (-> & S' & _ & Us); [|done..]. eexists _, _. split; [reflexivity|].
  split_and!; [done|by apply put_slot_ok| |by apply put_slot_kept].
  rewrite opened_put by done. rewrite decide_True by done. unfold viewed. simpl. by rewrite Us.
Qed.

Lemma read_view v fs h f n : u64 h → fs_ok fs → volume fs = Some vol → opened fs h = Some f →
  is_root f = false → is_dir (entry f) = false → 0 < view_len f → 0 ≤ position f < view_len f → 0 < n →
  (lg_cluster v = first_cluster (entry f) → lg_len v = view_len f →
     ∃ fs', read r v fs h n = (fs', EFI_SUCCESS, slice (position f) (Z.min n (view_len f - position f)) (lg_bytes v)) ∧
       opened fs' h = Some (seek (position f + Z.min n (view_len f - position f)) f)) ∧
  (lg_cluster v ≠ first_cluster (entry f) → read r v fs h n = (fs, EFI_DEVICE_ERROR, [])).
Proof.
  intros U O Vf F Rt D L P N. unfold read. rewrite Vf. unfold opened in F. destruct (slot_of fs h) as [[s f']|] eqn:E; [|done].
  simpl in F. injection F as ->. rewrite Rt, D. simpl orb. cbv iota. rewrite (proj2 (Z.eqb_neq _ 0)) by lia. simpl negb. cbv iota.
  unfold read_serial_view. rewrite (proj2 (Z.leb_gt _ _)) by lia. split.
  - intros -> ->. rewrite !Z.eqb_refl. simpl orb. cbv iota. rewrite (proj2 (Z.eqb_neq _ 0)) by lia.
    apply slot_of_Some in E as (-> & S' & _ & Us); [|done..]. eexists. split; [reflexivity|].
    rewrite count_read_opened, opened_put by done. rewrite decide_True by done. simpl. by rewrite Us.
  - intros Q. by rewrite (proj2 (Z.eqb_neq _ _) Q).
Qed.

End Files.

(** When a menu is opened for the library CD, what the handle returns from then on is
    the amended menu: the file is read whole, however many clusters it spans, amended,
    and a read from the start returns its first bytes. The other handles keep their
    files. *)
Theorem menu_served `{VolumeRead R} (r : R) img vol v fs h f cs out n :
  vol_ok vol → Backed r img → total_sectors vol * bytes_per_sector vol ≤ blen img →
  u64 h → fs_ok fs → volume fs = Some vol → opened fs h = Some f → regular r img vol f cs →
  0 < size (entry f) ≤ GRUB_CFG_VIEW_CAP - GRUB_CFG_SERIAL_SLACK → blen (lg_bytes v) = GRUB_CFG_VIEW_CAP →
  amend_grub_cfg_serial (content img vol f cs) GRUB_CFG_VIEW_CAP = Some out → 0 < n →
  ∃ v' fs' fs'', arm_library_serial_view r v fs h = (v', fs', Amended) ∧ others_kept fs fs' h ∧
    read r v' fs' h n = (fs'', EFI_SUCCESS, slice 0 n out) ∧ size_of fs' h = Some (blen out).
Proof.
  intros V B W U O Vf F G S Lb A N. destruct (arm_amends r img vol V B W v fs h f cs out) as (v' & fs' & E & Ev & O' & F' & K); try done.
  { by rewrite Lb. }
  destruct (amend_some (content img vol f cs) GRUB_CFG_VIEW_CAP out ltac:(by vm_compute) A) as (Lo & Lx & Tx & Nd). exists v', fs'.
  assert (0 < blen out) as P.
  { destruct out; [|unfold blen; simpl; lia]. simpl in Lx. destruct (lines (content img vol f cs)); [|done].
    simpl in Tx. by rewrite <-Tx in Nd. }
  destruct (read_view r vol v' fs' h (viewed f (blen out)) n) as [Rd _]; try done.
  { destruct K as [K _]. by rewrite K. }
  { apply (reg_root _ _ _ _ _ G). }
  { apply (reg_dir _ _ _ _ _ G). }
  destruct Rd as (fs'' & Rd & _); [by rewrite Ev..|]. exists fs''. split_and!; [done..| |].
  - rewrite Rd, Ev. simpl. f_equal. rewrite Z.sub_0_r. unfold slice, splice, blen in *.
    change (Z.to_nat 0) with 0%nat. rewrite take_0, !drop_0, app_nil_l, take_app_le by lia.
    destruct (decide (n ≤ Z.of_nat (length out))); [by rewrite Z.min_l|rewrite Z.min_r, Nat2Z.id, !take_ge by lia; done].
  - unfold size_of. unfold opened in F'. destruct (slot_of fs' h) as [[s g]|]; [|done]. simpl in *. injection F' as ->.
    unfold logical_size. simpl. rewrite (reg_root _ _ _ _ _ G), (proj2 (Z.eqb_neq _ 0)) by lia. done.
Qed.

(** There is one view for all handles: once the menu of another file has been amended,
    a handle that still reads its own view fails with a device error, although its file
    can be read. *)
Theorem view_lost `{VolumeRead R} (r : R) vol v fs h1 h2 f1 f2 v' fs' n :
  u64 h1 → u64 h2 → fs_ok fs → volume fs = Some vol → opened fs h1 = Some f1 → opened fs h2 = Some f2 →
  is_root f1 = false → is_dir (entry f1) = false → 0 ≤ position f1 < view_len f1 →
  first_cluster (entry f1) ≠ first_cluster (entry f2) →
  arm_library_serial_view r v fs h2 = (v', fs', Amended) → 0 < n →
  read r v' fs' h1 n = (fs', EFI_DEVICE_ERROR, []).
Proof.
  intros U1 U2 O Vf F1 F2 Rt D P C A N. assert (h1 ≠ h2) as Ne by (intros ->; congruence).
  unfold arm_library_serial_view in A. pose proof F2 as F2'. unfold opened in F2'. destruct (slot_of fs h2) as [[s f]|] eqn:E; [|done].
  simpl in F2'. injection F2' as ->. apply slot_of_Some in E as (-> & S & _ & _); [|done..].
  do 3 (case_match; [done|]). rewrite Vf in A. destruct (fill_loop _ _ _ _ _) as [raw|]; [|done].
  destruct (amend_grub_cfg_serial _ _) as [out|]; [|by case_match]. injection A as <- <-.
  eapply (read_view r vol _ _ h1 f1 n); try done; try lia.
  - by apply put_slot_ok.
  - rewrite opened_put by done. by rewrite decide_False.
Qed.

(** Reading an open file piece by piece, with buffers of any sizes, yields its bytes in
    order: what a run of reads returns together is the part of the file from the
    position on, up to the sum of the sizes or the end of the file; every read succeeds,
    and other handles keep their files and positions. *)
Theorem reads_in_order `{VolumeRead R} (r : R) img vol v fs h f cs ns :
  vol_ok vol → Backed r img → total_sectors vol * bytes_per_sector vol ≤ blen img →
  u64 h → fs_ok fs → volume fs = Some vol → opened fs h = Some f → regular r img vol f cs →
  0 ≤ position f → 0 ≤ size (entry f) → Forall (λ n, 0 ≤ n) ns →
  ∃ fs', reads r v fs h ns = (fs', slice (position f) (total ns) (content img vol f cs), true) ∧ others_kept fs fs' h.
Proof. intros V B W U O Vf F G P S N. by apply reads_run. Qed.

(** ** Files on a small volume *)

Definition cfg_a : list Z := of_ascii "set timeout=1"%string ++ [13; 10] ++ of_ascii "linux /vmlinuz quiet"%string ++ [13; 10] ++ of_ascii "initrd /initrd"%string.
Definition cfg_b : list Z := [9] ++ of_ascii "linuxefi /b"%string ++ [10].

Definition cfg_volume : list Z :=
  demo_boot 1 0 ++ pad0 512 (pack12 [0xFF8; 0xFFF; 0xFFF; 0xFFF]) ++
  pad0 512 (dir_entry (of_ascii "GRUB"%string) (of_ascii "CFG"%string) 0x20 2 (blen cfg_a) ++
            dir_entry (of_ascii "OTHER"%string) (of_ascii "CFG"%string) 0x20 3 (blen cfg_b)) ++
  pad0 512 cfg_a ++ pad0 512 cfg_b ++ replicate 3584 0.

Notation cfg_disk := (mkSliceDisk cfg_volume).

Definition mounted_fs : FileSystem := mkFileSystem (Some demo_vol) (slots new) 0.
Definition root_fs : FileSystem := (open_volume mounted_fs).1.1.
Definition fs_a : FileSystem := (open cfg_disk root_fs (handle_for 0) (of_ascii "grub.cfg"%string) 1).1.1.
Definition fs_ab : FileSystem := (open cfg_disk fs_a (handle_for 0) (of_ascii "\other.cfg"%string) 1).1.1.
Definition armed : LibraryGrubCfg * FileSystem * SerialView := arm_library_serial_view cfg_disk LIBRARY_GRUB_CFG fs_ab (handle_for 1).
Definition file_a : OpenFile := mkOpenFile true false (entry_shown (of_ascii "GRUB"%string) (of_ascii "CFG"%string) 0x20 2 (blen cfg_a)) 0 0.

Lemma cfg_backed : Backed cfg_disk cfg_volume.
Proof. apply slice_disk_backed. by vm_compute. Qed.

Lemma cfg_regular : regular cfg_disk cfg_volume demo_vol file_a [2].
Proof. split; [done|done|done|eapply chain_end; by vm_compute|by vm_compute|by vm_compute]. Qed.

Lemma amend_exact_witness :
  lines (write_loop (length cfg_a) cfg_a) = map amended (lines cfg_a) ∧ cfg_line_needs_serial (write_loop (length cfg_a) cfg_a) = false.
Proof.
  pose proof (amend_exact cfg_a 16384 ltac:(by vm_compute)) as E.
  assert (amend_grub_cfg_serial cfg_a 16384 = Some (write_loop (length cfg_a) cfg_a)) as Q by (by vm_compute).
  rewrite Q in E. destruct E as (_ & A & _ & _ & B). exact (conj A B).
Defined.

Lemma open_exact_witness : opened root_fs (handle_for 1) = None ∧ opened fs_a (handle_for 1) = Some file_a ∧
  opened fs_a (handle_for 0) = opened root_fs (handle_for 0).
Proof.
  assert (u64 (handle_for 0) ∧ handle_for 0 ≠ handle_for 1) as [U0 Ne] by (by vm_compute).
  assert (opened fs_a (handle_for 1) = Some file_a) as F by (by vm_compute).
  destruct (open_exact cfg_disk root_fs (handle_for 0) (of_ascii "grub.cfg"%string) 1 fs_a EFI_SUCCESS (handle_for 1)) as (E & _);
    [by vm_compute..|]. destruct E as (vol & f & g & _ & _ & _ & _ & _ & _ & _ & N & G & K); [reflexivity|].
  exact (conj N (conj F (proj2 K _ U0 Ne))).
Defined.

Lemma reads_in_order_witness : (reads cfg_disk LIBRARY_GRUB_CFG fs_a (handle_for 1) [5; 20; 7; 1000]).1.2 = cfg_a.
Proof.
  destruct (reads_in_order cfg_disk cfg_volume demo_vol LIBRARY_GRUB_CFG fs_a (handle_for 1) file_a [2] [5; 20; 7; 1000]) as (fs' & E & _);
    [exact demo_vol_ok|exact cfg_backed|by vm_compute|by vm_compute|by vm_compute|by vm_compute|by vm_compute|exact cfg_regular|by vm_compute|by vm_compute| |].
  - repeat constructor; lia.
  - rewrite E. by vm_compute.
Defined.

Lemma menu_served_witness : armed.2 = Amended ∧
  (read cfg_disk armed.1.1 armed.1.2 (handle_for 1) 4096).2 = write_loop (length cfg_a) cfg_a.
Proof.
  destruct (menu_served cfg_disk cfg_volume demo_vol LIBRARY_GRUB_CFG fs_ab (handle_for 1) file_a [2] (write_loop (length cfg_a) cfg_a) 4096)
    as (v' & fs' & fs'' & E & _ & Rd & _);
    [exact demo_vol_ok|exact cfg_backed|by vm_compute|by vm_compute|by vm_compute|by vm_compute|by vm_compute|exact cfg_regular|by vm_compute..|].
  unfold armed. rewrite E. cbn [fst snd]. rewrite Rd. cbn [fst snd]. split; [reflexivity|by vm_compute].
Defined.

Lemma view_lost_witness :
  let '(v, fs, st) := arm_library_serial_view cfg_disk armed.1.1 armed.1.2 (handle_for 2) in
  st = Amended ∧ read cfg_disk v fs (handle_for 1) 16 = (fs, EFI_DEVICE_ERROR, []).
Proof.
  destruct (arm_library_serial_view cfg_disk armed.1.1 armed.1.2 (handle_for 2)) as [[v fs] st] eqn:E.
  assert (st = Amended) as -> by (change st with (v, fs, st).2; rewrite <-E; by vm_compute). split; [done|].
  refine (view_lost cfg_disk demo_vol armed.1.1 armed.1.2 (handle_for 1) (handle_for 2)
    (viewed file_a (blen (write_loop (length cfg_a) cfg_a)))
    (mkOpenFile true false (entry_shown (of_ascii "OTHER"%string) (of_ascii "CFG"%string) 0x20 3 (blen cfg_b)) 0 0) v fs 16
    _ _ _ _ _ _ _ _ _ _ E _); clear E; by vm_compute.
Defined.

End FileSys.
