(* ===== verification/FileSvc.v ===== *)
(** * File services

    The file half of the firmware dispatcher (src/raynu_f/services.rs): the handlers of
    [OpenVolume], [Open], [Close], [Read], [GetPosition], [SetPosition], [GetInfo],
    [Write], [Delete], [SetInfo] and [Flush], with the guest's arguments read from and
    its results stored into guest memory. [This] is the address of one of sixteen
    protocol structures; its index is the slot of the open-file table. *)

From Stdlib Require String.
From S2P Require Import Prelude Bytes PeGuest Volume Fat FileSys.
Import String.StringSyntax.
#[local] Delimit Scope string_scope with string.

Module FileSvc.
Import PeGuest Volume Fat FileSys.

Definition IMAGE_FILE_PROTO_STRIDE : Z := 0x60.
Definition GRUB_PATH_CAP : Z := 80.
Definition GUID_FILE_INFO : list Z :=
  [0x92; 0x6E; 0x57; 0x09; 0x3F; 0x6D; 0xD2; 0x11; 0x8E; 0x39; 0x00; 0xA0; 0xC9; 0x69; 0x72; 0x3B].

(** ** The reader of the mounted volume *)

Definition BlockReadFn : Type := Z → Z → Z → option (list Z).

Record FatVolumeReader := mkFatVolumeReader { fvr_read : BlockReadFn; fvr_base : Z; fvr_media_id : Z }.

#[global] Instance fat_volume_read : VolumeRead FatVolumeReader := λ v off n,
  fvr_read v (fvr_media_id v) (fvr_base v ⊞ off) n.

(** ** The part of [FirmwareState] that the handlers use *)

Record FileState := mkFileState {
  fs : FileSystem;
  sfs : Z;
  file_proto_base : Z;
  read_blocks : option BlockReadFn;
  fat_volume_off : Z;
  fat_media_id : Z;
  append_kernel_serial : bool;
  staged_loader : list Z;
  grub_open_path : list Z;
  grub_open_pending : bool;
  view : LibraryGrubCfg }.

Definition with_fs (x : FileSystem) (st : FileState) : FileState :=
  mkFileState x (sfs st) (file_proto_base st) (read_blocks st) (fat_volume_off st) (fat_media_id st)
    (append_kernel_serial st) (staged_loader st) (grub_open_path st) (grub_open_pending st) (view st).

Definition with_view (v : LibraryGrubCfg) (st : FileState) : FileState :=
  mkFileState (fs st) (sfs st) (file_proto_base st) (read_blocks st) (fat_volume_off st) (fat_media_id st)
    (append_kernel_serial st) (staged_loader st) (grub_open_path st) (grub_open_pending st) v.

Definition with_grub (p : list Z) (st : FileState) : FileState :=
  mkFileState (fs st) (sfs st) (file_proto_base st) (read_blocks st) (fat_volume_off st) (fat_media_id st)
    (append_kernel_serial st) (staged_loader st) p true (view st).

Definition reader (st : FileState) : option FatVolumeReader :=
  f ← read_blocks st; Some (mkFatVolumeReader f (fat_volume_off st) (fat_media_id st)).

(** [This] to a slot, and back. *)
Definition file_slot_of (st : FileState) (this : Z) : option Z :=
  let base := file_proto_base st in
  if (base =? 0) || (this <? base) then None
  else
    let d := this - base in
    if negb (d mod IMAGE_FILE_PROTO_STRIDE =? 0) then None
    else
      let slot := d / IMAGE_FILE_PROTO_STRIDE in
      if slot <? FILE_SLOTS then Some slot else None.

Definition this_for (st : FileState) (handle : Z) : Z :=
  file_proto_base st ⊞ Z.land handle 0xFFF * IMAGE_FILE_PROTO_STRIDE.

(** ** The path GRUB was opened by *)

Definition fold_sep (c : Z) : Z := if c =? 47 then 92 else c.

(** The part in front of the last separator: [rposition] and the slice up to it. *)
Definition parent_of (staged : list Z) : option (list Z) :=
  let tail := path_tail staged in
  if bool_decide (length tail = length staged) then None
  else Some (take (length staged - length tail - 1) staged).

Definition join_grub_load_path (staged opened : list Z) (cap : Z) : option (list Z) :=
  match opened with
  | [] => None
  | c :: _ =>
      if is_sep c then
        if cap <? blen opened then None else Some (map fold_sep opened)
      else
        parent ← parent_of staged;
        if bool_decide (parent = []) then None
        else if cap <? blen parent + 1 + blen opened then None
        else Some (map fold_sep parent ++ 92 :: map fold_sep opened)
  end.

Definition note_grub_open (opened : list Z) (st : FileState) : FileState :=
  if negb (fat_media_id st =? MEDIA_ID_DISK) then st
  else
    match join_grub_load_path (staged_loader st) opened GRUB_PATH_CAP with
    | Some p => with_grub p st
    | None =>
        match join_grub_load_path (staged_loader st) (of_ascii "grubx64.efi"%string) GRUB_PATH_CAP with
        | Some p => with_grub p st
        | None => st
        end
    end.

(** ** Guest arguments *)

Section Guest.
Context `{GuestMem M}.

Definition read_u64 (m : M) (addr : Z) : option Z :=
  if addr =? 0 then None
  else
    let b := gm_read m addr 8 in
    if blen b <? 8 then None else Some (from_le b).

Definition write_u64 (m : M) (addr v : Z) : M * bool :=
  if addr =? 0 then (m, false)
  else let '(m, n) := gm_write m addr (to_le 8 v) in (m, n =? 8).

Definition read_guid (m : M) (addr : Z) : option (list Z) :=
  if addr =? 0 then None
  else
    let b := gm_read m addr 16 in
    if blen b <? 16 then None else Some b.

(** Code units up to the terminator, at most [MAX_PATH_BYTES] of them. *)
Fixpoint units_loop (m : M) (addr : Z) (k : nat) (i : Z) : option (list Z) :=
  match k with
  | O => Some []
  | S k' =>
      let b := gm_read m (addr ⊞ i * 2) 2 in
      if blen b <? 2 then None
      else if from_le b =? 0 then Some []
      else cons (from_le b) <$> units_loop m addr k' (i + 1)
  end.

Definition read_guest_path (m : M) (addr : Z) : option (list Z) :=
  if addr =? 0 then None
  else
    units ← units_loop m addr (Z.to_nat MAX_PATH_BYTES) 0;
    utf16_path_to_ascii units.

(** ** The handlers: the new state and memory, the status *)

Definition sfs_open_volume (st : FileState) (m : M) (this root : Z) : FileState * M * Z :=
  if (this =? 0) || negb (this =? sfs st) || (root =? 0) then (st, m, EFI_INVALID_PARAMETER)
  else
    let '(x, status, handle) := open_volume (fs st) in
    if status =? EFI_SUCCESS then
      let '(m, ok) := write_u64 m root (this_for st handle) in
      if ok then (with_fs x st, m, EFI_SUCCESS)
      else (with_fs (close x handle).1 st, m, EFI_INVALID_PARAMETER)
    else (with_fs x st, m, status).

Definition file_open (st : FileState) (m : M) (this new_ name_ mode : Z) : FileState * M * Z :=
  match file_slot_of st this with
  | None => (st, m, EFI_INVALID_PARAMETER)
  | Some slot =>
      match read_guest_path m name_ with
      | None => (st, m, EFI_INVALID_PARAMETER)
      | Some path =>
          match reader st with
          | None => (st, m, EFI_DEVICE_ERROR)
          | Some r =>
              let '(x, status, handle) := open r (fs st) (handle_for slot) path mode in
              let st := with_fs x st in
              if status =? EFI_SUCCESS then
                let st := if path_is_grubx64 path then note_grub_open path st else st in
                let st :=
                  if append_kernel_serial st && path_is_grub_cfg path then
                    let '(v, x, _) := arm_library_serial_view r (view st) (fs st) handle in
                    with_view v (with_fs x st)
                  else st in
                let '(m, ok) := if new_ =? 0 then (m, false) else write_u64 m new_ (this_for st handle) in
                if ok then (st, m, EFI_SUCCESS)
                else (with_fs (close (fs st) handle).1 st, m, EFI_INVALID_PARAMETER)
              else (st, m, status)
          end
      end
  end.

Definition file_close (st : FileState) (this : Z) : FileState * Z :=
  match file_slot_of st this with
  | Some slot => let '(x, status) := close (fs st) (handle_for slot) in (with_fs x st, status)
  | None => (st, EFI_INVALID_PARAMETER)
  end.

(** [while done < want], [k] being at least the number of 4096-byte pieces. *)
Fixpoint read_loop (r : FatVolumeReader) (v : LibraryGrubCfg) (h buffer want : Z) (k : nat)
    (x : FileSystem) (m : M) (done : Z) : FileSystem * M * Z * Z :=
  match k with
  | O => (x, m, EFI_SUCCESS, done)
  | S k' =>
      if want <=? done then (x, m, EFI_SUCCESS, done)
      else
        let chunk := Z.min (want - done) 4096 in
        let '(x, s, bs) := read r v x h chunk in
        if negb (s =? EFI_SUCCESS) then (x, m, s, done)
        else if blen bs =? 0 then (x, m, EFI_SUCCESS, done)
        else
          let '(m, stored) :=
            if buffer =? 0 then (m, false)
            else let '(m, n) := gm_write m (buffer ⊞ done) bs in (m, n =? blen bs) in
          if negb stored then (x, m, EFI_INVALID_PARAMETER, done)
          else if blen bs <? chunk then (x, m, EFI_SUCCESS, done + blen bs)
          else read_loop r v h buffer want k' x m (done + blen bs)
  end.

Definition file_read (st : FileState) (m : M) (this size_ptr buffer : Z) : FileState * M * Z :=
  match file_slot_of st this with
  | None => (st, m, EFI_INVALID_PARAMETER)
  | Some slot =>
      match read_u64 m size_ptr with
      | None => (st, m, EFI_INVALID_PARAMETER)
      | Some want =>
          match reader st with
          | None => (st, m, EFI_DEVICE_ERROR)
          | Some r =>
              let '(x, m, status, done) :=
                read_loop r (view st) (handle_for slot) buffer want (Z.to_nat ((want + 4095) / 4096)) (fs st) m 0 in
              let st := with_fs x st in
              if status =? EFI_SUCCESS then
                let '(m, ok) := write_u64 m size_ptr done in
                (st, m, if ok then EFI_SUCCESS else EFI_INVALID_PARAMETER)
              else (st, m, status)
          end
      end
  end.

Definition file_get_position (st : FileState) (m : M) (this out : Z) : M * Z :=
  match file_slot_of st this with
  | None => (m, EFI_INVALID_PARAMETER)
  | Some slot =>
      match get_position (fs st) (handle_for slot) with
      | Some p =>
          if out =? 0 then (m, EFI_INVALID_PARAMETER)
          else let '(m, ok) := write_u64 m out p in (m, if ok then EFI_SUCCESS else EFI_INVALID_PARAMETER)
      | None => (m, EFI_INVALID_PARAMETER)
      end
  end.

Definition file_set_position (st : FileState) (this pos : Z) : FileState * Z :=
  match file_slot_of st this with
  | Some slot => let '(x, status) := set_position (fs st) (handle_for slot) pos in (with_fs x st, status)
  | None => (st, EFI_INVALID_PARAMETER)
  end.

Definition file_get_info (st : FileState) (m : M) (this info_type size_ptr buffer : Z) : M * Z :=
  match file_slot_of st this with
  | None => (m, EFI_INVALID_PARAMETER)
  | Some slot =>
      match read_guid m info_type with
      | None => (m, EFI_INVALID_PARAMETER)
      | Some g =>
          if bool_decide (g = GUID_FILE_INFO) then
            match read_u64 m size_ptr with
            | None => (m, EFI_INVALID_PARAMETER)
            | Some sz =>
                let cap := Z.min sz 512 in
                let '(info, status, need) := file_info (fs st) (handle_for slot) (replicate (Z.to_nat cap) 0) in
                let '(m, _) := write_u64 m size_ptr need in
                if status =? EFI_SUCCESS then
                  if buffer =? 0 then (m, EFI_INVALID_PARAMETER)
                  else
                    let '(m, n) := gm_write m buffer (slice 0 need info) in
                    (m, if n =? need then EFI_SUCCESS else EFI_INVALID_PARAMETER)
                else (m, status)
            end
          else (m, EFI_UNSUPPORTED)
      end
  end.

(** [Write], [Delete] and [SetInfo]; [Flush]. *)
Definition file_refused (st : FileState) (this : Z) : Z :=
  if bool_decide (is_Some (file_slot_of st this)) then EFI_WRITE_PROTECTED else EFI_INVALID_PARAMETER.

Definition file_flush (st : FileState) (this : Z) : Z :=
  if bool_decide (is_Some (file_slot_of st this)) then EFI_SUCCESS else EFI_INVALID_PARAMETER.

End Guest.

(** ** Reading into guest memory *)

Lemma slab_write slab addr bs : 0 ≤ addr → addr + blen bs ≤ blen slab → blen slab < W64 →
  gm_write slab addr bs = (splice addr bs slab, blen bs).
Proof.
  intros A L W. simpl. unfold slab_in. rewrite (proj2 (Z.ltb_lt _ _)), (proj2 (Z.leb_le _ _)) by lia. done.
Qed.

Lemma slab_read slab addr n : 0 ≤ addr → addr + n ≤ blen slab → blen slab < W64 → gm_read slab addr n = slice addr n slab.
Proof.
  intros A L W. simpl. unfold slab_in. rewrite (proj2 (Z.ltb_lt _ _)), (proj2 (Z.leb_le _ _)) by lia. done.
Qed.

Lemma write_u64_slab slab addr v : 0 < addr → addr + 8 ≤ blen slab → blen slab < W64 →
  write_u64 slab addr v = (splice addr (to_le 8 v) slab, true).
Proof.
  intros A L W. unfold write_u64. rewrite (proj2 (Z.eqb_neq addr 0)) by lia.
  assert (blen (to_le 8 v) = 8) as E by apply (blen_to_le 8). rewrite slab_write by lia. by rewrite E.
Qed.

Lemma others_kept_refl x h : others_kept x x h.
Proof. done. Qed.

Lemma others_kept_trans x y z h : others_kept x y h → others_kept y z h → others_kept x z h.
Proof. intros [A A'] [C C']. split; [congruence|]. intros h' U N. rewrite C', A'; done. Qed.

Section Delivered.
Context (r : FatVolumeReader) (img : list Z) (vol : FatVolume) (V : vol_ok vol) (B : Backed r img)
  (W : total_sectors vol * bytes_per_sector vol ≤ blen img).

(** Where the loop stands when [bs] has been delivered. *)
Definition delivered (x : FileSystem) (h : Z) (f : OpenFile) (slab : list Z) (at_ done : Z) (bs : list Z)
    (res : FileSystem * list Z * Z * Z) : Prop :=
  ∃ x', res = (x', splice at_ bs slab, EFI_SUCCESS, done + blen bs) ∧ fs_ok x' ∧
    opened x' h = Some (seek (position f + blen bs) f) ∧ others_kept x x' h.

Lemma delivered_none x h f slab at_ done : fs_ok x → opened x h = Some f → delivered x h f slab at_ done [] (x, slab, EFI_SUCCESS, done).
Proof.
  intros O F. exists x. rewrite splice_none. change (blen []) with 0. rewrite !Z.add_0_r. split_and!; try done. rewrite F. by destruct f.
Qed.

Lemma read_loop_slab v h buffer want k : ∀ x slab f cs done, u64 h → fs_ok x → volume x = Some vol → opened x h = Some f →
  regular r img vol f cs → 0 ≤ position f → 0 ≤ size (entry f) → 0 < buffer → 0 ≤ done ≤ want → want - done ≤ 4096 * Z.of_nat k →
  blen slab < W64 → buffer + done + blen (slice (position f) (want - done) (content img vol f cs)) ≤ blen slab →
  delivered x h f slab (buffer + done) done (slice (position f) (want - done) (content img vol f cs))
    (read_loop r v h buffer want k x slab done).
Proof.
  induction k as [|k IH]; intros x slab f cs done U O Vf F G P S Bf D K Ws L.
  { assert (want - done = 0) as -> by lia. rewrite slice_none. by apply delivered_none. }
  cbn [read_loop]. destruct (want <=? done) eqn:Q.
  { apply Z.leb_le in Q. assert (want - done = 0) as -> by lia. rewrite slice_none. by apply delivered_none. }
  apply Z.leb_gt in Q. set (chunk := Z.min (want - done) 4096). assert (0 < chunk ≤ want - done) as C by lia.
  destruct (read_next r img vol V B W v x h f cs chunk) as (x1 & E1 & O1 & F1 & K1); try done; [lia|]. rewrite E1.
  set (bs := slice (position f) chunk (content img vol f cs)) in *. change (negb (EFI_SUCCESS =? EFI_SUCCESS)) with false. cbv iota.
  assert (0 ≤ blen bs) as B0 by (unfold blen; lia).
  destruct (blen bs =? 0) eqn:Ez; [apply Z.eqb_eq in Ez|apply Z.eqb_neq in Ez].
  { rewrite (slice_short _ chunk) by (fold bs; lia). fold bs. assert (bs = []) as N by (destruct bs; [done|unfold blen in Ez; simpl in Ez; lia]).
    rewrite N in *. change (blen []) with 0 in F1. rewrite Z.add_0_r in F1. exists x1. rewrite splice_none. change (blen []) with 0. by rewrite !Z.add_0_r. }
  rewrite (proj2 (Z.eqb_neq buffer 0)) by lia.
  pose proof (slice_next (position f) chunk (want - done - chunk) (content img vol f cs) P ltac:(lia) ltac:(lia)) as J. fold bs in J.
  replace (chunk + (want - done - chunk)) with (want - done) in J by lia. rewrite <-J in L |- *. rewrite blen_app in L.
  set (bs2 := slice (position f + blen bs) _ _) in *. assert (0 ≤ blen bs2) as B2 by (unfold blen; lia).
  rewrite add64_small by mlia. rewrite slab_write by lia. rewrite Z.eqb_refl. cbn [negb]. destruct (blen bs <? chunk) eqn:T.
  - apply Z.ltb_lt in T. assert (bs2 = []) as ->.
    { pose proof (slice_short (position f) chunk (want - done) (content img vol f cs) P ltac:(lia) T) as X. fold bs in X. rewrite <-J in X.
      by apply (f_equal length) in X; rewrite length_app in X; destruct bs2; [|simpl in X; lia]. }
    rewrite app_nil_r. by exists x1.
  - apply Z.ltb_ge in T. assert (blen bs = chunk) as Lc.
    { assert (blen bs ≤ chunk) by (unfold bs, slice, blen; rewrite length_take; lia). lia. }
    destruct (IH x1 (splice (buffer + done) bs slab) (seek (position f + blen bs) f) cs (done + blen bs)) as (x2 & E2 & O2 & F2 & K2); try done.
    + destruct K1 as [K1 _]. by rewrite K1.
    + by apply regular_seek.
    + simpl. lia.
    + lia.
    + lia.
    + by rewrite blen_splice by lia.
    + rewrite blen_splice by lia. simpl. change (content img vol (seek _ f) cs) with (content img vol f cs).
      replace (want - (done + blen bs)) with (want - done - chunk) by lia. fold bs2. lia.
    + rewrite E2. simpl in *. change (content img vol (seek _ f) cs) with (content img vol f cs) in *.
      replace (want - (done + blen bs)) with (want - done - chunk) in * by lia. fold bs2 in F2 |- *. exists x2. rewrite blen_app.
      replace (buffer + (done + blen bs)) with (buffer + done + blen bs) by lia. rewrite splice_split by lia.
      split_and!; [f_equal; lia|done|by rewrite F2; unfold seek; simpl; do 2 f_equal; lia|by eapply others_kept_trans].
Qed.

End Delivered.

Lemma read_u64_slab slab addr v : 0 < addr → addr + 8 ≤ blen slab → blen slab < W64 → u64 v → slice addr 8 slab = to_le 8 v →
  read_u64 slab addr = Some v.
Proof.
  intros A L W U E. unfold read_u64. rewrite (proj2 (Z.eqb_neq addr 0)) by lia. rewrite slab_read, E by lia.
  change (blen (to_le 8 v)) with 8. by rewrite from_to_le_u64.
Qed.

(** C34: [Read] on an open file stores the next bytes of the file at the guest's buffer, in
    steps of 4096 bytes that the guest cannot tell from one, as many as were asked for or
    are left, writes their number back to where the guest put the size, and moves the
    position by it; no other byte of guest memory and no other handle changes. *)
Theorem file_read_delivers st slab this size_ptr buffer slot r img vol f cs want
    (bs := slice (position f) want (content img vol f cs)) :
  vol_ok vol → Backed r img → total_sectors vol * bytes_per_sector vol ≤ blen img →
  file_slot_of st this = Some slot → reader st = Some r → fs_ok (fs st) → volume (fs st) = Some vol →
  0 ≤ slot < FILE_SLOTS → opened (fs st) (handle_for slot) = Some f → regular r img vol f cs → 0 ≤ position f → 0 ≤ size (entry f) →
  blen slab < W64 → 0 < size_ptr → size_ptr + 8 ≤ blen slab → u64 want → slice size_ptr 8 slab = to_le 8 want →
  0 < buffer → buffer + blen bs ≤ blen slab →
  ∃ st', file_read st slab this size_ptr buffer = (st', splice size_ptr (to_le 8 (blen bs)) (splice buffer bs slab), EFI_SUCCESS) ∧
    opened (fs st') (handle_for slot) = Some (seek (position f + blen bs) f) ∧ others_kept (fs st) (fs st') (handle_for slot).
Proof.
  intros V B W T Rd O Vf Sl F G P S Ws Pp Lp Uw E Bf L. unfold file_read. rewrite T, (read_u64_slab _ _ want), Rd by done.
  destruct Uw as [W0 W1].
  destruct (read_loop_slab r img vol V B W (view st) (handle_for slot) buffer want (Z.to_nat ((want + 4095) / 4096)) (fs st) slab f cs 0)
    as (x & E1 & O1 & F1 & K1); try done.
  - by apply handle_u64.
  - rewrite Z2Nat.id by (apply Z.div_pos; lia). clear -W0. dlia.
  - rewrite Z.sub_0_r, Z.add_0_r. done.
  - rewrite E1, Z.sub_0_r, !Z.add_0_r, Z.add_0_l in *. fold bs in E1, F1, K1 |- *. change (EFI_SUCCESS =? EFI_SUCCESS) with true. cbv iota.
    rewrite write_u64_slab by (try done; rewrite blen_splice; lia). exists (with_fs x st). done.
Qed.

(** The protocol structure whose address a successful open reports is the one from which
    later calls recover the handle: the sixteen structures and the sixteen slots
    correspond. *)
Theorem this_roundtrip st s : 0 < file_proto_base st → file_proto_base st + FILE_SLOTS * IMAGE_FILE_PROTO_STRIDE < W64 →
  0 ≤ s < FILE_SLOTS → file_slot_of st (this_for st (handle_for s)) = Some s.
Proof.
  unfold FILE_SLOTS, IMAGE_FILE_PROTO_STRIDE. intros B W S. destruct (handle_bits s) as (_ & _ & L); [lia|].
  unfold this_for, IMAGE_FILE_PROTO_STRIDE. rewrite L, add64_small by lia. unfold file_slot_of, FILE_SLOTS, IMAGE_FILE_PROTO_STRIDE.
  rewrite (proj2 (Z.eqb_neq _ 0)), (proj2 (Z.ltb_ge _ _)) by lia. cbn [orb].
  replace (file_proto_base st + s * 96 - file_proto_base st) with (s * 96) by lia. rewrite Z.mod_mul, Z.div_mul by lia. simpl.
  by rewrite (proj2 (Z.ltb_lt s 16)) by lia.
Qed.

(** ** A guest that reads the menu *)

Definition demo_backing : BlockReadFn := λ id off n, if id =? MEDIA_ID_CD then read_at cfg_disk off n else None.

Definition demo_state : FileState :=
  mkFileState fs_a 0x1000 0x2000 (Some demo_backing) 0 MEDIA_ID_CD false [] [] false LIBRARY_GRUB_CFG.

Definition demo_slab : list Z := splice 16 (to_le 8 40) (replicate 256 0).
Definition demo_reader : FatVolumeReader := mkFatVolumeReader demo_backing 0 MEDIA_ID_CD.

Lemma demo_reader_backed : Backed demo_reader cfg_volume.
Proof.
  intros off n O N L. unfold read_at, fat_volume_read. simpl. unfold demo_backing. simpl.
  rewrite add64_small by (try lia; assert (blen cfg_volume < W64) by (by vm_compute); lia). by apply cfg_backed.
Qed.

Lemma demo_regular : regular demo_reader cfg_volume demo_vol file_a [2].
Proof. split; [done|done|done|eapply chain_end; by vm_compute|by vm_compute|by vm_compute]. Qed.

Lemma file_read_delivers_witness :
  (file_read demo_state demo_slab 0x2060 16 32).1.2 = splice 16 (to_le 8 40) (splice 32 (slice 0 40 cfg_a) demo_slab).
Proof.
  destruct (file_read_delivers demo_state demo_slab 0x2060 16 32 1 demo_reader cfg_volume demo_vol file_a [2] 40) as (st' & E & _);
    [exact demo_vol_ok|exact demo_reader_backed|by vm_compute|by vm_compute|reflexivity|by vm_compute|by vm_compute|done|by vm_compute|
     exact demo_regular|by vm_compute..|].
  rewrite E. by vm_compute.
Defined.

Lemma this_roundtrip_witness : file_slot_of demo_state (this_for demo_state (handle_for 15)) = Some 15.
Proof. apply this_roundtrip; by vm_compute. Defined.

Example grub_joined :
  join_grub_load_path (of_ascii "\EFI\ubuntu\shimx64.efi"%string) (of_ascii "grubx64.efi"%string) GRUB_PATH_CAP =
    Some (of_ascii "\EFI\ubuntu\grubx64.efi"%string).
Proof. vm_compute. reflexivity. Qed.

(** ** A failed open leaves nothing behind *)

Lemma arm_kept `{VolumeRead R} (r : R) v x h v' x' res : u64 h → fs_ok x →
  arm_library_serial_view r v x h = (v', x', res) → fs_ok x' ∧ others_kept x x' h.
Proof.
  intros U O. unfold arm_library_serial_view. destruct (slot_of x h) as [[s f]|] eqn:E; [|intros [= <- <- <-]; done].
  apply slot_of_Some in E as (-> & S & _ & _); [|done..].
  repeat (case_match; try (intros [= <- <- <-]; done)). intros [= <- <- <-]. split; [by apply put_slot_ok|by apply put_slot_kept].
Qed.

Lemma file_slot_range st this slot : file_slot_of st this = Some slot → 0 ≤ slot < FILE_SLOTS.
Proof.
  unfold file_slot_of, IMAGE_FILE_PROTO_STRIDE. destruct (_ || _) eqn:E; [done|]. apply orb_false_iff in E as [_ E]. apply Z.ltb_ge in E.
  case_match; [done|]. destruct (_ <? FILE_SLOTS) eqn:L; [|done]. apply Z.ltb_lt in L. intros [= <-]. split; [|done]. apply Z.div_pos; lia.
Qed.

Lemma note_grub_fs p st : fs (note_grub_open p st) = fs st.
Proof. unfold note_grub_open. by repeat case_match. Qed.

Lemma close_back x y h : u64 h → fs_ok y → others_kept x y h → opened x h = None →
  ∀ h', u64 h' → opened (close y h).1 h' = opened x h'.
Proof.
  intros U O [_ K] N h' U'. destruct (close y h) as [z st] eqn:E. simpl. destruct (decide (h' = h)) as [->|Ne].
  - rewrite N. apply close_exact in E as [(_ & _ & _ & E & _)|(E & _ & ->)]; done.
  - apply close_exact in E as [(_ & _ & _ & _ & _ & E)|(_ & _ & ->)]; try done; [rewrite E by done|]; by apply K.
Qed.

(** C40: An open that is refused, for whatever reason and at whatever point (a bad argument, a
    missing file, a full table, or a result that cannot be stored after the file was
    already opened and its menu amended), leaves every handle as it was. *)
Theorem failed_open_leaks_nothing `{GuestMem M} st (m : M) this new_ name_ mode st' m' status : fs_ok (fs st) →
  file_open st m this new_ name_ mode = (st', m', status) → status ≠ EFI_SUCCESS →
  ∀ h, u64 h → opened (fs st') h = opened (fs st) h.
Proof.
  intros O. unfold file_open. destruct (file_slot_of st this) as [slot|] eqn:T; [|intros [= <- <- <-]; done].
  destruct (read_guest_path m name_) as [path|]; [|intros [= <- <- <-]; done].
  destruct (reader st) as [r|]; [|intros [= <- <- <-]; done].
  destruct (open r (fs st) (handle_for slot) path mode) as [[x s] h0] eqn:Q.
  apply file_slot_range in T. apply open_exact in Q as (Qs & Qf & _); [|by apply handle_u64|done].
  destruct (s =? EFI_SUCCESS) eqn:E; [apply Z.eqb_eq in E|apply Z.eqb_neq in E].
  2:{ intros [= <- <- <-] _. by destruct (Qf E) as [-> _]. }
  destruct (Qs E) as (vol & f & g & _ & _ & _ & _ & _ & U0 & Ox & N & F & K).
  cbv zeta. set (st1 := if path_is_grubx64 path then _ else _). assert (fs st1 = x) as E1 by (unfold st1; case_match; rewrite ?note_grub_fs; done).
  set (st2 := if append_kernel_serial st1 && path_is_grub_cfg path then _ else _).
  assert (fs_ok (fs st2) ∧ others_kept (fs st) (fs st2) h0) as [O2 K2].
  { unfold st2. case_match; [|by rewrite E1]. destruct (arm_library_serial_view _ _ _ _) as [[v y] res] eqn:A.
    rewrite E1 in A. apply arm_kept in A as [Oy Ky]; [|done|done]. simpl. split; [done|by eapply others_kept_trans]. }
  destruct (if new_ =? 0 then _ else _) as [m2 ok]. destruct ok; intros [= <- <- <-] Ne; [done|].
  simpl. intros h U. by apply (close_back (fs st) (fs st2) h0).
Qed.

Definition open_slab : list Z :=
  splice 64 (flat_map (λ c, [c; 0]) (of_ascii "other.cfg"%string)) (replicate 256 0).

Lemma failed_open_leaks_nothing_witness :
  let '(st', _, status) := file_open demo_state open_slab 0x2000 0 64 1 in
  status = EFI_INVALID_PARAMETER ∧ opened (fs st') (handle_for 1) = Some file_a ∧ opened (fs st') (handle_for 2) = None.
Proof.
  assert (fs_ok (fs demo_state)) as O by (vm_compute; reflexivity).
  assert (u64 (handle_for 1) ∧ u64 (handle_for 2)) as [U1 U2] by (split; apply handle_u64; vm_compute; intuition discriminate).
  assert (opened (fs demo_state) (handle_for 1) = Some file_a ∧ opened (fs demo_state) (handle_for 2) = None) as [F1 F2] by (split; vm_compute; reflexivity).
  destruct (file_open demo_state open_slab 0x2000 0 64 1) as [[st' m'] status] eqn:E.
  assert (status = EFI_INVALID_PARAMETER) as Q by (change status with (st', m', status).2; rewrite <-E; vm_compute; reflexivity).
  assert (status ≠ EFI_SUCCESS) as Ne by (rewrite Q; discriminate).
  pose proof (failed_open_leaks_nothing demo_state open_slab 0x2000 0 64 1 st' m' status O E Ne) as K.
  exact (conj Q (conj (eq_trans (K _ U1) F1) (eq_trans (K _ U2) F2))).
Defined.

End FileSvc.
