(* ===== verification/DiskKeep.v ===== *)
(** * Keeping the install disk

    src/mgmt/disk_persist.rs: how a reboot decides whether the install disk already holds
    a system. The probe of the durable disk (partition table, FAT parameter block, ext4
    magic), the pinned copy of the partition table, the latches that a probe leaves, and
    the choice of what the guest's disk is backed by.

    The durable disk is any reader, and since a USB disk may answer a read once and miss
    the next, every stage of a probe has its own. *)

From Stdlib Require String.
From S2P Require Import Prelude Bytes Volume Fat.
Import String.StringSyntax.
#[local] Delimit Scope string_scope with string.

Module DiskKeep.
Import Volume Fat.

Definition EXT4_SUPER_MAGIC : Z := 0xEF53.
Definition EXT4_MAGIC_OFF : Z := 0x438.
Definition LINUX_FS_GUID : list Z :=
  [0xAF; 0x3D; 0xC6; 0x0F; 0x83; 0x84; 0x72; 0x47; 0x8E; 0x79; 0x3D; 0x69; 0xD8; 0x47; 0x7D; 0xE4].

Inductive PersistKind := File | DurableLun | LeftoverDram.

Definition select_persist_kind (nested has_durable_media : bool) : PersistKind :=
  if negb has_durable_media then LeftoverDram else if nested then File else DurableLun.

Definition kind_survives_hv_reboot (k : PersistKind) : bool :=
  match k with File | DurableLun => true | LeftoverDram => false end.

(** ** What a disk holds *)

Section Media.
Context `{VolumeRead R} (disk : R).

(** The loop over the entries: those that are no file system of Linux are passed over. *)
Fixpoint linux_loop (array_off es : Z) (idxs : list Z) : option Z :=
  match idxs with
  | [] => None
  | i :: rest =>
      ent ← read_at disk (sat_add64 array_off (i * es)) (Z.min es 128);
      if bool_decide (slice 0 16 ent = ESP_TYPE_GUID) then linux_loop array_off es rest
      else if negb (bool_decide (slice 0 16 ent = LINUX_FS_GUID)) then linux_loop array_off es rest
      else if u64_le ent 32 =? 0 then linux_loop array_off es rest
      else Some (u64_le ent 32)
  end.

Definition linux_fs_start_lba_vol : option Z :=
  hdr ← read_at disk 512 512;
  let n := u32_le hdr 80 in
  let es := u32_le hdr 84 in
  if (es <? 128) || (4096 <? es) then None
  else linux_loop (sat_mul64 (u64_le hdr 72) 512) es (seqZ 0 (Z.min n 128)).

Definition esp_bpb (e : EspPartition) : option (Z * FatVolume) :=
  base ← checked_mul64 (start_lba e) 512;
  bpb ← read_at disk base 512;
  match parse_bpb bpb with Ok vol => Some (base, vol) | Err _ => None end.

Definition disk_has_fat_bpb_from_esp (e : EspPartition) : bool := bool_decide (is_Some (esp_bpb e)).

Definition disk_has_bootx64_from_esp (e : EspPartition) : bool :=
  match esp_bpb e with
  | None => false
  | Some (base, vol) =>
      match resolve_path vol (mkOffsetVol disk base) (of_ascii "\EFI\BOOT\BOOTX64.EFI"%string) with
      | Ok ent => bool_decide (name_bytes ent = of_ascii "BOOTX64.EFI"%string) && (0 <? size ent) && negb (is_dir ent)
      | Err _ => false
      end
  end.

Definition disk_has_ext4_vol : bool :=
  match linux_fs_start_lba_vol with
  | None => false
  | Some lba =>
      match read_at disk (sat_add64 (sat_mul64 lba 512) EXT4_MAGIC_OFF) 2 with
      | None => false
      | Some magic => from_le magic =? EXT4_SUPER_MAGIC
      end
  end.

Definition persist_media_looks_installed_vol : bool :=
  match find_esp disk with
  | Err _ => false
  | Ok e => disk_has_bootx64_from_esp e && disk_has_ext4_vol
  end.

End Media.

Definition persist_media_looks_installed (image : list Z) : bool :=
  persist_media_looks_installed_vol (mkSliceDisk image).

(** ** The pinned table and the latches *)

Definition GPT_PIN_SECTORS : Z := 34.
Definition GPT_PIN_BYTES : Z := GPT_PIN_SECTORS * 512.

Record Latches := mkLatches {
  keep_sticky : bool;
  efi_part_seen : bool;
  last_gpt_err : Z;
  last_gpt_fit : bool;
  last_gpt_fit_known : bool;
  pin_valid : bool;
  pin : list Z;
  ok_printed : bool }.

Definition latches0 : Latches := mkLatches false false 0 true true false (replicate (Z.to_nat GPT_PIN_BYTES) 0) false.

Definition persist_lun_remember_keep (keep : bool) (s : Latches) : Latches :=
  mkLatches (keep_sticky s || keep) (efi_part_seen s) (last_gpt_err s) (last_gpt_fit s) (last_gpt_fit_known s)
    (pin_valid s) (pin s) (ok_printed s).

Definition persist_lun_note_efi_part (sig : list Z) (s : Latches) : Latches :=
  mkLatches (keep_sticky s)
    (efi_part_seen s || ((8 <=? blen sig) && bool_decide (slice 0 8 sig = GPT_SIGNATURE)))
    (last_gpt_err s) (last_gpt_fit s) (last_gpt_fit_known s) (pin_valid s) (pin s) (ok_printed s).

Definition set_gpt_err (c : Z) (s : Latches) : Latches :=
  mkLatches (keep_sticky s) (efi_part_seen s) c (last_gpt_fit s) (last_gpt_fit_known s) (pin_valid s) (pin s) (ok_printed s).

Definition set_gpt_fit (fit known : bool) (s : Latches) : Latches :=
  mkLatches (keep_sticky s) (efi_part_seen s) (last_gpt_err s) fit known (pin_valid s) (pin s) (ok_printed s).

Definition set_pin (p : list Z) (s : Latches) : Latches :=
  mkLatches (keep_sticky s) (efi_part_seen s) (last_gpt_err s) (last_gpt_fit s) (last_gpt_fit_known s) true p (ok_printed s).

Definition persist_lun_gpt_pin_clear (s : Latches) : Latches :=
  mkLatches (keep_sticky s) (efi_part_seen s) (last_gpt_err s) (last_gpt_fit s) (last_gpt_fit_known s) false (pin s) (ok_printed s).

Definition persist_lun_clear_sticky (s : Latches) : Latches :=
  mkLatches false false 0 true true false (pin s) false.

Definition persist_lun_iso_forbidden (lun_serving seen : bool) : bool := lun_serving && seen.

(** The sectors of the prefix, in order; the first miss ends it. *)
Fixpoint pin_sectors `{VolumeRead R} (r : R) (idxs : list Z) : option (list Z) :=
  match idxs with
  | [] => Some []
  | i :: rest => sec ← read_at r (i * 512) 512; app sec <$> pin_sectors r rest
  end.

Definition persist_lun_gpt_pin_store `{VolumeRead R} (r : R) (s : Latches) : Latches * bool :=
  match pin_sectors r (seqZ 0 GPT_PIN_SECTORS) with
  | None => (s, false)
  | Some prefix =>
      let sig := slice 512 8 prefix in
      if negb (bool_decide (sig = GPT_SIGNATURE)) then (s, false)
      else (set_pin prefix (persist_lun_note_efi_part sig s), true)
  end.

Definition persist_lun_gpt_pin_read (s : Latches) (off n : Z) : option (list Z) :=
  if (n =? 0) || negb (pin_valid s) then None
  else
    e ← checked_add64 off n;
    if GPT_PIN_BYTES <? e then None else Some (slice off n (pin s)).

Record PinThenLun (R : Type) := mkPinThenLun { pt_latches : Latches; pt_lun : R }.
Arguments mkPinThenLun {R}.
Arguments pt_latches {R}.
Arguments pt_lun {R}.

#[global] Instance pin_then_lun_read `{VolumeRead R} : VolumeRead (PinThenLun R) := λ p off n,
  match persist_lun_gpt_pin_read (pt_latches p) off n with
  | Some bs => Some bs
  | None => read_at (pt_lun p) off n
  end.

(** ** The probe *)

Definition DURABLE_LUN_GUEST_USB_BYTES : Z := 8 * 1024 * 1024 * 1024.

Definition durable_lun_guest_usb_bytes (lun_bytes : Z) : Z :=
  if lun_bytes =? 0 then 0 else Z.min lun_bytes DURABLE_LUN_GUEST_USB_BYTES.

(** What the drivers report. *)
Record Drivers := mkDrivers { nvme_io_ready : bool; usb_bot_io_ready : bool; usb_bot_ns_bytes : Z }.

(** The disk at each stage of one probe. *)
Record Probe (R : Type) := mkProbe { p_gpt : R; p_fit : R; p_pin : R; p_fat : R; p_ext4 : R }.
Arguments mkProbe {R}.
Arguments p_gpt {R}.
Arguments p_fit {R}.
Arguments p_pin {R}.
Arguments p_fat {R}.
Arguments p_ext4 {R}.

Section Keep.
Context `{VolumeRead R} (d : Drivers).

Definition lun_gpt_fits_guest (r : R) (s : Latches) : Latches * option bool :=
  if nvme_io_ready d then (s, Some true)
  else if negb (usb_bot_io_ready d) then (s, Some true)
  else
    let guest := durable_lun_guest_usb_bytes (usb_bot_ns_bytes d) in
    if guest =? 0 then (s, Some true)
    else
      match read_at (mkPinThenLun s r) 512 512 with
      | None => (s, None)
      | Some lba1 => (persist_lun_note_efi_part (slice 0 8 lba1) s, Some (gpt_fits_guest_bytes lba1 guest))
      end.

Definition persist_lun_keep_parts (p : Probe R) (s : Latches) : Latches * (bool * bool * bool) :=
  let gpt := find_esp_skip_array_crc (mkPinThenLun s (p_gpt p)) in
  let s := set_gpt_err (match gpt with Ok _ => 0 | Err e => code e end) s in
  let '(s, fit, known) :=
    if is_ok gpt then
      let '(s, f) := lun_gpt_fits_guest (p_fit p) s in
      match f with Some f => (s, f, true) | None => (s, false, false) end
    else (s, false, false) in
  let s := set_gpt_fit fit known s in
  let keep_gpt := is_ok gpt && fit in
  let s :=
    if keep_gpt then (if negb (pin_valid s) then (persist_lun_gpt_pin_store (p_pin p) s).1 else s)
    else if negb (pin_valid s) then persist_lun_gpt_pin_clear s else s in
  let boot :=
    match gpt with
    | Ok e => if keep_gpt then disk_has_fat_bpb_from_esp (mkPinThenLun s (p_fat p)) e else false
    | Err _ => false
    end in
  let ext4 := keep_gpt && disk_has_ext4_vol (mkPinThenLun s (p_ext4 p)) in
  (persist_lun_remember_keep (keep_gpt && boot && ext4) s, (keep_gpt, boot, ext4)).

Definition persist_lun_gpt_parsed_no_fit (s : Latches) : bool :=
  (last_gpt_err s =? 0) && last_gpt_fit_known s && negb (last_gpt_fit s).

Definition persist_lun_probe_done (s : Latches) (parts : bool * bool * bool) : bool :=
  let '(gpt, boot, ext4) := parts in (gpt && boot && ext4) || persist_lun_gpt_parsed_no_fit s.

Definition persist_lun_probe_rank (parts : bool * bool * bool) : Z :=
  let '(a, b, c) := parts in Z.b2z a + Z.b2z b + Z.b2z c.

(** The probes that follow the first, one per retry. *)
Fixpoint retry_loop (ps : list (Probe R)) (s : Latches) (best : bool * bool * bool) : Latches * (bool * bool * bool) :=
  match ps with
  | [] => (s, best)
  | p :: rest =>
      let '(s, last) := persist_lun_keep_parts p s in
      let best := if persist_lun_probe_rank best <=? persist_lun_probe_rank last then last else best in
      if persist_lun_probe_done s best then (s, best) else retry_loop rest s best
  end.

Definition persist_lun_keep_parts_retry (p : Probe R) (ps : list (Probe R)) (s : Latches) : Latches * (bool * bool * bool) :=
  let '(s, best) := persist_lun_keep_parts p s in
  if persist_lun_probe_done s best then (s, best) else retry_loop ps s best.

Definition persist_lun_keep (p : Probe R) (ps : list (Probe R)) (s : Latches) : Latches * bool :=
  let '(s, (gpt, boot, ext4)) := persist_lun_keep_parts_retry p ps s in
  (s, (gpt && boot && ext4) || keep_sticky s).

Definition persist_lun_looks_installed (p : Probe R) (ps : list (Probe R)) (s : Latches) : Latches * bool :=
  let '(s, (gpt, boot, ext4)) := persist_lun_keep_parts_retry p ps s in (s, gpt && boot && ext4).

End Keep.

(** ** The choice *)

Inductive InstallDiskChoice := PersistKeep | PersistZero | LeftoverZero | PoolZero.

Definition nested_promotes_leftover_to_file_persist (host_hypervisor persist_already : bool) : bool :=
  host_hypervisor && negb persist_already.

Definition choose_install_disk_attach (persist_reserved looks_installed leftover_reserved : bool) : InstallDiskChoice :=
  if persist_reserved then (if looks_installed then PersistKeep else PersistZero)
  else if leftover_reserved then LeftoverZero
  else PoolZero.

Definition persist_ok_ready (keep durable_lun : bool) (s : Latches) : bool := keep && durable_lun && negb (ok_printed s).

Definition maybe_print_iron_persist_ok (keep durable_lun : bool) (s : Latches) : Latches * bool :=
  if negb (persist_ok_ready keep durable_lun s) then (s, false)
  else (mkLatches (keep_sticky s) (efi_part_seen s) (last_gpt_err s) (last_gpt_fit s) (last_gpt_fit_known s)
          (pin_valid s) (pin s) true, true).

(** The reserved region and the keep flag, each handed over once. *)
Record Reserved := mkReserved { res_hpa : Z; res_bytes : Z; install_keep : bool }.

Definition persist_install_disk_region (x : Reserved) : option (Z * Z) :=
  if (res_hpa x =? 0) || (res_bytes x =? 0) then None else Some (res_hpa x, res_bytes x).

Definition persist_install_disk_reserved (x : Reserved) : bool := bool_decide (is_Some (persist_install_disk_region x)).

Definition reserve_persist_install_disk (hpa bytes : Z) (x : Reserved) : Reserved := mkReserved hpa bytes (install_keep x).

Definition take_persist_install_disk (x : Reserved) : Reserved * option (Z * Z) :=
  (mkReserved 0 0 (install_keep x), persist_install_disk_region x).

Definition set_install_disk_keep (keep : bool) (x : Reserved) : Reserved := mkReserved (res_hpa x) (res_bytes x) keep.
Definition take_install_disk_keep (x : Reserved) : Reserved * bool := (mkReserved (res_hpa x) (res_bytes x) false, install_keep x).

(** ** A probe never forgets *)

(** What one state of the latches keeps of an earlier one. *)
Record remembers (s s' : Latches) : Prop := {
  rem_sticky : keep_sticky s = true → keep_sticky s' = true;
  rem_seen : efi_part_seen s = true → efi_part_seen s' = true;
  rem_pin : pin_valid s = true → pin_valid s' = true ∧ pin s' = pin s }.

#[global] Instance remembers_preorder : PreOrder remembers.
Proof.
  split.
  - intros s. by split.
  - intros a b c [A1 A2 A3] [B1 B2 B3]. split; [auto..|]. intros P. destruct (A3 P) as [P' E]. destruct (B3 P') as [? E']. by rewrite E', E.
Qed.

Ltac latch := split; simpl; intros; rewrite ?orb_true_iff; auto.

Section Latched.
Context `{VolumeRead R} (d : Drivers).

Lemma note_remembers sig s : remembers s (persist_lun_note_efi_part sig s).
Proof. latch. Qed.

Lemma store_remembers (r : R) s : pin_valid s = false → remembers s (persist_lun_gpt_pin_store r s).1.
Proof.
  intros P. unfold persist_lun_gpt_pin_store. repeat case_match; try (simpl; reflexivity). latch. congruence.
Qed.

Lemma fits_remembers (r : R) s : remembers s (lun_gpt_fits_guest d r s).1.
Proof. unfold lun_gpt_fits_guest. repeat case_match; try (simpl; reflexivity). apply note_remembers. Qed.

Lemma set_fit_remembers f k s : remembers s (set_gpt_fit f k s).
Proof. latch. Qed.

Lemma pin_step_remembers (r : R) (keep : bool) s :
  remembers s (if keep then (if negb (pin_valid s) then (persist_lun_gpt_pin_store r s).1 else s)
               else if negb (pin_valid s) then persist_lun_gpt_pin_clear s else s).
Proof.
  destruct (pin_valid s) eqn:P; simpl.
  - by destruct keep.
  - destruct keep; [by apply store_remembers|]. latch. congruence.
Qed.

Lemma keep_parts_remembers (p : Probe R) s : remembers s (persist_lun_keep_parts d p s).1.
Proof.
  unfold persist_lun_keep_parts. set (gpt := find_esp_skip_array_crc _). set (s1 := set_gpt_err _ s).
  assert (remembers s s1) as R1 by latch.
  set (x := if is_ok gpt then _ else _). assert (remembers s1 x.1.1) as R2.
  { unfold x. destruct (is_ok gpt); [|reflexivity]. pose proof (fits_remembers (p_fit p) s1) as F.
    destruct (lun_gpt_fits_guest d (p_fit p) s1) as [s2 [f|]]; exact F. }
  destruct x as [[s2 fit] known]. simpl in R2. cbv zeta. cbn [fst].
  etrans; [exact R1|]. etrans; [exact R2|]. etrans; [apply (set_fit_remembers fit known)|].
  etrans; [apply (pin_step_remembers (p_pin p) (is_ok gpt && fit))|]. latch.
Qed.

(** A probe that saw everything is latched. *)
Lemma keep_parts_latched (p : Probe R) s gpt boot ext4 : (persist_lun_keep_parts d p s).2 = (gpt, boot, ext4) →
  gpt && boot && ext4 = true → keep_sticky (persist_lun_keep_parts d p s).1 = true.
Proof.
  unfold persist_lun_keep_parts. destruct (if is_ok _ then _ else _) as [[s2 fit] known]. cbv zeta. cbn [fst snd].
  intros [= <- <- <-] K. simpl in K. simpl. rewrite K. apply orb_true_r.
Qed.

(** The invariant of the retries: the best probe so far, if complete, is latched. *)
Lemma retry_remembers ps : ∀ (s : Latches) best, (best.1.1 && best.1.2 && best.2 = true → keep_sticky s = true) →
  let '(s', b) := retry_loop d ps s best in remembers s s' ∧ (b.1.1 && b.1.2 && b.2 = true → keep_sticky s' = true).
Proof.
  induction ps as [|p ps IH]; intros s best B; [simpl; split; [reflexivity|done]|]. simpl.
  pose proof (keep_parts_remembers p s) as K. pose proof (keep_parts_latched p s) as L.
  destruct (persist_lun_keep_parts d p s) as [s1 [[g b] e]]. simpl in K, L. set (bst := if _ <=? _ then _ else _).
  assert (bst.1.1 && bst.1.2 && bst.2 = true → keep_sticky s1 = true) as B1.
  { unfold bst. case_match; [by apply L|]. intros Q. by apply (rem_sticky _ _ K), B. }
  destruct (persist_lun_probe_done s1 bst); [by split|].
  specialize (IH s1 bst B1). destruct (retry_loop d ps s1 bst) as [s2 b2]. destruct IH as [R2 L2]. split; [by etrans|done].
Qed.

(** C39: However often the disk is probed and whatever its reads return, a probe forgets
    nothing: a keep that was once latched stays, a partition signature that was once seen
    stays seen, a pinned table stays as it is. And when a disk is reported installed the
    keep is latched: in every later state [persist_lun_keep] answers yes whatever the
    reads return, also when the disk is lost and a later live probe reports it not installed. *)
Theorem probe_never_forgets (p : Probe R) ps s s' b : persist_lun_looks_installed d p ps s = (s', b) →
  remembers s s' ∧
  (b = true → keep_sticky s' = true ∧ ∀ t, remembers s' t → ∀ q qs, (persist_lun_keep d q qs t).2 = true).
Proof.
  unfold persist_lun_looks_installed.
  assert (∀ p ps s, let '(s', b) := persist_lun_keep_parts_retry d p ps s in
    remembers s s' ∧ (b.1.1 && b.1.2 && b.2 = true → keep_sticky s' = true)) as G.
  { clear. intros p ps s. unfold persist_lun_keep_parts_retry.
    pose proof (keep_parts_remembers p s) as K. pose proof (keep_parts_latched p s) as L.
    destruct (persist_lun_keep_parts d p s) as [s1 [[g b] e]]. simpl in K, L.
    assert (g && b && e = true → keep_sticky s1 = true) as L1 by (by apply L).
    destruct (persist_lun_probe_done s1 (g, b, e)); [by split|].
    pose proof (retry_remembers ps s1 (g, b, e) L1) as Q. destruct (retry_loop d ps s1 (g, b, e)) as [s2 b2].
    destruct Q as [R2 L2]. split; [by etrans|done]. }
  pose proof (G p ps s) as G1. destruct (persist_lun_keep_parts_retry d p ps s) as [s1 [[g e] x]]. simpl in G1. destruct G1 as [R1 L1].
  intros [= <- <-]. split; [done|]. intros Q. split; [by apply L1|]. intros t Rt q qs. unfold persist_lun_keep.
  pose proof (G q qs t) as G2. destruct (persist_lun_keep_parts_retry d q qs t) as [s2 [[g2 e2] x2]]. simpl in *. destruct G2 as [R2 _].
  rewrite (rem_sticky _ _ R2 (rem_sticky _ _ Rt (L1 Q))). apply orb_true_r.
Qed.

End Latched.

(** ** The pinned table answers for the disk *)

(** Two readers that answer the same questions about the table give the same answer. *)
Lemma find_esp_agree `{VolumeRead R1, VolumeRead R2} (r1 : R1) (r2 : R2) :
  read_lba r1 0 = read_lba r2 0 → read_lba r1 1 = read_lba r2 1 →
  (∀ lba1 hdr i, read_lba r1 1 = Some lba1 → parse_gpt_header lba1 = Ok hdr → 0 ≤ i < Z.min (number_of_entries hdr) 128 →
     read_at r1 (entry_off hdr i) (size_of_entry hdr) = read_at r2 (entry_off hdr i) (size_of_entry hdr)) →
  find_esp_skip_array_crc r1 = find_esp_skip_array_crc r2.
Proof.
  intros E0 E1 E. unfold find_esp_skip_array_crc, find_esp_opts. rewrite <-E0, <-E1. destruct (read_lba r1 0) as [lba0|]; [|done]. simpl.
  destruct (parse_protective_mbr lba0); [|done]. simpl. destruct (read_lba r1 1) as [lba1|] eqn:L; [|done]. simpl.
  destruct (parse_gpt_header lba1) as [hdr|] eqn:P; [|done]. simpl. destruct (256 <? size_of_entry hdr); [done|].
  specialize (E lba1 hdr). assert (∀ i, i ∈ seqZ 0 (Z.min (number_of_entries hdr) GPT_MAX_ENTRIES) →
    read_at r1 (entry_off hdr i) (size_of_entry hdr) = read_at r2 (entry_off hdr i) (size_of_entry hdr)) as F.
  { intros i I%elem_of_seqZ. unfold GPT_MAX_ENTRIES in I. apply E; done || lia. }
  revert F. generalize (seqZ 0 (Z.min (number_of_entries hdr) GPT_MAX_ENTRIES)). intros l.
  induction l as [|i l IH]; intros F; [done|]. simpl. rewrite F by left. rewrite IH; [done|]. intros j J. apply F. by right.
Qed.

Lemma pin_sectors_prefix `{VolumeRead R} (r : R) img k : Backed r img → ∀ a, 0 ≤ a → (a + Z.of_nat k) * 512 ≤ blen img →
  pin_sectors r (seqZ a (Z.of_nat k)) = Some (slice (a * 512) (Z.of_nat k * 512) img).
Proof.
  intros B. induction k as [|k IH]; intros a A L; [done|]. rewrite seqZ_S. simpl. rewrite backed by lia. simpl. rewrite IH by lia. simpl.
  replace ((a + 1) * 512) with (a * 512 + 512) by lia. rewrite slice_split by lia. do 2 f_equal. lia.
Qed.

(** Once the first 34 sectors have been pinned from a disk whose table ends there, every
    later search of the table gives the answer that the disk gave then, even when the
    disk no longer answers a single read. *)
Theorem pin_answers_for_disk `{VolumeRead R1, VolumeRead R2} (r : R1) (lost : R2) img s s' :
  Backed r img → GPT_PIN_BYTES ≤ blen img → Forall is_byte img → persist_lun_gpt_pin_store r s = (s', true) →
  (∀ lba1 hdr, read_lba r 1 = Some lba1 → parse_gpt_header lba1 = Ok hdr →
     partition_entry_lba hdr * 512 + Z.min (number_of_entries hdr) 128 * size_of_entry hdr ≤ GPT_PIN_BYTES) →
  find_esp_skip_array_crc (mkPinThenLun s' lost) = find_esp_skip_array_crc r.
Proof.
  intros B L Fb S A. unfold persist_lun_gpt_pin_store in S. change (seqZ 0 GPT_PIN_SECTORS) with (seqZ 0 (Z.of_nat 34)) in S.
  rewrite (pin_sectors_prefix r img) in S by (done || (unfold GPT_PIN_BYTES, GPT_PIN_SECTORS in L; lia)).
  set (pre := slice (0 * 512) _ img) in S. case_match; [done|]. injection S as <-.
  assert (∀ off n, 0 ≤ off → 0 < n → off + n ≤ GPT_PIN_BYTES →
    read_at (mkPinThenLun (set_pin pre (persist_lun_note_efi_part (slice 512 8 pre) s)) lost) off n = read_at r off n) as K.
  { intros off n O N E. unfold read_at at 1, pin_then_lun_read, persist_lun_gpt_pin_read. simpl.
    rewrite (proj2 (Z.eqb_neq n 0)) by lia. simpl. unfold checked_add64. unfold GPT_PIN_BYTES, GPT_PIN_SECTORS in *.
    rewrite (proj2 (Z.ltb_lt _ _)) by mlia. simpl. rewrite (proj2 (Z.ltb_ge _ _)) by lia. rewrite backed by lia.
    unfold pre. rewrite slice_slice by lia. f_equal. }
  apply find_esp_agree.
  - unfold read_lba. by apply K.
  - unfold read_lba. by apply K.
  - intros lba1 hdr i E P I. assert (read_lba r 1 = Some lba1) as E' by (rewrite <-E; unfold read_lba; symmetry; by apply K).
    specialize (A lba1 hdr E' P). assert (hdr_ok hdr) as (Q1 & Q2 & Q3).
    { eapply parse_gpt_header_ok; [|done]. unfold read_lba in E'. change (sat_mul64 1 GPT_LBA_SIZE) with 512 in E'.
      rewrite backed in E' by (unfold GPT_PIN_BYTES, GPT_PIN_SECTORS in L; lia).
      injection E' as <-. by apply Forall_slice. }
    assert (entry_off hdr i = partition_entry_lba hdr * 512 + i * size_of_entry hdr) as Q.
    { unfold entry_off, array_off, GPT_LBA_SIZE, GPT_PIN_BYTES, GPT_PIN_SECTORS in *. assert (0 ≤ i * size_of_entry hdr) by nia.
      assert (0 ≤ Z.min (number_of_entries hdr) 128 * size_of_entry hdr) by nia. assert (i * size_of_entry hdr ≤ Z.min (number_of_entries hdr) 128 * size_of_entry hdr) by nia. mlia. }
    rewrite Q. apply K; [nia|lia|]. assert ((i + 1) * size_of_entry hdr ≤ Z.min (number_of_entries hdr) 128 * size_of_entry hdr) by nia. lia.
Qed.

(** ** An installed disk *)

Definition keep_entries : list (list Z) := [demo_entry LINUX_FS_GUID 52 54; demo_entry ESP_TYPE_GUID 40 51].

Definition keep_disk : list Z :=
  pad0 (Z.to_nat 20480) (demo_disk 4210901895 keep_entries) ++ demo_volume ++
  pad0 1536 (replicate (Z.to_nat EXT4_MAGIC_OFF) 0 ++ to_le 2 EXT4_SUPER_MAGIC).

Example keep_disk_installed : persist_media_looks_installed keep_disk = true.
Proof. vm_compute. reflexivity. Qed.

Example blank_disk_not_installed : persist_media_looks_installed (replicate 2048 0) = false.
Proof. vm_compute. reflexivity. Qed.

Definition usb : Drivers := mkDrivers false true 0x100000000.
Definition good_probe : Probe SliceDisk := mkProbe (mkSliceDisk keep_disk) (mkSliceDisk keep_disk) (mkSliceDisk keep_disk) (mkSliceDisk keep_disk) (mkSliceDisk keep_disk).
Definition dead_probe : Probe SliceDisk := mkProbe (mkSliceDisk []) (mkSliceDisk []) (mkSliceDisk []) (mkSliceDisk []) (mkSliceDisk []).

Lemma probe_never_forgets_witness :
  let '(s, b) := persist_lun_looks_installed usb dead_probe [good_probe] latches0 in
  b = true ∧ (persist_lun_keep usb dead_probe [dead_probe; dead_probe] s).2 = true.
Proof.
  destruct (persist_lun_looks_installed usb dead_probe [good_probe] latches0) as [s b] eqn:E.
  assert (b = true) as Q by (change b with (s, b).2; rewrite <-E; clear E; by vm_compute). split; [exact Q|].
  apply (probe_never_forgets usb dead_probe [good_probe] latches0 s b E) in Q as [_ Q]. by apply Q.
Defined.

Lemma pin_answers_for_disk_witness :
  find_esp_skip_array_crc (mkPinThenLun (persist_lun_gpt_pin_store (mkSliceDisk keep_disk) latches0).1 (mkSliceDisk [])) =
    Ok (mkEspPartition 2 40 51 (replicate 16 7)).
Proof.
  rewrite (pin_answers_for_disk (mkSliceDisk keep_disk) (mkSliceDisk []) keep_disk latches0).
  - by vm_compute.
  - apply slice_disk_backed. by vm_compute.
  - by vm_compute.
  - apply (bool_decide_unpack _). by vm_compute.
  - by vm_compute.
  - intros lba1 hdr E P. assert (lba1 = slice 512 512 keep_disk) as ->.
    { enough (Some lba1 = Some (slice 512 512 keep_disk)) by congruence. rewrite <-E. by vm_compute. }
    assert (hdr = mkGptHeader GPT_REVISION_1_0 92 1 2 2 128) as ->.
    { enough (@Ok _ GptError hdr = Ok (mkGptHeader GPT_REVISION_1_0 92 1 2 2 128)) by congruence. rewrite <-P. by vm_compute. }
    by vm_compute.
Defined.

End DiskKeep.
